(* ===== verification/_CoqProject ===== *)
-Q . S2P
Prelude.v
KList.v
KListProofs.v
KListSort.v
Bitmap.v
Arithmetic.v
CString.v
CStringProofs.v
Kernel.v
Thread.v
Synch.v
SchedProofs.v
SynchProofs.v
Machine.v
ProcWait.v
Palloc.v
Pagedir.v
Stdio.v
StdioProofs.v
Stdlib.v
StdlibProofs.v
Random.v
Hash.v
HashProofs.v
Malloc.v
MallocProofs.v
MallocSpec.v
Loader.v
LoaderProofs.v
Ustar.v
UstarProofs.v
Directory.v
DirectoryProofs.v
File.v
FileProofs.v
Blocks.v
BlocksProofs.v
Input.v
InputProofs.v
Filesys.v
FilesysProofs.v
Syscall.v
SyscallProofs.v
Descriptors.v
DescriptorsProofs.v
Elf.v
ElfProofs.v
Exception.v
ExceptionProofs.v
Inode.v
InodeProofs.v
Paging.v
Devices.v
DevicesProofs.v
Timer.v
BitmapFile.v
