(* ===== verification/Prelude.v ===== *)
(** * A verification library for the kernel of TurboBaker5000 (Pintos)

    TurboBaker5000 is a fork of Pintos, an instructional kernel for IA-32.  This library
    models the C code of the kernel under src/src/ as Rocq functions and proves what the
    functions promise.  The functions are executable; the examples and witnesses run them.

    ** The program's parts

    - lib/kernel: intrusive doubly linked lists, bitmaps and hash tables.
    - lib: strings, formatted output, sorting and searching, random numbers, tar headers, and
      the 64-bit division routines that the compiler calls.
    - threads: the page allocator, [malloc], threads and their scheduler, interrupts,
      semaphores, locks and condition variables, and the start of the kernel.
    - userprog: page tables, the processes that user programs run in, the loader, the system
      calls, and the tables and handlers of exceptions.
    - devices: block devices and partitions, the keyboard, the serial port, the display, the
      timer chip, the speaker and the clock.
    - filesys: inodes and the free map, directories, open files, and the operations by name.

    The scheduler keeps its ready list and each semaphore keeps its waiters in lists of
    lib/kernel; the page allocator keeps its free pages in bitmaps, and so does the file system
    its free sectors; page tables are pages from the page allocator, and so are the arenas of
    [malloc]; locks and conditions are made of semaphores; formatted output writes through a
    callback that is a buffer for [snprintf] and the console for [printf]; a new process gets
    its pages, page tables and the words of its command line from the page allocator, the page
    tables and the string functions, and its segments from an open file; the system calls work
    on the descriptors of the process, which are open files; files and directories lie on
    inodes, and inodes on block devices.

    ** How C is modelled

    C code is state passing ([ST] in this file) over an explicit state, with the outcomes of
    [res]: a normal return, a panic (failed assertion), a fault (an access that C leaves
    undefined) or a loop that ran out of fuel.  A theorem that a function returns excludes the
    last three.  A 32-bit integer is a [Z], and the operations that can wrap around are
    written with [u32], [s32] and [u64]; a pointer is its address.  A loop is [loop] with a
    bound that its definition states and that is enough because each iteration visits another
    cell of a finite heap, another byte of a finite memory or another bit of an integer: the
    theorems show that the fuel never runs out on the inputs they admit.  Code that waits for a
    device reads the answers of the device from a list, whose length is the bound.

    ** The files

    - Prelude: outcomes, loops, weakest preconditions ([wp]), machine integers, shared lemmas.
    - KList (lib/kernel/list.c): the functions over a heap of links; [list_rep] says that the
      heap represents a list.  KListProofs: the loops.  KListSort: the merge sort.
    - Bitmap (lib/kernel/bitmap.c).  The abstraction of a bitmap is its function from indices
      to bits.  BitmapFile: reading a bitmap from a file and writing it.
    - Hash, HashProofs (lib/kernel/hash.c): a table represents a finite set of elements
      with distinct keys, whatever the number of buckets and whenever it is resized.
    - Arithmetic (lib/arithmetic.c): division by the [divl] instruction.
    - CString, CStringProofs (lib/string.c): a byte memory, the functions and their
      contracts on lists of bytes.
    - Stdio, StdioProofs (lib/stdio.c, lib/ctype.h, lib/kernel/console.c): [__vprintf] over a
      callback, number formatting, [snprintf] and [printf].
    - Stdlib, StdlibProofs (lib/stdlib.c): heap sort, binary search, [atoi].
    - Random (lib/random.c): the RC4 generator.
    - Ustar, UstarProofs (lib/ustar.c): the headers of tar archives.
    - Kernel: the data of threads/thread.h, synch.h and interrupt.c, with the activations of
      threads that are switched out.  Thread: threads/thread.c and interrupt.c, and the timer
      tick of devices/timer.c.  Synch: threads/synch.c, thread creation, and the pieces of
      [process_wait] (userprog/process.c) between its points of blocking.
    - SchedProofs, SynchProofs: the machine that interleaves threads and timer interrupts, whose
      steps are the operations of synch.c, [thread_create], [thread_yield], [thread_exit], the
      pieces of [process_wait], the idle loop and the tick, with the invariant of the scheduler
      and of the locks and that each step preserves it.  Machine: the guarantees for every
      reachable state.
    - ProcWait: [process_wait] with the exit of the child.
    - Palloc (threads/palloc.c, threads/vaddr.h): the two page pools over RAM.
    - Pagedir (userprog/pagedir.c, threads/pte.h): page directories and tables in RAM.
      Paging (threads/init.c): the kernel's own directory, and how the processor reads it.
    - Malloc (threads/malloc.c): arenas in pages of the page allocator.  MallocProofs: the
      invariant that ties arenas, free lists and blocks in use together.  MallocSpec: the
      contracts of [malloc], [calloc], [realloc] and [free].
    - Loader, LoaderProofs (userprog/process.c): the stack of a new process and its
      arguments, and the validation and placement of segments.  Elf, ElfProofs: reading the
      headers and the segments of an executable, and starting the process.
    - Directory (filesys/directory.c): directories over the class [InodeLayer], which states
      what inode.c promises them on a disk that can be read.  DirectoryProofs: a directory is a finite map from names to
      sectors; an instance of the class keeps files in memory.  File, FileProofs
      (filesys/file.c) and Filesys, FilesysProofs (filesys/filesys.c): open files, and the
      operations by name, over the same class.
    - Inode, InodeProofs (filesys/inode.c, free-map.c): creating, opening, removing and closing
      inodes on a block device and the counters of those that deny writes, with the free map.
    - Blocks, BlocksProofs (devices/block.c, partition.c): the registry of block devices over
      the class [DiskDriver], and the partition tables.
    - Input, InputProofs (devices/intq.c, input.c, kbd.c, serial.c): the interrupt queue, the
      keyboard and the serial port over the scheduler of Thread.
    - Devices, DevicesProofs (devices/vga.c, pit.c, speaker.c, rtc.c).  Timer (devices/timer.c):
      calibration and delays, with time counted in iterations of the empty loop.
    - Syscall, SyscallProofs (userprog/syscall.c): the system calls and the descriptor table.
    - Descriptors, DescriptorsProofs (userprog/gdt.c, threads/interrupt.c, exception.c):
      segment descriptors, the interrupt descriptor table and the handlers in it.
      Exception, ExceptionProofs (userprog/exception.c): [kill] and [page_fault].

    ** What the theorems show

    - Concurrency: in every reachable state each thread is on exactly the list its state says,
      and each blocked thread is blocked in a known call ([scheduler_lists_agree]), a lock has one holder ([lock_mutual_exclusion],
      [lock_states]), the ready list is served in turn ([round_robin]), and a semaphore wakes
      its first waiter ([sema_up_wakes_first]).  [process_wait] hands over the exit status
      when the child exits later, and panics when the child exits between its two halves.
    - Containers: sorting, splicing and removing duplicates on lists; the bitmap scan finds
      the first run; a hash table implements a finite map across resizing.
    - Memory: the page allocator never hands out a page twice, returns what was freed, detects
      a double free; page tables map exactly what was set; the processor sees RAM at the
      kernel's addresses and nothing else after start-up; blocks of [malloc] never overlap
      and keep their contents until they are freed, and the pages of an arena go back to the
      page allocator with its last block.
    - Processes: a new program finds its segments and its arguments where it expects them, no
      executable crashes the loader, accepted segments stay in user space, system calls keep
      the descriptor table well formed, and a page that is missing is supplied while there is
      memory.  What [exec] and [wait] let other processes do in between is a rely condition.
    - Files: directories refine finite maps, no sequence of operations loses an opener of an
      inode (given that [inode_create] and the free map leave the open inodes alone, which
      [allocation_keeps_inodes] proves of their code), no assertion on the counters of an inode fails, what is written is read back, and
      the free map has exactly the sectors in use.
    - Devices: a block device is an array of sectors, partitions stay inside their disk, the
      interrupt queue is a FIFO, the serial port keeps the order, the display is a terminal,
      and the interrupt table has the handlers that were registered.
    - Libraries: division against Euclidean division, string functions against reference
      functions on byte lists, formatted numbers against their digits, [atoi] after
      [snprintf] is the identity, heap sort sorts, binary search finds, the generator's
      table is always a permutation of the bytes, and tar headers are read back.
    - Where the code does not do what its comments say, a theorem states what it does
      (remainders cut to 32 bits, [pagedir_is_mapped], the race of [process_wait], sizes that
      wrap around in [malloc], [setup_stack] without memory, extended partitions, two readers
      of the input queue, system calls on closed descriptors, stack growth above [2^31], a page
      for a null pointer, an empty group of bits, the calibration of the timer, the date of the
      clock).

    ** What is not modelled

    - Assembly (loader.S, start.S, switch.S, intr-stubs.S), the IDE driver ide.c, which waits
      on ports for a disk, and shutdown.c.  The options of the command line and the order of
      initialisation in init.c: the components start from their initial states.
    - cache.c stores through pointers that were never initialised and its table never has
      storage, so that it has no defined behaviour; [inode_read_at] and [inode_write_at] go
      through it and are not modelled either.  What files and directories need of them is the
      class [InodeLayer], with an instance that keeps files in memory; its laws are those of a
      disk that can be read and enough memory: no read is short, and opening a sector never
      panics.  Inode models the rest of inode.c, where writing the free map to its own file is an argument.
    - [timer_sleep], which yields to other threads until the time has come; tss.c, one field of
      a table of the processor.  The TLB and the caches of the processor are not observable.
    - In the machine of SynchProofs, [thread_exit] goes without [process_exit]; Syscall models it for
      one process.  The bytes of the memory of a process do not include the permissions of
      pages, which are in the page tables, nor the objects of open files, which are a map.
    - The statistics, backtraces and dumps, which only print; fsutil.c, the tests, and the user
      programs in examples/ and their library.
    - In Bitmap, Hash, Blocks and the file system, what [malloc] answers is an argument. *)
From Stdlib Require Import ZArith Lia.
From stdpp Require Export base tactics numbers option strings gmap list.
Export stdpp.list_relations stdpp.list_basics stdpp.list_monad stdpp.list_misc.
#[global] Open Scope Z_scope.

(** ** Outcomes of C code

    [Ret] is a normal return.  [Panic] is a failed [ASSERT], a [PANIC] or a
    [NOT_REACHED] that is reached.  [Fault] is an access that C leaves undefined:
    a load or store outside every object of the model.  [NoFuel] is a loop that ran
    longer than the bound its definition states. *)
Inductive res (A : Type) : Type :=
| Ret (a : A)
| Panic
| Fault
| NoFuel.
Arguments Ret {A} a.
Arguments Panic {A}.
Arguments Fault {A}.
Arguments NoFuel {A}.

#[global] Instance res_eq_dec {A} `{EqDecision A} : EqDecision (res A).
Proof. solve_decision. Defined.

#[global] Instance res_ret : MRet res := λ A a, Ret a.
#[global] Instance res_bind : MBind res := λ A B f m,
  match m with
  | Ret a => f a
  | Panic => Panic
  | Fault => Fault
  | NoFuel => NoFuel
  end.

(** State-passing code over a state [S]. *)
Definition ST (S A : Type) : Type := S → res (A * S).
#[global] Instance ST_ret {S} : MRet (ST S) := λ A a s, Ret (a, s).
#[global] Instance ST_bind {S} : MBind (ST S) := λ A B f m s,
  match m s with
  | Ret (a, s') => f a s'
  | Panic => Panic
  | Fault => Fault
  | NoFuel => NoFuel
  end.

Declare Scope kernel_scope.
Delimit Scope kernel_scope with K.
#[global] Open Scope kernel_scope.

Definition panic {S A} : ST S A := λ _, Panic.
Definition fault {S A} : ST S A := λ _, Fault.
Definition gets {S A} (f : S → A) : ST S A := λ s, Ret (f s, s).
Definition modify {S} (f : S → S) : ST S () := λ s, Ret ((), f s).

(** [ASSERT (b)] of lib/debug.h. *)
Definition ASSERT {S} (b : bool) : ST S () := if b then mret () else panic.
Notation "'assert' b" := (ASSERT b) (at level 20, b at level 9) : kernel_scope.

(** Lifting code without state. *)
Definition lift {S A} (m : res A) : ST S A := λ s,
  match m with
  | Ret a => Ret (a, s)
  | Panic => Panic
  | Fault => Fault
  | NoFuel => NoFuel
  end.

(** ** Loops

    One iteration answers [Next] with the next values of the loop variables or
    [Stop] with the value the loop is left with. *)
Inductive ctl (A B : Type) : Type :=
| Next (a : A)
| Stop (b : B).
Arguments Next {A B} a.
Arguments Stop {A B} b.

Fixpoint loop {S A B} (fuel : nat) (body : A → ST S (ctl A B)) (a : A) : ST S B :=
  match fuel with
  | O => λ _, NoFuel
  | Datatypes.S n =>
      r ← body a;
      match r with
      | Next a' => loop n body a'
      | Stop b => mret b
      end
  end.

(** [for (i = from; n more times; i++)] whose body answers [Some r] to return [r] from
    the function and [None] to go on. *)
Fixpoint for_loop {S B} (n : nat) (from : Z) (body : Z → ST S (option B)) : ST S (option B) :=
  match n with
  | O => mret None
  | Datatypes.S n =>
      r ← body from;
      match r with
      | Some b => mret (Some b)
      | None => for_loop n (from + 1) body
      end
  end.

(** The same loop with a body that never returns from the function. *)
Fixpoint for_each {S} (n : nat) (from : Z) (body : Z → ST S ()) : ST S () :=
  match n with
  | O => mret ()
  | Datatypes.S n => body from;; for_each n (from + 1) body
  end.

(** ** Total correctness

    [wp m s Q]: the code [m] started in [s] returns normally, without a panic, a
    fault or running out of fuel, and its result and final state satisfy [Q]. *)
Definition wp {S A} (m : ST S A) (s : S) (Q : A → S → Prop) : Prop :=
  match m s with
  | Ret (a, s') => Q a s'
  | _ => False
  end.

Section wp.
Context {S : Type}.
Implicit Types s : S.

Lemma wp_ret {A} (a : A) s (Q : A → S → Prop) : Q a s → wp (mret a) s Q.
Proof. done. Qed.

Lemma wp_bind {A B} (m : ST S A) (f : A → ST S B) s (Q : B → S → Prop) :
  wp m s (λ a s', wp (f a) s' Q) → wp (m ≫= f) s Q.
Proof.
  unfold wp, mbind, ST_bind. by destruct (m s) as [[a s']| | |].
Qed.

Lemma wp_mono {A} (m : ST S A) s (P Q : A → S → Prop) :
  wp m s P → (∀ a s', P a s' → Q a s') → wp m s Q.
Proof. unfold wp. destruct (m s) as [[a s']| | |]; naive_solver. Qed.

Lemma wp_run {A} (m : ST S A) s a s' (Q : A → S → Prop) :
  m s = Ret (a, s') → Q a s' → wp m s Q.
Proof. unfold wp. by intros ->. Qed.

Lemma wp_inv {A} (m : ST S A) s (Q : A → S → Prop) :
  wp m s Q → ∃ a s', m s = Ret (a, s') ∧ Q a s'.
Proof. unfold wp. destruct (m s) as [[a s']| | |]; naive_solver. Qed.

Lemma wp_unit (m : ST S ()) s (Q : S → Prop) :
  wp m s (λ _ s', Q s') → ∃ s', m s = Ret ((), s') ∧ Q s'.
Proof. intros ([] & s' & ? & ?)%wp_inv. eauto. Qed.

Lemma wp_assert (b : bool) s (Q : () → S → Prop) :
  b = true → Q () s → wp (ASSERT b) s Q.
Proof. by intros ->. Qed.

Lemma wp_gets {A} (f : S → A) s (Q : A → S → Prop) : Q (f s) s → wp (gets f) s Q.
Proof. done. Qed.

Lemma wp_modify (f : S → S) s (Q : () → S → Prop) : Q () (f s) → wp (modify f) s Q.
Proof. done. Qed.

(** The rule for loops: an invariant indexed by a variant, which starts below the
    fuel and decreases with every iteration. *)
Lemma wp_loop {A B} (I : nat → A → S → Prop) (body : A → ST S (ctl A B))
    (Q : B → S → Prop) :
  (∀ n a s, I n a s →
    wp (body a) s (λ r s',
      match r with
      | Next a' => ∃ n', (n' < n)%nat ∧ I n' a' s'
      | Stop b => Q b s'
      end)) →
  ∀ fuel n a s, I n a s → (n < fuel)%nat → wp (loop fuel body a) s Q.
Proof.
  intros Hbody fuel. induction fuel as [|m IH]; intros n a s HI Hn; [lia|].
  simpl. apply wp_bind. eapply wp_mono; [by apply Hbody|].
  intros [a'|b] s'; simpl; [|by auto].
  intros (n' & Hlt & HI'). apply (IH n'); [done|lia].
Qed.

Lemma wp_for_loop {B} (I : Z → S → Prop) (body : Z → ST S (option B))
    (Q : option B → S → Prop) n : ∀ from s,
  (∀ i s, from ≤ i < from + Z.of_nat n → I i s →
    wp (body i) s (λ r s', match r with Some b => Q (Some b) s' | None => I (i + 1) s' end)) →
  (∀ s, I (from + Z.of_nat n) s → Q None s) →
  I from s → wp (for_loop n from body) s Q.
Proof.
  induction n as [|n IH]; intros from s Hb Hend HI; simpl.
  - apply wp_ret, Hend. by rewrite Z.add_0_r.
  - apply wp_bind. eapply wp_mono; [apply Hb; [lia|done]|]. intros [b|] s' Hs'; [done|].
    apply IH; [|intros s2 H2; apply Hend; by replace (from + _) with (from + 1 + Z.of_nat n) by lia|done].
    intros i s2 Hi. apply Hb. lia.
Qed.

Lemma wp_for_each (I : Z → S → Prop) (body : Z → ST S ()) (Q : () → S → Prop) n : ∀ from s,
  (∀ i s, from ≤ i < from + Z.of_nat n → I i s → wp (body i) s (λ _ s', I (i + 1) s')) →
  (∀ s, I (from + Z.of_nat n) s → Q () s) →
  I from s → wp (for_each n from body) s Q.
Proof.
  induction n as [|n IH]; intros from s Hb Hend HI; simpl.
  - apply wp_ret, Hend. by rewrite Z.add_0_r.
  - apply wp_bind. eapply wp_mono; [apply Hb; [lia|done]|]. intros [] s' Hs'.
    apply IH; [|intros s2 H2; apply Hend; by replace (from + _) with (from + 1 + Z.of_nat n) by lia|done].
    intros i s2 Hi. apply Hb. lia.
Qed.

Lemma bind_run {A B} (m : ST S A) (f : A → ST S B) s a s' :
  m s = Ret (a, s') → (m ≫= f) s = f a s'.
Proof. unfold mbind, ST_bind. by intros ->. Qed.

(** A counting loop whose body first panics at [k]. *)
Lemma for_each_panic (I : Z → S → Prop) (body : Z → ST S ()) k n : ∀ from s,
  from ≤ k < from + Z.of_nat n →
  (∀ i s, from ≤ i < k → I i s → wp (body i) s (λ _ s', I (i + 1) s')) →
  (∀ s, I k s → body k s = Panic) →
  I from s → for_each n from body s = Panic.
Proof.
  induction n as [|n IH]; intros from s Hk Hb Hp HI; [lia|]. simpl.
  destruct (decide (from = k)) as [->|Hne].
  - unfold mbind, ST_bind. by rewrite Hp.
  - destruct (wp_inv _ _ _ (Hb from s ltac:(lia) HI)) as ([] & s' & Hrun & HI').
    rewrite (bind_run _ _ _ _ _ Hrun). apply IH; [lia| |done..].
    intros i s2 Hi. apply Hb. lia.
Qed.

Lemma loop_next {A B} (body : A → ST S (ctl A B)) n a a' s s' :
  body a s = Ret (Next a', s') → loop (Datatypes.S n) body a s = loop n body a' s'.
Proof. intros H. simpl. by rewrite (bind_run _ _ _ _ _ H). Qed.

Lemma loop_stop {A B} (body : A → ST S (ctl A B)) n a b s s' :
  body a s = Ret (Stop b, s') → loop (Datatypes.S n) body a s = Ret (b, s').
Proof. intros H. simpl. by rewrite (bind_run _ _ _ _ _ H). Qed.
End wp.

#[global] Opaque wp.

(** Partial correctness: [wlp m s Q] constrains only normal returns. *)
Definition wlp {S A} (m : ST S A) (s : S) (Q : A → S → Prop) : Prop :=
  ∀ a s', m s = Ret (a, s') → Q a s'.

Section wlp.
Context {S : Type}.
Implicit Types s : S.

Lemma wlp_ret {A} (a : A) s (Q : A → S → Prop) : Q a s → wlp (mret a) s Q.
Proof. by intros HQ ? ? [= <- <-]. Qed.

Lemma wlp_bind {A B} (m : ST S A) (f : A → ST S B) s (Q : B → S → Prop) :
  wlp m s (λ a s', wlp (f a) s' Q) → wlp (m ≫= f) s Q.
Proof.
  unfold wlp, mbind, ST_bind. intros H b s' Hr.
  destruct (m s) as [[a s1]| | |]; try done. by eapply H.
Qed.

Lemma wlp_mono {A} (m : ST S A) s (P Q : A → S → Prop) :
  wlp m s P → (∀ a s', P a s' → Q a s') → wlp m s Q.
Proof. unfold wlp. naive_solver. Qed.

Lemma wlp_assert (b : bool) s (Q : () → S → Prop) : (b = true → Q () s) → wlp (ASSERT b) s Q.
Proof. destruct b; intros HQ [] ?; [|done]. intros [= <-]. by apply HQ. Qed.

Lemma wlp_gets {A} (f : S → A) s (Q : A → S → Prop) : Q (f s) s → wlp (gets f) s Q.
Proof. by intros HQ ? ? [= <- <-]. Qed.

Lemma wlp_modify (f : S → S) s (Q : () → S → Prop) : Q () (f s) → wlp (modify f) s Q.
Proof. by intros HQ ? ? [= <- <-]. Qed.

(** Code whose run is known. *)
Lemma wlp_run {A} (m : ST S A) s a s' (Q : A → S → Prop) : m s = Ret (a, s') → Q a s' → wlp m s Q.
Proof. intros Hr HQ ? ?. rewrite Hr. by intros [= <- <-]. Qed.

Lemma wlp_bind_run {A B} (m : ST S A) (f : A → ST S B) s a s' (Q : B → S → Prop) :
  m s = Ret (a, s') → wlp (f a) s' Q → wlp (m ≫= f) s Q.
Proof. intros. apply wlp_bind. by eapply wlp_run. Qed.
End wlp.

(** [wp_step] runs the next primitive of a [wp] goal. *)
Ltac wp_step :=
  lazymatch goal with
  | |- wp (_ ≫= _) _ _ => apply wp_bind
  | |- wp (mret _) _ _ => apply wp_ret
  | |- wp (ASSERT _) _ _ => apply wp_assert
  | |- wp (gets _) _ _ => apply wp_gets
  | |- wp (modify _) _ _ => apply wp_modify
  end.

Lemma wp_bind_run {S A B} (m : ST S A) (f : A → ST S B) s a s' Q :
  m s = Ret (a, s') → wp (f a) s' Q → wp (m ≫= f) s Q.
Proof. intros. apply wp_bind. by eapply wp_run. Qed.

Lemma assert_run {T} (b : bool) (s : T) : b = true → ASSERT b s = Ret ((), s).
Proof. by intros ->. Qed.

(** [run_by tac] runs the first command of a sequence, whose run [tac] proves;
    [wp_bind_by tac] does the same in a [wp] goal. *)
Ltac run_by tac :=
  match goal with
  | |- context [(?m ≫= ?f) ?s] => erewrite (bind_run m f s); [cbv beta|by tac]
  end.
Ltac wp_bind_by tac := eapply wp_bind_run; [by tac|cbv beta].

(** ** Machine integers

    A [w]-bit unsigned value is a [Z] in [0, 2^w); arithmetic wraps. *)
Definition wrap (w z : Z) : Z := z mod 2 ^ w.
(** The two's complement reading of the low [w] bits. *)
Definition swrap (w z : Z) : Z :=
  let m := wrap w z in if m <? 2 ^ (w - 1) then m else m - 2 ^ w.

Abbreviation u8 := (wrap 8).
Abbreviation u16 := (wrap 16).
Abbreviation u32 := (wrap 32).
Abbreviation u64 := (wrap 64).
Abbreviation s32 := (swrap 32).
Abbreviation s64 := (swrap 64).

Definition fits (w z : Z) : Prop := 0 ≤ z < 2 ^ w.

Lemma wrap_fits w z : 0 ≤ w → fits w (wrap w z).
Proof. intros. unfold fits, wrap. apply Z.mod_pos_bound. lia. Qed.

Lemma wrap_small w z : fits w z → wrap w z = z.
Proof. unfold fits, wrap. apply Z.mod_small. Qed.

Lemma swrap_small w z : 0 < w → - 2 ^ (w - 1) ≤ z < 2 ^ (w - 1) → swrap w z = z.
Proof.
  intros Hw Hz. unfold swrap, wrap.
  assert (2 ^ w = 2 * 2 ^ (w - 1)) as Hp.
  { rewrite <-Z.pow_succ_r by lia. f_equal. lia. }
  destruct (decide (0 ≤ z)).
  - rewrite Z.mod_small by lia. destruct (Z.ltb_spec z (2 ^ (w - 1))); lia.
  - replace (z mod 2 ^ w) with (z + 2 ^ w).
    2: { rewrite <-(Z.mod_add _ 1) by lia. rewrite Z.mul_1_l.
         symmetry. apply Z.mod_small. lia. }
    destruct (Z.ltb_spec (z + 2 ^ w) (2 ^ (w - 1))); lia.
Qed.

Lemma swrap_range w z : 0 < w → - 2 ^ (w - 1) ≤ swrap w z < 2 ^ (w - 1).
Proof.
  intros Hw. unfold swrap, wrap. assert (2 ^ w = 2 * 2 ^ (w - 1)) as Hp by (rewrite <-Z.pow_succ_r by lia; f_equal; lia).
  pose proof (Z.mod_pos_bound z (2 ^ w) ltac:(lia)). destruct (Z.ltb_spec (z mod 2 ^ w) (2 ^ (w - 1))); lia.
Qed.

(** [flags & f] as a condition. *)
Definition flag (flags f : Z) : bool := negb (Z.land flags f =? 0).

(** Bits of machine words. *)
Lemma fits_bits w z : 0 ≤ w → fits w z ↔ ∀ i, w ≤ i → Z.testbit z i = false.
Proof.
  intros Hw. split.
  - intros [Hz1 Hz2] i Hi. rewrite <-(Z.mod_small z (2 ^ w)) by lia.
    apply Z.mod_pow2_bits_high. lia.
  - intros Hb. unfold fits. enough (z = z mod 2 ^ w) as -> by (apply Z.mod_pos_bound; lia).
    apply Z.bits_inj'. intros i Hi. destruct (decide (i < w)).
    + by rewrite Z.mod_pow2_bits_low.
    + rewrite Z.mod_pow2_bits_high by lia. apply Hb. lia.
Qed.

Lemma fits_lor w a b : 0 ≤ w → fits w a → fits w b → fits w (Z.lor a b).
Proof.
  intros Hw. rewrite !fits_bits by done. intros Ha Hb i Hi. by rewrite Z.lor_spec, Ha, Hb.
Qed.

Lemma fits_lxor w a b : 0 ≤ w → fits w a → fits w b → fits w (Z.lxor a b).
Proof.
  intros Hw. rewrite !fits_bits by done. intros Ha Hb i Hi. by rewrite Z.lxor_spec, Ha, Hb.
Qed.

Lemma fits_land w a b : 0 ≤ w → fits w a → fits w (Z.land a b).
Proof.
  intros Hw. rewrite !fits_bits by done. intros Ha i Hi. by rewrite Z.land_spec, Ha.
Qed.

Lemma wrap_testbit w z i : 0 ≤ w → 0 ≤ i → Z.testbit (wrap w z) i = (i <? w) && Z.testbit z i.
Proof.
  intros Hw Hi. unfold wrap. destruct (Z.ltb_spec i w); simpl.
  - by apply Z.mod_pow2_bits_low.
  - apply Z.mod_pow2_bits_high. lia.
Qed.

(** ** Lists *)

Lemma Forall2_both {A B} (P Q : A → B → Prop) l k :
  Forall2 P l k → Forall2 Q l k → Forall2 (λ x y, P x y ∧ Q x y) l k.
Proof. induction 1; inversion_clear 1; constructor; auto. Qed.

Create HintDb kernel.
#[export] Hint Resolve wrap_fits fits_lor fits_lxor fits_land : kernel.

(** A decidable statement about concrete data, by evaluation. *)
Ltac by_evaluation := apply (bool_decide_unpack _); vm_compute; exact I.
