(* ===== verification/KList.v ===== *)
(** * Doubly linked lists: src/src/lib/kernel/list.c

    A [struct list_elem] is a pair of addresses; the heap maps the address of each
    list element that exists to its two links.  A [struct list] at address [l] is
    its two header elements, [head] at offset 0 and [tail] at offset 8 (a
    [struct list_elem] is two 4-byte pointers). *)
From S2P Require Import Prelude.

Abbreviation addr := Z.
Definition NULL : addr := 0.

Record list_elem := ListElem { prev : addr; next : addr }.
Abbreviation heap := (gmap Z list_elem).
Abbreviation L := (ST heap).

(** ** Loads and stores of the links *)

(** An lvalue of type [struct list_elem *]: the [prev] or [next] member of an element. *)
Inductive field := Fprev | Fnext.
Definition lval : Type := addr * field.

Definition get_field (f : field) (e : list_elem) : addr :=
  match f with Fprev => prev e | Fnext => next e end.
Definition set_field (f : field) (v : addr) (e : list_elem) : list_elem :=
  match f with
  | Fprev => ListElem v (next e)
  | Fnext => ListElem (prev e) v
  end.

Definition ld (x : lval) : L addr := λ h,
  match h !! x.1 with
  | Some e => Ret (get_field x.2 e, h)
  | None => Fault
  end.
Definition st (x : lval) (v : addr) : L () := λ h,
  match h !! x.1 with
  | Some e => Ret ((), <[x.1 := set_field x.2 v e]> h)
  | None => Fault
  end.

Notation "&prev e" := (e, Fprev) (at level 9, e at level 9, format "&prev  e") : kernel_scope.
Notation "&next e" := (e, Fnext) (at level 9, e at level 9, format "&next  e") : kernel_scope.

(** Loops that walk links: a walk through more elements than the heap has is
    cyclic, so the number of cells bounds every walk that ends. *)
Definition walk {A B} (body : A → L (ctl A B)) (a : A) : L B := λ h,
  loop (S (size h)) body a h.

(** ** The operations *)

Definition head_of (l : addr) : addr := l.
Definition tail_of (l : addr) : addr := l + 8.

Definition nonnull (a : addr) : bool := negb (a =? NULL).

Definition is_head (elem : addr) : L bool :=
  if negb (nonnull elem) then mret false else
  p ← ld (&prev elem);
  if nonnull p then mret false else
  n ← ld (&next elem); mret (nonnull n).

Definition is_interior (elem : addr) : L bool :=
  if negb (nonnull elem) then mret false else
  p ← ld (&prev elem);
  if negb (nonnull p) then mret false else
  n ← ld (&next elem); mret (nonnull n).

Definition is_tail (elem : addr) : L bool :=
  if negb (nonnull elem) then mret false else
  p ← ld (&prev elem);
  if negb (nonnull p) then mret false else
  n ← ld (&next elem); mret (negb (nonnull n)).

(** [a || b] of C. *)
Definition orM (a b : L bool) : L bool := x ← a; if (x : bool) then mret true else b.

Definition list_init (list : addr) : L () :=
  assert (nonnull list);;
  st (&prev (head_of list)) NULL;;
  st (&next (head_of list)) (tail_of list);;
  st (&prev (tail_of list)) (head_of list);;
  st (&next (tail_of list)) NULL.

Definition list_begin (list : addr) : L addr :=
  assert (nonnull list);; ld (&next (head_of list)).

Definition list_next (elem : addr) : L addr :=
  ok ← orM (is_head elem) (is_interior elem);
  assert ok;; ld (&next elem).

Definition list_end (list : addr) : L addr :=
  assert (nonnull list);; mret (tail_of list).

Definition list_rbegin (list : addr) : L addr :=
  assert (nonnull list);; ld (&prev (tail_of list)).

Definition list_prev (elem : addr) : L addr :=
  ok ← orM (is_interior elem) (is_tail elem);
  assert ok;; ld (&prev elem).

Definition list_rend (list : addr) : L addr :=
  assert (nonnull list);; mret (head_of list).

Definition list_head (list : addr) : L addr :=
  assert (nonnull list);; mret (head_of list).

Definition list_tail (list : addr) : L addr :=
  assert (nonnull list);; mret (tail_of list).

Definition list_insert (before elem : addr) : L () :=
  ok ← orM (is_interior before) (is_tail before);
  assert ok;;
  assert (nonnull elem);;
  p ← ld (&prev before);
  st (&prev elem) p;;
  st (&next elem) before;;
  p ← ld (&prev before);
  st (&next p) elem;;
  st (&prev before) elem.

Definition list_splice (before first last : addr) : L () :=
  ok ← orM (is_interior before) (is_tail before);
  assert ok;;
  if first =? last then mret () else
  last ← list_prev last;
  ok ← is_interior first;
  assert ok;;
  ok ← is_interior last;
  assert ok;;
  (* Cleanly remove FIRST...LAST from its current list. *)
  p ← ld (&prev first);
  n ← ld (&next last);
  st (&next p) n;;
  n ← ld (&next last);
  p ← ld (&prev first);
  st (&prev n) p;;
  (* Splice FIRST...LAST into new list. *)
  p ← ld (&prev before);
  st (&prev first) p;;
  st (&next last) before;;
  p ← ld (&prev before);
  st (&next p) first;;
  st (&prev before) last.

Definition list_push_front (list elem : addr) : L () :=
  b ← list_begin list; list_insert b elem.

Definition list_push_back (list elem : addr) : L () :=
  e ← list_end list; list_insert e elem.

Definition list_remove (elem : addr) : L addr :=
  ok ← is_interior elem;
  assert ok;;
  p ← ld (&prev elem);
  n ← ld (&next elem);
  st (&next p) n;;
  n ← ld (&next elem);
  p ← ld (&prev elem);
  st (&prev n) p;;
  ld (&next elem).

Definition list_empty (list : addr) : L bool :=
  b ← list_begin list; e ← list_end list; mret (b =? e).

Definition list_front (list : addr) : L addr :=
  b ← list_empty list; assert (negb b);; ld (&next (head_of list)).

Definition list_back (list : addr) : L addr :=
  b ← list_empty list; assert (negb b);; ld (&prev (tail_of list)).

Definition list_pop_front (list : addr) : L addr :=
  front ← list_front list; _ ← list_remove front; mret front.

Definition list_pop_back (list : addr) : L addr :=
  back ← list_back list; _ ← list_remove back; mret back.

Definition list_size (list : addr) : L Z :=
  e ← list_begin list;
  walk (λ '(e, cnt),
    t ← list_end list;
    if e =? t then mret (Stop cnt) else
    e' ← list_next e; mret (Next (e', u32 (cnt + 1)))) (e, 0).

Definition swap (a b : lval) : L () :=
  t ← ld a; v ← ld b; st a v;; st b t.

Definition list_reverse (list : addr) : L () :=
  em ← list_empty list;
  if (em : bool) then mret () else
  e ← list_begin list;
  walk (λ e,
    t ← list_end list;
    if e =? t then mret (Stop ()) else
    swap (&prev e) (&next e);;
    e' ← ld (&prev e); mret (Next e')) e;;
  swap (&next (head_of list)) (&prev (tail_of list));;
  a ← ld (&next (head_of list));
  b ← ld (&prev (tail_of list));
  swap (&prev a) (&next b).

(** *** Operations that compare elements

    [less a b] is the client's [list_less_func] at its auxiliary data: it compares
    the structures that embed the elements at [a] and [b]. *)
Section less.
Context (less : addr → addr → bool).

Definition is_sorted (a b : addr) : L bool :=
  if a =? b then mret true else
  walk (λ a,
    a' ← list_next a;
    if a' =? b then mret (Stop true) else
    p ← list_prev a';
    if less a' p then mret (Stop false) else mret (Next a')) a.

Definition find_end_of_run (a b : addr) : L addr :=
  assert (nonnull a);;
  assert (nonnull b);;
  assert (negb (a =? b));;
  walk (λ a,
    a' ← list_next a;
    if a' =? b then mret (Stop a') else
    p ← list_prev a';
    if less a' p then mret (Stop a') else mret (Next a')) a.

Definition inplace_merge (a0 a1b0 b1 : addr) : L () :=
  assert (nonnull a0);;
  assert (nonnull a1b0);;
  assert (nonnull b1);;
  ok ← is_sorted a0 a1b0;
  assert ok;;
  ok ← is_sorted a1b0 b1;
  assert ok;;
  walk (λ '(a0, a1b0),
    if (a0 =? a1b0) || (a1b0 =? b1) then mret (Stop ()) else
    if negb (less a1b0 a0) then
      a0' ← list_next a0; mret (Next (a0', a1b0))
    else
      a1b0' ← list_next a1b0;
      p ← list_prev a1b0';
      list_splice a0 p a1b0';;
      mret (Next (a0, a1b0'))) (a0, a1b0).

(** One pass of [list_sort]: the body of its [do] loop, with the number of runs
    it has output. *)
Definition sort_pass (list : addr) : L Z :=
  a0 ← list_begin list;
  walk (λ '(a0, output_run_cnt),
    e ← list_end list;
    if a0 =? e then mret (Stop output_run_cnt) else
    let output_run_cnt := u32 (output_run_cnt + 1) in
    e ← list_end list;
    a1b0 ← find_end_of_run a0 e;
    e ← list_end list;
    if a1b0 =? e then mret (Stop output_run_cnt) else
    e ← list_end list;
    b1 ← find_end_of_run a1b0 e;
    inplace_merge a0 a1b0 b1;;
    mret (Next (b1, output_run_cnt))) (a0, 0).

Definition list_sort (list : addr) : L () :=
  assert (nonnull list);;
  walk (λ _,
    output_run_cnt ← sort_pass list;
    if 1 <? output_run_cnt then mret (Next ()) else mret (Stop ())) ();;
  b ← list_begin list;
  e ← list_end list;
  ok ← is_sorted b e;
  assert ok.

Definition list_insert_ordered (list elem : addr) : L () :=
  assert (nonnull list);;
  assert (nonnull elem);;
  e ← list_begin list;
  e ← walk (λ e,
    t ← list_end list;
    if e =? t then mret (Stop e) else
    if less elem e then mret (Stop e) else
    e' ← list_next e; mret (Next e')) e;
  list_insert e elem.

Definition list_unique (list duplicates : addr) : L () :=
  assert (nonnull list);;
  em ← list_empty list;
  if (em : bool) then mret () else
  elem ← list_begin list;
  walk (λ elem,
    next ← list_next elem;
    t ← list_end list;
    if next =? t then mret (Stop ()) else
    if negb (less elem next) && negb (less next elem) then
      _ ← list_remove next;
      (if nonnull duplicates then list_push_back duplicates next else mret ());;
      mret (Next elem)
    else mret (Next next)) elem.

Definition list_max (list : addr) : L addr :=
  max ← list_begin list;
  t ← list_end list;
  if max =? t then mret max else
  e ← list_next max;
  walk (λ '(max, e),
    t ← list_end list;
    if e =? t then mret (Stop max) else
    let max := if less max e then e else max in
    e' ← list_next e; mret (Next (max, e'))) (max, e).

Definition list_min (list : addr) : L addr :=
  min ← list_begin list;
  t ← list_end list;
  if min =? t then mret min else
  e ← list_next min;
  walk (λ '(min, e),
    t ← list_end list;
    if e =? t then mret (Stop min) else
    let min := if less e min then e else min in
    e' ← list_next e; mret (Next (min, e'))) (min, e).
End less.

(** ** The contract: a heap that represents a list of element addresses *)

Definition fld (f : field) (h : heap) (a : addr) : option addr := get_field f <$> h !! a.
Definition upd (f : field) (a v : addr) (h : heap) : heap := alter (set_field f v) a h.

(** The elements of [ns] are linked to one another in this order, both ways. *)
Fixpoint chain (h : heap) (ns : list addr) : Prop :=
  match ns with
  | a :: (b :: _) as r => fld Fnext h a = Some b ∧ fld Fprev h b = Some a ∧ chain h r
  | _ => True
  end.

Definition nodes (l : addr) (xs : list addr) : list addr := head_of l :: xs ++ [tail_of l].

(** The list at [l] has exactly the elements [xs], front to back. *)
Record list_rep (h : heap) (l : addr) (xs : list addr) : Prop := ListRep {
  rep_nodup : NoDup (nodes l xs);
  rep_nonnull : NULL ∉ nodes l xs;
  rep_head : fld Fprev h (head_of l) = Some NULL;
  rep_tail : fld Fnext h (tail_of l) = Some NULL;
  rep_chain : chain h (nodes l xs);
}.

(** The node the suffix [xs] of a list starts at and the node the prefix [xs] ends at. *)
Definition first_of (l : addr) (xs : list addr) : addr := List.hd (tail_of l) xs.
Definition last_of (l : addr) (xs : list addr) : addr := List.last xs (head_of l).

(** Two heaps agree outside [ns]. *)
Definition frame (ns : list addr) (h h' : heap) : Prop :=
  dom h' = dom h ∧ ∀ a, a ∉ ns → h' !! a = h !! a.

(** *** Links *)

Lemma fld_upd_same f a v h : is_Some (h !! a) → fld f (upd f a v h) a = Some v.
Proof. intros [e He]. unfold fld, upd. rewrite lookup_alter_eq, He. by destruct f. Qed.

Lemma fld_upd_ne f g a b v h : a ≠ b → fld f (upd g a v h) b = fld f h b.
Proof. intros. unfold fld, upd. by rewrite lookup_alter_ne. Qed.

Lemma fld_upd_other f g a b v h : f ≠ g → fld f (upd g a v h) b = fld f h b.
Proof.
  intros Hfg. unfold fld, upd. destruct (decide (a = b)) as [->|].
  - rewrite lookup_alter_eq. destruct (h !! b); [|done]. by destruct f, g.
  - by rewrite lookup_alter_ne.
Qed.

Lemma upd_is_Some f a v h b : is_Some (upd f a v h !! b) ↔ is_Some (h !! b).
Proof. unfold upd. rewrite lookup_alter. case_decide; subst; by rewrite ?fmap_is_Some. Qed.

Lemma fld_is_Some f h a v : fld f h a = Some v → is_Some (h !! a).
Proof. unfold fld. destruct (h !! a); naive_solver. Qed.

Lemma frame_refl ns h : frame ns h h.
Proof. done. Qed.

Lemma frame_trans ns h1 h2 h3 : frame ns h1 h2 → frame ns h2 h3 → frame ns h1 h3.
Proof.
  intros [D1 F1] [D2 F2]. split; [congruence|]. intros a Ha. by rewrite F2, F1.
Qed.

Lemma frame_mono ns ns' h1 h2 : ns ⊆ ns' → frame ns h1 h2 → frame ns' h1 h2.
Proof. intros Hs [Hdom F]. split; [done|]. intros a Ha. apply F. auto. Qed.

Lemma frame_upd ns f a v h : a ∈ ns → frame ns h (upd f a v h).
Proof.
  intros Ha. split; [apply dom_alter_L|]. intros b Hb. unfold upd.
  apply lookup_alter_ne. set_solver.
Qed.

Lemma frame_fld ns h h' f a : frame ns h h' → a ∉ ns → fld f h' a = fld f h a.
Proof. intros [_ F] Ha. unfold fld. by rewrite F. Qed.

Lemma frame_size ns h h' : frame ns h h' → size h' = size h.
Proof. intros [Hdom _]. by rewrite <-!size_dom, Hdom. Qed.

Lemma frame_is_Some ns h h' a : frame ns h h' → is_Some (h !! a) → is_Some (h' !! a).
Proof. intros [Hdom _]. rewrite <-!elem_of_dom. by rewrite Hdom. Qed.

#[export] Hint Resolve frame_refl frame_trans frame_upd fld_is_Some : kernel.

(** *** Runs of loads, stores and link tests *)

Lemma ld_run h a f v : fld f h a = Some v → ld (a, f) h = Ret (v, h).
Proof. unfold fld, ld. simpl. destruct (h !! a); naive_solver. Qed.

Lemma st_run h a f v : is_Some (h !! a) → st (a, f) v h = Ret ((), upd f a v h).
Proof.
  intros [e He]. unfold st, upd. simpl. rewrite He. do 2 f_equal.
  apply map_eq. intros b. rewrite lookup_insert, lookup_alter.
  case_decide; subst; [by rewrite He|done].
Qed.

Lemma nonnull_true a : a ≠ NULL → nonnull a = true.
Proof. unfold nonnull. intros. by apply negb_true_iff, Z.eqb_neq. Qed.

Section tests.
Context (h : heap) (e p n : addr).
Hypothesis (He : e ≠ NULL) (Hp : fld Fprev h e = Some p) (Hn : fld Fnext h e = Some n).

Lemma is_head_run : is_head e h = Ret (negb (nonnull p) && nonnull n, h).
Proof.
  unfold is_head. rewrite nonnull_true by done. simpl.
  rewrite (bind_run _ _ _ _ _ (ld_run _ _ _ _ Hp)). destruct (nonnull p); simpl; [done|].
  by rewrite (bind_run _ _ _ _ _ (ld_run _ _ _ _ Hn)).
Qed.

Lemma is_interior_run : is_interior e h = Ret (nonnull p && nonnull n, h).
Proof.
  unfold is_interior. rewrite nonnull_true by done. simpl.
  rewrite (bind_run _ _ _ _ _ (ld_run _ _ _ _ Hp)). destruct (nonnull p); simpl; [|done].
  by rewrite (bind_run _ _ _ _ _ (ld_run _ _ _ _ Hn)).
Qed.

Lemma is_tail_run : is_tail e h = Ret (nonnull p && negb (nonnull n), h).
Proof.
  unfold is_tail. rewrite nonnull_true by done. simpl.
  rewrite (bind_run _ _ _ _ _ (ld_run _ _ _ _ Hp)). destruct (nonnull p); simpl; [|done].
  by rewrite (bind_run _ _ _ _ _ (ld_run _ _ _ _ Hn)).
Qed.

(** An element with a non-null [next] passes [list_next]'s assertion; one with a
    non-null [prev] passes that of [list_prev], [list_insert] and [list_splice]. *)
Lemma head_or_interior_run : nonnull n = true →
  orM (is_head e) (is_interior e) h = Ret (true, h).
Proof.
  intros Hn'. unfold orM. rewrite (bind_run _ _ _ _ _ is_head_run), Hn'.
  destruct (nonnull p) eqn:E; simpl; [|done]. by rewrite is_interior_run, E, Hn'.
Qed.

Lemma interior_or_tail_run : nonnull p = true →
  orM (is_interior e) (is_tail e) h = Ret (true, h).
Proof.
  intros Hp'. unfold orM. rewrite (bind_run _ _ _ _ _ is_interior_run), Hp'.
  destruct (nonnull n) eqn:E; simpl; [done|]. by rewrite is_tail_run, E, Hp'.
Qed.
End tests.

(** *** Chains *)

Lemma chain_cons2 h a b r :
  chain h (a :: b :: r) ↔ fld Fnext h a = Some b ∧ fld Fprev h b = Some a ∧ chain h (b :: r).
Proof. done. Qed.

Lemma chain_app h l1 a l2 :
  chain h (l1 ++ a :: l2) ↔ chain h (l1 ++ [a]) ∧ chain h (a :: l2).
Proof.
  induction l1 as [|x l1 IH]; [simpl; tauto|].
  destruct l1 as [|y l1]; simpl app in *; rewrite ?chain_cons2; [simpl; tauto|].
  rewrite IH. tauto.
Qed.

(** Only the [next] links of all but the last node and the [prev] links of all but the
    first matter. *)
Lemma chain_ext h h' ns :
  (∀ l1 a b l2, ns = l1 ++ a :: b :: l2 →
     fld Fnext h' a = fld Fnext h a ∧ fld Fprev h' b = fld Fprev h b) →
  chain h ns → chain h' ns.
Proof.
  induction ns as [|a ns IH]; [done|]. destruct ns as [|b ns]; [done|].
  intros Hext. rewrite !chain_cons2. intros (Hn & Hp & Hc).
  destruct (Hext [] a b ns eq_refl) as [-> ->]. split_and!; [done..|].
  apply IH; [|done]. intros l1 c d l2 E. apply (Hext (a :: l1) c d l2). by rewrite E.
Qed.

Lemma chain_frame h h' ns fr :
  frame fr h h' → (∀ a, a ∈ ns → a ∉ fr) → chain h ns → chain h' ns.
Proof.
  intros Hf Hd. apply chain_ext. intros l1 a b l2 ->.
  split; (eapply frame_fld; [done|]; apply Hd; set_solver).
Qed.

Lemma chain_upd_next h l a v : a ∉ l → chain h (l ++ [a]) → chain (upd Fnext a v h) (l ++ [a]).
Proof.
  intros Ha. apply chain_ext. intros l1 c d l2 E. rewrite (fld_upd_other Fprev Fnext) by done.
  split; [|done]. apply fld_upd_ne. intros ->. apply Ha.
  destruct l2 as [|x l2 _] using rev_ind.
  - change [c; d] with ([c] ++ [d]) in E. rewrite app_assoc in E. apply app_inj_tail in E as [-> _]. set_solver.
  - rewrite !app_comm_cons, app_assoc in E. apply app_inj_tail in E as [-> _]. set_solver.
Qed.

Lemma chain_upd_prev h l a v : a ∉ l → chain h (a :: l) → chain (upd Fprev a v h) (a :: l).
Proof.
  intros Ha. apply chain_ext. intros l1 c d l2 E. rewrite (fld_upd_other Fnext Fprev) by done.
  split; [done|]. apply fld_upd_ne. intros ->. apply Ha.
  destruct l1; simplify_eq/=; set_solver.
Qed.

Lemma chain_upd h ns f a v : a ∉ ns → chain h ns → chain (upd f a v h) ns.
Proof.
  intros Ha. apply (chain_frame _ _ _ [a]); [apply frame_upd; set_solver|set_solver].
Qed.

(** Unlinking a segment: the two stores that close the gap. *)
Lemma chain_cut h l1 p M n l2 :
  NoDup (l1 ++ p :: M ++ n :: l2) → M ≠ [] →
  chain h (l1 ++ p :: M ++ n :: l2) →
  let h' := upd Fprev n p (upd Fnext p n h) in
  chain h' (l1 ++ p :: n :: l2) ∧ chain h' M.
Proof.
  intros Hnd HM Hc h'. destruct M as [|f M]; [done|].
  apply chain_app in Hc as [H1 Hc]. simpl in Hc. apply chain_cons2 in Hc as (Hp & Hf & Hc).
  rewrite app_comm_cons in Hc. apply chain_app in Hc as [HcM H2].
  assert (is_Some (h !! n)) as Hsn.
  { destruct M as [|e M _] using rev_ind; [by apply chain_cons2 in HcM as (_ & ?%fld_is_Some & _)|].
    rewrite app_comm_cons, <-app_assoc in HcM. apply chain_app in HcM as [_ HcM].
    by apply chain_cons2 in HcM as (_ & ?%fld_is_Some & _). }
  apply NoDup_app in Hnd as (Hn1 & Hd1 & Hnd). apply NoDup_cons in Hnd as [Hpn Hnd].
  apply NoDup_app in Hnd as (HnM & HdM & Hn2). apply NoDup_cons in Hn2 as [Hn2 Hnd2].
  unfold h'. split.
  - apply chain_app. split.
    + apply chain_upd; [|apply chain_upd_next; [|done]]; set_solver.
    + rewrite chain_cons2. split_and!.
      * rewrite fld_upd_other by done. apply fld_upd_same. eauto with kernel.
      * apply fld_upd_same. by rewrite upd_is_Some.
      * apply chain_upd_prev; [done|]. apply chain_upd; [set_solver|done].
  - apply chain_upd; [set_solver|]. apply chain_upd; [set_solver|].
    destruct M as [|e M _] using rev_ind; [done|].
    rewrite app_comm_cons, <-app_assoc in HcM. apply chain_app in HcM as [HcM _]. done.
Qed.

(** Linking a segment from [f] to [e] in between [p] and [b]: the four stores. *)
Lemma chain_paste h l1 p b l2 M f e :
  NoDup (l1 ++ p :: b :: l2) → (∀ x, x ∈ M → x ∉ (l1 ++ p :: b :: l2)) → NoDup M →
  is_Some (h !! f) → is_Some (h !! e) → M ≠ [] → hd_error M = Some f → last M = Some e →
  chain h (l1 ++ p :: b :: l2) → chain h M →
  let h' := upd Fprev b e (upd Fnext p f (upd Fnext e b (upd Fprev f p h))) in
  chain h' (l1 ++ p :: M ++ b :: l2).
Proof.
  intros Hnd Hdj HnM Hsf Hse HM Hhd Hlast Hc HcM h'.
  apply chain_app in Hc as [H1 Hc]. apply chain_cons2 in Hc as (Hp & Hb & H2).
  apply NoDup_app in Hnd as (Hn1 & Hd1 & Hnd). apply NoDup_cons in Hnd as [Hpn Hnd].
  apply NoDup_cons in Hnd as [Hbn Hnd].
  destruct M as [|f' M]; [done|]. simplify_eq/=. apply last_Some in Hlast as [M' HM'].
  assert (f ≠ p ∧ f ≠ b ∧ f ∉ l1 ∧ f ∉ l2) as (?&?&?&?) by set_solver.
  assert (e ≠ p ∧ e ≠ b ∧ e ∉ l1 ∧ e ∉ l2) as (?&?&?&?).
  { assert (e ∈ (f :: M)) as He by (rewrite HM'; set_solver). specialize (Hdj e He). set_solver. }
  assert (p ≠ b ∧ p ∉ l1 ∧ p ∉ l2 ∧ b ∉ l1) as (?&?&?&?) by set_solver.
  assert (p ∉ (f :: M) ∧ b ∉ (f :: M)) as [HpM HbM] by (split; intros Hx; apply Hdj in Hx; set_solver).
  apply chain_app. split.
  { unfold h'. apply chain_upd; [set_solver|]. apply chain_upd_next; [done|].
    do 2 (apply chain_upd; [set_solver|]). done. }
  apply chain_cons2. split_and!.
  - unfold h'. rewrite fld_upd_other by done. apply fld_upd_same.
    rewrite !upd_is_Some. by eapply fld_is_Some.
  - unfold h'. rewrite fld_upd_ne by done. rewrite !(fld_upd_other Fprev Fnext) by done.
    by apply fld_upd_same.
  - rewrite app_comm_cons, HM', <-app_assoc. simpl. apply chain_app. split.
    + rewrite <-HM'. unfold h'. apply chain_upd; [done|]. apply chain_upd; [done|].
      pose proof HnM as HnM0. rewrite HM' in HnM |- *. apply NoDup_app in HnM as (? & Hd & ?).
      apply chain_upd_next; [set_solver|]. rewrite <-HM'.
      apply chain_upd_prev; [|done]. by apply NoDup_cons in HnM0 as [? _].
    + rewrite chain_cons2. unfold h'. split_and!.
      * rewrite fld_upd_other by done. rewrite fld_upd_ne by done. apply fld_upd_same.
        by rewrite upd_is_Some.
      * apply fld_upd_same. rewrite !upd_is_Some. by eapply fld_is_Some.
      * apply chain_upd_prev; [done|]. do 3 (apply chain_upd; [set_solver|]). done.
Qed.

(** *** Positions of a represented list *)

Lemma nodes_split l xs1 xs2 :
  ∃ i t, head_of l :: xs1 = i ++ [last_of l xs1] ∧
         xs2 ++ [tail_of l] = first_of l xs2 :: t ∧
         nodes l (xs1 ++ xs2) = i ++ last_of l xs1 :: first_of l xs2 :: t ∧
         ∀ M, nodes l (xs1 ++ M ++ xs2) = i ++ last_of l xs1 :: M ++ first_of l xs2 :: t.
Proof.
  assert (∃ i, head_of l :: xs1 = i ++ [last_of l xs1]) as [i Hi].
  { unfold last_of. induction xs1 as [|x xs1 _] using rev_ind; [by exists []|].
    exists (head_of l :: xs1). by rewrite List.last_last. }
  assert (∀ M, nodes l (xs1 ++ M ++ xs2) =
    i ++ last_of l xs1 :: M ++ first_of l xs2 :: List.tl (xs2 ++ [tail_of l])) as HM.
  { intros M. unfold nodes. rewrite <-!app_assoc, app_comm_cons, Hi, <-app_assoc. simpl.
    by destruct xs2. }
  exists i, (List.tl (xs2 ++ [tail_of l])). split_and!; [done|by destruct xs2|apply (HM [])|done].
Qed.

Lemma last_of_elem l xs1 xs2 : last_of l xs1 ∈ nodes l (xs1 ++ xs2).
Proof. destruct (nodes_split l xs1 xs2) as (i & t & _ & _ & H & _). rewrite H. set_solver. Qed.

Lemma first_of_elem l xs1 xs2 : first_of l xs2 ∈ nodes l (xs1 ++ xs2).
Proof. destruct (nodes_split l xs1 xs2) as (i & t & _ & _ & H & _). rewrite H. set_solver. Qed.

Lemma last_of_snoc l xs x : last_of l (xs ++ [x]) = x.
Proof. apply List.last_last. Qed.

Lemma nodes_app l xs1 M xs2 x : x ∈ nodes l (xs1 ++ M ++ xs2) ↔ x ∈ nodes l (xs1 ++ xs2) ∨ x ∈ M.
Proof. unfold nodes. rewrite !elem_of_cons, !elem_of_app. tauto. Qed.

Lemma nodes_perm l xs1 M xs2 : nodes l (xs1 ++ M ++ xs2) ≡ₚ nodes l (xs1 ++ xs2) ++ M.
Proof. unfold nodes. simpl. f_equiv. solve_Permutation. Qed.

Lemma rep_first_ne_head l xs1 xs2 : NoDup (nodes l (xs1 ++ xs2)) → first_of l xs2 ≠ head_of l.
Proof.
  unfold nodes. intros [Hh _]%NoDup_cons E. apply Hh. rewrite <-E.
  destruct xs2; simpl; set_solver.
Qed.

Lemma rep_last_ne_tail l xs1 xs2 : NoDup (nodes l (xs1 ++ xs2)) → last_of l xs1 ≠ tail_of l.
Proof.
  destruct (nodes_split l xs1 xs2) as (i & t & _ & Hft & H & _). rewrite H. intros Hnd E.
  apply NoDup_app in Hnd as (_ & _ & Hnd). rewrite <-Hft, E in Hnd.
  apply NoDup_cons in Hnd as [Hn _]. set_solver.
Qed.

Section rep.
Context (h : heap) (l : addr).

Lemma rep_link xs1 xs2 : list_rep h l (xs1 ++ xs2) →
  fld Fnext h (last_of l xs1) = Some (first_of l xs2) ∧
  fld Fprev h (first_of l xs2) = Some (last_of l xs1).
Proof.
  intros [_ _ _ _ Hc]. destruct (nodes_split l xs1 xs2) as (i & t & _ & _ & H & _).
  rewrite H in Hc. apply chain_app in Hc as [_ Hc]. by apply chain_cons2 in Hc as (?&?&_).
Qed.

Lemma rep_ne_null xs a : list_rep h l xs → a ∈ nodes l xs → a ≠ NULL.
Proof. intros [_ Hn _ _ _] Ha ->. done. Qed.

Lemma rep_first_ne xs1 xs2 : list_rep h l (xs1 ++ xs2) → first_of l xs2 ≠ NULL.
Proof. intros Hr. eapply rep_ne_null; [done|apply first_of_elem]. Qed.

Lemma rep_last_ne xs1 xs2 : list_rep h l (xs1 ++ xs2) → last_of l xs1 ≠ NULL.
Proof. intros Hr. eapply rep_ne_null; [done|apply last_of_elem]. Qed.

Lemma rep_list_ne xs : list_rep h l xs → l ≠ NULL.
Proof. intros Hr. apply (rep_ne_null xs); [done|]. unfold nodes, head_of. set_solver. Qed.

Lemma rep_prev_some xs1 xs2 : list_rep h l (xs1 ++ xs2) →
  ∃ p, fld Fprev h (last_of l xs1) = Some p.
Proof.
  intros Hr. destruct xs1 as [|x xs1 _] using rev_ind; [exists NULL; apply Hr|].
  rewrite last_of_snoc. exists (last_of l xs1). rewrite <-app_assoc in Hr.
  by apply rep_link in Hr as [_ ?].
Qed.

Lemma rep_next_some xs1 xs2 : list_rep h l (xs1 ++ xs2) →
  ∃ n, fld Fnext h (first_of l xs2) = Some n.
Proof.
  intros Hr. destruct xs2 as [|x xs2]; [exists NULL; apply Hr|].
  exists (first_of l xs2). rewrite cons_middle, app_assoc in Hr.
  apply rep_link in Hr as [? _]. by rewrite last_of_snoc in *.
Qed.

Lemma rep_nodes_dom xs a : list_rep h l xs → a ∈ nodes l xs → is_Some (h !! a).
Proof.
  intros Hr Ha. unfold nodes in Ha. apply elem_of_cons in Ha as [->|Ha].
  { eapply fld_is_Some, Hr. }
  apply elem_of_app in Ha as [Ha|Ha%list_elem_of_singleton]; [|subst; eapply fld_is_Some, Hr].
  apply list_elem_of_split in Ha as (xs1 & xs2 & ->).
  apply (rep_link xs1 (a :: xs2)) in Hr as [_ Hr]. by eapply fld_is_Some.
Qed.

Lemma rep_size xs : list_rep h l xs → (length xs + 2 ≤ size h)%nat.
Proof.
  intros Hr. rewrite <-size_dom.
  assert (length (nodes l xs) = length xs + 2)%nat as <-.
  { unfold nodes. simpl. rewrite length_app. simpl. lia. }
  rewrite <-(size_list_to_set (C:=gset Z)) by apply Hr.
  apply subseteq_size. intros a Ha%elem_of_list_to_set.
  apply elem_of_dom. by eapply rep_nodes_dom.
Qed.

(** A suffix is determined by the node it starts at. *)
Lemma first_of_inj xs1 xs2 ys1 ys2 : list_rep h l (xs1 ++ xs2) → xs1 ++ xs2 = ys1 ++ ys2 →
  first_of l xs2 = first_of l ys2 → xs2 = ys2.
Proof.
  intros [Hnd _ _ _ _] E Hf. unfold nodes in Hnd.
  apply NoDup_cons in Hnd as [_ Hnd].
  assert (∀ u v w : list addr, first_of l (v ++ w) = first_of l w →
    NoDup ((u ++ v ++ w) ++ [tail_of l]) → v = []) as Hkey.
  { intros u v w Hv Hd. destruct v as [|z v]; [done|]. exfalso. simpl in Hv.
    rewrite <-!app_assoc in Hd. apply NoDup_app in Hd as (_ & _ & Hd). simpl in Hd.
    apply NoDup_cons in Hd as [Hz _]. apply Hz. subst z.
    destruct w; simpl; set_solver. }
  apply app_eq_app in E as [k [[-> ->]|[-> ->]]].
  - by rewrite (Hkey ys1 k xs2) by (done || by rewrite (app_assoc ys1)).
  - by rewrite (Hkey xs1 k ys2) by done.
Qed.

Lemma rep_first_eqb xs1 xs2 ys1 ys2 : list_rep h l (xs1 ++ xs2) → xs1 ++ xs2 = ys1 ++ ys2 →
  (first_of l xs2 =? first_of l ys2) = bool_decide (xs2 = ys2).
Proof.
  intros Hr E. apply Bool.eq_iff_eq_true. rewrite Z.eqb_eq, bool_decide_eq_true.
  split; [by eapply first_of_inj|by intros ->].
Qed.

Lemma rep_tail_eqb xs1 xs2 : list_rep h l (xs1 ++ xs2) →
  (first_of l xs2 =? tail_of l) = bool_decide (xs2 = []).
Proof.
  intros Hr. change (tail_of l) with (first_of l []).
  rewrite (rep_first_eqb xs1 xs2 (xs1 ++ xs2) []) by (done || by rewrite app_nil_r).
  by apply bool_decide_ext.
Qed.

Lemma rep_cut xs1 M xs2 : M ≠ [] → list_rep h l (xs1 ++ M ++ xs2) →
  let h' := upd Fprev (first_of l xs2) (last_of l xs1)
              (upd Fnext (last_of l xs1) (first_of l xs2) h) in
  list_rep h' l (xs1 ++ xs2) ∧ chain h' M.
Proof.
  intros HM [Hnd Hnn Hh Ht Hc] h'.
  destruct (nodes_split l xs1 xs2) as (i & t & Hi & Hf & Hs0 & Hs).
  pose proof (nodes_perm l xs1 M xs2) as Hp.
  rewrite Hs in Hc. destruct (chain_cut h i (last_of l xs1) M (first_of l xs2) t) as [H1 H2];
    [by rewrite <-Hs|done..|].
  rewrite Hp in Hnd. apply NoDup_app in Hnd as (Hnd & _ & _).
  split; [|done]. rewrite <-Hs0 in H1. split; try done.
  - intros Hx. apply Hnn. rewrite Hp. set_solver.
  - unfold h'. rewrite fld_upd_ne by (by eapply rep_first_ne_head). by rewrite fld_upd_other.
  - unfold h'. rewrite fld_upd_other by done. by rewrite fld_upd_ne by (by eapply rep_last_ne_tail).
Qed.

Lemma rep_paste xs1 xs2 M f e :
  list_rep h l (xs1 ++ xs2) → (∀ x, x ∈ M → x ∉ nodes l (xs1 ++ xs2)) → NoDup M →
  NULL ∉ M → chain h M → hd_error M = Some f → last M = Some e →
  is_Some (h !! f) → is_Some (h !! e) →
  let h' := upd Fprev (first_of l xs2) e (upd Fnext (last_of l xs1) f
              (upd Fnext e (first_of l xs2) (upd Fprev f (last_of l xs1) h))) in
  list_rep h' l (xs1 ++ M ++ xs2).
Proof.
  intros [Hnd Hnn Hh Ht Hc] Hdj HnM HMn HcM Hf He Hsf Hse h'.
  destruct (nodes_split l xs1 xs2) as (i & t & Hi & Hft & Hs0 & Hs).
  assert (f ∈ M ∧ e ∈ M) as [HfM HeM].
  { split; [destruct M; simplify_eq/=; set_solver|].
    apply last_Some in He as [M' ->]. set_solver. }
  assert (f ≠ head_of l ∧ e ≠ tail_of l) as [Hfh Het].
  { apply Hdj in HfM, HeM. unfold nodes in *. set_solver. }
  split.
  - rewrite nodes_perm. apply NoDup_app. split_and!; [done| |done]. naive_solver.
  - rewrite nodes_perm. set_solver.
  - unfold h'. rewrite fld_upd_ne by (by eapply rep_first_ne_head).
    rewrite !(fld_upd_other Fprev Fnext) by done. by rewrite fld_upd_ne by done.
  - unfold h'. rewrite (fld_upd_other Fnext Fprev) by done.
    rewrite fld_upd_ne by (by eapply rep_last_ne_tail). rewrite fld_upd_ne by done.
    by rewrite fld_upd_other by done.
  - rewrite Hs. rewrite Hs0 in Hc, Hnd. apply chain_paste; try done.
    + rewrite <-Hs0. done.
    + by destruct M.
Qed.
End rep.

(** ** What each operation does to a represented list *)

Section ops.
Context (l : addr).
Implicit Types h : heap.

Lemma list_begin_run h xs : list_rep h l xs → list_begin l h = Ret (first_of l xs, h).
Proof.
  intros Hr. unfold list_begin. run_by ltac:(eapply assert_run, nonnull_true, rep_list_ne).
  apply ld_run. by apply (rep_link h l [] xs) in Hr as [? _].
Qed.

Lemma list_end_ne_run h : l ≠ NULL → list_end l h = Ret (tail_of l, h).
Proof. intros Hl. unfold list_end. by run_by ltac:(by apply assert_run, nonnull_true). Qed.

Lemma list_end_run h xs : list_rep h l xs → list_end l h = Ret (tail_of l, h).
Proof. intros Hr. by eapply list_end_ne_run, rep_list_ne. Qed.

Lemma list_rbegin_run h xs : list_rep h l xs → list_rbegin l h = Ret (last_of l xs, h).
Proof.
  intros Hr. unfold list_rbegin. run_by ltac:(eapply assert_run, nonnull_true, rep_list_ne).
  apply ld_run. rewrite <-(app_nil_r xs) in Hr. by apply (rep_link h l xs []) in Hr as [_ ?].
Qed.

Lemma list_empty_run h xs : list_rep h l xs →
  list_empty l h = Ret (bool_decide (xs = []), h).
Proof.
  intros Hr. unfold list_empty. run_by ltac:(eapply list_begin_run).
  run_by ltac:(eapply list_end_run). by rewrite (rep_tail_eqb h l [] xs).
Qed.

(** [list_next] of any node but the tail, [list_prev] of any node but the head. *)
Lemma list_next_run h xs1 xs2 : list_rep h l (xs1 ++ xs2) →
  list_next (last_of l xs1) h = Ret (first_of l xs2, h).
Proof.
  intros Hr. unfold list_next. destruct (rep_prev_some h l xs1 xs2 Hr) as [p Hp].
  destruct (rep_link h l xs1 xs2 Hr) as [Hn _].
  run_by ltac:(eapply head_or_interior_run;
               [by eapply rep_last_ne|done|done|eapply nonnull_true, rep_first_ne]).
  by apply ld_run.
Qed.

Lemma list_next_elem_run h xs1 x xs2 : list_rep h l (xs1 ++ x :: xs2) →
  list_next x h = Ret (first_of l xs2, h).
Proof.
  intros Hr. rewrite cons_middle, app_assoc in Hr.
  apply list_next_run in Hr. by rewrite last_of_snoc in Hr.
Qed.

Lemma list_prev_run h xs1 xs2 : list_rep h l (xs1 ++ xs2) →
  list_prev (first_of l xs2) h = Ret (last_of l xs1, h).
Proof.
  intros Hr. unfold list_prev. destruct (rep_next_some h l xs1 xs2 Hr) as [n Hn].
  destruct (rep_link h l xs1 xs2 Hr) as [_ Hp].
  run_by ltac:(eapply interior_or_tail_run;
               [by eapply rep_first_ne|done|done|eapply nonnull_true, rep_last_ne]).
  by apply ld_run.
Qed.

Lemma list_prev_elem_run h xs1 x xs2 : list_rep h l (xs1 ++ x :: xs2) →
  list_prev (first_of l xs2) h = Ret (x, h).
Proof.
  intros Hr. rewrite cons_middle, app_assoc in Hr.
  apply list_prev_run in Hr. by rewrite last_of_snoc in Hr.
Qed.

Lemma is_interior_elem_run h xs1 x xs2 : list_rep h l (xs1 ++ x :: xs2) →
  is_interior x h = Ret (true, h).
Proof.
  intros Hr. destruct (rep_link h l xs1 (x :: xs2) Hr) as [_ Hp].
  pose proof Hr as Hr2. rewrite cons_middle, app_assoc in Hr2.
  destruct (rep_link h l _ xs2 Hr2) as [Hn _]. rewrite last_of_snoc in Hn. simpl in Hp.
  erewrite is_interior_run; [|by apply (rep_first_ne _ _ _ _ Hr)|done..].
  by rewrite (nonnull_true _ (rep_last_ne _ _ _ _ Hr)), (nonnull_true _ (rep_first_ne _ _ _ _ Hr2)).
Qed.

Lemma list_front_run h x xs : list_rep h l (x :: xs) → list_front l h = Ret (x, h).
Proof.
  intros Hr. unfold list_front. run_by ltac:(eapply list_empty_run).
  run_by ltac:(by apply assert_run). apply ld_run. by apply (rep_link h l [] _) in Hr as [? _].
Qed.

Lemma list_back_run h x xs : list_rep h l (xs ++ [x]) → list_back l h = Ret (x, h).
Proof.
  intros Hr. unfold list_back. run_by ltac:(eapply list_empty_run).
  run_by ltac:(apply assert_run; by rewrite bool_decide_false by (by destruct xs)).
  apply ld_run. rewrite <-(app_nil_r (xs ++ [x])) in Hr.
  apply (rep_link h l _ []) in Hr as [_ ?]. by rewrite last_of_snoc in *.
Qed.

(** *** Initialisation, insertion, removal *)

Lemma list_init_spec h : 0 < l → is_Some (h !! head_of l) → is_Some (h !! tail_of l) →
  ∃ h', list_init l h = Ret ((), h') ∧ list_rep h' l [] ∧ frame [head_of l; tail_of l] h h'.
Proof.
  intros Hl Hh Ht. eexists. split.
  { unfold list_init. run_by ltac:(apply assert_run, nonnull_true; unfold NULL; lia).
    run_by ltac:(apply st_run). run_by ltac:(apply st_run; by rewrite ?upd_is_Some).
    run_by ltac:(apply st_run; by rewrite ?upd_is_Some). apply st_run. by rewrite !upd_is_Some. }
  assert (head_of l ≠ tail_of l) by (unfold head_of, tail_of; lia).
  split; [split|].
  - unfold nodes, head_of, tail_of. simpl. apply NoDup_cons. split; [|apply NoDup_singleton].
    rewrite list_elem_of_singleton. lia.
  - unfold nodes, head_of, tail_of, NULL. simpl. rewrite !elem_of_cons, elem_of_nil. lia.
  - rewrite fld_upd_ne by done. rewrite fld_upd_ne by done. rewrite fld_upd_other by done.
    by apply fld_upd_same.
  - apply fld_upd_same. by rewrite !upd_is_Some.
  - simpl. split_and!; [|..|done].
    + rewrite fld_upd_ne by done. rewrite fld_upd_ne by done. apply fld_upd_same.
      by rewrite !upd_is_Some.
    + rewrite fld_upd_other by done. apply fld_upd_same. by rewrite !upd_is_Some.
  - repeat (eapply frame_trans; [|apply frame_upd; set_solver]). apply frame_refl.
Qed.

(** The four stores shared by [list_insert] and [list_splice]. *)
Lemma link_in_run h xs1 xs2 M f e :
  list_rep h l (xs1 ++ xs2) → (∀ x, x ∈ M → x ∉ nodes l (xs1 ++ xs2)) → NoDup M →
  NULL ∉ M → chain h M → hd_error M = Some f → last M = Some e →
  is_Some (h !! f) → is_Some (h !! e) →
  let b := first_of l xs2 in
  ∃ h', (p ← ld (&prev b); st (&prev f) p;; st (&next e) b;;
         p ← ld (&prev b); st (&next p) f;; st (&prev b) e) h = Ret ((), h') ∧
    list_rep h' l (xs1 ++ M ++ xs2) ∧ frame [last_of l xs1; f; e; b] h h'.
Proof.
  intros Hr Hdj HnM HMn HcM Hf He Hsf Hse b.
  destruct (rep_link h l xs1 xs2 Hr) as [Hn Hp].
  assert (f ∈ M) as HfM by (destruct M; simplify_eq/=; set_solver).
  assert (f ≠ b) as Hfb.
  { intros ->. apply (Hdj b); [done|]. apply first_of_elem. }
  eexists. split; [|split].
  - run_by ltac:(by apply ld_run). run_by ltac:(by apply st_run).
    run_by ltac:(apply st_run; by rewrite upd_is_Some).
    run_by ltac:(apply ld_run; rewrite fld_upd_other by done; rewrite fld_upd_ne by done).
    run_by ltac:(apply st_run; rewrite !upd_is_Some; eauto with kernel).
    apply st_run. rewrite !upd_is_Some. eauto with kernel.
  - by apply rep_paste.
  - repeat (eapply frame_trans; [|apply frame_upd; set_solver]). apply frame_refl.
Qed.

Lemma list_insert_spec h xs1 xs2 e :
  list_rep h l (xs1 ++ xs2) → e ∉ nodes l (xs1 ++ xs2) → e ≠ NULL → is_Some (h !! e) →
  ∃ h', list_insert (first_of l xs2) e h = Ret ((), h') ∧
    list_rep h' l (xs1 ++ e :: xs2) ∧ frame (e :: nodes l (xs1 ++ xs2)) h h'.
Proof.
  intros Hr Hd He Hs.
  destruct (link_in_run h xs1 xs2 [e] e e) as (h' & Hrun & Hr' & Hfr); try done.
  { set_solver. } { apply NoDup_singleton. } { set_solver. }
  exists h'. split; [|split; [done|]].
  - destruct (rep_next_some h l xs1 xs2 Hr) as [n Hn].
    destruct (rep_link h l xs1 xs2 Hr) as [_ Hp].
    unfold list_insert. run_by ltac:(eapply interior_or_tail_run;
      [by eapply rep_first_ne|done|done|eapply nonnull_true, rep_last_ne]).
    run_by ltac:(by apply assert_run). run_by ltac:(by apply assert_run, nonnull_true). done.
  - eapply frame_mono; [|done]. intros x. pose proof (last_of_elem l xs1 xs2).
    pose proof (first_of_elem l xs1 xs2). set_solver.
Qed.

Lemma list_push_front_spec h xs e :
  list_rep h l xs → e ∉ nodes l xs → e ≠ NULL → is_Some (h !! e) →
  ∃ h', list_push_front l e h = Ret ((), h') ∧ list_rep h' l (e :: xs) ∧
    frame (e :: nodes l xs) h h'.
Proof.
  intros Hr ???. unfold list_push_front. run_by ltac:(eapply list_begin_run).
  by apply (list_insert_spec h [] xs).
Qed.

Lemma list_push_back_spec h xs e :
  list_rep h l xs → e ∉ nodes l xs → e ≠ NULL → is_Some (h !! e) →
  ∃ h', list_push_back l e h = Ret ((), h') ∧ list_rep h' l (xs ++ [e]) ∧
    frame (e :: nodes l xs) h h'.
Proof.
  intros Hr ???. unfold list_push_back. run_by ltac:(eapply list_end_run).
  destruct (list_insert_spec h xs [] e) as (h' & ? & ? & ?); rewrite ?app_nil_r in *; eauto.
Qed.

(** The two stores shared by [list_remove] and [list_splice]. *)
Lemma unlink_run {A} h xs1 M xs2 f e (k : L A) (Q : res (A * heap) → Prop) :
  list_rep h l (xs1 ++ M ++ xs2) → hd_error M = Some f → last M = Some e →
  (∀ h', list_rep h' l (xs1 ++ xs2) → chain h' M →
     fld Fprev h' f = Some (last_of l xs1) → fld Fnext h' e = Some (first_of l xs2) →
     frame [last_of l xs1; first_of l xs2] h h' → Q (k h')) →
  Q ((p ← ld (&prev f); n ← ld (&next e); st (&next p) n;;
      n ← ld (&next e); p ← ld (&prev f); st (&prev n) p;; k) h).
Proof.
  intros Hr Hf He HQ.
  assert (fld Fprev h f = Some (last_of l xs1)) as Hp.
  { destruct M as [|f' M]; simplify_eq/=. by apply rep_link in Hr as [_ ?]. }
  assert (fld Fnext h e = Some (first_of l xs2)) as Hn.
  { apply last_Some in He as [M' ->]. rewrite app_assoc in Hr.
    apply rep_link in Hr as [Hr' _]. by rewrite app_assoc, last_of_snoc in Hr'. }
  assert (M ≠ []) as HM by (by intros ->).
  destruct (rep_cut h l xs1 M xs2 HM Hr) as [Hr' Hc].
  assert (NoDup (nodes l (xs1 ++ xs2) ++ M)) as Hnd by (rewrite <-nodes_perm; apply Hr).
  apply NoDup_app in Hnd as (_ & Hdj & _).
  assert (f ∈ M ∧ e ∈ M) as [HfM HeM].
  { split; [destruct M; simplify_eq/=; set_solver|]. apply last_Some in He as [M' ->]. set_solver. }
  assert (last_of l xs1 ≠ e ∧ first_of l xs2 ≠ f) as [Hne1 Hne2].
  { split; intros E.
    - apply (Hdj (last_of l xs1)); [apply last_of_elem|by rewrite E].
    - apply (Hdj (first_of l xs2)); [apply first_of_elem|by rewrite E]. }
  specialize (HQ _ Hr' Hc).
  rewrite (bind_run _ _ _ _ _ (ld_run _ _ _ _ Hp)).
  rewrite (bind_run _ _ _ _ _ (ld_run _ _ _ _ Hn)).
  assert (is_Some (h !! last_of l xs1)) as Hs1.
  { eapply rep_nodes_dom; [done|]. apply last_of_elem. }
  assert (is_Some (h !! first_of l xs2)) as Hs2.
  { eapply rep_nodes_dom; [done|]. rewrite app_assoc. apply first_of_elem. }
  rewrite (bind_run _ _ _ _ _ (st_run _ _ Fnext _ Hs1)).
  erewrite (bind_run (ld _)); [|apply ld_run; by rewrite fld_upd_ne].
  erewrite (bind_run (ld _)); [|apply ld_run; by rewrite fld_upd_other].
  erewrite (bind_run (st _ _)); [|apply st_run; by rewrite upd_is_Some].
  apply HQ.
  - by rewrite fld_upd_ne, fld_upd_other.
  - by rewrite fld_upd_other, fld_upd_ne.
  - repeat (eapply frame_trans; [|apply frame_upd; set_solver]). apply frame_refl.
Qed.

Lemma list_remove_spec h xs1 x xs2 :
  list_rep h l (xs1 ++ x :: xs2) →
  ∃ h', list_remove x h = Ret (first_of l xs2, h') ∧ list_rep h' l (xs1 ++ xs2) ∧
    frame (nodes l (xs1 ++ xs2)) h h'.
Proof.
  intros Hr. unfold list_remove. run_by ltac:(by eapply is_interior_elem_run).
  run_by ltac:(by apply assert_run).
  apply (unlink_run h xs1 [x] xs2 x x _ (λ r, ∃ h', r = Ret _ ∧ _)); try done.
  intros h' Hr' _ _ Hn Hfr. exists h'. split; [by apply ld_run|]. split; [done|].
  eapply frame_mono; [|done]. intros y. pose proof (last_of_elem l xs1 xs2).
  pose proof (first_of_elem l xs1 xs2). set_solver.
Qed.

Lemma list_pop_front_spec h x xs : list_rep h l (x :: xs) →
  ∃ h', list_pop_front l h = Ret (x, h') ∧ list_rep h' l xs ∧ frame (nodes l xs) h h'.
Proof.
  intros Hr. unfold list_pop_front. run_by ltac:(eapply list_front_run).
  destruct (list_remove_spec h [] x xs Hr) as (h' & Hrun & ?).
  exists h'. by rewrite (bind_run _ _ _ _ _ Hrun).
Qed.

Lemma list_pop_back_spec h x xs : list_rep h l (xs ++ [x]) →
  ∃ h', list_pop_back l h = Ret (x, h') ∧ list_rep h' l xs ∧ frame (nodes l xs) h h'.
Proof.
  intros Hr. unfold list_pop_back. run_by ltac:(eapply list_back_run).
  destruct (list_remove_spec h xs x [] Hr) as (h' & Hrun & ?).
  exists h'. rewrite (bind_run _ _ _ _ _ Hrun). by rewrite app_nil_r in *.
Qed.
End ops.

(** *** Deciding the contract on concrete heaps *)

#[global] Instance chain_dec h ns : Decision (chain h ns).
Proof.
  revert h. induction ns as [|a [|b ns] IH]; intros h; [apply _..|].
  change (Decision (fld Fnext h a = Some b ∧ fld Fprev h b = Some a ∧ chain h (b :: ns))). apply _.
Defined.

#[global] Instance list_rep_dec h l xs : Decision (list_rep h l xs).
Proof.
  refine (cast_if (decide (NoDup (nodes l xs) ∧ NULL ∉ nodes l xs ∧
    fld Fprev h (head_of l) = Some NULL ∧ fld Fnext h (tail_of l) = Some NULL ∧
    chain h (nodes l xs)))); abstract (first [destruct_and?; by split | intros []; naive_solver]).
Defined.

(** The links of a list with elements [xs] at [l], between the neighbours [p] and [tail]. *)
Fixpoint links (p : addr) (xs : list addr) (l : addr) : heap :=
  match xs with
  | [] => {[ tail_of l := ListElem p NULL ]}
  | x :: xs' => <[x := ListElem p (first_of l xs')]> (links x xs' l)
  end.

(** A heap that holds one list, and the storage of the elements [spare]. *)
Definition heap_of (l : addr) (xs spare : list addr) : heap :=
  <[head_of l := ListElem NULL (first_of l xs)]> (links (head_of l) xs l) ∪
  list_to_map ((λ a, (a, ListElem 0 0)) <$> spare).
