(* ===== verification/KListProofs.v ===== *)
(** * The loops of src/src/lib/kernel/list.c on represented lists

    Sizes, reversal, ordered insertion, duplicates, extrema, and the move of a
    segment by [list_splice].  The sort is in KListSort.v. *)
From S2P Require Import Prelude KList.

(** ** Walks *)

Lemma wp_walk {A B} (I : nat → A → heap → Prop) (body : A → L (ctl A B))
    (Q : B → heap → Prop) n a h :
  (∀ n a s, I n a s →
    wp (body a) s (λ r s',
      match r with
      | Next a' => ∃ n', (n' < n)%nat ∧ I n' a' s'
      | Stop b => Q b s'
      end)) →
  I n a h → (n ≤ size h)%nat → wp (walk body a) h Q.
Proof.
  intros Hb HI Hn.
  assert (wp (loop (S (size h)) body a) h Q) as (b & s & Hrun & HQ)%wp_inv.
  { eapply wp_loop; [done..|lia]. }
  eapply wp_run; [|done]. done.
Qed.

Section walks.
Context (l : addr).

(** [list_size] counts the elements, modulo the width of [size_t]. *)
Lemma list_size_run h xs : list_rep h l xs →
  list_size l h = Ret (u32 (Z.of_nat (length xs)), h).
Proof.
  intros Hr.
  assert (wp (list_size l) h (λ n h', n = u32 (Z.of_nat (length xs)) ∧ h' = h)) as (n & h' & -> & -> & ->)%wp_inv;
    [|done].
  unfold list_size. wp_bind_by ltac:(by apply list_begin_run).
  apply (wp_walk (λ n '(e, cnt) h', h' = h ∧ ∃ xs1 xs2, xs = xs1 ++ xs2 ∧
    e = first_of l xs2 ∧ n = length xs2 ∧ cnt = u32 (Z.of_nat (length xs1)))) with (n := length xs).
  - intros n [e cnt] ? (-> & xs1 & xs2 & Hxs & -> & -> & ->).
    wp_bind_by ltac:(by eapply list_end_run). rewrite Hxs in Hr.
    rewrite (rep_tail_eqb h l xs1 xs2) by done.
    case_bool_decide as E.
    + subst xs2. apply wp_ret. by rewrite Hxs, app_nil_r.
    + destruct xs2 as [|x xs2]; [done|]. wp_bind_by ltac:(by eapply list_next_elem_run).
      apply wp_ret. exists (length xs2). split; [simpl; lia|]. split; [done|].
      exists (xs1 ++ [x]), xs2. split_and!; [by rewrite <-app_assoc|done|done|].
      rewrite length_app. simpl. unfold wrap. rewrite Zplus_mod_idemp_l. f_equal. lia.
  - split; [done|]. exists [], xs. by split_and!.
  - apply rep_size in Hr. lia.
Qed.

(** *** Reversal *)

Lemma chain_rev h xs :
  (∀ l1 a b l2, xs = l1 ++ a :: b :: l2 →
     fld Fprev h a = Some b ∧ fld Fnext h b = Some a) → chain h (reverse xs).
Proof.
  induction xs as [|x xs IH]; [done|]. intros H. rewrite reverse_cons.
  destruct xs as [|y xs]; [done|]. rewrite reverse_cons, <-app_assoc. simpl.
  apply chain_app. split.
  - rewrite <-reverse_cons. apply IH. intros l1 a b l2 E. apply (H (x :: l1) a b l2).
    by rewrite E.
  - destruct (H [] x y xs eq_refl). done.
Qed.

(** The interior elements of [xs] have their two links exchanged, nothing else changes. *)
Definition flipped (xs : list addr) (h h' : heap) : Prop :=
  (∀ x, x ∈ xs → fld Fprev h' x = fld Fnext h x ∧ fld Fnext h' x = fld Fprev h x) ∧
  frame xs h h'.

Lemma swap_run h a f b g u v : fld f h a = Some u → fld g h b = Some v →
  swap (a, f) (b, g) h = Ret ((), upd g b u (upd f a v h)).
Proof.
  intros Hu Hv. unfold swap. run_by ltac:(by apply ld_run). run_by ltac:(by apply ld_run).
  run_by ltac:(apply st_run; eauto with kernel). apply st_run. rewrite upd_is_Some.
  eauto with kernel.
Qed.

Lemma flipped_snoc h h1 xs1 x p n : x ∉ xs1 → fld Fprev h x = Some p → fld Fnext h x = Some n →
  flipped xs1 h h1 → flipped (xs1 ++ [x]) h (upd Fnext x p (upd Fprev x n h1)).
Proof.
  intros Hx Hp Hn [Hfl Hfr].
  assert (is_Some (h1 !! x)) by (eapply frame_is_Some; eauto with kernel).
  split.
  - intros y [Hy|Hy%list_elem_of_singleton]%elem_of_app; [|subst y].
    + assert (x ≠ y) by set_solver. rewrite !fld_upd_ne by done. by apply Hfl.
    + rewrite fld_upd_other by done. rewrite !fld_upd_same; by rewrite ?upd_is_Some.
  - do 2 (eapply frame_trans; [|apply frame_upd; set_solver]).
    eapply frame_mono; [|done]. set_solver.
Qed.

Lemma reverse_loop h xs : list_rep h l xs →
  wp (walk (λ e,
    t ← list_end l;
    if e =? t then mret (Stop ()) else
    swap (&prev e) (&next e);;
    e' ← ld (&prev e); mret (Next e')) (first_of l xs)) h (λ _ h', flipped xs h h').
Proof.
  intros Hr.
  apply (wp_walk (λ n e h', ∃ xs1 xs2, xs = xs1 ++ xs2 ∧ e = first_of l xs2 ∧
    n = length xs2 ∧ flipped xs1 h h')) with (n := length xs).
  - intros n e h1 (xs1 & xs2 & Hxs & -> & -> & Hfl).
    wp_bind_by ltac:(by eapply list_end_ne_run, rep_list_ne).
    pose proof Hr as Hr'. rewrite Hxs in Hr'. rewrite (rep_tail_eqb h l xs1 xs2) by done.
    case_bool_decide as E.
    { subst xs2. apply wp_ret. by rewrite Hxs, app_nil_r. }
    destruct xs2 as [|x xs2]; [done|]. simpl.
    destruct (rep_link h l xs1 (x :: xs2) Hr') as [_ Hp]. simpl in Hp.
    pose proof Hr' as Hr2. rewrite cons_middle, app_assoc in Hr2.
    destruct (rep_link h l _ xs2 Hr2) as [Hn _]. rewrite last_of_snoc in Hn.
    assert (x ∉ xs1) as Hx.
    { destruct Hr' as [Hnd _ _ _ _]. unfold nodes in Hnd. apply NoDup_cons in Hnd as [_ Hnd].
      rewrite <-app_assoc in Hnd. apply NoDup_app in Hnd as (_ & Hd & _). intros Hx.
      apply (Hd x Hx). set_solver. }
    pose proof Hfl as [_ Hfr].
    wp_bind_by ltac:(apply swap_run; by erewrite frame_fld).
    pose proof (flipped_snoc h h1 xs1 x _ _ Hx Hp Hn Hfl) as Hfl'.
    wp_bind_by ltac:(apply ld_run; destruct Hfl' as [Hfl' _]; rewrite (proj1 (Hfl' x ltac:(set_solver)))).
    apply wp_ret. exists (length xs2). split; [simpl; lia|].
    exists (xs1 ++ [x]), xs2. split_and!; [by rewrite <-app_assoc|done|done|done].
  - exists [], xs. split_and!; [done..|]. split; [set_solver|apply frame_refl].
  - apply rep_size in Hr. lia.
Qed.

Lemma rep_flipped_chain h h1 xs : list_rep h l xs → flipped xs h h1 → chain h1 (reverse xs).
Proof.
  intros Hr [Hfl _]. apply chain_rev. intros l1 a b l2 ->.
  assert (list_rep h l ((l1 ++ [a]) ++ (b :: l2))) as Hr' by (by rewrite <-app_assoc).
  apply rep_link in Hr' as [Hn Hp]. rewrite last_of_snoc in *. simpl in *.
  split; [rewrite (proj1 (Hfl a ltac:(set_solver)))|rewrite (proj2 (Hfl b ltac:(set_solver)))]; done.
Qed.

Lemma rep_reverse_links h xs x1 xk : list_rep h l xs → hd_error xs = Some x1 → last xs = Some xk →
  fld Fnext h (head_of l) = Some x1 ∧ fld Fprev h (tail_of l) = Some xk ∧
  fld Fprev h x1 = Some (head_of l) ∧ fld Fnext h xk = Some (tail_of l).
Proof.
  intros Hr Hx1 Hxk. destruct (rep_link h l [] xs Hr) as [H1 H2].
  pose proof Hr as Hr'. rewrite <-(app_nil_r xs) in Hr'.
  destruct (rep_link h l xs [] Hr') as [H3 H4].
  assert (first_of l xs = x1) as <- by (by destruct xs; simplify_eq/=).
  assert (last_of l xs = xk) as <- by (apply last_Some in Hxk as [k ->]; apply last_of_snoc).
  done.
Qed.

(** Closing the flipped interior with the four end links. *)
Lemma reverse_chain_ends h1 xs x1 xk :
  hd_error xs = Some x1 → last xs = Some xk → NoDup xs →
  head_of l ∉ xs → tail_of l ∉ xs → head_of l ≠ tail_of l → chain h1 (reverse xs) →
  is_Some (h1 !! head_of l) → is_Some (h1 !! tail_of l) → is_Some (h1 !! x1) → is_Some (h1 !! xk) →
  chain (upd Fnext x1 (tail_of l) (upd Fprev xk (head_of l)
          (upd Fprev (tail_of l) x1 (upd Fnext (head_of l) xk h1)))) (nodes l (reverse xs)).
Proof.
  intros Hx1 Hxk Hnd Hh Ht Hne Hc Sh Stl S1 Sk.
  assert (∃ t, reverse xs = xk :: t) as [t Et].
  { apply last_Some in Hxk as [k ->]. rewrite reverse_app. by eexists. }
  assert (∃ i, reverse xs = i ++ [x1]) as [i Ei].
  { destruct xs; simplify_eq/=. rewrite reverse_cons. by eexists. }
  assert (NoDup (reverse xs) ∧ (head_of l ∉ reverse xs) ∧ (tail_of l ∉ reverse xs)) as (Hnr & Hhr & Htr).
  { by rewrite reverse_Permutation. }
  assert (x1 ∈ reverse xs ∧ xk ∈ reverse xs) as [Hi1 Hik].
  { split; [rewrite Ei; set_solver|rewrite Et; set_solver]. }
  assert (x1 ≠ head_of l ∧ xk ≠ head_of l ∧ x1 ≠ tail_of l ∧ xk ≠ tail_of l) as (?&?&?&?)
    by (split_and!; intros ->; done).
  assert (xk ∉ t) by (rewrite Et in Hnr; by apply NoDup_cons in Hnr as [? _]).
  assert (x1 ∉ i) by (rewrite Ei in Hnr; apply NoDup_app in Hnr as (_ & Hd & _); set_solver).
  assert (nodes l (reverse xs) = head_of l :: xk :: t ++ [tail_of l]) as ->
    by (unfold nodes; by rewrite Et).
  assert (xk :: t ++ [tail_of l] = i ++ x1 :: [tail_of l]) as Ext
    by (rewrite app_comm_cons, <-Et, Ei, <-app_assoc; done).
  apply chain_cons2. split; [|split].
  - rewrite fld_upd_ne by done. do 2 rewrite fld_upd_other by done. by apply fld_upd_same.
  - rewrite fld_upd_other by done. apply fld_upd_same. by rewrite !upd_is_Some.
  - rewrite Ext. apply chain_app. split.
    + apply chain_upd_next; [done|]. rewrite <-Ei, Et. apply chain_upd_prev; [done|]. rewrite <-Et.
      by do 2 (apply chain_upd; [done|]).
    + simpl. split_and!; [| |done].
      * apply fld_upd_same. by rewrite !upd_is_Some.
      * rewrite fld_upd_other by done. rewrite fld_upd_ne by done. apply fld_upd_same.
        by rewrite upd_is_Some.
Qed.

Lemma list_reverse_spec h xs : list_rep h l xs →
  ∃ h', list_reverse l h = Ret ((), h') ∧ list_rep h' l (reverse xs) ∧ frame (nodes l xs) h h'.
Proof.
  intros Hr. unfold list_reverse. run_by ltac:(by apply list_empty_run).
  case_bool_decide as E; [subst; exists h; by split_and!|].
  run_by ltac:(by apply list_begin_run).
  destruct (wp_inv _ _ _ (reverse_loop h xs Hr)) as ([] & h1 & Hrun & Hfl).
  rewrite (bind_run _ _ _ _ _ Hrun). clear Hrun. pose proof Hfl as [Hsw Hfr].
  destruct (hd_error xs) as [x1|] eqn:Hx1; [|by destruct xs].
  destruct (last xs) as [xk|] eqn:Hxk; [|by apply last_None in Hxk].
  destruct (rep_reverse_links h xs x1 xk Hr Hx1 Hxk) as (H1 & H2 & H3 & H4).
  assert (x1 ∈ xs ∧ xk ∈ xs) as [Hi1 Hik].
  { split; [destruct xs; simplify_eq/=; set_solver|]. apply last_Some in Hxk as [k ->]. set_solver. }
  pose proof Hr as [Hnd Hnn Hh Ht _].
  assert (head_of l ∉ xs ∧ tail_of l ∉ xs ∧ head_of l ≠ tail_of l ∧ NoDup xs) as (?&?&?&?).
  { unfold nodes in Hnd. apply NoDup_cons in Hnd as [? Hnd]. apply NoDup_app in Hnd as (?&?&?).
    set_solver. }
  assert (x1 ≠ head_of l ∧ xk ≠ head_of l ∧ x1 ≠ tail_of l ∧ xk ≠ tail_of l) as (?&?&?&?) by set_solver.
  run_by ltac:(apply swap_run; by erewrite frame_fld).
  assert (is_Some (h1 !! head_of l)) by (eapply frame_is_Some; eauto with kernel).
  assert (is_Some (h1 !! tail_of l)) by (eapply frame_is_Some; eauto with kernel).
  assert (is_Some (h1 !! x1)) by (eapply frame_is_Some; eauto with kernel).
  assert (is_Some (h1 !! xk)) by (eapply frame_is_Some; eauto with kernel).
  run_by ltac:(apply ld_run; rewrite fld_upd_other by done; apply fld_upd_same).
  run_by ltac:(apply ld_run; apply fld_upd_same; by rewrite upd_is_Some).
  eexists. split.
  { apply swap_run.
    - rewrite fld_upd_ne by done. rewrite fld_upd_other by done. rewrite (proj1 (Hsw xk Hik)). done.
    - rewrite fld_upd_other by done. rewrite fld_upd_ne by done. rewrite (proj2 (Hsw x1 Hi1)). done. }
  split; [split|].
  - unfold nodes. by rewrite reverse_Permutation.
  - unfold nodes. by rewrite reverse_Permutation.
  - rewrite fld_upd_other by done. rewrite fld_upd_ne by done. rewrite fld_upd_ne by done.
    rewrite fld_upd_other by done. by erewrite frame_fld.
  - rewrite fld_upd_ne by done. rewrite fld_upd_other by done. rewrite fld_upd_other by done.
    rewrite fld_upd_ne by done. by erewrite frame_fld.
  - apply reverse_chain_ends; try done.
    + by apply rep_flipped_chain with (h := h).
  - repeat (eapply frame_trans; [|apply frame_upd; unfold nodes; set_solver]).
    eapply frame_mono; [|done]. unfold nodes. set_solver.
Qed.
End walks.

(** ** Moving a segment *)

Lemma elem_of_pair {A} (x a b : A) : x ∈ [a; b] ↔ x = a ∨ x = b.
Proof. by rewrite elem_of_cons, list_elem_of_singleton. Qed.

Lemma rep_frame fr h h' l xs :
  frame fr h h' → (∀ a, a ∈ nodes l xs → a ∉ fr) → list_rep h l xs → list_rep h' l xs.
Proof.
  intros Hf Hd [Hnd Hnn Hh Ht Hc]. split; try done.
  - erewrite frame_fld; [done|done|]. apply Hd. unfold nodes. set_solver.
  - erewrite frame_fld; [done|done|]. apply Hd. unfold nodes. set_solver.
  - eapply chain_frame; done.
Qed.

Lemma rep_app_disjoint h l xs1 M xs2 : list_rep h l (xs1 ++ M ++ xs2) →
  NoDup M ∧ NULL ∉ M ∧ ∀ x, x ∈ M → x ∉ nodes l (xs1 ++ xs2).
Proof.
  intros [Hnd Hnn _ _ _]. rewrite nodes_perm in Hnd, Hnn.
  apply NoDup_app in Hnd as (_ & Hd & ?). split_and!; [done|set_solver|].
  intros x Hx Hn. by apply (Hd x).
Qed.

Lemma rep_before_run h l xs1 xs2 : list_rep h l (xs1 ++ xs2) →
  orM (is_interior (first_of l xs2)) (is_tail (first_of l xs2)) h = Ret (true, h).
Proof.
  intros Hr. destruct (rep_next_some h l xs1 xs2 Hr) as [n Hn].
  destruct (rep_link h l xs1 xs2 Hr) as [_ Hp].
  eapply interior_or_tail_run; [by eapply rep_first_ne|done|done|by eapply nonnull_true, rep_last_ne].
Qed.

(** [list_splice] takes a non-empty segment [M] out of the list at [l] and links it in
    before the node that starts [ys2] in the list at [l2], which may be the same list. *)
Section splice.
Context (h : heap) (l : addr) (xs1 M xs2 : list addr) (l2 : addr) (ys1 ys2 : list addr).
Context (HM : M ≠ []) (Hr : list_rep h l (xs1 ++ M ++ xs2)).
Context (Hb : orM (is_interior (first_of l2 ys2)) (is_tail (first_of l2 ys2)) h = Ret (true, h)).
Context (Hdj : ∀ x, x ∈ M → x ∉ nodes l2 (ys1 ++ ys2)).
Context (Htarget : ∀ h', list_rep h' l (xs1 ++ xs2) → frame [last_of l xs1; first_of l xs2] h h' →
                        list_rep h' l2 (ys1 ++ ys2)).

Lemma list_splice_core :
  ∃ h', list_splice (first_of l2 ys2) (first_of l (M ++ xs2)) (first_of l xs2) h = Ret ((), h') ∧
    list_rep h' l2 (ys1 ++ M ++ ys2) ∧
    ∃ hm, list_rep hm l (xs1 ++ xs2) ∧ frame [last_of l xs1; first_of l xs2] h hm ∧
      frame (M ++ [last_of l2 ys1; first_of l2 ys2]) hm h'.
Proof.
  destruct (rep_app_disjoint _ _ _ _ _ Hr) as (HnM & HMn & Hd0).
  destruct (hd_error M) as [f|] eqn:Hf; [|by destruct M].
  destruct (last M) as [e|] eqn:He; [|by apply last_None in He].
  assert (f ∈ M ∧ e ∈ M) as [HfM HeM].
  { split; [destruct M; simplify_eq/=; set_solver|]. apply last_Some in He as [M' ->]. set_solver. }
  assert (first_of l (M ++ xs2) = f) as -> by (by destruct M; simplify_eq/=).
  assert (list_rep h l ((xs1 ++ M) ++ xs2)) as Hr2 by (by rewrite <-app_assoc).
  assert (last_of l (xs1 ++ M) = e) as Hle.
  { apply last_Some in He as [M' ->]. rewrite app_assoc. apply last_of_snoc. }
  unfold list_splice. run_by ltac:(exact Hb). run_by ltac:(by apply assert_run).
  destruct (Z.eqb_spec f (first_of l xs2)) as [->|Hne].
  { exfalso. apply (Hd0 _ HfM). apply first_of_elem. }
  run_by ltac:(by apply (list_prev_run _ _ (xs1 ++ M) xs2)). rewrite Hle. clear Hle.
  destruct M as [|f' M1] eqn:EM; simplify_eq/=.
  run_by ltac:(by eapply is_interior_elem_run). run_by ltac:(by apply assert_run).
  apply last_Some in He as [M2 He2].
  run_by ltac:(eapply is_interior_elem_run with (xs1 := xs1 ++ M2) (xs2 := xs2);
               by rewrite <-app_assoc, (cons_middle e), (app_assoc M2), <-He2).
  run_by ltac:(by apply assert_run).
  eapply (unlink_run l h xs1 (f :: M1) xs2 f e _ (λ r, ∃ h', r = Ret _ ∧ _)); try done.
  { rewrite He2. apply last_snoc. }
  intros hm Hrm Hcm Hpm Hnm Hfm.
  destruct (link_in_run l2 hm ys1 ys2 (f :: M1) f e) as (h' & Hrun & Hr' & Hfr'); eauto with kernel.
  { rewrite He2. apply last_snoc. }
  exists h'. split_and!; [exact Hrun|done|]. exists hm. split_and!; [done..|].
  eapply frame_mono; [|done]. set_solver.
Qed.
End splice.

(** The same list, towards the front: what a merge step does. *)
Lemma list_splice_back_spec h l P A M S : A ≠ [] → M ≠ [] →
  list_rep h l (P ++ A ++ M ++ S) →
  ∃ h', list_splice (first_of l (A ++ M ++ S)) (first_of l (M ++ S)) (first_of l S) h = Ret ((), h') ∧
    list_rep h' l (P ++ M ++ A ++ S) ∧ frame (nodes l (P ++ A ++ M ++ S)) h h'.
Proof.
  intros HA HM Hr.
  assert (list_rep h l ((P ++ A) ++ M ++ S)) as Hr' by (by rewrite <-app_assoc).
  destruct (rep_app_disjoint _ _ _ _ _ Hr') as (_ & _ & Hd).
  assert (first_of l (A ++ M ++ S) = first_of l (A ++ S)) as E by (by destruct A).
  destruct (list_splice_core h l (P ++ A) M S l P (A ++ S)) as (h' & Hrun & Hr2 & hm & Hrm & F1 & F2);
    try done.
  - rewrite <-E. by apply (rep_before_run h l P).
  - by rewrite app_assoc.
  - intros hm Hm _. by rewrite app_assoc.
  - rewrite E. exists h'. split_and!; [done..|].
    pose proof (last_of_elem l (P ++ A) (M ++ S)) as I1. pose proof (first_of_elem l (P ++ A ++ M) S) as I2.
    pose proof (last_of_elem l P (A ++ M ++ S)) as I3. pose proof (first_of_elem l P (A ++ M ++ S)) as I4.
    rewrite <-!app_assoc in I1, I2. rewrite E in I4.
    eapply frame_trans; (eapply frame_mono; [|done]).
    + clear -I1 I2. set_solver.
    + intros x [Hx|Hx]%elem_of_app; [|clear -Hx I3 I4; set_solver].
      clear -Hx. unfold nodes. rewrite elem_of_cons, !elem_of_app. tauto.
Qed.

(** Another list: the segment leaves [l] and arrives in [l2]. *)
Lemma list_splice_other_spec h l xs1 M xs2 l2 ys1 ys2 : M ≠ [] →
  list_rep h l (xs1 ++ M ++ xs2) → list_rep h l2 (ys1 ++ ys2) →
  (∀ a, a ∈ nodes l (xs1 ++ M ++ xs2) → a ∉ nodes l2 (ys1 ++ ys2)) →
  ∃ h', list_splice (first_of l2 ys2) (first_of l (M ++ xs2)) (first_of l xs2) h = Ret ((), h') ∧
    list_rep h' l (xs1 ++ xs2) ∧ list_rep h' l2 (ys1 ++ M ++ ys2) ∧
    frame (nodes l (xs1 ++ M ++ xs2) ++ nodes l2 (ys1 ++ ys2)) h h'.
Proof.
  intros HM Hr Hr2 Hdj. destruct (rep_app_disjoint _ _ _ _ _ Hr) as (_ & _ & Hd).
  assert (∀ a, a ∈ nodes l (xs1 ++ xs2) → a ∉ nodes l2 (ys1 ++ ys2)) as Hdj'.
  { intros a Ha. apply Hdj, nodes_app. by left. }
  assert (∀ a, a ∈ M → a ∉ nodes l2 (ys1 ++ ys2)) as HdM.
  { intros a Ha. apply Hdj, nodes_app. by right. }
  pose proof (last_of_elem l xs1 xs2) as I1. pose proof (first_of_elem l xs1 xs2) as I2.
  pose proof (last_of_elem l2 ys1 ys2) as I3. pose proof (first_of_elem l2 ys1 ys2) as I4.
  destruct (list_splice_core h l xs1 M xs2 l2 ys1 ys2) as (h' & Hrun & Hr' & hm & Hrm & F1 & F2);
    try done.
  - by eapply rep_before_run.
  - intros h1 _ F1. eapply rep_frame; [done| |done].
    intros a Ha [->| ->]%elem_of_pair; [exact (Hdj' _ I1 Ha)|exact (Hdj' _ I2 Ha)].
  - exists h'. split_and!; [done| |done|].
    + eapply rep_frame; [done| |done].
      intros a Ha [HaM|[->| ->]%elem_of_pair]%elem_of_app; [exact (Hd _ HaM Ha)|exact (Hdj' _ Ha I3)|exact (Hdj' _ Ha I4)].
    + eapply frame_trans; (eapply frame_mono; [|done]); intros x.
      * rewrite elem_of_pair, elem_of_app, nodes_app. naive_solver.
      * rewrite !elem_of_app, elem_of_pair, nodes_app. naive_solver.
Qed.

(** ** Operations that compare *)

(** Reference definitions on lists of addresses. *)
Section reference.
Context (less : addr → addr → bool).

Fixpoint insert_ordered (e : addr) (xs : list addr) : list addr :=
  match xs with
  | [] => [e]
  | x :: xs' => if less e x then e :: xs else x :: insert_ordered e xs'
  end.

Definition equal (a b : addr) : bool := negb (less a b) && negb (less b a).

(** What is kept and what is dropped after the kept element [x]. *)
Fixpoint unique_from (x : addr) (xs : list addr) : list addr * list addr :=
  match xs with
  | [] => ([], [])
  | y :: xs' =>
      if equal x y then let '(ks, ds) := unique_from x xs' in (ks, y :: ds)
      else let '(ks, ds) := unique_from y xs' in (y :: ks, ds)
  end.

Definition unique (xs : list addr) : list addr * list addr :=
  match xs with
  | [] => ([], [])
  | x :: xs' => let '(ks, ds) := unique_from x xs' in (x :: ks, ds)
  end.

Definition max_from (m : addr) (xs : list addr) : addr :=
  foldl (λ m e, if less m e then e else m) m xs.
Definition min_from (m : addr) (xs : list addr) : addr :=
  foldl (λ m e, if less e m then e else m) m xs.
End reference.

Section compare.
Context (less : addr → addr → bool) (l : addr).

Lemma insert_ordered_prefix e xs1 xs2 : Forall (λ x, less e x = false) xs1 →
  insert_ordered less e (xs1 ++ xs2) = xs1 ++ insert_ordered less e xs2.
Proof. induction 1 as [|x xs1 Hx _ IH]; [done|]. simpl. by rewrite Hx, IH. Qed.

Lemma list_insert_ordered_spec h xs e :
  list_rep h l xs → e ∉ nodes l xs → e ≠ NULL → is_Some (h !! e) →
  ∃ h', list_insert_ordered less l e h = Ret ((), h') ∧
    list_rep h' l (insert_ordered less e xs) ∧ frame (e :: nodes l xs) h h'.
Proof.
  intros Hr He Hne Hs. unfold list_insert_ordered.
  run_by ltac:(eapply assert_run, nonnull_true, rep_list_ne).
  run_by ltac:(by apply assert_run, nonnull_true). run_by ltac:(by apply list_begin_run).
  assert (wp (walk (λ e0, t ← list_end l;
      if e0 =? t then mret (Stop e0) else if less e e0 then mret (Stop e0)
      else e' ← list_next e0; mret (Next e')) (first_of l xs)) h
    (λ r h', h' = h ∧ ∃ xs1 xs2, xs = xs1 ++ xs2 ∧ r = first_of l xs2 ∧
       insert_ordered less e xs = xs1 ++ e :: xs2)) as (r & h0 & Hrun & -> & xs1 & xs2 & -> & -> & Hins)%wp_inv.
  { apply (wp_walk (λ n e0 h', h' = h ∧ ∃ xs1 xs2, xs = xs1 ++ xs2 ∧ e0 = first_of l xs2 ∧
      n = length xs2 ∧ Forall (λ x, less e x = false) xs1)) with (n := length xs).
    - intros n e0 ? (-> & xs1 & xs2 & -> & -> & -> & Hall).
      wp_bind_by ltac:(by eapply list_end_run). rewrite (rep_tail_eqb h l xs1 xs2) by done.
      case_bool_decide as E.
      { subst. apply wp_ret. split; [done|]. exists xs1, [].
        by rewrite insert_ordered_prefix by done. }
      destruct xs2 as [|x xs2]; [done|]. simpl. destruct (less e x) eqn:Hl.
      { apply wp_ret. split; [done|]. exists xs1, (x :: xs2).
        rewrite insert_ordered_prefix by done. simpl. by rewrite Hl. }
      wp_bind_by ltac:(by eapply list_next_elem_run). apply wp_ret. exists (length xs2).
      split; [simpl; lia|]. split; [done|]. exists (xs1 ++ [x]), xs2.
      rewrite <-app_assoc. split_and!; [done..|]. apply Forall_app. auto.
    - split; [done|]. exists [], xs. split_and!; auto.
    - apply rep_size in Hr. lia. }
  run_by ltac:(exact Hrun). rewrite Hins. by apply list_insert_spec.
Qed.

(** [list_max] and [list_min] fold over the list; the earlier of equal extrema wins. *)
Lemma extremum_loop h x xs (step : addr → addr → addr) : list_rep h l (x :: xs) →
  wp (walk (λ '(m, e), t ← list_end l;
        if e =? t then mret (Stop m) else
        let m := step m e in e' ← list_next e; mret (Next (m, e'))) (x, first_of l xs)) h
    (λ r h', r = foldl step x xs ∧ h' = h).
Proof.
  intros Hr.
  apply (wp_walk (λ n '(m, e) h', h' = h ∧ ∃ xs1 xs2, xs = xs1 ++ xs2 ∧ e = first_of l xs2 ∧
    n = length xs2 ∧ m = foldl step x xs1)) with (n := length xs).
  - intros n [m e] ? (-> & xs1 & xs2 & -> & -> & -> & ->).
    wp_bind_by ltac:(by eapply list_end_run).
    rewrite (rep_tail_eqb h l (x :: xs1) xs2) by done. case_bool_decide as E.
    { subst. apply wp_ret. by rewrite app_nil_r. }
    destruct xs2 as [|y xs2]; [done|].
    wp_bind_by ltac:(by apply (list_next_elem_run l h (x :: xs1) y xs2)). apply wp_ret.
    exists (length xs2). split; [simpl; lia|]. split; [done|]. exists (xs1 ++ [y]), xs2.
    rewrite <-app_assoc. split_and!; [done..|]. by rewrite foldl_app.
  - split; [done|]. exists [], xs. by split_and!.
  - apply rep_size in Hr. simpl in Hr. lia.
Qed.

Lemma list_max_run h xs : list_rep h l xs →
  list_max less l h = Ret (match xs with [] => tail_of l | x :: xs' => max_from less x xs' end, h).
Proof.
  intros Hr. unfold list_max. run_by ltac:(by apply list_begin_run).
  run_by ltac:(by eapply list_end_run). rewrite (rep_tail_eqb h l [] xs) by done.
  case_bool_decide as E; [by subst|]. destruct xs as [|x xs]; [done|].
  change (first_of l (x :: xs)) with x.
  run_by ltac:(by apply (list_next_elem_run l h [] x xs)).
  destruct (wp_inv _ _ _ (extremum_loop h x xs (λ m e, if less m e then e else m) Hr)) as (? & ? & Hrun & -> & ->).
  exact Hrun.
Qed.

Lemma list_min_run h xs : list_rep h l xs →
  list_min less l h = Ret (match xs with [] => tail_of l | x :: xs' => min_from less x xs' end, h).
Proof.
  intros Hr. unfold list_min. run_by ltac:(by apply list_begin_run).
  run_by ltac:(by eapply list_end_run). rewrite (rep_tail_eqb h l [] xs) by done.
  case_bool_decide as E; [by subst|]. destruct xs as [|x xs]; [done|].
  change (first_of l (x :: xs)) with x.
  run_by ltac:(by apply (list_next_elem_run l h [] x xs)).
  destruct (wp_inv _ _ _ (extremum_loop h x xs (λ m e, if less e m then e else m) Hr)) as (? & ? & Hrun & -> & ->).
  exact Hrun.
Qed.

(** The duplicates list of [list_unique]: absent, or a list apart from [l]. *)
Definition dup_rep (h : heap) (dup : addr) (ds ns : list addr) : Prop :=
  dup = NULL ∨ list_rep h dup ds ∧ ∀ a, a ∈ nodes dup ds → a ∉ ns.

Lemma dup_step h dup ds xs1 y xs2 : list_rep h l (xs1 ++ y :: xs2) →
  dup_rep h dup ds (nodes l (xs1 ++ y :: xs2)) →
  ∃ r h1 h2, list_remove y h = Ret (r, h1) ∧
    (if nonnull dup then list_push_back dup y else mret ()) h1 = Ret ((), h2) ∧
    list_rep h2 l (xs1 ++ xs2) ∧ dup_rep h2 dup (ds ++ [y]) (nodes l (xs1 ++ xs2)).
Proof.
  intros Hr Hd. destruct (list_remove_spec l h xs1 y xs2 Hr) as (h1 & Hrun & Hr1 & F1).
  destruct (rep_app_disjoint h l xs1 [y] xs2 Hr) as (_ & _ & Hy).
  assert (y ∉ nodes l (xs1 ++ xs2)) as Hy' by (apply Hy; set_solver). clear Hy.
  exists (first_of l xs2), h1.
  destruct Hd as [->|[Hd Hdj]]; [exists h1; split_and!; [done..|by left]|].
  rewrite nonnull_true by (by eapply rep_list_ne).
  assert (y ∈ nodes l (xs1 ++ y :: xs2)) as Hin by (unfold nodes; set_solver).
  assert (∀ a, a ∈ nodes dup ds → a ∉ nodes l (xs1 ++ xs2)) as Hdj'.
  { intros a Ha Hn. apply (Hdj a Ha). apply (nodes_app l xs1 [y] xs2). by left. }
  assert (list_rep h1 dup ds) as Hd1 by (by eapply rep_frame).
  destruct (list_push_back_spec dup h1 ds y) as (h2 & Hrun2 & Hr2 & F2); try done.
  { intros Hyd. by apply (Hdj y). } { exact (rep_ne_null h l _ _ Hr Hin). }
  { eapply frame_is_Some; [done|]. exact (rep_nodes_dom h l _ _ Hr Hin). }
  exists h2. split_and!; [done..| |].
  - eapply rep_frame; [done| |done]. intros a Ha [->|Hn]%elem_of_cons; [done|]. by eapply Hdj'.
  - right. split; [done|]. intros a Ha Hn. unfold nodes in Ha.
    rewrite elem_of_cons, !elem_of_app, !list_elem_of_singleton in Ha.
    destruct Ha as [->|[[Ha| ->]| ->]]; [|..|done|].
    + eapply Hdj'; [|done]. unfold nodes. set_solver.
    + eapply Hdj'; [|done]. unfold nodes. set_solver.
    + eapply Hdj'; [|done]. unfold nodes. set_solver.
Qed.

Lemma list_unique_spec h dup ds xs :
  list_rep h l xs → dup_rep h dup ds (nodes l xs) →
  ∃ h', list_unique less l dup h = Ret ((), h') ∧
    list_rep h' l (unique less xs).1 ∧
    dup_rep h' dup (ds ++ (unique less xs).2) (nodes l (unique less xs).1).
Proof.
  intros Hr Hd. unfold list_unique.
  run_by ltac:(eapply assert_run, nonnull_true, rep_list_ne).
  run_by ltac:(by apply list_empty_run). case_bool_decide as E.
  { subst. exists h. simpl. by rewrite app_nil_r. }
  destruct xs as [|x xs]; [done|]. run_by ltac:(by apply list_begin_run).
  apply wp_unit.
  apply (wp_walk (λ n elem h', ∃ ks ds' rest, n = length rest ∧
    list_rep h' l (ks ++ elem :: rest) ∧ dup_rep h' dup (ds ++ ds') (nodes l (ks ++ elem :: rest)) ∧
    unique less (x :: xs) =
      (ks ++ elem :: (unique_from less elem rest).1, ds' ++ (unique_from less elem rest).2)))
    with (n := length xs).
  - intros n e h1 (ks & ds' & rest & -> & Hr1 & Hd1 & Hu).
    wp_bind_by ltac:(by eapply list_next_elem_run). wp_bind_by ltac:(by eapply list_end_run).
    rewrite (rep_tail_eqb h1 l (ks ++ [e]) rest) by (by rewrite <-app_assoc).
    case_bool_decide as E1.
    { subst. apply wp_ret. rewrite Hu. simpl. by rewrite app_nil_r. }
    destruct rest as [|y rest]; [done|]. simpl first_of.
    fold (equal less e y). destruct (equal less e y) eqn:Ey.
    + assert (list_rep h1 l ((ks ++ [e]) ++ y :: rest)) as Hr1' by (by rewrite <-app_assoc).
      assert (dup_rep h1 dup (ds ++ ds') (nodes l ((ks ++ [e]) ++ y :: rest))) as Hd1'
        by (by rewrite <-app_assoc).
      destruct (dup_step _ _ _ _ _ _ Hr1' Hd1') as (r & hm & h2 & Hrm & Hdup & Hr2 & Hd2).
      wp_bind_by ltac:(exact Hrm). wp_bind_by ltac:(exact Hdup). apply wp_ret.
      exists (length rest). split; [simpl; lia|]. rewrite <-(app_assoc ks) in Hr2, Hd2. rewrite <-(app_assoc ds) in Hd2.
      exists ks, (ds' ++ [y]), rest. split; [done|split; [exact Hr2|split; [exact Hd2|]]].
      rewrite Hu. simpl. rewrite Ey. destruct (unique_from less e rest). simpl.
      by rewrite <-app_assoc.
    + apply wp_ret. exists (length rest). split; [simpl; lia|].
      exists (ks ++ [e]), ds', rest. rewrite <-app_assoc. split_and!; [done..|].
      rewrite Hu. simpl. rewrite Ey. destruct (unique_from less y rest). simpl.
      by rewrite <-app_assoc.
  - exists [], [], xs. rewrite app_nil_r. split_and!; [done..|].
    simpl. by destruct (unique_from less x xs).
  - apply rep_size in Hr. simpl in Hr. lia.
Qed.
End compare.

(** ** The contracts of the compound operations *)

(** [list_splice] cuts any nonempty segment out of one list and puts it, in
    order, before any position of another list that shares no node with the first; both
    lists stay well formed and nothing else in memory changes. *)
Theorem list_splice_moves_segment h l xs1 M xs2 l2 ys1 ys2 : M ≠ [] →
  list_rep h l (xs1 ++ M ++ xs2) → list_rep h l2 (ys1 ++ ys2) →
  nodes l (xs1 ++ M ++ xs2) ## nodes l2 (ys1 ++ ys2) →
  ∃ h', list_splice (first_of l2 ys2) (first_of l (M ++ xs2)) (first_of l xs2) h = Ret ((), h') ∧
    list_rep h' l (xs1 ++ xs2) ∧ list_rep h' l2 (ys1 ++ M ++ ys2) ∧
    frame (nodes l (xs1 ++ M ++ xs2) ++ nodes l2 (ys1 ++ ys2)) h h'.
Proof. intros. apply list_splice_other_spec; auto. Qed.

Lemma list_splice_moves_segment_witness : ∃ h',
  list_splice 8 2 4 (heap_of 100 [1; 2; 3; 4] [] ∪ heap_of 200 [7; 8] []) = Ret ((), h') ∧
  list_rep h' 100 [1; 4] ∧ list_rep h' 200 [7; 2; 3; 8] ∧
  frame (nodes 100 [1; 2; 3; 4] ++ nodes 200 [7; 8])
    (heap_of 100 [1; 2; 3; 4] [] ∪ heap_of 200 [7; 8] []) h'.
Proof.
  apply (list_splice_moves_segment (heap_of 100 [1; 2; 3; 4] [] ∪ heap_of 200 [7; 8] [])
    100 [1] [2; 3] [4] 200 [7] [8]); [done|by_evaluation|by_evaluation|].
  cut (Forall (λ a, a ∉ nodes 200 [7; 8]) (nodes 100 [1; 2; 3; 4])); [by rewrite Forall_forall|].
  by_evaluation.
Defined.

(** [list_reverse] reverses any well-formed list in place, the empty list included. *)
Theorem list_reverse_correct h l xs : list_rep h l xs →
  ∃ h', list_reverse l h = Ret ((), h') ∧ list_rep h' l (reverse xs) ∧ frame (nodes l xs) h h'.
Proof. apply list_reverse_spec. Qed.

Lemma list_reverse_correct_witness :
  ∃ h', list_reverse 100 (heap_of 100 [1; 2; 3] []) = Ret ((), h') ∧
    list_rep h' 100 (reverse [1; 2; 3]) ∧ frame (nodes 100 [1; 2; 3]) (heap_of 100 [1; 2; 3] []) h'.
Proof. apply list_reverse_correct. by_evaluation. Defined.

(** [list_unique] keeps the first element of each group of adjacent equal
    elements and appends the others, in order, to the duplicates list when there is one. *)
Theorem list_unique_correct less l h dup ds xs :
  list_rep h l xs → dup_rep h dup ds (nodes l xs) →
  ∃ h', list_unique less l dup h = Ret ((), h') ∧
    list_rep h' l (unique less xs).1 ∧
    dup_rep h' dup (ds ++ (unique less xs).2) (nodes l (unique less xs).1).
Proof. apply list_unique_spec. Qed.

Lemma list_unique_correct_witness :
  let less a b := Z.ltb (a / 10) (b / 10) in
  ∃ h', list_unique less 100 NULL (heap_of 100 [10; 11; 20; 21; 22; 30] []) = Ret ((), h') ∧
    list_rep h' 100 (unique less [10; 11; 20; 21; 22; 30]).1 ∧
    dup_rep h' NULL ([] ++ (unique less [10; 11; 20; 21; 22; 30]).2)
      (nodes 100 (unique less [10; 11; 20; 21; 22; 30]).1).
Proof. apply list_unique_correct; [by_evaluation|by left]. Defined.
