(* ===== verification/KListSort.v ===== *)
(** * The natural merge sort of src/src/lib/kernel/list.c

    [list_sort] makes passes over the list; each pass merges adjacent runs of
    nondecreasing elements in place.  The number of natural runs of the list bounds
    the passes, so the sort returns; its result is a sorted permutation. *)
From stdpp Require Import sorting.
From S2P Require Import Prelude KList KListProofs.

Section sort.
Context (less : addr → addr → bool) (l : addr).

(** [b] may follow [a] in a nondecreasing run. *)
Definition ordered (a b : addr) : Prop := less b a = false.
#[global] Instance ordered_dec : RelDecision ordered.
Proof. intros a b. unfold ordered. apply _. Defined.

(** The number of maximal nondecreasing runs of a list. *)
Fixpoint descents (x : addr) (xs : list addr) : nat :=
  match xs with
  | [] => 0
  | y :: xs' => (if less y x then 1 else 0) + descents y xs'
  end.
Definition nruns (xs : list addr) : nat :=
  match xs with [] => 0 | x :: xs' => S (descents x xs') end.

Lemma nruns_length xs : (nruns xs ≤ length xs)%nat.
Proof.
  destruct xs as [|x xs]; [done|]. simpl. apply le_n_S.
  revert x. induction xs as [|y xs IH]; intros x; simpl; [done|].
  specialize (IH y). destruct (less y x); lia.
Qed.

Lemma nruns_sorted xs : Sorted ordered xs → (nruns xs ≤ 1)%nat.
Proof.
  destruct xs as [|x xs]; simpl; [lia|]. intros Hs.
  enough (descents x xs = 0)%nat by lia. revert x Hs.
  induction xs as [|y xs IH]; intros x Hs; [done|]. simpl.
  inversion Hs as [|? ? Hs' Hd]; subst. inversion Hd as [|? ? Ho]; subst.
  unfold ordered in Ho. rewrite Ho. by apply IH.
Qed.

Lemma nruns_app xs ys : (nruns (xs ++ ys) ≤ nruns xs + nruns ys)%nat.
Proof.
  destruct xs as [|x xs]; [done|]. simpl. apply le_n_S. revert x.
  induction xs as [|z xs IH]; intros x; simpl.
  - destruct ys as [|y ys]; simpl; [lia|]. destruct (less y x); lia.
  - specialize (IH z). lia.
Qed.

Lemma nruns_concat Cs : Forall (Sorted ordered) Cs → (nruns (concat Cs) ≤ length Cs)%nat.
Proof.
  induction 1 as [|C Cs HC _ IH]; [done|]. simpl.
  pose proof (nruns_app C (concat Cs)). apply nruns_sorted in HC. lia.
Qed.

(** A run [A] is maximal before [R]. *)
Definition run_ends (A R : list addr) : Prop :=
  match last A, hd_error R with
  | Some a, Some r => less r a = true
  | _, _ => R = []
  end.

Lemma nruns_run A R : A ≠ [] → run_ends A R → (S (nruns R) ≤ nruns (A ++ R))%nat.
Proof.
  intros HA HR. destruct A as [|x A]; [done|]. simpl. apply le_n_S.
  revert x HA HR. induction A as [|y A IH]; intros x _ HR; simpl.
  - destruct R as [|r R]; [done|]. unfold run_ends in HR. simpl in *. rewrite HR. lia.
  - specialize (IH y ltac:(done)). unfold run_ends in HR. rewrite last_cons_cons in HR.
    specialize (IH HR). lia.
Qed.

(** ** The in-place operations *)

(** Pointers to the starts of two suffixes of the same list. *)
Lemma suffix_eqb h P A S : list_rep h l (P ++ A ++ S) →
  (first_of l (A ++ S) =? first_of l S) = bool_decide (A = []).
Proof.
  intros Hr. rewrite (rep_first_eqb h l P (A ++ S) (P ++ A) S) by (done || by rewrite app_assoc).
  apply bool_decide_ext. split; [|by intros ->]. intros E.
  by apply (app_inv_tail S A []).
Qed.

Lemma is_sorted_run h P A S : list_rep h l (P ++ A ++ S) → Sorted ordered A →
  is_sorted less (first_of l (A ++ S)) (first_of l S) h = Ret (true, h).
Proof.
  intros Hr Hs. unfold is_sorted. rewrite (suffix_eqb h P A S) by done.
  case_bool_decide as E; [done|]. destruct A as [|x A]; [done|]. clear E. simpl first_of.
  eassert (wp (walk _ x) h (λ b h', b = true ∧ h' = h)) as (? & ? & Hrun & -> & ->)%wp_inv;
    [|exact Hrun].
  apply (wp_walk (λ n a h', h' = h ∧ ∃ P' A', n = length A' ∧
    list_rep h l (P' ++ a :: A' ++ S) ∧ Sorted ordered (a :: A'))) with (n := length A).
  - intros n a ? (-> & P' & A' & -> & Hr' & Hs').
    wp_bind_by ltac:(by eapply list_next_elem_run).
    assert (list_rep h l ((P' ++ [a]) ++ A' ++ S)) as Hr2 by (by rewrite <-app_assoc).
    rewrite (suffix_eqb h (P' ++ [a]) A' S) by done.
    case_bool_decide as E; [by apply wp_ret|]. destruct A' as [|b A']; [done|]. simpl first_of.
    wp_bind_by ltac:(by apply (list_prev_elem_run l h P' a (b :: A' ++ S))).
    inversion Hs' as [|? ? Hs2 Hd]; subst. inversion Hd as [|? ? Ho]; subst. rewrite Ho.
    apply wp_ret. exists (length A'). split; [simpl; lia|]. split; [done|].
    by exists (P' ++ [a]), A'.
  - split; [done|]. by exists P, A.
  - apply rep_size in Hr. rewrite !length_app in Hr. simpl in Hr. lia.
Qed.

Lemma find_end_of_run_run h P x R : list_rep h l (P ++ x :: R) →
  ∃ A S, R = A ++ S ∧ Sorted ordered (x :: A) ∧ run_ends (x :: A) S ∧
    find_end_of_run less x (tail_of l) h = Ret (first_of l S, h).
Proof.
  intros Hr.
  assert (wp (find_end_of_run less x (tail_of l)) h (λ r h', h' = h ∧ ∃ A S, R = A ++ S ∧
    Sorted ordered (x :: A) ∧ run_ends (x :: A) S ∧ r = first_of l S))
    as (r & ? & Hrun & -> & A & S & ? & ? & ? & ->)%wp_inv; [|by exists A, S].
  unfold find_end_of_run.
  wp_bind_by ltac:(apply assert_run, nonnull_true; apply (rep_first_ne h l P (x :: R)); done).
  wp_bind_by ltac:(apply assert_run, nonnull_true; apply (rep_first_ne h l (P ++ x :: R) []); by rewrite app_nil_r).
  wp_bind_by ltac:(apply assert_run, negb_true_iff; by apply (rep_tail_eqb h l P (x :: R))).
  apply (wp_walk (λ n a h', h' = h ∧ ∃ A S, n = length S ∧ R = A ++ S ∧
    Sorted ordered (x :: A) ∧ last (x :: A) = Some a)) with (n := length R).
  - intros n a ? (-> & A & S & -> & -> & Hs & Hl).
    apply last_Some in Hl as [A0 HA0].
    assert (P ++ x :: A ++ S = (P ++ A0) ++ a :: S) as E.
    { rewrite (app_comm_cons A S x), HA0, <-!app_assoc. done. }
    pose proof Hr as Hr2. rewrite E in Hr2.
    wp_bind_by ltac:(by eapply list_next_elem_run).
    rewrite (rep_tail_eqb h l ((P ++ A0) ++ [a]) S) by (by rewrite <-(app_assoc (P ++ A0))).
    case_bool_decide as ES.
    { subst S. apply wp_ret. split; [done|]. exists A, []. split_and!; [done..| |done].
      unfold run_ends. by destruct (last (x :: A)). }
    destruct S as [|s S]; [done|]. simpl first_of.
    wp_bind_by ltac:(by apply (list_prev_elem_run l h (P ++ A0) a (s :: S))).
    destruct (less s a) eqn:Hsa; apply wp_ret.
    + split; [done|]. exists A, (s :: S). split_and!; [done..| |done].
      unfold run_ends. rewrite HA0, last_snoc. done.
    + exists (length S). split; [simpl; lia|]. split; [done|]. exists (A ++ [s]), S.
      rewrite <-app_assoc. split_and!; [done..| |by rewrite app_comm_cons, last_snoc].
      rewrite app_comm_cons, HA0. apply Sorted_snoc; [by rewrite <-HA0|].
      by apply (TlRel_cons _ _ a).
  - split; [done|]. exists [], R. split_and!; [done..| |done]. by repeat constructor.
  - apply rep_size in Hr. rewrite !length_app in Hr. simpl in Hr. lia.
Qed.

(** In-place merging computes the list merge. *)
Lemma merge_loop h P A B S : list_rep h l (P ++ A ++ B ++ S) →
  wp (walk (λ '(a0, a1b0),
    if (a0 =? a1b0) || (a1b0 =? first_of l S) then mret (Stop ()) else
    if negb (less a1b0 a0) then
      a0' ← list_next a0; mret (Next (a0', a1b0))
    else
      a1b0' ← list_next a1b0;
      p ← list_prev a1b0';
      list_splice a0 p a1b0';;
      mret (Next (a0, a1b0'))) (first_of l (A ++ B ++ S), first_of l (B ++ S))) h
    (λ _ h', list_rep h' l (P ++ list_merge ordered A B ++ S) ∧
             frame (nodes l (P ++ A ++ B ++ S)) h h').
Proof.
  intros Hr.
  apply (wp_walk (λ n '(a0, a1b0) h', ∃ D A' B',
    n = (length A' + length B')%nat ∧ a0 = first_of l (A' ++ B' ++ S) ∧ a1b0 = first_of l (B' ++ S) ∧
    list_rep h' l (P ++ D ++ A' ++ B' ++ S) ∧ frame (nodes l (P ++ A ++ B ++ S)) h h' ∧
    D ++ A' ++ B' ≡ₚ A ++ B ∧
    list_merge ordered A B = D ++ list_merge ordered A' B')) with (n := (length A + length B)%nat).
  - intros n [a0 a1b0] h1 (D & A' & B' & -> & -> & -> & Hr1 & Hf & Hperm & Hm).
    rewrite app_assoc in Hr1.
    rewrite (suffix_eqb h1 (P ++ D) A' (B' ++ S)) by done.
    rewrite (suffix_eqb h1 ((P ++ D) ++ A') B' S) by (by rewrite <-app_assoc).
    destruct A' as [|a A'].
    { rewrite bool_decide_true by done. apply wp_ret. rewrite list_merge_nil_l in Hm.
      rewrite Hm, <-!app_assoc. rewrite <-app_assoc in Hr1. done. }
    rewrite bool_decide_false by done. destruct B' as [|b B'].
    { rewrite bool_decide_true by done. apply wp_ret. rewrite list_merge_nil_r in Hm.
      rewrite Hm, <-!app_assoc. rewrite <-app_assoc in Hr1. done. }
    rewrite bool_decide_false by done. simpl orb. cbv iota. simpl first_of.
    rewrite list_merge_cons in Hm. destruct (less b a) eqn:Hba; simpl negb; cbv iota.
    + rewrite decide_False in Hm by (unfold ordered; congruence).
      assert (list_rep h1 l (((P ++ D) ++ a :: A') ++ b :: B' ++ S)) as Hr2 by (by rewrite <-app_assoc).
      wp_bind_by ltac:(by apply (list_next_elem_run _ _ _ _ _ Hr2)).
      wp_bind_by ltac:(by apply (list_prev_elem_run _ _ _ _ _ Hr2)).
      destruct (list_splice_back_spec h1 l (P ++ D) (a :: A') [b] (B' ++ S)) as (h2 & Hrun & Hr3 & F3);
        [done..|].
      wp_bind_by ltac:(exact Hrun). apply wp_ret.
      exists (length (a :: A') + length B')%nat. split; [simpl; lia|].
      exists (D ++ [b]), (a :: A'), B'. split_and!; [done..| | | |].
      * rewrite <-!app_assoc. rewrite <-!app_assoc in Hr3. done.
      * eapply frame_trans; [done|]. eapply frame_mono; [|done]. intros x.
        assert (x ∈ (D ++ (a :: A') ++ b :: B') → x ∈ (A ++ B)) as HxAB by (by rewrite Hperm).
        clear -HxAB. unfold nodes. set_unfold. tauto.
      * rewrite <-Hperm. solve_Permutation.
      * by rewrite Hm, <-app_assoc.
    + rewrite decide_True in Hm by done.
      wp_bind_by ltac:(by apply (list_next_elem_run _ _ _ _ _ Hr1)). apply wp_ret.
      exists (length A' + length (b :: B'))%nat. split; [simpl; lia|].
      exists (D ++ [a]), A', (b :: B'). split_and!; [done..| |done| |].
      * rewrite <-!app_assoc. rewrite <-!app_assoc in Hr1. done.
      * rewrite <-Hperm, <-!app_assoc. done.
      * by rewrite Hm, <-app_assoc.
  - exists [], A, B. by split_and!.
  - apply rep_size in Hr. rewrite !length_app in Hr. lia.
Qed.

Lemma inplace_merge_spec h P A B S : A ≠ [] → B ≠ [] →
  list_rep h l (P ++ A ++ B ++ S) → Sorted ordered A → Sorted ordered B →
  ∃ h', inplace_merge less (first_of l (A ++ B ++ S)) (first_of l (B ++ S)) (first_of l S) h
          = Ret ((), h') ∧
    list_rep h' l (P ++ list_merge ordered A B ++ S) ∧
    frame (nodes l (P ++ A ++ B ++ S)) h h'.
Proof.
  intros HA HB Hr HsA HsB. unfold inplace_merge.
  assert (list_rep h l ((P ++ A) ++ B ++ S)) as Hr1 by (by rewrite <-app_assoc).
  assert (list_rep h l (((P ++ A) ++ B) ++ S)) as Hr2 by (by rewrite <-!app_assoc).
  run_by ltac:(apply assert_run, nonnull_true, (rep_first_ne _ _ _ _ Hr)).
  run_by ltac:(apply assert_run, nonnull_true, (rep_first_ne _ _ _ _ Hr1)).
  run_by ltac:(apply assert_run, nonnull_true, (rep_first_ne _ _ _ _ Hr2)).
  run_by ltac:(by apply (is_sorted_run h P A (B ++ S))). run_by ltac:(by apply assert_run).
  run_by ltac:(by apply (is_sorted_run h (P ++ A) B S)). run_by ltac:(by apply assert_run).
  apply wp_unit. by apply merge_loop.
Qed.

Context (less_asym : ∀ a b, less a b = true → less b a = false).

#[local] Instance ordered_total : Total ordered.
Proof.
  intros a b. unfold ordered. destruct (less b a) eqn:E; [right|by left]. by apply less_asym.
Qed.

(** One pass leaves a concatenation of sorted runs, at most half as many as the list
    had natural runs (rounded up). *)
Lemma sort_pass_spec h xs : list_rep h l xs → Z.of_nat (length xs) < 2 ^ 32 →
  wp (sort_pass less l) h (λ cnt h', ∃ Cs, cnt = Z.of_nat (length Cs) ∧
    list_rep h' l (concat Cs) ∧ concat Cs ≡ₚ xs ∧ Forall (Sorted ordered) Cs ∧
    (2 * length Cs ≤ nruns xs + 1)%nat ∧ frame (nodes l xs) h h').
Proof.
  intros Hr Hlen. unfold sort_pass. wp_bind_by ltac:(by apply list_begin_run).
  apply (wp_walk (λ n '(a0, cnt) h', ∃ Cs R, n = length R ∧ a0 = first_of l R ∧
    cnt = Z.of_nat (length Cs) ∧ list_rep h' l (concat Cs ++ R) ∧ concat Cs ++ R ≡ₚ xs ∧
    Forall (Sorted ordered) Cs ∧ (length Cs ≤ length (concat Cs))%nat ∧
    (2 * length Cs + nruns R ≤ nruns xs)%nat ∧ frame (nodes l xs) h h')) with (n := length xs).
  - intros n [a0 cnt] h1 (Cs & R & -> & -> & -> & Hr1 & Hp & HCs & Hl & Hn & Hf).
    wp_bind_by ltac:(by eapply list_end_run).
    rewrite (rep_tail_eqb h1 l (concat Cs) R) by done.
    case_bool_decide as E.
    { subst R. rewrite app_nil_r in *. apply wp_ret. exists Cs. split_and!; [done..| |done].
      simpl in Hn. lia. }
    destruct R as [|x R]; [done|]. simpl first_of.
    assert (length xs = length (concat Cs) + S (length R))%nat as Hlx.
    { rewrite <-Hp, length_app. done. }
    assert (u32 (Z.of_nat (length Cs) + 1) = Z.of_nat (length Cs) + 1) as ->.
    { apply wrap_small. unfold fits. lia. }
    wp_bind_by ltac:(by eapply list_end_run).
    destruct (find_end_of_run_run h1 _ x R Hr1) as (A & S1 & -> & HsA & HeA & HrunA).
    wp_bind_by ltac:(exact HrunA). wp_bind_by ltac:(by eapply list_end_run).
    assert (list_rep h1 l (concat Cs ++ (x :: A) ++ S1)) as Hr2 by done.
    assert (list_rep h1 l ((concat Cs ++ x :: A) ++ S1)) as Hr2' by (by rewrite <-app_assoc).
    rewrite (rep_tail_eqb h1 l _ S1 Hr2').
    pose proof (nruns_run (x :: A) S1 ltac:(done) HeA) as HnA. simpl app in HnA.
    case_bool_decide as ES.
    { subst S1. apply wp_ret. exists (Cs ++ [x :: A]).
      rewrite concat_app, length_app. simpl concat. rewrite !app_nil_r in *.
      split_and!; [simpl; lia|done|done| |simpl in *; lia|done].
      apply Forall_app. auto. }
    destruct S1 as [|y S1]; [done|]. simpl first_of in *.
    wp_bind_by ltac:(by eapply list_end_run).
    destruct (find_end_of_run_run h1 _ y S1 Hr2') as (B & S2 & -> & HsB & HeB & HrunB).
    wp_bind_by ltac:(exact HrunB).
    pose proof (nruns_run (y :: B) S2 ltac:(done) HeB) as HnB. simpl app in HnB.
    destruct (inplace_merge_spec h1 (concat Cs) (x :: A) (y :: B) S2) as (h2 & HrunM & Hr3 & F3);
      [done..|].
    wp_bind_by ltac:(exact HrunM). apply wp_ret.
    pose proof (merge_Permutation ordered (x :: A) (y :: B)) as HpM.
    exists (length S2). split; [simpl; rewrite !length_app; simpl; rewrite length_app; lia|].
    exists (Cs ++ [list_merge ordered (x :: A) (y :: B)]), S2.
    rewrite concat_app. simpl concat. rewrite app_nil_r, <-!app_assoc.
    assert (concat Cs ++ list_merge ordered (x :: A) (y :: B) ++ S2 ≡ₚ xs) as Hpx.
    { rewrite HpM, <-Hp. rewrite <-!app_assoc. done. }
    split_and!; [done|done|rewrite length_app; simpl; lia|done|done| | | |].
    + apply Forall_app. split; [done|]. constructor; [|done]. apply Sorted_list_merge; [apply ordered_total|done|done].
    + pose proof (Permutation_length HpM) as HL. rewrite length_app in HL. simpl in HL.
      rewrite !length_app. simpl in *. lia.
    + rewrite length_app. simpl in *. lia.
    + eapply frame_trans; [done|]. eapply frame_mono; [|done]. intros z.
      assert (nodes l (concat Cs ++ (x :: A) ++ (y :: B) ++ S2) ≡ₚ nodes l xs) as ->; [|done].
      unfold nodes. by rewrite Hp.
  - exists [], xs. by split_and!.
  - apply rep_size in Hr. lia.
Qed.

Lemma list_sort_spec h xs : list_rep h l xs → Z.of_nat (length xs) < 2 ^ 32 →
  ∃ h' ys, list_sort less l h = Ret ((), h') ∧ list_rep h' l ys ∧ ys ≡ₚ xs ∧
    Sorted ordered ys ∧ frame (nodes l xs) h h'.
Proof.
  intros Hr Hlen.
  assert (wp (list_sort less l) h (λ _ h', ∃ ys, list_rep h' l ys ∧ ys ≡ₚ xs ∧
    Sorted ordered ys ∧ frame (nodes l xs) h h')) as ([] & h' & ? & ys & ?)%wp_inv;
    [|by exists h', ys].
  unfold list_sort. wp_bind_by ltac:(eapply assert_run, nonnull_true, rep_list_ne).
  apply wp_bind.
  apply wp_mono with (P := λ _ h', ∃ ys, list_rep h' l ys ∧ ys ≡ₚ xs ∧
    Sorted ordered ys ∧ frame (nodes l xs) h h').
  - apply (wp_walk (λ n _ h', ∃ ys, n = nruns ys ∧ list_rep h' l ys ∧ ys ≡ₚ xs ∧
      frame (nodes l xs) h h')) with (n := nruns xs).
    + intros n _ h1 (ys & -> & Hr1 & Hp1 & F1). apply wp_bind.
      eapply wp_mono; [apply (sort_pass_spec h1 ys Hr1); by rewrite Hp1|].
      intros cnt h2 (Cs & -> & Hr2 & Hp2 & HCs & Hn & F2).
      assert (frame (nodes l xs) h h2) as F.
      { eapply frame_trans; [done|]. eapply frame_mono; [|done]. unfold nodes. by rewrite Hp1. }
      destruct (Z.ltb_spec 1 (Z.of_nat (length Cs))); apply wp_ret.
      * exists (nruns (concat Cs)). pose proof (nruns_concat Cs HCs). split; [lia|].
        exists (concat Cs). split_and!; [done..| |done]. by rewrite Hp2.
      * exists (concat Cs). split_and!; [done|by rewrite Hp2| |done].
        destruct Cs as [|C [|C' Cs]]; simpl in *; [constructor| |lia].
        rewrite app_nil_r. by inversion HCs.
    + by exists xs.
    + pose proof (nruns_length xs). apply rep_size in Hr. lia.
  - intros _ h' (ys & Hr' & Hp & Hs & F).
    wp_bind_by ltac:(by apply list_begin_run). wp_bind_by ltac:(by eapply list_end_run).
    assert (list_rep h' l ([] ++ ys ++ [])) as Hr2 by (by rewrite app_nil_r).
    pose proof (is_sorted_run h' [] ys [] Hr2 Hs) as Hrun. rewrite app_nil_r in Hrun.
    wp_bind_by ltac:(exact Hrun). apply wp_assert; [done|]. by exists ys.
Qed.
End sort.

(** ** The contract of the sort *)

(** C7: For every strict comparison (one that never holds both ways) and every
    well-formed list of fewer than 2^32 elements, [list_sort] returns: no assertion
    fails, no pointer outside the list is followed and the passes end.  The list is then
    well formed again, holds the same elements in nondecreasing order, and no memory
    outside its nodes has changed. *)
Theorem list_sort_correct less l h xs :
  (∀ a b, less a b = true → less b a = false) →
  list_rep h l xs → Z.of_nat (length xs) < 2 ^ 32 →
  ∃ h' ys, list_sort less l h = Ret ((), h') ∧ list_rep h' l ys ∧ ys ≡ₚ xs ∧
    Sorted (ordered less) ys ∧ frame (nodes l xs) h h'.
Proof. intros. by apply list_sort_spec. Qed.

Lemma list_sort_correct_witness :
  ∃ h' ys, list_sort Z.ltb 100 (heap_of 100 [30; 10; 50; 20; 40] []) = Ret ((), h') ∧
    list_rep h' 100 ys ∧ ys ≡ₚ [30; 10; 50; 20; 40] ∧ Sorted (ordered Z.ltb) ys ∧
    frame (nodes 100 [30; 10; 50; 20; 40]) (heap_of 100 [30; 10; 50; 20; 40] []) h'.
Proof.
  apply (list_sort_correct Z.ltb 100 (heap_of 100 [30; 10; 50; 20; 40] [])); [|by_evaluation|done].
  intros a b. rewrite Z.ltb_lt, Z.ltb_ge. lia.
Defined.
