(* ===== verification/Bitmap.v ===== *)
(** * Bitmaps: src/src/lib/kernel/bitmap.c

    A bitmap is a count of bits and an array of 32-bit elements ([elem_type] is
    [unsigned long] on IA-32).  The operations are state passing over the bitmap; an
    index outside the element array is a fault. *)
From S2P Require Import Prelude.

Definition ELEM_BITS : Z := 32.
Definition SIZE_MAX : Z := 2 ^ 32 - 1.
(** [BITMAP_ERROR] of bitmap.h. *)
Definition BITMAP_ERROR : Z := SIZE_MAX.

Record bitmap := Bitmap { bit_cnt : Z; bits : list Z }.
Abbreviation BM := (ST bitmap).

Definition elem_idx (bit_idx : Z) : Z := bit_idx / ELEM_BITS.
Definition bit_mask (bit_idx : Z) : Z := u32 (Z.shiftl 1 (bit_idx mod ELEM_BITS)).
(** [DIV_ROUND_UP (bit_cnt, ELEM_BITS)], in [size_t]. *)
Definition elem_cnt (bit_cnt : Z) : Z := u32 (bit_cnt + ELEM_BITS - 1) / ELEM_BITS.
Definition byte_cnt (bit_cnt : Z) : Z := u32 (4 * elem_cnt bit_cnt).
Definition last_mask (b : bitmap) : Z :=
  let last_bits := bit_cnt b mod ELEM_BITS in
  if last_bits =? 0 then u32 (-1) else u32 (Z.shiftl 1 last_bits - 1).

(** The element [b->bits[idx]]. *)
Definition ld_elem (idx : Z) : BM Z := λ b,
  match bits b !! Z.to_nat idx with Some w => Ret (w, b) | None => Fault end.
Definition st_elem (idx w : Z) : BM () := λ b,
  if (Z.to_nat idx <? length (bits b))%nat then
    Ret ((), Bitmap (bit_cnt b) (<[Z.to_nat idx := w]> (bits b)))
  else Fault.

Definition bitmap_size : BM Z := gets bit_cnt.

(** [orl], [andl] and [xorl] with the mask on one element. *)
Definition bitmap_mark (bit_idx : Z) : BM () :=
  let idx := elem_idx bit_idx in
  let mask := bit_mask bit_idx in
  w ← ld_elem idx; st_elem idx (Z.lor w mask).

Definition bitmap_reset (bit_idx : Z) : BM () :=
  let idx := elem_idx bit_idx in
  let mask := bit_mask bit_idx in
  w ← ld_elem idx; st_elem idx (Z.land w (u32 (Z.lnot mask))).

Definition bitmap_flip (bit_idx : Z) : BM () :=
  let idx := elem_idx bit_idx in
  let mask := bit_mask bit_idx in
  w ← ld_elem idx; st_elem idx (Z.lxor w mask).

Definition bitmap_set (idx : Z) (value : bool) : BM () :=
  n ← bitmap_size;
  assert (idx <? n);;
  if value then bitmap_mark idx else bitmap_reset idx.

Definition bitmap_test (idx : Z) : BM bool :=
  n ← bitmap_size;
  assert (idx <? n);;
  w ← ld_elem (elem_idx idx);
  mret (negb (Z.land w (bit_mask idx) =? 0)).

Definition bitmap_set_multiple (start cnt : Z) (value : bool) : BM () :=
  n ← bitmap_size;
  assert (start <=? n);;
  assert (u32 (start + cnt) <=? n);;
  for_each (Z.to_nat cnt) 0 (λ i, bitmap_set (u32 (start + i)) value).

Definition bitmap_set_all (value : bool) : BM () :=
  n ← bitmap_size; bitmap_set_multiple 0 n value.

(** [malloc_b] and [malloc_bits] are the results of the two calls of [malloc]: whether the
    structure was allocated, and the uninitialised elements if they were. *)
Definition bitmap_create (bit_cnt : Z) (malloc_b : bool) (malloc_bits : option (list Z))
    : res (option bitmap) :=
  if malloc_b then
    if bool_decide (is_Some malloc_bits) || (bit_cnt =? 0) then
      '(_, b) ← bitmap_set_all false (Bitmap bit_cnt (default [] malloc_bits));
      mret (Some b)
    else mret None
  else mret None.

Definition bitmap_buf_size (bit_cnt : Z) : Z := u32 (8 + byte_cnt bit_cnt).

(** [block] is the uninitialised storage after the structure, as elements. *)
Definition bitmap_create_in_buf (bit_cnt : Z) (block : list Z) (block_size : Z) : res bitmap :=
  if block_size >=? bitmap_buf_size bit_cnt then
    '(_, b) ← bitmap_set_all false (Bitmap bit_cnt block); mret b
  else Panic.

Definition bitmap_count (start cnt : Z) (value : bool) : BM Z :=
  n ← bitmap_size;
  assert (start <=? n);;
  assert (u32 (start + cnt) <=? n);;
  loop (S (Z.to_nat cnt)) (λ '(i, value_cnt),
    if i <? cnt then
      v ← bitmap_test (u32 (start + i));
      mret (Next (i + 1, if eqb v value then u32 (value_cnt + 1) else value_cnt))
    else mret (Stop value_cnt)) (0, 0).

Definition bitmap_contains (start cnt : Z) (value : bool) : BM bool :=
  n ← bitmap_size;
  assert (start <=? n);;
  assert (u32 (start + cnt) <=? n);;
  r ← for_loop (Z.to_nat cnt) 0 (λ i,
    v ← bitmap_test (u32 (start + i));
    mret (if eqb v value then Some true else None));
  mret (default false r).

Definition bitmap_any (start cnt : Z) : BM bool := bitmap_contains start cnt true.
Definition bitmap_none (start cnt : Z) : BM bool :=
  r ← bitmap_contains start cnt true; mret (negb r).
Definition bitmap_all (start cnt : Z) : BM bool :=
  r ← bitmap_contains start cnt false; mret (negb r).

Definition bitmap_scan (start cnt : Z) (value : bool) : BM Z :=
  n ← bitmap_size;
  assert (start <=? n);;
  if cnt <=? n then
    let last := n - cnt in
    r ← for_loop (Z.to_nat (last + 1 - start)) start (λ i,
      c ← bitmap_contains i cnt (negb value);
      mret (if negb c then Some i else None));
    mret (default BITMAP_ERROR r)
  else mret BITMAP_ERROR.

Definition bitmap_scan_and_flip (start cnt : Z) (value : bool) : BM Z :=
  idx ← bitmap_scan start cnt value;
  (if negb (idx =? BITMAP_ERROR) then bitmap_set_multiple idx cnt (negb value) else mret ());;
  mret idx.

(** ** The contract: an array of [bit_cnt] bits *)

(** Bit [i] of the bitmap. *)
Definition bit (b : bitmap) (i : Z) : bool :=
  Z.testbit (default 0 (bits b !! Z.to_nat (i / 32))) (i mod 32).

Record bitmap_wf (b : bitmap) : Prop := BitmapWf {
  wf_cnt : 0 ≤ bit_cnt b ≤ 2 ^ 32 - 32;
  wf_len : Z.of_nat (length (bits b)) = elem_cnt (bit_cnt b);
  wf_elems : Forall (fits 32) (bits b);
}.

(** [b'] is [b] with the bits that [p] selects set to [v]. *)
Definition bits_set (b b' : bitmap) (p : Z → bool) (v : bool) : Prop :=
  bitmap_wf b' ∧ bit_cnt b' = bit_cnt b ∧
  ∀ i, 0 ≤ i < bit_cnt b → bit b' i = if p i then v else bit b i.

(** The [cnt] bits from [i] on are all [v]. *)
Definition group (b : bitmap) (i cnt : Z) (v : bool) : Prop :=
  ∀ j, i ≤ j < i + cnt → bit b j = v.

Lemma elem_cnt_exact n : 0 ≤ n ≤ 2 ^ 32 - 32 → elem_cnt n = (n + 31) / 32.
Proof.
  intros. unfold elem_cnt, ELEM_BITS. rewrite wrap_small by (unfold fits; lia).
  f_equal. lia.
Qed.

Section wf.
Context (b : bitmap) (Hwf : bitmap_wf b).

Lemma wf_elem i : 0 ≤ i < bit_cnt b →
  ∃ w, bits b !! Z.to_nat (i / 32) = Some w ∧ fits 32 w ∧ bit b i = Z.testbit w (i mod 32).
Proof.
  intros Hi. destruct Hwf as [Hc Hl He]. rewrite elem_cnt_exact in Hl by lia.
  destruct (lookup_lt_is_Some_2 (bits b) (Z.to_nat (i / 32))) as [w Hw].
  { pose proof (Z.div_mod i 32). pose proof (Z.mod_pos_bound i 32).
    pose proof (Z.div_mod (bit_cnt b + 31) 32). pose proof (Z.mod_pos_bound (bit_cnt b + 31) 32).
    lia. }
  exists w. split_and!; [done| |by unfold bit; rewrite Hw].
  by eapply Forall_lookup_1 in He.
Qed.

Lemma ld_elem_run i : 0 ≤ i < bit_cnt b →
  ∃ w, ld_elem (elem_idx i) b = Ret (w, b) ∧ bits b !! Z.to_nat (i / 32) = Some w ∧
       fits 32 w ∧ bit b i = Z.testbit w (i mod 32).
Proof.
  intros Hi. destruct (wf_elem i Hi) as (w & Hw & ?). exists w. split; [|done].
  unfold ld_elem, elem_idx, ELEM_BITS. by rewrite Hw.
Qed.
End wf.

(** *** Single bits *)

Lemma bit_mask_testbit i k : 0 ≤ k → Z.testbit (bit_mask i) k = (k =? i mod 32).
Proof.
  intros Hk. pose proof (Z.mod_pos_bound i 32). unfold bit_mask, ELEM_BITS.
  rewrite Z.shiftl_1_l, wrap_small by (split; [lia|apply Z.pow_lt_mono_r; lia]).
  rewrite Z.pow2_bits_eqb by lia. apply Z.eqb_sym.
Qed.

Lemma bit_mask_fits i : fits 32 (bit_mask i).
Proof. by apply wrap_fits. Qed.

Lemma div_mod_32_eqb i j : (j / 32 =? i / 32) && (j mod 32 =? i mod 32) = (j =? i).
Proof.
  pose proof (Z.div_mod i 32). pose proof (Z.div_mod j 32).
  destruct (Z.eqb_spec (j / 32) (i / 32)), (Z.eqb_spec (j mod 32) (i mod 32)),
    (Z.eqb_spec j i); simpl; subst; lia.
Qed.

Section single.
Context (b : bitmap) (Hwf : bitmap_wf b) (i : Z) (Hi : 0 ≤ i < bit_cnt b).

(** Storing an element changes the 32 bits it holds. *)
Lemma st_elem_run w' : fits 32 w' →
  ∃ b', st_elem (elem_idx i) w' b = Ret ((), b') ∧ bitmap_wf b' ∧ bit_cnt b' = bit_cnt b ∧
    ∀ j, 0 ≤ j < bit_cnt b →
      bit b' j = if j / 32 =? i / 32 then Z.testbit w' (j mod 32) else bit b j.
Proof.
  intros Hw'. destruct (wf_elem b Hwf i Hi) as (w & Hw & _).
  pose proof (lookup_lt_Some _ _ _ Hw) as Hlt. destruct Hwf as [Hc Hl He].
  unfold st_elem, elem_idx, ELEM_BITS. rewrite (proj2 (Nat.ltb_lt _ _) Hlt).
  eexists. split; [done|]. split; [|split; [done|]].
  - split; simpl; [done|by rewrite length_insert|]. by apply Forall_insert.
  - intros j Hj. unfold bit. simpl. destruct (Z.eqb_spec (j / 32) (i / 32)) as [->|Hne].
    + by rewrite list_lookup_insert_eq.
    + rewrite list_lookup_insert_ne; [done|]. intros E. apply Hne.
      apply Z2Nat.inj; [apply Z.div_pos; lia..|done].
Qed.

(** An element update [f] whose effect on bit [k] is to give [v] at the masked bit and
    to leave the others. *)
Lemma update_run (f : Z → Z) (v : bool → bool) :
  (∀ w, fits 32 w → fits 32 (f w)) →
  (∀ w k, 0 ≤ k < 32 → Z.testbit (f w) k =
     if k =? i mod 32 then v (Z.testbit w k) else Z.testbit w k) →
  ∃ b', (w ← ld_elem (elem_idx i); st_elem (elem_idx i) (f w)) b = Ret ((), b') ∧
    bitmap_wf b' ∧ bit_cnt b' = bit_cnt b ∧
    ∀ j, 0 ≤ j < bit_cnt b → bit b' j = if j =? i then v (bit b i) else bit b j.
Proof.
  intros Hfit Hf. destruct (ld_elem_run b Hwf i Hi) as (w & Hld & Hw & Hfw & Hbi).
  run_by ltac:(exact Hld).
  destruct (st_elem_run (f w) (Hfit w Hfw)) as (b' & Hst & Hwf' & Hc' & Hb').
  exists b'. split_and!; [done..|]. intros j Hj. rewrite Hb' by done.
  rewrite <-(div_mod_32_eqb i j), Hf by (apply Z.mod_pos_bound; lia).
  destruct (wf_elem b Hwf j Hj) as (w2 & Hw2 & _ & Hbj).
  destruct (Z.eqb_spec (j / 32) (i / 32)) as [E|]; simpl; [|done].
  rewrite E, Hw in Hw2. injection Hw2 as <-.
  destruct (Z.eqb_spec (j mod 32) (i mod 32)) as [->|]; [by rewrite Hbi|by rewrite Hbj].
Qed.

Lemma bitmap_mark_spec :
  ∃ b', bitmap_mark i b = Ret ((), b') ∧ bits_set b b' (λ j, j =? i) true.
Proof.
  destruct (update_run (λ w, Z.lor w (bit_mask i)) (λ _, true)) as (b' & ? & ?).
  - intros w Hw. apply fits_lor; [done..|apply bit_mask_fits].
  - intros w k Hk. rewrite Z.lor_spec, bit_mask_testbit by lia.
    by destruct (k =? i mod 32); rewrite ?orb_true_r, ?orb_false_r.
  - by exists b'.
Qed.

Lemma bitmap_reset_spec :
  ∃ b', bitmap_reset i b = Ret ((), b') ∧ bits_set b b' (λ j, j =? i) false.
Proof.
  destruct (update_run (λ w, Z.land w (u32 (Z.lnot (bit_mask i)))) (λ _, false)) as (b' & ? & ?).
  - intros w Hw. by apply fits_land.
  - intros w k Hk. rewrite Z.land_spec, wrap_testbit, Z.lnot_spec, bit_mask_testbit by lia.
    rewrite (proj2 (Z.ltb_lt k 32)) by lia.
    by destruct (k =? i mod 32); rewrite ?andb_true_r, ?andb_false_r.
  - by exists b'.
Qed.

Lemma bitmap_flip_spec :
  ∃ b', bitmap_flip i b = Ret ((), b') ∧ bits_set b b' (λ j, j =? i) (negb (bit b i)).
Proof.
  destruct (update_run (λ w, Z.lxor w (bit_mask i)) negb) as (b' & ? & ?).
  - intros w Hw. apply fits_lxor; [done..|apply bit_mask_fits].
  - intros w k Hk. rewrite Z.lxor_spec, bit_mask_testbit by lia.
    by destruct (k =? i mod 32); rewrite ?xorb_true_r, ?xorb_false_r.
  - by exists b'.
Qed.

Lemma bitmap_set_spec v :
  ∃ b', bitmap_set i v b = Ret ((), b') ∧ bits_set b b' (λ j, j =? i) v.
Proof.
  unfold bitmap_set, bitmap_size. run_by ltac:(done).
  run_by ltac:(apply assert_run, Z.ltb_lt; lia).
  destruct v; [apply bitmap_mark_spec|apply bitmap_reset_spec].
Qed.

Lemma bitmap_test_run : bitmap_test i b = Ret (bit b i, b).
Proof.
  unfold bitmap_test, bitmap_size. run_by ltac:(done).
  run_by ltac:(apply assert_run, Z.ltb_lt; lia).
  destruct (ld_elem_run b Hwf i Hi) as (w & Hld & Hw & Hfw & Hbi).
  run_by ltac:(exact Hld). unfold mret, ST_ret. do 2 f_equal. rewrite Hbi.
  pose proof (Z.mod_pos_bound i 32).
  destruct (Z.testbit w (i mod 32)) eqn:E.
  - apply negb_true_iff, Z.eqb_neq. intros H0.
    apply (f_equal (λ z, Z.testbit z (i mod 32))) in H0.
    rewrite Z.land_spec, bit_mask_testbit, E, Z.eqb_refl, Z.bits_0 in H0 by lia. done.
  - apply negb_false_iff, Z.eqb_eq. apply Z.bits_inj'. intros k Hk.
    rewrite Z.land_spec, bit_mask_testbit, Z.bits_0 by lia.
    destruct (Z.eqb_spec k (i mod 32)) as [->|]; [by rewrite E|apply andb_false_r].
Qed.
End single.

(** *** Groups of bits *)

Lemma bits_set_step b b1 b2 start i v : start ≤ i < bit_cnt b →
  bits_set b b1 (λ j, (start <=? j) && (j <? i)) v →
  bits_set b1 b2 (λ j, j =? i) v →
  bits_set b b2 (λ j, (start <=? j) && (j <? i + 1)) v.
Proof.
  intros Hi (Hwf1 & Hc1 & Hb1) (Hwf2 & Hc2 & Hb2). split_and!; [done|lia|].
  intros j Hj. rewrite Hb2, Hb1 by lia.
  destruct (Z.eqb_spec j i) as [->|].
  - rewrite (proj2 (Z.leb_le start i)), (proj2 (Z.ltb_lt i (i + 1))) by lia. done.
  - assert ((j <? i) = (j <? i + 1)) as ->; [|done].
    destruct (Z.ltb_spec j i), (Z.ltb_spec j (i + 1)); lia.
Qed.

Lemma bits_set_none b start v : bitmap_wf b → bits_set b b (λ j, (start <=? j) && (j <? start)) v.
Proof.
  intros. split_and!; [done..|]. intros j Hj.
  destruct (Z.leb_spec start j), (Z.ltb_spec j start); simpl; (done || lia).
Qed.

Section multiple.
Context (b : bitmap) (Hwf : bitmap_wf b) (start cnt : Z).

(** The loop of [bitmap_set_multiple], run for [n] bits that exist. *)
Lemma set_loop n v : 0 ≤ start → start + Z.of_nat n ≤ bit_cnt b →
  wp (for_each n 0 (λ i, bitmap_set (u32 (start + i)) v)) b
    (λ _ b', bits_set b b' (λ j, (start <=? j) && (j <? start + Z.of_nat n)) v).
Proof.
  intros Hs Hn. pose proof (wf_cnt b Hwf).
  apply (wp_for_each (λ i b', bits_set b b' (λ j, (start <=? j) && (j <? start + i)) v)).
  - intros i b1 Hi H1. rewrite wrap_small by (unfold fits; lia).
    pose proof H1 as (Hwf1 & Hc1 & _).
    destruct (bitmap_set_spec b1 Hwf1 (start + i) ltac:(lia) v) as (b2 & Hrun & H2).
    eapply wp_run; [exact Hrun|]. rewrite Z.add_assoc. eapply bits_set_step; [lia|done..].
  - intros b' Hb'. by rewrite Z.add_0_l in Hb'.
  - rewrite Z.add_0_r. by apply bits_set_none.
Qed.

Context (Hr : 0 ≤ start ∧ 0 ≤ cnt ∧ start + cnt ≤ bit_cnt b).

Lemma range_asserts {A} (k : BM A) :
  (n ← bitmap_size; assert (start <=? n);; assert (u32 (start + cnt) <=? n);; k) b = k b.
Proof.
  pose proof (wf_cnt b Hwf). unfold bitmap_size. run_by ltac:(done).
  run_by ltac:(apply assert_run, Z.leb_le; lia).
  run_by ltac:(apply assert_run; rewrite wrap_small by (unfold fits; lia); apply Z.leb_le; lia).
  done.
Qed.

Lemma bitmap_set_multiple_spec v :
  ∃ b', bitmap_set_multiple start cnt v b = Ret ((), b') ∧
    bits_set b b' (λ j, (start <=? j) && (j <? start + cnt)) v.
Proof.
  unfold bitmap_set_multiple.
  rewrite (range_asserts (for_each (Z.to_nat cnt) 0 (λ i, bitmap_set (u32 (start + i)) v))).
  apply wp_unit. eapply wp_mono; [apply set_loop; lia|]. intros [] b' Hb'.
  by rewrite Z2Nat.id in Hb' by lia.
Qed.

Lemma contains_loop v :
  wp (for_loop (Z.to_nat cnt) 0 (λ i, v' ← bitmap_test (u32 (start + i));
       mret (if eqb v' v then Some true else None))) b
    (λ r b', b' = b ∧
      match r with
      | Some r => r = true ∧ ∃ j, start ≤ j < start + cnt ∧ bit b j = v
      | None => group b start cnt (negb v)
      end).
Proof.
  pose proof (wf_cnt b Hwf).
  apply (wp_for_loop (λ i b', b' = b ∧ group b start i (negb v))).
  - intros i ? Hi (-> & Hg). rewrite wrap_small by (unfold fits; lia).
    wp_bind_by ltac:(apply bitmap_test_run; [done|lia]). apply wp_ret.
    destruct (eqb (bit b (start + i)) v) eqn:E.
    + apply eqb_prop in E. split_and!; [done..|]. exists (start + i). split; [lia|done].
    + split; [done|]. intros j Hj. destruct (decide (j = start + i)) as [->|].
      * apply eqb_false_iff in E. by destruct (bit b (start + i)), v.
      * apply Hg. lia.
  - intros s [-> Hg]. split; [done|]. intros j Hj. apply Hg. lia.
  - split; [done|]. intros j Hj. lia.
Qed.

Lemma bitmap_contains_spec v :
  ∃ r, bitmap_contains start cnt v b = Ret (r, b) ∧
    (if (r : bool) then ∃ j, start ≤ j < start + cnt ∧ bit b j = v
     else group b start cnt (negb v)).
Proof.
  unfold bitmap_contains. rewrite range_asserts.
  destruct (wp_inv _ _ _ (contains_loop v)) as (r & ? & Hrun & -> & Hr').
  run_by ltac:(exact Hrun). destruct r as [r|]; simpl.
  - destruct Hr' as [-> ?]. by exists true.
  - by exists false.
Qed.

Lemma bitmap_all_spec :
  ∃ r, bitmap_all start cnt b = Ret (r, b) ∧ (r = true ↔ group b start cnt true).
Proof.
  destruct (bitmap_contains_spec false) as (r & Hrun & Hr'). exists (negb r).
  unfold bitmap_all. run_by ltac:(exact Hrun). split; [done|]. destruct r; simpl in *; [|done].
  split; [done|]. destruct Hr' as (j & Hj & Hb). intros Hg. by rewrite Hg in Hb.
Qed.

Lemma bitmap_count_run v : cnt < 2 ^ 32 →
  bitmap_count start cnt v b =
    Ret (Z.of_nat (length (filter (λ j, bit b j = v) (seqZ start cnt))), b).
Proof.
  pose proof (wf_cnt b Hwf). intros Hc. unfold bitmap_count. rewrite range_asserts.
  set (num i := Z.of_nat (length (filter (λ j, bit b j = v) (seqZ start i)))).
  assert (∀ i, 0 ≤ i → num (i + 1) = num i + if eqb (bit b (start + i)) v then 1 else 0) as Hnum.
  { intros i Hi. unfold num. rewrite seqZ_app by lia. rewrite filter_app, length_app.
    assert (seqZ (start + i) 1 = [start + i]) as -> by (rewrite seqZ_cons, seqZ_nil by lia; done).
    rewrite (filter_cons (λ j, bit b j = v)). destruct (eqb_spec (bit b (start + i)) v).
    - rewrite decide_True by done. simpl. lia.
    - rewrite decide_False by done. simpl. lia. }
  assert (∀ i, 0 ≤ i → 0 ≤ num i ≤ i) as Hbound.
  { intros i Hi. unfold num. pose proof (length_filter (λ j, bit b j = v) (seqZ start i)).
    rewrite length_seqZ in *. lia. }
  destruct (wp_inv (loop (S (Z.to_nat cnt)) (λ '(i, value_cnt),
      if i <? cnt then
        v0 ← bitmap_test (u32 (start + i));
        mret (Next (i + 1, if eqb v0 v then u32 (value_cnt + 1) else value_cnt))
      else mret (Stop value_cnt)) (0, 0)) b (λ r b', r = num cnt ∧ b' = b))
    as (? & ? & Hrun & -> & ->); [|exact Hrun].
  apply (wp_loop (λ n '(i, vc) b', b' = b ∧ 0 ≤ i ≤ cnt ∧ n = Z.to_nat (cnt - i) ∧ vc = num i))
    with (n := Z.to_nat cnt).
  - intros n [i vc] ? (-> & Hi & -> & ->). destruct (Z.ltb_spec i cnt).
    + rewrite (wrap_small 32 (start + i)) by (unfold fits; lia).
      wp_bind_by ltac:(apply bitmap_test_run; [done|lia]). apply wp_ret.
      exists (Z.to_nat (cnt - (i + 1))). split; [lia|]. split_and!; [done|lia..|].
      rewrite Hnum by lia. specialize (Hbound i ltac:(lia)).
      destruct (eqb (bit b (start + i)) v); [|lia]. rewrite wrap_small; [done|unfold fits; lia].
    + apply wp_ret. replace i with cnt by lia. done.
  - split_and!; [done|lia..| |done]. f_equal. lia.
  - lia.
Qed.
End multiple.

(** *** Scanning *)

Section scan.
Context (b : bitmap) (Hwf : bitmap_wf b) (start cnt : Z) (v : bool).
Context (Hs : 0 ≤ start ≤ bit_cnt b) (Hc : 0 ≤ cnt).

(** What [bitmap_scan] finds: the first group at or after [start], if there is one. *)
Definition scan_result (r : Z) : Prop :=
  (start ≤ r ∧ r + cnt ≤ bit_cnt b ∧ group b r cnt v ∧
     ∀ i, start ≤ i < r → ¬ group b i cnt v) ∨
  (r = BITMAP_ERROR ∧ ∀ i, start ≤ i → i + cnt ≤ bit_cnt b → ¬ group b i cnt v).

Lemma bitmap_scan_spec : ∃ r, bitmap_scan start cnt v b = Ret (r, b) ∧ scan_result r.
Proof.
  pose proof (wf_cnt b Hwf).
  assert (wp (bitmap_scan start cnt v) b (λ r b', b' = b ∧ scan_result r))
    as (r & ? & ? & -> & ?)%wp_inv; [|by exists r].
  unfold bitmap_scan, bitmap_size. wp_bind_by ltac:(done).
  wp_bind_by ltac:(apply assert_run, Z.leb_le; lia).
  destruct (Z.leb_spec cnt (bit_cnt b)).
  2: { apply wp_ret. split; [done|]. right. split; [done|]. intros i. lia. }
  apply wp_bind. eapply wp_mono; [|intros r b' H'; apply wp_ret; exact H'].
  apply (wp_for_loop (λ i b', b' = b ∧ ∀ j, start ≤ j < i → ¬ group b j cnt v)).
  - intros i ? Hi (-> & Hno).
    destruct (bitmap_contains_spec b Hwf i cnt ltac:(lia) (negb v)) as (r & Hrun & Hr).
    rewrite negb_involutive in Hr. wp_bind_by ltac:(exact Hrun). apply wp_ret.
    destruct r; simpl.
    + split; [done|]. intros j Hj. destruct (decide (j = i)) as [->|]; [|apply Hno; lia].
      destruct Hr as (k & Hk & Hb). intros Hg. rewrite (Hg k Hk) in Hb. by destruct v.
    + split; [done|]. left. split_and!; [lia..|done|done].
  - intros s [-> Hno]. split; [done|]. right. split; [done|].
    intros i Hi1 Hi2. apply Hno. lia.
  - split; [done|]. intros j Hj. lia.
Qed.

Lemma scan_result_error r : scan_result r →
  (r =? BITMAP_ERROR) = true ↔ ∀ i, start ≤ i → i + cnt ≤ bit_cnt b → ¬ group b i cnt v.
Proof.
  pose proof (wf_cnt b Hwf). intros [(H1 & H2 & H3 & _)|[-> Hno]]; [|by rewrite Z.eqb_refl].
  split; [|intros Hn; by apply Hn in H3].
  intros ->%Z.eqb_eq. unfold BITMAP_ERROR, SIZE_MAX in *. lia.
Qed.

Lemma bitmap_scan_and_flip_spec :
  ∃ r b', bitmap_scan_and_flip start cnt v b = Ret (r, b') ∧ scan_result r ∧
    if r =? BITMAP_ERROR then b' = b
    else bits_set b b' (λ j, (r <=? j) && (j <? r + cnt)) (negb v).
Proof.
  destruct bitmap_scan_spec as (r & Hrun & Hr). unfold bitmap_scan_and_flip.
  run_by ltac:(exact Hrun). destruct (r =? BITMAP_ERROR) eqn:E; simpl.
  - exists r, b. rewrite E. done.
  - destruct Hr as [Hr|[-> _]]; [|by rewrite Z.eqb_refl in E].
    destruct (bitmap_set_multiple_spec b Hwf r cnt ltac:(lia) (negb v)) as (b' & Hrun' & Hb').
    run_by ltac:(exact Hrun'). exists r, b'. rewrite E. split_and!; [done|by left|done].
Qed.
End scan.

(** *** Creation, and accesses out of range *)

Lemma bitmap_set_all_spec b v : bitmap_wf b →
  ∃ b', bitmap_set_all v b = Ret ((), b') ∧ bitmap_wf b' ∧ bit_cnt b' = bit_cnt b ∧
    ∀ i, 0 ≤ i < bit_cnt b → bit b' i = v.
Proof.
  intros Hwf. pose proof (wf_cnt b Hwf). unfold bitmap_set_all, bitmap_size. run_by ltac:(done).
  destruct (bitmap_set_multiple_spec b Hwf 0 (bit_cnt b) ltac:(lia) v) as (b' & Hrun & Hwf' & Hc & Hb).
  exists b'. split_and!; [done..|]. intros i Hi. rewrite Hb by done.
  rewrite (proj2 (Z.leb_le 0 i)), (proj2 (Z.ltb_lt i (0 + bit_cnt b))) by lia. done.
Qed.

(** The storage [malloc] gives to [bitmap_create]: room for the elements, of any content. *)
Definition fresh_bits (cnt : Z) (ws : list Z) : Prop :=
  Z.of_nat (length ws) = elem_cnt cnt ∧ Forall (fits 32) ws.

Lemma fresh_bits_wf cnt ws : 0 ≤ cnt ≤ 2 ^ 32 - 32 → fresh_bits cnt ws → bitmap_wf (Bitmap cnt ws).
Proof. by intros ? [??]. Qed.

Lemma bitmap_create_spec cnt ws : 0 ≤ cnt ≤ 2 ^ 32 - 32 → fresh_bits cnt ws →
  ∃ b, bitmap_create cnt true (Some ws) = Ret (Some b) ∧ bitmap_wf b ∧ bit_cnt b = cnt ∧
    ∀ i, 0 ≤ i < cnt → bit b i = false.
Proof.
  intros Hc Hf. pose proof (fresh_bits_wf _ _ Hc Hf) as Hwf. unfold bitmap_create. simpl.
  destruct (bitmap_set_all_spec _ false Hwf) as (b & Hrun & ? & ? & ?). rewrite Hrun. by exists b.
Qed.

Lemma bitmap_create_in_buf_spec cnt ws size : 0 ≤ cnt ≤ 2 ^ 32 - 32 → fresh_bits cnt ws →
  bitmap_buf_size cnt ≤ size →
  ∃ b, bitmap_create_in_buf cnt ws size = Ret b ∧ bitmap_wf b ∧ bit_cnt b = cnt ∧
    ∀ i, 0 ≤ i < cnt → bit b i = false.
Proof.
  intros Hc Hf Hs. pose proof (fresh_bits_wf _ _ Hc Hf) as Hwf. unfold bitmap_create_in_buf.
  rewrite Z.geb_leb, (proj2 (Z.leb_le _ _) Hs).
  destruct (bitmap_set_all_spec _ false Hwf) as (b & Hrun & ? & ? & ?). rewrite Hrun. by exists b.
Qed.

Lemma bitmap_set_multiple_panic b start cnt v : bitmap_wf b →
  0 ≤ start < 2 ^ 32 → 0 ≤ cnt < 2 ^ 32 → bit_cnt b < start + cnt →
  bitmap_set_multiple start cnt v b = Panic.
Proof.
  intros Hwf Hs Hc Hout. pose proof (wf_cnt b Hwf). unfold bitmap_set_multiple, bitmap_size.
  run_by ltac:(done). unfold ASSERT. destruct (Z.leb_spec start (bit_cnt b)); [|done].
  run_by ltac:(done). destruct (u32 (start + cnt) <=? bit_cnt b); [|done]. run_by ltac:(done).
  apply (for_each_panic (λ i b', bits_set b b' (λ j, (start <=? j) && (j <? start + i)) v))
    with (k := bit_cnt b - start); [lia|..].
  - intros i b1 Hi H1. rewrite wrap_small by (unfold fits; lia). pose proof H1 as (Hwf1 & Hc1 & _).
    destruct (bitmap_set_spec b1 Hwf1 (start + i) ltac:(lia) v) as (b2 & Hrun & H2).
    eapply wp_run; [exact Hrun|]. rewrite Z.add_assoc. eapply bits_set_step; [lia|done..].
  - intros b1 (Hwf1 & Hc1 & _). rewrite wrap_small by (unfold fits; lia).
    unfold bitmap_set, bitmap_size. run_by ltac:(done). unfold ASSERT.
    rewrite (proj2 (Z.ltb_ge (start + (bit_cnt b - start)) (bit_cnt b1))) by lia. done.
  - rewrite Z.add_0_r. by apply bits_set_none.
Qed.

(** ** The contract of the allocator's operations *)

(** C29: [bitmap_scan_and_flip] on a well-formed bitmap returns the first index, at or
    after [start], of [cnt] consecutive bits equal to [v] and inverts exactly these bits;
    it answers [BITMAP_ERROR] and changes nothing exactly when there is no such group.  A group
    of no bits is at [start]: for [cnt = 0] the answer is [start] and nothing changes, where the
    comment in the source says 0. *)
Theorem bitmap_scan_and_flip_correct b start cnt v :
  bitmap_wf b → 0 ≤ start ≤ bit_cnt b → 0 ≤ cnt →
  ∃ r b', bitmap_scan_and_flip start cnt v b = Ret (r, b') ∧ scan_result b start cnt v r ∧
    if r =? BITMAP_ERROR then b' = b
    else bits_set b b' (λ j, (r <=? j) && (j <? r + cnt)) (negb v).
Proof. intros. by apply bitmap_scan_and_flip_spec. Qed.

Lemma bitmap_scan_and_flip_correct_witness :
  let b := Bitmap 40 [0xfffffff3; 0xf0] in
  ∃ r b', bitmap_scan_and_flip 1 2 false b = Ret (r, b') ∧ scan_result b 1 2 false r ∧
    if r =? BITMAP_ERROR then b' = b
    else bits_set b b' (λ j, (r <=? j) && (j <? r + 2)) (negb false).
Proof.
  apply bitmap_scan_and_flip_correct; [|done..].
  split; [done|done|]. repeat constructor; done.
Defined.

(** [bitmap_create] with storage of any content gives a well-formed bitmap of
    [cnt] bits that are all false. *)
Theorem bitmap_create_correct cnt ws : 0 ≤ cnt ≤ 2 ^ 32 - 32 → fresh_bits cnt ws →
  ∃ b, bitmap_create cnt true (Some ws) = Ret (Some b) ∧ bitmap_wf b ∧ bit_cnt b = cnt ∧
    ∀ i, 0 ≤ i < cnt → bit b i = false.
Proof. apply bitmap_create_spec. Qed.

Lemma bitmap_create_correct_witness :
  ∃ b, bitmap_create 33 true (Some [0xdeadbeef; 0x12345678]) = Ret (Some b) ∧
    bitmap_wf b ∧ bit_cnt b = 33 ∧ ∀ i, 0 ≤ i < 33 → bit b i = false.
Proof. apply bitmap_create_correct; [lia|]. split; [done|]. repeat constructor; done. Defined.
