(* ===== verification/Arithmetic.v ===== *)
(** * 64-bit division: src/src/lib/arithmetic.c

    The routines GCC calls for 64-bit division and remainder on IA-32, built from the
    [divl] instruction, which divides 64 by 32 bits and traps when the quotient does
    not fit (a [Fault] here, as is division by zero). *)
From S2P Require Import Prelude.

Definition divl (n d : Z) : res Z :=
  let n1 := Z.shiftr n 32 in
  let n0 := u32 n in
  let q := (n1 * 2 ^ 32 + n0) / d in
  if (d =? 0) || (2 ^ 32 <=? q) then Fault else Ret q.

Definition nlz (x : Z) : Z :=
  let n := 0 in
  let '(n, x) := if x <=? 0x0000FFFF then (n + 16, u32 (Z.shiftl x 16)) else (n, x) in
  let '(n, x) := if x <=? 0x00FFFFFF then (n + 8, u32 (Z.shiftl x 8)) else (n, x) in
  let '(n, x) := if x <=? 0x0FFFFFFF then (n + 4, u32 (Z.shiftl x 4)) else (n, x) in
  let '(n, x) := if x <=? 0x3FFFFFFF then (n + 2, u32 (Z.shiftl x 2)) else (n, x) in
  if x <=? 0x7FFFFFFF then n + 1 else n.

Definition udiv64 (n d : Z) : res Z :=
  if Z.shiftr d 32 =? 0 then
    let b := u64 (Z.shiftl 1 32) in
    let n1 := u32 (Z.shiftr n 32) in
    let n0 := u32 n in
    let d0 := u32 d in
    if d0 =? 0 then Fault else
    q ← divl (u64 (u64 (b * (n1 mod d0)) + n0)) d0;
    mret (u64 (q + u64 (b * (n1 / d0))))
  else if n <? d then mret 0
  else
    let d1 := u32 (Z.shiftr d 32) in
    let s := nlz d1 in
    q ← divl (Z.shiftr n 1) (u32 (Z.shiftr (u64 (Z.shiftl d s)) 32));
    let q := Z.shiftr q (31 - s) in
    mret (if u64 (n - u64 (u64 (q - 1) * d)) <? d then u64 (q - 1) else q).

(** The declared return type is [uint32_t]. *)
Definition umod64 (n d : Z) : res Z :=
  q ← udiv64 n d; mret (u32 (u64 (n - u64 (d * q)))).

Definition sdiv64 (n d : Z) : res Z :=
  let n_abs := if 0 <=? n then u64 n else u64 (- u64 n) in
  let d_abs := if 0 <=? d then u64 d else u64 (- u64 d) in
  q_abs ← udiv64 n_abs d_abs;
  mret (if eqb (n <? 0) (d <? 0) then s64 q_abs else s64 (- s64 q_abs)).

(** The declared return type is [int32_t]. *)
Definition smod64 (n d : Z) : res Z :=
  q ← sdiv64 n d; mret (s32 (s64 (n - s64 (d * q)))).

Definition divdi3 (n d : Z) : res Z := sdiv64 n d.
Definition moddi3 (n d : Z) : res Z := smod64 n d.
Definition udivdi3 (n d : Z) : res Z := udiv64 n d.
Definition umoddi3 (n d : Z) : res Z := umod64 n d.

(** ** The pieces *)

Lemma divl_run n d : fits 64 n → fits 32 d → 0 < d → n < 2 ^ 32 * d → divl n d = Ret (n / d).
Proof.
  unfold fits. intros Hn Hd Hd0 Hq. unfold divl.
  assert (Z.shiftr n 32 * 2 ^ 32 + u32 n = n) as ->.
  { rewrite Z.shiftr_div_pow2 by lia. unfold wrap. pose proof (Z.div_mod n (2 ^ 32)). lia. }
  assert (n / d < 2 ^ 32) by (apply Z.div_lt_upper_bound; lia).
  destruct (Z.eqb_spec d 0), (Z.leb_spec (2 ^ 32) (n / d)); (lia || done).
Qed.

(** One step of [nlz]: if the top [k] bits are clear, shift them out. *)
Lemma nlz_step x k n y : 0 < k ≤ 16 → 0 ≤ n → y = x * 2 ^ n → 2 ^ (32 - 2 * k) ≤ y < 2 ^ 32 →
  let '(n', y') := if y <=? 2 ^ (32 - k) - 1 then (n + k, u32 (Z.shiftl y k)) else (n, y) in
  n ≤ n' ≤ n + k ∧ y' = x * 2 ^ n' ∧ 2 ^ (32 - k) ≤ y' < 2 ^ 32.
Proof.
  intros Hk Hn Hy Hr. destruct (Z.leb_spec y (2 ^ (32 - k) - 1)); [|lia].
  assert (2 ^ 32 = 2 ^ (32 - k) * 2 ^ k) as H32 by (rewrite <-Z.pow_add_r by lia; f_equal; lia).
  assert (2 ^ (32 - k) = 2 ^ (32 - 2 * k) * 2 ^ k) as H16 by (rewrite <-Z.pow_add_r by lia; f_equal; lia).
  assert (0 < 2 ^ k) by (apply Z.pow_pos_nonneg; lia).
  assert (y * 2 ^ k < 2 ^ 32) by (rewrite H32; apply Z.mul_lt_mono_pos_r; lia).
  assert (2 ^ (32 - k) ≤ y * 2 ^ k) by (rewrite H16; apply Z.mul_le_mono_nonneg_r; lia).
  rewrite Z.shiftl_mul_pow2 by lia. rewrite wrap_small by (unfold fits; lia).
  split; [lia|]. split; [|lia]. rewrite Hy, Z.pow_add_r by lia. lia.
Qed.

Lemma nlz_spec x : 0 < x < 2 ^ 32 → 0 ≤ nlz x ≤ 31 ∧ 2 ^ 31 ≤ x * 2 ^ nlz x < 2 ^ 32.
Proof.
  intros Hx. unfold nlz.
  pose proof (nlz_step x 16 0 x ltac:(lia) ltac:(lia) ltac:(lia) ltac:(lia)) as H1.
  change (2 ^ (32 - 16) - 1) with 0xFFFF in H1. cbv zeta.
  destruct (if x <=? 0xFFFF then _ else _) as [n1 x1]. destruct H1 as (Hn1 & Hx1 & Hr1).
  pose proof (nlz_step x 8 n1 x1 ltac:(lia) ltac:(lia) ltac:(lia) ltac:(lia)) as H2.
  change (2 ^ (32 - 8) - 1) with 0xFFFFFF in H2.
  destruct (if x1 <=? 0xFFFFFF then _ else _) as [n2 x2]. destruct H2 as (Hn2 & Hx2 & Hr2).
  pose proof (nlz_step x 4 n2 x2 ltac:(lia) ltac:(lia) ltac:(lia) ltac:(lia)) as H3.
  change (2 ^ (32 - 4) - 1) with 0xFFFFFFF in H3.
  destruct (if x2 <=? 0xFFFFFFF then _ else _) as [n3 x3]. destruct H3 as (Hn3 & Hx3 & Hr3).
  pose proof (nlz_step x 2 n3 x3 ltac:(lia) ltac:(lia) ltac:(lia) ltac:(lia)) as H4.
  change (2 ^ (32 - 2) - 1) with 0x3FFFFFFF in H4.
  destruct (if x3 <=? 0x3FFFFFFF then _ else _) as [n4 x4]. destruct H4 as (Hn4 & Hx4 & Hr4).
  destruct (Z.leb_spec x4 0x7FFFFFFF); [|split; [|lia]; lia].
  split; [lia|]. rewrite Z.pow_add_r by lia. lia.
Qed.

(** The estimate of the quotient by a divisor rounded down to [D] is exact or one too
    large, when the rounding is small against the dividend. *)
Lemma quotient_estimate n d D : 0 ≤ n → 0 < D ≤ d → (d - D) * n ≤ d * D →
  n / d ≤ n / D ≤ n / d + 1.
Proof.
  intros Hn HD Hsmall. split; [by apply Z.div_le_compat_l|].
  apply Z.nlt_ge. intros Hgt.
  assert (D * (n / D) ≤ n) by (apply Z.mul_div_le; lia).
  assert (n < d * (n / d + 1)) by (pose proof (Z.mul_succ_div_gt n d); lia).
  assert (d * (D * (n / d + 2)) ≤ d * n) by (apply Z.mul_le_mono_nonneg_l; nia).
  assert (D * n < D * (d * (n / d + 1))) by (apply Z.mul_lt_mono_pos_l; lia).
  nia.
Qed.

Lemma mul_pow_le a b p q r : 0 ≤ p → 0 ≤ q → 2 ^ p ≤ a → 2 ^ q ≤ b → r ≤ p + q → 0 ≤ r →
  2 ^ r ≤ a * b.
Proof.
  intros Hp Hq Ha Hb Hr Hr0. transitivity (2 ^ (p + q)); [apply Z.pow_le_mono_r; lia|].
  rewrite Z.pow_add_r by lia. apply Z.mul_le_mono_nonneg; lia.
Qed.

(** The rounding of the large-divisor case: [v1] is the top word of the normalised divisor. *)
Section large.
Context (n d s v1 : Z).
Context (Hn : 0 ≤ n < 2 ^ 64) (Hs : 0 ≤ s ≤ 31) (Hd : 2 ^ 63 ≤ d * 2 ^ s < 2 ^ 64).
Context (Hv1 : v1 = d * 2 ^ s / 2 ^ 32).
Let D := v1 * 2 ^ (32 - s).

Lemma v1_bounds : 2 ^ 31 ≤ v1 < 2 ^ 32 ∧ v1 * 2 ^ 32 ≤ d * 2 ^ s < (v1 + 1) * 2 ^ 32.
Proof.
  assert (v1 * 2 ^ 32 ≤ d * 2 ^ s < (v1 + 1) * 2 ^ 32).
  { rewrite Hv1. pose proof (Z.mul_div_le (d * 2 ^ s) (2 ^ 32)).
    pose proof (Z.mul_succ_div_gt (d * 2 ^ s) (2 ^ 32)). lia. }
  lia.
Qed.

Lemma D_bounds : 2 ^ (63 - s) ≤ D ≤ d ∧ d - D ≤ 2 ^ (32 - s) - 1.
Proof.
  destruct v1_bounds as [Hb1 Hb2].
  assert (2 ^ 32 = 2 ^ (32 - s) * 2 ^ s) as E by (rewrite <-Z.pow_add_r by lia; f_equal; lia).
  assert (2 ^ (63 - s) = 2 ^ 31 * 2 ^ (32 - s)) as E2 by (rewrite <-Z.pow_add_r by lia; f_equal; lia).
  assert (0 < 2 ^ s) by (apply Z.pow_pos_nonneg; lia).
  assert (0 < 2 ^ (32 - s)) by (apply Z.pow_pos_nonneg; lia).
  unfold D. split; [split|].
  - rewrite E2. apply Z.mul_le_mono_nonneg_r; lia.
  - apply (Z.mul_le_mono_pos_r _ _ (2 ^ s)); [lia|]. rewrite E in Hb2. lia.
  - assert (d < v1 * 2 ^ (32 - s) + 2 ^ (32 - s)); [|lia].
    apply (Z.mul_lt_mono_pos_r (2 ^ s)); [lia|]. rewrite E in Hb2. lia.
Qed.

Lemma rounding_small : (d - D) * n ≤ d * D.
Proof.
  destruct D_bounds as [Hb1 Hb2].
  assert (0 < 2 ^ (63 - s)) by (apply Z.pow_pos_nonneg; lia).
  destruct (decide (s = 31)) as [->|].
  - change (2 ^ (32 - 31) - 1) with 1 in Hb2. change (2 ^ (63 - 31)) with (2 ^ 32) in *.
    transitivity (2 ^ 64); [nia|]. apply (mul_pow_le d D 32 32); lia.
  - transitivity (2 ^ (96 - s)).
    + replace (96 - s) with ((32 - s) + 64) by lia. rewrite Z.pow_add_r by lia.
      apply Z.mul_le_mono_nonneg; lia.
    + apply (mul_pow_le d D (63 - s) (63 - s)); lia.
Qed.

(** Two divisions and a shift in place of one division by [D]. *)
Lemma estimate_eq : n / 2 / v1 / 2 ^ (31 - s) = n / D.
Proof.
  destruct v1_bounds as [Hb1 _].
  assert (0 < 2 ^ (31 - s)) by (apply Z.pow_pos_nonneg; lia).
  rewrite !Z.div_div by lia. f_equal. unfold D.
  replace (32 - s) with (1 + (31 - s)) by lia. rewrite Z.pow_add_r by lia. lia.
Qed.
End large.

(** ** Unsigned division *)

Lemma udiv64_small n d : fits 64 n → 0 < d < 2 ^ 32 → udiv64 n d = Ret (n / d).
Proof.
  unfold fits. intros Hn Hd. unfold udiv64.
  rewrite (Z.shiftr_div_pow2 d), (Z.div_small d) by lia. simpl (0 =? 0).
  change (u64 (Z.shiftl 1 32)) with (2 ^ 32).
  rewrite Z.shiftr_div_pow2 by lia. set (n1 := n / 2 ^ 32).
  assert (0 ≤ n1 < 2 ^ 32) as Hn1.
  { subst n1. split; [apply Z.div_pos; lia|apply Z.div_lt_upper_bound; lia]. }
  assert (n = 2 ^ 32 * n1 + u32 n) as Hn0 by (apply Z.div_mod; lia).
  pose proof (wrap_fits 32 n ltac:(lia)) as Hf. unfold fits in Hf.
  rewrite (wrap_small 32 n1), (wrap_small 32 d) by (unfold fits; lia).
  destruct (Z.eqb_spec d 0); [lia|].
  pose proof (Z.mod_pos_bound n1 d ltac:(lia)) as Hm.
  pose proof (Z.div_mod n1 d ltac:(lia)) as Hdm.
  assert (0 ≤ n1 / d ≤ n1) as Hq by (split; [apply Z.div_pos; lia|apply Z.div_le_upper_bound; nia]).
  rewrite (wrap_small 64 (2 ^ 32 * (n1 mod d))), (wrap_small 64 (2 ^ 32 * (n1 / d))),
    (wrap_small 64 (_ + u32 n)) by (unfold fits; nia).
  rewrite divl_run by (unfold fits; nia). simpl. f_equal.
  assert (n / d = (2 ^ 32 * (n1 mod d) + u32 n) / d + 2 ^ 32 * (n1 / d)) as E.
  { rewrite <-Z.div_add by lia. f_equal. nia. }
  rewrite <-E. apply wrap_small. unfold fits.
  split; [apply Z.div_pos; lia|apply Z.div_lt_upper_bound; nia].
Qed.

(** The correction step: an estimate that is exact or one too large, decided by the
    remainder it leaves. *)
Lemma correct_estimate n d q : 0 ≤ n < 2 ^ 64 → 0 < d ≤ n → d < 2 ^ 64 → n / d ≤ q ≤ n / d + 1 →
  (if u64 (n - u64 (u64 (q - 1) * d)) <? d then u64 (q - 1) else q) = n / d.
Proof.
  intros Hn Hd Hd64 Hq.
  pose proof (Z.div_mod n d ltac:(lia)) as Hdm.
  pose proof (Z.mod_pos_bound n d ltac:(lia)) as Hm.
  assert (1 ≤ n / d) by (apply Z.div_le_lower_bound; lia).
  assert (n / d ≤ n) by (apply Z.div_le_upper_bound; nia).
  rewrite (wrap_small 64 (q - 1)) by (unfold fits; lia).
  rewrite (wrap_small 64 ((q - 1) * d)) by (unfold fits; nia).
  destruct (decide (q = n / d)) as [->|].
  - assert (n - (n / d - 1) * d = n mod d + d) as -> by lia.
    rewrite wrap_small by (unfold fits; nia).
    destruct (Z.ltb_spec (n mod d + d) d); lia.
  - assert (q = n / d + 1) as -> by lia.
    assert (n - (n / d + 1 - 1) * d = n mod d) as -> by lia.
    rewrite wrap_small by (unfold fits; lia).
    destruct (Z.ltb_spec (n mod d) d); lia.
Qed.

Lemma normalised d d1 s : 0 ≤ s ≤ 31 → 2 ^ 32 * d1 ≤ d < 2 ^ 32 * (d1 + 1) →
  2 ^ 31 ≤ d1 * 2 ^ s < 2 ^ 32 → 2 ^ 63 ≤ d * 2 ^ s < 2 ^ 64.
Proof.
  intros Hs Hd Hd1. assert (0 < 2 ^ s) by (apply Z.pow_pos_nonneg; lia).
  assert (2 ^ 32 = 2 ^ (32 - s) * 2 ^ s) as E by (rewrite <-Z.pow_add_r by lia; f_equal; lia).
  assert (d1 < 2 ^ (32 - s)) by (apply (Z.mul_lt_mono_pos_r (2 ^ s)); lia).
  assert ((d1 + 1) * 2 ^ s ≤ 2 ^ 32) by (rewrite E; apply Z.mul_le_mono_nonneg_r; lia).
  split; nia.
Qed.

Lemma udiv64_large n d : fits 64 n → 2 ^ 32 ≤ d < 2 ^ 64 → udiv64 n d = Ret (n / d).
Proof.
  unfold fits. intros Hn Hd. unfold udiv64.
  rewrite (Z.shiftr_div_pow2 d) by lia. set (d1 := d / 2 ^ 32).
  assert (1 ≤ d1 < 2 ^ 32 ∧ 2 ^ 32 * d1 ≤ d < 2 ^ 32 * (d1 + 1)) as [Hd1 Hd1'].
  { subst d1. pose proof (Z.mul_div_le d (2 ^ 32)). pose proof (Z.mul_succ_div_gt d (2 ^ 32)). lia. }
  destruct (Z.eqb_spec d1 0); [lia|].
  destruct (Z.ltb_spec n d); [by rewrite Z.div_small by lia|].
  rewrite (wrap_small 32 d1) by (unfold fits; lia).
  destruct (nlz_spec d1 ltac:(lia)) as [Hs Hns]. set (s := nlz d1) in *. cbv zeta.
  assert (0 < 2 ^ s) by (apply Z.pow_pos_nonneg; lia).
  assert (2 ^ 63 ≤ d * 2 ^ s < 2 ^ 64) as Hds by (apply (normalised d d1); lia).
  rewrite Z.shiftl_mul_pow2, (wrap_small 64) by (unfold fits; lia).
  rewrite !Z.shiftr_div_pow2 by lia. change (2 ^ 1) with 2.
  destruct (v1_bounds d s _ Hs Hds eq_refl) as [Hv1 _].
  pose proof (estimate_eq n d s _ Hs Hds eq_refl) as Hest.
  destruct (D_bounds d s _ Hs Hds eq_refl) as [HD _].
  pose proof (rounding_small n d s _ Hn Hs Hds eq_refl) as Hround.
  set (v1 := d * 2 ^ s / 2 ^ 32) in *.
  rewrite (wrap_small 32 v1) by (unfold fits; lia).
  assert (0 ≤ n / 2 < 2 ^ 63) as Hh by (split; [apply Z.div_pos|apply Z.div_lt_upper_bound]; lia).
  rewrite divl_run by (unfold fits; nia). simpl.
  rewrite Z.shiftr_div_pow2, Hest by lia. f_equal. apply correct_estimate; [lia..|].
  assert (0 < 2 ^ (63 - s)) by (apply Z.pow_pos_nonneg; lia).
  apply quotient_estimate; lia.
Qed.

Lemma udiv64_run n d : fits 64 n → fits 64 d → d ≠ 0 → udiv64 n d = Ret (n / d).
Proof.
  intros Hn Hd Hd0. unfold fits in Hd.
  destruct (decide (d < 2 ^ 32)); [apply udiv64_small|apply udiv64_large]; (done || lia).
Qed.

Lemma udiv64_zero n : udiv64 n 0 = Fault.
Proof. done. Qed.

(** The remainder is right but its result type keeps only its low 32 bits. *)
Lemma umod64_run n d : fits 64 n → fits 64 d → d ≠ 0 → umod64 n d = Ret (u32 (n mod d)).
Proof.
  intros Hn Hd Hd0. unfold umod64. rewrite udiv64_run by done. simpl. unfold fits in *.
  pose proof (Z.div_mod n d Hd0). pose proof (Z.mod_pos_bound n d ltac:(lia)).
  assert (0 ≤ n / d) by (apply Z.div_pos; lia).
  rewrite (wrap_small 64 (d * _)) by (unfold fits; nia).
  replace (n - d * (n / d)) with (n mod d) by lia.
  by rewrite (wrap_small 64) by (unfold fits; lia).
Qed.

(** ** Signed division *)

Definition abs64 (n : Z) : Z := if 0 <=? n then u64 n else u64 (- u64 n).

Lemma abs64_abs n : - 2 ^ 63 ≤ n < 2 ^ 63 → abs64 n = Z.abs n.
Proof.
  intros Hn. unfold abs64. destruct (Z.leb_spec 0 n).
  - rewrite wrap_small by (unfold fits; lia). lia.
  - unfold wrap. rewrite <-(Z.mod_add n 1), (Z.mod_small (n + 1 * _)) by lia.
    rewrite <-(Z.mod_add _ 1), Z.mod_small by lia. lia.
Qed.

Lemma swrap_congr w z z' : wrap w z = wrap w z' → swrap w z = swrap w z'.
Proof. unfold swrap. by intros ->. Qed.

Lemma wrap_opp_swrap w z : 0 < w → wrap w (- swrap w z) = wrap w (- z).
Proof.
  intros Hw. unfold swrap, wrap. assert (2 ^ w ≠ 0) by (apply Z.pow_nonzero; lia).
  rewrite (Z.div_mod z (2 ^ w)) at 4 by done. set (m := z mod 2 ^ w).
  replace (- (2 ^ w * (z / 2 ^ w) + m)) with (- m + - (z / 2 ^ w) * 2 ^ w) by lia.
  rewrite Z.mod_add by done. destruct (m <? _); [done|].
  replace (- (m - 2 ^ w)) with (- m + 1 * 2 ^ w) by lia. by rewrite Z.mod_add.
Qed.

Lemma quot_signs n d : d ≠ 0 →
  Z.quot n d = if eqb (n <? 0) (d <? 0) then Z.abs n / Z.abs d else - (Z.abs n / Z.abs d).
Proof.
  intros Hd.
  destruct (Z.ltb_spec n 0), (Z.ltb_spec d 0); simpl.
  - rewrite <-Z.quot_opp_opp, Z.quot_div_nonneg by lia. f_equal; lia.
  - replace n with (- - n) at 1 by lia.
    rewrite Z.quot_opp_l, Z.quot_div_nonneg by lia. do 2 f_equal; lia.
  - replace d with (- - d) at 1 by lia.
    rewrite Z.quot_opp_r, Z.quot_div_nonneg by lia. do 2 f_equal; lia.
  - rewrite Z.quot_div_nonneg by lia. f_equal; lia.
Qed.

Lemma sdiv64_run n d : - 2 ^ 63 ≤ n < 2 ^ 63 → - 2 ^ 63 ≤ d < 2 ^ 63 → d ≠ 0 →
  sdiv64 n d = Ret (s64 (Z.quot n d)).
Proof.
  intros Hn Hd Hd0. unfold sdiv64. fold (abs64 n) (abs64 d).
  rewrite !abs64_abs, udiv64_run by (unfold fits; lia). simpl. f_equal.
  rewrite quot_signs by done. destruct (eqb _ _); [done|].
  by apply swrap_congr, wrap_opp_swrap.
Qed.

Lemma quot_range n d : - 2 ^ 63 ≤ n < 2 ^ 63 → d ≠ 0 → n ≠ - 2 ^ 63 ∨ d ≠ -1 →
  - 2 ^ 63 ≤ Z.quot n d < 2 ^ 63.
Proof.
  intros Hn Hd Hov. rewrite quot_signs by done.
  assert (0 ≤ Z.abs n / Z.abs d) by (apply Z.div_pos; lia).
  assert (Z.abs n / Z.abs d ≤ Z.abs n) by (apply Z.div_le_upper_bound; nia).
  destruct (decide (n = - 2 ^ 63)) as [->|]; [|destruct (eqb _ _); lia].
  destruct (decide (d = 1)) as [->|]; [done|].
  assert (Z.abs (- 2 ^ 63) / Z.abs d < 2 ^ 63) by (apply Z.div_lt_upper_bound; lia).
  destruct (eqb _ _); lia.
Qed.

(** No 64-bit overflow happens on the way to the remainder, but its result type keeps
    only 32 bits of it. *)
Lemma smod64_run n d : - 2 ^ 63 ≤ n < 2 ^ 63 → - 2 ^ 63 ≤ d < 2 ^ 63 → d ≠ 0 →
  n ≠ - 2 ^ 63 ∨ d ≠ -1 → smod64 n d = Ret (s32 (Z.rem n d)).
Proof.
  intros Hn Hd Hd0 Hov. unfold smod64. rewrite sdiv64_run by done. simpl.
  pose proof (quot_range n d Hn Hd0 Hov).
  rewrite (swrap_small 64 (Z.quot n d)) by lia.
  pose proof (Z.quot_rem n d Hd0) as E. pose proof (Z.rem_bound_abs n d Hd0) as Hb.
  assert (Z.abs (Z.rem n d) ≤ Z.abs n).
  { rewrite <-Z.rem_abs by done. apply Z.rem_le; lia. }
  pose proof (Z.rem_sign_nz n d Hd0) as Hsg.
  assert (- 2 ^ 63 ≤ d * Z.quot n d < 2 ^ 63).
  { destruct (decide (Z.rem n d = 0)) as [E0|]; [lia|].
    specialize (Hsg ltac:(done)). lia. }
  rewrite (swrap_small 64 (d * _)) by lia.
  replace (n - d * Z.quot n d) with (Z.rem n d) by lia.
  by rewrite (swrap_small 64) by lia.
Qed.

(** ** The routines GCC calls *)

(** C18: [__udivdi3] is 64-bit unsigned division for every nonzero divisor: neither
    [divl] traps, and the estimate of the large-divisor path is corrected exactly. *)
Theorem udivdi3_correct n d : fits 64 n → fits 64 d → d ≠ 0 → udivdi3 n d = Ret (n / d).
Proof. apply udiv64_run. Qed.

Lemma udivdi3_correct_witness :
  udivdi3 (2 ^ 64 - 1) (2 ^ 33 + 5) = Ret ((2 ^ 64 - 1) / (2 ^ 33 + 5)).
Proof. by apply udivdi3_correct. Defined.

(** [__divdi3] is 64-bit signed division truncated toward zero, its result
    wrapped to 64 bits (only -2^63 / -1 wraps). *)
Theorem divdi3_correct n d : - 2 ^ 63 ≤ n < 2 ^ 63 → - 2 ^ 63 ≤ d < 2 ^ 63 → d ≠ 0 →
  divdi3 n d = Ret (s64 (Z.quot n d)).
Proof. apply sdiv64_run. Qed.

Lemma divdi3_correct_witness : divdi3 (- 7) (2 ^ 40) = Ret (s64 (Z.quot (- 7) (2 ^ 40))).
Proof. by apply divdi3_correct. Defined.

(** [__umoddi3] gives the remainder for every divisor up to 2^32, and for a
    greater divisor only the low 32 bits of it: [umod64] returns [uint32_t]. *)
Theorem umoddi3_truncates n d : fits 64 n → fits 64 d → d ≠ 0 →
  umoddi3 n d = Ret (u32 (n mod d)) ∧ (d ≤ 2 ^ 32 → umoddi3 n d = Ret (n mod d)).
Proof.
  intros Hn Hd Hd0. unfold umoddi3. rewrite umod64_run by done. split; [done|]. intros Hs.
  unfold fits in Hd. pose proof (Z.mod_pos_bound n d).
  by rewrite wrap_small by (unfold fits; lia).
Qed.

Lemma umoddi3_truncates_witness :
  umoddi3 (2 ^ 32 + 1) (2 ^ 33) = Ret (u32 ((2 ^ 32 + 1) mod 2 ^ 33)) ∧
  (2 ^ 33 ≤ 2 ^ 32 → umoddi3 (2 ^ 32 + 1) (2 ^ 33) = Ret ((2 ^ 32 + 1) mod 2 ^ 33)).
Proof. by apply umoddi3_truncates. Defined.
