(* ===== verification/CString.v ===== *)
(** * Byte memory and C strings: src/src/lib/string.c

    Memory maps the address of each byte that may be accessed to its value in [0, 256).
    A [char] is its byte: the code only compares characters for equality, and [strcmp]
    and [memcmp] read them as [unsigned char].  Sizes and pointer differences are the
    exact integers: an object never wraps around the end of the address space.  Loops that
    look for a terminator are bounded by the size of the memory, because each iteration
    reads a byte at a higher address. *)
From S2P Require Import Prelude KList.

Abbreviation mem := (gmap Z Z).
Abbreviation M := (ST mem).

Definition ldb (p : addr) : M Z := λ m,
  match m !! p with Some b => Ret (b, m) | None => Fault end.
Definition stb (p : addr) (b : Z) : M () := λ m,
  match m !! p with Some _ => Ret ((), <[p := u8 b]> m) | None => Fault end.
(** Stores of bytes at increasing addresses. *)
Fixpoint st_bytes (p : addr) (bs : list Z) : M () :=
  match bs with [] => mret () | b :: bs => stb p b;; st_bytes (p + 1) bs end.
(** Loops over bytes at increasing addresses. *)
Definition scan {A B} (body : A → M (ctl A B)) (a : A) : M B := λ m, loop (S (size m)) body a m.

(** ** The functions *)

Definition memcpy (dst src size : Z) : M addr :=
  assert (nonnull dst || (size =? 0));;
  assert (nonnull src || (size =? 0));;
  for_each (Z.to_nat size) 0 (λ i, b ← ldb (src + i); stb (dst + i) b);;
  mret dst.

(** The value returned is the local [dst], which the forward loop has advanced. *)
Definition memmove (dst src size : Z) : M addr :=
  assert (nonnull dst || (size =? 0));;
  assert (nonnull src || (size =? 0));;
  if dst <? src then
    for_each (Z.to_nat size) 0 (λ i, b ← ldb (src + i); stb (dst + i) b);;
    mret (dst + size)
  else
    for_each (Z.to_nat size) 1 (λ i, b ← ldb (src + size - i); stb (dst + size - i) b);;
    mret dst.

Definition memcmp (a b size : Z) : M Z :=
  assert (nonnull a || (size =? 0));;
  assert (nonnull b || (size =? 0));;
  r ← for_loop (Z.to_nat size) 0 (λ i,
    x ← ldb (a + i); y ← ldb (b + i);
    mret (if x =? y then None else Some (if y <? x then 1 else -1)));
  mret (default 0 r).

Definition strcmp (a b : addr) : M Z :=
  assert (nonnull a);;
  assert (nonnull b);;
  scan (λ i,
    x ← ldb (a + i);
    y ← ldb (b + i);
    if negb (x =? 0) && (x =? y) then mret (Next (i + 1))
    else mret (Stop (if x <? y then -1 else if y <? x then 1 else 0))) 0.

Definition memchr (block ch size : Z) : M addr :=
  let ch := u8 ch in
  assert (nonnull block || (size =? 0));;
  r ← for_loop (Z.to_nat size) 0 (λ i,
    x ← ldb (block + i); mret (if x =? ch then Some (block + i) else None));
  mret (default NULL r).

Definition strchr (string c : Z) : M addr :=
  let c := u8 c in
  assert (nonnull string);;
  scan (λ string,
    x ← ldb string;
    if x =? c then mret (Stop string)
    else if x =? 0 then mret (Stop NULL)
    else mret (Next (string + 1))) string.

Definition strcspn (string stop : addr) : M Z :=
  scan (λ length,
    x ← ldb (string + length);
    if x =? 0 then mret (Stop length) else
    f ← strchr stop x;
    if nonnull f then mret (Stop length) else mret (Next (length + 1))) 0.

Definition strpbrk (string stop : addr) : M addr :=
  scan (λ string,
    x ← ldb string;
    if x =? 0 then mret (Stop NULL) else
    f ← strchr stop x;
    if nonnull f then mret (Stop string) else mret (Next (string + 1))) string.

Definition strrchr (string c : Z) : M addr :=
  let c := u8 c in
  scan (λ '(string, p),
    x ← ldb string;
    if x =? 0 then mret (Stop p)
    else mret (Next (string + 1, if x =? c then string else p))) (string, NULL).

Definition strspn (string skip : addr) : M Z :=
  scan (λ length,
    x ← ldb (string + length);
    if x =? 0 then mret (Stop length) else
    f ← strchr skip x;
    if negb (nonnull f) then mret (Stop length) else mret (Next (length + 1))) 0.

Definition strlen (string : addr) : M Z :=
  assert (nonnull string);;
  scan (λ p,
    x ← ldb p;
    if x =? 0 then mret (Stop (p - string)) else mret (Next (p + 1))) string.

Definition strstr (haystack needle : addr) : M addr :=
  haystack_len ← strlen haystack;
  needle_len ← strlen needle;
  if haystack_len >=? needle_len then
    r ← for_loop (Z.to_nat (haystack_len - needle_len + 1)) 0 (λ i,
      d ← memcmp (haystack + i) needle needle_len;
      mret (if d =? 0 then Some (haystack + i) else None));
    mret (default NULL r)
  else mret NULL.

(** [save] is the value of [*save_ptr] before the call; the new value is returned with the
    token. *)
Definition strtok_r (s delimiters save : addr) : M (addr * addr) :=
  assert (nonnull delimiters);;
  let s := if nonnull s then s else save in
  assert (nonnull s);;
  start ← scan (λ s,
    x ← ldb s;
    f ← strchr delimiters x;
    if nonnull f then
      if x =? 0 then mret (Stop (inr s)) else mret (Next (s + 1))
    else mret (Stop (inl s))) s;
  match start with
  | inr s => mret (NULL, s)
  | inl token =>
      s ← scan (λ s,
        x ← ldb s;
        f ← strchr delimiters x;
        if nonnull f then mret (Stop s) else mret (Next (s + 1))) token;
      x ← ldb s;
      if negb (x =? 0) then stb s 0;; mret (token, s + 1)
      else mret (token, s)
  end.

Definition memset (dst value size : Z) : M addr :=
  assert (nonnull dst || (size =? 0));;
  for_each (Z.to_nat size) 0 (λ i, stb (dst + i) value);;
  mret dst.

Definition strnlen (string maxlen : Z) : M Z :=
  scan (λ length,
    x ← ldb (string + length);
    if negb (x =? 0) && (length <? maxlen) then mret (Next (length + 1))
    else mret (Stop length)) 0.

Definition strlcpy (dst src size : Z) : M Z :=
  assert (nonnull dst);;
  assert (nonnull src);;
  src_len ← strlen src;
  (if 0 <? size then
     let dst_len := size - 1 in
     let dst_len := if src_len <? dst_len then src_len else dst_len in
     _ ← memcpy dst src dst_len;
     stb (dst + dst_len) 0
   else mret ());;
  mret src_len.

Definition strlcat (dst src size : Z) : M Z :=
  assert (nonnull dst);;
  assert (nonnull src);;
  src_len ← strlen src;
  dst_len ← strlen dst;
  (if (0 <? size) && (dst_len <? size) then
     let copy_cnt := size - dst_len - 1 in
     let copy_cnt := if src_len <? copy_cnt then src_len else copy_cnt in
     _ ← memcpy (dst + dst_len) src copy_cnt;
     stb (dst + dst_len + copy_cnt) 0
   else mret ());;
  mret (src_len + dst_len).

(** ** The contract: memory that holds byte sequences *)

Abbreviation bytes := (list Z).

Definition bytes_at (m : mem) (p : addr) (bs : bytes) : Prop :=
  ∀ i b, bs !! i = Some b → m !! (p + Z.of_nat i) = Some b.
(** The [n] bytes at [p] may be accessed. *)
Definition mapped (m : mem) (p n : Z) : Prop := ∀ i, 0 ≤ i < n → is_Some (m !! (p + i)).
Definition byte (b : Z) : Prop := fits 8 b.

(** A null-terminated string with the characters [s]. *)
Record string_at (m : mem) (p : addr) (s : bytes) : Prop := StringAt {
  str_ptr : 0 < p;
  str_bytes : bytes_at m p (s ++ [0]);
  str_chars : Forall (λ b, byte b ∧ b ≠ 0) s;
}.

Fixpoint write (p : addr) (bs : bytes) (m : mem) : mem :=
  match bs with
  | [] => m
  | b :: bs => <[p := b]> (write (p + 1) bs m)
  end.

Lemma write_lookup bs : ∀ p m a,
  write p bs m !! a =
    if decide (p ≤ a < p + Z.of_nat (length bs)) then bs !! Z.to_nat (a - p) else m !! a.
Proof.
  induction bs as [|b bs IH]; intros p m a; cbn [write length].
  - rewrite decide_False by lia. done.
  - rewrite lookup_insert. case_decide as E; subst.
    + rewrite decide_True by lia. by replace (a - a) with 0 by lia.
    + rewrite IH. repeat case_decide; try lia; [|done].
      replace (Z.to_nat (a - p)) with (S (Z.to_nat (a - (p + 1)))) by lia. done.
Qed.

Lemma write_out bs p m a : ¬ p ≤ a < p + Z.of_nat (length bs) → write p bs m !! a = m !! a.
Proof. intros. by rewrite write_lookup, decide_False. Qed.

Lemma write_app bs1 : ∀ p bs2 m,
  write p (bs1 ++ bs2) m = write p bs1 (write (p + Z.of_nat (length bs1)) bs2 m).
Proof.
  induction bs1 as [|b bs1 IH]; intros p bs2 m; simpl; [by rewrite Z.add_0_r|].
  rewrite IH. do 3 f_equal. lia.
Qed.

Lemma write_snoc bs p b m :
  write p (bs ++ [b]) m = <[p + Z.of_nat (length bs) := b]> (write p bs m).
Proof.
  apply map_eq. intros a. rewrite lookup_insert, !write_lookup, length_app. simpl.
  repeat case_decide; try lia; subst.
  - rewrite lookup_app_r by lia. by replace (Z.to_nat _ - length bs)%nat with 0%nat by lia.
  - by rewrite lookup_app_l by lia.
  - done.
Qed.

Lemma bytes_at_write p bs m : bytes_at (write p bs m) p bs.
Proof.
  intros i b Hi. pose proof (lookup_lt_Some _ _ _ Hi). rewrite write_lookup, decide_True by lia.
  by replace (Z.to_nat _) with i by lia.
Qed.

(** Reading bytes that a write does not touch. *)
Lemma bytes_at_write_other p bs m q cs :
  q + Z.of_nat (length cs) ≤ p ∨ p + Z.of_nat (length bs) ≤ q →
  bytes_at m q cs → bytes_at (write p bs m) q cs.
Proof.
  intros Hd Hq i b Hi. pose proof (lookup_lt_Some _ _ _ Hi). rewrite write_out by lia. by apply Hq.
Qed.

Lemma bytes_at_app m p bs1 bs2 :
  bytes_at m p (bs1 ++ bs2) ↔ bytes_at m p bs1 ∧ bytes_at m (p + Z.of_nat (length bs1)) bs2.
Proof.
  split.
  - intros H. split; intros i b Hi.
    + apply H. by apply lookup_app_l_Some.
    + replace (_ + _ + _) with (p + Z.of_nat (length bs1 + i)) by lia. apply H.
      rewrite lookup_app_r by lia. by replace (_ - _)%nat with i by lia.
  - intros [H1 H2] i b [Hi|[Hl Hi]]%lookup_app_Some; [by apply H1|].
    apply H2 in Hi. by replace (p + Z.of_nat i) with (p + Z.of_nat (length bs1) + Z.of_nat (i - length bs1)) by lia.
Qed.

Lemma bytes_at_mapped m p bs : bytes_at m p bs → mapped m p (Z.of_nat (length bs)).
Proof.
  intros H i Hi. destruct (lookup_lt_is_Some_2 bs (Z.to_nat i)) as [b Hb]; [lia|].
  apply H in Hb. rewrite Z2Nat.id in Hb by lia. by exists b.
Qed.

Lemma bytes_at_inj m p bs cs : bytes_at m p bs → bytes_at m p cs → length bs = length cs → bs = cs.
Proof.
  intros Hb Hc Hl. apply list_eq_same_length with (n := length bs); [done..|].
  intros i x y Hi Hx Hy. apply Hb in Hx. apply Hc in Hy. congruence.
Qed.

(** A byte sequence is no longer than the memory that holds it. *)
Lemma mapped_size m p n : mapped m p n → n ≤ Z.of_nat (size m).
Proof.
  intros H. destruct (decide (0 ≤ n)); [|lia].
  assert (size (list_to_set (seqZ p n) : gset Z) ≤ size (dom m))%nat as Hs.
  { apply subseteq_size. intros a. rewrite elem_of_list_to_set, elem_of_seqZ, elem_of_dom.
    intros Ha. replace a with (p + (a - p)) by lia. apply H. lia. }
  rewrite size_list_to_set, length_seqZ, size_dom in Hs by apply NoDup_seqZ. lia.
Qed.

#[export] Hint Resolve bytes_at_mapped : kernel.

(** Deciding the contract on concrete memories. *)
Lemma bytes_at_cons m p b bs : bytes_at m p (b :: bs) ↔ m !! p = Some b ∧ bytes_at m (p + 1) bs.
Proof.
  rewrite (bytes_at_app m p [b] bs). simpl. split; intros [H1 H2]; split; try done.
  - rewrite <-(Z.add_0_r p). by apply (H1 0%nat).
  - intros [|i] b' [= <-]. by rewrite Z.add_0_r.
Qed.

#[global] Instance bytes_at_dec m p bs : Decision (bytes_at m p bs).
Proof.
  revert p. induction bs as [|b bs IH]; intros p; [by left|].
  refine (cast_if (decide (m !! p = Some b ∧ bytes_at m (p + 1) bs))); abstract (by rewrite bytes_at_cons).
Defined.

#[global] Instance byte_dec b : Decision (byte b).
Proof. unfold byte, fits. apply _. Defined.

#[global] Instance string_at_dec m p s : Decision (string_at m p s).
Proof.
  refine (cast_if (decide (0 < p ∧ bytes_at m p (s ++ [0]) ∧ Forall (λ b, byte b ∧ b ≠ 0) s)));
    abstract (first [destruct_and?; by split | intros []; naive_solver]).
Defined.

#[global] Instance mapped_dec m p n : Decision (mapped m p n).
Proof.
  refine (cast_if (decide (Forall (λ i, is_Some (m !! (p + i))) (seqZ 0 n))));
    abstract (unfold mapped; rewrite Forall_forall in *; setoid_rewrite elem_of_seqZ in f || idtac;
              first [intros i Hi; apply f; lia
                    |intros H; apply n0; intros i Hi%elem_of_seqZ; apply H; lia]).
Defined.

(** The bytes of a literal. *)
Definition of_string (s : string) : bytes :=
  (λ a, Z.of_N (Ascii.N_of_ascii a)) <$> String.list_ascii_of_string s.
