(* ===== verification/CStringProofs.v ===== *)
(** * The contracts of src/src/lib/string.c

    Each function is shown to return, without a failed assertion or an access outside its
    arguments, the value of a reference function on byte lists; the functions that write
    change exactly the bytes their contract names. *)
From S2P Require Import Prelude KList CString.

Lemma ldb_run m p b : m !! p = Some b → ldb p m = Ret (b, m).
Proof. unfold ldb. by intros ->. Qed.
Lemma stb_run m p b : byte b → is_Some (m !! p) → stb p b m = Ret ((), <[p := b]> m).
Proof. intros Hb [x Hx]. unfold stb. by rewrite Hx, wrap_small. Qed.

Lemma wp_scan {A B} (I : nat → A → mem → Prop) (body : A → M (ctl A B)) (Q : B → mem → Prop) m n a :
  (∀ n a m, I n a m →
    wp (body a) m (λ r m',
      match r with Next a' => ∃ n', (n' < n)%nat ∧ I n' a' m' | Stop b => Q b m' end)) →
  I n a m → (n ≤ size m)%nat → wp (scan body a) m Q.
Proof.
  intros Hb HI Hn. destruct (wp_inv (loop (S (size m)) body a) m Q) as (b & m' & Hrun & HQ).
  { eapply wp_loop; [exact Hb|exact HI|lia]. }
  by apply (wp_run _ _ b m').
Qed.

(** Writing what is already there. *)
Lemma write_same m bs p : bytes_at m p bs → write p bs m = m.
Proof.
  intros H. apply map_eq. intros a. rewrite write_lookup. case_decide; [|done].
  destruct (lookup_lt_is_Some_2 bs (Z.to_nat (a - p))) as [b Hb]; [lia|]. rewrite Hb.
  apply H in Hb. by rewrite Z2Nat.id, Zplus_minus in Hb by lia.
Qed.

(** Reading a range of bytes, and storing one. *)
Lemma bytes_at_read m p s : bytes_at m p s → (λ i, default 0 (m !! (p + i))) <$> seqZ 0 (Z.of_nat (length s)) = s.
Proof.
  intros Hs. apply list_eq. intros i. rewrite list_lookup_fmap. destruct (decide (i < length s)%nat) as [Hi|Hi].
  - rewrite lookup_seqZ_lt by lia. simpl. destruct (lookup_lt_is_Some_2 s i Hi) as [c Hc].
    rewrite Z.add_0_l. rewrite (Hs i c Hc). by rewrite Hc.
  - rewrite lookup_seqZ_ge by lia. rewrite lookup_ge_None_2 by lia. done.
Qed.

Lemma st_bytes_run bs : ∀ p m, mapped m p (Z.of_nat (length bs)) → st_bytes p bs m = Ret ((), write p (u8 <$> bs) m).
Proof.
  induction bs as [|b bs IH]; intros p m Hm; [done|]. cbn [st_bytes length fmap list_fmap write] in *.
  destruct (Hm 0 ltac:(lia)) as [x Hx]. rewrite Z.add_0_r in Hx.
  rewrite (bind_run _ _ _ () (<[p := u8 b]> m)) by (unfold stb; by rewrite Hx). rewrite IH.
  - do 2 f_equal. apply map_eq. intros a. rewrite lookup_insert, !write_lookup, lookup_insert, length_fmap.
    repeat case_decide; subst; try lia; done.
  - intros i Hi. rewrite lookup_insert_ne by lia. replace (p + 1 + i) with (p + (i + 1)) by lia. apply Hm. lia.
Qed.

(** ** Block copies *)

Section copy.
Context (m : mem) (dst src : addr) (bs : bytes) (size : Z).
Context (Hsize : size = Z.of_nat (length bs)) (Hbytes : Forall byte bs).
Context (Hsrc : bytes_at m src bs) (Hdst : mapped m dst size).

(** Copying upwards is safe when no byte is written before it is read. *)
Lemma copy_up :
  (∀ i j, 0 ≤ i < j → j < size → dst + i ≠ src + j) →
  wp (for_each (Z.to_nat size) 0 (λ i, b ← ldb (src + i); stb (dst + i) b)) m
    (λ _ m', m' = write dst bs m).
Proof.
  intros Hsafe.
  apply (wp_for_each (λ i m', m' = write dst (take (Z.to_nat i) bs) m)).
  - intros i ? Hi ->. destruct (lookup_lt_is_Some_2 bs (Z.to_nat i)) as [b Hb]; [lia|].
    eapply wp_bind_run; [apply (ldb_run _ _ b)|cbv beta].
    { rewrite write_out; [apply Hsrc in Hb; by rewrite Z2Nat.id in Hb by lia|].
      rewrite length_take. intros Hin. apply (Hsafe (src + i - dst) i); lia. }
    eapply wp_run.
    { apply stb_run; [by eapply Forall_lookup_1 in Hb|]. rewrite write_out; [apply Hdst; lia|].
      rewrite length_take. lia. }
    rewrite Z2Nat.inj_add, Nat.add_1_r, (take_S_r _ _ b) by (done || lia).
    rewrite write_snoc, length_take. f_equal. lia.
  - intros ? ->. by rewrite take_ge by lia.
  - done.
Qed.

Lemma copy_down :
  (∀ i j, 0 ≤ j < i → i < size → dst + i ≠ src + j) →
  wp (for_each (Z.to_nat size) 1 (λ i, b ← ldb (src + size - i); stb (dst + size - i) b)) m
    (λ _ m', m' = write dst bs m).
Proof.
  intros Hsafe.
  apply (wp_for_each (λ i m', m' = write (dst + size - (i - 1)) (drop (Z.to_nat (size - (i - 1))) bs) m)).
  - intros i ? Hi ->. set (k := Z.to_nat (size - i)).
    destruct (lookup_lt_is_Some_2 bs k) as [b Hb]; [lia|].
    replace (Z.to_nat (size - (i - 1))) with (S k) by lia.
    eapply wp_bind_run; [apply (ldb_run _ _ b)|cbv beta].
    { rewrite write_out; [apply Hsrc in Hb; by replace (src + size - i) with (src + Z.of_nat k) by lia|].
      rewrite length_drop. intros Hin. apply (Hsafe (src + size - i - dst) (size - i)); lia. }
    eapply wp_run.
    { apply stb_run; [by eapply Forall_lookup_1 in Hb|]. rewrite write_out by lia.
      replace (dst + size - i) with (dst + (size - i)) by lia. apply Hdst. lia. }
    replace (i + 1 - 1) with i by lia. fold k. rewrite (drop_S _ b k) by done. cbn [write].
    f_equal. f_equal. lia.
  - intros ? ->. rewrite Z2Nat.id by lia. replace (1 + size - 1) with size by lia.
    rewrite Z.sub_diag. f_equal. lia.
  - rewrite drop_ge by lia. done.
Qed.

Context (Hd : nonnull dst = true ∨ size = 0) (Hs : nonnull src = true ∨ size = 0).

Lemma ptr_asserts {A} (k : M A) :
  (assert (nonnull dst || (size =? 0));; assert (nonnull src || (size =? 0));; k) m = k m.
Proof.
  run_by ltac:(apply assert_run; destruct Hd as [->| ->]; by rewrite ?orb_true_r).
  run_by ltac:(apply assert_run; destruct Hs as [->| ->]; by rewrite ?orb_true_r).
  done.
Qed.

Lemma memcpy_run : dst ≤ src ∨ src + size ≤ dst →
  memcpy dst src size m = Ret (dst, write dst bs m).
Proof.
  intros Hno. unfold memcpy. rewrite ptr_asserts.
  destruct (wp_inv _ _ _ (copy_up ltac:(lia))) as ([] & ? & Hrun & ->). by run_by ltac:(exact Hrun).
Qed.

Lemma memmove_run :
  memmove dst src size m = Ret (if dst <? src then dst + size else dst, write dst bs m).
Proof.
  unfold memmove. rewrite ptr_asserts. destruct (Z.ltb_spec dst src).
  - destruct (wp_inv _ _ _ (copy_up ltac:(lia))) as ([] & ? & Hrun & ->). by run_by ltac:(exact Hrun).
  - destruct (wp_inv _ _ _ (copy_down ltac:(lia))) as ([] & ? & Hrun & ->). by run_by ltac:(exact Hrun).
Qed.
End copy.

Lemma memset_run m dst v size : nonnull dst = true ∨ size = 0 → 0 ≤ size → mapped m dst size →
  memset dst v size m = Ret (dst, write dst (replicate (Z.to_nat size) (u8 v)) m).
Proof.
  intros Hd Hs Hm. unfold memset.
  run_by ltac:(apply assert_run; destruct Hd as [->| ->]; by rewrite ?orb_true_r).
  destruct (wp_inv (for_each (Z.to_nat size) 0 (λ i, stb (dst + i) v)) m
    (λ _ m', m' = write dst (replicate (Z.to_nat size) (u8 v)) m)) as ([] & ? & Hrun & ->);
    [|by run_by ltac:(exact Hrun)].
  apply (wp_for_each (λ i m', m' = write dst (replicate (Z.to_nat i) (u8 v)) m)).
  - intros i ? Hi ->. eapply wp_run.
    + unfold stb. destruct (Hm i) as [x Hx]; [lia|].
      rewrite write_out by (rewrite length_replicate; lia). by rewrite Hx.
    + rewrite Z2Nat.inj_add, Nat.add_comm by lia. rewrite replicate_add.
      assert (replicate (Z.to_nat 1) (u8 v) ++ replicate (Z.to_nat i) (u8 v)
        = replicate (Z.to_nat i) (u8 v) ++ [u8 v]) as -> by (simpl; by rewrite replicate_cons_app).
      rewrite write_snoc, length_replicate. do 2 f_equal. lia.
  - intros ? ->. by rewrite Z.add_0_l, Nat2Z.id.
  - done.
Qed.

(** ** Scans of a string

    Every loop that walks a string goes on while a test of the index and the character
    holds, and the terminator fails the test. *)

(** The length of the longest prefix whose characters pass the test. *)
Fixpoint span (go : nat → Z → bool) (s : bytes) : nat :=
  match s with
  | [] => 0
  | c :: s => if go 0%nat c then S (span (λ i, go (S i)) s) else 0
  end.

Lemma span_le go s : (span go s ≤ length s)%nat.
Proof.
  revert go. induction s as [|c s IH]; intros go; simpl; [lia|]. destruct (go 0%nat c); [|lia].
  specialize (IH (λ i, go (S i))). lia.
Qed.

Lemma span_ext go go' s : (∀ i c, go i c = go' i c) → span go s = span go' s.
Proof.
  revert go go'. induction s as [|c s IH]; intros go go' H; simpl; [done|].
  rewrite H. by rewrite (IH (λ i, go (S i)) (λ i, go' (S i))).
Qed.

Lemma span_all go s : (∀ i c, s !! i = Some c → go i c = true) → span go s = length s.
Proof.
  revert go. induction s as [|c s IH]; intros go H; simpl; [done|].
  rewrite (H 0%nat c) by done. f_equal. apply IH. intros i c' Hi. by apply (H (S i)).
Qed.

Section span_const.
Context (go : Z → bool).
(** Tests of the character alone. *)
Definition span_of : bytes → nat := span (λ _, go).

Lemma span_of_cons c s : span_of (c :: s) = if go c then S (span_of s) else 0%nat.
Proof. done. Qed.

Lemma span_of_app s1 s2 : Forall (λ c, go c = true) s1 → span_of (s1 ++ s2) = (length s1 + span_of s2)%nat.
Proof.
  induction 1 as [|c s1 Hc _ IH]; [done|]. simpl ((_ :: _) ++ _). rewrite span_of_cons, Hc, IH. done.
Qed.

Lemma span_of_take s : Forall (λ c, go c = true) (take (span_of s) s).
Proof.
  induction s as [|c s IH]; [constructor|]. rewrite span_of_cons.
  destruct (go c) eqn:E; constructor; done.
Qed.

Lemma span_of_next s c : s !! span_of s = Some c → go c = false.
Proof.
  induction s as [|c' s IH]; [done|]. rewrite span_of_cons. destruct (go c') eqn:E; [done|].
  simpl. by intros [= <-].
Qed.
End span_const.

Lemma str_lookup m p s i c : string_at m p s → (s ++ [0]) !! i = Some c →
  m !! (p + Z.of_nat i) = Some c.
Proof. intros [_ Hb _] Hi. by apply Hb. Qed.

Lemma str_size m p s : string_at m p s → (length s < size m)%nat.
Proof.
  intros [_ Hb _]. apply bytes_at_mapped, mapped_size in Hb. rewrite length_app in Hb. simpl in Hb. lia.
Qed.

(** A suffix of a string is a string. *)
Lemma str_drop m p s1 s2 : string_at m p (s1 ++ s2) → string_at m (p + Z.of_nat (length s1)) s2.
Proof.
  intros [Hp Hb Hc]. rewrite <-app_assoc, bytes_at_app in Hb. apply Forall_app in Hc.
  split; [lia|apply Hb|apply Hc].
Qed.

Lemma scan_string {A B} (body : A → M (ctl A B)) (f : nat → A) (r : nat → B)
    (go : nat → Z → bool) m p s a :
  string_at m p s → a = f 0%nat → go (length s) 0 = false →
  (∀ i c, (s ++ [0]) !! i = Some c →
     body (f i) m = Ret (if go i c then Next (f (S i)) else Stop (r i), m)) →
  scan body a m = Ret (r (span go s), m).
Proof.
  intros Hstr -> Hend Hbody. unfold scan. pose proof (str_size _ _ _ Hstr) as Hsz.
  enough (∀ s2 k fuel, (k + length s2)%nat = length s → drop k s = s2 → (length s2 < fuel)%nat →
    loop fuel body (f k) m = Ret (r (k + span (λ i, go (k + i)) s2)%nat, m)) as H.
  { by apply (H s 0%nat); [|rewrite drop_0|lia]. }
  induction s2 as [|c s2 IH]; intros k fuel Hk Hdrop Hfuel; (destruct fuel as [|fuel]; [lia|]).
  - simpl in Hk. apply loop_stop. rewrite (Hbody k 0).
    + rewrite Nat.add_0_r in *. subst k. by rewrite Hend.
    + rewrite lookup_app_r by lia. by replace (k - length s)%nat with 0%nat by lia.
  - simpl in Hk. assert (s !! k = Some c) as Hkc.
    { rewrite <-(Nat.add_0_r k), <-lookup_drop, Hdrop. done. }
    assert (body (f k) m = Ret (if go k c then Next (f (S k)) else Stop (r k), m)) as Hb
      by (apply Hbody; by apply lookup_app_l_Some).
    cbn [span]. rewrite Nat.add_0_r. destruct (go k c).
    + rewrite (loop_next _ _ _ _ _ _ Hb), IH; [|lia|by rewrite (drop_S _ c) in Hdrop; simplify_eq|simpl in *; lia].
      do 3 f_equal. rewrite Nat.add_succ_comm. f_equal. f_equal.
      apply span_ext. intros i c'. by rewrite Nat.add_succ_comm.
    + by rewrite (loop_stop _ _ _ _ _ _ Hb), Nat.add_0_r.
Qed.

(** ** Searching *)

Lemma strlen_run m p s : string_at m p s → strlen p m = Ret (Z.of_nat (length s), m).
Proof.
  intros Hs. unfold strlen. run_by ltac:(apply assert_run, nonnull_true; destruct Hs; unfold NULL; lia).
  rewrite (scan_string _ (λ i, p + Z.of_nat i) (λ i, Z.of_nat i) (λ _ c, negb (c =? 0)) m p s _ Hs).
  2: lia.
  - do 3 f_equal. apply span_all. intros i c Hi. destruct Hs as [_ _ Hc].
    rewrite Forall_lookup in Hc. by apply Hc in Hi as [_ Hi%Z.eqb_neq%negb_true_iff].
  - done.
  - intros i c Hi. run_by ltac:(apply ldb_run; by eapply str_lookup).
    destruct (c =? 0); unfold mret, ST_ret; simpl; do 3 f_equal; lia.
Qed.

(** Where [strchr] finds [c]: the index of its first occurrence, the terminator included. *)
Definition find_char (c : Z) (s : bytes) : option nat :=
  let i := span_of (λ x, negb (x =? c) && negb (x =? 0)) s in
  if (i <? length s)%nat || (c =? 0) then Some i else None.

Definition at_index (p : addr) (i : option nat) : addr :=
  match i with Some i => p + Z.of_nat i | None => NULL end.

Lemma strchr_run m p s c : string_at m p s → byte c →
  strchr p c m = Ret (at_index p (find_char c s), m).
Proof.
  intros Hs Hc. unfold strchr. rewrite (wrap_small 8 c) by done.
  run_by ltac:(apply assert_run, nonnull_true; destruct Hs; unfold NULL; lia).
  set (go := λ x, negb (x =? c) && negb (x =? 0)).
  set (r := λ i : nat, if (s ++ [0]) !! i is Some x then if x =? c then p + Z.of_nat i else NULL else NULL).
  rewrite (scan_string _ (λ i, p + Z.of_nat i) r (λ _, go) m p s _ Hs).
  2: lia.
  - do 2 f_equal. fold (span_of go). unfold r, find_char. fold go.
    pose proof (span_le (λ _, go) s) as Hle. fold (span_of go) in Hle.
    destruct (Nat.ltb_spec (span_of go s) (length s)) as [Hlt|Hge]; simpl.
    + destruct (lookup_lt_is_Some_2 s (span_of go s) Hlt) as [x Hx].
      rewrite lookup_app_l, Hx by done. apply span_of_next in Hx as Hgo.
      destruct Hs as [_ _ Hch]. rewrite Forall_lookup in Hch. apply Hch in Hx as [_ Hx0].
      unfold go in Hgo. rewrite (proj2 (Z.eqb_neq x 0) Hx0) in Hgo. by destruct (x =? c).
    + assert (span_of go s = length s) as -> by lia. rewrite lookup_app_r, Nat.sub_diag by done. simpl.
      by destruct c.
  - unfold go. by rewrite andb_false_r.
  - intros i x Hi. run_by ltac:(apply ldb_run; by eapply str_lookup). unfold r, go. rewrite Hi.
    destruct (x =? c), (x =? 0); simpl; unfold mret, ST_ret; do 3 f_equal; lia.
Qed.

(** Character sets, as [strspn] and its relatives take them: the terminator is a member. *)
Definition mem_char (set : bytes) (c : Z) : bool := bool_decide (c ∈ set ++ [0]).

Lemma strchr_member m p set c : string_at m p set → byte c →
  ∃ r, strchr p c m = Ret (r, m) ∧ nonnull r = mem_char set c.
Proof.
  intros Hs Hc. eexists. split; [by apply strchr_run|]. unfold find_char, mem_char.
  set (go := λ x, negb (x =? c) && negb (x =? 0)).
  pose proof (span_le (λ _, go) set) as Hle. fold (span_of go) in Hle.
  pose proof (span_of_take go set) as Hpre. pose proof Hs as [Hp _ Hch].
  assert (∀ i, nonnull (at_index p (Some i)) = true) as Hnn.
  { intros i. apply nonnull_true. simpl. unfold NULL. lia. }
  destruct (Nat.ltb_spec (span_of go set) (length set)) as [Hlt|Hge]; cbn [orb].
  - rewrite Hnn. symmetry. apply bool_decide_eq_true, elem_of_app. left.
    destruct (lookup_lt_is_Some_2 set _ Hlt) as [x Hx]. apply span_of_next in Hx as Hgo.
    rewrite Forall_lookup in Hch. pose proof (Hch _ _ Hx) as [_ Hx0]. unfold go in Hgo.
    rewrite (proj2 (Z.eqb_neq x 0) Hx0) in Hgo. destruct (Z.eqb_spec x c) as [->|]; [|done].
    by eapply list_elem_of_lookup_2.
  - rewrite take_ge in Hpre by lia. destruct (Z.eqb_spec c 0) as [->|Hc0].
    + rewrite Hnn. symmetry. apply bool_decide_eq_true. set_solver.
    + symmetry. apply bool_decide_eq_false. rewrite elem_of_app, list_elem_of_singleton.
      intros [Hin| ->]; [|done]. rewrite Forall_forall in Hpre. apply Hpre in Hin.
      unfold go in Hin. by rewrite Z.eqb_refl in Hin.
Qed.

Lemma str_byte m p s i c : string_at m p s → (s ++ [0]) !! i = Some c → byte c.
Proof.
  intros [_ _ Hc] [Hi|[_ Hi]]%lookup_app_Some.
  - rewrite Forall_lookup in Hc. by apply Hc in Hi as [? _].
  - apply list_elem_of_lookup_2, list_elem_of_singleton in Hi as ->. done.
Qed.

(** The loop shared by [strspn], [strcspn] and [strpbrk]: walk while membership of the
    character in [set] is [b]. *)
Section charset.
Context (m : mem) (p q : addr) (s set : bytes).
Context (Hs : string_at m p s) (Hset : string_at m q set).

Definition in_set (b : bool) (c : Z) : bool := negb (c =? 0) && eqb (mem_char set c) b.

Lemma charset_step b {A B} (stop0 stop : B) (next : A) i c :
  (s ++ [0]) !! i = Some c →
  (x ← ldb (p + Z.of_nat i);
   if x =? 0 then mret (Stop stop0) else
   f ← strchr q x;
   if eqb (nonnull f) b then mret (Next next) else mret (Stop stop)) m
  = Ret (if in_set b c then Next next else Stop (if c =? 0 then stop0 else stop), m).
Proof.
  intros Hi. run_by ltac:(apply ldb_run; by eapply str_lookup). unfold in_set.
  destruct (c =? 0); [done|]. cbn [negb andb].
  destruct (strchr_member m q set c Hset) as (r & Hrun & Hr); [exact (str_byte m p s i c Hs Hi)|].
  run_by ltac:(exact Hrun). rewrite Hr. by destruct (eqb _ b).
Qed.

Lemma charset_body {A} a (stop : A) (k k' : bool → M A) : (∀ b m, k b m = k' b m) →
  (x ← ldb a; if x =? 0 then mret stop else f ← strchr q x; k (nonnull f)) m =
  (x ← ldb a; if x =? 0 then mret stop else f ← strchr q x; k' (nonnull f)) m.
Proof.
  intros Hk. unfold mbind, ST_bind, ldb. destruct (m !! a) as [x|]; [|done].
  destruct (x =? 0); [done|]. by destruct (strchr q x m) as [[f m']| | |].
Qed.

Lemma strspn_run : strspn p q m = Ret (Z.of_nat (span_of (in_set true) s), m).
Proof.
  apply (scan_string _ Z.of_nat Z.of_nat (λ _, in_set true) m p s 0 Hs); [done..|].
  intros i c Hi. pose proof (charset_step true (Z.of_nat i) (Z.of_nat i) (Z.of_nat (S i)) i c Hi) as H.
  replace (if c =? 0 then _ else _) with (Z.of_nat i) in H by (by destruct (c =? 0)).
  rewrite <-H. replace (Z.of_nat i + 1) with (Z.of_nat (S i)) by lia. apply (charset_body _ _ (λ b, if negb b then _ else _) (λ b, if eqb b _ then _ else _)).
  by intros [].
Qed.

Lemma strcspn_run : strcspn p q m = Ret (Z.of_nat (span_of (in_set false) s), m).
Proof.
  apply (scan_string _ Z.of_nat Z.of_nat (λ _, in_set false) m p s 0 Hs); [done..|].
  intros i c Hi. pose proof (charset_step false (Z.of_nat i) (Z.of_nat i) (Z.of_nat (S i)) i c Hi) as H.
  replace (if c =? 0 then _ else _) with (Z.of_nat i) in H by (by destruct (c =? 0)).
  rewrite <-H. replace (Z.of_nat i + 1) with (Z.of_nat (S i)) by lia. apply (charset_body _ _ (λ b, if b : bool then _ else _) (λ b, if eqb b _ then _ else _)).
  by intros [].
Qed.

Lemma strpbrk_run :
  strpbrk p q m = Ret (let i := span_of (in_set false) s in
                       if (i <? length s)%nat then p + Z.of_nat i else NULL, m).
Proof.
  unfold strpbrk.
  rewrite (scan_string _ (λ i, p + Z.of_nat i)
    (λ i, if (i <? length s)%nat then p + Z.of_nat i else NULL) (λ _, in_set false) m p s p Hs);
    [done|lia|done|].
  intros i c Hi.
  pose proof (charset_step false NULL (p + Z.of_nat i) (p + Z.of_nat (S i)) i c Hi) as H.
  replace (if c =? 0 then _ else _) with (if (i <? length s)%nat then p + Z.of_nat i else NULL) in H.
  { rewrite <-H. replace (p + Z.of_nat i + 1) with (p + Z.of_nat (S i)) by lia.
    apply (charset_body _ _ (λ b, if b : bool then _ else _) (λ b, if eqb b _ then _ else _)). by intros []. }
  destruct Hs as [_ _ Hc]. rewrite Forall_lookup in Hc.
  apply lookup_app_Some in Hi as [Hi|[Hl Hi]].
  - pose proof (lookup_lt_Some _ _ _ Hi). apply Hc in Hi as [_ Hi].
    by rewrite (proj2 (Nat.ltb_lt _ _)), (proj2 (Z.eqb_neq _ _) Hi) by done.
  - apply list_elem_of_lookup_2, list_elem_of_singleton in Hi as ->.
    by rewrite (proj2 (Nat.ltb_ge _ _)).
Qed.
End charset.

(** The last occurrence of [c]. *)
Definition last_index (c : Z) (s : bytes) : option nat :=
  (λ x, x.1) <$> last (filter (λ x, x.2 = c) (imap pair s)).

Lemma last_index_snoc c s x : last_index c (s ++ [x]) = if x =? c then Some (length s) else last_index c s.
Proof.
  unfold last_index. rewrite imap_app, filter_app. simpl. rewrite Nat.add_0_r, filter_cons. cbn [snd].
  destruct (Z.eqb_spec x c).
  - rewrite decide_True, filter_nil, last_snoc by done. done.
  - by rewrite decide_False, filter_nil, app_nil_r by done.
Qed.

Lemma strrchr_run m p s c : string_at m p s → byte c → strrchr p c m = Ret (at_index p (last_index c s), m).
Proof.
  intros Hs Hc. unfold strrchr. rewrite (wrap_small 8 c) by done.
  rewrite (scan_string _ (λ i, (p + Z.of_nat i, at_index p (last_index c (take i s))))
    (λ i, at_index p (last_index c (take i s))) (λ _ x, negb (x =? 0)) m p s _ Hs).
  - do 2 f_equal. rewrite span_all, firstn_all; [done|]. intros i x Hi.
    destruct Hs as [_ _ Hch]. rewrite Forall_lookup in Hch. by apply Hch in Hi as [_ Hi%Z.eqb_neq%negb_true_iff].
  - by rewrite Z.add_0_r.
  - done.
  - intros i x Hi. run_by ltac:(apply ldb_run; by eapply str_lookup).
    destruct (Z.eqb_spec x 0) as [->|Hx]; [done|]. unfold mret, ST_ret. cbn [negb]. do 3 f_equal.
    apply lookup_app_Some in Hi as [Hi|[_ Hi]].
    2: { by apply list_elem_of_lookup_2, list_elem_of_singleton in Hi. }
    f_equal; [lia|]. pose proof (lookup_lt_Some _ _ _ Hi).
    rewrite (take_S_r _ _ x), last_index_snoc, length_take by done.
    rewrite Nat.min_l by lia. by destruct (x =? c).
Qed.

Lemma strnlen_run m p s n : string_at m p s → 0 ≤ n →
  strnlen p n m = Ret (Z.min (Z.of_nat (length s)) n, m).
Proof.
  intros Hs Hn. unfold strnlen.
  rewrite (scan_string _ Z.of_nat Z.of_nat (λ i c, negb (c =? 0) && (Z.of_nat i <? n)) m p s 0 Hs).
  - do 2 f_equal. destruct Hs as [_ _ Hc]. clear -Hc Hn. revert n Hn.
    induction Hc as [|c s [_ Hc] _ IH]; intros n Hn; simpl; [lia|].
    rewrite (proj2 (Z.eqb_neq c 0) Hc). cbn [negb andb]. destruct (Z.ltb_spec (Z.of_nat 0) n); [|lia].
    rewrite (span_ext _ (λ i c, negb (c =? 0) && (Z.of_nat i <? n - 1))).
    + specialize (IH (n - 1) ltac:(lia)). lia.
    + intros i c'. f_equal.
      destruct (Z.ltb_spec (Z.of_nat (S i)) n), (Z.ltb_spec (Z.of_nat i) (n - 1)); lia.
  - done.
  - done.
  - intros i c Hi. run_by ltac:(apply ldb_run; by eapply str_lookup).
    destruct (_ && _); unfold mret, ST_ret; do 3 f_equal. lia.
Qed.

(** ** Comparison *)

(** The order of [strcmp]: the first difference decides, the terminator is least. *)
Fixpoint str_order (a b : bytes) : Z :=
  match a, b with
  | [], [] => 0
  | [], _ :: _ => -1
  | _ :: _, [] => 1
  | x :: a, y :: b => if x =? y then str_order a b else if x <? y then -1 else 1
  end.

Lemma str_order_eq a : ∀ b, str_order a b = 0 ↔ a = b.
Proof.
  induction a as [|x a IH]; intros [|y b]; simpl; [done..|].
  destruct (Z.eqb_spec x y) as [->|]; [rewrite IH; naive_solver|]. destruct (x <? y); naive_solver.
Qed.

Lemma str_order_antisym a : ∀ b, str_order b a = - str_order a b.
Proof.
  induction a as [|x a IH]; intros [|y b]; simpl; [done..|]. rewrite Z.eqb_sym.
  destruct (Z.eqb_spec x y); [by rewrite IH|].
  destruct (Z.ltb_spec x y), (Z.ltb_spec y x); (done || lia).
Qed.

Lemma strcmp_run m p q a b : string_at m p a → string_at m q b → strcmp p q m = Ret (str_order a b, m).
Proof.
  intros Ha Hb. unfold strcmp.
  run_by ltac:(apply assert_run, nonnull_true; destruct Ha; unfold NULL; lia).
  run_by ltac:(apply assert_run, nonnull_true; destruct Hb; unfold NULL; lia).
  destruct (wp_inv (scan (λ i, x ← ldb (p + i); y ← ldb (q + i);
    if negb (x =? 0) && (x =? y) then mret (Next (i + 1))
    else mret (Stop (if x <? y then -1 else if y <? x then 1 else 0))) 0) m
    (λ r m', r = str_order a b ∧ m' = m)) as (? & ? & Hrun & -> & ->); [|exact Hrun].
  apply (wp_scan (λ n i m', m' = m ∧ ∃ c a' b', a = c ++ a' ∧ b = c ++ b' ∧ i = Z.of_nat (length c) ∧
    n = length a')) with (n := length a).
  - intros n i ? (-> & c & a' & b' & -> & -> & -> & ->).
    pose proof (str_drop _ _ _ _ Ha) as Ha'. pose proof (str_drop _ _ _ _ Hb) as Hb'.
    assert (∀ c a' b', str_order (c ++ a') (c ++ b') = str_order a' b') as Hpre.
    { clear. induction c as [|x c IH]; [done|]. intros. simpl. by rewrite Z.eqb_refl, IH. }
    destruct Ha' as [_ Ha1 Ha2], Hb' as [_ Hb1 Hb2]. rewrite Hpre.
    pose proof (λ x, Ha1 0%nat x) as Ha0. pose proof (λ x, Hb1 0%nat x) as Hb0. rewrite Z.add_0_r in Ha0, Hb0.
    destruct a' as [|x a'], b' as [|y b']; simpl in Ha0, Hb0;
      (eapply wp_bind_run; [apply ldb_run; by apply Ha0|]);
      (eapply wp_bind_run; [apply ldb_run; by apply Hb0|]); simpl.
    + by apply wp_ret.
    + apply wp_ret. split; [|done]. apply Forall_cons in Hb2 as [[[??]?] _]. destruct y; [done..|lia].
    + apply Forall_cons in Ha2 as [[[??]?] _]. destruct (Z.eqb_spec x 0); [lia|]. simpl.
      apply wp_ret. split; [|done]. by destruct x.
    + apply Forall_cons in Ha2 as [[[??]?] _]. destruct (Z.eqb_spec x 0); [lia|]. simpl.
      destruct (Z.eqb_spec x y) as [->|]; apply wp_ret.
      * exists (length a'). split; [simpl; lia|]. split; [done|].
        exists (c ++ [y]), a', b'. rewrite <-!app_assoc, length_app. simpl. split_and!; [done..|lia|done].
      * split; [|done]. destruct (Z.ltb_spec x y); [done|]. destruct (Z.ltb_spec y x); [done|lia].
  - split; [done|]. by exists [], a, b.
  - pose proof (str_size _ _ _ Ha). lia.
Qed.

(** [memcmp] on blocks of the same size. *)
Lemma memcmp_run m p q a b : bytes_at m p a → bytes_at m q b → length a = length b →
  0 < p ∨ a = [] → 0 < q ∨ a = [] →
  memcmp p q (Z.of_nat (length a)) m = Ret (str_order a b, m).
Proof.
  intros Ha Hb Hl Hp Hq. unfold memcmp.
  assert (∀ p, 0 < p ∨ a = [] → nonnull p || (Z.of_nat (length a) =? 0) = true) as Hnn.
  { intros p' [Hp'| ->]; [|by rewrite orb_true_r]. rewrite nonnull_true by (unfold NULL; lia). done. }
  run_by ltac:(by apply assert_run, Hnn). run_by ltac:(by apply assert_run, Hnn).
  rewrite Nat2Z.id. clear Hp Hq Hnn. set (k := 0) at 1.
  enough (∀ a b p q k, bytes_at m (p + k) a → bytes_at m (q + k) b → length a = length b →
    for_loop (length a) k (λ i, x ← ldb (p + i); y ← ldb (q + i);
      mret (if x =? y then None else Some (if y <? x then 1 else -1))) m
    = Ret (if str_order a b =? 0 then None else Some (str_order a b), m)) as H.
  { rewrite (bind_run _ _ _ _ _ (H a b p q k ltac:(by unfold k; rewrite Z.add_0_r)
      ltac:(by unfold k; rewrite Z.add_0_r) Hl)).
    destruct (Z.eqb_spec (str_order a b) 0) as [->|]; done. }
  clear. induction a as [|x a IH]; intros [|y b] p q k Ha Hb Hl; try done.
  cbn [length for_loop]. assert (m !! (p + k) = Some x ∧ m !! (q + k) = Some y) as [Hx Hy].
  { split; [specialize (Ha 0%nat x)|specialize (Hb 0%nat y)]; rewrite Z.add_0_r in *; auto. }
  erewrite bind_run; [|rewrite (bind_run _ _ _ _ _ (ldb_run _ _ _ Hx)),
    (bind_run _ _ _ _ _ (ldb_run _ _ _ Hy)); done]. simpl.
  destruct (Z.eqb_spec x y) as [->|].
  - apply IH; [| |simpl in Hl; lia].
    + rewrite (bytes_at_app m (p + k) [y] a) in Ha. rewrite Z.add_assoc. apply Ha.
    + rewrite (bytes_at_app m (q + k) [y] b) in Hb. rewrite Z.add_assoc. apply Hb.
  - destruct (Z.ltb_spec x y), (Z.ltb_spec y x); simpl; (done || lia).
Qed.

(** ** Bounded copies *)

Lemma str_bytes_ok m p s : string_at m p s → Forall byte s.
Proof. intros [_ _ Hc]. eapply Forall_impl; [exact Hc|]. by intros ? []. Qed.

(** Copying [n] characters of a string and terminating them. *)
Lemma copy_prefix_run m dst src s n : string_at m src s → 0 < dst → 0 ≤ n ≤ Z.of_nat (length s) →
  mapped m dst (n + 1) → dst ≤ src ∨ src + n ≤ dst →
  (_ ← memcpy dst src n; stb (dst + n) 0) m = Ret ((), write dst (take (Z.to_nat n) s ++ [0]) m).
Proof.
  intros Hs Hd Hn Hm Hno. pose proof Hs as [Hp Hb _].
  assert (Z.of_nat (length (take (Z.to_nat n) s)) = n) as Hlen by (rewrite length_take; lia).
  erewrite bind_run.
  2: { apply (memcpy_run m dst src (take (Z.to_nat n) s)); [done| | | | | |done].
       - apply Forall_take. by eapply str_bytes_ok.
       - rewrite <-(take_drop (Z.to_nat n) s), <-app_assoc in Hb. by apply bytes_at_app in Hb as [? _].
       - intros i Hi. apply Hm. lia.
       - left. apply nonnull_true. unfold NULL. lia.
       - left. apply nonnull_true. unfold NULL. lia. }
  rewrite stb_run; [by rewrite write_snoc, Hlen|done|].
  rewrite write_out by lia. apply Hm. lia.
Qed.

Lemma string_at_write m p s : 0 < p → Forall (λ c, byte c ∧ c ≠ 0) s → string_at (write p (s ++ [0]) m) p s.
Proof. intros Hp Hs. split; [done|apply bytes_at_write|done]. Qed.

(** The characters [strlcpy] and [strlcat] leave room for. *)
Lemma strlcpy_run m dst src s size : string_at m src s → 0 < dst → 0 < size → mapped m dst size →
  dst ≤ src ∨ src + Z.of_nat (length s) ≤ dst →
  strlcpy dst src size m =
    Ret (Z.of_nat (length s), write dst (take (Z.to_nat (size - 1)) s ++ [0]) m).
Proof.
  intros Hs Hd Hz Hm Hno. pose proof Hs as [Hp _ _]. unfold strlcpy.
  run_by ltac:(apply assert_run, nonnull_true; unfold NULL; lia).
  run_by ltac:(apply assert_run, nonnull_true; unfold NULL; lia).
  run_by ltac:(by apply strlen_run). rewrite (proj2 (Z.ltb_lt 0 size)) by lia. cbv zeta.
  set (n := if Z.of_nat (length s) <? size - 1 then Z.of_nat (length s) else size - 1).
  assert (n = Z.min (Z.of_nat (length s)) (size - 1)) as Hn.
  { unfold n. destruct (Z.ltb_spec (Z.of_nat (length s)) (size - 1)); lia. }
  erewrite bind_run; [|apply (copy_prefix_run m dst src s n Hs); [lia|lia| |lia]].
  - unfold mret, ST_ret. do 4 f_equal.
    destruct (decide (size - 1 ≤ Z.of_nat (length s))); [do 2 f_equal; lia|].
    by rewrite !take_ge by lia.
  - intros i Hi. apply Hm. lia.
Qed.

Lemma strlcat_run m dst src s d size : string_at m src s → string_at m dst d →
  Z.of_nat (length d) < size → mapped m dst size →
  dst + size ≤ src ∨ src + Z.of_nat (length s) < dst →
  strlcat dst src size m =
    Ret (Z.of_nat (length s) + Z.of_nat (length d),
         write dst (take (Z.to_nat (size - 1)) (d ++ s) ++ [0]) m).
Proof.
  intros Hs Hd Hz Hm Hno. pose proof Hs as [Hp _ _]. pose proof Hd as [Hp' Hdb _]. unfold strlcat.
  run_by ltac:(apply assert_run, nonnull_true; unfold NULL; lia).
  run_by ltac:(apply assert_run, nonnull_true; unfold NULL; lia).
  run_by ltac:(by apply strlen_run). run_by ltac:(by apply strlen_run).
  rewrite (proj2 (Z.ltb_lt 0 size)), (proj2 (Z.ltb_lt (Z.of_nat (length d)) size)) by lia. simpl.
  set (n := if Z.of_nat (length s) <? size - Z.of_nat (length d) - 1 then Z.of_nat (length s)
    else size - Z.of_nat (length d) - 1).
  assert (n = Z.min (Z.of_nat (length s)) (size - Z.of_nat (length d) - 1)) as Hn.
  { unfold n. destruct (Z.ltb_spec (Z.of_nat (length s)) (size - Z.of_nat (length d) - 1)); lia. }
  erewrite bind_run; [|apply (copy_prefix_run m (dst + Z.of_nat (length d)) src s n Hs); [lia|lia| |lia]].
  - unfold mret, ST_ret. do 2 f_equal.
    rewrite take_app, (take_ge d) by lia. rewrite <-app_assoc.
    rewrite (write_app d), (write_same _ d).
    + f_equal. f_equal.
      destruct (decide (size - Z.of_nat (length d) - 1 ≤ Z.of_nat (length s))); [f_equal; lia|].
      by rewrite !take_ge by lia.
    + apply bytes_at_write_other; [lia|]. by apply bytes_at_app in Hdb as [? _].
  - intros i Hi. rewrite <-Z.add_assoc. apply Hm. lia.
Qed.

(** ** Tokens *)

Section words.
Context (d : Z → bool).

(** The word a list starts with and the words after it. *)
Fixpoint split_words (s : bytes) : bytes * list bytes :=
  match s with
  | [] => ([], [])
  | c :: s =>
      let '(w, ws) := split_words s in
      if d c then ([], if w is [] then ws else w :: ws) else (c :: w, ws)
  end.
(** The maximal nonempty runs of characters that are not delimiters. *)
Definition words (s : bytes) : list bytes :=
  let '(w, ws) := split_words s in if w is [] then ws else w :: ws.

Lemma words_skip pre s : Forall (λ c, d c = true) pre → words (pre ++ s) = words s.
Proof.
  induction 1 as [|c pre Hc _ IH]; [done|]. rewrite <-IH. unfold words. simpl. rewrite Hc.
  by destruct (split_words (pre ++ s)) as [[] ?].
Qed.

Lemma split_words_word w s : Forall (λ c, d c = false) w → (s = [] ∨ ∃ c s', s = c :: s' ∧ d c = true) →
  split_words (w ++ s) = (w, words s).
Proof.
  intros Hw Hs. induction Hw as [|c w Hc _ IH]; simpl; [|by rewrite IH, Hc].
  destruct Hs as [->|(c & s' & -> & Hc)]; [done|]. unfold words. simpl. rewrite Hc.
  by destruct (split_words s') as [[] ?].
Qed.

Lemma words_word w s : w ≠ [] → Forall (λ c, d c = false) w →
  (s = [] ∨ ∃ c s', s = c :: s' ∧ d c = true) → words (w ++ s) = w :: words s.
Proof. intros Hne Hw Hs. unfold words at 1. rewrite split_words_word by done. by destruct w. Qed.

(** A list is delimiters only, or delimiters, a word, and the rest. *)
Lemma words_view s :
  (Forall (λ c, d c = true) s ∧ words s = []) ∨
  ∃ pre w rest, s = pre ++ w ++ rest ∧ Forall (λ c, d c = true) pre ∧ w ≠ [] ∧
    Forall (λ c, d c = false) w ∧ (rest = [] ∨ ∃ c s', rest = c :: s' ∧ d c = true) ∧
    words s = w :: words rest.
Proof.
  induction s as [|c s IH]; [by left|].
  destruct (d c) eqn:Hc.
  - destruct IH as [[Hs Hw]|(pre & w & rest & -> & Hpre & Hne & Hw & Hrest & _)].
    + left. split; [by constructor|]. rewrite <-Hw. apply (words_skip [c] s). by constructor.
    + right. exists (c :: pre), w, rest. split_and!; [done|by constructor|done..|].
      etrans; [apply (words_skip (c :: pre)); by constructor|by apply words_word].
  - right. destruct s as [|c' s].
    { exists [], [c], []. split_and!; [done|constructor|done|by repeat constructor|by left|].
      apply (words_word [c] []); [done|by constructor|by left]. }
    destruct (d c') eqn:Hc'.
    + exists [], [c], (c' :: s). split_and!; [done|constructor|done|by repeat constructor|naive_solver|].
      apply (words_word [c]); [done|by constructor|naive_solver].
    + destruct IH as [[Hs _]|(pre & w & rest & E & Hpre & Hne & Hw & Hrest & _)].
      { apply Forall_cons in Hs as [? _]. congruence. }
      destruct pre as [|x pre].
      2: { injection E as <- _. apply Forall_cons in Hpre as [? _]. congruence. }
      simpl in E. rewrite E. exists [], (c :: w), rest.
      split_and!; [done|constructor|done|by constructor|done|].
      by apply (words_word (c :: w)); [|constructor|].
Qed.
End words.

Section strtok.
Context (m : mem) (p q : addr) (s ds : bytes).
Context (Hs : string_at m p s) (Hds : string_at m q ds).
Abbreviation delim := (mem_char ds).

Lemma delim_zero : delim 0 = true.
Proof. apply bool_decide_eq_true. set_solver. Qed.

(** The two loops. *)
Lemma strtok_skip_step i c : (s ++ [0]) !! i = Some c →
  (x ← ldb (p + Z.of_nat i); f ← strchr q x;
   if nonnull f then if x =? 0 then mret (Stop (inr (p + Z.of_nat i)))
                     else mret (Next (p + Z.of_nat i + 1))
   else mret (Stop (inl (p + Z.of_nat i)))) m
  = Ret (if negb (c =? 0) && delim c then Next (p + Z.of_nat (S i))
         else Stop (if c =? 0 then inr (p + Z.of_nat i) else inl (p + Z.of_nat i)), m).
Proof.
  intros Hi. run_by ltac:(apply ldb_run; exact (str_lookup _ _ _ _ _ Hs Hi)).
  destruct (strchr_member m q ds c Hds (str_byte _ _ _ _ _ Hs Hi)) as (r & Hrun & Hr).
  run_by ltac:(exact Hrun). rewrite Hr. destruct (Z.eqb_spec c 0) as [->|].
  - by rewrite delim_zero.
  - destruct (delim c); simpl; unfold mret, ST_ret; do 3 f_equal; lia.
Qed.

Lemma strtok_token_step i c : (s ++ [0]) !! i = Some c →
  (x ← ldb (p + Z.of_nat i); f ← strchr q x;
   if nonnull f then mret (Stop (p + Z.of_nat i)) else mret (Next (p + Z.of_nat i + 1))) m
  = Ret (if negb (delim c) then Next (p + Z.of_nat (S i)) else Stop (p + Z.of_nat i), m).
Proof.
  intros Hi. run_by ltac:(apply ldb_run; exact (str_lookup _ _ _ _ _ Hs Hi)).
  destruct (strchr_member m q ds c Hds (str_byte _ _ _ _ _ Hs Hi)) as (r & Hrun & Hr).
  run_by ltac:(exact Hrun). rewrite Hr. destruct (delim c); simpl; [done|].
  unfold mret, ST_ret. do 3 f_equal. lia.
Qed.

Lemma strtok_skip_run :
  scan (λ s, x ← ldb s; f ← strchr q x;
    if nonnull f then if x =? 0 then mret (Stop (inr s)) else mret (Next (s + 1))
    else mret (Stop (inl s))) p m
  = Ret (let i := span_of (λ c, negb (c =? 0) && delim c) s in
         if (i <? length s)%nat then inl (p + Z.of_nat i) else inr (p + Z.of_nat i), m).
Proof.
  rewrite (scan_string _ (λ i, p + Z.of_nat i)
    (λ i, if (i <? length s)%nat then inl (p + Z.of_nat i) else inr (p + Z.of_nat i))
    (λ _ c, negb (c =? 0) && delim c) m p s p Hs); [done|lia|done|].
  intros i c Hi. rewrite (strtok_skip_step i c Hi). do 2 f_equal. destruct (_ && _); [done|]. f_equal.
  destruct Hs as [_ _ Hc]. rewrite Forall_lookup in Hc. apply lookup_app_Some in Hi as [Hi|[Hl Hi]].
  - pose proof (lookup_lt_Some _ _ _ Hi). apply Hc in Hi as [_ Hi].
    by rewrite (proj2 (Nat.ltb_lt _ _)), (proj2 (Z.eqb_neq _ _) Hi) by done.
  - apply list_elem_of_lookup_2, list_elem_of_singleton in Hi as ->. by rewrite (proj2 (Nat.ltb_ge _ _)).
Qed.

Lemma strtok_token_run :
  scan (λ s, x ← ldb s; f ← strchr q x;
    if nonnull f then mret (Stop s) else mret (Next (s + 1))) p m
  = Ret (p + Z.of_nat (span_of (λ c, negb (delim c)) s), m).
Proof.
  apply (scan_string _ (λ i, p + Z.of_nat i) (λ i, p + Z.of_nat i) (λ _ c, negb (delim c)) m p s p Hs);
    [lia|by rewrite delim_zero|]. intros i c Hi. apply (strtok_token_step i c Hi).
Qed.
End strtok.

Section strtok_calls.
Context (m : mem) (p q a b : addr) (ds : bytes) (Hds : string_at m q ds).
Context (Hp : (if nonnull a then a else b) = p).
Abbreviation delim := (mem_char ds).

Lemma delims_go s : Forall (λ c, byte c ∧ c ≠ 0) s → Forall (λ c, delim c = true) s →
  Forall (λ c, negb (c =? 0) && delim c = true) s.
Proof.
  intros H1 H2. rewrite Forall_forall in *. intros c Hc. rewrite (H2 c Hc), andb_true_r.
  apply negb_true_iff, Z.eqb_neq. by apply H1.
Qed.

(** The assertions of [strtok_r], and where it starts. *)
Ltac strtok_start Hp0 :=
  unfold strtok_r; cbv zeta;
  run_by ltac:(apply assert_run, nonnull_true; destruct Hds; unfold NULL; lia);
  rewrite Hp; run_by ltac:(apply assert_run, nonnull_true; unfold NULL; lia).

Lemma strtok_r_end s : string_at m p s → Forall (λ c, delim c = true) s →
  strtok_r a q b m = Ret ((NULL, p + Z.of_nat (length s)), m).
Proof.
  intros Hs Hd. pose proof Hs as [Hp0 _ Hch]. strtok_start Hp0.
  run_by ltac:(by apply (strtok_skip_run m p q s ds)). cbv zeta.
  assert (span_of (λ c, negb (c =? 0) && delim c) s = length s) as ->; [|by rewrite Nat.ltb_irrefl].
  rewrite <-(app_nil_r s) at 1. rewrite span_of_app by (by apply delims_go).
  unfold span_of. simpl. lia.
Qed.

(** What a call that finds the word [w] leaves in memory and in [*save_ptr]. *)
Definition after_word (e : addr) (rest : bytes) : mem * addr :=
  if rest is [] then (m, e) else (<[e := 0]> m, e + 1).

Lemma strtok_r_word pre w rest : string_at m p (pre ++ w ++ rest) →
  Forall (λ c, delim c = true) pre → w ≠ [] → Forall (λ c, delim c = false) w →
  (rest = [] ∨ ∃ c s', rest = c :: s' ∧ delim c = true) →
  let tok := p + Z.of_nat (length pre) in
  let '(m', save) := after_word (tok + Z.of_nat (length w)) rest in
  strtok_r a q b m = Ret ((tok, save), m').
Proof.
  intros Hs Hpre Hne Hw Hrest tok. pose proof Hs as [Hp0 _ Hch].
  assert (strtok_r a q b m = (x ← ldb (tok + Z.of_nat (length w));
    if negb (x =? 0) then stb (tok + Z.of_nat (length w)) 0;; mret (tok, tok + Z.of_nat (length w) + 1)
    else mret (tok, tok + Z.of_nat (length w))) m) as ->.
  { strtok_start Hp0.
    rewrite (bind_run _ _ _ _ _ (strtok_skip_run m p q _ ds Hs Hds)). cbv zeta.
    assert (span_of (λ c, negb (c =? 0) && delim c) (pre ++ w ++ rest) = length pre) as ->.
    { rewrite span_of_app by (apply delims_go; [by apply Forall_app in Hch as [? _]|done]).
      destruct w as [|c w]; [done|]. simpl ((c :: w) ++ rest). rewrite span_of_cons.
      apply Forall_cons in Hw as [Hc _]. rewrite Hc, andb_false_r. lia. }
    rewrite (proj2 (Nat.ltb_lt _ _)) by (rewrite !length_app; destruct w; [done|simpl; lia]).
    apply str_drop in Hs. fold tok in Hs |- *.
    rewrite (bind_run _ _ _ _ _ (strtok_token_run m tok q _ ds Hs Hds)).
    assert (span_of (λ c, negb (delim c)) (w ++ rest) = length w) as ->; [|done].
    rewrite span_of_app by (eapply Forall_impl; [exact Hw|]; by intros ? ->).
    destruct Hrest as [->|(c & s' & -> & Hc)]; [unfold span_of; simpl; lia|].
    rewrite span_of_cons, Hc. simpl. lia. }
  apply str_drop in Hs. fold tok in Hs. apply str_drop in Hs. destruct Hs as [_ Hb Hr].
  pose proof (λ x, Hb 0%nat x) as H0. rewrite Z.add_0_r in H0. unfold after_word.
  destruct rest as [|c s']; simpl in H0; (run_by ltac:(apply ldb_run; by apply H0)); [done|].
  apply Forall_cons in Hr as [[_ Hc] _]. rewrite (proj2 (Z.eqb_neq c 0) Hc). simpl.
  by run_by ltac:(apply stb_run; [done|by rewrite (H0 c)]).
Qed.
End strtok_calls.

(** The loop of the usage example in string.c, with the tokens it visits. *)
Definition tokenize (s delimiters : addr) : M (list addr) :=
  first ← strtok_r s delimiters NULL;
  scan (λ '((token, save), acc),
    if nonnull token then
      next ← strtok_r NULL delimiters save; mret (Next (next, acc ++ [token]))
    else mret (Stop acc)) (first, []).

(** Memory that agrees with [m] outside [lo, hi). *)
Definition same_outside (lo hi : Z) (m m' : mem) : Prop := ∀ a, ¬ lo ≤ a < hi → m' !! a = m !! a.

Lemma same_outside_refl lo hi m : same_outside lo hi m m.
Proof. done. Qed.
Lemma same_outside_trans lo hi m1 m2 m3 :
  same_outside lo hi m1 m2 → same_outside lo hi m2 m3 → same_outside lo hi m1 m3.
Proof. intros H1 H2 a Ha. by rewrite H2, H1. Qed.

Lemma string_at_same lo hi m m' p s : same_outside lo hi m m' →
  p + Z.of_nat (length s) < lo ∨ hi ≤ p ∨ hi ≤ lo → string_at m p s → string_at m' p s.
Proof.
  intros Hsame Hd [Hp Hb Hc]. split; [done| |done]. intros i b Hi.
  pose proof (lookup_lt_Some _ _ _ Hi) as Hlt. rewrite length_app in Hlt. simpl in Hlt.
  rewrite Hsame by lia. by apply Hb.
Qed.

(** The state after a word is found: the word is a string, and so is what is left. *)
Lemma after_word_spec m p w rest : string_at m p (w ++ rest) →
  let '(m', save) := after_word m (p + Z.of_nat (length w)) rest in
  string_at m' p w ∧ string_at m' save (tail rest) ∧ p + Z.of_nat (length w) ≤ save ∧
  (p + Z.of_nat (length w) < save ∨ tail rest = []) ∧
  save + Z.of_nat (length (tail rest)) = p + Z.of_nat (length (w ++ rest)) ∧
  same_outside p (p + Z.of_nat (length (w ++ rest))) m m' ∧ (size m' = size m)%nat.
Proof.
  intros Hs. pose proof Hs as [Hp Hb Hc]. apply Forall_app in Hc as [Hcw Hcr].
  pose proof (str_drop _ _ _ _ Hs) as Hr. unfold after_word. destruct rest as [|c rest].
  - rewrite app_nil_r in *. simpl. split_and!; [done|done|lia|by right|simpl; lia|done|done].
  - set (e := p + Z.of_nat (length w)) in *. rewrite length_app. simpl.
    assert (m !! e = Some c) as He.
    { destruct Hr as [_ Hb' _]. specialize (Hb' 0%nat c eq_refl). by rewrite Z.add_0_r in Hb'. }
    split_and!; [..|lia|left; lia|lia| |by apply map_size_insert_Some; exists c].
    + split; [done| |done]. apply bytes_at_app. rewrite <-app_assoc, bytes_at_app in Hb. split.
      * intros i b Hi. pose proof (lookup_lt_Some _ _ _ Hi). rewrite lookup_insert_ne by lia. by apply Hb.
      * intros [|i] b [= <-]. rewrite Z.add_0_r. apply lookup_insert_eq.
    + apply (string_at_same e (e + 1) m); [|lia|].
      * intros a Ha. apply lookup_insert_ne. lia.
      * by apply (str_drop m e [c] rest).
    + intros a Ha. apply lookup_insert_ne. lia.
Qed.

Lemma tail_words d s : s = [] ∨ (∃ c s', s = c :: s' ∧ d c = true) → words d (tail s) = words d s.
Proof. intros [->|(c & s' & -> & Hc)]; [done|]. symmetry. apply (words_skip d [c]). by constructor. Qed.

(** One call of [strtok_r] from the position [p]. *)
Lemma strtok_step m p q a b s ds : string_at m q ds → string_at m p s →
  (if nonnull a then a else b) = p →
  ∃ tok save m', strtok_r a q b m = Ret ((tok, save), m') ∧ size m' = size m ∧
    same_outside p (p + Z.of_nat (length s)) m m' ∧
    match words (mem_char ds) s with
    | [] => tok = NULL
    | w :: ws => p ≤ tok ∧ string_at m' tok w ∧ ∃ rest, string_at m' save rest ∧
        words (mem_char ds) rest = ws ∧ (length rest < length s)%nat ∧ p ≤ save ∧
        save + Z.of_nat (length rest) = p + Z.of_nat (length s) ∧
        (tok + Z.of_nat (length w) < save ∨ rest = [])
    end.
Proof.
  intros Hds Hs Hp.
  destruct (words_view (mem_char ds) s) as [[Hd ->]|(pre & w & rest & -> & Hpre & Hne & Hw & Hrest & ->)].
  { exists NULL. eexists _, _. by split; [eapply strtok_r_end|]. }
  pose proof (strtok_r_word m p q a b ds Hds Hp pre w rest Hs Hpre Hne Hw Hrest) as Hrun.
  apply str_drop in Hs. pose proof (after_word_spec m _ w rest Hs) as Haft.
  cbv zeta in Hrun. destruct (after_word _ _ rest) as [m' save].
  destruct Haft as (Hw' & Hsv & Hle & Hlt & Hend & Hsame & Hsize).
  exists (p + Z.of_nat (length pre)), save, m'. split; [done|]. split; [done|].
  rewrite !length_app in *.
  assert (0 < length w)%nat by (destruct w; [done|simpl; lia]).
  split; [intros x Hx; apply Hsame; lia|]. split; [lia|]. split; [done|]. exists (tail rest).
  rewrite tail_words by done. split_and!; (done || lia).
Qed.

Lemma tokenize_spec m p q s ds : string_at m p s → string_at m q ds →
  q + Z.of_nat (length ds) < p ∨ p + Z.of_nat (length s) ≤ q →
  ∃ m' ts, tokenize p q m = Ret (ts, m') ∧ Forall2 (string_at m') ts (words (mem_char ds) s) ∧
    same_outside p (p + Z.of_nat (length s)) m m'.
Proof.
  intros Hs Hds Hdj. set (hi := p + Z.of_nat (length s)). set (W := words (mem_char ds)).
  assert (wp (tokenize p q) m (λ ts m', Forall2 (string_at m') ts (W s) ∧ same_outside p hi m m'))
    as (ts & m' & ? & ? & ?)%wp_inv; [|by exists m', ts].
  unfold tokenize. pose proof Hs as [Hp0 _ _].
  destruct (strtok_step m p q p NULL s ds Hds Hs) as (tok & save & m1 & Hrun & Hsz & Hsame & Hres);
    [by rewrite nonnull_true by (unfold NULL; lia)|].
  eapply wp_bind_run; [exact Hrun|]. cbv beta.
  (* The words [ds0] are collected; [ws] is what is left. *)
  apply (wp_scan (λ n '((tok, save), acc) m1, same_outside p hi m m1 ∧ ∃ done ws,
    W s = done ++ ws ∧ Forall2 (string_at m1) acc done ∧
    match ws with
    | [] => tok = NULL
    | w :: ws => string_at m1 tok w ∧ ∃ rest, string_at m1 save rest ∧ W rest = ws ∧ p ≤ save ∧
        (S (length rest) = n)%nat ∧ save + Z.of_nat (length rest) = hi ∧
        Forall2 (λ x u, x + Z.of_nat (length u) < save ∨ rest = []) (acc ++ [tok]) (done ++ [w])
    end)) with (n := match W s with [] => 0%nat | _ => Z.to_nat (hi - save + 1) end).
  - clear -Hs Hds Hdj Hp0. intros n [[tok save] acc] m1 (Hsame & dn & ws & HW & Hacc & Hws).
    destruct ws as [|w ws].
    { subst tok. apply wp_ret. by rewrite HW, app_nil_r. }
    destruct Hws as (Htok & rest & Hrest & HWr & Hpsave & <- & Hhi & Hlt).
    rewrite nonnull_true by (destruct Htok; unfold NULL; lia).
    assert (string_at m1 q ds) as Hds1 by (apply (string_at_same p hi m); [done|lia|done]).
    destruct (strtok_step m1 save q NULL save rest ds Hds1 Hrest eq_refl)
      as (tok' & save' & m2 & Hrun & _ & Hsame' & Hres).
    eapply wp_bind_run; [exact Hrun|]. apply wp_ret.
    assert (same_outside p hi m m2) as Hsame2.
    { eapply same_outside_trans; [done|]. intros x Hx. apply Hsame'. lia. }
    assert (Forall2 (string_at m2) (acc ++ [tok]) (dn ++ [w])) as Hacc2.
    { eapply Forall2_impl with (P := λ x u, string_at m1 x u ∧
        (x + Z.of_nat (length u) < save ∨ rest = [])).
      - apply Forall2_both; [|done]. apply Forall2_app; [done|by constructor].
      - intros x u [Hx Hxlt]. eapply string_at_same; [exact Hsame'| |done].
        destruct Hxlt as [?| ->]; [lia|]. simpl. lia. }
    fold W in Hres. rewrite HWr in Hres. exists (match ws with [] => 0%nat | _ => Z.to_nat (hi - save' + 1) end).
    destruct ws as [|w' ws].
    { split; [lia|]. split; [done|]. exists (dn ++ [w]), []. rewrite HW, <-app_assoc. by simpl. }
    destruct Hres as (? & Htok' & rest' & Hrest' & HWr' & Hlen & Hps & Hend & Hlt').
    split; [lia|]. split; [done|]. exists (dn ++ [w]), (w' :: ws). rewrite HW, <-app_assoc.
    split; [done|]. split; [done|]. split; [done|]. exists rest'.
    split_and!; [done..|lia|lia|lia|]. apply Forall2_app; [|by constructor].
    eapply Forall2_impl; [exact Hlt|]. intros x u [?| ->]; [|simpl in *; lia].
    destruct rest'; [by right|left; lia].
  - split; [done|]. exists [], (W s). split; [done|]. split; [constructor|].
    fold W in Hres. destruct (W s) as [|w ws]; [done|].
    destruct Hres as (? & Htok & rest & Hrest & HWr & Hlen & Hps & Hend & Hlt).
    split; [done|]. exists rest. split_and!; [done..|lia|lia|]. by apply Forall2_cons_2.
  - pose proof (str_size _ _ _ Hs). fold W in Hres. destruct (W s) as [|w ws]; [lia|].
    destruct Hres as (? & Htok & rest & Hrest & HWr & Hlen & Hps & Hend & Hlt). lia.
Qed.

(** ** Occurrences *)

Definition occurs_at (h n : bytes) (i : nat) : Prop := ∃ s1 s2, h = s1 ++ n ++ s2 ∧ length s1 = i.

Lemma occurs_at_take h n i : (i + length n ≤ length h)%nat →
  occurs_at h n i ↔ take (length n) (drop i h) = n.
Proof.
  intros Hl. split.
  - intros (s1 & s2 & -> & <-). by rewrite drop_app_length, take_app_length.
  - intros E. exists (take i h), (drop (length n) (drop i h)). rewrite length_take.
    split; [|lia]. rewrite <-E at 1. by rewrite !take_drop.
Qed.

Lemma strstr_spec m p q h n : string_at m p h → string_at m q n →
  ∃ r, strstr p q m = Ret (r, m) ∧
    ((∃ i, r = p + Z.of_nat i ∧ occurs_at h n i ∧ ∀ j, (j < i)%nat → ¬ occurs_at h n j) ∨
     (r = NULL ∧ ∀ i, ¬ occurs_at h n i)).
Proof.
  intros Hh Hn. pose proof Hh as [Hp Hhb _]. pose proof Hn as [Hq Hnb _].
  apply bytes_at_app in Hhb as [Hhb _]. apply bytes_at_app in Hnb as [Hnb _].
  assert (∀ i, occurs_at h n i → (i + length n ≤ length h)%nat) as Hocc.
  { intros i (s1 & s2 & -> & <-). rewrite !length_app. lia. }
  assert (wp (strstr p q) m (λ r m', m' = m ∧
    ((∃ i, r = p + Z.of_nat i ∧ occurs_at h n i ∧ ∀ j, (j < i)%nat → ¬ occurs_at h n j) ∨
     (r = NULL ∧ ∀ i, ¬ occurs_at h n i)))) as (r & ? & ? & -> & ?)%wp_inv; [|by exists r].
  unfold strstr. wp_bind_by ltac:(by apply strlen_run). wp_bind_by ltac:(by apply strlen_run).
  rewrite Z.geb_leb. destruct (Z.leb_spec (Z.of_nat (length n)) (Z.of_nat (length h))).
  2: { apply wp_ret. split; [done|]. right. split; [done|]. intros i Hi%Hocc. lia. }
  apply wp_bind. eapply wp_mono; [|intros r m' H'; apply wp_ret; exact H'].
  apply (wp_for_loop (λ i m', m' = m ∧ ∀ j, Z.of_nat j < i → ¬ occurs_at h n j)).
  - intros i ? Hi (-> & Hno). set (w := take (length n) (drop (Z.to_nat i) h)).
    assert (length w = length n) as Hw by (unfold w; rewrite length_take, length_drop; lia).
    assert (bytes_at m (p + i) w) as Hwb.
    { rewrite <-(take_drop (Z.to_nat i) h) in Hhb. apply bytes_at_app in Hhb as [_ Hhb].
      rewrite length_take, Nat.min_l, Z2Nat.id in Hhb by lia.
      rewrite <-(take_drop (length n) (drop _ h)) in Hhb. by apply bytes_at_app in Hhb as [? _]. }
    rewrite <-Hw. wp_bind_by ltac:(apply (memcmp_run m (p + i) q w n); [done..|left; lia|left; lia]).
    apply wp_ret. destruct (Z.eqb_spec (str_order w n) 0) as [E|E].
    + split; [done|]. left. exists (Z.to_nat i). split; [simpl; lia|]. split.
      * apply str_order_eq in E. apply occurs_at_take; [lia|done].
      * intros j Hj. apply Hno. lia.
    + split; [done|]. intros j Hj. destruct (decide (j = Z.to_nat i)) as [->|]; [|apply Hno; lia].
      rewrite occurs_at_take by lia. intros E2. apply E. by apply str_order_eq.
  - intros ? [-> Hno]. split; [done|]. right. split; [done|]. intros i Hi. pose proof (Hocc i Hi).
    apply (Hno i); [lia|done].
  - split; [done|]. intros j Hj. lia.
Qed.

Lemma memchr_spec m p bs c : bytes_at m p bs → 0 < p → byte c →
  ∃ r, memchr p c (Z.of_nat (length bs)) m = Ret (r, m) ∧
    ((∃ i, r = p + Z.of_nat i ∧ bs !! i = Some c ∧ c ∉ take i bs) ∨ (r = NULL ∧ c ∉ bs)).
Proof.
  intros Hb Hp Hc.
  assert (wp (memchr p c (Z.of_nat (length bs))) m (λ r m', m' = m ∧
    ((∃ i, r = p + Z.of_nat i ∧ bs !! i = Some c ∧ c ∉ take i bs) ∨ (r = NULL ∧ c ∉ bs))))
    as (r & ? & ? & -> & ?)%wp_inv; [|by exists r].
  unfold memchr. rewrite (wrap_small 8 c) by done.
  wp_bind_by ltac:(apply assert_run; rewrite nonnull_true by (unfold NULL; lia); done).
  apply wp_bind. eapply wp_mono; [|intros r m' H'; apply wp_ret; exact H'].
  apply (wp_for_loop (λ i m', m' = m ∧ c ∉ take (Z.to_nat i) bs)).
  - intros i ? Hi (-> & Hno). destruct (lookup_lt_is_Some_2 bs (Z.to_nat i)) as [b Hbi]; [lia|].
    eapply wp_bind_run; [apply ldb_run; apply Hb in Hbi; by rewrite Z2Nat.id in Hbi by lia|].
    apply wp_ret. destruct (Z.eqb_spec b c) as [->|].
    + split; [done|]. left. exists (Z.to_nat i). rewrite Z2Nat.id by lia. done.
    + split; [done|]. rewrite Z2Nat.inj_add, Nat.add_1_r, (take_S_r _ _ b) by (done || lia).
      rewrite elem_of_app, list_elem_of_singleton. naive_solver.
  - intros ? [-> Hno]. split; [done|]. right. rewrite take_ge in Hno by lia. done.
  - split; [done|]. simpl. apply not_elem_of_nil.
Qed.

(** ** The contracts *)

(** C17: Calling [strtok_r] until it answers a null pointer, as the usage example in
    string.c does, visits exactly the maximal runs of non-delimiter characters of the
    string, in order: the loop ends, each token it returned is a null-terminated string
    equal to its word, and memory outside the string is unchanged. *)
Theorem strtok_r_tokens m p q s ds : string_at m p s → string_at m q ds →
  q + Z.of_nat (length ds) < p ∨ p + Z.of_nat (length s) ≤ q →
  ∃ m' ts, tokenize p q m = Ret (ts, m') ∧ Forall2 (string_at m') ts (words (mem_char ds) s) ∧
    same_outside p (p + Z.of_nat (length s)) m m'.
Proof. apply tokenize_spec. Qed.

Lemma strtok_r_tokens_witness :
  let s := of_string "  String to  tokenize. " in
  let m := write 100 (s ++ [0]) (write 200 [32; 0] ∅) in
  ∃ m' ts, tokenize 100 200 m = Ret (ts, m') ∧
    Forall2 (string_at m') ts (words (mem_char [32]) s) ∧
    same_outside 100 (100 + Z.of_nat (length s)) m m'.
Proof. apply (strtok_r_tokens _ 100 200); [by_evaluation|by_evaluation|right; by vm_compute]. Defined.

(** The words of the witness are the ones the comment in string.c prints. *)
Example words_example :
  words (mem_char [32]) (of_string "  String to  tokenize. ") =
    of_string <$> ["String"; "to"; "tokenize."]%string.
Proof. by vm_compute. Qed.

(** [memmove] copies a block to any destination, overlapping or not: the destination
    holds the bytes the source held before, and nothing else changes.  The value it returns
    is the destination only on the backward path; moving to a lower address it returns the
    end of the destination. *)
Theorem memmove_correct m dst src bs : Forall byte bs → bytes_at m src bs →
  mapped m dst (Z.of_nat (length bs)) → 0 < dst → 0 < src →
  memmove dst src (Z.of_nat (length bs)) m =
    Ret (if dst <? src then dst + Z.of_nat (length bs) else dst, write dst bs m).
Proof.
  intros. apply memmove_run; try done; left; apply nonnull_true; unfold NULL; lia.
Qed.

Lemma memmove_correct_witness :
  let m := write 100 [1; 2; 3; 4; 5] ∅ in
  memmove 102 100 3 m = Ret (102, write 102 [1; 2; 3] m).
Proof.
  apply (memmove_correct (write 100 [1; 2; 3; 4; 5] ∅) 102 100 [1; 2; 3]);
    [by_evaluation|by_evaluation|by_evaluation|lia|lia].
Defined.

(** [strlcat] on a buffer of [size] bytes that holds a string leaves the first
    [size - 1] characters of the concatenation, null terminated, in it, writes nothing
    else, and returns the length of the whole concatenation. *)
Theorem strlcat_correct m dst src s d size : string_at m src s → string_at m dst d →
  Z.of_nat (length d) < size → mapped m dst size →
  dst + size ≤ src ∨ src + Z.of_nat (length s) < dst →
  ∃ m', strlcat dst src size m = Ret (Z.of_nat (length (d ++ s)), m') ∧
    string_at m' dst (take (Z.to_nat (size - 1)) (d ++ s)) ∧ same_outside dst (dst + size) m m'.
Proof.
  intros Hs Hd Hz Hm Hno. eexists. rewrite (strlcat_run m dst src s d) by done.
  split; [by rewrite length_app, Nat2Z.inj_add, Z.add_comm|].
  pose proof Hs as [_ _ Hcs]. pose proof Hd as [Hp _ Hcd]. split.
  - apply string_at_write; [done|]. by apply Forall_take, Forall_app.
  - intros a Ha. apply write_out. rewrite length_app, length_take. simpl. lia.
Qed.

Lemma strlcat_correct_witness :
  let m := write 100 (of_string "foo" ++ [0; 0; 0]) (write 200 (of_string "barbaz" ++ [0]) ∅) in
  ∃ m', strlcat 100 200 6 m = Ret (9, m') ∧
    string_at m' 100 (take 5 (of_string "foo" ++ of_string "barbaz")) ∧ same_outside 100 (100 + 6) m m'.
Proof.
  apply (strlcat_correct _ 100 200 (of_string "barbaz") (of_string "foo") 6);
    [by_evaluation|by_evaluation|by vm_compute|by_evaluation|left; lia].
Defined.

(** [strstr] answers the first occurrence of the needle, and a null pointer only when
    there is none. *)
Theorem strstr_correct m p q h n : string_at m p h → string_at m q n →
  ∃ r, strstr p q m = Ret (r, m) ∧
    ((∃ i, r = p + Z.of_nat i ∧ occurs_at h n i ∧ ∀ j, (j < i)%nat → ¬ occurs_at h n j) ∨
     (r = NULL ∧ ∀ i, ¬ occurs_at h n i)).
Proof. apply strstr_spec. Qed.

Lemma strstr_correct_witness :
  let h := of_string "banana" in let n := of_string "nan" in
  let m := write 100 (h ++ [0]) (write 200 (n ++ [0]) ∅) in
  ∃ r, strstr 100 200 m = Ret (r, m) ∧
    ((∃ i, r = 100 + Z.of_nat i ∧ occurs_at h n i ∧ ∀ j, (j < i)%nat → ¬ occurs_at h n j) ∨
     (r = NULL ∧ ∀ i, ¬ occurs_at h n i)).
Proof. apply strstr_correct; by_evaluation. Defined.
