(* ===== verification/Kernel.v ===== *)
(** * The state of the scheduler and of the synchronisation primitives

    The data of src/src/threads/thread.h, synch.h and interrupt.c.  The ready list, the list of
    all threads and the lists of waiters hold threads through their embedded elements; here
    they are lists of thread addresses, the abstraction that the contract of list.c
    ([list_rep]) justifies.

    The kernel stack of a thread that has been switched out is the list of C activations that
    have to finish when the thread runs again, innermost first ([kont]).  Each constructor is
    a point of the code after which a call of [schedule], or of a function that calls it,
    returns. *)
From S2P Require Import Prelude KList.

Inductive thread_status := THREAD_RUNNING | THREAD_READY | THREAD_BLOCKED | THREAD_DYING.
#[global] Instance thread_status_eq_dec : EqDecision thread_status.
Proof. solve_decision. Defined.

Definition THREAD_MAGIC : Z := 0xcd6abf4b.
Definition TIME_SLICE : Z := 4.
Definition PRI_MIN : Z := 0.
Definition PRI_DEFAULT : Z := 31.
Definition PRI_MAX : Z := 63.
Definition TID_ERROR : Z := -1.
Definition PGSIZE : Z := 4096.

(** [struct thread], without its list elements and its table of open files. *)
Record thread := Thread {
  tid : Z;
  status : thread_status;
  name : list Z;
  stack : Z;
  priority : Z;
  wait_called : bool;
  waiting_thread : Z;
  child_exit_status : Z;
  exit_status : Z;
  pagedir : addr;
  magic : Z;
}.

Record semaphore := Semaphore { value : Z; waiters : list addr }.
(** The semaphore of the [struct lock] at [l], which has the holder at offset 0. *)
Definition lock_sema (l : addr) : addr := l + 4.

Inductive kont :=
| KDown (sema : addr) (old_level : bool)
    (** in the loop of [sema_down], after [thread_block] *)
| KAcquire (lock : addr)      (** in [lock_acquire], after [sema_down] *)
| KWait (lock : addr)         (** in [cond_wait], after [sema_down] *)
| KYield (old_level : bool)   (** in [thread_yield], after [schedule] *)
| KIret                       (** in the interrupt stub, after [intr_handler] *)
| KTid (t : addr)             (** in [allocate_tid], called by [thread_create], after [lock_acquire] *)
| KCreate (t : addr)          (** in [thread_create], after [allocate_tid] *)
| KIdle                       (** in [idle], after [thread_block] *)
| KBlock                      (** after another direct call of [thread_block] *)
| KStart.                     (** at the start of [kernel_thread] *)

Record kern := Kern {
  threads : gmap addr thread;
  konts : gmap addr (list kont);
  running : addr;
  ready_list : list addr;
  all_list : list addr;
  idle_thread : addr;
  initial_thread : addr;
  idle_ticks : Z;
  kernel_ticks : Z;
  user_ticks : Z;
  thread_ticks : Z;
  intr_on : bool;
  in_external_intr : bool;
  yield_on_return : bool;
  next_tid : Z;
  semas : gmap addr semaphore;
  holders : gmap addr addr;
  conds : gmap addr (list addr);
  active_pd : addr;
  ticks : Z;
}.
Abbreviation K := (ST kern).

(** ** Stores to the global variables *)

Definition set_threads (f : gmap addr thread → gmap addr thread) (k : kern) : kern :=
  Kern (f (threads k)) (konts k) (running k) (ready_list k) (all_list k) (idle_thread k) (initial_thread k) (idle_ticks k) (kernel_ticks k) (user_ticks k) (thread_ticks k) (intr_on k) (in_external_intr k) (yield_on_return k) (next_tid k) (semas k) (holders k) (conds k) (active_pd k) (ticks k).
Definition set_konts (f : gmap addr (list kont) → gmap addr (list kont)) (k : kern) : kern :=
  Kern (threads k) (f (konts k)) (running k) (ready_list k) (all_list k) (idle_thread k) (initial_thread k) (idle_ticks k) (kernel_ticks k) (user_ticks k) (thread_ticks k) (intr_on k) (in_external_intr k) (yield_on_return k) (next_tid k) (semas k) (holders k) (conds k) (active_pd k) (ticks k).
Definition set_running (f : addr → addr) (k : kern) : kern :=
  Kern (threads k) (konts k) (f (running k)) (ready_list k) (all_list k) (idle_thread k) (initial_thread k) (idle_ticks k) (kernel_ticks k) (user_ticks k) (thread_ticks k) (intr_on k) (in_external_intr k) (yield_on_return k) (next_tid k) (semas k) (holders k) (conds k) (active_pd k) (ticks k).
Definition set_ready_list (f : list addr → list addr) (k : kern) : kern :=
  Kern (threads k) (konts k) (running k) (f (ready_list k)) (all_list k) (idle_thread k) (initial_thread k) (idle_ticks k) (kernel_ticks k) (user_ticks k) (thread_ticks k) (intr_on k) (in_external_intr k) (yield_on_return k) (next_tid k) (semas k) (holders k) (conds k) (active_pd k) (ticks k).
Definition set_all_list (f : list addr → list addr) (k : kern) : kern :=
  Kern (threads k) (konts k) (running k) (ready_list k) (f (all_list k)) (idle_thread k) (initial_thread k) (idle_ticks k) (kernel_ticks k) (user_ticks k) (thread_ticks k) (intr_on k) (in_external_intr k) (yield_on_return k) (next_tid k) (semas k) (holders k) (conds k) (active_pd k) (ticks k).
Definition set_idle_thread (f : addr → addr) (k : kern) : kern :=
  Kern (threads k) (konts k) (running k) (ready_list k) (all_list k) (f (idle_thread k)) (initial_thread k) (idle_ticks k) (kernel_ticks k) (user_ticks k) (thread_ticks k) (intr_on k) (in_external_intr k) (yield_on_return k) (next_tid k) (semas k) (holders k) (conds k) (active_pd k) (ticks k).
Definition set_initial_thread (f : addr → addr) (k : kern) : kern :=
  Kern (threads k) (konts k) (running k) (ready_list k) (all_list k) (idle_thread k) (f (initial_thread k)) (idle_ticks k) (kernel_ticks k) (user_ticks k) (thread_ticks k) (intr_on k) (in_external_intr k) (yield_on_return k) (next_tid k) (semas k) (holders k) (conds k) (active_pd k) (ticks k).
Definition set_idle_ticks (f : Z → Z) (k : kern) : kern :=
  Kern (threads k) (konts k) (running k) (ready_list k) (all_list k) (idle_thread k) (initial_thread k) (f (idle_ticks k)) (kernel_ticks k) (user_ticks k) (thread_ticks k) (intr_on k) (in_external_intr k) (yield_on_return k) (next_tid k) (semas k) (holders k) (conds k) (active_pd k) (ticks k).
Definition set_kernel_ticks (f : Z → Z) (k : kern) : kern :=
  Kern (threads k) (konts k) (running k) (ready_list k) (all_list k) (idle_thread k) (initial_thread k) (idle_ticks k) (f (kernel_ticks k)) (user_ticks k) (thread_ticks k) (intr_on k) (in_external_intr k) (yield_on_return k) (next_tid k) (semas k) (holders k) (conds k) (active_pd k) (ticks k).
Definition set_user_ticks (f : Z → Z) (k : kern) : kern :=
  Kern (threads k) (konts k) (running k) (ready_list k) (all_list k) (idle_thread k) (initial_thread k) (idle_ticks k) (kernel_ticks k) (f (user_ticks k)) (thread_ticks k) (intr_on k) (in_external_intr k) (yield_on_return k) (next_tid k) (semas k) (holders k) (conds k) (active_pd k) (ticks k).
Definition set_thread_ticks (f : Z → Z) (k : kern) : kern :=
  Kern (threads k) (konts k) (running k) (ready_list k) (all_list k) (idle_thread k) (initial_thread k) (idle_ticks k) (kernel_ticks k) (user_ticks k) (f (thread_ticks k)) (intr_on k) (in_external_intr k) (yield_on_return k) (next_tid k) (semas k) (holders k) (conds k) (active_pd k) (ticks k).
Definition set_intr_on (f : bool → bool) (k : kern) : kern :=
  Kern (threads k) (konts k) (running k) (ready_list k) (all_list k) (idle_thread k) (initial_thread k) (idle_ticks k) (kernel_ticks k) (user_ticks k) (thread_ticks k) (f (intr_on k)) (in_external_intr k) (yield_on_return k) (next_tid k) (semas k) (holders k) (conds k) (active_pd k) (ticks k).
Definition set_in_external_intr (f : bool → bool) (k : kern) : kern :=
  Kern (threads k) (konts k) (running k) (ready_list k) (all_list k) (idle_thread k) (initial_thread k) (idle_ticks k) (kernel_ticks k) (user_ticks k) (thread_ticks k) (intr_on k) (f (in_external_intr k)) (yield_on_return k) (next_tid k) (semas k) (holders k) (conds k) (active_pd k) (ticks k).
Definition set_yield_on_return (f : bool → bool) (k : kern) : kern :=
  Kern (threads k) (konts k) (running k) (ready_list k) (all_list k) (idle_thread k) (initial_thread k) (idle_ticks k) (kernel_ticks k) (user_ticks k) (thread_ticks k) (intr_on k) (in_external_intr k) (f (yield_on_return k)) (next_tid k) (semas k) (holders k) (conds k) (active_pd k) (ticks k).
Definition set_next_tid (f : Z → Z) (k : kern) : kern :=
  Kern (threads k) (konts k) (running k) (ready_list k) (all_list k) (idle_thread k) (initial_thread k) (idle_ticks k) (kernel_ticks k) (user_ticks k) (thread_ticks k) (intr_on k) (in_external_intr k) (yield_on_return k) (f (next_tid k)) (semas k) (holders k) (conds k) (active_pd k) (ticks k).
Definition set_semas (f : gmap addr semaphore → gmap addr semaphore) (k : kern) : kern :=
  Kern (threads k) (konts k) (running k) (ready_list k) (all_list k) (idle_thread k) (initial_thread k) (idle_ticks k) (kernel_ticks k) (user_ticks k) (thread_ticks k) (intr_on k) (in_external_intr k) (yield_on_return k) (next_tid k) (f (semas k)) (holders k) (conds k) (active_pd k) (ticks k).
Definition set_holders (f : gmap addr addr → gmap addr addr) (k : kern) : kern :=
  Kern (threads k) (konts k) (running k) (ready_list k) (all_list k) (idle_thread k) (initial_thread k) (idle_ticks k) (kernel_ticks k) (user_ticks k) (thread_ticks k) (intr_on k) (in_external_intr k) (yield_on_return k) (next_tid k) (semas k) (f (holders k)) (conds k) (active_pd k) (ticks k).
Definition set_conds (f : gmap addr (list addr) → gmap addr (list addr)) (k : kern) : kern :=
  Kern (threads k) (konts k) (running k) (ready_list k) (all_list k) (idle_thread k) (initial_thread k) (idle_ticks k) (kernel_ticks k) (user_ticks k) (thread_ticks k) (intr_on k) (in_external_intr k) (yield_on_return k) (next_tid k) (semas k) (holders k) (f (conds k)) (active_pd k) (ticks k).
Definition set_active_pd (f : addr → addr) (k : kern) : kern :=
  Kern (threads k) (konts k) (running k) (ready_list k) (all_list k) (idle_thread k) (initial_thread k) (idle_ticks k) (kernel_ticks k) (user_ticks k) (thread_ticks k) (intr_on k) (in_external_intr k) (yield_on_return k) (next_tid k) (semas k) (holders k) (conds k) (f (active_pd k)) (ticks k).
Definition set_ticks (f : Z → Z) (k : kern) : kern :=
  Kern (threads k) (konts k) (running k) (ready_list k) (all_list k) (idle_thread k) (initial_thread k) (idle_ticks k) (kernel_ticks k) (user_ticks k) (thread_ticks k) (intr_on k) (in_external_intr k) (yield_on_return k) (next_tid k) (semas k) (holders k) (conds k) (active_pd k) (f (ticks k)).

(** ** Members of a thread *)

Definition set_status (x : thread_status) (t : thread) : thread :=
  Thread (tid t) x (name t) (stack t) (priority t) (wait_called t) (waiting_thread t)
    (child_exit_status t) (exit_status t) (pagedir t) (magic t).
Definition set_tid (x : Z) (t : thread) : thread :=
  Thread x (status t) (name t) (stack t) (priority t) (wait_called t) (waiting_thread t)
    (child_exit_status t) (exit_status t) (pagedir t) (magic t).
Definition set_stack (x : Z) (t : thread) : thread :=
  Thread (tid t) (status t) (name t) x (priority t) (wait_called t) (waiting_thread t)
    (child_exit_status t) (exit_status t) (pagedir t) (magic t).
Definition set_priority (x : Z) (t : thread) : thread :=
  Thread (tid t) (status t) (name t) (stack t) x (wait_called t) (waiting_thread t)
    (child_exit_status t) (exit_status t) (pagedir t) (magic t).
Definition set_wait (called : bool) (waiting : Z) (t : thread) : thread :=
  Thread (tid t) (status t) (name t) (stack t) (priority t) called waiting
    (child_exit_status t) (exit_status t) (pagedir t) (magic t).
Definition set_child_exit_status (x : Z) (t : thread) : thread :=
  Thread (tid t) (status t) (name t) (stack t) (priority t) (wait_called t) (waiting_thread t)
    x (exit_status t) (pagedir t) (magic t).
Definition set_exit_status (x : Z) (t : thread) : thread :=
  Thread (tid t) (status t) (name t) (stack t) (priority t) (wait_called t) (waiting_thread t)
    (child_exit_status t) x (pagedir t) (magic t).

(** Loads and stores through pointers to threads, semaphores and locks: a fault when the
    object does not exist. *)
Definition load {A} (get : kern → gmap addr A) (a : addr) : K A := λ k,
  match get k !! a with Some x => Ret (x, k) | None => Fault end.
Definition ld_thread : addr → K thread := load threads.
Definition ld_sema : addr → K semaphore := load semas.
Definition ld_holder : addr → K addr := load holders.
Definition ld_cond : addr → K (list addr) := load conds.

Definition upd_thread (t : addr) (f : thread → thread) : K () :=
  th ← ld_thread t; modify (set_threads <[t := f th]>).
Definition upd_sema (s : addr) (f : semaphore → semaphore) : K () :=
  x ← ld_sema s; modify (set_semas <[s := f x]>).

(** Entering and leaving an activation of the running thread. *)
Definition push_kont (c : kont) : K () := λ k,
  Ret ((), set_konts (λ m, <[running k := c :: default [] (m !! running k)]> m) k).
Definition pop_kont : K () := λ k,
  Ret ((), set_konts (λ m, <[running k := tail (default [] (m !! running k))]> m) k).
