(* ===== verification/Thread.v ===== *)
(** * Threads and the scheduler: src/src/threads/thread.c and interrupt.c

    [schedule] runs with interrupts off, so a context switch is one step of the model: the
    running thread changes, and what the new thread has to finish is in its [konts].  The
    processor's stack pointer always is in the page of the running thread, which is how
    [running_thread] finds it. *)
From S2P Require Import Prelude KList Kernel.

(** ** Interrupts *)

Definition intr_get_level : K bool := gets intr_on.
Definition intr_context : K bool := gets in_external_intr.

Definition intr_enable : K bool :=
  old_level ← intr_get_level;
  c ← intr_context;
  assert (negb c);;
  modify (set_intr_on (λ _, true));;
  mret old_level.

Definition intr_disable : K bool :=
  old_level ← intr_get_level;
  modify (set_intr_on (λ _, false));;
  mret old_level.

Definition intr_set_level (level : bool) : K bool :=
  if level then intr_enable else intr_disable.

Definition intr_yield_on_return : K () :=
  c ← intr_context;
  assert c;;
  modify (set_yield_on_return (λ _, true)).

(** ** Threads *)

Definition running_thread : K addr := gets running.

Definition is_thread (t : addr) : K bool :=
  if nonnull t then th ← ld_thread t; mret (magic th =? THREAD_MAGIC) else mret false.

Definition thread_current : K addr :=
  t ← running_thread;
  ok ← is_thread t;
  assert ok;;
  th ← ld_thread t;
  assert (bool_decide (status th = THREAD_RUNNING));;
  mret t.

Definition thread_tid : K Z := t ← thread_current; th ← ld_thread t; mret (tid th).
Definition thread_name : K (list Z) := t ← thread_current; th ← ld_thread t; mret (name th).
Definition thread_set_priority (new_priority : Z) : K () :=
  t ← thread_current; upd_thread t (set_priority new_priority).
Definition thread_get_priority : K Z := t ← thread_current; th ← ld_thread t; mret (priority th).
Definition thread_get_nice : K Z := mret 0.
Definition thread_get_load_avg : K Z := mret 0.
Definition thread_get_recent_cpu : K Z := mret 0.

(** ** Switching *)

Definition next_thread_to_run : K addr :=
  ready ← gets ready_list;
  match ready with
  | [] => gets idle_thread
  | t :: rest => modify (set_ready_list (λ _, rest));; mret t
  end.

(** [pagedir_activate] and [tss_update] for the running thread. *)
Definition process_activate : K () :=
  t ← thread_current;
  th ← ld_thread t;
  modify (set_active_pd (λ _, pagedir th)).

(** [palloc_free_page (t)]: the thread and its stack are gone. *)
Definition free_thread (t : addr) : K () :=
  _ ← ld_thread t; modify (set_threads (delete t));; modify (set_konts (delete t)).

Definition thread_schedule_tail (prev : addr) : K () :=
  cur ← running_thread;
  level ← intr_get_level;
  assert (negb level);;
  upd_thread cur (set_status THREAD_RUNNING);;
  modify (set_thread_ticks (λ _, 0));;
  process_activate;;
  (if nonnull prev then
     p ← ld_thread prev;
     initial ← gets initial_thread;
     if bool_decide (status p = THREAD_DYING) && negb (prev =? initial) then
       assert (negb (prev =? cur));;
       free_thread prev
     else mret ()
   else mret ()).

(** [switch_threads (cur, next)] of switch.S: the processor continues on the stack of
    [next]; it returns [cur]. *)
Definition switch_threads (cur next : addr) : K addr :=
  modify (set_running (λ _, next));; mret cur.

Definition schedule : K () :=
  cur ← running_thread;
  next ← next_thread_to_run;
  level ← intr_get_level;
  assert (negb level);;
  c ← ld_thread cur;
  assert (negb (bool_decide (status c = THREAD_RUNNING)));;
  ok ← is_thread next;
  assert ok;;
  prev ← (if negb (cur =? next) then switch_threads cur next else mret NULL);
  thread_schedule_tail prev.

Definition thread_block : K () :=
  c ← intr_context;
  assert (negb c);;
  level ← intr_get_level;
  assert (negb level);;
  t ← thread_current;
  upd_thread t (set_status THREAD_BLOCKED);;
  schedule.

Definition thread_unblock (t : addr) : K () :=
  ok ← is_thread t;
  assert ok;;
  old_level ← intr_disable;
  th ← ld_thread t;
  assert (bool_decide (status th = THREAD_BLOCKED));;
  modify (set_ready_list (λ l, l ++ [t]));;
  upd_thread t (set_status THREAD_READY);;
  _ ← intr_set_level old_level;
  mret ().

(** What follows the [schedule] in [thread_yield] is [KYield]. *)
Definition thread_yield : K () :=
  cur ← thread_current;
  c ← intr_context;
  assert (negb c);;
  old_level ← intr_disable;
  push_kont (KYield old_level);;
  idle ← gets idle_thread;
  (if negb (cur =? idle) then modify (set_ready_list (λ l, l ++ [cur])) else mret ());;
  upd_thread cur (set_status THREAD_READY);;
  schedule.

(** The loop of [get_thread] over the list of all threads. *)
Fixpoint find_tid (x : Z) (ts : list addr) : K addr :=
  match ts with
  | [] => mret NULL
  | t :: ts => th ← ld_thread t; if tid th =? x then mret t else find_tid x ts
  end.

Definition get_thread (x : Z) : K addr :=
  intr_state ← intr_disable;
  all ← gets all_list;
  t ← find_tid x all;
  _ ← intr_set_level intr_state;
  mret t.

(** The part of [thread_exit] after [process_exit]. *)
Definition thread_exit : K () :=
  c ← intr_context;
  assert (negb c);;
  _ ← intr_disable;
  cur ← thread_current;
  modify (set_all_list (λ l, filter (λ t, t ≠ cur) l));;
  th ← ld_thread cur;
  (if negb (waiting_thread th =? 0) then
     w ← get_thread (waiting_thread th);
     thread_unblock w;;
     w ← get_thread (waiting_thread th);
     upd_thread w (set_child_exit_status (exit_status th))
   else mret ());;
  cur ← thread_current;
  upd_thread cur (set_status THREAD_DYING);;
  schedule.

Definition thread_tick : K () :=
  t ← thread_current;
  idle ← gets idle_thread;
  th ← ld_thread t;
  (if t =? idle then modify (set_idle_ticks (λ n, s64 (n + 1)))
   else if nonnull (pagedir th) then modify (set_user_ticks (λ n, s64 (n + 1)))
   else modify (set_kernel_ticks (λ n, s64 (n + 1))));;
  modify (set_thread_ticks (λ n, u32 (n + 1)));;
  n ← gets thread_ticks;
  if TIME_SLICE <=? n then intr_yield_on_return else mret ().

(** [timer_interrupt] of devices/timer.c. *)
Definition timer_interrupt : K () :=
  modify (set_ticks (λ n, s64 (n + 1)));; thread_tick.

(** [intr_handler] for an external interrupt with the handler given.  The processor turns
    interrupts off and pushes the interrupted state, which [KIret] restores. *)
Definition intr_handler (handler : K ()) : K () :=
  push_kont KIret;;
  modify (set_intr_on (λ _, false));;
  level ← intr_get_level;
  assert (negb level);;
  c ← intr_context;
  assert (negb c);;
  modify (set_in_external_intr (λ _, true));;
  modify (set_yield_on_return (λ _, false));;
  handler;;
  level ← intr_get_level;
  assert (negb level);;
  c ← intr_context;
  assert c;;
  modify (set_in_external_intr (λ _, false));;
  y ← gets yield_on_return;
  if (y : bool) then thread_yield else mret ().
