(* ===== verification/Synch.v ===== *)
(** * Semaphores, locks and condition variables: src/src/threads/synch.c

    with the creation of threads (thread.c), which takes a lock, and [process_wait]
    (userprog/process.c), which blocks directly. *)
From S2P Require Import Prelude KList Kernel Thread.

(** ** Semaphores *)

Definition sema_init (sema v : Z) : K () :=
  assert (nonnull sema);;
  modify (set_semas <[sema := Semaphore v []]>).

(** The loop of [sema_down] and what follows it; the running thread is in [KDown]. *)
Definition sema_down_loop (sema : addr) (old_level : bool) : K () :=
  s ← ld_sema sema;
  if value s =? 0 then
    t ← thread_current;
    upd_sema sema (λ s, Semaphore (value s) (waiters s ++ [t]));;
    thread_block
  else
    upd_sema sema (λ s, Semaphore (u32 (value s - 1)) (waiters s));;
    pop_kont;;
    _ ← intr_set_level old_level;
    mret ().

Definition sema_down (sema : addr) : K () :=
  assert (nonnull sema);;
  c ← intr_context;
  assert (negb c);;
  old_level ← intr_disable;
  push_kont (KDown sema old_level);;
  sema_down_loop sema old_level.

Definition sema_try_down (sema : addr) : K bool :=
  assert (nonnull sema);;
  old_level ← intr_disable;
  s ← ld_sema sema;
  success ← (if 0 <? value s then
               upd_sema sema (λ s, Semaphore (u32 (value s - 1)) (waiters s));; mret true
             else mret false);
  _ ← intr_set_level old_level;
  mret success.

Definition sema_up (sema : addr) : K () :=
  assert (nonnull sema);;
  old_level ← intr_disable;
  s ← ld_sema sema;
  match waiters s with
  | [] => mret ()
  | t :: ws => upd_sema sema (λ s, Semaphore (value s) ws);; thread_unblock t
  end;;
  upd_sema sema (λ s, Semaphore (u32 (value s + 1)) (waiters s));;
  _ ← intr_set_level old_level;
  mret ().

(** ** Locks *)

Definition lock_init (lock : addr) : K () :=
  assert (nonnull lock);;
  modify (set_holders <[lock := NULL]>);;
  sema_init (lock_sema lock) 1.

Definition lock_held_by_current_thread (lock : addr) : K bool :=
  assert (nonnull lock);;
  h ← ld_holder lock;
  t ← thread_current;
  mret (h =? t).

(** [lock->holder = thread_current ()] is what [KAcquire] has left to do. *)
Definition set_holder (lock : addr) : K () :=
  t ← thread_current;
  _ ← ld_holder lock;
  modify (set_holders <[lock := t]>).

Definition lock_acquire (lock : addr) : K () :=
  assert (nonnull lock);;
  c ← intr_context;
  assert (negb c);;
  h ← lock_held_by_current_thread lock;
  assert (negb h);;
  push_kont (KAcquire lock);;
  sema_down (lock_sema lock).

Definition lock_try_acquire (lock : addr) : K bool :=
  assert (nonnull lock);;
  h ← lock_held_by_current_thread lock;
  assert (negb h);;
  success ← sema_try_down (lock_sema lock);
  (if (success : bool) then push_kont (KAcquire lock) else mret ());;
  mret success.

Definition lock_release (lock : addr) : K () :=
  assert (nonnull lock);;
  h ← lock_held_by_current_thread lock;
  assert h;;
  modify (set_holders <[lock := NULL]>);;
  sema_up (lock_sema lock).

(** ** Condition variables *)

Definition cond_init (cond : addr) : K () :=
  assert (nonnull cond);;
  modify (set_conds <[cond := []]>).

(** [waiter] is the address of the semaphore in the local variable [waiter]. *)
Definition cond_wait (cond waiter lock : addr) : K () :=
  assert (nonnull cond);;
  assert (nonnull lock);;
  c ← intr_context;
  assert (negb c);;
  h ← lock_held_by_current_thread lock;
  assert h;;
  sema_init waiter 0;;
  ws ← ld_cond cond;
  modify (set_conds <[cond := ws ++ [waiter]]>);;
  lock_release lock;;
  push_kont (KWait lock);;
  sema_down waiter.

Definition cond_signal (cond lock : addr) : K () :=
  assert (nonnull cond);;
  assert (nonnull lock);;
  c ← intr_context;
  assert (negb c);;
  h ← lock_held_by_current_thread lock;
  assert h;;
  ws ← ld_cond cond;
  match ws with
  | [] => mret ()
  | w :: ws => modify (set_conds <[cond := ws]>);; sema_up w
  end.

Definition cond_broadcast (cond lock : addr) : K () :=
  assert (nonnull cond);;
  assert (nonnull lock);;
  ws ← ld_cond cond;
  loop (S (length ws)) (λ _,
    ws ← ld_cond cond;
    if ws is [] then mret (Stop ()) else cond_signal cond lock;; mret (Next ())) ().

(** ** Creating threads *)

(** The address of the global [tid_lock]. *)
Definition tid_lock : addr := 0xc0010000.

Definition init_thread (t : addr) (nm : list Z) (prio : Z) : K () :=
  assert (nonnull t);;
  assert ((PRI_MIN <=? prio) && (prio <=? PRI_MAX));;
  modify (set_threads <[t :=
    Thread 0 THREAD_BLOCKED (take 15 nm) (t + PGSIZE) prio false 0 0 0 NULL THREAD_MAGIC]>);;
  modify (set_konts <[t := []]>);;
  old_level ← intr_disable;
  modify (set_all_list (λ l, l ++ [t]));;
  _ ← intr_set_level old_level;
  mret ().

Definition alloc_frame (t : addr) (size : Z) : K Z :=
  ok ← is_thread t;
  assert ok;;
  assert (size mod 4 =? 0);;
  upd_thread t (λ th, set_stack (stack th - size) th);;
  th ← ld_thread t; mret (stack th).

(** [allocate_tid] up to [lock_acquire]; [KTid] is the rest of it. *)
Definition allocate_tid (t : addr) : K () :=
  push_kont (KTid t);;
  lock_acquire tid_lock.
Definition allocate_tid_rest (t : addr) : K () :=
  x ← gets next_tid;
  modify (set_next_tid (λ n, s32 (n + 1)));;
  upd_thread t (set_tid x);;
  lock_release tid_lock.

(** [page] is the result of [palloc_get_page (PAL_ZERO)]; the answer is [TID_ERROR] or
    nothing: the thread identifier is in the new thread once [KTid] has run. *)
Definition thread_create (page : addr) (nm : list Z) (prio : Z) : K (option Z) :=
  if negb (nonnull page) then mret (Some TID_ERROR) else
  init_thread page nm prio;;
  push_kont (KCreate page);;
  allocate_tid page;;
  mret None.
(** The frames of kernel_thread, switch_entry and switch_threads: 12, 4 and 28 bytes. *)
Definition thread_create_rest (t : addr) : K () :=
  _ ← alloc_frame t 12;
  _ ← alloc_frame t 4;
  _ ← alloc_frame t 28;
  modify (set_konts <[t := [KStart]]>);;
  thread_unblock t.

(** ** Continuing the running thread

    What the innermost activation of the running thread does next. *)
Definition resume : K () :=
  t ← running_thread;
  ks ← load konts t;
  match ks with
  | [] => mret ()
  | KDown sema old_level :: _ => sema_down_loop sema old_level
  | KAcquire lock :: _ => pop_kont;; set_holder lock
  | KWait lock :: _ => pop_kont;; lock_acquire lock
  | KYield old_level :: _ => pop_kont;; _ ← intr_set_level old_level; mret ()
  | KIret :: _ => pop_kont;; modify (set_intr_on (λ _, true))
  | KTid t :: _ => pop_kont;; allocate_tid_rest t
  | KCreate t :: _ => pop_kont;; thread_create_rest t
  | KIdle :: _ => pop_kont;; modify (set_intr_on (λ _, true))
  | KBlock :: _ => pop_kont
  | KStart :: _ => pop_kont;; _ ← intr_enable; mret ()
  end.

(** Starting up, from the address of the page the boot code runs in. *)
Definition thread_init (page : addr) : K () :=
  level ← intr_get_level;
  assert (negb level);;
  lock_init tid_lock;;
  modify (set_ready_list (λ _, []));;
  modify (set_all_list (λ _, []));;
  modify (set_running (λ _, page));;
  modify (set_initial_thread (λ _, page));;
  init_thread page [109; 97; 105; 110] PRI_DEFAULT;;
  upd_thread page (set_status THREAD_RUNNING);;
  allocate_tid page.

(** [idle] before its loop, and one iteration of the loop; [KIdle] is its [sti; hlt]. *)
Definition idle_start (idle_started : addr) : K () :=
  t ← thread_current;
  modify (set_idle_thread (λ _, t));;
  sema_up idle_started.
Definition idle_loop : K () :=
  _ ← intr_disable;
  push_kont KIdle;;
  thread_block.

(** ** Waiting for a child: [process_wait] of src/src/userprog/process.c

    [process_wait] runs with interrupts on until it blocks, so it is two pieces: finding and
    marking the child, and blocking. *)

(** The first piece: [Some r] when the function returns [r] at once. *)
Definition process_wait_register (child_tid : Z) : K (option Z) :=
  t ← get_thread child_tid;
  if negb (nonnull t) then mret (Some (-1)) else
  th ← ld_thread t;
  if wait_called th then mret (Some (-1)) else
  upd_thread t (λ th, set_wait true (waiting_thread th) th);;
  me ← thread_tid;
  upd_thread t (λ th, set_wait (wait_called th) me th);;
  mret None.

(** The second piece; [KBlock] is where the thread continues when the child has exited. *)
Definition process_wait_block : K () :=
  _ ← intr_disable;
  push_kont KBlock;;
  thread_block.
Definition process_wait_status : K Z :=
  t ← thread_current; th ← ld_thread t; mret (child_exit_status th).
