(* ===== verification/SchedProofs.v ===== *)
(** * The invariant of the scheduler

    [sched_inv st k]: the running thread is in state [st] and every other thread is where
    its state says it is.  Between two steps of the machine [st] is [THREAD_RUNNING]; inside
    a step, [schedule] takes a state in which the running thread has already left that
    state back to the invariant. *)
From S2P Require Import Prelude KList Kernel Thread Synch.

Definition has_status (k : kern) (t : addr) (st : thread_status) : Prop :=
  ∃ th, threads k !! t = Some th ∧ status th = st.

Definition waits_on (k : kern) (s t : addr) : Prop := ∃ x, semas k !! s = Some x ∧ t ∈ waiters x.

Record sched_inv (st : thread_status) (k : kern) : Prop := SchedInv {
  si_running : has_status k (running k) st;
  si_magic : ∀ t th, threads k !! t = Some th → magic th = THREAD_MAGIC;
  si_null : threads k !! NULL = None;
  si_others : ∀ t, has_status k t THREAD_RUNNING → t = running k;
  si_ready_nodup : NoDup (ready_list k);
  si_ready : ∀ t, t ∈ ready_list k → has_status k t THREAD_READY ∧ t ≠ idle_thread k;
  si_ready_all : ∀ t, has_status k t THREAD_READY → t ∈ ready_list k ∨ t = idle_thread k;
  si_idle : ∃ th, threads k !! idle_thread k = Some th ∧ status th ≠ THREAD_DYING;
  si_waiters : ∀ s x, semas k !! s = Some x → NoDup (waiters x);
  si_waits : ∀ s t, waits_on k s t → has_status k t THREAD_BLOCKED ∧ t ≠ idle_thread k;
  si_waits_one : ∀ s1 s2 t, waits_on k s1 t → waits_on k s2 t → s1 = s2;
  si_all_nodup : NoDup (all_list k);
  si_all : ∀ t, t ∈ all_list k ↔ ∃ th, threads k !! t = Some th ∧ status th ≠ THREAD_DYING;
  si_konts : ∀ t, is_Some (threads k !! t) → is_Some (konts k !! t);
}.

(** Which thread [schedule] switches to, and the list it leaves. *)
Definition next_of (k : kern) : addr := List.hd (idle_thread k) (ready_list k).

(** The state [schedule] leaves when the thread it switched from is not destroyed. *)
Definition switched (k : kern) (th : thread) : kern :=
  set_active_pd (λ _, pagedir th) (set_thread_ticks (λ _, 0)
    (set_threads <[next_of k := set_status THREAD_RUNNING th]>
      (set_running (λ _, next_of k) (set_ready_list (λ _, tail (ready_list k)) k)))).
(** Destroying the thread [t]. *)
Definition destroyed (t : addr) (k : kern) : kern :=
  set_konts (delete t) (set_threads (delete t) k).

(** The state after [schedule]. *)
Definition scheduled (k : kern) (cur th : thread) : kern :=
  let k' := switched k th in
  if bool_decide (status cur = THREAD_DYING) && negb (running k =? next_of k)
     && negb (running k =? initial_thread k)
  then destroyed (running k) k' else k'.

(** Unfolds the primitive actions, to run a few of them on a known state. *)
Ltac kunfold := unfold upd_thread, upd_sema, ld_thread, ld_sema, ld_holder, ld_cond, load, push_kont,
  pop_kont, gets, modify, ASSERT, mbind, ST_bind, mret, ST_ret.

Lemma is_thread_run k t th : threads k !! t = Some th → magic th = THREAD_MAGIC → t ≠ NULL →
  is_thread t k = Ret (true, k).
Proof.
  intros Ht Hm Hn. unfold is_thread. rewrite nonnull_true by done. kunfold. by rewrite Ht, Hm.
Qed.

Section inv.
Context (st : thread_status) (k : kern) (Hinv : sched_inv st k).

Lemma inv_not_null t : is_Some (threads k !! t) → t ≠ NULL.
Proof. intros Ht ->. rewrite (si_null _ _ Hinv) in Ht. by destruct Ht. Qed.

Lemma inv_is_thread t : is_Some (threads k !! t) → is_thread t k = Ret (true, k).
Proof.
  intros [th Ht]. eapply is_thread_run; [done|by eapply (si_magic _ _ Hinv)|by apply inv_not_null].
Qed.

Lemma inv_next : ∃ th, threads k !! next_of k = Some th.
Proof.
  unfold next_of. destruct (ready_list k) as [|t l] eqn:E; simpl.
  - destruct (si_idle _ _ Hinv) as (th & ? & _). by exists th.
  - destruct (si_ready _ _ Hinv t) as [(th & ? & _) _]; [rewrite E; set_solver|]. by exists th.
Qed.
End inv.

Lemma thread_current_run k th : threads k !! running k = Some th → magic th = THREAD_MAGIC →
  status th = THREAD_RUNNING → running k ≠ NULL → thread_current k = Ret (running k, k).
Proof.
  intros Ht Hm Hs Hn. unfold thread_current, running_thread. run_by ltac:(done).
  run_by ltac:(by eapply is_thread_run). run_by ltac:(done). kunfold. rewrite Ht. simpl.
  by rewrite bool_decide_eq_true_2.
Qed.

Lemma inv_current k : sched_inv THREAD_RUNNING k → thread_current k = Ret (running k, k).
Proof.
  intros Hinv. destruct (si_running _ _ Hinv) as (th & Ht & Hs).
  eapply thread_current_run; [done|by eapply (si_magic _ _ Hinv)|done|].
  eapply inv_not_null; [done|by exists th].
Qed.

(** What [thread_schedule_tail] does before it looks at the previous thread. *)
Definition activated (k : kern) (th : thread) : kern :=
  set_active_pd (λ _, pagedir th) (set_thread_ticks (λ _, 0)
    (set_threads <[running k := set_status THREAD_RUNNING th]> k)).

Lemma tail_run k th prev : threads k !! running k = Some th → magic th = THREAD_MAGIC →
  running k ≠ NULL → intr_on k = false → prev ≠ running k →
  (prev ≠ NULL → is_Some (threads k !! prev)) →
  thread_schedule_tail prev k = Ret ((),
    match threads k !! prev with
    | Some p => if nonnull prev && bool_decide (status p = THREAD_DYING) && negb (prev =? initial_thread k)
                then destroyed prev (activated k th) else activated k th
    | None => activated k th
    end).
Proof.
  intros Ht Hm Hn Hoff Hp Hpe. unfold thread_schedule_tail, running_thread, intr_get_level.
  run_by ltac:(done). run_by ltac:(done). rewrite Hoff. run_by ltac:(done).
  assert (upd_thread (running k) (set_status THREAD_RUNNING) k =
    Ret ((), set_threads <[running k := set_status THREAD_RUNNING th]> k)) as Hu by (kunfold; by rewrite Ht).
  rewrite (bind_run _ _ _ _ _ Hu). run_by ltac:(done). unfold process_activate.
  set (k1 := set_thread_ticks (λ _, 0) (set_threads <[running k := set_status THREAD_RUNNING th]> k)).
  assert (threads k1 !! running k1 = Some (set_status THREAD_RUNNING th)) as Hk1 by apply lookup_insert_eq.
  assert (process_activate k1 = Ret ((), activated k th)) as Hact.
  { unfold process_activate. rewrite (bind_run _ _ _ _ _ (thread_current_run k1 _ Hk1 Hm eq_refl Hn)).
    kunfold. by rewrite Hk1. }
  rewrite (bind_run _ _ _ _ _ Hact). destruct (nonnull prev) eqn:Hnn.
  2: { by destruct (threads k !! prev). }
  destruct (Hpe ltac:(by intros ->)) as [p Hpp]. rewrite Hpp. kunfold. simpl.
  rewrite lookup_insert_ne, Hpp by done. destruct (bool_decide (status p = THREAD_DYING)); [|done]. simpl.
  destruct (prev =? initial_thread k); [done|]. simpl.
  rewrite (proj2 (Z.eqb_neq prev (running k))) by done. simpl. unfold free_thread. kunfold. simpl.
  by rewrite lookup_insert_ne, Hpp by done.
Qed.

(** [schedule] runs to the state [scheduled]. *)
Lemma schedule_run st k cur th : sched_inv st k → st ≠ THREAD_RUNNING → intr_on k = false →
  threads k !! running k = Some cur → threads k !! next_of k = Some th →
  schedule k = Ret ((), scheduled k cur th).
Proof.
  intros Hinv Hst Hoff Hcur Hth. unfold schedule, running_thread. run_by ltac:(done).
  set (k1 := set_ready_list (λ _, tail (ready_list k)) k).
  assert (next_thread_to_run k = Ret (next_of k, k1)) as Hnext.
  { unfold next_thread_to_run, next_of. kunfold. destruct k as [? ? ? [|t l]]; done. }
  rewrite (bind_run _ _ _ _ _ Hnext). unfold intr_get_level. run_by ltac:(done). simpl. rewrite Hoff.
  run_by ltac:(done).
  assert (ld_thread (running k) k1 = Ret (cur, k1)) as Hld by (kunfold; simpl; by rewrite Hcur).
  rewrite (bind_run _ _ _ _ _ Hld).
  destruct (si_running _ _ Hinv) as (cur' & Hc & Hs). rewrite Hcur in Hc. injection Hc as <-.
  rewrite bool_decide_eq_false_2 by congruence. run_by ltac:(done).
  assert (next_of k ≠ NULL) as Hnn by (eapply inv_not_null; [done|by exists th]).
  pose proof (si_magic _ _ Hinv _ _ Hth) as Hm.
  rewrite (bind_run _ _ _ _ _ (is_thread_run k1 _ th Hth Hm Hnn)). run_by ltac:(done).
  unfold scheduled. destruct (Z.eqb_spec (running k) (next_of k)) as [E|E]; cbn [negb].
  - run_by ltac:(done).
    assert (threads k1 !! running k1 = Some th) as Ht1 by (simpl; by rewrite E).
    rewrite (tail_run k1 th NULL); [|done|done|simpl; congruence|done|simpl; congruence|done].
    rewrite andb_false_r. simpl threads. rewrite (si_null _ _ Hinv).
    unfold activated, switched. simpl. rewrite E. do 5 f_equal. unfold k1, set_running. simpl. by rewrite <-E.
  - run_by ltac:(done).
    assert (running k ≠ NULL) as Hrn by (eapply inv_not_null; [done|by exists cur]).
    rewrite (tail_run (set_running (λ _, next_of k) k1) th (running k)); [|done..].
    simpl threads. rewrite Hcur, nonnull_true by done. simpl initial_thread.
    rewrite andb_true_r. cbn [andb]. by destruct (bool_decide _ && _).
Qed.

(** ** [schedule] restores the invariant *)

Lemma has_status_det k t a b : has_status k t a → has_status k t b → a = b.
Proof. intros (th & H1 & <-) (th' & H2 & <-). congruence. Qed.

(** The states of threads after a store to one of them. *)
Lemma has_status_insert k k' t th u a : threads k' = <[t := th]> (threads k) →
  has_status k' u a ↔ (u = t ∧ a = status th) ∨ (u ≠ t ∧ has_status k u a).
Proof.
  unfold has_status. intros ->. split.
  - intros (th' & H & Ha). destruct (decide (u = t)) as [->|].
    + rewrite lookup_insert_eq in H. left. split; [done|congruence].
    + rewrite lookup_insert_ne in H by done. right. split; [done|]. by exists th'.
  - intros [[-> Ha]|[Hne (th' & H & Ha)]].
    + exists th. by rewrite lookup_insert_eq.
    + exists th'. by rewrite lookup_insert_ne by done.
Qed.

Lemma alive_insert k k' t th u : threads k' = <[t := th]> (threads k) →
  (∃ x, threads k' !! u = Some x ∧ status x ≠ THREAD_DYING) ↔
    (u = t ∧ status th ≠ THREAD_DYING) ∨
    (u ≠ t ∧ ∃ x, threads k !! u = Some x ∧ status x ≠ THREAD_DYING).
Proof.
  intros ->. destruct (decide (u = t)) as [->|].
  - rewrite lookup_insert_eq. naive_solver.
  - rewrite lookup_insert_ne by done. naive_solver.
Qed.

Lemma waits_on_semas k k' s t : semas k' = semas k → waits_on k' s t ↔ waits_on k s t.
Proof. unfold waits_on. by intros ->. Qed.

(** ** What a step does to the threads that do not run

    [t] is a thread [thread_create] is still working on: blocked, with nothing on its stack
    and on no list of waiters. *)
Definition being_created (k : kern) (t : addr) : Prop :=
  ∃ u ks, konts k !! u = Some ks ∧ KCreate t ∈ ks.
Record unborn (k : kern) (t : addr) : Prop := Unborn {
  ub_status : has_status k t THREAD_BLOCKED;
  ub_stack : konts k !! t = Some [];
  ub_idle : t ≠ idle_thread k;
  ub_waits : ∀ s, ¬ waits_on k s t;
}.

(** [calm x r k k']: from [k] to [k'] no thread has become blocked; the threads that are
    still blocked wait for the same semaphores with the same stacks; and nothing happens to
    the threads that are being created.  The stack of [r] may change, and [x] is excepted
    altogether. *)
Record calm (x : option addr) (r : addr) (k k' : kern) : Prop := Calm {
  cm_idle : idle_thread k' = idle_thread k;
  cm_blocked : ∀ t, x ≠ Some t → t ≠ idle_thread k → has_status k' t THREAD_BLOCKED →
    has_status k t THREAD_BLOCKED ∧ (t ≠ r → konts k' !! t = konts k !! t) ∧
    (∀ s, waits_on k' s t ↔ waits_on k s t) ∧ (being_created k t → being_created k' t);
  cm_unborn : ∀ t, x ≠ Some t → t ≠ r → unborn k t → unborn k' t;
  cm_create : ∀ u ks' t, konts k' !! u = Some ks' → KCreate t ∈ ks' →
    ∃ ks, konts k !! u = Some ks ∧ KCreate t ∈ ks;
}.

Lemma calm_trans x r k1 k2 k3 : calm x r k1 k2 → calm x r k2 k3 → calm x r k1 k3.
Proof.
  intros [I1 B1 U1 C1] [I2 B2 U2 C2]. split; [congruence| | |].
  - intros t Hx Hi Hb. destruct (B2 t Hx ltac:(congruence) Hb) as (Hb2 & E2 & W2 & N2).
    destruct (B1 t Hx Hi Hb2) as (Hb1 & E1 & W1 & N1). split_and!; [done| | |auto].
    + intros Ht. by rewrite E2, E1.
    + intros s. by rewrite W2, W1.
  - auto.
  - intros u ks t Hu Hin. destruct (C2 u ks t Hu Hin) as (ks2 & ? & ?). eauto.
Qed.

Lemma calm_weaken t r k k' : calm None r k k' → calm (Some t) r k k'.
Proof. intros [I B U C]. split; [done|intros; by apply B|intros; by apply U|done]. Qed.

(** Nothing that matters has changed. *)
Lemma calm_ext x r k k' : (∀ t a, x ≠ Some t → has_status k' t a ↔ has_status k t a) →
  konts k' = konts k → (∀ s t, x ≠ Some t → waits_on k' s t ↔ waits_on k s t) →
  idle_thread k' = idle_thread k → calm x r k k'.
Proof.
  intros Hst Hk Hw Hi. split; [done| | |].
  - intros t Hx _ Hb%Hst; [|done]. rewrite Hk. split_and!; [done..|auto|]. unfold being_created. by rewrite Hk.
  - intros t Hx _ [H1 H2 H3 H4]. split; [by apply Hst|by rewrite Hk|by rewrite Hi|].
    intros s Hs%Hw; [|done]. by eapply H4.
  - intros u ks t. rewrite Hk. eauto.
Qed.

Lemma calm_same x r k k' : threads k' = threads k → konts k' = konts k → semas k' = semas k →
  idle_thread k' = idle_thread k → calm x r k k'.
Proof.
  intros Ht Hk Hs Hi. apply calm_ext; [|done| |done].
  - intros t a _. unfold has_status. by rewrite Ht.
  - intros s t _. unfold waits_on. by rewrite Hs.
Qed.

Lemma calm_refl x r k : calm x r k k.
Proof. by apply calm_same. Qed.

(** One stack changes: that of [r], or that of the thread excepted. *)
Lemma calm_stack x r k k' u ks ks' : konts k !! u = Some ks → konts k' = <[u := ks']> (konts k) →
  (u = r ∨ x = Some u) → (∀ t, KCreate t ∈ ks' → KCreate t ∈ ks) →
  (∀ t, x ≠ Some t → KCreate t ∈ ks → KCreate t ∈ ks') →
  threads k' = threads k → semas k' = semas k → idle_thread k' = idle_thread k → calm x r k k'.
Proof.
  intros Hks Hk Hu Hc Hc' Ht Hs Hi.
  assert (∀ t a, has_status k' t a ↔ has_status k t a) as Hst by (intros; unfold has_status; by rewrite Ht).
  assert (∀ s t, waits_on k' s t ↔ waits_on k s t) as Hw by (intros; unfold waits_on; by rewrite Hs).
  split; [done| | |].
  - intros t Hx _ Hb%Hst. split_and!; [done| |done|].
    + intros Hne. rewrite Hk. apply lookup_insert_ne. intros ->. by destruct Hu.
    + intros (u' & ks0 & Hu' & Hin). destruct (decide (u' = u)) as [->|].
      * exists u, ks'. rewrite Hk, lookup_insert_eq. split; [done|]. apply Hc'; [done|congruence].
      * exists u', ks0. by rewrite Hk, lookup_insert_ne by done.
  - intros t Hx Hne [H1 H2 H3 H4]. split; [by apply Hst| |by rewrite Hi|].
    + rewrite Hk, lookup_insert_ne; [done|]. intros ->. by destruct Hu.
    + intros s Hs'%Hw. by eapply H4.
  - intros u' ks0 t. rewrite Hk. intros [[<- <-]|[_ Hu']]%lookup_insert_Some Hin; [|eauto].
    exists ks. split; [done|by apply Hc].
Qed.

(** The stack of [r] changes outside [thread_create]. *)
Lemma calm_own x r k k' ks ks' : konts k !! r = Some ks → konts k' = <[r := ks']> (konts k) →
  (∀ t, KCreate t ∈ ks' ↔ KCreate t ∈ ks) → threads k' = threads k → semas k' = semas k →
  idle_thread k' = idle_thread k → calm x r k k'.
Proof. intros Hks Hk Hc Ht Hs Hi. eapply calm_stack; try done; [by left|apply Hc|intros; by apply Hc]. Qed.

(** The thread excepted has been woken. *)
Lemma calm_woken t r k k' : calm (Some t) r k k' → ¬ has_status k' t THREAD_BLOCKED → ¬ unborn k t →
  calm None r k k'.
Proof.
  intros [I B U C] Hb Hu. split; [done| |  |done].
  - intros t' _ Hi Hb'. apply B; [|done..]. intros [= ->]. done.
  - intros t' _ Hne Hu'. apply U; [|done..]. intros [= ->]. done.
Qed.

(** A thread takes a state: it is [r] itself, or not a thread being created. *)
Lemma calm_status x r k k' t th : threads k' = <[t := th]> (threads k) → konts k' = konts k →
  semas k' = semas k → idle_thread k' = idle_thread k →
  (status th = THREAD_BLOCKED → x = Some t) → (t = r ∨ ¬ unborn k t ∨ x = Some t) → calm x r k k'.
Proof.
  intros Ht Hk Hs Hi Hb Hr.
  assert (∀ s t, waits_on k' s t ↔ waits_on k s t) as Hw by (intros; unfold waits_on; by rewrite Hs).
  split; [done| | |].
  - intros u Hx _ [[-> E]|[_ Hu]]%(has_status_insert _ _ _ _ _ _ Ht); [by rewrite Hb in Hx|].
    rewrite Hk. split_and!; [done..|]. unfold being_created. by rewrite Hk.
  - intros u Hx Hne Hu. assert (u ≠ t) as Hut by (intros ->; destruct Hr as [?|[?|?]]; done).
    destruct Hu as [H1 H2 H3 H4]. split; [|by rewrite Hk|by rewrite Hi|].
    + apply (has_status_insert _ _ _ _ _ _ Ht). by right.
    + intros s Hs'%Hw. by eapply H4.
  - intros u ks t'. rewrite Hk. eauto.
Qed.

Section scheduled.
Context (st : thread_status) (k : kern) (Hinv : sched_inv st k) (Hst : st ≠ THREAD_RUNNING).
Context (th : thread) (Hth : threads k !! next_of k = Some th).

Lemma next_status : status th = THREAD_READY ∨ next_of k = idle_thread k.
Proof.
  unfold next_of in *. destruct (ready_list k) as [|t l] eqn:E; [by right|]. left. simpl in *.
  destruct (si_ready _ _ Hinv t) as [(th' & H & Hs) _]; [rewrite E; set_solver|]. congruence.
Qed.

Lemma next_not_dying : status th ≠ THREAD_DYING.
Proof.
  destruct next_status as [->|E]; [done|]. destruct (si_idle _ _ Hinv) as (th' & H & Hs).
  rewrite <-E in H. congruence.
Qed.

Lemma next_not_waiting s : ¬ waits_on k s (next_of k).
Proof.
  intros Hw. destruct (si_waits _ _ Hinv _ _ Hw) as [Hb Hi]. destruct next_status as [E|E]; [|done].
  apply (has_status_det _ _ _ THREAD_READY) in Hb; [done|by exists th].
Qed.

Lemma switched_status t a : has_status (switched k th) t a ↔
  (t = next_of k ∧ a = THREAD_RUNNING) ∨ (t ≠ next_of k ∧ has_status k t a).
Proof. by apply (has_status_insert k (switched k th) (next_of k) (set_status THREAD_RUNNING th)). Qed.

Lemma switched_inv : sched_inv THREAD_RUNNING (switched k th).
Proof.
  assert (∀ s t, waits_on (switched k th) s t ↔ waits_on k s t) as Hw by (intros; by apply waits_on_semas).
  assert (∀ t, t ∈ tail (ready_list k) → t ∈ ready_list k ∧ t ≠ next_of k) as Htail.
  { intros t Ht. pose proof (si_ready_nodup _ _ Hinv) as Hnd. unfold next_of.
    destruct (ready_list k) as [|u l]; simpl in *; [by apply not_elem_of_nil in Ht|].
    apply NoDup_cons in Hnd as [Hu _]. split; [set_solver|]. by intros ->. }
  split.
  - apply switched_status. by left.
  - intros t x Hx. simpl in Hx. destruct (decide (t = next_of k)) as [->|].
    + rewrite lookup_insert_eq in Hx. injection Hx as <-. apply (si_magic _ _ Hinv _ _ Hth).
    + rewrite lookup_insert_ne in Hx by done. by eapply (si_magic _ _ Hinv).
  - simpl. rewrite lookup_insert_ne; [apply (si_null _ _ Hinv)|].
    eapply inv_not_null; [done|by exists th].
  - intros t [[-> _]|[Hne Ht]]%switched_status; [done|].
    pose proof (si_others _ _ Hinv t Ht) as ->.
    destruct (has_status_det _ _ _ _ Ht (si_running _ _ Hinv)). done.
  - simpl. pose proof (si_ready_nodup _ _ Hinv) as Hnd. destruct (ready_list k); [done|].
    by apply NoDup_cons in Hnd as [_ ?].
  - intros t [Ht Hne]%Htail. destruct (si_ready _ _ Hinv t Ht) as [Hr Hi]. split; [|done].
    apply switched_status. by right.
  - intros t [[_ ?]|[Hne Ht]]%switched_status; [done|].
    destruct (si_ready_all _ _ Hinv t Ht) as [Hin|]; [|by right]. left. simpl. unfold next_of in Hne.
    destruct (ready_list k) as [|u l]; simpl in *; [done|]. set_solver.
  - apply (alive_insert k _ (next_of k) (set_status THREAD_RUNNING th)); [done|].
    destruct (decide (idle_thread k = next_of k)); [by left|right].
    split; [done|]. apply (si_idle _ _ Hinv).
  - apply (si_waiters _ _ Hinv).
  - intros s t Hst'%Hw. destruct (si_waits _ _ Hinv s t Hst') as [Hb Hi]. split; [|done].
    apply switched_status. right. split; [|done]. intros ->. by eapply next_not_waiting.
  - intros s1 s2 t H1%Hw H2%Hw. by eapply (si_waits_one _ _ Hinv).
  - apply (si_all_nodup _ _ Hinv).
  - intros t. rewrite (alive_insert k _ (next_of k) (set_status THREAD_RUNNING th)) by done.
    simpl. rewrite (si_all _ _ Hinv). destruct (decide (t = next_of k)) as [->|]; [|naive_solver].
    pose proof next_not_dying. naive_solver.
  - intros t [x Hx]. simpl in *. apply (si_konts _ _ Hinv). destruct (decide (t = next_of k)) as [->|].
    + by exists th.
    + rewrite lookup_insert_ne in Hx by done. by exists x.
Qed.
End scheduled.

Lemma destroyed_inv k t : sched_inv THREAD_RUNNING k → has_status k t THREAD_DYING →
  sched_inv THREAD_RUNNING (destroyed t k).
Proof.
  intros Hinv Ht.
  assert (∀ u a, a ≠ THREAD_DYING → has_status k u a → has_status (destroyed t k) u a) as Hkeep.
  { intros u a Ha (th & Hu & Hs). exists th. split; [|done]. simpl. rewrite lookup_delete_ne; [done|].
    intros ->. apply Ha. by apply (has_status_det k u); [exists th|]. }
  assert (∀ u x, threads (destroyed t k) !! u = Some x → u ≠ t ∧ threads k !! u = Some x) as Hsub.
  { intros u x Hx. simpl in Hx. by apply lookup_delete_Some in Hx as [? ?]. }
  assert (∀ u a, has_status (destroyed t k) u a → has_status k u a) as Hback.
  { intros u a (x & [_ ?]%Hsub & ?). by exists x. }
  assert (∀ u x, threads k !! u = Some x → status x ≠ THREAD_DYING → u ≠ t) as Hne.
  { intros u x Hx Hs ->. apply Hs. by apply (has_status_det k t); [exists x|]. }
  split.
  - apply Hkeep; [done|apply (si_running _ _ Hinv)].
  - intros u x [_ Hx]%Hsub. by eapply (si_magic _ _ Hinv).
  - simpl. apply lookup_delete_None. right. apply (si_null _ _ Hinv).
  - intros u Hu%Hback. by apply (si_others _ _ Hinv).
  - apply (si_ready_nodup _ _ Hinv).
  - intros u Hu. destruct (si_ready _ _ Hinv u Hu) as [? ?]. split; [by apply Hkeep|done].
  - intros u Hu%Hback. by apply (si_ready_all _ _ Hinv).
  - destruct (si_idle _ _ Hinv) as (x & Hx & Hs). exists x. split; [|done]. simpl.
    rewrite lookup_delete_ne; [done|]. apply not_eq_sym. by eapply Hne.
  - apply (si_waiters _ _ Hinv).
  - intros s u Hu. destruct (si_waits _ _ Hinv s u Hu) as [? ?]. split; [by apply Hkeep|done].
  - apply (si_waits_one _ _ Hinv).
  - apply (si_all_nodup _ _ Hinv).
  - intros u. simpl. rewrite (si_all _ _ Hinv). split; intros (x & Hx & Hs).
    + exists x. split; [|done]. rewrite lookup_delete_ne; [done|]. apply not_eq_sym. by eapply Hne.
    + apply lookup_delete_Some in Hx as [_ ?]. by exists x.
  - intros u [x [Hne' Hx]%Hsub]. simpl. rewrite lookup_delete_ne by done.
    apply (si_konts _ _ Hinv). by exists x.
Qed.

(** The state [schedule] leaves: the next thread runs, and the one that ran may be gone. *)
Lemma scheduled_calm st k cur th : sched_inv st k → st ≠ THREAD_RUNNING → threads k !! running k = Some cur →
  threads k !! next_of k = Some th → (status cur = THREAD_DYING → konts k !! running k = Some []) →
  calm None (running k) k (scheduled k cur th).
Proof.
  intros Hinv Hst Hcur Hth Hdy. apply (calm_trans _ _ _ (switched k th)).
  { eapply (calm_status _ _ _ _ (next_of k) (set_status THREAD_RUNNING th)); try done.
    right. left. intros [(th' & Ht' & Hb) _ Hi _]. destruct (next_status _ _ Hinv Hst th Hth); [congruence|done]. }
  unfold scheduled. destruct (bool_decide (status cur = THREAD_DYING)) eqn:Hd; [|apply calm_refl].
  apply bool_decide_eq_true in Hd. specialize (Hdy Hd).
  destruct (Z.eqb_spec (running k) (next_of k)) as [|Hne]; [apply calm_refl|].
  destruct (running k =? initial_thread k); [apply calm_refl|]. simpl.
  assert (has_status (switched k th) (running k) THREAD_DYING) as Hrd.
  { apply switched_status. right. split; [done|]. by exists cur. }
  split; [done| | |].
  - intros t _ _ (x & Hx & Hs). simpl in Hx. apply lookup_delete_Some in Hx as [Hr Hx].
    split_and!; [by exists x| |done|].
    + intros _. simpl. by apply lookup_delete_ne.
    + intros (u & ks & Hu & Hin). exists u, ks. split; [|done]. simpl. apply lookup_delete_Some.
      split; [|done]. intros <-. simpl in Hu. rewrite Hdy in Hu. injection Hu as <-.
      by apply not_elem_of_nil in Hin.
  - intros t _ Hne' [(x & Hx & Hs) H2 H3 H4]. split; [|simpl; by rewrite lookup_delete_ne|done|done].
    exists x. split; [|done]. simpl. by rewrite lookup_delete_ne.
  - intros u ks t Hu Hin. simpl in Hu. apply lookup_delete_Some in Hu as [_ Hu]. by exists ks.
Qed.

(** Where [schedule] leads from a state in which the running thread has given up the processor. *)
Lemma schedule_spec st k : sched_inv st k → st ≠ THREAD_RUNNING → intr_on k = false →
  (st = THREAD_DYING → konts k !! running k = Some []) →
  ∃ k', schedule k = Ret ((), k') ∧ sched_inv THREAD_RUNNING k' ∧
    running k' = next_of k ∧ ready_list k' = tail (ready_list k) ∧ semas k' = semas k ∧
    holders k' = holders k ∧ conds k' = conds k ∧ idle_thread k' = idle_thread k ∧
    in_external_intr k' = in_external_intr k ∧ intr_on k' = false ∧
    (konts k' = konts k ∨ (st = THREAD_DYING ∧ konts k' = delete (running k) (konts k))) ∧
    calm None (running k) k k'.
Proof.
  intros Hinv Hst Hoff Hdy. destruct (si_running _ _ Hinv) as (cur & Hcur & Hs).
  destruct (inv_next _ _ Hinv) as [th Hth]. exists (scheduled k cur th).
  split; [by eapply schedule_run|]. pose proof (switched_inv _ _ Hinv Hst th Hth) as Hsw.
  assert (calm None (running k) k (scheduled k cur th)) as Hcalm.
  { eapply scheduled_calm; [done..|]. intros E. apply Hdy. congruence. }
  unfold scheduled in *. destruct (bool_decide (status cur = THREAD_DYING)) eqn:Hd; simpl in *.
  2: { split_and!; try done. by left. }
  apply bool_decide_eq_true in Hd.
  destruct (Z.eqb_spec (running k) (next_of k)) as [|Hne]; simpl in *; [split_and!; try done; by left|].
  destruct (running k =? initial_thread k); simpl in *; [split_and!; try done; by left|].
  split_and!; try done; [|by right; split; [congruence|]].
  apply destroyed_inv; [done|]. apply (switched_status k th). right. split; [done|]. by exists cur.
Qed.
