(* ===== verification/SynchProofs.v ===== *)
(** * The machine of threads and its invariant

    A step of the machine is a call of an operation by the running thread, the running
    thread continuing an operation it is in, or a timer interrupt.  The invariant says that
    the scheduler's lists agree with the states of the threads, that a thread is blocked
    where its stack says it is, and that a lock is in one of three states: free, held, or
    taken by a thread that has not yet recorded itself as the holder. *)
From S2P Require Import Prelude KList Kernel Thread Synch SchedProofs.

(** ** Invariant of the locks *)

(** The thread with the activations [ks] has taken the semaphore of lock [l] and is about to
    store itself in [l->holder]. *)
Fixpoint passed (l : addr) (ks : list kont) : bool :=
  match ks with
  | KYield _ :: ks | KIret :: ks => passed l ks
  | KAcquire l' :: _ => l =? l'
  | _ => false
  end.
Definition acquiring (k : kern) (l t : addr) : Prop :=
  ∃ ks, konts k !! t = Some ks ∧ passed l ks = true.

Inductive lock_state (k : kern) (l : addr) : Prop :=
| lock_free (H : holders k !! l = Some NULL) ws (Hv : semas k !! lock_sema l = Some (Semaphore 1 ws))
    (Hno : ∀ t, ¬ acquiring k l t)
| lock_held h (H : holders k !! l = Some h) (Hh : h ≠ NULL) ws
    (Hv : semas k !! lock_sema l = Some (Semaphore 0 ws)) (Hno : ∀ t, ¬ acquiring k l t)
| lock_taken t (H : holders k !! l = Some NULL) ws
    (Hv : semas k !! lock_sema l = Some (Semaphore 0 ws)) (Ht : acquiring k l t)
    (Hone : ∀ u, acquiring k l u → u = t).

Definition is_lock_sema (k : kern) (s : addr) : Prop := ∃ l, is_Some (holders k !! l) ∧ s = lock_sema l.
Definition no_acq (ks : list kont) : Prop := ∀ l, passed l ks = false.

(** An activation of [lock_acquire] is entered only by way of its [sema_down], and
    [thread_create] is called from outside the other operations. *)
Definition kont_ok (k : kern) (c : kont) (rest : list kont) : Prop :=
  match c with
  | KYield _ | KIret => True
  | KDown s _ => (∃ l r, rest = KAcquire l :: r ∧ s = lock_sema l ∧ is_Some (holders k !! l)) ∨
                 (¬ is_lock_sema k s ∧ no_acq rest)
  | KTid t => rest = [KCreate t]
  | KCreate _ => rest = []
  | _ => no_acq rest
  end.
Fixpoint stack_ok (k : kern) (ks : list kont) : Prop :=
  match ks with
  | [] => True
  | c :: rest => kont_ok k c rest ∧ stack_ok k rest
  end.

(** The activations the idle thread can be in. *)
Definition idle_kont (c : kont) : Prop :=
  match c with KIdle | KYield _ | KIret => True | _ => False end.

(** The part of the invariant that is not the scheduler's. *)
Record sync_inv (k : kern) : Prop := SyncInv {
  sy_locks : ∀ l, is_Some (holders k !! l) → lock_state k l;
  sy_stacks : ∀ t ks, konts k !! t = Some ks → stack_ok k ks;
  sy_idle : ∀ ks, konts k !! idle_thread k = Some ks → Forall idle_kont ks;
  sy_conds : ∀ c ws w, conds k !! c = Some ws → w ∈ ws → ¬ is_lock_sema k w;
  sy_ext : in_external_intr k = false;
}.

Definition inv (k : kern) : Prop := sched_inv THREAD_RUNNING k ∧ sync_inv k.

(** ** Where blocked threads are *)

(** The thread [t] is blocked where its stack says: in [sema_down], and then it is on the list
    of waiters of that semaphore; in a direct call of [thread_block]; or it has no stack yet
    and its creation is going on. *)
Definition parked (k : kern) (t : addr) : Prop :=
  ∃ ks, konts k !! t = Some ks ∧
    match ks with
    | [] => being_created k t
    | KDown s _ :: _ => waits_on k s t
    | KBlock :: _ => ∀ s, ¬ waits_on k s t
    | _ => False
    end.
Definition blocked_inv (k : kern) : Prop :=
  ∀ t, has_status k t THREAD_BLOCKED → t ≠ idle_thread k → parked k t.

(** At most one thread creates [t], which has not been started. *)
Definition create_inv (k : kern) : Prop :=
  ∀ u ks t, konts k !! u = Some ks → KCreate t ∈ ks →
    unborn k t ∧ ∀ u' ks', konts k !! u' = Some ks' → KCreate t ∈ ks' → u' = u.

(** The invariant of the machine. *)
Definition machine_inv (k : kern) : Prop := inv k ∧ blocked_inv k ∧ create_inv k.

(** What an operation of the thread [r] does to the others and to [r] itself: it may block,
    and then it is parked. *)
Definition evolves (r : addr) (k k' : kern) : Prop :=
  calm None r k k' ∨ (calm (Some r) r k k' ∧ parked k' r).

Lemma evolves_calm r k k' : calm None r k k' → evolves r k k'.
Proof. by left. Qed.

Lemma calm_evolves r k k1 k2 : calm None r k k1 → evolves r k1 k2 → evolves r k k2.
Proof.
  intros H1 [H2|[H2 Hp]]; [left; by eapply calm_trans|right]. split; [|done].
  eapply calm_trans; [by apply calm_weaken|done].
Qed.

Lemma parked_same k k' t : konts k' !! t = konts k !! t → (∀ s, waits_on k' s t ↔ waits_on k s t) →
  (being_created k t → being_created k' t) → parked k t → parked k' t.
Proof.
  intros Hk Hw Hc (ks & Hks & Hp). exists ks. rewrite Hk. split; [done|].
  destruct ks as [|[] ks]; try done; [auto|by apply Hw|]. intros s0 Hs%Hw. by eapply Hp.
Qed.

(** Calm steps keep the other threads parked and the creations going. *)
Lemma calm_blocked x k k' t : inv k → blocked_inv k → calm x (running k) k k' → x ≠ Some t →
  has_status k' t THREAD_BLOCKED → t ≠ idle_thread k' → parked k' t.
Proof.
  intros [Hs _] Hb [I B _ _] Hx Ht Hi. rewrite I in Hi. destruct (B t Hx Hi Ht) as (Hbt & Hk & Hw & Hc).
  apply (parked_same k); [|done..|by apply Hb]. apply Hk. intros ->.
  by pose proof (has_status_det _ _ _ _ Hbt (si_running _ _ Hs)).
Qed.

Lemma calm_create x k k' : inv k → create_inv k → calm x (running k) k k' →
  (∀ t, x = Some t → ¬ being_created k' t) → create_inv k'.
Proof.
  intros [Hs _] Hc [I _ U C] Hx u ks' t Hu Hin. destruct (C u ks' t Hu Hin) as (ks & Hu0 & Hin0).
  destruct (Hc u ks t Hu0 Hin0) as [Hub Huniq]. split.
  - apply U; [|intros ->|done].
    + intros E. apply (Hx t E). by exists u, ks'.
    + by pose proof (has_status_det _ _ _ _ (ub_status _ _ Hub) (si_running _ _ Hs)).
  - intros u' ks1 Hu' Hin'. destruct (C u' ks1 t Hu' Hin') as (ks2 & ? & ?). by eapply Huniq.
Qed.

Lemma running_not_created k : inv k → create_inv k → ¬ being_created k (running k).
Proof.
  intros [Hs _] Hc (u & ks & Hu & Hin). destruct (Hc _ _ _ Hu Hin) as [[Hb _ _ _] _].
  by pose proof (has_status_det _ _ _ _ Hb (si_running _ _ Hs)).
Qed.

Lemma evolves_inv k k' : machine_inv k → evolves (running k) k k' → blocked_inv k' ∧ create_inv k'.
Proof.
  intros (Hinv & Hb & Hc) [Hcalm|[Hcalm Hp]]; split.
  - intros t Ht Hi. by eapply calm_blocked.
  - by eapply calm_create.
  - intros t Ht Hi. destruct (decide (t = running k)) as [->|]; [done|].
    eapply calm_blocked; [done..| |done|done]. congruence.
  - eapply calm_create; [done..|]. intros t [= <-] (u & ks & Hu & Hin).
    destruct (cm_create _ _ _ _ Hcalm _ _ _ Hu Hin) as (ks0 & ? & ?).
    apply (running_not_created k Hinv Hc). by exists u, ks0.
Qed.

(** Only the holder of a lock gives it up: what a step may do to the holders. *)
Definition holders_step (k k' : kern) : Prop :=
  (∀ l, is_Some (holders k' !! l) ↔ is_Some (holders k !! l)) ∧
  ∀ l h, holders k !! l = Some h → h ≠ NULL →
    holders k' !! l = Some h ∨ (h = running k ∧ holders k' !! l = Some NULL).

(** ** What the invariants depend on *)

Lemma sched_inv_ext st k k' : threads k' = threads k → konts k' = konts k → running k' = running k →
  ready_list k' = ready_list k → all_list k' = all_list k → idle_thread k' = idle_thread k →
  semas k' = semas k → sched_inv st k → sched_inv st k'.
Proof.
  destruct k, k'; simpl. intros -> -> -> -> -> -> -> []. by split.
Qed.

Lemma stack_ok_ext k k' ks : (∀ l, is_Some (holders k' !! l) ↔ is_Some (holders k !! l)) →
  stack_ok k ks → stack_ok k' ks.
Proof.
  intros Hh. induction ks as [|c ks IH]; [done|]. intros [Hc Hks]. split; [|by apply IH].
  destruct c as [s ?| | | | | | | | |]; try done. destruct Hc as [(l & r & -> & -> & Hl)|[Hs Hn]].
  - left. exists l, r. split_and!; [done..|by apply Hh].
  - right. split; [|done]. intros (l & Hl & ->). apply Hs. exists l. split; [by apply Hh|done].
Qed.

Lemma sync_inv_ext k k' : holders k' = holders k → konts k' = konts k → semas k' = semas k →
  conds k' = conds k → in_external_intr k' = in_external_intr k → idle_thread k' = idle_thread k →
  sync_inv k → sync_inv k'.
Proof.
  destruct k, k'; simpl. intros -> -> -> -> -> -> [H1 H2 H3 H4 H5]. split; simpl in *; try done.
  - intros l Hl. destruct (H1 l Hl); [by eapply lock_free|by eapply lock_held|by eapply lock_taken].
  - intros t ks Hks. eapply stack_ok_ext; [|by eapply H2]. done.
Qed.

Lemma holders_step_refl k k' : holders k' = holders k → holders_step k k'.
Proof. intros E. unfold holders_step. rewrite E. split; [done|]. by left. Qed.

(** ** Interrupt levels *)

Definition level (k : kern) (b : bool) : kern := set_intr_on (λ _, b) k.

Lemma sched_inv_level st k b : sched_inv st (level k b) ↔ sched_inv st k.
Proof. split; by apply sched_inv_ext. Qed.
Lemma sync_inv_level k b : sync_inv (level k b) ↔ sync_inv k.
Proof. split; by apply sync_inv_ext. Qed.

Lemma wlp_intr_set_level b k (Q : bool → kern → Prop) :
  Q (intr_on k) (level k b) → wlp (intr_set_level b) k Q.
Proof.
  intros HQ. unfold intr_set_level, intr_enable, intr_disable, intr_get_level, intr_context.
  destruct b.
  - apply wlp_bind, wlp_gets, wlp_bind, wlp_gets, wlp_bind, wlp_assert. intros _.
    by apply wlp_bind, wlp_modify, wlp_ret.
  - apply wlp_bind, wlp_gets. by apply wlp_bind, wlp_modify, wlp_ret.
Qed.

Lemma wlp_intr_disable k (Q : bool → kern → Prop) : Q (intr_on k) (level k false) → wlp intr_disable k Q.
Proof. apply (wlp_intr_set_level false). Qed.

Lemma wlp_load {A} (get : kern → gmap addr A) a k (Q : A → kern → Prop) :
  (∀ x, get k !! a = Some x → Q x k) → wlp (load get a) k Q.
Proof. unfold wlp, load. intros HQ x k'. destruct (get k !! a); [|done]. intros [= <- <-]. by apply HQ. Qed.

Lemma wlp_upd_thread t f k (Q : () → kern → Prop) :
  (∀ th, threads k !! t = Some th → Q () (set_threads <[t := f th]> k)) → wlp (upd_thread t f) k Q.
Proof. intros HQ. apply wlp_bind, wlp_load. intros th Ht. by apply wlp_modify, HQ. Qed.

Lemma wlp_upd_sema s f k (Q : () → kern → Prop) :
  (∀ x, semas k !! s = Some x → Q () (set_semas <[s := f x]> k)) → wlp (upd_sema s f) k Q.
Proof. intros HQ. apply wlp_bind, wlp_load. intros x Hx. by apply wlp_modify, HQ. Qed.

Lemma wlp_is_thread t k (Q : bool → kern → Prop) :
  (∀ b, (b = true → is_Some (threads k !! t)) → Q b k) → wlp (is_thread t) k Q.
Proof.
  intros HQ. unfold is_thread. destruct (nonnull t); [|by apply wlp_ret, HQ].
  apply wlp_bind, wlp_load. intros th Ht. apply wlp_ret, HQ. by exists th.
Qed.

Lemma wlp_thread_current k (Q : addr → kern → Prop) : Q (running k) k → wlp thread_current k Q.
Proof.
  intros HQ. unfold thread_current, running_thread. apply wlp_bind, wlp_gets, wlp_bind, wlp_is_thread.
  intros b Hb. apply wlp_bind, wlp_assert. intros ->. apply wlp_bind, wlp_load. intros th Ht.
  apply wlp_bind, wlp_assert. intros _. by apply wlp_ret.
Qed.

(** ** Blocking and unblocking *)

(** What a change of the scheduler's own data leaves alone. *)
Record same_sync (k k' : kern) : Prop := SameSync {
  ss_holders : holders k' = holders k;
  ss_konts : konts k' = konts k;
  ss_semas : semas k' = semas k;
  ss_conds : conds k' = conds k;
  ss_ext : in_external_intr k' = in_external_intr k;
  ss_running : running k' = running k;
  ss_idle : idle_thread k' = idle_thread k;
}.

Lemma same_sync_inv k k' : same_sync k k' → sync_inv k → sync_inv k'.
Proof. intros []. by apply sync_inv_ext. Qed.

(** A thread that is not the running one changes from blocked to ready. *)
Lemma unblock_inv k t th : sched_inv THREAD_RUNNING k → threads k !! t = Some th →
  status th = THREAD_BLOCKED → t ≠ idle_thread k → (∀ s, ¬ waits_on k s t) →
  sched_inv THREAD_RUNNING
    (set_threads <[t := set_status THREAD_READY th]> (set_ready_list (λ l, l ++ [t]) k)).
Proof.
  intros Hinv Ht Hb Hi Hw. set (k' := set_threads _ _).
  assert (threads k' = <[t := set_status THREAD_READY th]> (threads k)) as Hth by done.
  pose proof (λ u a, has_status_insert k k' t _ u a Hth) as Hst. simpl in Hst.
  assert (has_status k t THREAD_BLOCKED) as Htb by (by exists th).
  assert (t ≠ running k) as Htr.
  { intros ->. by pose proof (has_status_det _ _ _ _ Htb (si_running _ _ Hinv)). }
  assert (t ∉ ready_list k) as Htn.
  { intros Hin. destruct (si_ready _ _ Hinv t Hin) as [Hr _].
    by pose proof (has_status_det _ _ _ _ Htb Hr). }
  assert (∀ s u, waits_on k s u → u ≠ t) as Hwn by (intros s u Hu ->; by eapply Hw).
  split.
  - apply Hst. right. split; [done|apply (si_running _ _ Hinv)].
  - intros u x Hx. rewrite Hth in Hx. destruct (decide (u = t)) as [->|].
    + rewrite lookup_insert_eq in Hx. injection Hx as <-. apply (si_magic _ _ Hinv _ _ Ht).
    + rewrite lookup_insert_ne in Hx by done. by eapply (si_magic _ _ Hinv).
  - rewrite Hth, lookup_insert_ne; [apply (si_null _ _ Hinv)|].
    eapply inv_not_null; [done|by exists th].
  - intros u [[_ ?]|[_ Hu]]%Hst; [done|]. by apply (si_others _ _ Hinv).
  - simpl. apply NoDup_app. split; [apply (si_ready_nodup _ _ Hinv)|]. split; [|apply NoDup_singleton].
    intros u Hu ->%list_elem_of_singleton. done.
  - intros u. simpl. rewrite elem_of_app, list_elem_of_singleton. intros [Hu| ->].
    + destruct (si_ready _ _ Hinv u Hu) as [? ?]. split; [|done]. apply Hst. right. split; [|done].
      by intros ->.
    + split; [|done]. apply Hst. by left.
  - intros u. simpl. rewrite elem_of_app, list_elem_of_singleton. rewrite Hst.
    intros [[-> _]|[_ Hu]]; [by left; right|]. destruct (si_ready_all _ _ Hinv u Hu); auto.
  - apply (alive_insert k k' t _ _ Hth). right. split; [done|apply (si_idle _ _ Hinv)].
  - apply (si_waiters _ _ Hinv).
  - intros s u Hu. pose proof (Hwn s u Hu). destruct (si_waits _ _ Hinv s u Hu) as [? ?]. split; [|done].
    apply Hst. by right.
  - apply (si_waits_one _ _ Hinv).
  - apply (si_all_nodup _ _ Hinv).
  - intros u. rewrite (alive_insert k k' t _ _ Hth). simpl. rewrite (si_all _ _ Hinv).
    destruct (decide (u = t)) as [->|]; [|naive_solver].
    assert (status th ≠ THREAD_DYING) by congruence. naive_solver.
  - intros u [x Hx]. rewrite Hth in Hx. apply (si_konts _ _ Hinv). destruct (decide (u = t)) as [->|].
    + by exists th.
    + rewrite lookup_insert_ne in Hx by done. by exists x.
Qed.

Definition unblocked (k : kern) (t : addr) (th : thread) : kern :=
  set_threads <[t := set_status THREAD_READY th]> (set_ready_list (λ l, l ++ [t]) k).

Lemma wlp_thread_unblock_state t k (Q : () → kern → Prop) :
  (∀ th, threads k !! t = Some th → status th = THREAD_BLOCKED →
     Q () (level (unblocked k t th) (intr_on k))) →
  wlp (thread_unblock t) k Q.
Proof.
  intros HQ. unfold thread_unblock. apply wlp_bind, wlp_is_thread. intros b _.
  apply wlp_bind, wlp_assert. intros ->. apply wlp_bind, wlp_intr_disable.
  apply wlp_bind, wlp_load. intros th Ht. apply wlp_bind, wlp_assert.
  intros Hb%bool_decide_eq_true. apply wlp_bind, wlp_modify. apply wlp_bind, wlp_upd_thread.
  intros th' Ht'. simpl in Ht'. replace th' with th by (simpl in Ht; congruence).
  apply wlp_bind, wlp_intr_set_level, wlp_ret. by apply HQ.
Qed.

Lemma wlp_thread_unblock t k : sched_inv THREAD_RUNNING k → t ≠ idle_thread k →
  (∀ s, ¬ waits_on k s t) →
  wlp (thread_unblock t) k (λ _ k', sched_inv THREAD_RUNNING k' ∧ same_sync k k').
Proof.
  intros Hinv Hi Hw. apply wlp_thread_unblock_state. intros th Ht Hb. split; [|done].
  apply sched_inv_level. by apply unblock_inv.
Qed.

(** The running thread blocks, on the semaphore [s] if it has been added to its waiters. *)
Lemma block_inv k th : sched_inv THREAD_RUNNING k → threads k !! running k = Some th →
  sched_inv THREAD_BLOCKED (set_threads <[running k := set_status THREAD_BLOCKED th]> k).
Proof.
  intros Hinv Ht. set (k' := set_threads _ k).
  assert (threads k' = <[running k := set_status THREAD_BLOCKED th]> (threads k)) as Hth by done.
  pose proof (λ u a, has_status_insert k k' _ _ u a Hth) as Hst. simpl in Hst.
  assert (∀ u a, a ≠ THREAD_RUNNING → has_status k u a → has_status k' u a) as Hkeep.
  { intros u a Ha Hu. apply Hst. right. split; [|done]. intros ->.
    apply Ha. by apply (has_status_det _ _ _ _ Hu), (si_running _ _ Hinv). }
  destruct (si_running _ _ Hinv) as (th0 & H0 & Hs0). assert (th0 = th) as -> by congruence.
  split.
  - apply Hst. by left.
  - intros u x Hx. rewrite Hth in Hx. destruct (decide (u = running k)) as [->|].
    + rewrite lookup_insert_eq in Hx. injection Hx as <-. apply (si_magic _ _ Hinv _ _ Ht).
    + rewrite lookup_insert_ne in Hx by done. by eapply (si_magic _ _ Hinv).
  - rewrite Hth, lookup_insert_ne; [apply (si_null _ _ Hinv)|].
    eapply inv_not_null; [done|by exists th].
  - intros u [[_ ?]|[Hne Hu]]%Hst; [done|]. by apply (si_others _ _ Hinv).
  - apply (si_ready_nodup _ _ Hinv).
  - intros u Hu. destruct (si_ready _ _ Hinv u Hu) as [? ?]. split; [by apply Hkeep|done].
  - intros u [[_ ?]|[_ Hu]]%Hst; [done|]. by apply (si_ready_all _ _ Hinv).
  - apply (alive_insert k k' _ _ _ Hth). destruct (decide (idle_thread k = running k)); [by left|right].
    split; [done|apply (si_idle _ _ Hinv)].
  - apply (si_waiters _ _ Hinv).
  - intros s u Hu. destruct (si_waits _ _ Hinv s u Hu) as [? ?]. split; [by apply Hkeep|done].
  - apply (si_waits_one _ _ Hinv).
  - apply (si_all_nodup _ _ Hinv).
  - intros u. rewrite (alive_insert k k' _ _ _ Hth). simpl. rewrite (si_all _ _ Hinv).
    destruct (decide (u = running k)) as [->|]; [|naive_solver].
    assert (status th ≠ THREAD_DYING) by congruence. naive_solver.
  - intros u [x Hx]. rewrite Hth in Hx. apply (si_konts _ _ Hinv). destruct (decide (u = running k)) as [->|].
    + by exists th.
    + rewrite lookup_insert_ne in Hx by done. by exists x.
Qed.

(** A blocked running thread may be put at the end of a list of waiters. *)
Lemma enqueue_inv k s x : sched_inv THREAD_BLOCKED k → semas k !! s = Some x →
  running k ≠ idle_thread k → (∀ s, ¬ waits_on k s (running k)) →
  sched_inv THREAD_BLOCKED (set_semas <[s := Semaphore (value x) (waiters x ++ [running k])]> k).
Proof.
  intros Hinv Hx Hi Hw. set (k' := set_semas _ k).
  assert (∀ s' t, waits_on k' s' t ↔ waits_on k s' t ∨ (s' = s ∧ t = running k)) as Hwo.
  { intros s' t. unfold waits_on, k'. simpl. destruct (decide (s' = s)) as [->|].
    - rewrite lookup_insert_eq, Hx. setoid_rewrite (inj_iff Some). split.
      + intros (y & <- & Hin). simpl in Hin. rewrite elem_of_app, list_elem_of_singleton in Hin.
        destruct Hin; [left; by exists x|by right].
      + intros [(y & <- & Hin)|[_ ->]]; eexists; (split; [done|]); simpl; set_solver.
    - rewrite lookup_insert_ne by done. naive_solver. }
  destruct Hinv as [H1 H2 H3 H4 H5 H6 H7 H8 H9 H10 H11 H12 H13 H14]. split; try done.
  - intros s' y. unfold k'. simpl. destruct (decide (s' = s)) as [->|].
    + rewrite lookup_insert_eq. intros [= <-]. simpl. apply NoDup_app. split; [by eapply H9|].
      split; [|apply NoDup_singleton]. intros t Ht ->%list_elem_of_singleton.
      apply (Hw s). by exists x.
    + rewrite lookup_insert_ne by done. apply H9.
  - intros s' t [Ht|[-> ->]]%Hwo; [by apply (H10 s')|done].
  - intros s1 s2 t [H1'|[-> ->]]%Hwo [H2'|[-> E]]%Hwo; subst; [by eapply H11| | |done].
    + by apply Hw in H1'.
    + by apply Hw in H2'.
Qed.

(** ** Switching from an operation *)

(** What a context switch leaves alone. *)
Record same_objects (k k' : kern) : Prop := SameObjects {
  so_holders : holders k' = holders k;
  so_konts : konts k' = konts k;
  so_semas : semas k' = semas k;
  so_conds : conds k' = conds k;
  so_ext : in_external_intr k' = in_external_intr k;
  so_idle : idle_thread k' = idle_thread k;
}.

Lemma same_objects_inv k k' : same_objects k k' → sync_inv k → sync_inv k'.
Proof. intros []. by apply sync_inv_ext. Qed.

Lemma wlp_schedule st k : sched_inv st k → st ≠ THREAD_RUNNING → st ≠ THREAD_DYING →
  intr_on k = false → wlp schedule k (λ _ k', sched_inv THREAD_RUNNING k' ∧ same_objects k k' ∧
    calm None (running k) k k').
Proof.
  intros Hinv Hst Hd Hoff. destruct (schedule_spec st k Hinv Hst Hoff)
    as (k' & Hrun & Hinv' & ? & ? & ? & ? & ? & ? & ? & ? & Hk & Hcalm); [done|].
  eapply wlp_run; [exact Hrun|]. split_and!; [done| |done]. destruct Hk as [?|[? _]]; [by split|done].
Qed.

Lemma wlp_thread_block k :
  (∀ th, threads k !! running k = Some th →
     sched_inv THREAD_BLOCKED (set_threads <[running k := set_status THREAD_BLOCKED th]> k)) →
  wlp thread_block k (λ _ k', sched_inv THREAD_RUNNING k' ∧ same_objects k k' ∧
    calm (Some (running k)) (running k) k k').
Proof.
  intros Hb. unfold thread_block, intr_context, intr_get_level.
  apply wlp_bind, wlp_gets, wlp_bind, wlp_assert. intros _.
  apply wlp_bind, wlp_gets, wlp_bind, wlp_assert. intros Hoff%negb_true_iff.
  apply wlp_bind, wlp_thread_current, wlp_bind, wlp_upd_thread. intros th Ht.
  eapply wlp_mono; [apply (wlp_schedule THREAD_BLOCKED); [by apply Hb|done..]|].
  intros _ k' (? & [] & Hcalm). split_and!; [done|by split|].
  eapply calm_trans; [|apply calm_weaken, Hcalm].
  apply (calm_status _ _ _ _ (running k) (set_status THREAD_BLOCKED th)); auto.
Qed.

(** ** Stacks and locks *)

Lemma lock_sema_inj l l' : lock_sema l = lock_sema l' → l = l'.
Proof. unfold lock_sema. lia. Qed.

Lemma lock_state_ext k k' l : holders k' !! l = holders k !! l →
  value <$> semas k' !! lock_sema l = value <$> semas k !! lock_sema l →
  (∀ t, acquiring k' l t ↔ acquiring k l t) → lock_state k l → lock_state k' l.
Proof.
  intros Hh Hv Ha Hl. destruct Hl as [H ws Hs Hno|h H Hne ws Hs Hno|t H ws Hs Ht Hone];
    rewrite Hs in Hv; apply fmap_Some in Hv as ([v ws'] & Hv & [= <-]); rewrite <-Hh in H.
  - eapply lock_free; [done..|]. intros t Ht%Ha. by eapply Hno.
  - eapply lock_held; [done..|]. intros t Ht%Ha. by eapply Hno.
  - eapply (lock_taken k' l t); [done..|by apply Ha|]. intros u Hu%Ha. by apply Hone.
Qed.

Lemma acquiring_insert k k' r ks l t : konts k' = <[r := ks]> (konts k) →
  acquiring k' l t ↔ (t = r ∧ passed l ks = true) ∨ (t ≠ r ∧ acquiring k l t).
Proof.
  intros E. unfold acquiring. rewrite E. destruct (decide (t = r)) as [->|].
  - rewrite lookup_insert_eq. naive_solver.
  - rewrite lookup_insert_ne by done. naive_solver.
Qed.

(** A change of one stack that does not show in any lock. *)
Lemma acquiring_same k k' r ks ks' l t : konts k !! r = Some ks → konts k' = <[r := ks']> (konts k) →
  passed l ks' = passed l ks → acquiring k' l t ↔ acquiring k l t.
Proof.
  intros Hks E Hp. rewrite (acquiring_insert k k' r ks' l t E), Hp. destruct (decide (t = r)) as [->|].
  - unfold acquiring. rewrite Hks. naive_solver.
  - naive_solver.
Qed.

(** The invariant after the stack of [r] changes from [ks] to [ks'], the holders stay and the
    values of semaphores change only where no lock is concerned. *)
Lemma sync_inv_stack k k' r ks ks' : sync_inv k → konts k !! r = Some ks →
  konts k' = <[r := ks']> (konts k) → holders k' = holders k → conds k' = conds k →
  in_external_intr k' = in_external_intr k → idle_thread k' = idle_thread k →
  (∀ l, is_Some (holders k !! l) →
     value <$> semas k' !! lock_sema l = value <$> semas k !! lock_sema l) →
  (∀ l, passed l ks' = passed l ks) → stack_ok k ks' → (r = idle_thread k → Forall idle_kont ks') →
  sync_inv k'.
Proof.
  intros [H1 H2 H3 H4 H5] Hks E Hh Hc He Hi Hv Hp Hok Hid. split.
  - intros l Hl. rewrite Hh in Hl. eapply lock_state_ext; [by rewrite Hh|by apply Hv| |by apply H1].
    intros t. by eapply acquiring_same.
  - intros t ks0. rewrite E. intros [[-> <-]|[_ Ht]]%lookup_insert_Some;
      eapply stack_ok_ext with (k := k); try (by rewrite Hh); [done|by eapply H2].
  - rewrite E, Hi. intros ks0 [[-> <-]|[_ Ht]]%lookup_insert_Some; [by apply Hid|by apply H3].
  - intros c ws w. rewrite Hc. intros Hcw Hw (l & Hl & ->). rewrite Hh in Hl.
    eapply H4; [done..|]. by exists l.
  - congruence.
Qed.

(** Changing only the waiters of a semaphore. *)
Lemma sync_inv_waiters k s x ws : sync_inv k → semas k !! s = Some x →
  sync_inv (set_semas <[s := Semaphore (value x) ws]> k).
Proof.
  intros [H1 H2 H3 H4 H5] Hx. split; simpl; try done.
  - intros l Hl. eapply lock_state_ext with (k := k); [done| |done|by apply H1]. simpl.
    destruct (decide (lock_sema l = s)) as [<-|]; [by rewrite lookup_insert_eq, Hx|].
    by rewrite lookup_insert_ne.
  - intros t ks Hks. eapply stack_ok_ext with (k := k); [done|by eapply H2].
Qed.

(** ** Semaphores *)

Lemma inv_running_not_waiting k s : sched_inv THREAD_RUNNING k → ¬ waits_on k s (running k).
Proof.
  intros Hinv Hw. destruct (si_waits _ _ Hinv _ _ Hw) as [Hb _].
  by pose proof (has_status_det _ _ _ _ Hb (si_running _ _ Hinv)).
Qed.

(** The values of semaphores do not matter to the scheduler. *)
Lemma sched_inv_value st k s x v : semas k !! s = Some x → sched_inv st k →
  sched_inv st (set_semas <[s := Semaphore v (waiters x)]> k).
Proof.
  intros Hx Hinv. set (k' := set_semas _ k).
  assert (∀ s' t, waits_on k' s' t ↔ waits_on k s' t) as Hw.
  { intros s' t. unfold waits_on, k'. simpl. destruct (decide (s' = s)) as [->|].
    - rewrite lookup_insert_eq, Hx. naive_solver.
    - by rewrite lookup_insert_ne. }
  destruct Hinv as [H1 H2 H3 H4 H5 H6 H7 H8 H9 H10 H11 H12 H13 H14]. split; try done.
  - intros s' y. unfold k'. simpl. destruct (decide (s' = s)) as [->|].
    + rewrite lookup_insert_eq. intros [= <-]. exact (H9 s x Hx).
    + rewrite lookup_insert_ne by done. by apply H9.
  - intros s' t Ht%Hw. by eapply H10.
  - intros s1 s2 t Ht1%Hw Ht2%Hw. by eapply H11.
Qed.

(** Stacks do not matter to the scheduler either, as long as each thread has one. *)
Lemma sched_inv_stack st k k' r ks : threads k' = threads k → running k' = running k →
  ready_list k' = ready_list k → all_list k' = all_list k → idle_thread k' = idle_thread k →
  semas k' = semas k → konts k' = <[r := ks]> (konts k) → sched_inv st k → sched_inv st k'.
Proof.
  destruct k, k'; simpl. intros -> -> -> -> -> -> -> [H1 H2 H3 H4 H5 H6 H7 H8 H9 H10 H11 H12 H13 H14].
  split; try done; simpl in *.
  intros t Ht. destruct (decide (t = r)) as [->|]; [by rewrite lookup_insert_eq|].
  rewrite lookup_insert_ne by done. by apply H14.
Qed.

Lemma lookup_sema_ne k l s : ¬ is_lock_sema k s → is_Some (holders k !! l) → lock_sema l ≠ s.
Proof. intros Hs Hl <-. apply Hs. by exists l. Qed.

(** The successful end of [sema_down]: the running thread takes the semaphore. *)
Lemma down_inv k s old rest x : inv k → konts k !! running k = Some (KDown s old :: rest) →
  semas k !! s = Some x → value x ≠ 0 →
  inv (set_konts <[running k := rest]> (set_semas <[s := Semaphore (u32 (value x - 1)) (waiters x)]> k)).
Proof.
  intros [Hsch Hsy] Hks Hx Hv. set (k1 := set_semas _ k). set (k' := set_konts _ k1).
  assert (sched_inv THREAD_RUNNING k1) as Hs1 by (by apply sched_inv_value).
  split; [by eapply (sched_inv_stack _ k1)|].
  pose proof (sy_stacks _ Hsy _ _ Hks) as [Hko Hrest].
  assert (running k ≠ idle_thread k) as Hid.
  { intros E. pose proof (sy_idle _ Hsy) as Hi. rewrite <-E in Hi. specialize (Hi _ Hks).
    by apply Forall_cons in Hi as [[] _]. }
  destruct Hko as [(l & r & -> & -> & Hl)|[Hns Hno]].
  - (* the semaphore of a lock, which is free *)
    destruct Hsy as [H1 H2 H3 H4 H5].
    assert (∃ ws, x = Semaphore 1 ws ∧ holders k !! l = Some NULL ∧ ∀ t, ¬ acquiring k l t)
      as (ws & -> & Hh & Hna).
    { destruct (H1 l Hl) as [H ws Hs Hno|h H Hne ws Hs Hno|t H ws Hs Ht Hone];
        rewrite Hx in Hs; injection Hs as ->; simpl in Hv; try done. by exists ws. }
    pose proof (λ l t, acquiring_insert k k' (running k) (KAcquire l :: r) l t) as Hacq.
    split; simpl.
    + intros l' Hl'. destruct (decide (l' = l)) as [->|Hne].
      * eapply (lock_taken k' l (running k)); [done|simpl; by rewrite lookup_insert_eq| |].
        -- apply (acquiring_insert k k' (running k) (KAcquire l :: r)); [done|]. left. simpl.
           by rewrite Z.eqb_refl.
        -- intros u [[-> _]|[_ Hu]]%(acquiring_insert k k' (running k) (KAcquire l :: r)); [done| |done].
           by apply Hna in Hu.
      * eapply lock_state_ext with (k := k); [done| | |by apply H1].
        -- simpl. rewrite lookup_insert_ne; [done|]. intros E%lock_sema_inj. done.
        -- intros t. eapply (acquiring_same k k'); [exact Hks|done|]. simpl.
           by apply Z.eqb_neq.
    + intros t ks. intros [[<- <-]|[_ Ht]]%lookup_insert_Some; eapply stack_ok_ext with (k := k); try done.
      by eapply H2.
    + intros ks [[? _]|[_ Ht]]%lookup_insert_Some; [done|by apply H3].
    + intros c ws' w Hc Hw (l' & Hl' & ->). eapply H4; [done..|]. by exists l'.
    + done.
  - eapply (sync_inv_stack k k' (running k) _ rest); [done|exact Hks|done..| | |done|done].
    + intros l Hl. simpl. rewrite lookup_insert_ne; [done|]. apply not_eq_sym. by eapply lookup_sema_ne.
    + intros l. rewrite Hno. done.
Qed.

Lemma inv_level k b : inv (level k b) ↔ inv k.
Proof. unfold inv. by rewrite sched_inv_level, sync_inv_level. Qed.

Lemma pop_kont_run k c ks : konts k !! running k = Some (c :: ks) →
  pop_kont k = Ret ((), set_konts <[running k := ks]> k).
Proof. intros H. unfold pop_kont, set_konts. by rewrite H. Qed.

Lemma push_kont_run k c ks : konts k !! running k = Some ks →
  push_kont c k = Ret ((), set_konts <[running k := c :: ks]> k).
Proof. intros H. unfold push_kont, set_konts. by rewrite H. Qed.

Lemma inv_switch k k' : sched_inv THREAD_RUNNING k' → same_objects k k' → sync_inv k → inv k'.
Proof. intros ? ? ?. split; [done|]. by eapply same_objects_inv. Qed.

(** What a store to a semaphore does to its waiters. *)
Lemma waits_on_enqueue k s x u s' t : semas k !! s = Some x → t ≠ u →
  waits_on (set_semas <[s := Semaphore (value x) (waiters x ++ [u])]> k) s' t ↔ waits_on k s' t.
Proof.
  intros Hx Ht. unfold waits_on. simpl. destruct (decide (s' = s)) as [->|]; [|by rewrite lookup_insert_ne].
  rewrite lookup_insert_eq, Hx. setoid_rewrite (inj_iff Some). split; intros (y & <- & Hin).
  - exists x. split; [done|]. simpl in Hin. set_solver.
  - eexists. split; [done|]. simpl. set_solver.
Qed.

Lemma calm_value x r k s y v : semas k !! s = Some y →
  calm x r k (set_semas <[s := Semaphore v (waiters y)]> k).
Proof.
  intros Hy. apply calm_ext; [done..| |done]. intros s' t _. unfold waits_on. simpl.
  destruct (decide (s' = s)) as [->|]; [|by rewrite lookup_insert_ne].
  rewrite lookup_insert_eq, Hy. naive_solver.
Qed.

Lemma wlp_sema_down_loop s old rest k : inv k → konts k !! running k = Some (KDown s old :: rest) →
  wlp (sema_down_loop s old) k (λ _ k', inv k' ∧ holders k' = holders k ∧ evolves (running k) k k').
Proof.
  intros Hinv Hks. pose proof Hinv as [Hsch Hsy]. unfold sema_down_loop.
  apply wlp_bind, wlp_load. intros x Hx. destruct (Z.eqb_spec (value x) 0) as [Hv|Hv].
  - apply wlp_bind, wlp_thread_current, wlp_bind, wlp_upd_sema. intros x' Hx'.
    assert (x' = x) as -> by congruence.
    set (k1 := set_semas _ k).
    assert (sync_inv k1) as Hsy1 by (by apply sync_inv_waiters).
    eapply wlp_mono; [apply wlp_thread_block|].
    + intros th Ht. eapply sched_inv_ext;
        [..|apply (enqueue_inv (set_threads <[running k := set_status THREAD_BLOCKED th]> k) s x)]; try done.
      * by apply block_inv.
      * intros E. pose proof (sy_idle _ Hsy) as Hi. simpl in E. rewrite <-E in Hi. specialize (Hi _ Hks).
        by apply Forall_cons in Hi as [[] _].
      * intros s' Hw. exact (inv_running_not_waiting k s' Hsch Hw).
    + intros _ k' (Hs' & Ho & Hcalm). split_and!; [by eapply inv_switch|apply Ho|right]. split.
      * eapply calm_trans; [|exact Hcalm]. apply calm_ext; [done..| |done].
        intros s' t Ht. apply waits_on_enqueue; [done|congruence].
      * exists (KDown s old :: rest). rewrite (so_konts _ _ Ho). split; [done|].
        exists (Semaphore (value x) (waiters x ++ [running k])). rewrite (so_semas _ _ Ho). simpl.
        rewrite lookup_insert_eq. split; [done|set_solver].
  - apply wlp_bind, wlp_upd_sema. intros x' Hx'. assert (x' = x) as -> by congruence.
    eapply wlp_bind_run; [by apply (pop_kont_run _ (KDown s old) rest)|].
    apply wlp_bind, wlp_intr_set_level, wlp_ret. split_and!; [|done|].
    + apply inv_level. simpl. by apply (down_inv k s old rest x).
    + apply evolves_calm. eapply calm_trans; [by apply (calm_value _ _ k s x (u32 (value x - 1)))|].
      eapply (calm_own _ _ _ _ _ rest); [exact Hks|done| |done..]. intros t. set_solver.
Qed.

(** [sema_down] from a state where the new activation may be entered. *)
Lemma wlp_sema_down s ks k : konts k !! running k = Some ks →
  inv (set_konts <[running k := KDown s (intr_on k) :: ks]> k) →
  wlp (sema_down s) k (λ _ k', inv k' ∧ holders k' = holders k ∧ evolves (running k) k k').
Proof.
  intros Hks Hinv. unfold sema_down, intr_context.
  apply wlp_bind, wlp_assert. intros _. apply wlp_bind, wlp_gets, wlp_bind, wlp_assert. intros _.
  apply wlp_bind, wlp_intr_disable. eapply wlp_bind_run; [by apply (push_kont_run _ _ ks)|].
  eapply wlp_mono; [eapply wlp_sema_down_loop|].
  - apply (inv_level _ false) in Hinv. exact Hinv.
  - simpl. by rewrite lookup_insert_eq.
  - intros _ k' (? & ? & Hev). split_and!; [done..|]. eapply calm_evolves; [|exact Hev].
    eapply (calm_own _ _ k _ ks (KDown s (intr_on k) :: ks)); [done..| |done|done|done]. intros t. set_solver.
Qed.

(** Entering an operation other than [thread_create]. *)
Lemma calm_push x k ks c : konts k !! running k = Some ks → (∀ t, c ≠ KCreate t) →
  calm x (running k) k (set_konts <[running k := c :: ks]> k).
Proof.
  intros Hks Hc. eapply (calm_own _ _ _ _ ks (c :: ks)); [done..| |done|done|done].
  intros t. rewrite elem_of_cons. naive_solver.
Qed.

(** Leaving one. *)
Lemma calm_pop x k ks c : konts k !! running k = Some (c :: ks) → (∀ t, c ≠ KCreate t) →
  calm x (running k) k (set_konts <[running k := ks]> k).
Proof.
  intros Hks Hc. eapply (calm_own _ _ _ _ (c :: ks) ks); [done..| |done|done|done].
  intros t. rewrite elem_of_cons. naive_solver.
Qed.

(** The first waiter leaves the list of a semaphore. *)
Lemma dequeue_inv k s x t ws : sched_inv THREAD_RUNNING k → semas k !! s = Some x →
  waiters x = t :: ws →
  let k' := set_semas <[s := Semaphore (value x) ws]> k in
  sched_inv THREAD_RUNNING k' ∧ t ≠ idle_thread k ∧ ∀ s', ¬ waits_on k' s' t.
Proof.
  intros Hinv Hx Hws k'.
  assert (∀ s' u, waits_on k' s' u → waits_on k s' u) as Hw.
  { intros s' u. unfold waits_on, k'. simpl. destruct (decide (s' = s)) as [->|].
    - rewrite lookup_insert_eq. intros (y & [= <-] & Hin). exists x. split; [done|].
      rewrite Hws. set_solver.
    - by rewrite lookup_insert_ne. }
  assert (waits_on k s t) as Ht by (exists x; rewrite Hws; split; [done|set_solver]).
  assert (NoDup (t :: ws)) as Hnd by (rewrite <-Hws; by eapply (si_waiters _ _ Hinv)).
  apply NoDup_cons in Hnd as [Hnin Hnd].
  split_and!; [|by apply (si_waits _ _ Hinv s)|].
  - destruct Hinv as [H1 H2 H3 H4 H5 H6 H7 H8 H9 H10 H11 H12 H13 H14]. split; try done.
    + intros s' y. unfold k'. simpl. destruct (decide (s' = s)) as [->|].
      * rewrite lookup_insert_eq. by intros [= <-].
      * rewrite lookup_insert_ne by done. apply H9.
    + intros s' u Hu%Hw. by eapply H10.
    + intros s1 s2 u Hu1%Hw Hu2%Hw. by eapply H11.
  - intros s' Hs'. pose proof (Hw _ _ Hs') as Hs''.
    pose proof (si_waits_one _ _ Hinv _ _ _ Ht Hs'') as <-.
    destruct Hs' as (y & Hy & Hin). unfold k' in Hy. simpl in Hy.
    rewrite lookup_insert_eq in Hy. injection Hy as <-. done.
Qed.

Lemma calm_dequeue t r k s x ws : semas k !! s = Some x → waiters x = t :: ws →
  calm (Some t) r k (level (set_semas <[s := Semaphore (value x) ws]> k) false).
Proof.
  intros Hx Hws. apply calm_ext; [done..| |done]. intros s' u Hu. unfold waits_on. simpl.
  destruct (decide (s' = s)) as [->|]; [|by rewrite lookup_insert_ne].
  rewrite lookup_insert_eq, Hx. setoid_rewrite (inj_iff Some). split; intros (y & <- & Hin).
  - exists x. split; [done|]. rewrite Hws. set_solver.
  - eexists. split; [done|]. simpl. rewrite Hws in Hin. apply elem_of_cons in Hin as [->|]; [done|done].
Qed.

(** [sema_up] from a state in which the invariant of the locks holds once the value of the
    semaphore is incremented. *)
Lemma wlp_sema_up s k : sched_inv THREAD_RUNNING k →
  (∀ x ws, semas k !! s = Some x →
     sync_inv (set_semas <[s := Semaphore (u32 (value x + 1)) ws]> k)) →
  wlp (sema_up s) k (λ _ k', inv k' ∧ holders k' = holders k ∧ konts k' = konts k ∧
    running k' = running k ∧ conds k' = conds k ∧ idle_thread k' = idle_thread k ∧
    calm None (running k) k k').
Proof.
  intros Hsch Hsy. unfold sema_up. apply wlp_bind, wlp_assert. intros _.
  apply wlp_bind, wlp_intr_disable, wlp_bind, wlp_load. intros x Hx. simpl in Hx.
  (* after waking a waiter *)
  apply wlp_bind. eapply wlp_mono with (P := λ _ k1, sched_inv THREAD_RUNNING k1 ∧ ∃ ws,
    holders k1 = holders k ∧ konts k1 = konts k ∧ conds k1 = conds k ∧
    in_external_intr k1 = in_external_intr k ∧ idle_thread k1 = idle_thread k ∧
    running k1 = running k ∧ semas k1 = <[s := Semaphore (value x) ws]> (semas k) ∧
    calm None (running k) k k1).
  - destruct (waiters x) as [|t ws] eqn:Hws.
    + apply wlp_ret. split; [by apply sched_inv_level|]. exists []. split_and!; try done; [|by apply calm_same].
      simpl. rewrite insert_id; [done|]. rewrite Hx. destruct x. simpl in *. by subst.
    + apply wlp_bind, wlp_upd_sema. intros x' Hx'. simpl in Hx'. assert (x' = x) as -> by congruence.
      destruct (dequeue_inv (level k false) s x t ws) as (Hs1 & Hid & Hw); [by apply sched_inv_level|done..|].
      apply wlp_thread_unblock_state. intros th Ht Hb. split; [apply sched_inv_level; by apply unblock_inv|].
      exists ws. split_and!; try done. apply (calm_woken t).
      * eapply calm_trans; [by apply (calm_dequeue t _ k s x ws)|].
        eapply (calm_status _ _ _ _ t (set_status THREAD_READY th)); try done. by right; right.
      * intros (th' & Ht' & Hb'). simpl in Ht'. rewrite lookup_insert_eq in Ht'. by injection Ht' as <-.
      * intros [_ _ _ Hnw]. apply (Hnw s). exists x. rewrite Hws. split; [done|set_solver].
  - intros _ k1 (Hs1 & ws & Hh & Hk & Hc & He & Hi & Hr & Hse & Hcalm).
    apply wlp_bind, wlp_upd_sema. intros x1 Hx1.
    assert (x1 = Semaphore (value x) ws) as ->
      by (rewrite Hse, lookup_insert_eq in Hx1; by injection Hx1).
    apply wlp_bind, wlp_intr_set_level, wlp_ret. split_and!; try done; [apply inv_level; split|].
    + by apply (sched_inv_value _ k1 s (Semaphore (value x) ws)).
    + eapply sync_inv_ext; [..|apply (Hsy x ws Hx)]; try done. simpl. rewrite Hse. apply insert_insert_eq.
    + eapply calm_trans; [exact Hcalm|].
      eapply calm_trans; [by apply (calm_value _ _ k1 s (Semaphore (value x) ws) (u32 (value x + 1)))|].
      by apply calm_same.
Qed.

Lemma sync_inv_free_value k s y : sync_inv k → ¬ is_lock_sema k s → sync_inv (set_semas <[s := y]> k).
Proof.
  intros [H1 H2 H3 H4 H5] Hs. split; simpl; try done.
  - intros l Hl. eapply lock_state_ext with (k := k); [done| |done|by apply H1]. simpl.
    rewrite lookup_insert_ne; [done|]. apply not_eq_sym. by eapply lookup_sema_ne.
  - intros t ks Hks. eapply stack_ok_ext with (k := k); [done|by eapply H2].
Qed.

(** ** Locks *)

(** Giving up a lock: the store to the holder and the increment of the semaphore. *)
Lemma release_inv k l x ws : inv k → holders k !! l = Some (running k) → running k ≠ NULL →
  semas k !! lock_sema l = Some x →
  sync_inv (set_semas <[lock_sema l := Semaphore (u32 (value x + 1)) ws]> (set_holders <[l := NULL]> k)).
Proof.
  intros [Hsch [H1 H2 H3 H4 H5]] Hl Hr Hx.
  assert (∀ l', is_Some (<[l := NULL]> (holders k) !! l') ↔ is_Some (holders k !! l')) as Hdom.
  { intros l'. destruct (decide (l' = l)) as [->|].
    - rewrite lookup_insert_eq, Hl. split; by eauto.
    - by rewrite lookup_insert_ne. }
  split; simpl; try done.
  - intros l' Hl'%Hdom. destruct (decide (l' = l)) as [->|Hne].
    + destruct (H1 l Hl') as [H ws' Hs Hno|h H Hh ws' Hs Hno|t H ws' Hs Ht Hone]; [congruence| |congruence].
      rewrite Hx in Hs. injection Hs as ->. eapply lock_free; [by simpl; rewrite lookup_insert_eq| |done].
      simpl. by rewrite lookup_insert_eq.
    + eapply lock_state_ext with (k := k); [by simpl; rewrite lookup_insert_ne| |done|by apply H1].
      simpl. rewrite lookup_insert_ne; [done|]. intros E%lock_sema_inj. done.
  - intros t ks Hks. eapply stack_ok_ext with (k := k); [done|by eapply H2].
  - intros c ws' w Hc Hw (l' & Hl'%Hdom & ->). eapply H4; [done..|]. by exists l'.
Qed.

Lemma wlp_lock_held l k (Q : bool → kern → Prop) :
  (∀ h, holders k !! l = Some h → Q (h =? running k) k) → wlp (lock_held_by_current_thread l) k Q.
Proof.
  intros HQ. unfold lock_held_by_current_thread. apply wlp_bind, wlp_assert. intros _.
  apply wlp_bind, wlp_load. intros h Hh. apply wlp_bind, wlp_thread_current, wlp_ret. by apply HQ.
Qed.

Lemma inv_running_nonnull k : inv k → running k ≠ NULL.
Proof.
  intros [Hs _]. destruct (si_running _ _ Hs) as (th & Ht & _). eapply inv_not_null; [done|by exists th].
Qed.

Lemma holders_step_release k k' l : holders k !! l = Some (running k) →
  holders k' = <[l := NULL]> (holders k) → holders_step k k'.
Proof.
  intros Hl Hh. unfold holders_step. rewrite Hh. split.
  - intros l'. destruct (decide (l' = l)) as [->|].
    + rewrite lookup_insert_eq, Hl. split; by eauto.
    + by rewrite lookup_insert_ne.
  - intros l' h Hl' Hne. destruct (decide (l' = l)) as [->|].
    + right. rewrite lookup_insert_eq. split; [congruence|done].
    + left. by rewrite lookup_insert_ne.
Qed.

Lemma wlp_lock_release l k : inv k →
  wlp (lock_release l) k (λ _ k', inv k' ∧ holders_step k k' ∧ konts k' = konts k ∧
    running k' = running k ∧ conds k' = conds k ∧ idle_thread k' = idle_thread k ∧
    calm None (running k) k k').
Proof.
  intros Hinv. unfold lock_release. apply wlp_bind, wlp_assert. intros _.
  apply wlp_bind, wlp_lock_held. intros h Hh. apply wlp_bind, wlp_assert. intros ->%Z.eqb_eq.
  apply wlp_bind, wlp_modify. eapply wlp_mono; [apply wlp_sema_up|].
  - eapply sched_inv_ext; [..|apply Hinv]; done.
  - intros x ws Hx. apply release_inv; [done|done|by apply inv_running_nonnull|done].
  - intros _ k' (? & Hh' & ? & ? & ? & ? & Hcalm). split_and!; try done; [by eapply holders_step_release|].
    eapply calm_trans; [|exact Hcalm]. by apply calm_same.
Qed.

(** Entering [sema_down]: the new activation does not show in any lock. *)
Lemma enter_down_inv k s old ks ks' : inv k → konts k !! running k = Some ks → no_acq ks →
  running k ≠ idle_thread k → stack_ok k (KDown s old :: ks') →
  inv (set_konts <[running k := KDown s old :: ks']> k).
Proof.
  intros [Hsch Hsy] Hks Hno Hid Hok. split; [by apply (sched_inv_stack _ k _ (running k) (KDown s old :: ks'))|].
  eapply (sync_inv_stack k _ (running k) ks (KDown s old :: ks')); try done; intros l; by rewrite ?Hno.
Qed.

Lemma wlp_lock_acquire l ks k : inv k → konts k !! running k = Some ks → no_acq ks →
  running k ≠ idle_thread k →
  wlp (lock_acquire l) k (λ _ k', inv k' ∧ holders k' = holders k ∧ evolves (running k) k k').
Proof.
  intros Hinv Hks Hno Hid. unfold lock_acquire, intr_context. apply wlp_bind, wlp_assert. intros _.
  apply wlp_bind, wlp_gets, wlp_bind, wlp_assert. intros _. apply wlp_bind, wlp_lock_held. intros h Hh.
  apply wlp_bind, wlp_assert. intros _. eapply wlp_bind_run; [by apply (push_kont_run _ _ ks)|].
  eapply wlp_mono; [apply (wlp_sema_down _ (KAcquire l :: ks))|].
  - simpl. by rewrite lookup_insert_eq.
  - assert (inv (set_konts <[running k := KDown (lock_sema l) (intr_on k) :: KAcquire l :: ks]> k)) as H.
    { eapply enter_down_inv; [done..|]. split; [|split; [exact Hno|]].
      - left. exists l, ks. split_and!; [done..|by exists h].
      - by eapply (sy_stacks _ (proj2 Hinv)). }
    unfold set_konts in *. simpl in *. by rewrite insert_insert_eq.
  - intros _ k' (? & ? & Hev). split_and!; [done..|]. eapply calm_evolves; [|exact Hev].
    by eapply calm_push.
Qed.

(** The end of [lock_acquire]: the thread that has taken the lock records itself. *)
Lemma set_holder_inv k l rest : inv k → konts k !! running k = Some (KAcquire l :: rest) →
  is_Some (holders k !! l) →
  inv (set_holders <[l := running k]> (set_konts <[running k := rest]> k)) ∧ holders k !! l = Some NULL.
Proof.
  intros Hinv Hks Hl. pose proof Hinv as [Hsch [H1 H2 H3 H4 H5]].
  pose proof (H2 _ _ Hks) as [Hno Hrest]. simpl in Hno.
  assert (acquiring k l (running k)) as Hacq.
  { exists (KAcquire l :: rest). split; [done|]. simpl. by rewrite Z.eqb_refl. }
  set (k1 := set_konts <[running k := rest]> k). set (k' := set_holders _ k1).
  assert (∀ l', is_Some (holders k' !! l') ↔ is_Some (holders k !! l')) as Hdom.
  { intros l'. simpl. destruct (decide (l' = l)) as [->|]; [|by rewrite lookup_insert_ne].
    rewrite lookup_insert_eq. split; by eauto. }
  assert (holders k !! l = Some NULL ∧ (∀ u, acquiring k l u → u = running k) ∧
    ∃ ws, semas k !! lock_sema l = Some (Semaphore 0 ws)) as (Hnull & Hone & ws & Hv).
  { destruct (H1 l Hl) as [H ws Hs Hn|h H Hh ws Hs Hn|t H ws Hs Ht Hone].
    - by apply Hn in Hacq.
    - by apply Hn in Hacq.
    - rewrite (Hone _ Hacq). split_and!; [done..|by exists ws]. }
  split; [|done]. split.
  { apply (sched_inv_ext _ k1); try done. by apply (sched_inv_stack _ k _ (running k) rest). }
  split; try done.
  - intros l' Hl'%Hdom. destruct (decide (l' = l)) as [->|Hne].
    + eapply (lock_held k' l (running k)); [by simpl; rewrite lookup_insert_eq| |exact Hv|].
      { by apply inv_running_nonnull. }
      intros t [[-> Hp]|[Hne Ht]]%(acquiring_insert k k' (running k) rest); [|by apply Hone in Ht|done].
      by rewrite Hno in Hp.
    + eapply lock_state_ext with (k := k); [by simpl; rewrite lookup_insert_ne|done| |by apply H1].
      intros t. eapply (acquiring_same k k'); [exact Hks|done|]. rewrite Hno. symmetry. simpl.
      by apply Z.eqb_neq.
  - intros t ks Hks'. apply (stack_ok_ext k k'); [done|]. simpl in Hks'.
    apply lookup_insert_Some in Hks' as [[<- <-]|[_ Ht]]; [done|by eapply H2].
  - intros ks Hk'. simpl in Hk'. apply lookup_insert_Some in Hk' as [[E <-]|[_ Ht]]; [|by apply H3].
    rewrite E in Hks. apply H3 in Hks. by apply Forall_cons in Hks as [[] _].
  - intros c ws' w Hc Hw (l' & Hl'%Hdom & ->). eapply H4; [done..|]. by exists l'.
Qed.

Lemma wlp_sema_try_down s k (Q : bool → kern → Prop) :
  (∀ x, semas k !! s = Some x → value x ≠ 0 →
     Q true (level (set_semas <[s := Semaphore (u32 (value x - 1)) (waiters x)]> k) (intr_on k))) →
  Q false (level k (intr_on k)) → wlp (sema_try_down s) k Q.
Proof.
  intros Ht Hf. unfold sema_try_down. apply wlp_bind, wlp_assert. intros _.
  apply wlp_bind, wlp_intr_disable, wlp_bind, wlp_load. intros x Hx. simpl in Hx. apply wlp_bind.
  destruct (Z.ltb_spec 0 (value x)).
  - apply wlp_bind, wlp_upd_sema. intros x' Hx'. simpl in Hx'. assert (x' = x) as -> by congruence.
    apply wlp_ret. apply wlp_bind, wlp_intr_set_level, wlp_ret. apply Ht; [done|lia].
  - apply wlp_ret. by apply wlp_bind, wlp_intr_set_level, wlp_ret.
Qed.

Lemma wlp_lock_try_acquire l ks k : inv k → konts k !! running k = Some ks → no_acq ks →
  running k ≠ idle_thread k →
  wlp (lock_try_acquire l) k (λ _ k', inv k' ∧ holders k' = holders k ∧ calm None (running k) k k').
Proof.
  intros Hinv Hks Hno Hid. unfold lock_try_acquire. apply wlp_bind, wlp_assert. intros _.
  apply wlp_bind, wlp_lock_held. intros h Hh. apply wlp_bind, wlp_assert. intros _.
  apply wlp_bind, wlp_sema_try_down.
  - intros x Hx Hv. apply wlp_bind. eapply wlp_run; [by apply (push_kont_run _ _ ks)|].
    apply wlp_ret. split_and!; [|done|]; cycle 1.
    { eapply calm_trans; [by apply (calm_value _ _ k (lock_sema l) x (u32 (value x - 1)))|].
      set (k1 := level _ _). apply (calm_trans _ _ _ k1); [by apply calm_same|].
      by apply (calm_push None k1 ks (KAcquire l)). }
    assert (inv (set_konts <[running k := KDown (lock_sema l) false :: KAcquire l :: ks]> k)) as H1.
    { eapply enter_down_inv; [done..|]. split; [|split; [exact Hno|]].
      - left. exists l, ks. split_and!; [done..|by exists h].
      - by eapply (sy_stacks _ (proj2 Hinv)). }
    apply (down_inv _ (lock_sema l) false (KAcquire l :: ks) x) in H1; [|simpl; by rewrite lookup_insert_eq|done|done].
    apply (inv_level _ (intr_on k)) in H1. unfold level, set_konts, set_semas in *. simpl in *.
    by rewrite insert_insert_eq in H1.
  - apply wlp_bind, wlp_ret, wlp_ret. split_and!; [by apply inv_level|done|by apply calm_same].
Qed.

(** ** Condition variables *)

(** A semaphore may be initialised anew: its waiters are forgotten. *)
Lemma sched_inv_fresh_sema st k s v : sched_inv st k → sched_inv st (set_semas <[s := Semaphore v []]> k).
Proof.
  intros Hinv. set (k' := set_semas _ k).
  assert (∀ s' t, waits_on k' s' t → waits_on k s' t) as Hw.
  { intros s' t. unfold waits_on, k'. simpl. destruct (decide (s' = s)) as [->|].
    - rewrite lookup_insert_eq. intros (y & [= <-] & Hin). by apply not_elem_of_nil in Hin.
    - by rewrite lookup_insert_ne. }
  destruct Hinv as [H1 H2 H3 H4 H5 H6 H7 H8 H9 H10 H11 H12 H13 H14]. split; try done.
  - intros s' y. unfold k'. simpl. destruct (decide (s' = s)) as [->|].
    + rewrite lookup_insert_eq. intros [= <-]. constructor.
    + rewrite lookup_insert_ne by done. apply H9.
  - intros s' t Ht%Hw. by eapply H10.
  - intros s1 s2 t Ht1%Hw Ht2%Hw. by eapply H11.
Qed.

Lemma calm_fresh_sema x r k s v : (∀ t, ¬ waits_on k s t) → calm x r k (set_semas <[s := Semaphore v []]> k).
Proof.
  intros Hs. apply calm_ext; [done..| |done]. intros s' t _. destruct (decide (s' = s)) as [->|].
  - split; [|by intros ?%Hs]. intros (y & Hy & Hin). simpl in Hy. rewrite lookup_insert_eq in Hy.
    injection Hy as <-. by apply not_elem_of_nil in Hin.
  - unfold waits_on. simpl. by rewrite lookup_insert_ne.
Qed.

Lemma sync_inv_conds k f : sync_inv k →
  (∀ c ws w, f (conds k) !! c = Some ws → w ∈ ws → ¬ is_lock_sema k w) → sync_inv (set_conds f k).
Proof.
  intros [H1 H2 H3 H4 H5] Hc. split; simpl; try done.
  - intros l Hl. by eapply lock_state_ext with (k := k); [..|apply H1].
  - intros t ks Hks. eapply stack_ok_ext with (k := k); [done|by eapply H2].
Qed.

Lemma wlp_cond_wait c w l ks k : inv k → konts k !! running k = Some ks → no_acq ks →
  running k ≠ idle_thread k → ¬ is_lock_sema k w → (∀ t, ¬ waits_on k w t) →
  wlp (cond_wait c w l) k (λ _ k', inv k' ∧ holders_step k k' ∧ evolves (running k) k k').
Proof.
  intros Hinv Hks Hno Hid Hw Hfr. unfold cond_wait, intr_context. apply wlp_bind, wlp_assert. intros _.
  apply wlp_bind, wlp_assert. intros _. apply wlp_bind, wlp_gets, wlp_bind, wlp_assert. intros _.
  apply wlp_bind, wlp_lock_held. intros h Hh. apply wlp_bind, wlp_assert. intros _.
  apply wlp_bind, wlp_bind, wlp_assert. intros _. apply wlp_modify.
  apply wlp_bind, wlp_load. intros ws Hws. simpl in Hws. apply wlp_bind, wlp_modify.
  set (k1 := set_conds _ _).
  assert (inv k1) as Hinv1.
  { destruct Hinv as [Hs Hy]. split.
    - apply (sched_inv_ext _ (set_semas <[w := Semaphore 0 []]> k)); try done.
      by apply sched_inv_fresh_sema.
    - apply sync_inv_conds; [by apply sync_inv_free_value|]. simpl. intros c' ws' w' Hc' Hw'.
      apply lookup_insert_Some in Hc' as [[-> <-]|[_ Hc']]; [|by eapply (sy_conds _ Hy)].
      apply elem_of_app in Hw' as [Hw'| ->%list_elem_of_singleton]; [by eapply (sy_conds _ Hy)|done]. }
  apply wlp_bind. eapply wlp_mono; [by apply wlp_lock_release|].
  intros _ k2 (Hinv2 & Hstep & Hk2 & Hr2 & _ & Hi2 & Hcalm2).
  assert (konts k2 !! running k2 = Some ks) as Hks2 by (by rewrite Hk2, Hr2).
  eapply wlp_bind_run; [by apply (push_kont_run _ _ ks)|].
  eapply wlp_mono; [apply (wlp_sema_down _ (KWait l :: ks))|].
  - simpl. by rewrite lookup_insert_eq.
  - assert (inv (set_konts <[running k2 := KDown w (intr_on k2) :: KWait l :: ks]> k2)) as H.
    { eapply enter_down_inv; [done..|by rewrite Hr2, Hi2|]. split.
      - right. split; [|done]. intros (l' & Hl' & ->). apply Hw. exists l'.
        split; [by apply (proj1 Hstep)|done].
      - split; [exact Hno|]. by eapply (sy_stacks _ (proj2 Hinv2)). }
    unfold set_konts in *. simpl in *. by rewrite insert_insert_eq.
  - intros _ k' (? & Hh' & Hev). split_and!; [done| |].
    + unfold holders_step in *. simpl in *. by rewrite Hh'.
    + assert (calm None (running k) k k2) as Hc2.
      { eapply calm_trans; [by apply (calm_fresh_sema _ _ k w 0)|].
        eapply calm_trans; [by apply (calm_same _ _ _ k1)|]. exact Hcalm2. }
      change (running k1) with (running k) in Hr2. rewrite <-Hr2 in Hc2. rewrite <-Hr2.
      eapply calm_evolves; [exact Hc2|]. eapply calm_evolves; [|exact Hev]. by apply calm_push.
Qed.

Lemma wlp_cond_signal c l k : inv k →
  wlp (cond_signal c l) k (λ _ k', inv k' ∧ holders k' = holders k ∧ running k' = running k ∧
    calm None (running k) k k').
Proof.
  intros Hinv. unfold cond_signal, intr_context. apply wlp_bind, wlp_assert. intros _.
  apply wlp_bind, wlp_assert. intros _. apply wlp_bind, wlp_gets, wlp_bind, wlp_assert. intros _.
  apply wlp_bind, wlp_lock_held. intros h Hh. apply wlp_bind, wlp_assert. intros _.
  apply wlp_bind, wlp_load. intros ws Hws. destruct ws as [|w ws].
  { apply wlp_ret. split_and!; [done..|apply calm_refl]. }
  apply wlp_bind, wlp_modify. pose proof Hinv as [Hs Hy].
  assert (¬ is_lock_sema k w) as Hw by (eapply (sy_conds _ Hy); [done|set_solver]).
  eapply wlp_mono; [apply wlp_sema_up|].
  - by apply (sched_inv_ext _ k).
  - intros x ws' Hx. apply sync_inv_free_value; [|done]. apply sync_inv_conds; [done|].
    intros c' ws0 w' Hc' Hw'. apply lookup_insert_Some in Hc' as [[-> <-]|[_ Hc']];
      [eapply (sy_conds _ Hy); [done|set_solver]|by eapply (sy_conds _ Hy)].
  - intros _ k' (? & ? & _ & ? & _ & _ & Hcalm). split_and!; [done..|].
    eapply calm_trans; [|exact Hcalm]. by apply calm_same.
Qed.

Lemma wlp_loop_inv {S A B} (I : S → Prop) (body : A → ST S (ctl A B)) :
  (∀ a s, I s → wlp (body a) s (λ _ s', I s')) →
  ∀ fuel a s, I s → wlp (loop fuel body a) s (λ _ s', I s').
Proof.
  intros Hb fuel. induction fuel as [|n IH]; intros a s Hs; [done|]. simpl.
  apply wlp_bind. eapply wlp_mono; [by apply Hb|]. intros [a'|b] s' Hs'; [by apply IH|by apply wlp_ret].
Qed.

Lemma wlp_cond_broadcast c l k : inv k →
  wlp (cond_broadcast c l) k (λ _ k', inv k' ∧ holders k' = holders k ∧ calm None (running k) k k').
Proof.
  intros Hinv. unfold cond_broadcast. apply wlp_bind, wlp_assert. intros _.
  apply wlp_bind, wlp_assert. intros _. apply wlp_bind, wlp_load. intros ws Hws.
  eapply wlp_mono; [apply (wlp_loop_inv (λ k', inv k' ∧ holders k' = holders k ∧
    running k' = running k ∧ calm None (running k) k k'))|].
  - intros [] k1 (Hinv1 & Hh1 & Hr1 & Hc1). apply wlp_bind, wlp_load. intros [|w ws'] _; [by apply wlp_ret|].
    apply wlp_bind. eapply wlp_mono; [by apply wlp_cond_signal|]. intros _ k2 (? & Hh2 & Hr2 & Hc2).
    apply wlp_ret. split_and!; [done|congruence..|]. rewrite Hr1 in Hc2. by eapply calm_trans.
  - split_and!; [done..|apply calm_refl].
  - naive_solver.
Qed.

(** ** Yielding and interrupts *)

Lemma yield_inv k th : sched_inv THREAD_RUNNING k → threads k !! running k = Some th →
  sched_inv THREAD_READY (set_threads <[running k := set_status THREAD_READY th]>
    (if negb (running k =? idle_thread k) then set_ready_list (λ l, l ++ [running k]) k else k)).
Proof.
  intros Hinv Ht. set (k0 := if negb _ then _ else k). set (k' := set_threads _ k0).
  assert (threads k' = <[running k := set_status THREAD_READY th]> (threads k)) as Hth
    by (unfold k', k0; by destruct (negb _)).
  assert (running k' = running k ∧ idle_thread k' = idle_thread k ∧ semas k' = semas k ∧
    all_list k' = all_list k ∧ konts k' = konts k) as (Er & Ei & Es & Ea & Ek)
    by (unfold k', k0; by destruct (negb _)).
  assert (ready_list k' = if negb (running k =? idle_thread k) then ready_list k ++ [running k]
    else ready_list k) as El by (unfold k', k0; by destruct (negb _)).
  pose proof (λ u a, has_status_insert k k' _ _ u a Hth) as Hst. simpl in Hst.
  assert (∀ u a, a ≠ THREAD_RUNNING → has_status k u a → has_status k' u a) as Hkeep.
  { intros u a Ha Hu. apply Hst. right. split; [|done]. intros ->.
    apply Ha. by apply (has_status_det _ _ _ _ Hu), (si_running _ _ Hinv). }
  assert (∀ u, u ∈ ready_list k' ↔ u ∈ ready_list k ∨ (u = running k ∧ u ≠ idle_thread k)) as Hin.
  { intros u. rewrite El. destruct (Z.eqb_spec (running k) (idle_thread k)) as [E|E]; simpl.
    - split; [auto|]. intros [?|[-> ?]]; done.
    - rewrite elem_of_app, list_elem_of_singleton. naive_solver. }
  destruct (si_running _ _ Hinv) as (th0 & H0 & Hs0). assert (th0 = th) as -> by congruence.
  split; rewrite ?Er, ?Ei, ?Ea, ?Ek.
  - apply Hst. by left.
  - intros u x Hx. rewrite Hth in Hx. destruct (decide (u = running k)) as [->|].
    + rewrite lookup_insert_eq in Hx. injection Hx as <-. apply (si_magic _ _ Hinv _ _ Ht).
    + rewrite lookup_insert_ne in Hx by done. by eapply (si_magic _ _ Hinv).
  - rewrite Hth, lookup_insert_ne; [apply (si_null _ _ Hinv)|].
    eapply inv_not_null; [done|by exists th].
  - intros u [[_ ?]|[Hne Hu]]%Hst; [done|]. by apply (si_others _ _ Hinv).
  - rewrite El. pose proof (si_ready_nodup _ _ Hinv). destruct (negb _); [|done].
    apply NoDup_app. split; [done|]. split; [|apply NoDup_singleton].
    intros u Hu ->%list_elem_of_singleton. destruct (si_ready _ _ Hinv _ Hu) as [Hr _].
    by pose proof (has_status_det _ _ _ _ Hr (si_running _ _ Hinv)).
  - intros u [Hu|[-> Hne]]%Hin.
    + destruct (si_ready _ _ Hinv u Hu) as [? ?]. split; [by apply Hkeep|done].
    + split; [|done]. apply Hst. by left.
  - intros u. rewrite Hin. intros [[-> _]|[_ Hu]]%Hst.
    + destruct (decide (running k = idle_thread k)); auto.
    + destruct (si_ready_all _ _ Hinv u Hu); auto.
  - apply (alive_insert k k' _ _ _ Hth). destruct (decide (idle_thread k = running k)); [by left|right].
    split; [done|apply (si_idle _ _ Hinv)].
  - rewrite Es. apply (si_waiters _ _ Hinv).
  - intros s u Hu%(waits_on_semas k k' _ _ Es). destruct (si_waits _ _ Hinv s u Hu) as [? ?].
    split; [by apply Hkeep|done].
  - intros s1 s2 t. rewrite !(waits_on_semas k k') by done. apply (si_waits_one _ _ Hinv).
  - apply (si_all_nodup _ _ Hinv).
  - intros u. rewrite (alive_insert k k' _ _ _ Hth). simpl. rewrite (si_all _ _ Hinv).
    destruct (decide (u = running k)) as [->|]; [|naive_solver].
    assert (status th ≠ THREAD_DYING) by congruence. naive_solver.
  - intros u [x Hx]. rewrite Hth in Hx. apply (si_konts _ _ Hinv). destruct (decide (u = running k)) as [->|].
    + by exists th.
    + rewrite lookup_insert_ne in Hx by done. by exists x.
Qed.

Lemma inv_stack k : inv k → ∃ ks, konts k !! running k = Some ks.
Proof.
  intros [Hs _]. destruct (si_running _ _ Hs) as (th & Ht & _).
  destruct (si_konts _ _ Hs (running k)) as [ks ?]; [by exists th|]. by exists ks.
Qed.

(** Entering an activation that any thread may be in at any time. *)
Lemma enter_inv k c ks : inv k → konts k !! running k = Some ks → (∃ b, c = KYield b) ∨ c = KIret →
  inv (set_konts <[running k := c :: ks]> k).
Proof.
  intros [Hs Hy] Hks Hc. split; [by apply (sched_inv_stack _ k _ (running k) (c :: ks))|].
  eapply (sync_inv_stack k _ (running k) ks (c :: ks)); try done.
  - intros l. by destruct Hc as [[b ->]| ->].
  - split; [by destruct Hc as [[b ->]| ->]|]. by eapply (sy_stacks _ Hy).
  - intros E. constructor; [by destruct Hc as [[b ->]| ->]|]. rewrite E in Hks. by apply (sy_idle _ Hy).
Qed.

Lemma wlp_thread_yield k : inv k →
  wlp thread_yield k (λ _ k', inv k' ∧ holders k' = holders k ∧ calm None (running k) k k').
Proof.
  intros Hinv. unfold thread_yield, intr_context. apply wlp_bind, wlp_thread_current.
  apply wlp_bind, wlp_gets, wlp_bind, wlp_assert. intros _. apply wlp_bind, wlp_intr_disable.
  destruct (inv_stack k Hinv) as [ks Hks].
  eapply wlp_bind_run; [by apply (push_kont_run _ _ ks)|].
  set (k1 := set_konts _ _).
  assert (inv k1) as [Hs1 Hy1].
  { apply enter_inv; [by apply inv_level|done|]. left. by eexists. }
  apply wlp_bind, wlp_gets. change (idle_thread k1) with (idle_thread k).
  apply wlp_bind. eapply wlp_mono with (P := λ _ k2,
    k2 = if negb (running k =? idle_thread k) then set_ready_list (λ l, l ++ [running k]) k1 else k1).
  { destruct (negb _); [by apply wlp_modify|by apply wlp_ret]. }
  intros _ k2 ->. apply wlp_bind, wlp_upd_thread. intros th Ht.
  assert (threads k1 !! running k1 = Some th) as Ht1 by (destruct (negb _) in Ht; done).
  eapply wlp_mono; [apply (wlp_schedule THREAD_READY); [by apply (yield_inv k1)|done..|]|].
  - by destruct (negb _).
  - intros _ k' (Hs' & Ho & Hcalm). split_and!; [|by rewrite (so_holders _ _ Ho); simpl; destruct (negb _)|].
    + eapply inv_switch; [done|exact Ho|]. by eapply sync_inv_ext; [..|exact Hy1]; simpl; destruct (negb _).
    + eapply calm_trans; [by apply (calm_push _ _ ks (KYield (intr_on k)))|].
      set (k2 := if negb _ then _ else _) in *. assert (running k2 = running k) as Hr2 by (unfold k2; by destruct (negb _)).
      eapply calm_trans; [apply (calm_same _ _ _ k2); unfold k2; by destruct (negb _)|].
      change (running (set_threads _ k2)) with (running k2) in Hcalm. rewrite Hr2 in Hcalm.
      eapply calm_trans; [|exact Hcalm].
      eapply (calm_status _ _ _ _ (running k) (set_status THREAD_READY th)); try done. by left.
Qed.

(** What the bookkeeping of an interrupt leaves alone. *)
Record same_core (k k' : kern) : Prop := SameCore {
  sc_threads : threads k' = threads k;
  sc_konts : konts k' = konts k;
  sc_running : running k' = running k;
  sc_ready : ready_list k' = ready_list k;
  sc_all : all_list k' = all_list k;
  sc_idle : idle_thread k' = idle_thread k;
  sc_semas : semas k' = semas k;
  sc_holders : holders k' = holders k;
  sc_conds : conds k' = conds k;
}.

Lemma same_core_inv k k' : same_core k k' → in_external_intr k' = false → inv k → inv k'.
Proof.
  intros [] He [Hs Hy]. split; [by eapply sched_inv_ext|].
  pose proof (sy_ext _ Hy). eapply sync_inv_ext; [..|exact Hy]; congruence.
Qed.

Lemma wlp_timer_interrupt k : wlp timer_interrupt k (λ _ k', same_core k k').
Proof.
  unfold timer_interrupt, thread_tick, intr_yield_on_return, intr_context.
  apply wlp_bind, wlp_modify, wlp_bind, wlp_thread_current, wlp_bind, wlp_gets.
  apply wlp_bind, wlp_load. intros th _. apply wlp_bind.
  eapply wlp_mono with (P := λ _ k1, same_core k k1).
  { destruct (_ =? _); [by apply wlp_modify|]. destruct (nonnull _); by apply wlp_modify. }
  intros [] k1 H1. apply wlp_bind, wlp_modify, wlp_bind, wlp_gets.
  assert (same_core k (set_thread_ticks (λ n, u32 (n + 1)) k1)) as H2 by (by destruct H1).
  destruct (_ <=? _); [|by apply wlp_ret].
  apply wlp_bind, wlp_gets, wlp_bind, wlp_assert. intros ?. apply wlp_modify. by destruct H1.
Qed.

Lemma wlp_timer k : inv k →
  wlp (intr_handler timer_interrupt) k (λ _ k', inv k' ∧ holders k' = holders k ∧ calm None (running k) k k').
Proof.
  intros Hinv. unfold intr_handler, intr_get_level, intr_context. destruct (inv_stack k Hinv) as [ks Hks].
  eapply wlp_bind_run; [by apply (push_kont_run _ _ ks)|].
  assert (inv (set_konts <[running k := KIret :: ks]> k)) as Hinv1 by (apply enter_inv; [done..|by right]).
  set (k1 := set_konts _ k) in *.
  apply wlp_bind, wlp_modify, wlp_bind, wlp_gets, wlp_bind, wlp_assert. intros _.
  apply wlp_bind, wlp_gets, wlp_bind, wlp_assert. intros _. apply wlp_bind, wlp_modify, wlp_bind, wlp_modify.
  apply wlp_bind. eapply wlp_mono; [apply wlp_timer_interrupt|]. intros [] k2 H2.
  apply wlp_bind, wlp_gets, wlp_bind, wlp_assert. intros _. apply wlp_bind, wlp_gets, wlp_bind, wlp_assert.
  intros _. apply wlp_bind, wlp_modify. set (k3 := set_in_external_intr _ k2).
  assert (same_core k1 k3) as H3 by (by destruct H2).
  assert (inv k3) as Hinv3 by (by eapply same_core_inv).
  assert (holders k3 = holders k) as Hh by (by rewrite (sc_holders _ _ H3)).
  assert (calm None (running k) k k3) as Hc3.
  { eapply calm_trans; [by apply (calm_push _ _ ks KIret)|]. destruct H3. by apply calm_same. }
  apply wlp_bind, wlp_gets. destruct (yield_on_return k3); [|by apply wlp_ret].
  eapply wlp_mono; [by apply wlp_thread_yield|]. intros _ k' (? & -> & Hcalm). split_and!; [done..|].
  rewrite (sc_running _ _ H3) in Hcalm. by eapply calm_trans.
Qed.

(** ** Exiting *)

Lemma exit_inv k th : sched_inv THREAD_RUNNING k → threads k !! running k = Some th →
  running k ≠ idle_thread k →
  sched_inv THREAD_DYING (set_threads <[running k := set_status THREAD_DYING th]>
    (set_all_list (filter (λ t, t ≠ running k)) k)).
Proof.
  intros Hinv Ht Hid. set (k' := set_threads _ _).
  assert (threads k' = <[running k := set_status THREAD_DYING th]> (threads k)) as Hth by done.
  pose proof (λ u a, has_status_insert k k' _ _ u a Hth) as Hst. simpl in Hst.
  assert (∀ u a, a ≠ THREAD_RUNNING → has_status k u a → has_status k' u a) as Hkeep.
  { intros u a Ha Hu. apply Hst. right. split; [|done]. intros ->.
    apply Ha. by apply (has_status_det _ _ _ _ Hu), (si_running _ _ Hinv). }
  split.
  - apply Hst. by left.
  - intros u x Hx. rewrite Hth in Hx. destruct (decide (u = running k)) as [->|].
    + rewrite lookup_insert_eq in Hx. injection Hx as <-. apply (si_magic _ _ Hinv _ _ Ht).
    + rewrite lookup_insert_ne in Hx by done. by eapply (si_magic _ _ Hinv).
  - rewrite Hth, lookup_insert_ne; [apply (si_null _ _ Hinv)|].
    eapply inv_not_null; [done|by exists th].
  - intros u [[_ ?]|[Hne Hu]]%Hst; [done|]. by apply (si_others _ _ Hinv).
  - apply (si_ready_nodup _ _ Hinv).
  - intros u Hu. destruct (si_ready _ _ Hinv u Hu) as [? ?]. split; [by apply Hkeep|done].
  - intros u [[_ ?]|[_ Hu]]%Hst; [done|]. by apply (si_ready_all _ _ Hinv).
  - apply (alive_insert k k' _ _ _ Hth). right. split; [done|apply (si_idle _ _ Hinv)].
  - apply (si_waiters _ _ Hinv).
  - intros s u Hu. destruct (si_waits _ _ Hinv s u Hu) as [? ?]. split; [by apply Hkeep|done].
  - apply (si_waits_one _ _ Hinv).
  - simpl. apply NoDup_filter, (si_all_nodup _ _ Hinv).
  - intros u. rewrite (alive_insert k k' _ _ _ Hth). simpl. rewrite list_elem_of_filter, (si_all _ _ Hinv).
    naive_solver.
  - intros u [x Hx]. rewrite Hth in Hx. apply (si_konts _ _ Hinv). destruct (decide (u = running k)) as [->|].
    + by exists th.
    + rewrite lookup_insert_ne in Hx by done. by exists x.
Qed.

(** Members that the scheduler does not use may change. *)
Lemma sched_inv_member st k t th f : sched_inv st k → threads k !! t = Some th →
  status (f th) = status th → magic (f th) = magic th → sched_inv st (set_threads <[t := f th]> k).
Proof.
  intros Hinv Ht Hs Hm. set (k' := set_threads _ k).
  assert (∀ u a, has_status k' u a ↔ has_status k u a) as Hst.
  { intros u a. rewrite (has_status_insert k k' t (f th) u a) by done. rewrite Hs. unfold has_status.
    destruct (decide (u = t)) as [->|]; naive_solver. }
  assert (∀ u, is_Some (threads k' !! u) ↔ is_Some (threads k !! u)) as Hdom.
  { intros u. simpl. destruct (decide (u = t)) as [->|]; [|by rewrite lookup_insert_ne].
    rewrite lookup_insert_eq, Ht. split; by eauto. }
  destruct Hinv as [H1 H2 H3 H4 H5 H6 H7 H8 H9 H10 H11 H12 H13 H14]. split; try done.
  - by apply Hst.
  - intros u x Hx. simpl in Hx. apply lookup_insert_Some in Hx as [[<- <-]|[_ Hx]]; [|by eapply H2].
    rewrite Hm. by eapply H2.
  - apply eq_None_not_Some. rewrite Hdom. by apply eq_None_not_Some.
  - intros u Hu%Hst. by apply H4.
  - intros u Hu. rewrite Hst. by apply H6.
  - intros u Hu%Hst. by apply H7.
  - apply (alive_insert k k' t (f th)); [done|]. rewrite Hs.
    destruct (decide (idle_thread k = t)) as [E|]; [left|right; by split].
    destruct H8 as (x & Hx & ?). split; [done|]. rewrite E in Hx. congruence.
  - intros s u Hu. rewrite Hst. by apply (H10 s).
  - intros u. rewrite (alive_insert k k' t (f th)) by done. rewrite Hs. simpl. rewrite H13.
    destruct (decide (u = t)) as [->|]; naive_solver.
  - intros u Hu%Hdom. by apply H14.
Qed.

Lemma calm_member x r k t th f : threads k !! t = Some th → status (f th) = status th →
  calm x r k (set_threads <[t := f th]> k).
Proof.
  intros Ht Hs. apply calm_ext; [|done..]. intros u a _.
  rewrite (has_status_insert k _ t (f th)) by done. rewrite Hs. unfold has_status.
  destruct (decide (u = t)) as [->|]; naive_solver.
Qed.

Lemma sync_inv_delete k k' r ks : sync_inv k → konts k !! r = Some ks → no_acq ks →
  konts k' = delete r (konts k) → holders k' = holders k → semas k' = semas k → conds k' = conds k →
  in_external_intr k' = in_external_intr k → idle_thread k' = idle_thread k → sync_inv k'.
Proof.
  intros [H1 H2 H3 H4 H5] Hks Hno Ek Eh Es Ec Ee Ei. split.
  - intros l Hl. rewrite Eh in Hl. eapply lock_state_ext with (k := k); [by rewrite Eh|by rewrite Es| |by apply H1].
    intros t. unfold acquiring. rewrite Ek. setoid_rewrite lookup_delete_Some. split; [naive_solver|].
    intros (ks' & Hk' & Hp). exists ks'. split_and!; [|done..]. intros <-. rewrite Hks in Hk'.
    injection Hk' as <-. by rewrite Hno in Hp.
  - intros t ks'. rewrite Ek. intros [_ Ht]%lookup_delete_Some.
    eapply stack_ok_ext with (k := k); [by rewrite Eh|by eapply H2].
  - intros ks'. rewrite Ek, Ei. intros [_ Ht]%lookup_delete_Some. by apply H3.
  - intros c ws w. rewrite Ec. intros Hc Hw (l & Hl & ->). rewrite Eh in Hl. eapply H4; [done..|].
    by exists l.
  - congruence.
Qed.

Lemma wlp_find_tid x ts k (Q : addr → kern → Prop) :
  (∀ t, t = NULL ∨ (∃ th, threads k !! t = Some th ∧ tid th = x) → Q t k) → wlp (find_tid x ts) k Q.
Proof.
  intros HQ. induction ts as [|t ts IH]; simpl; [apply wlp_ret, HQ; by left|].
  apply wlp_bind, wlp_load. intros th Ht. destruct (Z.eqb_spec (tid th) x); [|done].
  apply wlp_ret, HQ. right. by exists th.
Qed.

Lemma wlp_get_thread x k (Q : addr → kern → Prop) :
  (∀ t, t = NULL ∨ (∃ th, threads k !! t = Some th ∧ tid th = x) → Q t (level k (intr_on k))) →
  wlp (get_thread x) k Q.
Proof.
  intros HQ. unfold get_thread. apply wlp_bind, wlp_intr_disable, wlp_bind, wlp_gets.
  apply wlp_bind, wlp_find_tid. intros t Ht. apply wlp_bind, wlp_intr_set_level, wlp_ret.
  by apply HQ.
Qed.

(** The waiting parent of an exiting thread is blocked on nothing else, and it is not a
    thread that has not started yet. *)
Definition exit_ok (k : kern) : Prop :=
  ∀ cur t th, threads k !! running k = Some cur → waiting_thread cur ≠ 0 →
    threads k !! t = Some th → tid th = waiting_thread cur →
    t ≠ idle_thread k ∧ (∀ s, ¬ waits_on k s t) ∧ ¬ unborn k t.

(** The state of [thread_exit] before it marks the thread as dying, up to the removal from
    the list of all threads. *)
Definition exiting (k k2 : kern) : Prop :=
  ∃ k1, k2 = set_all_list (filter (λ t, t ≠ running k)) k1 ∧ sched_inv THREAD_RUNNING k1 ∧
    same_sync k k1 ∧ intr_on k1 = false ∧ calm None (running k) k k1.

Lemma wlp_exit_wake k th : inv k → intr_on k = false → exit_ok k → threads k !! running k = Some th →
  wlp (if negb (waiting_thread th =? 0) then
     w ← get_thread (waiting_thread th);
     thread_unblock w;;
     w ← get_thread (waiting_thread th);
     upd_thread w (set_child_exit_status (exit_status th))
   else mret ()) (set_all_list (filter (λ t, t ≠ running k)) k) (λ _ k2, exiting k k2).
Proof.
  intros [Hs Hy] Hoff Hok Hth. set (k0 := set_all_list _ k).
  destruct (Z.eqb_spec (waiting_thread th) 0) as [|Hw]; simpl.
  { apply wlp_ret. exists k. split_and!; [done..|apply calm_refl]. }
  apply wlp_bind, wlp_get_thread. intros w Hwt. apply wlp_bind, wlp_thread_unblock_state.
  intros thw Hthw Hb. simpl in Hthw.
  assert (∃ x, threads k !! w = Some x ∧ tid x = waiting_thread th) as (x & Hx & Hxt).
  { destruct Hwt as [->|?]; [|done]. by rewrite (si_null _ _ Hs) in Hthw. }
  destruct (Hok th w x Hth Hw Hx Hxt) as (Hni & Hnw & Hnu).
  assert (sched_inv THREAD_RUNNING (unblocked k w thw)) as Hs1 by (by apply unblock_inv).
  apply wlp_bind, wlp_get_thread. intros w' _. apply wlp_upd_thread. intros th' Hth'. simpl in Hth'.
  exists (set_threads <[w' := set_child_exit_status (exit_status th) th']> (unblocked k w thw)).
  split_and!; [|by apply sched_inv_member|done|done|].
  { unfold level, set_threads, set_all_list, set_intr_on, unblocked. simpl. by rewrite Hoff. }
  eapply calm_trans; [|by apply calm_member].
  eapply (calm_status _ _ _ _ w (set_status THREAD_READY thw)); try done. by right; left.
Qed.

Lemma wlp_thread_exit k : inv k → konts k !! running k = Some [] →
  running k ≠ idle_thread k → exit_ok k →
  wlp thread_exit k (λ _ k', inv k' ∧ holders k' = holders k ∧ calm None (running k) k k').
Proof.
  intros Hinv Hks Hid Hok.
  assert (exit_ok (level k false)) as Hok1.
  { intros cur t th H1 H2 H3 H4. destruct (Hok cur t th H1 H2 H3 H4) as (? & ? & Hnu).
    split_and!; [done..|]. intros [? ? ? ?]. apply Hnu. by split. }
  unfold thread_exit, intr_context.
  apply wlp_bind, wlp_gets, wlp_bind, wlp_assert. intros _. apply wlp_bind, wlp_intr_disable.
  apply wlp_bind, wlp_thread_current, wlp_bind, wlp_modify, wlp_bind, wlp_load. intros th Hth.
  apply wlp_bind. eapply wlp_mono; [apply (wlp_exit_wake (level k false)); [by apply inv_level|done..]|].
  intros _ k2 (k1 & -> & Hs1 & Hss & Hoff & Hcalm1). pose proof Hss as [Eh Ek Es Ec Ee Er Ei]. simpl in *.
  apply wlp_bind, wlp_thread_current, wlp_bind, wlp_upd_thread. intros th1 Hth1. simpl in Hth1. rewrite <-Er.
  assert (sync_inv k1) as Hy1 by (by eapply sync_inv_ext; [..|apply Hinv]).
  pose proof (exit_inv k1 th1 Hs1 Hth1 ltac:(congruence)) as Hx. simpl.
  destruct (schedule_spec _ _ Hx ltac:(done) Hoff)
    as (k' & Hrun & Hinv' & _ & _ & Es' & Eh' & Ec' & Ei' & Ee' & _ & Hk' & Hcalm).
  { intros _. simpl. by rewrite Ek, Er. }
  eapply wlp_run; [exact Hrun|]. simpl in *. split_and!; [|congruence|].
  - split; [done|]. destruct Hk' as [Ek'|[_ Ek']].
    + by eapply sync_inv_ext; [..|exact Hy1].
    + eapply (sync_inv_delete k1 k' (running k1) []); [done|congruence|done..].
  - rewrite <-Er in *. eapply calm_trans; [|exact Hcalm].
    eapply calm_trans; [apply (calm_trans _ _ _ (level k false)); [by apply calm_same|exact Hcalm1]|].
    eapply (calm_status _ _ _ _ (running k1) (set_status THREAD_DYING th1)); try done. by left.
Qed.

(** ** The machine *)

(** Leaving an activation that does not concern a lock. *)
Lemma leave_inv k c rest : inv k → konts k !! running k = Some (c :: rest) →
  (∀ l, passed l rest = passed l (c :: rest)) → inv (set_konts <[running k := rest]> k).
Proof.
  intros [Hs Hy] Hks Hp. split; [by apply (sched_inv_stack _ k _ (running k) rest)|].
  eapply (sync_inv_stack k _ (running k) (c :: rest) rest); try done.
  - by apply (sy_stacks _ Hy) in Hks as [_ ?].
  - intros E. rewrite E in Hks. apply (sy_idle _ Hy) in Hks. by apply Forall_cons in Hks as [_ ?].
Qed.

Lemma inv_not_idle k c rest : inv k → konts k !! running k = Some (c :: rest) → ¬ idle_kont c →
  running k ≠ idle_thread k.
Proof.
  intros [_ Hy] Hks Hc E. rewrite E in Hks. apply (sy_idle _ Hy) in Hks.
  by apply Forall_cons in Hks as [? _].
Qed.

Lemma holders_step_set k k' l : holders k !! l = Some NULL →
  holders k' = <[l := running k]> (holders k) → holders_step k k'.
Proof.
  intros Hl Hh. unfold holders_step. rewrite Hh. split.
  - intros l'. destruct (decide (l' = l)) as [->|]; [|by rewrite lookup_insert_ne].
    rewrite lookup_insert_eq, Hl. split; by eauto.
  - intros l' h Hl' Hne. left. rewrite lookup_insert_ne; [done|]. intros ->. congruence.
Qed.

(** ** Creating threads *)

Lemma machine_evolves k k' : machine_inv k → inv k' → evolves (running k) k k' → machine_inv k'.
Proof. intros Hm ? ?. split; [done|]. by apply (evolves_inv k). Qed.

(** The page of a new thread, as [palloc_get_page] returns it: null or not in use. *)
Definition page_fresh (k : kern) (page : addr) : Prop := threads k !! page = None ∧ konts k !! page = None.

Lemma kern_ext k k' : threads k = threads k' → konts k = konts k' → running k = running k' →
  ready_list k = ready_list k' → all_list k = all_list k' → idle_thread k = idle_thread k' →
  initial_thread k = initial_thread k' → idle_ticks k = idle_ticks k' → kernel_ticks k =
  kernel_ticks k' → user_ticks k = user_ticks k' → thread_ticks k = thread_ticks k' → intr_on k =
  intr_on k' → in_external_intr k = in_external_intr k' → yield_on_return k = yield_on_return k' →
  next_tid k = next_tid k' → semas k = semas k' → holders k = holders k' → conds k = conds k' →
  active_pd k = active_pd k' → ticks k = ticks k' → k = k'.
Proof. destruct k, k'; simpl. intros. by subst. Qed.

(** [init_thread], and the activations of the creating thread up to [lock_acquire]. *)
Definition created (k : kern) (page : addr) (th : thread) : kern :=
  set_konts <[running k := [KTid page; KCreate page]]> (set_all_list (λ l, l ++ [page])
    (set_konts <[page := []]> (set_threads <[page := th]> k))).

Section created.
Context (k : kern) (page : addr) (th : thread) (Hm : machine_inv k) (Hfresh : page_fresh k page).
Context (Hnull : page ≠ NULL) (Hmagic : magic th = THREAD_MAGIC) (Hblocked : status th = THREAD_BLOCKED).
Context (Hks : konts k !! running k = Some []) (Hid : running k ≠ idle_thread k).

Lemma created_status u a : has_status (created k page th) u a ↔
  (u = page ∧ a = THREAD_BLOCKED) ∨ (u ≠ page ∧ has_status k u a).
Proof. rewrite <-Hblocked. by apply has_status_insert. Qed.

Lemma fresh_status u a : has_status k u a → u ≠ page.
Proof. intros (x & Hx & _) ->. destruct Hfresh as [E _]. congruence. Qed.

Lemma created_keep u a : has_status k u a → has_status (created k page th) u a.
Proof. intros H. apply created_status. right. split; [by eapply fresh_status|done]. Qed.

Lemma created_konts u : konts (created k page th) !! u =
  if decide (u = running k) then Some [KTid page; KCreate page]
  else if decide (u = page) then Some [] else konts k !! u.
Proof.
  simpl. destruct (decide (u = running k)) as [->|]; [by rewrite lookup_insert_eq|].
  rewrite lookup_insert_ne by done. destruct (decide (u = page)) as [->|]; [by rewrite lookup_insert_eq|].
  by rewrite lookup_insert_ne.
Qed.

Lemma created_sched : sched_inv THREAD_RUNNING (created k page th).
Proof.
  destruct Hm as ((Hs & _) & _ & _). pose proof created_keep as Hkeep.
  assert (∀ u x, threads (created k page th) !! u = Some x →
    (u = page ∧ x = th) ∨ threads k !! u = Some x) as Hth.
  { intros u x Hx. simpl in Hx. apply lookup_insert_Some in Hx as [[<- <-]|[_ ?]]; auto. }
  split.
  - apply Hkeep, (si_running _ _ Hs).
  - intros u x [[_ ->]|Hx]%Hth; [done|by eapply (si_magic _ _ Hs)].
  - apply eq_None_not_Some. intros [x [[? _]|Hx]%Hth]; [done|]. by rewrite (si_null _ _ Hs) in Hx.
  - intros u [[_ ?]|[_ Hu]]%created_status; [done|by apply (si_others _ _ Hs)].
  - apply (si_ready_nodup _ _ Hs).
  - intros u Hu. destruct (si_ready _ _ Hs u Hu). split; [by apply Hkeep|done].
  - intros u [[_ ?]|[_ Hu]]%created_status; [done|by apply (si_ready_all _ _ Hs)].
  - destruct (si_idle _ _ Hs) as (x & Hx & Hd). apply (alive_insert k _ page th); [done|]. right.
    split; [|by exists x]. by apply (fresh_status _ (status x)); exists x.
  - apply (si_waiters _ _ Hs).
  - intros s u Hu. destruct (si_waits _ _ Hs s u Hu). split; [by apply Hkeep|done].
  - apply (si_waits_one _ _ Hs).
  - simpl. apply NoDup_app. split; [apply (si_all_nodup _ _ Hs)|]. split; [|apply NoDup_singleton].
    intros u (x & Hx & _)%(si_all _ _ Hs) ->%list_elem_of_singleton. destruct Hfresh as [E _]. congruence.
  - intros u. rewrite (alive_insert k _ page th) by done. simpl.
    rewrite elem_of_app, list_elem_of_singleton, (si_all _ _ Hs). split.
    + intros [(x & Hx & Hd)| ->]; [right|left; split; [done|by rewrite Hblocked]].
      split; [|by exists x]. by apply (fresh_status _ (status x)); exists x.
    + intros [[-> _]|[_ ?]]; auto.
  - intros u Hu. rewrite created_konts. destruct (decide (u = running k)); [by eauto|].
    destruct (decide (u = page)); [by eauto|]. destruct Hu as [x [[? _]|Hx]%Hth]; [done|].
    apply (si_konts _ _ Hs). by exists x.
Qed.

Lemma created_sync : sync_inv (created k page th).
Proof.
  destruct Hm as ((_ & [H1 H2 H3 H4 H5]) & _ & _). split; try done.
  - intros l Hl. eapply lock_state_ext with (k := k); [done..| |by apply H1]. intros t.
    unfold acquiring. rewrite created_konts. destruct (decide (t = running k)) as [->|].
    + rewrite Hks. naive_solver.
    + destruct (decide (t = page)) as [->|]; [|done]. destruct Hfresh as [_ E]. rewrite E. naive_solver.
  - intros t ks. rewrite created_konts. intros Ht. apply (stack_ok_ext k); [done|].
    destruct (decide (t = running k)); [injection Ht as <-; done|].
    destruct (decide (t = page)); [injection Ht as <-; done|by eapply H2].
  - intros ks. rewrite created_konts. change (idle_thread (created k page th)) with (idle_thread k).
    destruct (decide (idle_thread k = running k)); [done|].
    destruct (decide (idle_thread k = page)); [by intros [= <-]|apply H3].
Qed.

Lemma created_inv : machine_inv (created k page th).
Proof.
  pose proof created_sched as Hs'. pose proof created_sync as Hy'.
  destruct Hm as ((Hs & Hy) & Hb & Hc). split; [done|].
  assert (∀ u t, (∃ ks, konts (created k page th) !! u = Some ks ∧ KCreate t ∈ ks) ↔
    (t = page ∧ u = running k) ∨ (∃ ks, konts k !! u = Some ks ∧ KCreate t ∈ ks)) as Hcr.
  { intros u t. rewrite created_konts. destruct (decide (u = running k)) as [->|].
    - rewrite Hks. split; [intros (ks & [= <-] & Hin); set_solver|].
      intros [[-> _]|(ks & [= <-] & Hin)]; [eexists; split; [done|set_solver]|set_solver].
    - destruct (decide (u = page)) as [->|]; [|naive_solver]. destruct Hfresh as [_ E]. rewrite E.
      split; [intros (ks & [= <-] & Hin); set_solver|naive_solver]. }
  assert (∀ t, being_created k t → being_created (created k page th) t) as Hbc.
  { intros t (u & H). exists u. apply Hcr. by right. }
  assert (∀ s, ¬ waits_on k s page) as Hpw.
  { intros s Hw. destruct (si_waits _ _ Hs _ _ Hw) as [Hpb _]. by apply fresh_status in Hpb. }
  assert (running k ≠ page) as Hrp by (by eapply fresh_status, (si_running _ _ Hs)).
  split.
  - intros t [[-> _]|[Hne Ht]]%created_status Hi.
    + exists []. rewrite created_konts, decide_False, decide_True by done. split; [done|].
      exists (running k). apply Hcr. by left.
    + apply (parked_same k); [|done|apply Hbc|by apply Hb]. rewrite created_konts, decide_False, decide_False; [done..|].
      intros ->. by pose proof (has_status_det _ _ _ _ Ht (si_running _ _ Hs)).
  - intros u ks t Hu Hin. assert (∃ ks, konts (created k page th) !! u = Some ks ∧ KCreate t ∈ ks) as H by eauto.
    assert (¬ being_created k page) as Hnp.
    { intros (u' & ks' & Hu' & Hin'). destruct (Hc _ _ _ Hu' Hin') as [[Hpb _ _ _] _].
      by apply fresh_status in Hpb. }
    apply Hcr in H as [[-> ->]|(ks0 & Hu0 & Hin0)].
    + split.
      * split; [apply created_status; by left|by rewrite created_konts, decide_False, decide_True| |done].
        intros E. destruct (si_idle _ _ Hs) as (x & Hx & _). simpl in E. rewrite <-E in Hx.
        destruct Hfresh. congruence.
      * intros u' ks' Hu' Hin'. destruct (proj1 (Hcr u' page)) as [[_ ?]|?]; [by eauto|done|].
        destruct Hnp. by exists u'.
    + destruct (Hc u ks0 t Hu0 Hin0) as [[U1 U2 U3 U4] Huniq].
      assert (t ≠ page) as Htp by (by eapply fresh_status). split.
      * split; [by apply created_keep| |done|done]. rewrite created_konts, decide_False, decide_False; [done..|].
        intros ->. by pose proof (has_status_det _ _ _ _ U1 (si_running _ _ Hs)).
      * intros u' ks' Hu' Hin'. destruct (proj1 (Hcr u' t)) as [[? _]|(ks1 & ? & ?)]; [by eauto|done|].
        by eapply Huniq.
Qed.
End created.

Lemma wlp_thread_create page nm prio k : machine_inv k → konts k !! running k = Some [] →
  running k ≠ idle_thread k → page_fresh k page →
  wlp (thread_create page nm prio) k (λ _ k', machine_inv k' ∧ holders k' = holders k).
Proof.
  intros Hm Hks Hid Hf. unfold thread_create. destruct (nonnull page) eqn:Hn; simpl; [|by apply wlp_ret].
  assert (page ≠ NULL) as Hnull by (by intros ->).
  assert (running k ≠ page) as Hrp.
  { destruct (si_running _ _ (proj1 (proj1 Hm))) as (x & Hx & _). intros E. rewrite E in Hx.
    destruct Hf. congruence. }
  unfold init_thread. apply wlp_bind, wlp_bind, wlp_assert. intros _. apply wlp_bind, wlp_assert. intros _.
  apply wlp_bind, wlp_modify, wlp_bind, wlp_modify, wlp_bind, wlp_intr_disable, wlp_bind, wlp_modify.
  apply wlp_bind, wlp_intr_set_level, wlp_ret. set (th := Thread _ _ _ _ _ _ _ _ _ _ _).
  eapply wlp_bind_run; [apply (push_kont_run _ _ []); simpl; by rewrite lookup_insert_ne|].
  unfold allocate_tid. apply wlp_bind.
  eapply wlp_bind_run; [eapply push_kont_run; simpl; by rewrite lookup_insert_eq|].
  pose proof (created_inv k page th Hm Hf Hnull eq_refl eq_refl Hks Hid) as Hm1.
  set (k1 := set_konts _ _). assert (k1 = created k page th) as E.
  { apply kern_ext; try reflexivity. simpl. by rewrite insert_insert_eq. }
  clearbody k1. subst k1.
  eapply wlp_mono; [apply (wlp_lock_acquire _ [KTid page; KCreate page]); [apply Hm1| |done|done]|].
  { simpl. by rewrite lookup_insert_eq. }
  intros _ k' (Hi & Hh & Hev). apply wlp_ret. split; [by eapply machine_evolves|done].
Qed.

(** Members of a thread that is not running, as [alloc_frame] changes them. *)
Lemma wlp_alloc_frame t n k : sched_inv THREAD_RUNNING k →
  wlp (alloc_frame t n) k (λ _ k', sched_inv THREAD_RUNNING k' ∧ same_sync k k' ∧ calm None (running k) k k').
Proof.
  intros Hs. unfold alloc_frame. apply wlp_bind, wlp_is_thread. intros b _. apply wlp_bind, wlp_assert.
  intros _. apply wlp_bind, wlp_assert. intros _. apply wlp_bind, wlp_upd_thread. intros th Ht.
  apply wlp_bind, wlp_load. intros th' _. apply wlp_ret.
  split_and!; [by apply (sched_inv_member _ k t th (λ th, set_stack (stack th - n) th))|done|].
  by apply (calm_member _ _ k t th (λ th, set_stack (stack th - n) th)).
Qed.

(** The end of [thread_create]: the new thread gets its first activation and becomes ready. *)
Lemma wlp_thread_create_rest t k : machine_inv k → konts k !! running k = Some [KCreate t] →
  wlp (pop_kont;; thread_create_rest t) k (λ _ k', machine_inv k' ∧ holders k' = holders k).
Proof.
  intros Hm Hks. pose proof Hm as (Hinv & Hb & Hc). set (r := running k) in *.
  destruct (Hc r [KCreate t] t Hks) as [Hub Huniq]; [set_solver|].
  assert (t ≠ r) as Htr.
  { intros ->. by pose proof (has_status_det _ _ _ _ (ub_status _ _ Hub) (si_running _ _ (proj1 Hinv))). }
  eapply wlp_bind_run; [by eapply pop_kont_run|]. set (k1 := set_konts _ k).
  assert (inv k1) as [Hs1 Hy1] by (by eapply leave_inv).
  assert (calm (Some t) r k k1) as Hc1.
  { eapply (calm_stack _ _ _ _ r [KCreate t] []); [done..|by left| | |done|done|done]; [set_solver|].
    intros t' Ht' Hin%list_elem_of_singleton. congruence. }
  assert (unborn k1 t) as Hub1.
  { destruct Hub as [U1 U2 U3 U4]. split; [done| |done|done]. simpl. by rewrite lookup_insert_ne. }
  unfold thread_create_rest.
  apply wlp_bind. eapply wlp_mono; [by apply wlp_alloc_frame|]. intros _ k2 (Hs2 & Hss2 & Hc2).
  apply wlp_bind. eapply wlp_mono; [by apply wlp_alloc_frame|]. intros _ k3 (Hs3 & Hss3 & Hc3).
  apply wlp_bind. eapply wlp_mono; [by apply wlp_alloc_frame|]. intros _ k4 (Hs4 & Hss4 & Hc4).
  rewrite (ss_running _ _ Hss3), (ss_running _ _ Hss2) in Hc4. rewrite (ss_running _ _ Hss2) in Hc3.
  change (running k1) with r in *.
  assert (same_sync k1 k4) as [Eh Ek Es Ec Ee Er Ei].
  { destruct Hss2, Hss3, Hss4. split; congruence. }
  pose proof (calm_trans _ _ _ _ _ (calm_trans _ _ _ _ _ Hc2 Hc3) Hc4) as Hc14.
  assert (unborn k4 t) as [U1 U2 U3 U4] by (by apply (cm_unborn _ _ _ _ Hc14)).
  assert (sync_inv k4) as Hy4 by (by apply (same_sync_inv k1)).
  apply wlp_bind, wlp_modify. set (k5 := set_konts _ k4).
  assert (sched_inv THREAD_RUNNING k5) as Hs5 by (by apply (sched_inv_stack _ k4 k5 t [KStart])).
  assert (sync_inv k5) as Hy5 by (by eapply (sync_inv_stack k4 k5 t [] [KStart])).
  assert (calm (Some t) r k k5) as Hc5.
  { eapply calm_trans; [exact Hc1|]. eapply calm_trans; [by apply calm_weaken, Hc14|].
    eapply (calm_stack _ _ k4 k5 t [] [KStart]); [done..|by right| | |done|done|done]; set_solver. }
  apply wlp_thread_unblock_state. intros th Ht Hbt. set (k6 := level _ _).
  assert (calm (Some t) r k k6) as Hc6.
  { eapply calm_trans; [exact Hc5|].
    eapply (calm_status _ _ _ _ t (set_status THREAD_READY th)); try done. by right; right. }
  split; [|exact Eh]. split_and!.
  - split; [apply sched_inv_level; by apply unblock_inv|]. by apply (sync_inv_ext k5).
  - intros t' Ht' Hi'. destruct (decide (t' = t)) as [->|Hne].
    + destruct Ht' as (x & Hx & Hxb). simpl in Hx. rewrite lookup_insert_eq in Hx. by injection Hx as <-.
    + eapply (calm_blocked (Some t)); [done..| |done|done]. congruence.
  - eapply (calm_create (Some t) k); [done..|]. intros t' [= <-] (u & ks & Hu & Hin).
    destruct (cm_create _ _ _ _ Hc6 _ _ _ Hu Hin) as (ks0 & Hu0 & Hin0).
    rewrite (Huniq _ _ Hu0 Hin0) in Hu. simpl in Hu. rewrite lookup_insert_ne, Ek in Hu by done.
    simpl in Hu. rewrite lookup_insert_eq in Hu. injection Hu as <-. by apply not_elem_of_nil in Hin.
Qed.

(** The end of [allocate_tid]. *)
Lemma wlp_allocate_tid_rest t k : machine_inv k → konts k !! running k = Some [KTid t; KCreate t] →
  wlp (pop_kont;; allocate_tid_rest t) k (λ _ k', machine_inv k' ∧ holders_step k k').
Proof.
  intros Hm Hks. pose proof (proj1 Hm) as Hinv. eapply wlp_bind_run; [by eapply pop_kont_run|].
  set (k1 := set_konts _ k). assert (inv k1) as Hinv1 by (by eapply leave_inv).
  unfold allocate_tid_rest. apply wlp_bind, wlp_gets, wlp_bind, wlp_modify, wlp_bind, wlp_upd_thread.
  intros th Ht. set (k2 := set_threads _ _).
  assert (inv k2) as Hinv2.
  { destruct Hinv1 as [Hs1 Hy1]. split; [|by apply (sync_inv_ext k1)].
    apply (sched_inv_member _ _ t th (set_tid (next_tid k1))); [by apply (sched_inv_ext _ k1)|done..]. }
  eapply wlp_mono; [by apply wlp_lock_release|]. intros _ k' (Hi & Hst & _ & _ & _ & _ & Hcalm).
  split; [|done]. eapply machine_evolves; [done..|]. left.
  eapply calm_trans; [by apply (calm_pop _ k [KCreate t] (KTid t))|].
  eapply calm_trans; [by apply (calm_same _ _ _ (set_next_tid (λ n, s32 (n + 1)) k1))|].
  eapply calm_trans; [|exact Hcalm]. by apply (calm_member _ _ _ t th (set_tid (next_tid k1))).
Qed.

Lemma wlp_resume k : machine_inv k → wlp resume k (λ _ k', machine_inv k' ∧ holders_step k k').
Proof.
  intros Hm. pose proof (proj1 Hm) as Hinv. unfold resume, running_thread.
  apply wlp_bind, wlp_gets, wlp_bind, wlp_load. intros ks Hks.
  destruct ks as [|c rest]; [apply wlp_ret; split; [done|by apply holders_step_refl]|].
  pose proof (sy_stacks _ (proj2 Hinv) _ _ Hks) as [Hc Hok].
  assert (∀ k1, inv k1 → holders k1 = holders k → evolves (running k) k k1 →
    machine_inv k1 ∧ holders_step k k1) as Hdone.
  { intros k1 ? ? ?. split; [by eapply machine_evolves|by apply holders_step_refl]. }
  assert (∀ b, (∀ t, c ≠ KCreate t) → (∀ l, passed l rest = passed l (c :: rest)) →
    machine_inv (level (set_konts <[running k := rest]> k) b) ∧
    holders_step k (level (set_konts <[running k := rest]> k) b)) as Hleave.
  { intros b Hcr Hp. apply Hdone; [apply inv_level; by eapply leave_inv|done|]. left.
    eapply calm_trans; [by eapply calm_pop|by apply calm_same]. }
  destruct c; try done.
  - eapply wlp_mono; [by eapply wlp_sema_down_loop|]. intros _ k' (? & ? & ?). by apply Hdone.
  - eapply wlp_bind_run; [by eapply pop_kont_run|]. unfold set_holder.
    apply wlp_bind, wlp_thread_current, wlp_bind, wlp_load. intros h Hh. apply wlp_modify.
    destruct (set_holder_inv k lock rest Hinv Hks) as [Hi Hn]; [by exists h|].
    split; [|by eapply holders_step_set]. eapply machine_evolves; [done|exact Hi|]. left.
    eapply calm_trans; [by eapply calm_pop|by apply calm_same].
  - eapply wlp_bind_run; [by eapply pop_kont_run|].
    eapply wlp_mono; [eapply (wlp_lock_acquire _ rest)|].
    + eapply leave_inv; [done..|]. intros l. by rewrite Hc.
    + simpl. by rewrite lookup_insert_eq.
    + done.
    + apply (inv_not_idle k _ rest Hinv Hks). intros [].
    + intros _ k' (? & ? & Hev). apply Hdone; [done..|]. eapply calm_evolves; [|exact Hev]. by eapply calm_pop.
  - eapply wlp_bind_run; [by eapply pop_kont_run|]. apply wlp_bind, wlp_intr_set_level, wlp_ret.
    by apply Hleave.
  - eapply wlp_bind_run; [by eapply pop_kont_run|]. apply wlp_modify. by apply (Hleave true).
  - simpl in Hc. subst rest. by apply wlp_allocate_tid_rest.
  - simpl in Hc. subst rest. eapply wlp_mono; [by apply wlp_thread_create_rest|].
    intros _ k' [? ?]. split; [done|by apply holders_step_refl].
  - eapply wlp_bind_run; [by eapply pop_kont_run|]. apply wlp_modify. apply (Hleave true); [done|].
    intros l. by rewrite Hc.
  - eapply wlp_run; [by eapply pop_kont_run|]. apply (Hleave (intr_on k)); [done|]. intros l. by rewrite Hc.
  - eapply wlp_bind_run; [by eapply pop_kont_run|]. unfold intr_enable.
    apply wlp_bind, (wlp_intr_set_level true), wlp_ret. apply Hleave; [done|]. intros l. by rewrite Hc.
Qed.

(** What kernel code that is in none of these operations may call.  [CRegister] and [CBlock]
    are the two pieces of [process_wait]. *)
Inductive call :=
| CSemaInit (s v : Z) | CSemaDown (s : addr) | CSemaTryDown (s : addr) | CSemaUp (s : addr)
| CAcquire (l : addr) | CTryAcquire (l : addr) | CRelease (l : addr)
| CCondInit (c : addr) | CWait (c w l : addr) | CSignal (c l : addr) | CBroadcast (c l : addr)
| CCreate (page : addr) (nm : list Z) (prio : Z) | CRegister (child_tid : Z) | CBlock
| CYield | CExit.

(** Semaphores inside locks are used only through the lock; a semaphore is initialised, and so
    is the local variable [waiter] of [cond_wait], when no thread waits on it; a new thread gets
    a page that no thread has; and a thread exits only when the parent that waits for it is
    blocked. *)
Definition call_ok (k : kern) (c : call) : Prop :=
  match c with
  | CSemaDown s | CSemaTryDown s | CSemaUp s => ¬ is_lock_sema k s
  | CSemaInit s _ | CWait _ s _ => ¬ is_lock_sema k s ∧ ∀ t, ¬ waits_on k s t
  | CCreate page _ _ => page_fresh k page
  | CExit => exit_ok k
  | _ => True
  end.

Definition run_call (c : call) : K () :=
  match c with
  | CSemaInit s v => sema_init s v
  | CSemaDown s => sema_down s
  | CSemaTryDown s => _ ← sema_try_down s; mret ()
  | CSemaUp s => sema_up s
  | CAcquire l => lock_acquire l
  | CTryAcquire l => _ ← lock_try_acquire l; mret ()
  | CRelease l => lock_release l
  | CCondInit c => cond_init c
  | CWait c w l => cond_wait c w l
  | CSignal c l => cond_signal c l
  | CBroadcast c l => cond_broadcast c l
  | CCreate page nm prio => _ ← thread_create page nm prio; mret ()
  | CRegister x => _ ← process_wait_register x; mret ()
  | CBlock => process_wait_block
  | CYield => thread_yield
  | CExit => thread_exit
  end.

Inductive step : kern → kern → Prop :=
| step_call k c k' : konts k !! running k = Some [] → running k ≠ idle_thread k → call_ok k c →
    run_call c k = Ret ((), k') → step k k'
| step_idle k k' : konts k !! running k = Some [] → running k = idle_thread k →
    idle_loop k = Ret ((), k') → step k k'
| step_resume k k' : resume k = Ret ((), k') → step k k'
| step_timer k k' : intr_on k = true → intr_handler timer_interrupt k = Ret ((), k') → step k k'.

Lemma sync_inv_enter k c : sync_inv k → konts k !! running k = Some [] → kont_ok k c [] →
  (∀ l, passed l [c] = false) → (running k = idle_thread k → idle_kont c) →
  sync_inv (set_konts <[running k := [c]]> k).
Proof.
  intros Hy Hks Hc Hp Hi. eapply (sync_inv_stack k _ (running k) [] [c]); try done.
  intros E. constructor; [by apply Hi|constructor].
Qed.

(** A direct call of [thread_block], from the activation [c]. *)
Lemma wlp_direct_block c k : inv k → konts k !! running k = Some [] → kont_ok k c [] →
  (∀ l, passed l [c] = false) → (running k = idle_thread k → idle_kont c) → (∀ t, c ≠ KCreate t) →
  wlp (_ ← intr_disable; push_kont c;; thread_block) k (λ _ k', inv k' ∧ holders k' = holders k ∧
    calm (Some (running k)) (running k) k k' ∧ konts k' !! running k = Some [c] ∧ semas k' = semas k).
Proof.
  intros [Hs Hy] Hks Hc Hp Hi Hcr. apply wlp_bind, wlp_intr_disable.
  eapply wlp_bind_run; [by apply (push_kont_run _ _ [])|]. set (k1 := set_konts _ _).
  assert (sync_inv k1) as Hy1.
  { apply sync_inv_enter; [by apply sync_inv_level|done| |done|done]. by destruct c. }
  assert (sched_inv THREAD_RUNNING k1) as Hs1.
  { by apply (sched_inv_stack _ k _ (running k) [c]). }
  eapply wlp_mono; [apply wlp_thread_block; intros th Ht; by apply (block_inv k1)|].
  intros _ k' (Hs' & Ho & Hcalm). split_and!; [by eapply inv_switch|apply Ho| | |apply Ho].
  - eapply calm_trans; [|exact Hcalm]. eapply calm_trans; [by apply (calm_push _ k [] c)|by apply calm_same].
  - rewrite (so_konts _ _ Ho). simpl. by rewrite lookup_insert_eq.
Qed.

Lemma wlp_process_wait_block k : inv k → konts k !! running k = Some [] → running k ≠ idle_thread k →
  wlp process_wait_block k (λ _ k', inv k' ∧ holders k' = holders k ∧ evolves (running k) k k').
Proof.
  intros Hinv Hks Hid. eapply wlp_mono; [by apply (wlp_direct_block KBlock)|].
  intros _ k' (? & ? & Hcalm & Hk & Hs). split_and!; [done..|right]. split; [done|].
  exists [KBlock]. split; [done|]. intros s. rewrite (waits_on_semas k k') by done.
  apply inv_running_not_waiting, Hinv.
Qed.

Lemma wlp_idle_loop k : inv k → konts k !! running k = Some [] → running k = idle_thread k →
  wlp idle_loop k (λ _ k', inv k' ∧ holders k' = holders k ∧ evolves (running k) k k').
Proof.
  intros Hinv Hks Hi. eapply wlp_mono; [by apply (wlp_direct_block KIdle)|].
  intros _ k' (? & ? & [I B U C] & _). split_and!; [done..|left]. split; [done| | |done].
  - intros t _ Ht Hb. apply B; [congruence|done..].
  - intros t _ Ht Hub. apply U; [congruence|done..].
Qed.

Lemma wlp_process_wait_register x k : inv k →
  wlp (process_wait_register x) k (λ _ k', inv k' ∧ holders k' = holders k ∧ calm None (running k) k k').
Proof.
  intros Hinv. unfold process_wait_register. apply wlp_bind, wlp_get_thread. intros t _.
  assert (inv (level k (intr_on k)) ∧ holders (level k (intr_on k)) = holders k ∧
    calm None (running k) k (level k (intr_on k))) as H0.
  { split_and!; [by apply inv_level|done|by apply calm_same]. }
  destruct (nonnull t); simpl; [|by apply wlp_ret]. apply wlp_bind, wlp_load. intros th _.
  destruct (wait_called th); [by apply wlp_ret|].
  assert (∀ k1 th1 f, inv k1 ∧ holders k1 = holders k ∧ calm None (running k) k k1 →
    threads k1 !! t = Some th1 → status (f th1) = status th1 → magic (f th1) = magic th1 →
    inv (set_threads <[t := f th1]> k1) ∧ holders (set_threads <[t := f th1]> k1) = holders k ∧
    calm None (running k) k (set_threads <[t := f th1]> k1)) as Hmem.
  { intros k1 th1 f ([Hs1 Hy1] & Hh1 & Hc1) Ht1 Hst Hmg. split_and!; [|done|].
    - split; [by apply sched_inv_member|by apply (sync_inv_ext k1)].
    - eapply calm_trans; [exact Hc1|by apply calm_member]. }
  apply wlp_bind, wlp_upd_thread. intros th1 Ht1.
  pose proof (Hmem _ th1 (λ th, set_wait true (waiting_thread th) th) H0 Ht1 eq_refl eq_refl) as H1.
  unfold thread_tid. apply wlp_bind, wlp_bind, wlp_thread_current, wlp_bind, wlp_load. intros me _.
  apply wlp_ret, wlp_bind, wlp_upd_thread. intros th2 Ht2. apply wlp_ret.
  by apply (Hmem _ th2 (λ th, set_wait (wait_called th) (tid me) th)).
Qed.

Lemma wlp_run_call c k : machine_inv k → konts k !! running k = Some [] → running k ≠ idle_thread k →
  call_ok k c → wlp (run_call c) k (λ _ k', machine_inv k' ∧ holders_step k k').
Proof.
  intros Hm Hks Hid Hok. pose proof (proj1 Hm) as Hinv.
  assert (no_acq []) as Hno by done.
  assert (∀ (m : K ()), wlp m k (λ _ k', inv k' ∧ holders k' = holders k ∧ evolves (running k) k k') →
    wlp m k (λ _ k', machine_inv k' ∧ holders_step k k')) as Hsame.
  { intros m Hm'. eapply wlp_mono; [exact Hm'|]. intros _ k' (? & ? & ?).
    split; [by eapply machine_evolves|by apply holders_step_refl]. }
  assert (∀ (m : K ()), wlp m k (λ _ k', inv k' ∧ holders k' = holders k ∧ calm None (running k) k k') →
    wlp m k (λ _ k', machine_inv k' ∧ holders_step k k')) as Hcalm.
  { intros m Hm'. apply Hsame. eapply wlp_mono; [exact Hm'|]. intros _ k' (? & ? & ?).
    split_and!; [done..|by left]. }
  destruct c as [s v|s|s|s|l|l|l|c|c w l|c l|c l|page nm prio|x| | |]; simpl in *.
  - destruct Hok as [Hl Hw]. apply Hcalm. unfold sema_init. apply wlp_bind, wlp_assert. intros _.
    apply wlp_modify. split_and!; [|done|by apply calm_fresh_sema].
    split; [apply sched_inv_fresh_sema|apply sync_inv_free_value]; try done; apply Hinv.
  - apply Hsame, (wlp_sema_down s []); [done|]. eapply enter_down_inv; try done.
    split; [by right|done].
  - apply Hcalm. apply wlp_bind, wlp_sema_try_down.
    + intros x Hx Hv. apply wlp_ret. split_and!; [|done|].
      * apply inv_level. split; [apply sched_inv_value; [done|apply Hinv]|].
        apply sync_inv_free_value; [apply Hinv|done].
      * eapply calm_trans; [by apply (calm_value _ _ k s x (u32 (value x - 1)))|by apply calm_same].
    + apply wlp_ret. split_and!; [by apply inv_level|done|by apply calm_same].
  - apply Hcalm. eapply wlp_mono; [apply wlp_sema_up; [apply Hinv|]|].
    + intros x ws Hx. apply sync_inv_free_value; [apply Hinv|done].
    + intros _ k' (? & ? & _ & _ & _ & _ & ?). done.
  - by apply Hsame, (wlp_lock_acquire l []).
  - apply Hcalm, wlp_bind. eapply wlp_mono; [by apply (wlp_lock_try_acquire l [])|].
    intros b k' ?. by apply wlp_ret.
  - eapply wlp_mono; [by apply wlp_lock_release|]. intros _ k' (? & ? & _ & _ & _ & _ & ?).
    split; [|done]. eapply machine_evolves; [done..|by left].
  - apply Hcalm. unfold cond_init. apply wlp_bind, wlp_assert. intros _. apply wlp_modify.
    split_and!; [|done|by apply calm_same]. destruct Hinv as [Hs Hy]. split; [by apply (sched_inv_ext _ k)|].
    apply sync_inv_conds; [done|]. intros c' ws w [[<- <-]|[_ Hc]]%lookup_insert_Some Hw;
      [by apply not_elem_of_nil in Hw|by eapply (sy_conds _ Hy)].
  - destruct Hok as [Hl Hw]. eapply wlp_mono; [by apply (wlp_cond_wait c w l [])|].
    intros _ k' (? & ? & ?). split; [by eapply machine_evolves|done].
  - apply Hcalm. eapply wlp_mono; [by apply wlp_cond_signal|]. intros _ k' (? & ? & _ & ?). done.
  - by apply Hcalm, wlp_cond_broadcast.
  - apply wlp_bind. eapply wlp_mono; [by apply wlp_thread_create|]. intros _ k' [? ?].
    apply wlp_ret. split; [done|by apply holders_step_refl].
  - apply Hcalm, wlp_bind. eapply wlp_mono; [by apply wlp_process_wait_register|].
    intros r k' ?. by apply wlp_ret.
  - by apply Hsame, wlp_process_wait_block.
  - by apply Hcalm, wlp_thread_yield.
  - by apply Hcalm, wlp_thread_exit.
Qed.

Lemma step_inv k k' : machine_inv k → step k k' → machine_inv k' ∧ holders_step k k'.
Proof.
  intros Hm Hstep. destruct Hstep as [k c k' Hks Hid Hok Hrun|k k' Hks Hi Hrun|k k' Hrun|k k' _ Hrun].
  - by eapply (wlp_run_call c k).
  - destruct (wlp_idle_loop k (proj1 Hm) Hks Hi () k' Hrun) as (? & ? & ?).
    split; [by eapply machine_evolves|by apply holders_step_refl].
  - by eapply (wlp_resume k).
  - destruct (wlp_timer k (proj1 Hm) () k' Hrun) as (? & ? & ?).
    split; [|by apply holders_step_refl]. eapply machine_evolves; [done..|by left].
Qed.

Definition reachable (k0 k : kern) : Prop := rtc step k0 k.
