(* ===== verification/Machine.v ===== *)
(** * What the scheduler and the locks guarantee

    The properties of the machine of [SynchProofs] in every state reachable from a quiet
    one, such as the state the kernel boots into. *)
From S2P Require Import Prelude KList Kernel Thread Synch SchedProofs SynchProofs.

(** ** Quiet states *)

(** No thread waits for a semaphore or is inside an operation, only the idle thread may be
    blocked, and every lock is free. *)
Definition quiet (k : kern) : Prop :=
  (∃ th, threads k !! running k = Some th ∧ status th = THREAD_RUNNING) ∧
  map_Forall (λ t th, magic th = THREAD_MAGIC ∧ t ≠ NULL ∧ is_Some (konts k !! t) ∧ t ∈ all_list k ∧
    status th ≠ THREAD_DYING ∧ (status th = THREAD_RUNNING → t = running k) ∧
    (status th = THREAD_BLOCKED → t = idle_thread k) ∧
    (status th = THREAD_READY → t ∈ ready_list k ∨ t = idle_thread k)) (threads k) ∧
  NoDup (ready_list k) ∧
  Forall (λ t, (∃ th, threads k !! t = Some th ∧ status th = THREAD_READY) ∧ t ≠ idle_thread k)
    (ready_list k) ∧
  is_Some (threads k !! idle_thread k) ∧
  map_Forall (λ _ x, waiters x = []) (semas k) ∧
  NoDup (all_list k) ∧
  Forall (λ t, is_Some (threads k !! t)) (all_list k) ∧
  map_Forall (λ l h, h = NULL ∧ semas k !! lock_sema l = Some (Semaphore 1 [])) (holders k) ∧
  map_Forall (λ _ ks, ks = [] ∨ ks = [KIdle]) (konts k) ∧
  konts k !! idle_thread k = Some [KIdle] ∧
  map_Forall (λ _ ws, ws = []) (conds k) ∧
  in_external_intr k = false.

#[global] Instance kont_eq_dec : EqDecision kont.
Proof. solve_decision. Defined.
#[global] Instance semaphore_eq_dec : EqDecision semaphore.
Proof. solve_decision. Defined.

(** [∃ x, m !! i = Some x ∧ P x], decided by looking. *)
#[global] Instance lookup_dec {A} (m : gmap addr A) i (P : A → Prop) `{∀ x, Decision (P x)} :
  Decision (∃ x, m !! i = Some x ∧ P x).
Proof.
  destruct (m !! i) as [x|] eqn:E; [|right; abstract naive_solver].
  destruct (decide (P x)); [left|right]; abstract naive_solver.
Defined.

#[global] Instance quiet_dec k : Decision (quiet k).
Proof. unfold quiet. apply _. Defined.

Lemma quiet_inv k : quiet k → machine_inv k.
Proof.
  intros (Hrun & Hth & Hrnd & Hrdy & [idle Hidle] & Hw & Hand & Hall & Hh & Hk & Hki & Hc & Hext).
  assert (∀ s t, ¬ waits_on k s t) as Hnw.
  { intros s t (x & Hx & Hin). apply Hw in Hx. rewrite Hx in Hin. by apply not_elem_of_nil in Hin. }
  assert (∀ l t, ¬ acquiring k l t) as Hna.
  { intros l t (ks & Hks & Hp). by destruct (Hk _ _ Hks) as [->| ->]. }
  rewrite Forall_forall in Hrdy, Hall. split; [|split]; cycle 1.
  { intros t (th & Ht & Hs) Hi. destruct (Hth _ _ Ht) as (_ & _ & _ & _ & _ & _ & H & _). by apply H in Hs. }
  { intros u ks t Hu Hin. destruct (Hk _ _ Hu) as [->| ->]; set_solver. }
  split; split; try done.
  - intros t th Ht. by apply (Hth _ _ Ht).
  - apply eq_None_not_Some. intros [th Ht]. by destruct (Hth _ _ Ht) as (_ & ? & _).
  - intros t (th & Ht & Hs). destruct (Hth _ _ Ht) as (_ & _ & _ & _ & _ & H & _). by apply H.
  - intros t (th & Ht & Hs). destruct (Hth _ _ Ht) as (_ & _ & _ & _ & _ & _ & _ & H). by apply H.
  - exists idle. split; [done|]. by destruct (Hth _ _ Hidle) as (_ & _ & _ & _ & ? & _).
  - intros s x Hx. rewrite (Hw _ _ Hx). constructor.
  - intros s t Ht. by apply Hnw in Ht.
  - intros s1 s2 t Ht. by apply Hnw in Ht.
  - intros t. split.
    + intros Ht. destruct (Hall _ Ht) as [th Hx]. exists th. split; [done|].
      by destruct (Hth _ _ Hx) as (_ & _ & _ & _ & ? & _).
    + intros (th & Hx & _). by destruct (Hth _ _ Hx) as (_ & _ & _ & ? & _).
  - intros t [th Ht]. by destruct (Hth _ _ Ht) as (_ & _ & ? & _).
  - intros l [h Hl]. destruct (Hh _ _ Hl) as [-> Hs]. by eapply lock_free.
  - intros t ks Hks. destruct (Hk _ _ Hks) as [->| ->]; simpl; [done|]. by split.
  - intros ks. rewrite Hki. intros [= <-]. by constructor.
  - intros c ws w Hcw Hin. apply Hc in Hcw as ->. by apply not_elem_of_nil in Hin.
Qed.

(** ** Booting

    [thread_init], and [thread_start] with the first run of the idle thread it waits for.
    The state before is the zeroed memory the loader leaves, with interrupts off. *)
Definition zero_state : kern :=
  Kern ∅ ∅ 0 [] [] 0 0 0 0 0 0 false false false 1 ∅ ∅ ∅ 0 0.
Definition main_page : addr := 0xc0100000.
Definition idle_page : addr := 0xc0101000.
Definition idle_started : addr := 0xc0100f00.

Definition boot : K () :=
  thread_init main_page;; resume;; resume;;
  sema_init idle_started 0;;
  _ ← thread_create idle_page [105; 100; 108; 101] PRI_MIN;
  resume;; resume;; resume;;
  _ ← intr_enable;
  sema_down idle_started;;
  (* the idle thread *)
  resume;; idle_start idle_started;; idle_loop;;
  (* the initial thread returns from [sema_down] *)
  resume.

Definition booted : kern :=
  match boot zero_state with Ret (_, k) => k | _ => zero_state end.

Lemma booted_quiet : boot zero_state = Ret ((), booted) ∧ quiet booted.
Proof. split; [by vm_compute|by_evaluation]. Qed.

Lemma reachable_machine_inv k0 k : quiet k0 → reachable k0 k → machine_inv k.
Proof.
  intros Hq%quiet_inv Hr. unfold reachable in Hr. induction Hr as [|? k1 ? Hstep _ IH]; [done|].
  apply IH. by apply (step_inv _ _ Hq Hstep).
Qed.

Lemma reachable_inv k0 k : quiet k0 → reachable k0 k → inv k.
Proof. intros Hq Hr. apply (reachable_machine_inv _ _ Hq Hr). Qed.

(** ** The scheduler *)

(** The thread [t] is inside [sema_down (s)], after [thread_block]. *)
Definition in_sema_down (k : kern) (s t : addr) : Prop :=
  ∃ old_level rest, konts k !! t = Some (KDown s old_level :: rest).
(** The thread [t] has called [thread_block] directly, in [process_wait]. *)
Definition in_process_wait (k : kern) (t : addr) : Prop :=
  ∃ rest, konts k !! t = Some (KBlock :: rest).

Lemma parked_waits k s t : machine_inv k → waits_on k s t ↔ has_status k t THREAD_BLOCKED ∧ in_sema_down k s t.
Proof.
  intros ((Hs & Hy) & Hb & Hc). split.
  - intros Hw. destruct (si_waits _ _ Hs _ _ Hw) as [Ht Hi]. split; [done|].
    destruct (Hb t Ht Hi) as (ks & Hks & Hp). destruct ks as [|[] ks]; try done.
    + destruct Hp as (u & ks & Hu & Hin). destruct (Hc _ _ _ Hu Hin) as [[_ _ _ Hn] _]. by apply Hn in Hw.
    + rewrite (si_waits_one _ _ Hs _ _ _ Hw Hp). by exists old_level, ks.
    + by apply Hp in Hw.
  - intros [Ht (old & rest & Hks)]. destruct (Hb t Ht) as (ks & Hks' & Hp).
    + intros ->. apply (sy_idle _ Hy) in Hks. by apply Forall_cons in Hks as [[] _].
    + rewrite Hks in Hks'. by injection Hks' as <-.
Qed.


(** ** Mutual exclusion *)

(** C2: In every reachable state, a step of any thread or interrupt leaves the holder of
    each held lock in place unless it is the holder itself that runs and releases the lock:
    no acquisition ever takes a lock away from a thread that holds it. *)
Theorem lock_mutual_exclusion k0 k k' l h : quiet k0 → reachable k0 k → step k k' →
  holders k !! l = Some h → h ≠ NULL →
  holders k' !! l = Some h ∨ (h = running k ∧ holders k' !! l = Some NULL).
Proof.
  intros Hq Hr Hstep Hl Hh. pose proof (reachable_machine_inv _ _ Hq Hr) as Hinv.
  destruct (step_inv _ _ Hinv Hstep) as [_ [_ Hst]]. by apply Hst.
Qed.

(** The state in which the initial thread has acquired [tid_lock]. *)
Definition locked : kern :=
  match (lock_acquire tid_lock;; resume) booted with Ret (_, k) => k | _ => booted end.

Lemma locked_reachable : reachable booted locked.
Proof.
  set (k1 := match lock_acquire tid_lock booted with Ret (_, k) => k | _ => booted end).
  apply (rtc_l _ _ k1); [|apply (rtc_l _ _ locked); [|constructor]].
  - apply (step_call _ (CAcquire tid_lock)); [by vm_compute|by vm_compute|done|by vm_compute].
  - apply step_resume. by vm_compute.
Qed.

Lemma lock_mutual_exclusion_witness :
  holders locked !! tid_lock = Some main_page ∧
  ∃ k', step locked k' ∧
    (holders k' !! tid_lock = Some main_page ∨
     (main_page = running locked ∧ holders k' !! tid_lock = Some NULL)).
Proof.
  split; [by vm_compute|].
  set (k' := match thread_yield locked with Ret (_, k) => k | _ => locked end).
  assert (step locked k') as Hs
    by (apply (step_call _ CYield); [by vm_compute|by vm_compute|done|by vm_compute]).
  exists k'. split; [exact Hs|].
  apply (lock_mutual_exclusion booted locked k');
    [by_evaluation|exact locked_reachable|exact Hs|by vm_compute|done].
Defined.

(** In every reachable state each lock is free, held, or taken by exactly one thread
    that is about to record itself as the holder; its semaphore is 1 exactly when it is free. *)
Theorem lock_states k0 k l : quiet k0 → reachable k0 k → is_Some (holders k !! l) → lock_state k l.
Proof. intros Hq Hr. apply (sy_locks _ (proj2 (reachable_inv _ _ Hq Hr))). Qed.

Lemma lock_states_witness : lock_state locked tid_lock.
Proof.
  apply (lock_states booted); [by_evaluation|exact locked_reachable|].
  by_evaluation.
Defined.

(** ** Round robin *)

Lemma thread_yield_total k : inv k → running k ≠ idle_thread k →
  ∃ k', thread_yield k = Ret ((), k') ∧ inv k' ∧
    running k' = List.hd (idle_thread k) (ready_list k ++ [running k]) ∧
    ready_list k' = tail (ready_list k ++ [running k]) ∧ idle_thread k' = idle_thread k.
Proof.
  intros Hinv Hid. destruct (inv_stack k Hinv) as [ks Hks].
  set (k1 := set_konts <[running k := KYield (intr_on k) :: ks]> (level k false)).
  assert (inv k1) as [Hs1 _].
  { apply (enter_inv (level k false)); [by apply inv_level|done|]. left. by eexists. }
  destruct (si_running _ _ Hs1) as (th & Ht & Hst).
  pose proof (yield_inv k1 th Hs1 Ht) as Hy.
  change (running k1 =? idle_thread k1) with (running k =? idle_thread k) in Hy.
  rewrite (proj2 (Z.eqb_neq _ _) Hid) in Hy. cbn [negb] in Hy.
  destruct (schedule_spec _ _ Hy ltac:(done) eq_refl ltac:(done)) as (k' & Hrun & _ & Hr & Hl & _ & _ & _ & Hi & _).
  assert (thread_yield k = Ret ((), k')) as Hty.
  { unfold thread_yield, intr_context, intr_disable, intr_get_level.
    rewrite (bind_run _ _ _ _ _ (inv_current k (proj1 Hinv))). run_by ltac:(done).
    rewrite (sy_ext _ (proj2 Hinv)). run_by ltac:(done). run_by ltac:(done).
    rewrite (bind_run _ _ _ _ _ (push_kont_run (level k false) _ ks Hks)). run_by ltac:(done). simpl.
    rewrite (proj2 (Z.eqb_neq _ _) Hid). simpl. run_by ltac:(done).
    erewrite bind_run; [exact Hrun|]. unfold upd_thread. erewrite bind_run; [done|].
    kunfold. simpl in *. by rewrite Ht. }
  exists k'. split; [done|]. split; [|done].
  by destruct (wlp_thread_yield k Hinv () k' Hty) as [? _].
Qed.

(** The processor is taken from whatever thread is running, [n] times. *)
Fixpoint yields (n : nat) : K () :=
  match n with O => mret () | S n => thread_yield;; yields n end.

Lemma yields_reach n : ∀ k xs t ys, inv k → running k ≠ idle_thread k → length xs = n →
  ready_list k = xs ++ t :: ys → ∃ k', yields (S n) k = Ret ((), k') ∧ inv k' ∧ running k' = t.
Proof.
  induction n as [|n IH]; intros k xs t ys Hinv Hid Hn Hrdy;
    destruct (thread_yield_total k Hinv Hid) as (k1 & Hrun & Hinv1 & Hr1 & Hl1 & Hi1);
    rewrite Hrdy in Hr1, Hl1; destruct xs as [|x xs]; try done; simpl in *.
  - exists k1. by rewrite (bind_run _ _ _ _ _ Hrun).
  - destruct (IH k1 xs t (ys ++ [running k])) as (k' & Hrun' & ? & ?); [done| |lia| |].
    + rewrite Hr1, Hi1. destruct (si_ready _ _ (proj1 Hinv) x) as [_ ?]; [rewrite Hrdy; set_solver|done].
    + by rewrite Hl1, <-app_assoc.
    + exists k'. by rewrite (bind_run _ _ _ _ _ Hrun).
Qed.

(** C30: Scheduling is round robin: in every reachable state, a thread at position [i] of the
    ready list is running after the processor has been yielded [i + 1] times; none of these
    calls fails. *)
Theorem round_robin k0 k i t : quiet k0 → reachable k0 k → running k ≠ idle_thread k →
  ready_list k !! i = Some t → ∃ k', yields (S i) k = Ret ((), k') ∧ running k' = t.
Proof.
  intros Hq Hr Hid Ht. apply list_elem_of_split_length in Ht as (xs & ys & E & ->).
  destruct (yields_reach (length xs) k xs t ys) as (k' & ? & _ & ?);
    [by eapply reachable_inv|done..|]. by exists k'.
Qed.

(** Two more threads, ready. *)
Definition two_ready : kern :=
  let mk t k := set_konts <[t := []]> (set_all_list (λ l, l ++ [t]) (set_ready_list (λ l, l ++ [t])
    (set_threads <[t := Thread 7 THREAD_READY [] 0 PRI_DEFAULT false 0 0 0 NULL THREAD_MAGIC]> k))) in
  mk 0xc0103000 (mk 0xc0102000 booted).

Lemma round_robin_witness :
  ready_list two_ready !! 1%nat = Some 0xc0103000 ∧
  ∃ k', yields 2 two_ready = Ret ((), k') ∧ running k' = 0xc0103000.
Proof.
  split; [by vm_compute|]. apply (round_robin two_ready); [by_evaluation|constructor|by vm_compute|by vm_compute].
Defined.

(** ** Semaphores *)

Lemma intr_set_level_run k b : in_external_intr k = false → intr_set_level b k = Ret (intr_on k, level k b).
Proof.
  intros He. unfold intr_set_level, intr_enable, intr_disable, intr_get_level, intr_context.
  destruct b; [|done]. run_by ltac:(done). run_by ltac:(done). rewrite He. by run_by ltac:(done).
Qed.

Lemma thread_unblock_run k t th : threads k !! t = Some th → magic th = THREAD_MAGIC → t ≠ NULL →
  status th = THREAD_BLOCKED → in_external_intr k = false →
  thread_unblock t k = Ret ((), level (unblocked k t th) (intr_on k)).
Proof.
  intros Ht Hm Hn Hb He. unfold thread_unblock. run_by ltac:(by eapply is_thread_run).
  run_by ltac:(done). unfold intr_disable, intr_get_level. kunfold. simpl. rewrite Ht. simpl.
  rewrite bool_decide_eq_true_2 by done. simpl. rewrite Ht.
  rewrite (intr_set_level_run _ (intr_on k)) by done. done.
Qed.

(** In every reachable state [sema_up] on a semaphore that threads wait for returns: it
    makes the first of them ready, behind the threads that are ready already, takes it off
    the waiters, increments the value and restores the interrupt level. *)
Theorem sema_up_wakes_first k0 k s v t ws : quiet k0 → reachable k0 k → s ≠ NULL →
  semas k !! s = Some (Semaphore v (t :: ws)) →
  ∃ k', sema_up s k = Ret ((), k') ∧ semas k' !! s = Some (Semaphore (u32 (v + 1)) ws) ∧
    ready_list k' = ready_list k ++ [t] ∧ has_status k' t THREAD_READY ∧
    running k' = running k ∧ intr_on k' = intr_on k.
Proof.
  intros Hq Hr Hs Hx. destruct (reachable_inv _ _ Hq Hr) as [Hsch Hy].
  destruct (si_waits _ _ Hsch s t) as [(th & Ht & Hb) _]; [exists (Semaphore v (t :: ws)); set_solver|].
  pose proof (si_magic _ _ Hsch _ _ Ht) as Hm. pose proof (sy_ext _ Hy) as He.
  assert (t ≠ NULL) as Htn by (eapply inv_not_null; [done|by exists th]).
  unfold sema_up. run_by ltac:(by apply assert_run, nonnull_true).
  rewrite (bind_run intr_disable _ k (intr_on k) (level k false) eq_refl).
  set (k1 := set_semas <[s := Semaphore v ws]> (level k false)).
  run_by ltac:(by unfold ld_sema, load; simpl; rewrite Hx). simpl.
  erewrite bind_run; cycle 1.
  { erewrite bind_run; [by apply (thread_unblock_run k1 t th)|]. kunfold. simpl. by rewrite Hx. }
  cbv beta. erewrite bind_run; [|kunfold; simpl; by rewrite lookup_insert_eq]. simpl.
  erewrite bind_run; [|apply intr_set_level_run; exact He].
  eexists. split; [done|]. simpl. rewrite lookup_insert_eq. split_and!; try done.
  exists (set_status THREAD_READY th). simpl. by rewrite lookup_insert_eq.
Qed.

(** The initial thread has blocked on the semaphore [idle_started] while another is ready. *)
Definition waiting : kern :=
  match sema_down idle_started two_ready with Ret (_, k) => k | _ => two_ready end.

Lemma waiting_reachable : reachable two_ready waiting.
Proof.
  apply (rtc_l _ _ waiting); [|constructor].
  apply (step_call _ (CSemaDown idle_started)); [by vm_compute|by vm_compute| |by vm_compute].
  intros (l & Hl & E). revert Hl. replace l with (idle_started - 4) by (unfold lock_sema in E; lia).
  apply (bool_decide_unpack _). by vm_compute.
Qed.


Lemma sema_up_wakes_first_witness :
  ∃ k', sema_up idle_started waiting = Ret ((), k') ∧
    semas k' !! idle_started = Some (Semaphore (u32 (0 + 1)) []) ∧
    ready_list k' = ready_list waiting ++ [main_page] ∧ has_status k' main_page THREAD_READY ∧
    running k' = running waiting ∧ intr_on k' = intr_on waiting.
Proof.
  apply (sema_up_wakes_first two_ready waiting idle_started 0 main_page []);
    [by_evaluation|exact waiting_reachable|done|by vm_compute].
Defined.
