(* ===== verification/ProcWait.v ===== *)
(** * Waiting for a child: [process_wait] of src/src/userprog/process.c

    with the hand-over of the exit status in [thread_exit] (src/src/threads/thread.c).  The
    two pieces of [process_wait] are steps of the machine ([Synch]).  A timer interrupt
    between them lets the child exit first, and then [thread_unblock] fails its assertion. *)
From S2P Require Import Prelude KList Kernel Thread Synch SchedProofs SynchProofs Machine.

(** A child of the initial thread, ready to run. *)
Definition child_page : addr := 0xc0102000.
Definition with_child : kern :=
  match (_ ← thread_create child_page [99] PRI_DEFAULT; resume;; resume;; resume) booted with
  | Ret (_, k) => k | _ => booted end.

(** The intended order of events: the parent registers and blocks, the child runs and
    exits with status 42, and the parent, running again, reads 42. *)
Theorem process_wait_gets_status :
  (r ← process_wait_register 3;
   process_wait_block;;
   resume;; upd_thread child_page (set_exit_status 42);; thread_exit;;
   resume;; s ← process_wait_status; mret (r, s)) with_child
  = Ret ((None, 42),
      match (_ ← process_wait_register 3; process_wait_block;;
             resume;; upd_thread child_page (set_exit_status 42);; thread_exit;; resume) with_child with
      | Ret (_, k) => k | _ => with_child end).
Proof. by vm_compute. Qed.

(** The other order: the parent registers and is preempted before it blocks.  The child
    runs and exits while the parent is ready, so [thread_unblock] panics the kernel. *)
Theorem process_wait_race :
  (_ ← process_wait_register 3;
   thread_yield;;
   resume;; thread_exit) with_child = Panic.
Proof. by vm_compute. Qed.

Lemma find_tid_run k x p ts : (∀ t, t ∈ ts → ∃ th, threads k !! t = Some th ∧ (tid th = x ↔ t = p)) →
  p ∈ ts → find_tid x ts k = Ret (p, k).
Proof.
  intros Hts Hp. induction ts as [|t ts IH]; [by apply not_elem_of_nil in Hp|]. simpl.
  destruct (Hts t) as (th & Ht & Hiff); [set_solver|].
  erewrite bind_run; [|unfold ld_thread, load; by rewrite Ht].
  destruct (Z.eqb_spec (tid th) x) as [E|E].
  - apply Hiff in E as ->. done.
  - apply IH; [intros u Hu; apply Hts; set_solver|].
    apply elem_of_cons in Hp as [->|?]; [|done]. by destruct E; apply Hiff.
Qed.

(** C38: The general form of the failure: in a reachable state, when a thread exits while the
    one thread registered to wait for it is ready (or is anything but blocked), the kernel
    panics. *)
Theorem exit_panics_when_parent_ready k0 k th p thp : quiet k0 → reachable k0 k →
  threads k !! running k = Some th → waiting_thread th ≠ 0 →
  (∀ t x, threads k !! t = Some x → tid x = waiting_thread th ↔ t = p) →
  threads k !! p = Some thp → p ≠ running k → status thp = THREAD_READY →
  thread_exit k = Panic.
Proof.
  intros Hq Hr Hth Hw Huniq Hp Hne Hst. destruct (reachable_inv _ _ Hq Hr) as [Hs Hy].
  pose proof (sy_ext _ Hy) as He. unfold thread_exit, intr_context. run_by ltac:(done). rewrite He.
  run_by ltac:(done). rewrite (bind_run intr_disable _ k (intr_on k) (level k false) eq_refl).
  assert (sched_inv THREAD_RUNNING (level k false)) as Hs1 by (by apply sched_inv_level).
  rewrite (bind_run _ _ _ _ _ (inv_current _ Hs1)). run_by ltac:(done).
  erewrite bind_run; [|unfold ld_thread, load; simpl; by rewrite Hth].
  rewrite (proj2 (Z.eqb_neq _ _) Hw). cbn [negb].
  set (k1 := set_all_list _ _).
  assert (get_thread (waiting_thread th) k1 = Ret (p, k1)) as Hget.
  { unfold get_thread. rewrite (bind_run intr_disable _ k1 false (level k1 false) eq_refl).
    erewrite bind_run; [|done]. rewrite (bind_run _ _ (level k1 false) p (level k1 false)); [done|].
    apply find_tid_run.
    - intros t [_ Ht]%list_elem_of_filter. apply (si_all _ _ Hs) in Ht as (x & Hx & _).
      exists x. split; [done|]. by apply Huniq.
    - apply list_elem_of_filter. split; [done|]. apply (si_all _ _ Hs). exists thp. split; [done|].
      by rewrite Hst. }
  unfold mbind at 1, ST_bind. rewrite (bind_run _ _ _ _ _ Hget).
  assert (thread_unblock p k1 = Panic) as Hub; [|unfold mbind, ST_bind; by rewrite Hub].
  unfold thread_unblock. rewrite (bind_run _ _ _ _ _ (is_thread_run k1 p thp Hp (si_magic _ _ Hs _ _ Hp)
    (inv_not_null _ _ Hs p ltac:(by exists thp)))).
  run_by ltac:(done). rewrite (bind_run intr_disable _ k1 false (level k1 false) eq_refl).
  erewrite bind_run; [|unfold ld_thread, load; simpl; by rewrite Hp].
  by rewrite bool_decide_eq_false_2 by congruence.
Qed.

(** The state of the race, reached from the booted kernel: the initial thread creates the child,
    registers for it and is preempted, and the child starts. *)
Definition after (m : K ()) (k : kern) : kern := match m k with Ret (_, k') => k' | _ => k end.
Definition raced : kern :=
  after resume (after (run_call CYield) (after (run_call (CRegister 3)) (after resume (after resume
    (after resume (after (run_call (CCreate child_page [99] PRI_DEFAULT)) booted)))))).

Lemma reachable_call k0 k c : reachable k0 k → konts k !! running k = Some [] → running k ≠ idle_thread k →
  call_ok k c → run_call c k = Ret ((), after (run_call c) k) → reachable k0 (after (run_call c) k).
Proof. intros Hr H1 H2 H3 H4. eapply rtc_r; [exact Hr|]. by eapply step_call. Qed.
Lemma reachable_resume k0 k : reachable k0 k → resume k = Ret ((), after resume k) → reachable k0 (after resume k).
Proof. intros Hr H. eapply rtc_r; [exact Hr|]. by apply step_resume. Qed.

Lemma raced_reachable : reachable booted raced.
Proof.
  apply reachable_resume; [|by vm_compute].
  apply reachable_call; [|by vm_compute|by vm_compute|done|by vm_compute].
  apply reachable_call; [|by vm_compute|by vm_compute|done|by vm_compute].
  do 3 (apply reachable_resume; [|by vm_compute]).
  apply reachable_call; [constructor|by vm_compute|by vm_compute| |by vm_compute].
  split; by vm_compute.
Qed.

Lemma exit_panics_when_parent_ready_witness : thread_exit raced = Panic.
Proof.
  set (th := default (Thread 0 THREAD_DYING [] 0 0 false 0 0 0 0 0) (threads raced !! child_page)).
  set (thp := default th (threads raced !! main_page)).
  apply (exit_panics_when_parent_ready booted raced th main_page thp);
    [by_evaluation|exact raced_reachable|by vm_compute|by vm_compute| |by vm_compute|by vm_compute|by vm_compute].
  intros t x. revert t x.
  cut (map_Forall (λ t x, tid x = waiting_thread th ↔ t = main_page) (threads raced));
    [by unfold map_Forall|]. by_evaluation.
Defined.
