(* ===== verification/Palloc.v ===== *)
(** * Page addresses and the page allocator: src/src/threads/vaddr.h, palloc.c

    RAM is an array of 32-bit words, addressed through the kernel's mapping at [PHYS_BASE];
    every word of it can be accessed, and a word the map does not list is 0.  Each of the two
    pools is a bitmap and a base address.  The lock of a pool is held only inside
    [palloc_get_multiple], which is one step here. *)
From S2P Require Import Prelude KList Bitmap.

(** ** Virtual addresses *)

Definition PGBITS : Z := 12.
Definition PGSIZE : Z := Z.shiftl 1 PGBITS.
Definition PGMASK : Z := 0xfff.
Definition PHYS_BASE : Z := 0xc0000000.

Definition pg_ofs (va : Z) : Z := Z.land va PGMASK.
Definition pg_no (va : Z) : Z := Z.shiftr va PGBITS.
Definition pg_round_up (va : Z) : Z := Z.land (u32 (va + PGSIZE - 1)) (u32 (Z.lnot PGMASK)).
Definition pg_round_down (va : Z) : Z := Z.land va (u32 (Z.lnot PGMASK)).
Definition is_user_vaddr (va : Z) : bool := va <? PHYS_BASE.
Definition is_kernel_vaddr (va : Z) : bool := va >=? PHYS_BASE.
Definition ptov (paddr : Z) : res Z :=
  if paddr <? PHYS_BASE then Ret (u32 (paddr + PHYS_BASE)) else Panic.
Definition vtop (vaddr : Z) : res Z :=
  if is_kernel_vaddr vaddr then Ret (vaddr - PHYS_BASE) else Panic.

(** ** State *)

Record pool := Pool { used_map : bitmap; base : Z }.

Record machine := Machine {
  kernel_pool : pool;
  user_pool : pool;
  ram : gmap Z Z;
  init_ram_pages : Z;
  init_page_dir : Z;
  cr3 : Z;
}.
Abbreviation P := (ST machine).

Definition set_pool (user : bool) (p : pool) (m : machine) : machine :=
  if user then Machine (kernel_pool m) p (ram m) (init_ram_pages m) (init_page_dir m) (cr3 m)
  else Machine p (user_pool m) (ram m) (init_ram_pages m) (init_page_dir m) (cr3 m).
Definition set_ram (f : gmap Z Z → gmap Z Z) (m : machine) : machine :=
  Machine (kernel_pool m) (user_pool m) (f (ram m)) (init_ram_pages m) (init_page_dir m) (cr3 m).
Definition set_cr3 (x : Z) (m : machine) : machine :=
  Machine (kernel_pool m) (user_pool m) (ram m) (init_ram_pages m) (init_page_dir m) x.
Definition get_pool (user : bool) (m : machine) : pool := if user then user_pool m else kernel_pool m.

Definition word (r : gmap Z Z) (a : Z) : Z := default 0 (r !! a).
Definition ldw (a : Z) : P Z := gets (λ m, word (ram m) a).
Definition stw (a w : Z) : P () := modify (set_ram <[a := u32 w]>).

(** [n] words with the value [w], from [a] on: what [memset] does to whole pages. *)
Fixpoint fill (a : Z) (n : nat) (w : Z) (r : gmap Z Z) : gmap Z Z :=
  match n with O => r | S n => <[a := w]> (fill (a + 4) n w r) end.
Definition memset_pages (a w size : Z) : P () :=
  modify (set_ram (fill a (Z.to_nat (size / 4)) w)).

(** Bytes of RAM: byte [i] of a word has the bits from [8 * i] on. *)
Definition get_byte (r : gmap Z Z) (a : Z) : Z :=
  Z.land (Z.shiftr (word r (a - a mod 4)) (8 * (a mod 4))) 255.
Definition set_byte (a v : Z) (r : gmap Z Z) : gmap Z Z :=
  let w := word r (a - a mod 4) in
  let sh := 8 * (a mod 4) in
  <[a - a mod 4 := Z.lor (Z.ldiff w (Z.shiftl 255 sh)) (Z.shiftl v sh)]> r.

(** A call of a bitmap function on the map of a pool. *)
Definition on_map {A} (user : bool) (f : BM A) : P A := λ m,
  let p := get_pool user m in
  match f (used_map p) with
  | Ret (a, b) => Ret (a, set_pool user (Pool b (base p)) m)
  | Panic => Panic
  | Fault => Fault
  | NoFuel => NoFuel
  end.

(** ** The allocator *)

Definition PAL_ASSERT : Z := 1.
Definition PAL_ZERO : Z := 2.
Definition PAL_USER : Z := 4.

Definition page_from_pool (p : pool) (page : Z) : bool :=
  let page_no := pg_no page in
  let start_page := pg_no (base p) in
  let end_page := u32 (start_page + bit_cnt (used_map p)) in
  (start_page <=? page_no) && (page_no <? end_page).

Definition palloc_get_multiple (flags page_cnt : Z) : P Z :=
  let user := flag flags PAL_USER in
  if page_cnt =? 0 then mret NULL else
  page_idx ← on_map user (bitmap_scan_and_flip 0 page_cnt false);
  b ← gets (λ m, base (get_pool user m));
  let pages := if negb (page_idx =? BITMAP_ERROR) then u32 (b + u32 (PGSIZE * page_idx)) else NULL in
  (if nonnull pages then
     if flag flags PAL_ZERO then memset_pages pages 0 (u32 (PGSIZE * page_cnt)) else mret ()
   else if flag flags PAL_ASSERT then panic else mret ());;
  mret pages.

Definition palloc_get_page (flags : Z) : P Z := palloc_get_multiple flags 1.

Definition palloc_free_multiple (pages page_cnt : Z) : P () :=
  assert (pg_ofs pages =? 0);;
  if negb (nonnull pages) || (page_cnt =? 0) then mret () else
  k ← gets kernel_pool;
  u ← gets user_pool;
  user ← (if page_from_pool k pages then mret false
          else if page_from_pool u pages then mret true else panic);
  b ← gets (λ m, base (get_pool user m));
  let page_idx := pg_no pages - pg_no b in
  memset_pages pages 0xcccccccc (u32 (PGSIZE * page_cnt));;
  ok ← on_map user (bitmap_all page_idx page_cnt);
  assert ok;;
  on_map user (bitmap_set_multiple page_idx page_cnt false).

Definition palloc_free_page (page : Z) : P () := palloc_free_multiple page 1.

(** [block] is what the memory at [base] holds, as the elements of the bitmap. *)
Definition init_pool (base page_cnt : Z) (block : list Z) : res pool :=
  let bm_pages := u32 (bitmap_buf_size page_cnt + PGSIZE - 1) / PGSIZE in
  if page_cnt <? bm_pages then Panic else
  let page_cnt := page_cnt - bm_pages in
  map ← bitmap_create_in_buf page_cnt block (u32 (bm_pages * PGSIZE));
  mret (Pool map (base + bm_pages * PGSIZE)).

Definition palloc_init (user_page_limit init_ram_pages : Z) (kblock ublock : list Z) : res (pool * pool) :=
  free_start ← ptov (1024 * 1024);
  free_end ← ptov (u32 (init_ram_pages * PGSIZE));
  let free_pages := (free_end - free_start) / PGSIZE in
  let user_pages := free_pages / 2 in
  let user_pages := if user_page_limit <? user_pages then user_page_limit else user_pages in
  let kernel_pages := free_pages - user_pages in
  k ← init_pool free_start kernel_pages kblock;
  u ← init_pool (free_start + kernel_pages * PGSIZE) user_pages ublock;
  mret (k, u).

(** ** Addresses *)

Lemma pg_ofs_mod va : pg_ofs va = va mod PGSIZE.
Proof. unfold pg_ofs, PGMASK. change 0xfff with (Z.ones 12). by rewrite Z.land_ones. Qed.
Lemma pg_no_div va : pg_no va = va / PGSIZE.
Proof. unfold pg_no, PGBITS. by rewrite Z.shiftr_div_pow2. Qed.

Lemma page_mask va : fits 32 va → Z.land va (u32 (Z.lnot PGMASK)) = va - va mod PGSIZE.
Proof.
  intros Hva. assert (Z.land va (u32 (Z.lnot PGMASK)) = Z.ldiff va (Z.ones 12)) as ->.
  { apply Z.bits_inj'. intros i Hi. rewrite Z.land_spec, Z.ldiff_spec, wrap_testbit, Z.lnot_spec by lia.
    destruct (Z.ltb_spec i 32); [done|]. simpl. rewrite andb_false_r.
    rewrite (proj1 (fits_bits 32 va ltac:(lia)) Hva i) by lia. done. }
  rewrite Z.ldiff_ones_r, Z.shiftl_mul_pow2, Z.shiftr_div_pow2 by lia.
  pose proof (Z.div_mod va PGSIZE ltac:(done)). change PGSIZE with (2 ^ 12) in *. lia.
Qed.

(** ** Filling pages *)

Lemma fill_lookup n : ∀ a w r b,
  fill a n w r !! b =
    if decide (a ≤ b < a + 4 * Z.of_nat n ∧ (b - a) mod 4 = 0) then Some w else r !! b.
Proof.
  induction n as [|n IH]; intros a w r b; cbn [fill].
  - rewrite decide_False by lia. done.
  - rewrite lookup_insert. case_decide as E; subst.
    + rewrite decide_True; [done|]. rewrite Z.sub_diag. split; [lia|done].
    + rewrite IH. replace (b - a) with (b - (a + 4) + 1 * 4) by lia. rewrite Z.mod_add by done.
      repeat case_decide; try done; exfalso.
      * destruct H as [? ?]. apply H0. split; [lia|done].
      * destruct H0 as [? Hm]. apply H. split; [|done].
        pose proof (Z.div_mod (b - (a + 4)) 4). lia.
Qed.

Lemma fill_out a n w r b : ¬ a ≤ b < a + 4 * Z.of_nat n → fill a n w r !! b = r !! b.
Proof. intros. rewrite fill_lookup, decide_False; [done|]. intros [? _]. lia. Qed.

Lemma page_words cnt : 4096 * cnt / 4 = 1024 * cnt.
Proof. replace (4096 * cnt) with (1024 * cnt * 4) by lia. by rewrite Z.div_mul. Qed.

(** ** Pools *)

Record pool_ok (p : pool) : Prop := PoolOk {
  po_map : bitmap_wf (used_map p);
  po_base : 0 < base p;
  po_align : base p mod PGSIZE = 0;
  po_end : base p + PGSIZE * bit_cnt (used_map p) ≤ 2 ^ 32;
}.
(** The kernel's pool lies below the user pool. *)
Record palloc_ok (m : machine) : Prop := PallocOk {
  pa_kernel : pool_ok (kernel_pool m);
  pa_user : pool_ok (user_pool m);
  pa_apart : base (kernel_pool m) + PGSIZE * bit_cnt (used_map (kernel_pool m)) ≤ base (user_pool m);
}.

Lemma palloc_ok_pool m user : palloc_ok m → pool_ok (get_pool user m).
Proof. intros [? ? _]. by destruct user. Qed.

(** The page with index [i] of a pool. *)
Definition page_at (p : pool) (i : Z) : Z := base p + PGSIZE * i.

Lemma page_from_pool_spec p page : pool_ok p → 0 ≤ page →
  page_from_pool p page = true ↔ ∃ i, 0 ≤ i < bit_cnt (used_map p) ∧ page_at p i ≤ page < page_at p (i + 1).
Proof.
  intros [Hm Hb Ha He] Hp. unfold page_from_pool, page_at. rewrite !pg_no_div.
  pose proof (wf_cnt _ Hm) as Hc. change PGSIZE with 4096 in *.
  pose proof (Z.div_mod (base p) 4096). pose proof (Z.div_mod page 4096). pose proof (Z.mod_pos_bound page 4096).
  rewrite wrap_small by (unfold fits; lia). rewrite andb_true_iff, Z.leb_le, Z.ltb_lt. split.
  - intros [? ?]. exists (page / 4096 - base p / 4096). lia.
  - intros (i & Hi & Hr). lia.
Qed.

Lemma set_pool_same user m : set_pool user (Pool (used_map (get_pool user m)) (base (get_pool user m))) m = m.
Proof. by destruct user, m as [[] [] ? ? ? ?]. Qed.

Lemma get_set_pool user p m : get_pool user (set_pool user p m) = p.
Proof. by destruct user. Qed.
Lemma ram_set_pool user p m : ram (set_pool user p m) = ram m.
Proof. by destruct user. Qed.

(** Changing the map of a pool. *)
Lemma palloc_ok_map user m b : palloc_ok m → bitmap_wf b →
  bit_cnt b = bit_cnt (used_map (get_pool user m)) →
  palloc_ok (set_pool user (Pool b (base (get_pool user m))) m).
Proof.
  intros [[? ? ? ?] [? ? ? ?] ?] Hb Hc. destruct user; simpl in *; split; try done; try (split; try done);
    simpl; rewrite ?Hc; done.
Qed.

(** What [palloc_get_multiple] may answer. *)
Inductive get_result (user : bool) (zero : bool) (cnt : Z) (m : machine) : Z → machine → Prop :=
| get_none : (∀ i, 0 ≤ i → i + cnt ≤ bit_cnt (used_map (get_pool user m)) →
                ¬ group (used_map (get_pool user m)) i cnt false) →
    get_result user zero cnt m NULL m
| get_some i b r :
    0 ≤ i → i + cnt ≤ bit_cnt (used_map (get_pool user m)) →
    group (used_map (get_pool user m)) i cnt false →
    bits_set (used_map (get_pool user m)) b (λ j, (i <=? j) && (j <? i + cnt)) true →
    (∀ a, ¬ page_at (get_pool user m) i ≤ a < page_at (get_pool user m) (i + cnt) →
       r !! a = ram m !! a) →
    (zero = true → ∀ a, page_at (get_pool user m) i ≤ a < page_at (get_pool user m) (i + cnt) →
       a mod 4 = 0 → r !! a = Some 0) →
    get_result user zero cnt m (page_at (get_pool user m) i)
      (set_ram (λ _, r) (set_pool user (Pool b (base (get_pool user m))) m)).

Lemma palloc_get_multiple_spec flags cnt m : palloc_ok m → 0 < cnt → flag flags PAL_ASSERT = false →
  ∃ r m', palloc_get_multiple flags cnt m = Ret (r, m') ∧
    get_result (flag flags PAL_USER) (flag flags PAL_ZERO) cnt m r m'.
Proof.
  intros Hok Hcnt Hna. unfold palloc_get_multiple. set (user := flag flags PAL_USER).
  rewrite (proj2 (Z.eqb_neq cnt 0)) by lia. pose proof (palloc_ok_pool m user Hok) as [Hm Hb Ha He].
  pose proof (wf_cnt _ Hm) as Hc.
  destruct (bitmap_scan_and_flip_spec _ Hm 0 cnt false ltac:(lia) ltac:(lia)) as (i & b & Hrun & Hres & Hb').
  erewrite bind_run; [|unfold on_map; by rewrite Hrun].
  run_by ltac:(done). rewrite get_set_pool. simpl base.
  destruct (Z.eqb_spec i BITMAP_ERROR) as [->|Hi].
  - subst b. cbn [negb]. rewrite Hna. rewrite set_pool_same. run_by ltac:(done).
    exists NULL, m. split; [done|]. apply get_none.
    destruct Hres as [(_ & ? & _ & _)|[_ Hno]]; [|done]. unfold BITMAP_ERROR, SIZE_MAX in *. lia.
  - destruct Hres as [(Hi0 & Hic & Hg & _)|[? _]]; [|done]. cbn [negb]. change PGSIZE with 4096 in *.
    rewrite (wrap_small 32 (4096 * i)), wrap_small by (unfold fits; lia).
    rewrite nonnull_true by (unfold NULL; lia).
    set (m1 := set_pool user (Pool b _) m).
    exists (base (get_pool user m) + 4096 * i),
      (set_ram (λ _, if flag flags PAL_ZERO then fill (page_at (get_pool user m) i) (Z.to_nat (1024 * cnt)) 0 (ram m)
                     else ram m) m1).
    split.
    + destruct (flag flags PAL_ZERO).
      * unfold memset_pages. rewrite (wrap_small 32 (4096 * cnt)), page_words by (unfold fits; lia).
        run_by ltac:(done). unfold mret, ST_ret. do 2 f_equal. unfold set_ram, m1. by destruct user.
      * run_by ltac:(done). unfold mret, ST_ret. do 2 f_equal. unfold set_ram, m1. by destruct user.
    + apply (get_some user _ cnt m i b); try done.
      * intros a Hout. unfold page_at in *. change PGSIZE with 4096 in *.
        destruct (flag flags PAL_ZERO); [|done]. apply fill_out. lia.
      * intros -> a Hin Ha4. rewrite fill_lookup, decide_True; [done|].
        unfold page_at in *. change PGSIZE with 4096 in *. split; [lia|].
        pose proof (Z.div_mod (base (get_pool user m)) 4096 ltac:(lia)). 
        pose proof (Z.div_mod a 4 ltac:(lia)).
        replace (a - (base (get_pool user m) + 4096 * i)) with
          ((a / 4 - (base (get_pool user m) / 4096) * 1024 - 1024 * i) * 4) by lia.
        by apply Z.mod_mul.
Qed.

(** ** Freeing *)

Lemma page_at_align p i : pool_ok p → pg_ofs (page_at p i) = 0.
Proof.
  intros [_ _ Ha _]. rewrite pg_ofs_mod. unfold page_at.
  rewrite (Z.mul_comm PGSIZE), Z.mod_add by done. done.
Qed.

Lemma page_at_no p i : pool_ok p → pg_no (page_at p i) - pg_no (base p) = i.
Proof.
  intros _. rewrite !pg_no_div. unfold page_at. rewrite (Z.mul_comm PGSIZE), Z.div_add by done. lia.
Qed.

(** The pool [palloc_free_multiple] finds for a page. *)
Lemma find_pool m user i : palloc_ok m → 0 ≤ i < bit_cnt (used_map (get_pool user m)) →
  (if page_from_pool (kernel_pool m) (page_at (get_pool user m) i) then mret false
   else if page_from_pool (user_pool m) (page_at (get_pool user m) i) then mret true else panic) m
  = Ret (user, m) :> res (bool * machine).
Proof.
  intros [Hk Hu Hap] Hi.
  assert (page_from_pool (get_pool user m) (page_at (get_pool user m) i) = true) as Hin.
  { apply page_from_pool_spec.
    - by destruct user.
    - unfold page_at. change PGSIZE with 4096. destruct user; [destruct Hu|destruct Hk]; simpl in *; lia.
    - exists i. split; [done|]. unfold page_at. change PGSIZE with 4096. lia. }
  destruct user; simpl in *; [|by rewrite Hin].
  destruct (page_from_pool (kernel_pool m) _) eqn:E; [|by rewrite Hin]. exfalso.
  apply page_from_pool_spec in E as (j & Hj & Hr); [|done|].
  - unfold page_at in *. change PGSIZE with 4096 in *. lia.
  - unfold page_at. change PGSIZE with 4096. destruct Hu. lia.
Qed.

Lemma on_map_run {A} user (f : BM A) a b m : f (used_map (get_pool user m)) = Ret (a, b) →
  on_map user f m = Ret (a, set_pool user (Pool b (base (get_pool user m))) m).
Proof. unfold on_map. by intros ->. Qed.

Definition poisoned (a cnt : Z) (m : machine) : machine :=
  set_ram (fill a (Z.to_nat (1024 * cnt)) 0xcccccccc) m.

Section free.
Context (m : machine) (user : bool) (i cnt : Z) (Hok : palloc_ok m).
Abbreviation p := (get_pool user m).
Context (Hi : 0 ≤ i) (Hcnt : 0 < cnt) (Hin : i + cnt ≤ bit_cnt (used_map p)).

(** The part of [palloc_free_multiple] up to its last two statements. *)
Lemma free_prefix :
  palloc_free_multiple (page_at p i) cnt m =
    (ok ← on_map user (bitmap_all i cnt); assert ok;; on_map user (bitmap_set_multiple i cnt false))
      (poisoned (page_at p i) cnt m).
Proof.
  pose proof (palloc_ok_pool m user Hok) as Hp. pose proof Hp as [Hm Hb Ha He].
  pose proof (wf_cnt _ Hm). change PGSIZE with 4096 in *. unfold palloc_free_multiple.
  rewrite page_at_align by done. run_by ltac:(done).
  rewrite nonnull_true, (proj2 (Z.eqb_neq cnt 0))
    by (unfold page_at, NULL; change PGSIZE with 4096; lia). cbn [negb orb].
  do 2 run_by ltac:(done). rewrite (bind_run _ _ _ _ _ (find_pool m user i Hok ltac:(lia))).
  run_by ltac:(done). rewrite page_at_no by done.
  change PGSIZE with 4096. unfold memset_pages. rewrite (wrap_small 32 (4096 * cnt)), page_words by (unfold fits; lia).
  by run_by ltac:(done).
Qed.

Lemma poisoned_pool a c : get_pool user (poisoned a c m) = p.
Proof. by destruct user. Qed.

Lemma palloc_free_multiple_panic : ¬ group (used_map p) i cnt true →
  palloc_free_multiple (page_at p i) cnt m = Panic.
Proof.
  intros Hg. rewrite free_prefix. destruct (palloc_ok_pool m user Hok) as [Hm _ _ _].
  destruct (bitmap_all_spec _ Hm i cnt ltac:(lia)) as (r & Hrun & Hr).
  erewrite bind_run; [|by apply on_map_run; rewrite poisoned_pool].
  destruct r; [|done]. exfalso. by apply Hg, Hr.
Qed.

Lemma palloc_free_multiple_spec : group (used_map p) i cnt true →
  ∃ b, palloc_free_multiple (page_at p i) cnt m =
         Ret ((), set_pool user (Pool b (base p)) (poisoned (page_at p i) cnt m)) ∧
       bits_set (used_map p) b (λ j, (i <=? j) && (j <? i + cnt)) false.
Proof.
  intros Hg. rewrite free_prefix. destruct (palloc_ok_pool m user Hok) as [Hm _ _ _].
  destruct (bitmap_all_spec _ Hm i cnt ltac:(lia)) as (r & Hrun & Hr).
  erewrite bind_run; [|by apply on_map_run; rewrite poisoned_pool].
  rewrite poisoned_pool. rewrite (proj2 Hr Hg). run_by ltac:(done).
  destruct (bitmap_set_multiple_spec _ Hm i cnt ltac:(lia) false) as (b & Hset & Hb).
  exists b. split; [|done].
  rewrite (on_map_run _ _ () b); by destruct user.
Qed.
End free.

(** ** Start-up *)

(** The pages [init_pool] takes for the bitmap of a pool of [n] pages. *)
Definition bm_pages (n : Z) : Z := u32 (bitmap_buf_size n + PGSIZE - 1) / PGSIZE.

Lemma bm_pages_bounds n : 1 ≤ n < 2 ^ 20 → 1 ≤ bm_pages n ≤ n ∧ bitmap_buf_size n ≤ bm_pages n * PGSIZE.
Proof.
  intros Hn. unfold bm_pages, bitmap_buf_size, byte_cnt.
  assert (1 ≤ elem_cnt n ∧ 32 * elem_cnt n ≤ n + 31) as [H1 H2].
  { rewrite elem_cnt_exact by lia. pose proof (Z.div_mod (n + 31) 32). pose proof (Z.mod_pos_bound (n + 31) 32). lia. }
  change PGSIZE with 4096. rewrite (wrap_small 32 (4 * _)), (wrap_small 32 (8 + _)), wrap_small by (unfold fits; lia).
  pose proof (Z.div_mod (8 + 4 * elem_cnt n + 4096 - 1) 4096).
  pose proof (Z.mod_pos_bound (8 + 4 * elem_cnt n + 4096 - 1) 4096). lia.
Qed.

(** A pool with the [n] pages from [start] on: a part of them holds the map, the others are
    free. *)
Definition fresh_pool (start n : Z) (p : pool) : Prop :=
  pool_ok p ∧ base p = start + PGSIZE * bm_pages n ∧ bit_cnt (used_map p) = n - bm_pages n ∧
  ∀ i, 0 ≤ i < bit_cnt (used_map p) → bit (used_map p) i = false.

Lemma init_pool_spec start n block : 1 ≤ n < 2 ^ 20 → 0 < start → start mod PGSIZE = 0 →
  start + PGSIZE * n ≤ 2 ^ 32 → fresh_bits (n - bm_pages n) block →
  ∃ p, init_pool start n block = Ret p ∧ fresh_pool start n p.
Proof.
  intros Hn Hs Ha He Hf. pose proof (bm_pages_bounds n Hn) as [Hb Hsz].
  unfold init_pool. fold (bm_pages n). change PGSIZE with 4096 in *.
  destruct (Z.ltb_spec n (bm_pages n)); [lia|].
  rewrite (wrap_small 32 (bm_pages n * 4096)) by (unfold fits; lia).
  destruct (bitmap_create_in_buf_spec (n - bm_pages n) block (bm_pages n * 4096) ltac:(lia) Hf)
    as (b & Hrun & Hwf & Hc & Hz).
  { etransitivity; [|exact Hsz]. unfold bitmap_buf_size, byte_cnt.
    rewrite !elem_cnt_exact by lia.
    assert ((n - bm_pages n + 31) / 32 ≤ (n + 31) / 32) by (apply Z.div_le_mono; lia).
    assert (0 ≤ (n - bm_pages n + 31) / 32) by (apply Z.div_pos; lia).
    assert ((n + 31) / 32 ≤ n + 31) by (apply Z.div_le_upper_bound; lia).
    rewrite !(wrap_small 32 (4 * _)), !wrap_small by (unfold fits; lia). lia. }
  rewrite Hrun. eexists. split; [done|]. unfold fresh_pool. simpl. change PGSIZE with 4096.
  split_and!; [split; simpl; change PGSIZE with 4096; [done|lia| |rewrite Hc; lia]|lia|done|by rewrite Hc].
  by rewrite Z.mod_add by done.
Qed.

Lemma palloc_init_spec limit ram_pages kblock ublock :
  1 ≤ limit → 258 ≤ ram_pages < 2 ^ 18 →
  let free_pages := ram_pages - 256 in
  let user_pages := Z.min limit (free_pages / 2) in
  let kernel_pages := free_pages - user_pages in
  fresh_bits (kernel_pages - bm_pages kernel_pages) kblock →
  fresh_bits (user_pages - bm_pages user_pages) ublock →
  ∃ k u, palloc_init limit ram_pages kblock ublock = Ret (k, u) ∧
    fresh_pool (PHYS_BASE + 1024 * 1024) kernel_pages k ∧
    fresh_pool (PHYS_BASE + 1024 * 1024 + PGSIZE * kernel_pages) user_pages u.
Proof.
  intros Hl Hr free_pages user_pages kernel_pages Hk Hu. unfold palloc_init.
  assert (ptov (1024 * 1024) = Ret (PHYS_BASE + 1024 * 1024)) as -> by done.
  change PGSIZE with 4096. rewrite (wrap_small 32 (ram_pages * 4096)) by (unfold fits; lia).
  assert (ptov (ram_pages * 4096) = Ret (PHYS_BASE + ram_pages * 4096)) as ->.
  { unfold ptov, PHYS_BASE. rewrite (proj2 (Z.ltb_lt _ _)), wrap_small by (unfold fits; lia). f_equal. lia. }
  unfold mbind at 1 2, res_bind at 1 2.
  replace (PHYS_BASE + ram_pages * 4096 - (PHYS_BASE + 1024 * 1024)) with (free_pages * 4096) by lia.
  rewrite Z.div_mul by done.
  assert ((if limit <? free_pages / 2 then limit else free_pages / 2) = user_pages) as ->.
  { unfold user_pages. destruct (Z.ltb_spec limit (free_pages / 2)); lia. }
  fold kernel_pages.
  assert (1 ≤ user_pages ∧ 2 * user_pages ≤ free_pages) as [? ?].
  { unfold user_pages, free_pages. pose proof (Z.div_mod (ram_pages - 256) 2).
    pose proof (Z.mod_pos_bound (ram_pages - 256) 2). lia. }
  destruct (init_pool_spec (PHYS_BASE + 1024 * 1024) kernel_pages kblock) as (k & -> & Hk');
    [unfold PHYS_BASE in *; change PGSIZE with 4096; (lia || done)..|].
  destruct (init_pool_spec (PHYS_BASE + 1024 * 1024 + kernel_pages * 4096) user_pages ublock)
    as (u & Hur & Hu'); [unfold PHYS_BASE in *; change PGSIZE with 4096; try (lia || done)..|].
  { by rewrite Z.mod_add by done. }
  simpl. rewrite Hur. exists k, u. simpl. rewrite (Z.mul_comm 4096). done.
Qed.

(** ** Claims *)

(** C8: allocation is correct on every branch that does not ask for a panic.  The pages
    [palloc_get_multiple] returns were free, are contiguous, lie inside the pool the flags
    choose, are now the only additional ones in use, and hold zeros when [PAL_ZERO] is set;
    no other memory changes.  It answers the null pointer, and changes nothing, exactly when
    the pool has no such group of free pages.  The allocator's invariant is kept. *)
Theorem palloc_get_multiple_correct flags cnt m :
  palloc_ok m → 0 < cnt → flag flags PAL_ASSERT = false →
  ∃ r m', palloc_get_multiple flags cnt m = Ret (r, m') ∧ palloc_ok m' ∧
    get_result (flag flags PAL_USER) (flag flags PAL_ZERO) cnt m r m'.
Proof.
  intros Hok Hc Hf. destruct (palloc_get_multiple_spec flags cnt m Hok Hc Hf) as (r & m' & Hrun & Hres).
  exists r, m'. split_and!; [done| |done]. destruct Hres as [|i b r' ? ? ? (Hwf & Hcnt & _)]; [done|].
  destruct (palloc_ok_map (flag flags PAL_USER) m b Hok Hwf Hcnt). by destruct (flag flags PAL_USER).
Qed.

Definition small_machine : machine :=
  Machine (Pool (Bitmap 40 [0xfffffff7; 0xfe]) 0xc0101000)
          (Pool (Bitmap 8 [0xfd]) 0xc0200000) ∅ 1024 0xc0101000 0x101000.
Lemma small_machine_ok : palloc_ok small_machine.
Proof. split; [split; [split; [done|done|]|..]..|]; try done; repeat constructor; done. Qed.

Lemma palloc_get_multiple_correct_witness :
  ∃ r m', palloc_get_multiple PAL_ZERO 2 small_machine = Ret (r, m') ∧ palloc_ok m' ∧
    get_result false true 2 small_machine r m'.
Proof. apply (palloc_get_multiple_correct PAL_ZERO); [apply small_machine_ok|done|done]. Defined.

(** Freeing undoes allocating.  Pages just obtained from either pool can be freed; every
    bit of the pool's map is then what it was before the allocation, and only the freed
    pages, now filled with the byte 0xcc, may differ in memory. *)
Theorem palloc_get_free_roundtrip flags cnt m pages m' :
  palloc_ok m → 0 < cnt → flag flags PAL_ASSERT = false →
  palloc_get_multiple flags cnt m = Ret (pages, m') → pages ≠ NULL →
  ∃ m'', palloc_free_multiple pages cnt m' = Ret ((), m'') ∧ palloc_ok m'' ∧
    (∀ user i, 0 ≤ i < bit_cnt (used_map (get_pool user m)) →
       bit (used_map (get_pool user m'')) i = bit (used_map (get_pool user m)) i) ∧
    (∀ a, ¬ pages ≤ a < pages + PGSIZE * cnt → ram m'' !! a = ram m !! a) ∧
    (∀ a, pages ≤ a < pages + PGSIZE * cnt → a mod 4 = pages mod 4 → ram m'' !! a = Some 0xcccccccc).
Proof.
  intros Hok Hc Hf Hrun Hnn. destruct (palloc_get_multiple_spec flags cnt m Hok Hc Hf) as (r & m1 & Hr & Hres).
  rewrite Hr in Hrun. simplify_eq. destruct Hres as [|i b r Hi Hin Hg Hb Hout _]; [done|].
  set (user := flag flags PAL_USER) in *. set (p := get_pool user m) in *.
  set (m1 := set_ram _ _). pose proof Hb as (Hwf & Hbc & Hbits).
  assert (palloc_ok m1) as Hok1.
  { destruct (palloc_ok_map user m b Hok Hwf Hbc). by destruct user. }
  assert (get_pool user m1 = Pool b (base p)) as Hp1 by (unfold m1; by destruct user).
  assert (page_at p i = page_at (get_pool user m1) i) as -> by by rewrite Hp1.
  destruct (palloc_free_multiple_spec m1 user i cnt Hok1) as (b' & Hfree & Hwf' & Hc' & Hb'); 
    rewrite ?Hp1; simpl; [done|done|lia| |].
  { intros j Hj. rewrite Hbits by lia. rewrite (proj2 (Z.leb_le i j)), (proj2 (Z.ltb_lt j (i + cnt))) by lia. done. }
  rewrite Hp1 in *. simpl in Hfree, Hc', Hb'.
  eexists. split; [exact Hfree|]. split_and!.
  - destruct (palloc_ok_map user m b' Hok Hwf' ltac:(etrans; [exact Hc'|exact Hbc])). by destruct user.
  - intros user' j Hj. destruct (decide (user' = user)) as [->|Hne]; [|by destruct user, user'].
    rewrite get_set_pool. simpl. change (get_pool user m) with p in Hj |- *. rewrite Hb', Hbits by lia.
    destruct ((i <=? j) && (j <? i + cnt)) eqn:E; [|done]. symmetry. apply Hg. lia.
  - intros a Ha. rewrite ram_set_pool. unfold poisoned, page_at in *. simpl in *. change PGSIZE with 4096 in *.
    rewrite fill_out by lia. apply Hout. lia.
  - intros a Ha Ha4. rewrite ram_set_pool. unfold poisoned, page_at in *. simpl in *. change PGSIZE with 4096 in *.
    rewrite fill_lookup, decide_True; [done|]. split; [lia|]. rewrite Zminus_mod, Ha4, Z.sub_diag. done.
Qed.

Lemma palloc_get_free_roundtrip_witness :
  ∃ m1 m2, palloc_get_multiple PAL_USER 1 small_machine = Ret (0xc0201000, m1) ∧
    palloc_free_multiple 0xc0201000 1 m1 = Ret ((), m2) ∧ palloc_ok m2.
Proof.
  set (m1 := Machine (kernel_pool small_machine) (Pool (Bitmap 8 [0xff]) 0xc0200000) ∅ 1024 0xc0101000 0x101000).
  assert (palloc_get_multiple PAL_USER 1 small_machine = Ret (0xc0201000, m1)) as H by (vm_compute; reflexivity).
  destruct (palloc_get_free_roundtrip PAL_USER 1 small_machine 0xc0201000 m1
    small_machine_ok ltac:(done) eq_refl H ltac:(done)) as (m2 & H1 & H2 & _).
  exists m1, m2. split; [exact H|]. split; [exact H1|exact H2].
Defined.

(** Freeing pages of a pool that are not all in use (a double free) panics. *)
Theorem palloc_double_free_panics m user i cnt :
  palloc_ok m → 0 ≤ i → 0 < cnt → i + cnt ≤ bit_cnt (used_map (get_pool user m)) →
  ¬ group (used_map (get_pool user m)) i cnt true →
  palloc_free_multiple (page_at (get_pool user m) i) cnt m = Panic.
Proof. intros. by apply palloc_free_multiple_panic. Qed.

Lemma palloc_double_free_panics_witness :
  palloc_free_multiple (page_at (kernel_pool small_machine) 2) 3 small_machine = Panic.
Proof.
  apply (palloc_double_free_panics small_machine false 2 3); [apply small_machine_ok|done..|].
  intros Hg. specialize (Hg 3 ltac:(lia)). vm_compute in Hg. discriminate Hg.
Defined.

(** C35: start-up divides the RAM above 1 MB, of any size below 1 GB that holds two pages,
    into a kernel pool and a user pool of at most [limit] pages; each pool gives its first
    pages to its own map, which fits there, and all its other pages are free.  The two
    pools satisfy the allocator's invariant. *)
Theorem palloc_init_correct limit ram_pages kblock ublock :
  1 ≤ limit → 258 ≤ ram_pages < 2 ^ 18 →
  let free_pages := ram_pages - 256 in
  let user_pages := Z.min limit (free_pages / 2) in
  let kernel_pages := free_pages - user_pages in
  fresh_bits (kernel_pages - bm_pages kernel_pages) kblock →
  fresh_bits (user_pages - bm_pages user_pages) ublock →
  ∃ k u, palloc_init limit ram_pages kblock ublock = Ret (k, u) ∧
    fresh_pool (PHYS_BASE + 1024 * 1024) kernel_pages k ∧
    fresh_pool (PHYS_BASE + 1024 * 1024 + PGSIZE * kernel_pages) user_pages u ∧
    ∀ r pd c, palloc_ok (Machine k u r ram_pages pd c).
Proof.
  intros Hl Hr free_pages user_pages kernel_pages Hk Hu.
  destruct (palloc_init_spec limit ram_pages kblock ublock Hl Hr Hk Hu) as (k & u & Hrun & Hfk & Hfu).
  fold free_pages user_pages kernel_pages in Hfk, Hfu. exists k, u. split_and!; [done..|]. intros r pd c.
  destruct Hfk as (Hpk & Hbk & Hck & _), Hfu as (Hpu & Hbu & Hcu & _). split; [done..|]. simpl.
  rewrite Hbk, Hbu, Hck. 
  assert (1 ≤ kernel_pages < 2 ^ 20).
  { unfold kernel_pages, user_pages, free_pages. pose proof (Z.div_mod (ram_pages - 256) 2).
    pose proof (Z.mod_pos_bound (ram_pages - 256) 2). lia. }
  destruct (bm_pages_bounds kernel_pages) as [? _]; [done|].
  assert (1 ≤ user_pages < 2 ^ 20).
  { unfold user_pages, free_pages. pose proof (Z.div_mod (ram_pages - 256) 2).
    pose proof (Z.mod_pos_bound (ram_pages - 256) 2). lia. }
  destruct (bm_pages_bounds user_pages) as [? _]; [done|].
  change PGSIZE with 4096. lia.
Qed.

Lemma palloc_init_correct_witness :
  ∃ k u, palloc_init 4 300 [0; 0xdeadbeef] [1] = Ret (k, u) ∧
    fresh_pool (PHYS_BASE + 1024 * 1024) 40 k ∧
    fresh_pool (PHYS_BASE + 1024 * 1024 + PGSIZE * 40) 4 u ∧
    ∀ r pd c, palloc_ok (Machine k u r 300 pd c).
Proof.
  apply (palloc_init_correct 4 300); [lia|lia|..]; (split; [vm_compute; reflexivity|repeat constructor; done]).
Defined.
