(* ===== verification/Pagedir.v ===== *)
(** * Page tables: src/src/threads/pte.h, src/src/userprog/pagedir.c

    A page directory is a page of 1024 words of the machine's RAM, and so is each page table
    its entries point to; the pages come from the page allocator.  The directory base
    register CR3 is part of the machine; the TLB, which the code flushes by reloading it, is
    not. *)
From S2P Require Import Prelude KList Bitmap Palloc.

(** ** Entries *)

Definition PTSHIFT : Z := PGBITS.
Definition PTBITS : Z := 10.
Definition PTMASK : Z := Z.shiftl (Z.shiftl 1 PTBITS - 1) PTSHIFT.
Definition PDSHIFT : Z := PTSHIFT + PTBITS.

Definition pt_no (va : Z) : Z := Z.shiftr (Z.land va PTMASK) PTSHIFT.
Definition pd_no (va : Z) : Z := Z.shiftr va PDSHIFT.

Definition PTE_ADDR : Z := 0xfffff000.
Definition PTE_P : Z := 0x1.
Definition PTE_W : Z := 0x2.
Definition PTE_U : Z := 0x4.
Definition PTE_A : Z := 0x20.
Definition PTE_D : Z := 0x40.

Definition check (b : bool) : res () := if b then Ret () else Panic.

Definition pde_create (pt : Z) : res Z :=
  check (pg_ofs pt =? 0);;
  p ← vtop pt;
  mret (Z.lor (Z.lor (Z.lor p PTE_U) PTE_P) PTE_W).

Definition pde_get_pt (pde : Z) : res Z :=
  check (flag pde PTE_P);;
  ptov (Z.land pde PTE_ADDR).

Definition pte_create_kernel (page : Z) (writable : bool) : res Z :=
  check (pg_ofs page =? 0);;
  p ← vtop page;
  mret (Z.lor (Z.lor p PTE_P) (if writable then PTE_W else 0)).

Definition pte_create_user (page : Z) (writable : bool) : res Z :=
  e ← pte_create_kernel page writable; mret (Z.lor e PTE_U).

Definition pte_get_page (pte : Z) : res Z := ptov (Z.land pte PTE_ADDR).

(** ** Directories *)

(** The element [k] of an array of words. *)
Definition at_index (p k : Z) : Z := u32 (p + 4 * k).

(** [memcpy] of [n] words from [src] to [dst], in ascending order. *)
Fixpoint copy_words (dst src : Z) (n : nat) (r : gmap Z Z) : gmap Z Z :=
  match n with
  | O => r
  | S n => copy_words (dst + 4) (src + 4) n (<[dst := word r src]> r)
  end.

Definition pagedir_create : P Z :=
  pd ← palloc_get_page 0;
  (if nonnull pd then
     init ← gets init_page_dir;
     modify (set_ram (copy_words pd init (Z.to_nat (PGSIZE / 4))))
   else mret ());;
  mret pd.

Definition pagedir_destroy (pd : Z) : P () :=
  if negb (nonnull pd) then mret () else
  init ← gets init_page_dir;
  assert (negb (pd =? init));;
  for_each (Z.to_nat (pd_no PHYS_BASE)) 0 (λ i,
    pde ← ldw (at_index pd i);
    if flag pde PTE_P then
      pt ← lift (pde_get_pt pde);
      for_each (Z.to_nat (PGSIZE / 4)) 0 (λ j,
        pte ← ldw (at_index pt j);
        if flag pte PTE_P then
          page ← lift (pte_get_page pte); palloc_free_page page
        else mret ());;
      palloc_free_page pt
    else mret ());;
  palloc_free_page pd.

Definition lookup_page (pd vaddr : Z) (create : bool) : P Z :=
  assert (nonnull pd);;
  assert (negb create || is_user_vaddr vaddr);;
  let pde := at_index pd (pd_no vaddr) in
  e ← ldw pde;
  ok ← (if e =? 0 then
          if create then
            pt ← palloc_get_page PAL_ZERO;
            if negb (nonnull pt) then mret false
            else e ← lift (pde_create pt); stw pde e;; mret true
          else mret false
        else mret true);
  if (ok : bool) then
    e ← ldw pde;
    pt ← lift (pde_get_pt e);
    mret (at_index pt (pt_no vaddr))
  else mret NULL.

Definition pagedir_set_page (pd upage kpage : Z) (writable : bool) : P bool :=
  assert (pg_ofs upage =? 0);;
  assert (pg_ofs kpage =? 0);;
  assert (is_user_vaddr upage);;
  p ← lift (vtop kpage);
  ram_pages ← gets init_ram_pages;
  assert (Z.shiftr p PTSHIFT <? ram_pages);;
  init ← gets init_page_dir;
  assert (negb (pd =? init));;
  pte ← lookup_page pd upage true;
  if nonnull pte then
    e ← ldw pte;
    assert (Z.land e PTE_P =? 0);;
    e ← lift (pte_create_user kpage writable);
    stw pte e;; mret true
  else mret false.

Definition pagedir_get_page (pd uaddr : Z) : P Z :=
  assert (is_user_vaddr uaddr);;
  pte ← lookup_page pd uaddr false;
  if nonnull pte then
    e ← ldw pte;
    if flag e PTE_P then
      page ← lift (pte_get_page e); mret (u32 (page + pg_ofs uaddr))
    else mret NULL
  else mret NULL.

Definition pagedir_activate (pd : Z) : P () :=
  init ← gets init_page_dir;
  let pd := if negb (nonnull pd) then init else pd in
  p ← lift (vtop pd);
  modify (set_cr3 p).

Definition active_pd : P Z := pd ← gets cr3; lift (ptov pd).

Definition invalidate_pagedir (pd : Z) : P () :=
  a ← active_pd;
  if a =? pd then pagedir_activate pd else mret ().

Definition pagedir_clear_page (pd upage : Z) : P () :=
  assert (pg_ofs upage =? 0);;
  assert (is_user_vaddr upage);;
  pte ← lookup_page pd upage false;
  if nonnull pte then
    e ← ldw pte;
    if flag e PTE_P then
      stw pte (Z.land e (u32 (Z.lnot PTE_P)));; invalidate_pagedir pd
    else mret ()
  else mret ().

(** [pagedir_is_dirty] and [pagedir_is_accessed]: whether the entry has the bit [b]. *)
Definition pte_has (b pd vpage : Z) : P bool :=
  pte ← lookup_page pd vpage false;
  if nonnull pte then e ← ldw pte; mret (flag e b) else mret false.
Definition pagedir_is_dirty : Z → Z → P bool := pte_has PTE_D.
Definition pagedir_is_accessed : Z → Z → P bool := pte_has PTE_A.

(** [pagedir_set_dirty] and [pagedir_set_accessed]. *)
Definition pte_put (b pd vpage : Z) (v : bool) : P () :=
  pte ← lookup_page pd vpage false;
  if nonnull pte then
    e ← ldw pte;
    if v then stw pte (Z.lor e b)
    else stw pte (Z.land e (u32 (Z.lnot b)));; invalidate_pagedir pd
  else mret ().
Definition pagedir_set_dirty : Z → Z → bool → P () := pte_put PTE_D.
Definition pagedir_set_accessed : Z → Z → bool → P () := pte_put PTE_A.

Definition pagedir_is_mapped (pd vaddr : Z) : P bool :=
  pte ← lookup_page pd vaddr false;
  if pte =? NULL then mret false else mret true.

(** ** Addresses and entries *)

Lemma pd_no_div va : pd_no va = va / 2 ^ 22.
Proof. unfold pd_no. by rewrite Z.shiftr_div_pow2. Qed.

Lemma pt_no_mod va : pt_no va = (va / 4096) mod 1024.
Proof.
  unfold pt_no, PTSHIFT, PGBITS. rewrite Z.shiftr_land. change (Z.shiftr PTMASK 12) with (Z.ones 10).
  by rewrite Z.land_ones, Z.shiftr_div_pow2 by lia.
Qed.

Lemma pt_no_bound va : 0 ≤ pt_no va < 1024.
Proof. rewrite pt_no_mod. apply Z.mod_pos_bound. lia. Qed.

Lemma pd_no_user va : 0 ≤ va → is_user_vaddr va = true → 0 ≤ pd_no va < 768.
Proof.
  intros H0 Hu%Z.ltb_lt. rewrite pd_no_div. unfold PHYS_BASE in *.
  split; [apply Z.div_pos; lia|apply Z.div_lt_upper_bound; lia].
Qed.

(** The two indices make the page number. *)
Lemma page_indices u v : pg_no u = pg_no v ↔ pd_no u = pd_no v ∧ pt_no u = pt_no v.
Proof.
  assert (∀ a, pg_no a = 1024 * pd_no a + pt_no a) as H.
  { intros a. rewrite pg_no_div, pd_no_div, pt_no_mod. change PGSIZE with 4096.
    change (2 ^ 22) with (4096 * 1024). rewrite <-Z.div_div by lia. apply Z.div_mod. lia. }
  rewrite !H. pose proof (pt_no_bound u). pose proof (pt_no_bound v). lia.
Qed.

Lemma flag_P e : flag e PTE_P = Z.testbit e 0.
Proof.
  unfold flag, PTE_P. change 1 with (Z.ones 1). rewrite Z.land_ones by lia. change (2 ^ 1) with 2.
  rewrite <-Z.bit0_mod. by destruct (Z.testbit e 0).
Qed.

Lemma page_aligned_bit0 p : p mod PGSIZE = 0 → Z.testbit p 0 = false.
Proof.
  intros Hp. change PGSIZE with 4096 in *. pose proof (Z.div_mod p 4096 ltac:(lia)) as E.
  rewrite Hp, Z.add_0_r in E. rewrite E, Z.bit0_odd, Z.odd_mul. done.
Qed.

(** The address part of an entry made of an aligned address and flags. *)
Lemma entry_addr p f : fits 32 p → p mod PGSIZE = 0 → Z.land f PTE_ADDR = 0 →
  Z.land (Z.lor p f) PTE_ADDR = p.
Proof.
  intros Hp Ha Hf. rewrite Z.land_lor_distr_l, Hf, Z.lor_0_r.
  change PTE_ADDR with (u32 (Z.lnot PGMASK)). rewrite page_mask by done. lia.
Qed.

Lemma vtop_kernel a : PHYS_BASE ≤ a → vtop a = Ret (a - PHYS_BASE).
Proof. intros. unfold vtop, is_kernel_vaddr. by rewrite Z.geb_leb, (proj2 (Z.leb_le _ _)). Qed.

Lemma ptov_vtop a : PHYS_BASE ≤ a < 2 ^ 32 → ptov (a - PHYS_BASE) = Ret a.
Proof.
  intros H. unfold ptov, PHYS_BASE in *. rewrite (proj2 (Z.ltb_lt _ _)), wrap_small by (unfold fits; lia).
  f_equal. lia.
Qed.

(** ** Well-formed address spaces *)

(** A page of the kernel pool that is in use. *)
Definition in_use (m : machine) (a : Z) : Prop :=
  ∃ i, 0 ≤ i < bit_cnt (used_map (kernel_pool m)) ∧ a = page_at (kernel_pool m) i ∧
       bit (used_map (kernel_pool m)) i = true.

(** [pd] is a directory whose user part has the page tables [tables], by directory index: all
    of them pages in use, different from each other and from the directory. *)
Record pd_ok (m : machine) (pd : Z) (tables : gmap Z Z) : Prop := PdOk {
  pd_palloc : palloc_ok m;
  pd_base : PHYS_BASE ≤ base (kernel_pool m);
  pd_use : in_use m pd;
  pd_tables i pt : tables !! i = Some pt → 0 ≤ i < 768 ∧ in_use m pt ∧ pt ≠ pd;
  pd_inj i j pt : tables !! i = Some pt → tables !! j = Some pt → i = j;
  pd_entries i : 0 ≤ i < 768 →
    match tables !! i with
    | None => word (ram m) (pd + 4 * i) = 0
    | Some pt => Z.testbit (word (ram m) (pd + 4 * i)) 0 = true ∧
                 Z.land (word (ram m) (pd + 4 * i)) PTE_ADDR = pt - PHYS_BASE
    end;
}.

Section in_use.
Context (m : machine) (Hok : palloc_ok m) (Hbase : PHYS_BASE ≤ base (kernel_pool m)).

Lemma in_use_bounds a : in_use m a → PHYS_BASE ≤ a ∧ a + 4096 ≤ 2 ^ 32 ∧ a mod PGSIZE = 0.
Proof.
  intros (i & Hi & -> & _). destruct (pa_kernel m Hok) as [Hm Hb Ha He].
  unfold page_at. change PGSIZE with 4096 in *. split_and!; [lia..|].
  by rewrite (Z.mul_comm 4096), Z.mod_add by done.
Qed.

Lemma in_use_at_index a k : in_use m a → 0 ≤ k < 1024 → at_index a k = a + 4 * k.
Proof.
  intros Ha Hk. destruct (in_use_bounds a Ha) as (? & ? & _). unfold at_index, PHYS_BASE in *.
  by rewrite wrap_small by (unfold fits; lia).
Qed.

Lemma in_use_apart a b i j : in_use m a → in_use m b → a ≠ b → 0 ≤ i < 1024 → 0 ≤ j < 1024 →
  a + 4 * i ≠ b + 4 * j.
Proof.
  intros (i' & _ & -> & _) (j' & _ & -> & _). unfold page_at. change PGSIZE with 4096.
  intros Hne Hi Hj E. assert (i' ≠ j') by (intros ->; done). lia.
Qed.

Lemma in_use_nonnull a k : in_use m a → 0 ≤ k < 1024 → nonnull (at_index a k) = true.
Proof.
  intros Ha Hk. rewrite in_use_at_index by done. destruct (in_use_bounds a Ha) as (? & ? & _).
  apply nonnull_true. unfold NULL, PHYS_BASE in *. lia.
Qed.
End in_use.

(** ** Lookup *)

Section lookup.
Context (m : machine) (pd : Z) (tables : gmap Z Z) (Hpd : pd_ok m pd tables).
Context (va : Z) (Hva : 0 ≤ va) (Huser : is_user_vaddr va = true).

Lemma pd_nonnull : nonnull pd = true.
Proof.
  destruct Hpd. destruct (in_use_bounds m ltac:(done) ltac:(done) pd) as (? & _); [done|].
  apply nonnull_true. unfold NULL, PHYS_BASE in *. lia.
Qed.

Lemma pde_addr : at_index pd (pd_no va) = pd + 4 * pd_no va.
Proof. destruct Hpd. pose proof (pd_no_user va Hva Huser). by rewrite (in_use_at_index m) by (done || lia). Qed.

Lemma get_pt pt : tables !! pd_no va = Some pt →
  pde_get_pt (word (ram m) (pd + 4 * pd_no va)) = Ret pt.
Proof.
  intros Ht. pose proof (pd_no_user va Hva Huser) as Hi. destruct Hpd as [Hok Hb Hu Hts _ He].
  specialize (He _ Hi). rewrite Ht in He. destruct He as [H0 Ha].
  destruct (Hts _ _ Ht) as (_ & Hpt & _). destruct (in_use_bounds m Hok Hb pt Hpt) as (? & ? & _).
  unfold pde_get_pt, check. rewrite flag_P, H0. simpl. rewrite Ha. apply ptov_vtop. lia.
Qed.

Lemma lookup_page_table pt create : tables !! pd_no va = Some pt →
  lookup_page pd va create m = Ret (pt + 4 * pt_no va, m).
Proof.
  intros Ht. unfold lookup_page. run_by ltac:(apply assert_run, pd_nonnull).
  run_by ltac:(apply assert_run; rewrite Huser; apply orb_true_r).
  rewrite pde_addr. run_by ltac:(done).
  destruct (Z.eqb_spec (word (ram m) (pd + 4 * pd_no va)) 0) as [E|_].
  { pose proof (pd_entries _ _ _ Hpd _ (pd_no_user va Hva Huser)) as He. rewrite Ht, E in He.
    by destruct He as [He _]. }
  run_by ltac:(done). cbv iota. run_by ltac:(done). rewrite (get_pt pt Ht). run_by ltac:(done).
  destruct Hpd as [Hok Hb _ Hts _ _]. destruct (Hts _ _ Ht) as (_ & Hpt & _).
  by rewrite (in_use_at_index m) by (done || apply pt_no_bound).
Qed.

Lemma lookup_page_none : tables !! pd_no va = None → lookup_page pd va false m = Ret (NULL, m).
Proof.
  intros Ht. unfold lookup_page. run_by ltac:(apply assert_run, pd_nonnull).
  run_by ltac:(done). rewrite pde_addr. run_by ltac:(done).
  pose proof (pd_entries _ _ _ Hpd _ (pd_no_user va Hva Huser)) as He. rewrite Ht in He.
  rewrite He. done.
Qed.
End lookup.

(** ** New pages *)

(** The parts of the machine that allocating pages and storing words leave alone. *)
Definition same_registers (m m' : machine) : Prop :=
  init_ram_pages m' = init_ram_pages m ∧ init_page_dir m' = init_page_dir m ∧ cr3 m' = cr3 m ∧
  base (kernel_pool m') = base (kernel_pool m).

(** [pt] is a page of the kernel pool that [m'] uses and [m] did not. *)
Record fresh_page (zero : bool) (m : machine) (pt : Z) (m' : machine) : Prop := FreshPage {
  fp_ok : palloc_ok m';
  fp_regs : same_registers m m';
  fp_use : in_use m' pt;
  fp_new : ¬ in_use m pt;
  fp_keep a : in_use m a → in_use m' a;
  fp_ram a k : in_use m a → 0 ≤ k < 1024 → word (ram m') (a + 4 * k) = word (ram m) (a + 4 * k);
  fp_zero k : zero = true → 0 ≤ k < 1024 → word (ram m') (pt + 4 * k) = 0;
  fp_free : ∃ i, 0 ≤ i < bit_cnt (used_map (kernel_pool m)) ∧ pt = page_at (kernel_pool m) i ∧
                 bit (used_map (kernel_pool m)) i = false;
  fp_user : user_pool m' = user_pool m;
  fp_cnt : bit_cnt (used_map (kernel_pool m')) = bit_cnt (used_map (kernel_pool m));
  fp_bits j : 0 ≤ j < bit_cnt (used_map (kernel_pool m)) → pt ≠ page_at (kernel_pool m) j →
    bit (used_map (kernel_pool m')) j = bit (used_map (kernel_pool m)) j;
}.

(** Every page of the pool is in use. *)
Definition full (p : pool) : Prop := ∀ i, 0 ≤ i < bit_cnt (used_map p) → bit (used_map p) i = true.

Lemma palloc_get_page_spec flags m : palloc_ok m →
  flag flags PAL_ASSERT = false → flag flags PAL_USER = false →
  (palloc_get_page flags m = Ret (NULL, m) ∧ full (kernel_pool m)) ∨
  ∃ pt m', palloc_get_page flags m = Ret (pt, m') ∧ fresh_page (flag flags PAL_ZERO) m pt m'.
Proof.
  intros Hok Hna Hk. destruct (palloc_get_multiple_spec flags 1 m Hok ltac:(done) Hna) as (r & m' & Hrun & Hres).
  unfold palloc_get_page. rewrite Hrun. rewrite Hk in Hres.
  destruct Hres as [Hno|i b r Hi Hin Hg (Hwf & Hc & Hb) Hout Hz]; [left|right].
  { split; [done|]. intros i Hi. specialize (Hno i ltac:(lia) ltac:(simpl; lia)). simpl in Hno.
    destruct (bit _ i) eqn:E; [done|]. destruct Hno. intros j Hj. by replace j with i by lia. }
  simpl in *. eexists _, _. split; [done|].
  pose proof (palloc_ok_map false m b Hok Hwf Hc) as Hok'.
  destruct (pa_kernel m Hok) as [_ _ Ha _].
  assert (∀ j, 0 ≤ j < bit_cnt b → bit b j = (j =? i) || bit (used_map (kernel_pool m)) j) as Hb'.
  { intros j Hj. rewrite Hb by lia. destruct (Z.eqb_spec j i) as [->|].
    - rewrite (proj2 (Z.leb_le i i)), (proj2 (Z.ltb_lt i (i + 1))) by lia. done.
    - assert ((i <=? j) && (j <? i + 1) = false) as ->; [|done].
      destruct (Z.leb_spec i j), (Z.ltb_spec j (i + 1)); simpl; (done || lia). }
  assert (bit (used_map (kernel_pool m)) i = false) as Hi0 by (apply Hg; lia).
  split.
  - by destruct Hok'.
  - done.
  - exists i. simpl. split_and!; [lia|lia|done|]. rewrite Hb', Z.eqb_refl by lia. done.
  - intros (j & Hj & E & Ht). assert (i = j) as ->; [|congruence].
    unfold page_at in E. change PGSIZE with 4096 in *. lia.
  - intros a (j & Hj & -> & Ht). exists j. simpl. rewrite Hc. split_and!; [lia..|done|].
    rewrite Hb', Ht by lia. apply orb_true_r.
  - intros a k (j & Hj & -> & Ht) Hk'. simpl. unfold word. rewrite Hout; [done|].
    assert (i ≠ j) by congruence. unfold page_at. change PGSIZE with 4096. lia.
  - intros k Hz' Hk'. unfold word. simpl. rewrite (Hz Hz'); [done|unfold page_at; change PGSIZE with 4096; lia|].
    unfold page_at. pose proof (Z.div_mod (base (kernel_pool m)) PGSIZE ltac:(done)) as E.
    rewrite Ha in E. change PGSIZE with 4096 in *.
    replace (base (kernel_pool m) + 4096 * i + 4 * k) with ((1024 * (base (kernel_pool m) / 4096) + 1024 * i + k) * 4) by lia.
    by apply Z.mod_mul.
  - exists i. split; [lia|done].
  - done.
  - done.
  - intros j Hj Hne. cbn. rewrite Hb' by lia. destruct (Z.eqb_spec j i) as [->|]; done.
Qed.

(** Storing a word in a page in use. *)
Lemma word_insert r a b w : word (<[a := w]> r) b = if decide (a = b) then w else word r b.
Proof. unfold word. rewrite lookup_insert. by case_decide. Qed.

Lemma pde_create_run pt : PHYS_BASE ≤ pt < 2 ^ 32 → pt mod PGSIZE = 0 →
  ∃ e, pde_create pt = Ret e ∧ fits 32 e ∧ Z.testbit e 0 = true ∧ Z.land e PTE_ADDR = pt - PHYS_BASE.
Proof.
  intros Hpt Ha. unfold pde_create, check. rewrite pg_ofs_mod, Ha. simpl. rewrite vtop_kernel by lia.
  assert (fits 32 (pt - PHYS_BASE)) by (unfold fits, PHYS_BASE in *; lia).
  exists (Z.lor (pt - PHYS_BASE) (Z.lor PTE_U (Z.lor PTE_P PTE_W))).
  split; [unfold mbind, res_bind, mret, res_ret; by rewrite <-!Z.lor_assoc|].
  split; [by apply fits_lor|]. split.
  - rewrite <-Z.bit0_odd, Z.lor_spec. apply orb_true_r.
  - apply entry_addr; [done| |done]. rewrite Zminus_mod, Ha. done.
Qed.

(** ** Lookup with [create] *)

Section create.
Context (m : machine) (pd : Z) (tables : gmap Z Z) (Hpd : pd_ok m pd tables).
Context (va : Z) (Hva : 0 ≤ va) (Huser : is_user_vaddr va = true).

(** A new, empty table is entered in the directory. *)
Lemma pd_ok_new_table m' pt e : tables !! pd_no va = None → fresh_page true m pt m' →
  Z.testbit e 0 = true → Z.land e PTE_ADDR = pt - PHYS_BASE →
  pd_ok (set_ram <[pd + 4 * pd_no va := e]> m') pd (<[pd_no va := pt]> tables).
Proof.
  intros Ht Hf He0 Hea. destruct Hpd as [Hok Hb Hu Hts Hinj Hen].
  pose proof (pd_no_user va Hva Huser) as Hi.
  destruct Hf as [Hok' (_ & _ & _ & Hbase) Huse Hnew Hkeep Hram Hzero].
  assert (pt ≠ pd) by (intros ->; exact (Hnew Hu)).
  split; [by destruct Hok'|simpl; by rewrite Hbase|by apply Hkeep|..].
  - intros i q [[<- <-]|[_ Hq]]%lookup_insert_Some; [done|].
    destruct (Hts _ _ Hq) as (? & ? & ?). split; [done|]. split; [by apply Hkeep|done].
  - intros i j q [[<- <-]|[_ Hq]]%lookup_insert_Some [[<- Hj]|[_ Hq']]%lookup_insert_Some; try done.
    + exfalso. by destruct (Hts _ _ Hq') as (_ & ? & _).
    + subst q. exfalso. by destruct (Hts _ _ Hq) as (_ & ? & _).
    + by eapply Hinj.
  - intros i Hi'. simpl. rewrite word_insert, lookup_insert. repeat case_decide; try lia; [done|].
    specialize (Hen i Hi'). rewrite Hram by (done || lia). done.
Qed.

Lemma lookup_page_create : tables !! pd_no va = None →
  (lookup_page pd va true m = Ret (NULL, m) ∧ full (kernel_pool m)) ∨
  ∃ pt m1 e, fresh_page true m pt m1 ∧
    let m' := set_ram <[pd + 4 * pd_no va := e]> m1 in
    lookup_page pd va true m = Ret (pt + 4 * pt_no va, m') ∧
    pd_ok m' pd (<[pd_no va := pt]> tables).
Proof.
  intros Ht. pose proof (pd_no_user va Hva Huser) as Hi.
  unfold lookup_page. run_by ltac:(apply assert_run, (pd_nonnull m pd tables Hpd)).
  run_by ltac:(apply assert_run; by rewrite Huser).
  rewrite (pde_addr m pd tables Hpd va Hva Huser). run_by ltac:(done).
  pose proof (pd_entries _ _ _ Hpd _ Hi) as He. rewrite Ht in He. rewrite He. cbn [Z.eqb].
  destruct (palloc_get_page_spec PAL_ZERO m (pd_palloc _ _ _ Hpd) eq_refl eq_refl)
    as [[Hrun ?]|(pt & m1 & Hrun & Hf)].
  - left. split; [|done]. unfold mbind, ST_bind. by rewrite Hrun.
  - right. pose proof (fp_regs _ _ _ _ Hf) as (_ & _ & _ & Hb1).
    assert (PHYS_BASE ≤ base (kernel_pool m1)) as Hbase by (rewrite Hb1; apply Hpd).
    destruct (in_use_bounds m1 (fp_ok _ _ _ _ Hf) Hbase pt (fp_use _ _ _ _ Hf)) as (? & ? & Ha).
    destruct (pde_create_run pt ltac:(lia) Ha) as (e & Hcr & Hfit & He0 & Hea).
    exists pt, m1, e. split; [done|]. pose proof (pd_ok_new_table m1 pt e Ht Hf He0 Hea) as Hok'.
    split; [|done]. erewrite bind_run; [cbv iota|].
    2: { erewrite bind_run; [|exact Hrun]. rewrite nonnull_true by (unfold NULL, PHYS_BASE in *; lia). cbn [negb].
         erewrite bind_run; [|rewrite Hcr; done]. erewrite bind_run; [|done]. done. }
    rewrite (wrap_small 32 e) by done. cbv zeta. run_by ltac:(done).
    rewrite (get_pt _ _ _ Hok' va Hva Huser pt) by apply lookup_insert_eq.
    run_by ltac:(done). rewrite (in_use_at_index m1) by (apply Hf || done || apply pt_no_bound). done.
Qed.
End create.

(** ** Reading and writing entries *)

(** The page table entry of an address; 0 when its table does not exist. *)
Definition pte (m : machine) (tables : gmap Z Z) (va : Z) : Z :=
  match tables !! pd_no va with
  | None => 0
  | Some pt => word (ram m) (pt + 4 * pt_no va)
  end.

(** The kernel address an entry gives to the user address [va]. *)
Definition translate (e va : Z) : res Z :=
  if flag e PTE_P then page ← pte_get_page e; mret (u32 (page + pg_ofs va)) else Ret NULL.

(** The value code returns, without the state. *)
Definition value {A} (r : res (A * machine)) : res A := '(a, _) ← r; mret a.

Lemma lookup_page_false m pd tables va : pd_ok m pd tables → 0 ≤ va → is_user_vaddr va = true →
  lookup_page pd va false m =
    Ret (match tables !! pd_no va with None => NULL | Some pt => pt + 4 * pt_no va end, m).
Proof.
  intros Hpd Hva Hu. destruct (tables !! pd_no va) as [pt|] eqn:E;
    [by eapply lookup_page_table|by eapply lookup_page_none].
Qed.

(** The entry [lookup_page] finds, for the code that goes on when it is there. *)
Lemma entry_nonnull m pd tables va pt : pd_ok m pd tables → tables !! pd_no va = Some pt →
  nonnull (pt + 4 * pt_no va) = true.
Proof.
  intros [Hok Hb _ Hts _ _] Ht. destruct (Hts _ _ Ht) as (_ & Hpt & _).
  pose proof (pt_no_bound va). rewrite <-(in_use_at_index m Hok Hb pt) by (done || lia).
  by apply (in_use_nonnull m).
Qed.

Lemma pagedir_get_page_run m pd tables va : pd_ok m pd tables → 0 ≤ va → is_user_vaddr va = true →
  value (pagedir_get_page pd va m) = translate (pte m tables va) va ∧
  ∀ r m', pagedir_get_page pd va m = Ret (r, m') → m' = m.
Proof.
  intros Hpd Hva Hu. unfold pagedir_get_page. run_by ltac:(by apply assert_run).
  rewrite (bind_run _ _ _ _ _ (lookup_page_false m pd tables va Hpd Hva Hu)). unfold pte, translate.
  destruct (tables !! pd_no va) as [pt|] eqn:Ht; [|split; [done|by intros ? ? [= <- <-]]].
  rewrite (entry_nonnull m pd tables va pt Hpd Ht). run_by ltac:(done).
  destruct (flag (word _ _) PTE_P); [|split; [done|by intros ? ? [= <- <-]]].
  unfold lift, mbind, ST_bind. destruct (pte_get_page _) as [page| | |]; (split; [done|]); intros ? ?; try done.
  by intros [= <- <-].
Qed.

Section store.
Context (m : machine) (pd : Z) (tables : gmap Z Z) (Hpd : pd_ok m pd tables).
Context (va pt w : Z) (Ht : tables !! pd_no va = Some pt).
Abbreviation m' := (set_ram <[pt + 4 * pt_no va := w]> m).

Lemma pd_ok_store : pd_ok m' pd tables.
Proof.
  destruct Hpd as [Hok Hb Hu Hts Hinj Hen]. split; [by destruct Hok|done|done|done|done|].
  intros i Hi. specialize (Hen i Hi). destruct (Hts _ _ Ht) as (_ & Hpt & Hne). simpl.
  rewrite word_insert. rewrite decide_False; [done|].
  apply (in_use_apart m); [done|done|done|apply pt_no_bound|lia].
Qed.

Lemma pte_store u : pte m' tables u = if pg_no u =? pg_no va then w else pte m tables u.
Proof.
  unfold pte. destruct (Z.eqb_spec (pg_no u) (pg_no va)) as [E|Hne].
  - apply page_indices in E as [-> ->]. rewrite Ht. simpl. by rewrite word_insert, decide_True.
  - destruct (tables !! pd_no u) as [q|] eqn:Hq; [|done]. simpl. rewrite word_insert.
    destruct Hpd as [Hok Hb Hu Hts Hinj _].
    destruct (decide (q = pt)) as [->|Hqp].
    + assert (pd_no u = pd_no va) as E1 by (by eapply Hinj).
      rewrite decide_False; [done|]. intros E2. apply Hne, page_indices. split; [done|lia].
    + destruct (Hts _ _ Ht) as (_ & H1 & _), (Hts _ _ Hq) as (_ & H2 & _).
      rewrite decide_False; [done|].
      apply (in_use_apart m); [done|done|congruence|apply pt_no_bound|apply pt_no_bound].
Qed.
End store.

(** Allocating an empty table does not change any entry. *)
Lemma pte_new_table m pd tables m1 va pt e u : pd_ok m pd tables → 0 ≤ va → is_user_vaddr va = true →
  tables !! pd_no va = None → fresh_page true m pt m1 →
  pte (set_ram <[pd + 4 * pd_no va := e]> m1) (<[pd_no va := pt]> tables) u = pte m tables u.
Proof.
  intros [Hok Hb Hu Hts _ _] Hva Huser Ht Hf. pose proof (pd_no_user va Hva Huser) as Hi.
  pose proof Hf as [Hok1 (_ & _ & _ & Hbase) Huse Hnew Hkeep Hram Hzero]. pose proof (pt_no_bound u).
  unfold pte. cbn [ram set_ram]. destruct (decide (pd_no u = pd_no va)) as [E|Hne].
  - rewrite E, Ht, lookup_insert_eq, word_insert, decide_False; [by apply Hzero|].
    apply (in_use_apart m1); [by apply Hkeep|exact Huse| |lia|lia]. intros ->. exact (Hnew Hu).
  - rewrite lookup_insert_ne by done. destruct (tables !! pd_no u) as [q|] eqn:Hq; [|done].
    destruct (Hts _ _ Hq) as (_ & Hq' & Hqp). rewrite word_insert, decide_False; [by apply Hram|].
    apply (in_use_apart m); [done|done|done|lia|lia].
Qed.

(** The table of a user address, found or made. *)
Lemma lookup_page_true m pd tables va : pd_ok m pd tables → 0 ≤ va → is_user_vaddr va = true →
  (lookup_page pd va true m = Ret (NULL, m) ∧ full (kernel_pool m)) ∨
  ∃ pt m' tables', lookup_page pd va true m = Ret (pt + 4 * pt_no va, m') ∧ pd_ok m' pd tables' ∧
    tables' !! pd_no va = Some pt ∧ same_registers m m' ∧ user_pool m' = user_pool m ∧ ∀ u, pte m' tables' u = pte m tables u.
Proof.
  intros Hpd Hva Hu. destruct (tables !! pd_no va) as [pt|] eqn:Ht.
  - right. exists pt, m, tables. by erewrite lookup_page_table.
  - destruct (lookup_page_create m pd tables Hpd va Hva Hu Ht) as [?|(pt & m1 & e & Hf & Hrun & Hok')]; [by left|].
    right. eexists pt, _, _. split; [exact Hrun|]. split; [exact Hok'|]. split; [apply lookup_insert_eq|].
    split; [|split; [apply (fp_user _ _ _ _ Hf)|intros u; by eapply pte_new_table]].
    destruct (fp_regs _ _ _ _ Hf) as (? & ? & ? & ?). done.
Qed.

(** ** Copying a directory *)

Lemma copy_words_out n : ∀ dst src r a, (∀ k, 0 ≤ k < Z.of_nat n → a ≠ dst + 4 * k) →
  word (copy_words dst src n r) a = word r a.
Proof.
  induction n as [|n IH]; intros dst src r a Ha; cbn [copy_words]; [done|].
  rewrite IH, word_insert, decide_False; [done| |].
  - specialize (Ha 0). lia.
  - intros k Hk. specialize (Ha (k + 1)). lia.
Qed.

Lemma copy_words_in n : ∀ dst src r k, 0 ≤ k < Z.of_nat n →
  (∀ i j, 0 ≤ i < Z.of_nat n → 0 ≤ j < Z.of_nat n → dst + 4 * i ≠ src + 4 * j) →
  word (copy_words dst src n r) (dst + 4 * k) = word r (src + 4 * k).
Proof.
  induction n as [|n IH]; intros dst src r k Hk Hap; cbn [copy_words]; [lia|].
  destruct (decide (k = 0)) as [->|].
  - rewrite copy_words_out by (intros; lia). rewrite word_insert, decide_True by lia. f_equal. lia.
  - replace (dst + 4 * k) with (dst + 4 + 4 * (k - 1)) by lia.
    rewrite IH; [|lia|intros i j Hi Hj; specialize (Hap (i + 1) (j + 1)); lia].
    rewrite word_insert, decide_False; [f_equal; lia|].
    specialize (Hap 0 k ltac:(lia) ltac:(lia)). lia.
Qed.

(** ** Claims *)

(** The entry [pagedir_set_page] stores translates to the page it is given. *)
Lemma pte_create_user_run kpage w : PHYS_BASE ≤ kpage → kpage + 4096 ≤ 2 ^ 32 → kpage mod PGSIZE = 0 →
  ∃ e, pte_create_user kpage w = Ret e ∧ fits 32 e ∧
    ∀ va, translate e va = Ret (kpage + pg_ofs va).
Proof.
  intros Hk Hk2 Ha. unfold pte_create_user, pte_create_kernel, check. rewrite pg_ofs_mod, Ha. cbn [Z.eqb].
  rewrite vtop_kernel by lia. unfold mbind, res_bind, mret, res_ret.
  assert (fits 32 (kpage - PHYS_BASE)) by (unfold fits, PHYS_BASE in *; lia).
  assert ((kpage - PHYS_BASE) mod PGSIZE = 0) by (rewrite Zminus_mod, Ha; done).
  eexists. split; [done|]. rewrite <-!Z.lor_assoc. split; [apply fits_lor; [done..|by destruct w]|].
  intros va. unfold translate, pte_get_page. rewrite flag_P, Z.lor_spec, entry_addr by (done || by destruct w).
  assert (Z.testbit (Z.lor PTE_P (Z.lor (if w then PTE_W else 0) PTE_U)) 0 = true) as -> by by destruct w.
  rewrite orb_true_r, ptov_vtop by (unfold PHYS_BASE in *; lia). unfold mbind, res_bind. rewrite wrap_small; [done|].
  rewrite pg_ofs_mod. pose proof (Z.mod_pos_bound va PGSIZE ltac:(done)). change PGSIZE with 4096 in *.
  unfold fits, PHYS_BASE in *. lia.
Qed.

Lemma pagedir_set_page_entries m pd tables upage kpage writable :
  pd_ok m pd tables → 0 ≤ upage → pg_ofs upage = 0 → is_user_vaddr upage = true →
  pd ≠ init_page_dir m → flag (pte m tables upage) PTE_P = false →
  PHYS_BASE ≤ kpage → kpage + PGSIZE ≤ 2 ^ 32 → pg_ofs kpage = 0 →
  Z.shiftr (kpage - PHYS_BASE) PTSHIFT < init_ram_pages m →
  ∃ ok m', pagedir_set_page pd upage kpage writable m = Ret (ok, m') ∧
    if (ok : bool) then
      ∃ tables' e, pd_ok m' pd tables' ∧ same_registers m m' ∧ user_pool m' = user_pool m ∧
        (∀ va, pte m' tables' va = if pg_no va =? pg_no upage then e else pte m tables va) ∧
        ∀ va, translate e va = Ret (kpage + pg_ofs va)
    else m' = m ∧ full (kernel_pool m).
Proof.
  intros Hpd Hva Hal Hu Hinit Hnp Hk Hk2 Hka Hram. unfold pagedir_set_page.
  run_by ltac:(apply assert_run; by rewrite Hal). run_by ltac:(apply assert_run; by rewrite Hka).
  run_by ltac:(by apply assert_run). run_by ltac:(rewrite vtop_kernel by lia; done). run_by ltac:(done).
  run_by ltac:(apply assert_run, Z.ltb_lt; done). run_by ltac:(done).
  run_by ltac:(apply assert_run, negb_true_iff, Z.eqb_neq; done).
  destruct (lookup_page_true m pd tables upage Hpd Hva Hu)
    as [[Hrun Hfull]|(pt & m1 & tables1 & Hrun & Hok1 & Ht1 & Hregs & Hup & Hpte)].
  { rewrite (bind_run _ _ _ _ _ Hrun). exists false, m. done. }
  rewrite (bind_run _ _ _ _ _ Hrun), (entry_nonnull m1 pd tables1 upage pt Hok1 Ht1).
  assert (word (ram m1) (pt + 4 * pt_no upage) = pte m tables upage) as Ee.
  { rewrite <-Hpte. unfold pte. by rewrite Ht1. }
  run_by ltac:(done). rewrite Ee.
  run_by ltac:(apply assert_run; unfold flag in Hnp; by apply negb_false_iff in Hnp).
  rewrite pg_ofs_mod in Hka. change PGSIZE with 4096 in Hk2.
  destruct (pte_create_user_run kpage writable Hk Hk2 Hka) as (e & He & Hfit & Htr).
  run_by ltac:(rewrite He; done). run_by ltac:(done). rewrite (wrap_small 32 e) by done.
  eexists true, _. split; [done|]. cbv iota. exists tables1, e.
  split_and!; [by apply pd_ok_store|by destruct Hregs|done| |done]. intros va.
  rewrite (pte_store m1 pd tables1 Hok1 upage pt e Ht1 va). by rewrite Hpte.
Qed.

Lemma pagedir_set_page_spec m pd tables upage kpage writable :
  pd_ok m pd tables → 0 ≤ upage → pg_ofs upage = 0 → is_user_vaddr upage = true →
  pd ≠ init_page_dir m → flag (pte m tables upage) PTE_P = false →
  PHYS_BASE ≤ kpage → kpage + PGSIZE ≤ 2 ^ 32 → pg_ofs kpage = 0 →
  Z.shiftr (kpage - PHYS_BASE) PTSHIFT < init_ram_pages m →
  ∃ ok m', pagedir_set_page pd upage kpage writable m = Ret (ok, m') ∧
    if (ok : bool) then
      (∃ tables', pd_ok m' pd tables') ∧ same_registers m m' ∧
      ∀ va, 0 ≤ va → is_user_vaddr va = true →
        value (pagedir_get_page pd va m') =
          if pg_no va =? pg_no upage then Ret (kpage + pg_ofs va) else value (pagedir_get_page pd va m)
    else m' = m ∧ full (kernel_pool m).
Proof.
  intros Hpd Hva Hal Hu Hinit Hnp Hk Hk2 Hka Hram.
  destruct (pagedir_set_page_entries m pd tables upage kpage writable) as (ok & m' & Hrun & Hres); try done.
  exists ok, m'. split; [done|]. destruct ok; [|done]. destruct Hres as (tables' & e & Hpd' & Hregs & _ & Hpte & Htr).
  split; [by eexists|]. split; [done|]. intros va Hva' Hu'.
  rewrite (proj1 (pagedir_get_page_run _ _ _ va Hpd' Hva' Hu')), (proj1 (pagedir_get_page_run _ _ _ va Hpd Hva' Hu')), Hpte.
  destruct (pg_no va =? pg_no upage); [apply Htr|done].
Qed.

(** C12: mapping a user page that is not mapped.  [pagedir_set_page] either succeeds, and then
    [pagedir_get_page] translates every address of the page to the corresponding address of
    [kpage] and answers for every other user address what it answered before; or it fails and
    changes nothing, which happens only when every page of the kernel pool is in use. *)
Theorem pagedir_set_page_correct m pd tables upage kpage writable :
  pd_ok m pd tables → 0 ≤ upage → pg_ofs upage = 0 → is_user_vaddr upage = true →
  pd ≠ init_page_dir m → flag (pte m tables upage) PTE_P = false →
  PHYS_BASE ≤ kpage → kpage + PGSIZE ≤ 2 ^ 32 → pg_ofs kpage = 0 →
  Z.shiftr (kpage - PHYS_BASE) PTSHIFT < init_ram_pages m →
  ∃ ok m', pagedir_set_page pd upage kpage writable m = Ret (ok, m') ∧
    if (ok : bool) then
      (∃ tables', pd_ok m' pd tables') ∧ same_registers m m' ∧
      ∀ va, 0 ≤ va → is_user_vaddr va = true →
        value (pagedir_get_page pd va m') =
          if pg_no va =? pg_no upage then Ret (kpage + pg_ofs va) else value (pagedir_get_page pd va m)
    else m' = m ∧ full (kernel_pool m).
Proof. apply pagedir_set_page_spec. Qed.

(** A machine whose directory at 0xc0102000 has one page table, at 0xc0103000, which maps
    the user page 0x08048000 to the frame at 0xc0200000. *)
Definition mapped_machine : machine :=
  Machine (Pool (Bitmap 8 [0x0f]) 0xc0101000) (Pool (Bitmap 8 [0xff]) 0xc0200000)
    (<[0xc0102080 := 0x103007]> (<[0xc0103120 := 0x200007]> ∅)) 1024 0xc0101000 0x102000.

Lemma mapped_machine_ok : pd_ok mapped_machine 0xc0102000 {[32 := 0xc0103000]}.
Proof.
  split.
  - split; [split; [split; [done|done|]|..]..|]; try done; repeat constructor; done.
  - done.
  - exists 1. done.
  - intros i pt [<- <-]%lookup_singleton_Some. split; [done|]. split; [by exists 2|done].
  - by intros i j pt [<- _]%lookup_singleton_Some [<- _]%lookup_singleton_Some.
  - intros i Hi. destruct (decide (i = 32)) as [->|].
    + rewrite lookup_singleton_eq. done.
    + rewrite lookup_singleton_ne by done. unfold word, mapped_machine. cbn [ram].
      rewrite !lookup_insert_ne by lia. done.
Qed.

Lemma pagedir_set_page_correct_witness :
  flag (pte mapped_machine {[32 := 0xc0103000]} 0x08049000) PTE_P = false ∧
  ∃ ok m', pagedir_set_page 0xc0102000 0x08049000 0xc0201000 true mapped_machine = Ret (ok, m') ∧
    if (ok : bool) then value (pagedir_get_page 0xc0102000 0x08049123 m') = Ret 0xc0201123 else True.
Proof.
  split; [vm_compute; reflexivity|].
  destruct (pagedir_set_page_correct mapped_machine 0xc0102000 {[32 := 0xc0103000]} 0x08049000 0xc0201000 true
    mapped_machine_ok) as (ok & m' & Hrun & H); [done|done|done|done|vm_compute; reflexivity|done|done|done|done|].
  exists ok, m'. split; [exact Hrun|]. destruct ok; [|exact I]. destruct H as (_ & _ & H).
  apply (H 0x08049123); done.
Defined.

(** Reloading the active directory's base register. *)
Lemma invalidate_pagedir_run pd m : PHYS_BASE ≤ pd < 2 ^ 32 → 0 ≤ cr3 m < 2 ^ 32 - PHYS_BASE →
  invalidate_pagedir pd m = Ret ((), m).
Proof.
  intros Hpd Hc. unfold invalidate_pagedir, active_pd, pagedir_activate.
  assert (ptov (cr3 m) = Ret (cr3 m + PHYS_BASE)) as Hp.
  { unfold ptov, PHYS_BASE in *. rewrite (proj2 (Z.ltb_lt _ _)), wrap_small by (unfold fits; lia). done. }
  run_by ltac:(run_by ltac:(done); rewrite Hp; done).
  destruct (Z.eqb_spec (cr3 m + PHYS_BASE) pd) as [E|]; [|done]. run_by ltac:(done).
  rewrite nonnull_true by (unfold NULL, PHYS_BASE in *; lia). cbn [negb].
  run_by ltac:(rewrite vtop_kernel by lia; done). unfold modify, set_cr3. do 2 f_equal.
  replace (pd - PHYS_BASE) with (cr3 m) by lia. by destruct m.
Qed.

(** Unmapping a page.  After [pagedir_clear_page] no address of the page is translated,
    and every other user address is translated as before. *)
Theorem pagedir_clear_page_correct m pd tables upage :
  pd_ok m pd tables → 0 ≤ upage → pg_ofs upage = 0 → is_user_vaddr upage = true →
  0 ≤ cr3 m < 2 ^ 32 - PHYS_BASE → (∀ va, fits 32 (pte m tables va)) →
  ∃ m', pagedir_clear_page pd upage m = Ret ((), m') ∧ pd_ok m' pd tables ∧ same_registers m m' ∧
    ∀ va, 0 ≤ va → is_user_vaddr va = true →
      value (pagedir_get_page pd va m') =
        if pg_no va =? pg_no upage then Ret NULL else value (pagedir_get_page pd va m).
Proof.
  intros Hpd Hva Hal Hu Hcr Hfit. unfold pagedir_clear_page.
  run_by ltac:(apply assert_run; by rewrite Hal). run_by ltac:(by apply assert_run).
  rewrite (bind_run _ _ _ _ _ (lookup_page_false m pd tables upage Hpd Hva Hu)).
  assert (flag (pte m tables upage) PTE_P = false → ∀ va, 0 ≤ va → is_user_vaddr va = true →
    value (pagedir_get_page pd va m) =
      if pg_no va =? pg_no upage then Ret NULL else value (pagedir_get_page pd va m)) as Hsame.
  { intros Hnp va Hva' Hu'. destruct (Z.eqb_spec (pg_no va) (pg_no upage)) as [E|]; [|done].
    rewrite (proj1 (pagedir_get_page_run _ _ _ va Hpd Hva' Hu')). unfold translate.
    apply page_indices in E as [E1 E2]. unfold pte in *. rewrite E1, E2, Hnp. done. }
  destruct (tables !! pd_no upage) as [pt|] eqn:Ht.
  2: { exists m. split_and!; try done. apply Hsame. unfold pte. by rewrite Ht. }
  rewrite (entry_nonnull m pd tables upage pt Hpd Ht). run_by ltac:(done).
  assert (word (ram m) (pt + 4 * pt_no upage) = pte m tables upage) as E by (unfold pte; by rewrite Ht). rewrite E.
  destruct (flag (pte m tables upage) PTE_P) eqn:Hp; [|exists m; split_and!; try done; by apply Hsame].
  run_by ltac:(done). set (w := u32 _). pose proof (pd_ok_store m pd tables Hpd upage pt w Ht) as Hok2.
  pose proof (in_use_bounds m (pd_palloc _ _ _ Hpd) (pd_base _ _ _ Hpd) pd (pd_use _ _ _ Hpd)) as (? & ? & _).
  exists (set_ram <[pt + 4 * pt_no upage := w]> m). split; [apply invalidate_pagedir_run; [lia|done]|].
  split_and!; [done..|]. intros va Hva' Hu'.
  rewrite (proj1 (pagedir_get_page_run _ _ _ va Hok2 Hva' Hu')), (proj1 (pagedir_get_page_run _ _ _ va Hpd Hva' Hu')).
  rewrite (pte_store m pd tables Hpd upage pt w Ht va).
  destruct (pg_no va =? pg_no upage); [|done]. unfold translate. rewrite flag_P.
  assert (Z.testbit w 0 = false) as ->; [|done]. unfold w.
  rewrite wrap_testbit, Z.land_spec by lia. change (Z.testbit (u32 (Z.lnot PTE_P)) 0) with false.
  rewrite andb_false_r. apply andb_false_r.
Qed.

Lemma pagedir_clear_page_correct_witness :
  ∃ m', pagedir_clear_page 0xc0102000 0x08048000 mapped_machine = Ret ((), m') ∧
    value (pagedir_get_page 0xc0102000 0x08048123 m') = Ret NULL.
Proof.
  destruct (pagedir_clear_page_correct mapped_machine 0xc0102000 {[32 := 0xc0103000]} 0x08048000
    mapped_machine_ok) as (m' & Hrun & _ & _ & H); [done|done|done|done| |].
  - intros va. unfold pte. destruct (decide (pd_no va = 32)) as [->|].
    + rewrite lookup_singleton_eq. unfold word, mapped_machine. cbn [ram]. rewrite !lookup_insert.
      repeat case_decide; simpl; done.
    + rewrite lookup_singleton_ne by done. done.
  - exists m'. split; [exact Hrun|]. apply (H 0x08048123); done.
Defined.

Lemma pagedir_is_mapped_run m pd tables va : pd_ok m pd tables → 0 ≤ va → is_user_vaddr va = true →
  pagedir_is_mapped pd va m = Ret (bool_decide (is_Some (tables !! pd_no va)), m).
Proof.
  intros Hpd Hva Hu. unfold pagedir_is_mapped.
  rewrite (bind_run _ _ _ _ _ (lookup_page_false m pd tables va Hpd Hva Hu)).
  destruct (tables !! pd_no va) as [pt|] eqn:Ht; [|done].
  pose proof (entry_nonnull m pd tables va pt Hpd Ht) as Hn. unfold nonnull in Hn.
  apply negb_true_iff in Hn. by rewrite Hn.
Qed.

(** [pagedir_is_mapped] answers whether the page table of the address exists; so it
    answers true for every address of a 4 MB region as soon as one of its pages has been
    mapped, even where [pagedir_get_page] finds no page. *)
Theorem pagedir_is_mapped_is_table_exists m pd tables va :
  pd_ok m pd tables → 0 ≤ va → is_user_vaddr va = true →
  pagedir_is_mapped pd va m = Ret (bool_decide (is_Some (tables !! pd_no va)), m).
Proof. apply pagedir_is_mapped_run. Qed.

Lemma pagedir_is_mapped_is_table_exists_witness :
  pagedir_is_mapped 0xc0102000 0x08049000 mapped_machine = Ret (true, mapped_machine) ∧
  pagedir_get_page 0xc0102000 0x08049000 mapped_machine = Ret (NULL, mapped_machine).
Proof.
  split; [|vm_compute; reflexivity].
  apply (pagedir_is_mapped_is_table_exists mapped_machine 0xc0102000 {[32 := 0xc0103000]} 0x08049000 mapped_machine_ok);
    done.
Defined.

(** A new page directory is a copy of the initial one, a page nobody else uses, and maps no
    user page; or the answer is null, nothing is changed and no kernel page is left. *)
Theorem pagedir_create_correct m :
  palloc_ok m → PHYS_BASE ≤ base (kernel_pool m) → in_use m (init_page_dir m) →
  (∀ i, 0 ≤ i < 768 → word (ram m) (init_page_dir m + 4 * i) = 0) →
  ∃ pd m', pagedir_create m = Ret (pd, m') ∧
    ((pd = NULL ∧ m' = m ∧ full (kernel_pool m)) ∨
     (pd ≠ init_page_dir m ∧ ¬ in_use m pd ∧ pd_ok m' pd ∅ ∧ same_registers m m' ∧
      ∀ i, 0 ≤ i < 1024 → word (ram m') (pd + 4 * i) = word (ram m) (init_page_dir m + 4 * i))).
Proof.
  intros Hok Hb Hinit Hz. unfold pagedir_create.
  destruct (palloc_get_page_spec 0 m Hok eq_refl eq_refl) as [[Hrun Hfull]|(pd & m1 & Hrun & Hf)];
    rewrite (bind_run _ _ _ _ _ Hrun).
  { eexists _, _. split; [done|]. by left. }
  pose proof Hf as [Hok1 (Hr1 & Hr2 & Hr3 & Hr4) Huse Hnew Hkeep Hram _].
  destruct (in_use_bounds m1 Hok1 ltac:(by rewrite Hr4) pd Huse) as (? & ? & _).
  rewrite nonnull_true by (unfold NULL, PHYS_BASE in *; lia). run_by ltac:(done).
  assert (pd ≠ init_page_dir m) as Hne by (intros ->; exact (Hnew Hinit)).
  eexists pd, _. split; [done|]. right. rewrite Hr2.
  assert (∀ i, 0 ≤ i < 1024 →
    word (copy_words pd (init_page_dir m) 1024 (ram m1)) (pd + 4 * i) = word (ram m) (init_page_dir m + 4 * i)) as Hcopy.
  { intros i Hi. rewrite copy_words_in; [by apply Hram|lia|]. intros j k Hj Hk.
    apply (in_use_apart m1); [done|by apply Hkeep|done|lia|lia]. }
  change (Z.to_nat (PGSIZE / 4)) with 1024%nat. split_and!; [done|done| |done|done].
  split; [by destruct Hok1|cbn; by rewrite Hr4|done|done|done|].
  intros i Hi. rewrite lookup_empty. cbn [ram set_ram]. rewrite Hcopy by lia. by apply Hz.
Qed.

Lemma pagedir_create_correct_witness :
  ∃ pd m', pagedir_create mapped_machine = Ret (pd, m') ∧
    ((pd = NULL ∧ m' = mapped_machine ∧ full (kernel_pool mapped_machine)) ∨
     (pd ≠ init_page_dir mapped_machine ∧ ¬ in_use mapped_machine pd ∧ pd_ok m' pd ∅ ∧
      same_registers mapped_machine m' ∧
      ∀ i, 0 ≤ i < 1024 →
        word (ram m') (pd + 4 * i) = word (ram mapped_machine) (init_page_dir mapped_machine + 4 * i))).
Proof.
  apply pagedir_create_correct; [apply mapped_machine_ok|done|by exists 0|].
  intros i Hi. unfold word, mapped_machine. cbn [ram init_page_dir]. rewrite !lookup_insert_ne by lia. done.
Defined.
