(* ===== verification/Stdio.v ===== *)
(** * Formatted output: src/src/lib/stdio.c, ctype.h, and vprintf of lib/kernel/console.c

    A format is the list of its bytes with the terminator, because every format is a string
    constant; strings that are printed with [%s] are in memory.  The arguments of a call are
    the 32-bit words on the caller's stack, so [va_arg] takes one word for an [int], a [long]
    or a pointer and two for a 64-bit type.  Code that writes output is state passing over
    the memory and the callback's own data [W]. *)
From S2P Require Import Prelude KList CString.

(** ** ctype.h *)

Definition islower (c : Z) : bool := (97 <=? c) && (c <=? 122).
Definition isupper (c : Z) : bool := (65 <=? c) && (c <=? 90).
Definition isalpha (c : Z) : bool := islower c || isupper c.
Definition isdigit (c : Z) : bool := (48 <=? c) && (c <=? 57).
Definition isspace (c : Z) : bool := bool_decide (c ∈ [32; 12; 10; 13; 9; 11]).
Definition isprint (c : Z) : bool := (32 <=? c) && (c <? 127).

(** The code of a character literal, and a string literal with its terminator. *)
Definition chr (s : string) : Z := default 0 (head (of_string s)).
Definition lit (s : string) : list Z := of_string s ++ [0].

(** ** Conversions *)

Definition MINUS : Z := Z.shiftl 1 0.
Definition PLUS : Z := Z.shiftl 1 1.
Definition SPACE : Z := Z.shiftl 1 2.
Definition POUND : Z := Z.shiftl 1 3.
Definition ZERO : Z := Z.shiftl 1 4.
Definition GROUP : Z := Z.shiftl 1 5.

Inductive arg_type := CHAR | SHORT | INT | INTMAX | LONG | LONGLONG | PTRDIFFT | SIZET.

Record printf_conversion := Conversion {
  flags : Z;
  width : Z;
  precision : Z;
  type : arg_type;
}.

Record integer_base := IntegerBase {
  base : Z;
  digits : list Z;
  x : Z;
  group : Z;
}.
Definition base_d := IntegerBase 10 (of_string "0123456789") 0 3.
Definition base_o := IntegerBase 8 (of_string "01234567") 0 3.
Definition base_x := IntegerBase 16 (of_string "0123456789abcdef") (chr "x") 4.
Definition base_X := IntegerBase 16 (of_string "0123456789ABCDEF") (chr "X") 4.

(** [*format] and [format++]. *)
Definition peek (format : list Z) : res Z := match format with [] => Fault | c :: _ => Ret c end.

(** [va_arg] of a 32-bit and of a 64-bit unsigned type. *)
Definition va_arg (args : list Z) : res (Z * list Z) :=
  match args with w :: args => Ret (w, args) | [] => Fault end.
Definition va_arg64 (args : list Z) : res (Z * list Z) :=
  match args with lo :: hi :: args => Ret (lo + 2 ^ 32 * hi, args) | _ => Fault end.

(** *** parse_conversion *)

Fixpoint parse_flags (format : list Z) (flags : Z) : res (list Z * Z) :=
  match format with
  | [] => Fault
  | c :: format' =>
      if c =? chr "-" then parse_flags format' (Z.lor flags MINUS)
      else if c =? chr "+" then parse_flags format' (Z.lor flags PLUS)
      else if c =? chr " " then parse_flags format' (Z.lor flags SPACE)
      else if c =? chr "#" then parse_flags format' (Z.lor flags POUND)
      else if c =? chr "0" then parse_flags format' (Z.lor flags ZERO)
      else if c =? chr "'" then parse_flags format' (Z.lor flags GROUP)
      else Ret (format, flags)
  end.

(** The loops over the digits of a width or a precision. *)
Fixpoint parse_digits (format : list Z) (n : Z) : res (list Z * Z) :=
  match format with
  | [] => Fault
  | c :: format' =>
      if isdigit c then parse_digits format' (s32 (n * 10 + c - chr "0")) else Ret (format, n)
  end.

Definition clear (flags f : Z) : Z := Z.land flags (Z.lnot f).

Definition parse_width (format : list Z) (args : list Z) : res (list Z * Z * list Z) :=
  c ← peek format;
  if c =? chr "*" then
    '(w, args) ← va_arg args; mret (tail format, s32 w, args)
  else
    '(format, w) ← parse_digits format 0; mret (format, w, args).

Definition parse_precision (format : list Z) (args : list Z) : res (list Z * Z * list Z) :=
  c ← peek format;
  if c =? chr "." then
    let format := tail format in
    c ← peek format;
    '(format, p, args) ←
      (if c =? chr "*" then
         '(w, args) ← va_arg args; mret (tail format, s32 w, args)
       else
         '(format, p) ← parse_digits format 0; mret (format, p, args));
    mret (format, if p <? 0 then -1 else p, args)
  else mret (format, -1, args).

Definition parse_type (format : list Z) : res (list Z * arg_type) :=
  c ← peek format;
  let format' := tail format in
  if c =? chr "h" then
    c ← peek format';
    mret (if c =? chr "h" then (tail format', CHAR) else (format', SHORT))
  else if c =? chr "j" then mret (format', INTMAX)
  else if c =? chr "l" then
    c ← peek format';
    mret (if c =? chr "l" then (tail format', LONGLONG) else (format', LONG))
  else if c =? chr "t" then mret (format', PTRDIFFT)
  else if c =? chr "z" then mret (format', SIZET)
  else mret (format, INT).

Definition parse_conversion (format : list Z) (args : list Z)
    : res (list Z * printf_conversion * list Z) :=
  '(format, flags) ← parse_flags format 0;
  let flags := if flag flags MINUS then clear flags ZERO else flags in
  let flags := if flag flags PLUS then clear flags SPACE else flags in
  '(format, width, args) ← parse_width format args;
  let '(width, flags) := if width <? 0 then (s32 (- width), Z.lor flags MINUS) else (width, flags) in
  '(format, precision, args) ← parse_precision format args;
  let flags := if precision >=? 0 then clear flags ZERO else flags in
  '(format, type) ← parse_type format;
  mret (format, Conversion flags width precision type, args).

(** *** Output *)

Section output.
Context {W : Type}.
Abbreviation O := (ST (mem * W)).
Context (output : Z → O ()).

(** Code that works on the memory. *)
Definition on_mem {A} (f : M A) : O A := λ '(m, w),
  match f m with
  | Ret (a, m') => Ret (a, (m', w))
  | Panic => Panic
  | Fault => Fault
  | NoFuel => NoFuel
  end.

Definition output_dup (ch cnt : Z) : O () := for_each (Z.to_nat cnt) 0 (λ _, output ch).

(** [buf] has room for 64 characters. *)
Definition push (buf : list Z) (ch : Z) : res (list Z) :=
  if (length buf <? 64)%nat then Ret (buf ++ [ch]) else Fault.

(** The loop that accumulates the digits: [fuel] iterations of [while (value > 0)]. *)
Fixpoint digit_loop (fuel : nat) (b : integer_base) (c : printf_conversion) (value digit_cnt : Z)
    (buf : list Z) : res (list Z) :=
  match fuel with
  | 0%nat => NoFuel
  | S fuel =>
      if value >? 0 then
        buf ← (if flag (flags c) GROUP && (digit_cnt >? 0) && (Z.rem digit_cnt (group b) =? 0)
               then push buf (chr ",") else Ret buf);
        d ← (match digits b !! Z.to_nat (value mod base b) with Some d => Ret d | None => Fault end);
        buf ← push buf d;
        digit_loop fuel b c (value / base b) (digit_cnt + 1) buf
      else Ret buf
  end.

(** [while (cp - buf < precision && cp < buf + sizeof buf - 1)]. *)
Fixpoint zero_loop (fuel : nat) (precision : Z) (buf : list Z) : res (list Z) :=
  match fuel with
  | 0%nat => NoFuel
  | S fuel =>
      if (Z.of_nat (length buf) <? precision) && (length buf <? 63)%nat then
        buf ← push buf (chr "0"); zero_loop fuel precision buf
      else Ret buf
  end.

(** A 64-bit value has at most 64 digits, and the second loop stops at 63 characters. *)
Definition integer_buf (value : Z) (b : integer_base) (c : printf_conversion) : res (list Z) :=
  buf ← digit_loop 65 b c value 0 [];
  let precision := if precision c <? 0 then 1 else precision c in
  buf ← zero_loop 65 precision buf;
  if flag (flags c) POUND && (base b =? 8) && (bool_decide (last buf ≠ Some (chr "0"))) then push buf (chr "0")
  else Ret buf.

Definition sign_char (is_signed negative : bool) (c : printf_conversion) : Z :=
  if is_signed then
    if flag (flags c) PLUS then if negative then chr "-" else chr "+"
    else if flag (flags c) SPACE then if negative then chr "-" else chr " "
    else if negative then chr "-" else 0
  else 0.

Fixpoint output_all (chars : list Z) : O () :=
  match chars with [] => mret () | ch :: chars => output ch;; output_all chars end.

Definition format_integer (value : Z) (is_signed negative : bool) (b : integer_base) (c : printf_conversion)
    : O () :=
  let sign := sign_char is_signed negative c in
  let x := if flag (flags c) POUND && negb (value =? 0) then x b else 0 in
  buf ← lift (integer_buf value b c);
  let pad_cnt := s32 (width c - Z.of_nat (length buf) - (if x =? 0 then 0 else 2) - (if sign =? 0 then 0 else 1)) in
  let pad_cnt := if pad_cnt <? 0 then 0 else pad_cnt in
  (if Z.land (flags c) (Z.lor MINUS ZERO) =? 0 then output_dup (chr " ") pad_cnt else mret ());;
  (if sign =? 0 then mret () else output sign);;
  (if x =? 0 then mret () else output (chr "0");; output x);;
  (if flag (flags c) ZERO then output_dup (chr "0") pad_cnt else mret ());;
  output_all (rev buf);;
  (if flag (flags c) MINUS then output_dup (chr " ") pad_cnt else mret ()).

(** [string] reads a character of the string. *)
Definition format_string (string : Z → O Z) (length : Z) (c : printf_conversion) : O () :=
  (if (width c >? length) && negb (flag (flags c) MINUS)
   then output_dup (chr " ") (width c - length) else mret ());;
  for_each (Z.to_nat length) 0 (λ i, ch ← string i; output ch);;
  (if (width c >? length) && flag (flags c) MINUS
   then output_dup (chr " ") (width c - length) else mret ()).

Definition in_literal (s : list Z) (i : Z) : O Z :=
  lift (match s !! Z.to_nat i with Some c => Ret c | None => Fault end).

(** The argument of a signed and of an unsigned integer conversion. *)
Definition signed_arg (type : arg_type) (args : list Z) : res (Z * list Z) :=
  match type with
  | CHAR => '(w, args) ← va_arg args; mret (swrap 8 w, args)
  | SHORT => '(w, args) ← va_arg args; mret (swrap 16 w, args)
  | INT | LONG | PTRDIFFT => '(w, args) ← va_arg args; mret (s32 w, args)
  | INTMAX | LONGLONG => '(w, args) ← va_arg64 args; mret (s64 w, args)
  | SIZET => '(w, args) ← va_arg args; mret (if w >? (2 ^ 32 - 1) / 2 then w - 2 ^ 32 else w, args)
  end.
Definition unsigned_arg (type : arg_type) (args : list Z) : res (Z * list Z) :=
  match type with
  | CHAR => '(w, args) ← va_arg args; mret (u8 w, args)
  | SHORT => '(w, args) ← va_arg args; mret (u16 w, args)
  | INT | LONG | SIZET => va_arg args
  | INTMAX | LONGLONG => va_arg64 args
  | PTRDIFFT => '(w, args) ← va_arg args; mret (Z.land (u64 (s32 w)) (Z.lor (Z.shiftl (2 ^ 31 - 1) 1) 1), args)
  end.

Definition chr_in (c : Z) (s : string) : bool := bool_decide (c ∈ of_string s).

(** One conversion, after [parse_conversion]; [error] prints the message for a character that
    is no conversion. *)
Definition convert (error : list Z → Z → O ()) (ch : Z) (c : printf_conversion) (args : list Z) : O (list Z) :=
  if chr_in ch "di" then
    '(value, args) ← lift (signed_arg (type c) args);
    format_integer (if value <? 0 then u64 (- value) else value) true (value <? 0) base_d c;;
    mret args
  else if chr_in ch "ouxX" then
    '(value, args) ← lift (unsigned_arg (type c) args);
    let b := if ch =? chr "o" then base_o else if ch =? chr "u" then base_d
             else if ch =? chr "x" then base_x else base_X in
    format_integer value false false b c;;
    mret args
  else if ch =? chr "c" then
    '(w, args) ← lift (va_arg args);
    format_string (in_literal [u8 w]) 1 c;;
    mret args
  else if ch =? chr "s" then
    '(s, args) ← lift (va_arg args);
    (if s =? NULL then
       let null := lit "(null)" in
       let length := if 0 <=? precision c then Z.min (precision c) 6 else 6 in
       format_string (in_literal null) length c
     else
       length ← on_mem (strnlen s (u32 (precision c)));
       format_string (λ i, on_mem (ldb (s + i))) length c);;
    mret args
  else if ch =? chr "p" then
    '(p, args) ← lift (va_arg args);
    format_integer p false false base_x (Conversion POUND (width c) (precision c) (type c));;
    mret args
  else if chr_in ch "feEgGn" then error (lit "<<no %%%c in kernel>>") ch;; mret args
  else error (lit "<<no %%%c conversion>>") ch;; mret args.

(** [__vprintf], with at most [depth] nested calls: an erroneous conversion calls [__printf],
    whose format has no erroneous conversion. *)
Fixpoint vprintf_at (depth : nat) (format : list Z) (args : list Z) : O () :=
  match depth with
  | 0%nat => λ _, NoFuel
  | S depth =>
      loop (S (length format)) (λ '(format, args),
        ch ← lift (peek format);
        if ch =? 0 then mret (Stop ())
        else if negb (ch =? chr "%") then output ch;; mret (Next (tail format, args))
        else
          let format := tail format in
          ch ← lift (peek format);
          if ch =? chr "%" then output (chr "%");; mret (Next (tail format, args))
          else
            '(format, c, args) ← lift (parse_conversion format args);
            ch ← lift (peek format);
            args ← convert (λ message ch, vprintf_at depth message [ch]) ch c args;
            mret (Next (tail format, args))) (format, args)
  end.
Definition vprintf_ (format : list Z) (args : list Z) : O () := vprintf_at 2 format args.
Definition printf_ : list Z → list Z → O () := vprintf_.
End output.

(** ** Output to a buffer *)

Record vsnprintf_aux := Aux { p : Z; length_ : Z; max_length : Z }.

Definition vsnprintf_helper (ch : Z) : ST (mem * vsnprintf_aux) () :=
  '(Aux p length max_length) ← gets snd;
  if length <? max_length then
    on_mem (stb p ch);; modify (λ '(m, _), (m, Aux (p + 1) (s32 (length + 1)) max_length))
  else modify (λ '(m, _), (m, Aux p (s32 (length + 1)) max_length)).

Definition vsnprintf (buffer buf_size : Z) (format : list Z) (args : list Z) : M Z := λ m,
  let max_length := s32 (if buf_size >? 0 then buf_size - 1 else 0) in
  '(_, (m, aux)) ← vprintf_ vsnprintf_helper format args (m, Aux buffer 0 max_length);
  '(_, m) ← (if buf_size >? 0 then stb (p aux) 0 else mret ()) m;
  mret (length_ aux, m).
Definition snprintf : Z → Z → list Z → list Z → M Z := vsnprintf.

(** ** Output to the console

    The console as the running thread sees it: whether it runs in an interrupt handler,
    whether locking is enabled, whether it holds the console lock and how often more it
    took it, and the characters sent to the serial port and the display. *)
Record console := Console {
  in_intr : bool;
  use_console_lock : bool;
  console_lock_held : bool;
  console_lock_depth : Z;
  write_cnt : Z;
  shown : list Z;
}.
Abbreviation C := (ST (mem * console)).

Definition console_init (c : console) : console :=
  Console (in_intr c) true false (console_lock_depth c) (write_cnt c) (shown c).
Definition console_panic (c : console) : console :=
  Console (in_intr c) false (console_lock_held c) (console_lock_depth c) (write_cnt c) (shown c).

(** [lock_acquire] returns when the lock is the thread's; [lock_release] asserts that it is. *)
Definition acquire_console (c : console) : console :=
  if negb (in_intr c) && use_console_lock c then
    if console_lock_held c then
      Console (in_intr c) (use_console_lock c) true (console_lock_depth c + 1) (write_cnt c) (shown c)
    else Console (in_intr c) (use_console_lock c) true (console_lock_depth c) (write_cnt c) (shown c)
  else c.
Definition release_console (c : console) : res console :=
  if negb (in_intr c) && use_console_lock c then
    if console_lock_depth c >? 0 then
      Ret (Console (in_intr c) (use_console_lock c) (console_lock_held c) (console_lock_depth c - 1)
             (write_cnt c) (shown c))
    else if console_lock_held c then
      Ret (Console (in_intr c) (use_console_lock c) false (console_lock_depth c) (write_cnt c) (shown c))
    else Panic
  else Ret c.
Definition console_locked_by_current_thread (c : console) : bool :=
  in_intr c || negb (use_console_lock c) || console_lock_held c.

Definition putchar_have_lock (ch : Z) (c : console) : res console :=
  if console_locked_by_current_thread c then
    Ret (Console (in_intr c) (use_console_lock c) (console_lock_held c) (console_lock_depth c)
           (s64 (write_cnt c + 1)) (shown c ++ [u8 ch]))
  else Panic.

Definition vprintf_helper (ch : Z) : ST (mem * (console * Z)) () := λ '(m, (c, char_cnt)),
  c ← putchar_have_lock ch c; mret ((), (m, (c, s32 (char_cnt + 1)))).

Definition vprintf (format : list Z) (args : list Z) : C Z := λ '(m, c),
  '(_, (m, (c, char_cnt))) ← vprintf_ vprintf_helper format args (m, (acquire_console c, 0));
  c ← release_console c;
  mret (char_cnt, (m, c)).
Definition printf : list Z → list Z → C Z := vprintf.

Definition put (ch : Z) : C () := λ '(m, c), c ← putchar_have_lock ch c; mret ((), (m, c)).
Definition acquire : C () := modify (λ '(m, c), (m, acquire_console c)).
Definition release : C () := λ '(m, c), c ← release_console c; mret ((), (m, c)).

Definition puts (s : Z) : C Z :=
  acquire;;
  (λ '(m, c), loop (S (size m)) (λ s,
     ch ← on_mem (ldb s);
     if ch =? 0 then mret (Stop ()) else put ch;; mret (Next (s + 1))) s (m, c));;
  put (chr (String (Ascii.ascii_of_nat 10) EmptyString));;
  release;;
  mret 0.

Definition putbuf (buffer n : Z) : C () :=
  acquire;;
  for_each (Z.to_nat n) 0 (λ i, ch ← on_mem (ldb (buffer + i)); put ch);;
  release.

Definition putchar (c : Z) : C Z := acquire;; put c;; release;; mret c.

Definition print (s : string) : C () := _ ← printf (lit s) []; mret ().

(** [for (i = from; i < to; i++)]. *)
Definition for_range (from to : Z) (body : Z → C ()) : C () := for_each (Z.to_nat (to - from)) from body.

Definition newline : list Z := [10; 0].

(** One line of [hex_dump]. *)
Definition hex_dump_line (ofs buf start end_ : Z) (ascii : bool) : C () :=
  let per_line := 16 in
  _ ← printf (lit "%08jx  ") [ofs / per_line * per_line; 0];
  for_range 0 start (λ _, print "   ");;
  for_range start end_ (λ i,
    b ← on_mem (ldb (buf + (i - start)));
    _ ← printf (lit "%02hhx%c") [b; if i =? per_line / 2 - 1 then chr "-" else chr " "]; mret ());;
  (if ascii then
     for_range end_ per_line (λ _, print "   ");;
     print "|";;
     for_range 0 start (λ _, print " ");;
     for_range start end_ (λ i,
       b ← on_mem (ldb (buf + (i - start)));
       _ ← printf (lit "%c") [if isprint b then b else chr "."]; mret ());;
     for_range end_ per_line (λ _, print " ");;
     print "|"
   else mret ());;
  _ ← printf newline []; mret ().

Definition hex_dump (ofs buf size : Z) (ascii : bool) : C () :=
  loop (S (Z.to_nat size)) (λ '(ofs, buf, size),
    if size >? 0 then
      let per_line := 16 in
      let start := ofs mod per_line in
      let end_ := if per_line - start >? size then start + size else per_line in
      let n := end_ - start in
      hex_dump_line ofs buf start end_ ascii;;
      mret (Next (u32 (ofs + n), buf + n, size - n))
    else mret (Stop ())) (ofs, buf, size).

(** [for (fp = factors; size >= 1024 && fp[1] != NULL; fp++)]. *)
Fixpoint scale (size : Z) (f : string) (factors : list string) : Z * string :=
  match factors with
  | f' :: factors => if size >=? 1024 then scale (size / 1024) f' factors else (size, f)
  | [] => (size, f)
  end.
(** [factor_at] gives the addresses of the constant strings of [factors]. *)
Definition print_human_readable_size (factor_at : string → Z) (size : Z) : C () :=
  if size =? 1 then print "1 byte"
  else
    let '(size, f) := scale size "bytes" ["kB"; "MB"; "GB"; "TB"] in
    _ ← printf (lit "%llu %s") [size mod 2 ^ 32; size / 2 ^ 32; factor_at f]; mret ().

(** ** What is printed

    The characters a call prints, in order, as a run with a callback that collects them. *)
Definition collect (ch : Z) : ST (mem * list Z) () := modify (λ '(m, out), (m, out ++ [u8 ch])).
Definition printed (m : mem) (format : list Z) (args : list Z) : res (list Z) :=
  '(_, (_, out)) ← vprintf_ collect format args (m, []); mret out.

Example printed_int : printed ∅ (lit "%d|%5d|%-5d|%05d|%+d|%x|%'u|%#o") [42; 42; 42; u32 (-42); 7; 48879; 1234567; 8]
  = Ret (of_string "42|   42|42   |-0042|+7|beef|1,234,567|010").
Proof. vm_compute. reflexivity. Qed.
Example printed_bad : printed ∅ (lit "%q%%%n") [] = Ret (of_string "<<no %q conversion>>%<<no %n in kernel>>").
Proof. vm_compute. reflexivity. Qed.
Example printed_string : printed (write 100 (lit "pintos") ∅) (lit "[%8s][%-8.3s][%s]%c") [100; 100; 0; 33]
  = Ret (of_string "[  pintos][pin     ][(null)]!").
Proof. vm_compute. reflexivity. Qed.
