(* ===== verification/StdioProofs.v ===== *)
(** * Formatted output: what is printed, and where it goes

    First, the output of [__vprintf] does not depend on the callback: whatever is done with
    the characters, they are the ones that the collecting run gives, as long as the callback
    leaves the printed strings alone.  Then the digits of [format_integer].  The claims are
    about [snprintf] and [printf]. *)
From S2P Require Import Prelude KList CString CStringProofs Stdio.

(** ** Code that only reads *)

(** [f] run on a part [md] of the memory does the same on the whole of it. *)
Definition reads {A} (f : M A) : Prop := ∀ md m a md',
  md ⊆ m → f md = Ret (a, md') → md' = md ∧ f m = Ret (a, m).

Lemma reads_ret {A} (a : A) : reads (mret a).
Proof. by intros md m ? ? _ [= <- <-]. Qed.
Lemma reads_bind {A B} (f : M A) (g : A → M B) : reads f → (∀ a, reads (g a)) → reads (f ≫= g).
Proof.
  intros Hf Hg md m b md' Hs. unfold mbind, ST_bind. destruct (f md) as [[a md1]| | |] eqn:E; try done.
  destruct (Hf _ _ _ _ Hs E) as [-> ->]. by apply Hg.
Qed.
Lemma reads_ldb p : reads (ldb p).
Proof.
  intros md m a md' Hs. unfold ldb. destruct (md !! p) as [b|] eqn:E; [|done]. intros [= <- <-].
  by rewrite (lookup_weaken _ _ _ _ E Hs).
Qed.

(** More fuel gives the same result. *)
Lemma reads_loop {A B} (body : A → M (ctl A B)) : (∀ a, reads (body a)) →
  ∀ n n' a md m b md', md ⊆ m → (n ≤ n')%nat → loop n body a md = Ret (b, md') →
    md' = md ∧ loop n' body a m = Ret (b, m).
Proof.
  intros Hb n. induction n as [|n IH]; intros [|n'] a md m b md' Hs Hn; try done; [lia|].
  cbn [loop]. unfold mbind, ST_bind. destruct (body a md) as [[r md1]| | |] eqn:E; try done.
  destruct (Hb a _ _ _ _ Hs E) as [-> ->]. destruct r as [a'|b'].
  - apply IH; [done|lia].
  - by intros [= <- <-].
Qed.
Lemma reads_scan {A B} (body : A → M (ctl A B)) a : (∀ a, reads (body a)) → reads (scan body a).
Proof.
  intros Hb md m b md' Hs. apply reads_loop; [done..|]. apply le_n_S, map_subseteq_size, Hs.
Qed.
Lemma reads_strnlen p n : reads (strnlen p n).
Proof.
  apply reads_scan. intros i. apply reads_bind; [apply reads_ldb|]. intros c.
  destruct (_ && _); apply reads_ret.
Qed.

(** ** The output does not depend on the callback *)

Section sim.
Context {W : Type} (md : mem) (Rel : list Z → mem * W → Prop) (output : Z → ST (mem * W) ()).
Context (Rel_mem : ∀ l s, Rel l s → md ⊆ s.1).
(** The callback is described for at most [N] characters. *)
Context (N : Z) (Rel_output : ∀ l s ch, Z.of_nat (length l) < N → Rel l s →
  ∃ s', output ch s = Ret ((), s') ∧ Rel (l ++ [u8 ch]) s').

Definition sim {A} (f : ST (mem * list Z) A) (g : ST (mem * W) A) : Prop := ∀ l a md' l',
  f (md, l) = Ret (a, (md', l')) → md' = md ∧ (length l ≤ length l')%nat ∧
    (Z.of_nat (length l') ≤ N → ∀ s, Rel l s → ∃ s', g s = Ret (a, s') ∧ Rel l' s').

Lemma sim_ret {A} (a : A) : sim (mret a) (mret a).
Proof. intros l ? ? ? [= <- <- <-]. eauto. Qed.

Lemma sim_bind {A B} f g (f' : A → ST (mem * list Z) B) g' :
  sim f g → (∀ a, sim (f' a) (g' a)) → sim (f ≫= f') (g ≫= g').
Proof.
  intros H H' l b md' l'. unfold mbind, ST_bind.
  destruct (f (md, l)) as [[a [md1 l1]]| | |] eqn:E; try done.
  destruct (H _ _ _ _ E) as (-> & Hl & HR). intros E'. destruct (H' _ _ _ _ _ E') as (-> & Hl' & HR').
  split_and!; [done|lia|]. intros HN s Hs. destruct (HR ltac:(lia) s Hs) as (s1 & -> & HR1). by apply HR'.
Qed.

Lemma sim_lift {A} (r : res A) : sim (lift r) (lift r).
Proof. intros l a md' l'. unfold lift. destruct r; try done. intros [= <- <- <-]. eauto. Qed.

Lemma sim_output ch : sim (collect ch) (output ch).
Proof.
  intros l a md' l' [= <- <- <-]. rewrite length_app. simpl. split_and!; [done|lia|].
  intros HN s Hs. apply Rel_output; [lia|done].
Qed.

Lemma sim_reads {A} (f : M A) : reads f → sim (on_mem f) (on_mem f).
Proof.
  intros Hf l a md' l'. unfold on_mem. destruct (f md) as [[a1 md1]| | |] eqn:E; try done. intros [= <- <- <-].
  split_and!; [by eapply Hf|lia|]. intros _ [m w] Hs. 
  destruct (Hf _ m _ _ (Rel_mem _ _ Hs) E) as [-> ->]. eauto.
Qed.

Lemma sim_for_each f g n : ∀ from, (∀ i, sim (f i) (g i)) → sim (for_each n from f) (for_each n from g).
Proof.
  induction n as [|n IH]; intros from H; cbn [for_each]; [apply sim_ret|].
  apply sim_bind; [done|]. intros _. by apply IH.
Qed.

Lemma sim_loop {A B} (f : A → ST _ (ctl A B)) g n : ∀ a, (∀ a, sim (f a) (g a)) → sim (loop n f a) (loop n g a).
Proof.
  induction n as [|n IH]; intros a H; cbn [loop]; [by intros ? ? ? ? |].
  apply sim_bind; [done|]. intros [a'|b]; [by apply IH|apply sim_ret].
Qed.

Lemma sim_output_dup ch n : sim (output_dup collect ch n) (output_dup output ch n).
Proof. apply sim_for_each. intros _. apply sim_output. Qed.

Lemma sim_output_all l : sim (output_all collect l) (output_all output l).
Proof. induction l; cbn [output_all]; [apply sim_ret|]. apply sim_bind; [apply sim_output|done]. Qed.

Lemma sim_when (b : bool) f g f' g' : sim (A:=()) f g → sim f' g' → sim (if b then f else f') (if b then g else g').
Proof. by destruct b. Qed.

(** Compares two runs of the same code, one command at a time. *)
Ltac sim_step :=
  lazymatch goal with
  | |- sim (mret _) _ => apply sim_ret
  | |- sim (lift _) _ => apply sim_lift
  | |- sim (collect _) _ => apply sim_output
  | |- sim (output_dup _ _ _) _ => apply sim_output_dup
  | |- sim (output_all _ _) _ => apply sim_output_all
  | |- sim (on_mem (strnlen _ _)) _ => apply sim_reads, reads_strnlen
  | |- sim (on_mem (ldb _)) _ => apply sim_reads, reads_ldb
  | |- sim (for_each _ _ _) _ => apply sim_for_each; intros ?
  | |- sim (loop _ _ _) _ => apply sim_loop; intros ?
  | |- sim (_ ≫= _) _ => apply sim_bind; [|intros ?]
  | |- sim (if ?b then _ else _) _ => destruct b
  | |- sim (match ?a with (_, _) => _ end) _ => destruct a
  | |- sim (match ?a with (_, _) => _ end _) _ => destruct a
  end.
Ltac sim_run := repeat (cbv zeta; sim_step).

Lemma sim_format_integer v s n b c : sim (format_integer collect v s n b c) (format_integer output v s n b c).
Proof. unfold format_integer. sim_run. Qed.

Lemma sim_format_string str str' n c : (∀ i, sim (str i) (str' i)) →
  sim (format_string collect str n c) (format_string output str' n c).
Proof. intros. unfold format_string. sim_run; done. Qed.

Lemma sim_convert e e' ch c args : (∀ msg ch, sim (e msg ch) (e' msg ch)) →
  sim (convert collect e ch c args) (convert output e' ch c args).
Proof.
  intros He. unfold convert.
  sim_run; (apply sim_format_integer || apply He || (apply sim_format_string; intros ?; unfold in_literal; sim_run)).
Qed.

Lemma sim_vprintf_at depth : ∀ format args,
  sim (vprintf_at collect depth format args) (vprintf_at output depth format args).
Proof.
  induction depth as [|d IH]; intros format args; cbn [vprintf_at]; [by intros ? ? ? ?|].
  sim_run. by apply sim_convert.
Qed.

(** The characters of the collecting run are the ones the callback gets, in order. *)
Lemma vprintf_sim format args l s : printed md format args = Ret l → Z.of_nat (length l) ≤ N → Rel [] s →
  ∃ s', vprintf_ output format args s = Ret ((), s') ∧ Rel l s'.
Proof.
  unfold printed. intros Hp HN HR.
  destruct (vprintf_ collect format args (md, [])) as [[[] [md' l']]| | |] eqn:E; try done.
  injection Hp as ->. destruct (sim_vprintf_at 2 _ _ _ _ _ _ E) as (_ & _ & H). by apply H.
Qed.
End sim.

(** The characters printed are bytes. *)
Lemma printed_bytes m format args l : printed m format args = Ret l → Forall byte l.
Proof.
  intros Hp. destruct (vprintf_sim m (λ l s, m ⊆ s.1 ∧ Forall byte l) collect) with
    (N := Z.of_nat (length l)) (format := format) (args := args) (l := l) (s := (m, @nil Z))
    as (s' & _ & _ & H); try done.
  - by intros ? ? [? _].
  - intros l1 [m1 o1] ch _ [Hs Hb]. eexists. split; [done|]. split; [done|].
    apply Forall_app. split; [done|]. constructor; [by apply wrap_fits|done].
Qed.

(** ** snprintf *)

Section vsnprintf.
Context (m md : mem) (buffer size : Z) (Hs : 0 < size ≤ 2 ^ 31).
Context (Hbuf : mapped m buffer size) (Hmd : md ⊆ m) (Hap : ∀ a, buffer ≤ a < buffer + size → md !! a = None).

Definition stored (l : list Z) : list Z := take (Z.to_nat (size - 1)) l.

(** After the characters [l]. *)
Definition vs_rel (l : list Z) (s : mem * vsnprintf_aux) : Prop :=
  Forall byte l ∧
  s = (write buffer (stored l) m,
       Aux (buffer + Z.of_nat (length (stored l))) (Z.of_nat (length l)) (size - 1)).

Lemma stored_length l : Z.of_nat (length (stored l)) = Z.min (size - 1) (Z.of_nat (length l)).
Proof. unfold stored. rewrite length_take. lia. Qed.

Lemma mapped_write l a : is_Some (m !! a) → is_Some (write buffer l m !! a).
Proof.
  intros Ha. rewrite write_lookup. case_decide; [|done]. apply lookup_lt_is_Some_2. lia.
Qed.

Lemma vs_output l s ch : Z.of_nat (length l) < 2 ^ 31 - 1 → vs_rel l s →
  ∃ s', vsnprintf_helper ch s = Ret ((), s') ∧ vs_rel (l ++ [u8 ch]) s'.
Proof.
  intros Hl [Hb ->]. unfold vsnprintf_helper. run_by ltac:(done). cbn [snd].
  assert (Forall byte (l ++ [u8 ch])) by (apply Forall_app; split; [done|]; constructor; [by apply wrap_fits|done]).
  rewrite swrap_small by lia.
  assert (Z.of_nat (length (l ++ [u8 ch])) = Z.of_nat (length l) + 1) as Hl' by (rewrite length_app; simpl; lia).
  pose proof (stored_length l) as Hst. destruct (Z.ltb_spec (Z.of_nat (length l)) (size - 1)) as [Hlt|Hge].
  - assert (stored l = l) as E by (unfold stored; apply take_ge; lia). rewrite E.
    assert (stored (l ++ [u8 ch]) = l ++ [u8 ch]) as E' by (unfold stored; apply take_ge; lia).
    eexists. split.
    + erewrite bind_run; [done|]. unfold on_mem, stb.
      destruct (mapped_write l (buffer + Z.of_nat (length l))) as [? ->]; [apply Hbuf; lia|done].
    + unfold vs_rel. split; [done|]. rewrite E', write_snoc, Hl'. do 2 f_equal. lia.
  - eexists. split; [done|]. unfold vs_rel. split; [done|].
    assert (stored (l ++ [u8 ch]) = stored l) as -> by (unfold stored; rewrite take_app_le by lia; done).
    by rewrite Hl'.
Qed.

Lemma vs_mem l s : vs_rel l s → md ⊆ s.1.
Proof.
  intros [_ ->]. apply map_subseteq_spec. intros a b Ha. cbn [fst]. pose proof (stored_length l).
  rewrite write_out; [by eapply lookup_weaken|]. intros Hin. rewrite Hap in Ha by lia. done.
Qed.

Lemma vsnprintf_spec format args l : printed md format args = Ret l → Z.of_nat (length l) < 2 ^ 31 →
  vsnprintf buffer size format args m =
    Ret (Z.of_nat (length l), write buffer (stored l ++ [0]) m).
Proof.
  intros Hp Hl. unfold vsnprintf. rewrite Z.gtb_ltb, (proj2 (Z.ltb_lt 0 size)) by lia.
  rewrite swrap_small by lia.
  destruct (vprintf_sim md vs_rel vsnprintf_helper vs_mem (2 ^ 31 - 1) vs_output format args l
    (m, Aux buffer 0 (size - 1)) Hp ltac:(lia)) as (s' & Hrun & _ & ->).
  { split; [done|]. unfold stored. rewrite take_nil. simpl. by rewrite Z.add_0_r. }
  rewrite Hrun. simpl. pose proof (stored_length l).
  unfold stb. destruct (mapped_write (stored l) (buffer + Z.of_nat (length (stored l)))) as [? ->];
    [apply Hbuf; lia|]. simpl. by rewrite write_snoc.
Qed.
End vsnprintf.

(** ** Digits *)

(** The value of a list of digits, the least significant one first. *)
Fixpoint num (base : Z) (ds : list Z) : Z :=
  match ds with [] => 0 | d :: ds => d + base * num base ds end.

(** [cs] are the digits of [v] in the base [b], least significant first, without leading zeros;
    [ds] are their values. *)
Record digits_of (b : integer_base) (v : Z) (ds cs : list Z) : Prop := DigitsOf {
  do_num : num (base b) ds = v;
  do_range : Forall (λ d, 0 ≤ d < base b) ds;
  do_top : last ds ≠ Some 0;
  do_chars : Forall2 (λ d c, digits b !! Z.to_nat d = Some c) ds cs;
}.

(** A base whose first digit, and no other, is ['0']. *)
Definition base_ok (b : integer_base) : Prop :=
  2 ≤ base b ∧ Z.of_nat (length (digits b)) = base b ∧ 0 < group b ∧
  head (digits b) = Some (chr "0") ∧ chr "0" ∉ tail (digits b).

Lemma base_d_ok : base_ok base_d. Proof. by_evaluation. Qed.
Lemma base_o_ok : base_ok base_o. Proof. by_evaluation. Qed.
Lemma base_x_ok : base_ok base_x. Proof. by_evaluation. Qed.
Lemma base_X_ok : base_ok base_X. Proof. by_evaluation. Qed.

Lemma digits_of_cons b v ds cs d : base_ok b → 0 < v → digits b !! Z.to_nat (v mod base b) = Some d →
  digits_of b (v / base b) ds cs → digits_of b v (v mod base b :: ds) (d :: cs).
Proof.
  intros (Hb & _) Hv Hd [Hn Hr Ht Hc]. split.
  - simpl. rewrite Hn. pose proof (Z.div_mod v (base b)). lia.
  - constructor; [apply Z.mod_pos_bound; lia|done].
  - destruct ds as [|d' ds]; [|done]. simpl in *. intros [= E]. pose proof (Z.div_mod v (base b)). nia.
  - by constructor.
Qed.

(** The digits [cs], the first of which has the position [i], with a comma between groups of
    [g]: before each digit whose position is a positive multiple of [g]. *)
Fixpoint grouped (g i : Z) (cs : list Z) : list Z :=
  match cs with
  | [] => []
  | c :: cs => (if (0 <? i) && (i mod g =? 0) then [chr ","; c] else [c]) ++ grouped g (i + 1) cs
  end.

Section digit_loop.
Context (b : integer_base) (c : printf_conversion) (Hb : base_ok b).

Lemma push_run buf ch : (length buf < 64)%nat → push buf ch = Ret (buf ++ [ch]).
Proof. intros. unfold push. by rewrite (proj2 (Nat.ltb_lt _ _)). Qed.

Definition with_groups (i : Z) (cs : list Z) : list Z :=
  if flag (flags c) GROUP then grouped (group b) i cs else cs.

Lemma digit_loop_spec k : ∀ fuel v cnt buf, (k < fuel)%nat → 0 ≤ v < base b ^ Z.of_nat k →
  (length buf + 2 * k ≤ 64)%nat → 0 ≤ cnt →
  ∃ ds cs, digit_loop fuel b c v cnt buf = Ret (buf ++ with_groups cnt cs) ∧ digits_of b v ds cs ∧
    (length (with_groups cnt cs) ≤ 2 * k)%nat.
Proof.
  assert (∀ i, with_groups i [] = []) as Hnil by (intros; unfold with_groups; by destruct (flag _ _)).
  induction k as [|k IH]; intros [|fuel] v cnt buf Hf Hv Hl Hcnt; try lia; cbn [digit_loop].
  - assert (v = 0) as -> by (simpl in Hv; lia). exists [], []. rewrite Hnil, app_nil_r. by split_and!; [|split; try constructor|..].
  - rewrite Z.gtb_ltb. destruct (Z.ltb_spec 0 v) as [Hpos|].
    2: { assert (v = 0) as -> by lia. exists [], []. rewrite Hnil, app_nil_r.
         split_and!; [done|split; by try constructor|simpl; lia]. }
    pose proof Hb as (Hb2 & Hlen & Hgr & _).
    set (sep := flag (flags c) GROUP && (cnt >? 0) && (Z.rem cnt (group b) =? 0)).
    set (pre := if sep then [chr ","] else []).
    assert ((if sep then push buf (chr ",") else Ret buf) = Ret (buf ++ pre)) as ->.
    { unfold pre. destruct sep; [|by rewrite app_nil_r]. apply push_run. lia. }
    assert (length pre ≤ 1)%nat by (unfold pre; destruct sep; simpl; lia).
    destruct (lookup_lt_is_Some_2 (digits b) (Z.to_nat (v mod base b))) as [d Hd].
    { pose proof (Z.mod_pos_bound v (base b)). lia. }
    cbn. rewrite Hd. cbn. rewrite push_run by (rewrite length_app; lia). cbn.
    destruct (IH fuel (v / base b) (cnt + 1) ((buf ++ pre) ++ [d])) as (ds & cs & -> & Hds & Hgl).
    { lia. }
    { split; [apply Z.div_pos; lia|]. apply Z.div_lt_upper_bound; [lia|].
      rewrite <-Z.pow_succ_r by lia. replace (Z.succ (Z.of_nat k)) with (Z.of_nat (S k)) by lia. lia. }
    { rewrite !length_app. simpl. lia. }
    { lia. }
    assert (with_groups cnt (d :: cs) = pre ++ d :: with_groups (cnt + 1) cs) as Hwg.
    { unfold with_groups, pre, sep. destruct (flag (flags c) GROUP); [|done]. cbn [grouped andb].
      rewrite Z.gtb_ltb, (Z.rem_mod_nonneg cnt) by lia. by destruct (0 <? cnt), (cnt mod group b =? 0). }
    eexists _, (d :: cs). rewrite Hwg. split_and!.
    + by rewrite <-!app_assoc.
    + by apply digits_of_cons.
    + rewrite length_app. simpl. lia.
Qed.
End digit_loop.

Lemma zero_loop_spec p n : ∀ fuel buf, (n < fuel)%nat → (length buf + n = 63)%nat →
  zero_loop fuel p buf =
    Ret (buf ++ replicate (Z.to_nat (Z.min p 63 - Z.of_nat (length buf))) (chr "0")).
Proof.
  induction n as [|n IH]; intros [|fuel] buf Hf Hl; try lia; cbn [zero_loop].
  - rewrite (proj2 (Nat.ltb_ge (length buf) 63)) by lia. rewrite andb_false_r.
    replace (Z.to_nat _) with 0%nat by lia. by rewrite app_nil_r.
  - rewrite (proj2 (Nat.ltb_lt (length buf) 63)) by lia. rewrite andb_true_r.
    destruct (Z.ltb_spec (Z.of_nat (length buf)) p).
    + rewrite push_run by lia. cbn. rewrite IH by (rewrite ?length_app; simpl; lia).
      rewrite <-app_assoc, length_app. simpl.
      replace (Z.to_nat (Z.min p 63 - Z.of_nat (length buf)))
        with (S (Z.to_nat (Z.min p 63 - Z.of_nat (length buf + 1)))) by lia. done.
    + replace (Z.to_nat _) with 0%nat by lia. by rewrite app_nil_r.
Qed.

(** The zeros before the digits [gs]: as many as the precision asks for, as far as the buffer
    has room; with the flag [#] in base 8 one if there is none of them. *)
Definition zeros (b : integer_base) (c : printf_conversion) (gs : list Z) : nat :=
  let precision := if precision c <? 0 then 1 else precision c in
  let k := Z.to_nat (Z.min precision 63 - Z.of_nat (length gs)) in
  if flag (flags c) POUND && (base b =? 8) && (k =? 0)%nat then 1%nat else k.

Lemma grouped_last g cs : ∀ i, last (grouped g i cs) = last cs.
Proof.
  induction cs as [|c cs IH]; intros i; cbn [grouped]; [done|].
  destruct cs as [|c' cs]; [by destruct (_ && _)|].
  rewrite last_app, IH. destruct (last (c' :: cs)) as [l|] eqn:E; [|by apply last_None in E].
  by rewrite last_cons, E.
Qed.

(** The most significant digit of a number is not ['0']. *)
Lemma top_digit b v ds cs : base_ok b → digits_of b v ds cs → last cs ≠ Some (chr "0").
Proof.
  intros (_ & _ & _ & Hh & Ht) [_ Hr Htop Hc] Hl. destruct ds as [|d ds _] using rev_ind.
  { apply Forall2_nil_inv_l in Hc as ->. done. }
  apply Forall2_app_inv_l in Hc as (cs1 & cs2 & _ & Hc & ->). inversion Hc as [|? c' ? l Hd Hn]; subst.
  inversion Hn; subst. rewrite last_snoc in Htop, Hl. injection Hl as ->.
  apply Forall_app in Hr as [_ [Hr _]%Forall_cons]. destruct (digits b) as [|z zs]; [done|].
  destruct (Z.to_nat d) as [|n] eqn:E; [apply Htop; f_equal; lia|]. apply Ht. by eapply list_elem_of_lookup_2.
Qed.

(** The characters of the number, least significant first. *)
Lemma integer_buf_spec v b c : base_ok b → 8 ≤ base b → 0 ≤ v < 2 ^ 64 →
  ∃ ds cs, digits_of b v ds cs ∧
    let gs := with_groups b c 0 cs in
    integer_buf v b c = Ret (gs ++ replicate (zeros b c gs) (chr "0")) ∧ (length gs + zeros b c gs ≤ 64)%nat.
Proof.
  intros Hb H8 Hv. unfold integer_buf.
  assert (2 ^ 64 ≤ base b ^ Z.of_nat 22) as Hpow.
  { transitivity (8 ^ 22); [done|]. apply Z.pow_le_mono_l. lia. }
  destruct (digit_loop_spec b c Hb 22 65 v 0 []) as (ds & cs & -> & Hd & Hl); [lia|lia|simpl; lia|lia|].
  exists ds, cs. split; [done|]. set (gs := with_groups b c 0 cs) in *. cbv zeta.
  assert (last gs ≠ Some (chr "0")) as Htop.
  { unfold gs, with_groups. destruct (flag _ _); [rewrite grouped_last|]; by eapply top_digit. }
  cbn [mbind res_bind]. rewrite app_nil_l. unfold zeros. set (p := if precision c <? 0 then 1 else precision c).
  rewrite (zero_loop_spec p (63 - length gs)) by lia. cbn [mbind res_bind].
  set (k := Z.to_nat (Z.min p 63 - Z.of_nat (length gs))). assert (k ≤ 63 - length gs)%nat by lia.
  destruct (flag (flags c) POUND && (base b =? 8)) eqn:E; cbn [andb]; [|split; [done|lia]].
  destruct (Nat.eqb_spec k 0) as [->|Hk]; cbn [replicate].
  - rewrite app_nil_r, bool_decide_eq_true_2 by done. rewrite push_run by lia. split; [done|lia].
  - rewrite bool_decide_eq_false_2; [split; [done|lia]|]. intros Hn. apply Hn.
    destruct k as [|k]; [done|]. rewrite replicate_S_end, app_assoc. apply last_snoc.
Qed.

(** ** Runs that collect the output *)

Lemma collect_run ch m out : collect ch (m, out) = Ret ((), (m, out ++ [u8 ch])).
Proof. done. Qed.
Lemma collect_two a b m out :
  (collect a;; collect b) (m, out) = Ret ((), (m, out ++ [u8 a; u8 b])).
Proof. run_by ltac:(apply collect_run). rewrite collect_run, <-app_assoc. done. Qed.
Lemma collect_dup ch n m out :
  output_dup collect ch n (m, out) = Ret ((), (m, out ++ replicate (Z.to_nat n) (u8 ch))).
Proof.
  unfold output_dup. generalize 0 as from. revert out. induction (Z.to_nat n) as [|k IH]; intros out from; simpl.
  - by rewrite app_nil_r.
  - run_by ltac:(done). rewrite IH, <-app_assoc. done.
Qed.
Lemma collect_all l m : ∀ out, output_all collect l (m, out) = Ret ((), (m, out ++ (u8 <$> l))).
Proof.
  induction l as [|c l IH]; intros out; cbn [output_all]; [by rewrite app_nil_r|].
  run_by ltac:(done). rewrite IH, <-app_assoc. done.
Qed.

(** The field of an integer conversion whose digits, most significant first, are [body]. *)
Definition field (sign x : Z) (c : printf_conversion) (body : list Z) : list Z :=
  let sign := if sign =? 0 then [] else [u8 sign] in
  let prefix := if x =? 0 then [] else [chr "0"; u8 x] in
  let pad := replicate (Z.to_nat (width c - Z.of_nat (length (sign ++ prefix ++ body)))) in
  (if flag (flags c) (Z.lor MINUS ZERO) then [] else pad (chr " ")) ++ sign ++ prefix ++
  (if flag (flags c) ZERO then pad (chr "0") else []) ++ body ++
  (if flag (flags c) MINUS then pad (chr " ") else []).

Lemma format_integer_collect v s n b c buf m out : integer_buf v b c = Ret buf → (length buf ≤ 64)%nat →
  0 ≤ width c < 2 ^ 31 →
  format_integer collect v s n b c (m, out) =
    Ret ((), (m, out ++ field (sign_char s n c) (if flag (flags c) POUND && negb (v =? 0) then x b else 0) c
                          (u8 <$> rev buf))).
Proof.
  intros Hbuf Hl Hw. unfold format_integer. run_by ltac:(rewrite Hbuf; done).
  set (sign := sign_char s n c). set (xc := if _ && _ then x b else 0).
  set (pad := if _ <? 0 then 0 else _).
  assert (pad = Z.max 0 (width c - Z.of_nat (length ((if sign =? 0 then [] else [u8 sign]) ++
            (if xc =? 0 then [] else [chr "0"; u8 xc]) ++ (u8 <$> rev buf))))) as Hpad.
  { unfold pad. rewrite !length_app, length_fmap, length_rev.
    destruct (sign =? 0), (xc =? 0); cbn [length]; rewrite swrap_small by lia;
      match goal with |- context [?z <? 0] => destruct (Z.ltb_spec z 0) end; lia. }
  clearbody pad. unfold field.
  change (flag (flags c) (Z.lor MINUS ZERO)) with (negb (Z.land (flags c) (Z.lor MINUS ZERO) =? 0)).
  assert (Z.to_nat (width c - Z.of_nat (length ((if sign =? 0 then [] else [u8 sign]) ++
            (if xc =? 0 then [] else [chr "0"; u8 xc]) ++ (u8 <$> rev buf)))) = Z.to_nat pad) as -> by lia.
  clear Hpad.
  destruct (Z.land (flags c) (Z.lor MINUS ZERO) =? 0); cbn [negb];
    [run_by ltac:(apply collect_dup)|run_by ltac:(done)];
    (destruct (sign =? 0); [run_by ltac:(done)|run_by ltac:(apply collect_run)]);
    (destruct (xc =? 0); [run_by ltac:(done)|run_by ltac:(apply collect_two)]);
    (destruct (flag (flags c) ZERO); [run_by ltac:(apply collect_dup)|run_by ltac:(done)]);
    run_by ltac:(apply collect_all);
    (destruct (flag (flags c) MINUS); [rewrite collect_dup|]);
    unfold mret, ST_ret; rewrite ?app_nil_l, ?app_nil_r, <-?app_assoc; done.
Qed.

(** ** printf *)

Section vprintf.
Context (m : mem) (c : console).
Context (Hcnt : - 2 ^ 63 ≤ write_cnt c < 2 ^ 63).
Context (Hdepth : 0 ≤ console_lock_depth c) (Hheld : console_lock_held c = false → console_lock_depth c = 0).

(** The console after the characters [l] with the lock taken. *)
Definition showing (c : console) (l : list Z) : console :=
  Console (in_intr c) (use_console_lock c) (console_lock_held c) (console_lock_depth c)
    (s64 (write_cnt c + Z.of_nat (length l))) (shown c ++ l).

Definition vp_rel (l : list Z) (s : mem * (console * Z)) : Prop :=
  s = (m, (showing (acquire_console c) l, Z.of_nat (length l))).

Lemma s64_step z : s64 (s64 z + 1) = s64 (z + 1).
Proof.
  unfold swrap. assert (wrap 64 ((if wrap 64 z <? 2 ^ (64 - 1) then wrap 64 z else wrap 64 z - 2 ^ 64) + 1)
    = wrap 64 (z + 1)) as ->; [|done].
  unfold wrap. pose proof (Z.div_mod z (2 ^ 64) ltac:(done)).
  destruct (_ <? _); [rewrite <-(Z.mod_add (z mod 2 ^ 64 + 1) (z / 2 ^ 64)) by done
    |rewrite <-(Z.mod_add (z mod 2 ^ 64 - 2 ^ 64 + 1) (z / 2 ^ 64 + 1)) by done]; f_equal; lia.
Qed.

Lemma acquire_locked : console_locked_by_current_thread (acquire_console c) = true.
Proof.
  unfold console_locked_by_current_thread, acquire_console.
  destruct (in_intr c) eqn:E1, (use_console_lock c) eqn:E2; cbn [negb andb];
    try destruct (console_lock_held c) eqn:E3; simpl; rewrite ?E1, ?E2; done.
Qed.

Lemma vp_output l s ch : Z.of_nat (length l) < 2 ^ 31 - 1 → vp_rel l s →
  ∃ s', vprintf_helper ch s = Ret ((), s') ∧ vp_rel (l ++ [u8 ch]) s'.
Proof.
  intros Hl ->. eexists. split.
  - unfold vprintf_helper, putchar_have_lock.
    assert (console_locked_by_current_thread (showing (acquire_console c) l) = true) as -> by exact acquire_locked.
    cbn [mbind res_bind mret res_ret]. reflexivity.
  - unfold vp_rel, showing. cbn [in_intr use_console_lock console_lock_held console_lock_depth write_cnt shown].
    rewrite length_app, s64_step, (swrap_small 32) by lia. cbn [length].
    rewrite Nat2Z.inj_add, Z.add_assoc, <-app_assoc. done.
Qed.

Lemma release_after l : release_console (showing (acquire_console c) l) = Ret (showing c l).
Proof.
  unfold release_console, acquire_console.
  destruct (in_intr c) eqn:E1, (use_console_lock c) eqn:E2; simpl; rewrite ?E1, ?E2; simpl; try done.
  destruct (console_lock_held c) eqn:E3; simpl; rewrite ?E1, ?E2; simpl; rewrite Z.gtb_ltb; unfold showing; simpl.
  - rewrite (proj2 (Z.ltb_lt 0 (console_lock_depth c + 1))) by lia. rewrite E1, E2, E3, Z.add_simpl_r. done.
  - rewrite Hheld by done. simpl. rewrite E1, E2, E3. done.
Qed.

Lemma vprintf_spec md format args l : md ⊆ m → printed md format args = Ret l → Z.of_nat (length l) < 2 ^ 31 →
  vprintf format args (m, c) = Ret (Z.of_nat (length l), (m, showing c l)).
Proof.
  intros Hs Hp Hl. unfold vprintf.
  destruct (vprintf_sim md vp_rel vprintf_helper) with (N := 2 ^ 31 - 1) (format := format) (args := args) (l := l)
    (s := (m, (showing (acquire_console c) [], 0))) as (s' & Hrun & ->).
  - by intros ? ? ->.
  - apply vp_output.
  - done.
  - lia.
  - done.
  - assert (showing (acquire_console c) [] = acquire_console c) as E.
    { unfold showing. rewrite Z.add_0_r, app_nil_r, swrap_small; [by destruct (acquire_console c)|done|].
      unfold acquire_console. by destruct (_ && _); [destruct (console_lock_held c)|]. }
    rewrite E in Hrun. rewrite Hrun. cbn [mbind res_bind]. rewrite release_after. done.
Qed.
End vprintf.

(** ** Claims *)

(** C16: [snprintf] keeps its contract.  Let the call print the characters [l]; it returns
    their number, stores as many of them as fit into the [size - 1] first bytes of the
    buffer, in order, followed by a terminator, and changes no other memory.  The strings it
    prints must lie outside the buffer. *)
Theorem snprintf_correct m md buffer size format args l :
  0 < size ≤ 2 ^ 31 → mapped m buffer size → md ⊆ m →
  (∀ a, buffer ≤ a < buffer + size → md !! a = None) →
  printed md format args = Ret l → Z.of_nat (length l) < 2 ^ 31 →
  snprintf buffer size format args m =
    Ret (Z.of_nat (length l), write buffer (take (Z.to_nat (size - 1)) l ++ [0]) m).
Proof. intros. by eapply vsnprintf_spec. Qed.

Lemma snprintf_correct_witness :
  let md := write 100 (lit "pintos") ∅ in
  let m := write 200 [1; 1; 1; 1; 1] md in
  snprintf 200 5 (lit "<%s %d>") [100; 7] m = Ret (10, write 200 (of_string "<pin" ++ [0]) m).
Proof.
  intros md m. apply (snprintf_correct m md 200 5 (lit "<%s %d>") [100; 7] (of_string "<pintos 7>")).
  - done.
  - by_evaluation.
  - apply map_subseteq_spec. intros a b Ha. unfold m. rewrite write_out; [done|]. intros Hin.
    unfold md in Ha. rewrite write_out in Ha by (cbn; lia). done.
  - intros a Ha. unfold md. rewrite write_out by (cbn; lia). done.
  - vm_compute. reflexivity.
  - done.
Defined.

(** C34: integer conversions are right in every base, for every 64-bit value and every
    combination of flags, width and precision, and do not overflow their buffer.  What is
    output is the field described by [field]: the digits of [v], with a comma between groups
    when the flag asks for it, after exactly the zeros the precision and the flag [#] ask for
    ([zeros]); before them the prefix of a hexadecimal conversion and the sign, which is a
    minus for a negative number, else a plus or a space as the flags say, and none for an
    unsigned conversion; all padded to the width on the side the flags ask for. *)
Theorem format_integer_correct v is_signed negative b c m out :
  base_ok b → 8 ≤ base b → 0 ≤ v < 2 ^ 64 → 0 ≤ width c < 2 ^ 31 →
  ∃ ds cs sign, digits_of b v ds cs ∧
    (is_signed = false → sign = 0) ∧
    (is_signed = true → negative = true → sign = chr "-") ∧
    (is_signed = true → negative = false →
       sign = if flag (flags c) PLUS then chr "+" else if flag (flags c) SPACE then chr " " else 0) ∧
    let gs := if flag (flags c) GROUP then grouped (group b) 0 cs else cs in
    (length gs + zeros b c gs ≤ 64)%nat ∧
    format_integer collect v is_signed negative b c (m, out) =
      Ret ((), (m, out ++ field sign (if flag (flags c) POUND && negb (v =? 0) then x b else 0) c
                          (u8 <$> rev (gs ++ replicate (zeros b c gs) (chr "0"))))).
Proof.
  intros Hb H8 Hv Hw. destruct (integer_buf_spec v b c Hb H8 Hv) as (ds & cs & Hd & Hbuf & Hl).
  exists ds, cs, (sign_char is_signed negative c). split_and!; [done|by intros ->|..].
  - intros -> ->. unfold sign_char. by destruct (flag (flags c) PLUS), (flag (flags c) SPACE).
  - intros -> ->. unfold sign_char. by destruct (flag (flags c) PLUS).
  - cbv zeta. fold (with_groups b c 0 cs). split; [done|]. apply format_integer_collect; [done| |done].
    rewrite length_app, length_replicate. lia.
Qed.

(** [%#10.6x] of 48879: the digits [beef] after two zeros. *)
Lemma format_integer_correct_witness :
  let c := Conversion POUND 10 6 INT in
  ∃ ds cs sign, digits_of base_x 48879 ds cs ∧ sign = 0 ∧
    let gs := if flag (flags c) GROUP then grouped (group base_x) 0 cs else cs in
    (length gs + zeros base_x c gs ≤ 64)%nat ∧
    format_integer collect 48879 false false base_x c (∅, []) =
      Ret ((), (∅, [] ++ field sign 120 c (u8 <$> rev (gs ++ replicate (zeros base_x c gs) (chr "0"))))).
Proof.
  intros c. destruct (format_integer_correct 48879 false false base_x c ∅ [] base_x_ok) as (ds & cs & sign & H1 & H2 & _ & _ & H3);
    [done..|]. exists ds, cs, sign. split; [exact H1|]. split; [by apply H2|exact H3].
Defined.

(** [printf] sends to the console exactly the characters the format describes, after
    everything already there, returns their number, and leaves the lock of the console held
    or free as it was, also when the caller holds it or runs in an interrupt handler. *)
Theorem printf_correct m md c format args l :
  - 2 ^ 63 ≤ write_cnt c < 2 ^ 63 → 0 ≤ console_lock_depth c →
  (console_lock_held c = false → console_lock_depth c = 0) →
  md ⊆ m → printed md format args = Ret l → Z.of_nat (length l) < 2 ^ 31 →
  printf format args (m, c) = Ret (Z.of_nat (length l), (m, showing c l)).
Proof. intros. by eapply vprintf_spec. Qed.

Lemma printf_correct_witness :
  let c := Console false true true 1 7 (of_string "boot ") in
  printf (lit "%d pages") [367] (∅, c) =
    Ret (9, (∅, Console false true true 1 16 (of_string "boot 367 pages"))).
Proof.
  intros c. apply (printf_correct ∅ ∅ c (lit "%d pages") [367] (of_string "367 pages")); try done.
Defined.
