(* ===== verification/Stdlib.v ===== *)
(** * Numbers, sorting and searching: src/src/lib/stdlib.c

    Arrays are in byte memory.  A comparison function is code that is given two addresses; the
    [aux] argument is part of the function.  [qsort] and [bsearch] pass their comparison
    through [compare_thunk]. *)
From S2P Require Import Prelude KList CString Stdio.

Definition atoi (s : Z) : M Z :=
  assert (nonnull s);;
  s ← scan (λ s, c ← ldb s; mret (if isspace c then Next (s + 1) else Stop s)) s;
  c ← ldb s;
  let '(s, negative) :=
    if c =? chr "+" then (s + 1, false) else if c =? chr "-" then (s + 1, true) else (s, false) in
  value ← scan (λ '(s, value),
    c ← ldb s;
    mret (if isdigit c then Next (s + 1, s32 (value * 10 - (c - chr "0"))) else Stop value)) (s, 0);
  mret (if negative then value else s32 (- value)).

Section sort.
Context (compare : Z → Z → M Z).

(** Byte [i] of an element with a 1-based index. *)
Definition elem_ptr (array idx size : Z) : Z := array + (idx - 1) * size.

Definition do_swap (array a_idx b_idx size : Z) : M () :=
  let a := elem_ptr array a_idx size in
  let b := elem_ptr array b_idx size in
  for_each (Z.to_nat size) 0 (λ i,
    t ← ldb (a + i);
    u ← ldb (b + i);
    stb (a + i) u;;
    stb (b + i) t).

Definition do_compare (array a_idx b_idx size : Z) : M Z :=
  compare (elem_ptr array a_idx size) (elem_ptr array b_idx size).

(** The index moves to a child, so there are at most [cnt] iterations. *)
Definition heapify (array i cnt size : Z) : M () :=
  loop (S (Z.to_nat cnt)) (λ i,
    let left := u32 (2 * i) in
    let right := u32 (2 * i + 1) in
    let max := i in
    max ← (if left <=? cnt then
             c ← do_compare array left max size; mret (if c >? 0 then left else max)
           else mret max);
    max ← (if right <=? cnt then
             c ← do_compare array right max size; mret (if c >? 0 then right else max)
           else mret max);
    if max =? i then mret (Stop ())
    else do_swap array i max size;; mret (Next max)) i.

Definition sort (array cnt size : Z) : M () :=
  assert (nonnull array || (cnt =? 0));;
  assert (size >? 0);;
  for_each (Z.to_nat (cnt / 2)) 0 (λ k, heapify array (cnt / 2 - k) cnt size);;
  for_each (Z.to_nat (cnt - 1)) 0 (λ k,
    let i := cnt - k in
    do_swap array 1 i size;;
    heapify array 1 (i - 1) size).

(** The range halves, so there are at most [cnt] iterations. *)
Definition binary_search (key array cnt size : Z) : M Z :=
  loop (S (Z.to_nat cnt)) (λ '(first, last),
    if first <? last then
      let range := (last - first) / size in
      let middle := first + range / 2 * size in
      cmp ← compare key middle;
      if cmp <? 0 then mret (Next (first, middle))
      else if cmp >? 0 then mret (Next (middle + size, last))
      else mret (Stop middle)
    else mret (Stop NULL)) (array, array + size * cnt).
End sort.

Definition compare_thunk (compare : Z → Z → M Z) (a b : Z) : M Z := compare a b.
Definition qsort (array cnt size : Z) (compare : Z → Z → M Z) : M () :=
  sort (compare_thunk compare) array cnt size.
Definition bsearch (key array cnt size : Z) (compare : Z → Z → M Z) : M Z :=
  binary_search (compare_thunk compare) key array cnt size.

Example atoi_test : atoi 100 (write 100 (lit "  -2147483648x") ∅) = Ret (-2147483648, write 100 (lit "  -2147483648x") ∅).
Proof. vm_compute. reflexivity. Qed.
Example sort_test :
  qsort 100 7 1 (λ a b, x ← ldb a; y ← ldb b; mret (x - y)) (write 100 [5; 2; 9; 1; 7; 2; 0] ∅)
  = Ret ((), write 100 [0; 1; 2; 2; 5; 7; 9] ∅).
Proof. vm_compute. reflexivity. Qed.
