(* ===== verification/StdlibProofs.v ===== *)
(** * Heap sort, binary search and number parsing *)
From S2P Require Import Prelude KList CString CStringProofs Stdio StdioProofs Stdlib.

(** ** Arrays of elements *)

Lemma concat_lookup {A} (sz : nat) (es : list (list A)) : Forall (λ e, length e = sz) es →
  ∀ i j e, es !! i = Some e → (j < sz)%nat → concat es !! (i * sz + j)%nat = e !! j.
Proof.
  induction 1 as [|e es He _ IH]; intros [|i] j e' Hi Hj; try done; simpl in *.
  - injection Hi as <-. by rewrite lookup_app_l by lia.
  - rewrite lookup_app_r by lia. rewrite <-(IH i j e' Hi Hj). f_equal. lia.
Qed.

Lemma length_concat_const {A} (sz : nat) (es : list (list A)) : Forall (λ e, length e = sz) es →
  length (concat es) = (length es * sz)%nat.
Proof. induction 1 as [|e es He _ IH]; simpl; [done|]. rewrite length_app, He, IH. done. Qed.

(** The element with a 1-based index. *)
Definition el (es : list bytes) (i : Z) : bytes := default [] (es !! Z.to_nat (i - 1)).
Definition exchange (i j : Z) (es : list bytes) : list bytes :=
  <[Z.to_nat (i - 1) := el es j]> (<[Z.to_nat (j - 1) := el es i]> es).

Lemma el_Some es i : 1 ≤ i ≤ Z.of_nat (length es) → es !! Z.to_nat (i - 1) = Some (el es i).
Proof.
  intros Hi. unfold el. destruct (lookup_lt_is_Some_2 es (Z.to_nat (i - 1))) as [e He]; [lia|]. by rewrite He.
Qed.

Lemma length_exchange i j es : length (exchange i j es) = length es.
Proof. unfold exchange. by rewrite !length_insert. Qed.

Lemma el_exchange es i j k : 1 ≤ i ≤ Z.of_nat (length es) → 1 ≤ j ≤ Z.of_nat (length es) → 1 ≤ k →
  el (exchange i j es) k = if k =? i then el es j else if k =? j then el es i else el es k.
Proof.
  intros Hi Hj Hk. unfold exchange, el at 1.
  destruct (Z.eqb_spec k i) as [->|]; [by rewrite list_lookup_insert_eq by (rewrite length_insert; lia)|].
  rewrite list_lookup_insert_ne by lia. destruct (Z.eqb_spec k j) as [->|].
  - by rewrite list_lookup_insert_eq by lia.
  - by rewrite list_lookup_insert_ne by lia.
Qed.

Lemma exchange_perm es i j : 1 ≤ i ≤ Z.of_nat (length es) → 1 ≤ j ≤ Z.of_nat (length es) →
  exchange i j es ≡ₚ es.
Proof.
  intros Hi Hj. apply Permutation_inj. split; [apply length_exchange|].
  exists (λ k, if decide (k = Z.to_nat (i - 1)) then Z.to_nat (j - 1)
               else if decide (k = Z.to_nat (j - 1)) then Z.to_nat (i - 1) else k).
  split; [intros a b; repeat case_decide; lia|]. intros k. unfold exchange. case_decide; subst.
  - rewrite list_lookup_insert_eq by (rewrite length_insert; lia). by rewrite el_Some.
  - rewrite list_lookup_insert_ne by done. case_decide; subst.
    + rewrite list_lookup_insert_eq by lia. by rewrite el_Some.
    + by rewrite list_lookup_insert_ne by done.
Qed.

(** [es] are elements of [sz] bytes each. *)
Definition elements (sz : nat) (es : list bytes) : Prop := Forall (λ e, length e = sz ∧ Forall byte e) es.

Lemma elements_exchange sz es i j : 1 ≤ i ≤ Z.of_nat (length es) → 1 ≤ j ≤ Z.of_nat (length es) →
  elements sz es → elements sz (exchange i j es).
Proof. intros Hi Hj. unfold elements. by rewrite exchange_perm. Qed.

Lemma elements_el sz es i : elements sz es → 1 ≤ i ≤ Z.of_nat (length es) →
  length (el es i) = sz ∧ Forall byte (el es i).
Proof. intros He Hi. unfold elements in He. rewrite Forall_lookup in He. by apply (He _ _ (el_Some es i Hi)). Qed.

Section array.
Context (p : Z) (sz : nat) (m0 : mem) (Hsz : (0 < sz)%nat).

(** The memory [m0] with the elements [es] in the array at [p]. *)
Definition arr (es : list bytes) : mem := write p (concat es) m0.

Section es.
Context (es : list bytes) (Hes : elements sz es).
Abbreviation n := (Z.of_nat (length es)).

Lemma elements_length : Forall (λ e, length e = sz) es.
Proof. eapply Forall_impl; [exact Hes|]. by intros e [? _]. Qed.

Lemma arr_lookup i j : 1 ≤ i ≤ n → 0 ≤ j < Z.of_nat sz →
  arr es !! (elem_ptr p i (Z.of_nat sz) + j) = el es i !! Z.to_nat j.
Proof.
  intros Hi Hj. unfold arr, elem_ptr. pose proof (length_concat_const sz es elements_length) as Hl.
  rewrite write_lookup, decide_True by (rewrite Hl; nia).
  replace (Z.to_nat _) with (Z.to_nat (i - 1) * sz + Z.to_nat j)%nat by nia.
  apply concat_lookup; [apply elements_length|by apply el_Some|lia].
Qed.

Lemma arr_out x : ¬ p ≤ x < p + n * Z.of_nat sz → arr es !! x = m0 !! x.
Proof. intros Hx. apply write_out. rewrite (length_concat_const sz es elements_length). lia. Qed.

(** The index and the offset of an address in the array. *)
Lemma arr_split x : p ≤ x < p + n * Z.of_nat sz →
  ∃ i j, 1 ≤ i ≤ n ∧ 0 ≤ j < Z.of_nat sz ∧ x = elem_ptr p i (Z.of_nat sz) + j.
Proof.
  intros Hx. exists ((x - p) / Z.of_nat sz + 1), ((x - p) mod Z.of_nat sz).
  pose proof (Z.div_mod (x - p) (Z.of_nat sz) ltac:(lia)). pose proof (Z.mod_pos_bound (x - p) (Z.of_nat sz) ltac:(lia)).
  assert (0 ≤ (x - p) / Z.of_nat sz) by (apply Z.div_pos; lia).
  assert ((x - p) / Z.of_nat sz < n) by (apply Z.div_lt_upper_bound; lia).
  unfold elem_ptr. split_and!; lia.
Qed.

Lemma arr_bytes i : 1 ≤ i ≤ n → bytes_at (arr es) (elem_ptr p i (Z.of_nat sz)) (el es i).
Proof.
  intros Hi k b Hk. destruct (elements_el sz es i Hes Hi) as [Hl _]. pose proof (lookup_lt_Some _ _ _ Hk).
  rewrite arr_lookup by lia. by rewrite Nat2Z.id.
Qed.

End es.

Section swap.
Context (es : list bytes) (Hes : elements sz es) (a b : Z).
Abbreviation n := (Z.of_nat (length es)).
Context (Ha : 1 ≤ a ≤ n) (Hb : 1 ≤ b ≤ n) (Hne : a ≠ b).
Abbreviation pa := (elem_ptr p a (Z.of_nat sz)).
Abbreviation pb := (elem_ptr p b (Z.of_nat sz)).

(** The memory after [k] bytes have been exchanged. *)
Definition swapped (k x : Z) : option Z :=
  if decide (pa ≤ x < pa + k) then el es b !! Z.to_nat (x - pa)
  else if decide (pb ≤ x < pb + k) then el es a !! Z.to_nat (x - pb) else arr es !! x.

Lemma swap_apart : pa + Z.of_nat sz ≤ pb ∨ pb + Z.of_nat sz ≤ pa.
Proof. unfold elem_ptr. nia. Qed.

Lemma swap_step k m : 0 ≤ k < Z.of_nat sz → (∀ x, m !! x = swapped k x) →
  wp (t ← ldb (pa + k); u ← ldb (pb + k); stb (pa + k) u;; stb (pb + k) t) m
    (λ _ m', ∀ x, m' !! x = swapped (k + 1) x).
Proof.
  intros Hk Hm. pose proof swap_apart as Hap.
  destruct (elements_el sz es a Hes Ha) as [La Ba], (elements_el sz es b Hes Hb) as [Lb Bb].
  destruct (lookup_lt_is_Some_2 (el es a) (Z.to_nat k)) as [ba Hba]; [lia|].
  destruct (lookup_lt_is_Some_2 (el es b) (Z.to_nat k)) as [bb Hbb]; [lia|].
  assert (m !! (pa + k) = Some ba) as Hma.
  { rewrite Hm. unfold swapped. rewrite !decide_False by lia. by rewrite arr_lookup. }
  assert (m !! (pb + k) = Some bb) as Hmb.
  { rewrite Hm. unfold swapped. rewrite !decide_False by lia. by rewrite arr_lookup. }
  wp_bind_by ltac:(apply (ldb_run m _ ba)). wp_bind_by ltac:(apply (ldb_run m _ bb)).
  assert (byte ba ∧ byte bb) as [Hba8 Hbb8].
  { rewrite Forall_lookup in Ba, Bb. split; [by eapply Ba|by eapply Bb]. }
  wp_bind_by ltac:(apply (stb_run m (pa + k) bb)).
  eapply wp_run; [apply stb_run; [done|]; rewrite lookup_insert; case_decide; by eauto|].
  intros x. rewrite !lookup_insert. unfold swapped. repeat case_decide; subst; try lia.
  - rewrite <-Hba. f_equal. lia.
  - rewrite <-Hbb. f_equal. lia.
  - rewrite Hm. unfold swapped. by rewrite decide_True by lia.
  - rewrite Hm. unfold swapped. rewrite decide_False, decide_True by lia. done.
  - rewrite Hm. unfold swapped. rewrite !decide_False by lia. done.
Qed.

Lemma swapped_all x : swapped (Z.of_nat sz) x = arr (exchange a b es) !! x.
Proof.
  pose proof (elements_exchange sz es a b Ha Hb Hes) as Hes'. unfold swapped.
  destruct (decide (p ≤ x < p + n * Z.of_nat sz)) as [Hin|Hout].
  - destruct (arr_split es x Hin) as (i & j & Hi & Hj & ->).
    rewrite !arr_lookup by (done || by rewrite length_exchange). rewrite el_exchange by lia.
    destruct (Z.eqb_spec i a) as [->|Hia].
    { rewrite decide_True by lia. f_equal. lia. }
    rewrite decide_False by (unfold elem_ptr; nia). destruct (Z.eqb_spec i b) as [->|Hib].
    { rewrite decide_True by lia. f_equal. lia. }
    by rewrite decide_False by (unfold elem_ptr; nia).
  - rewrite !decide_False by (unfold elem_ptr; nia). rewrite !arr_out by (done || by rewrite length_exchange). done.
Qed.

Lemma do_swap_run : do_swap p a b (Z.of_nat sz) (arr es) = Ret ((), arr (exchange a b es)).
Proof.
  assert (wp (do_swap p a b (Z.of_nat sz)) (arr es) (λ _ m, ∀ x, m !! x = swapped (Z.of_nat sz) x))
    as (m & -> & Hm)%wp_unit.
  { unfold do_swap. rewrite Nat2Z.id. apply (wp_for_each (λ k m, ∀ x, m !! x = swapped k x)); [|done|].
    - intros k m Hk. apply swap_step. lia.
    - intros x. unfold swapped. by rewrite !decide_False by lia. }
  do 2 f_equal. apply map_eq. intros x. by rewrite Hm, swapped_all.
Qed.
End swap.
End array.

(** ** Comparison functions *)

(** [cmp] is the order a comparison function implements on elements of [sz] bytes: a total
    preorder given by a strcmp()-type result. *)
Record strcmp_like (cmp : bytes → bytes → Z) : Prop := StrcmpLike {
  cmp_flip x y : 0 < cmp x y ↔ cmp y x < 0;
  cmp_trans x y z : cmp x y ≤ 0 → cmp y z ≤ 0 → cmp x z ≤ 0;
}.

(** [compare] reads the two elements and answers their order. *)
Definition implements (compare : Z → Z → M Z) (sz : nat) (cmp : bytes → bytes → Z) : Prop :=
  ∀ m a b x y, bytes_at m a x → bytes_at m b y → length x = sz → length y = sz →
    compare a b m = Ret (cmp x y, m).

(** ** Heaps *)

Section heap.
Context (cmp : bytes → bytes → Z) (Hcmp : strcmp_like cmp).
Definition le (x y : bytes) : Prop := cmp x y ≤ 0.

Lemma le_trans x y z : le x y → le y z → le x z.
Proof. apply (cmp_trans _ Hcmp). Qed.
Lemma gt_le x y : 0 < cmp x y → le y x.
Proof. intros H%(cmp_flip _ Hcmp). unfold le. lia. Qed.
Lemma le_refl x : le x x.
Proof. unfold le. destruct (Z.lt_ge_cases 0 (cmp x x)) as [H|]; [|lia]. pose proof (proj1 (cmp_flip _ Hcmp x x) H). lia. Qed.

Definition child (i j : Z) : Prop := j = 2 * i ∨ j = 2 * i + 1.

(** The first [cnt] elements are heap-ordered at the nodes from [lo] on, except that the node
    [h] may be smaller than its children, which are not larger than the parent of [h]. *)
Record hole (es : list bytes) (lo cnt h : Z) : Prop := Hole {
  hole_order i j : lo ≤ i → i ≠ h → child i j → j ≤ cnt → le (el es j) (el es i);
  hole_grand i j : lo ≤ i → child i h → child h j → j ≤ cnt → le (el es j) (el es i);
}.
Definition heap (es : list bytes) (lo cnt : Z) : Prop :=
  ∀ i j, lo ≤ i → child i j → j ≤ cnt → le (el es j) (el es i).

(** The root is the largest element. *)
Lemma heap_root es cnt : heap es 1 cnt → ∀ n j, 1 ≤ j ≤ cnt → (Z.to_nat j ≤ n)%nat → le (el es j) (el es 1).
Proof.
  intros Hh n. induction n as [|n IH]; intros j Hj Hn; [lia|].
  destruct (decide (j = 1)) as [->|]; [apply le_refl|].
  pose proof (Z.div_mod j 2 ltac:(lia)). pose proof (Z.mod_pos_bound j 2 ltac:(lia)).
  apply (le_trans _ (el es (j / 2))); [apply Hh; [lia|unfold child; lia|lia]|apply IH; lia].
Qed.

(** The node the loop body of [heapify] chooses. *)
Definition larger (es : list bytes) (cnt a max : Z) : Z :=
  if (a <=? cnt) && (0 <? cmp (el es a) (el es max)) then a else max.
Definition choose (es : list bytes) (cnt i : Z) : Z := larger es cnt (2 * i + 1) (larger es cnt (2 * i) i).

Lemma larger_spec es cnt a max :
  let r := larger es cnt a max in
  (r = max ∨ (r = a ∧ a ≤ cnt)) ∧ le (el es max) (el es r) ∧ (a ≤ cnt → le (el es a) (el es r)).
Proof.
  unfold larger. destruct (Z.leb_spec a cnt), (Z.ltb_spec 0 (cmp (el es a) (el es max))); cbn [andb]; split_and!;
    auto using le_refl, gt_le; lia.
Qed.

Lemma choose_spec es cnt i : 1 ≤ i →
  (choose es cnt i = i ∨ (child i (choose es cnt i) ∧ choose es cnt i ≤ cnt)) ∧
  le (el es i) (el es (choose es cnt i)) ∧
  ∀ j, child i j → j ≤ cnt → le (el es j) (el es (choose es cnt i)).
Proof.
  intros Hi. unfold choose, child. destruct (larger_spec es cnt (2 * i) i) as (H1 & H2 & H3).
  destruct (larger_spec es cnt (2 * i + 1) (larger es cnt (2 * i) i)) as (H4 & H5 & H6). split_and!.
  - lia.
  - by eapply le_trans.
  - intros j [->| ->] Hj; [|by apply H6]. eapply le_trans; [by apply H3|done].
Qed.

Lemma hole_done es lo cnt h : 1 ≤ h → hole es lo cnt h → choose es cnt h = h → heap es lo cnt.
Proof.
  intros Hh [Ho _] E i j Hi Hc Hj. destruct (decide (i = h)) as [->|]; [|by apply Ho].
  destruct (choose_spec es cnt h Hh) as (_ & _ & H). rewrite E in H. by apply H.
Qed.

Lemma hole_step es lo cnt h : 1 ≤ lo ≤ h → cnt ≤ Z.of_nat (length es) → h ≤ cnt → hole es lo cnt h →
  choose es cnt h ≠ h → hole (exchange h (choose es cnt h) es) lo cnt (choose es cnt h).
Proof.
  intros Hlo Hcnt Hh [Ho Hg] Hne. destruct (choose_spec es cnt h ltac:(lia)) as ([?|[Hc Hm]] & Hle & Hmax); [done|].
  set (m := choose es cnt h) in *.
  assert (h < m) by (unfold child in Hc; lia).
  split; intros i j.
  - intros Hi Him Hij Hj. rewrite !el_exchange by (unfold child in *; lia).
    assert (j ≠ h ∨ child i h) by (destruct (decide (j = h)) as [->|]; auto).
    destruct (Z.eqb_spec i h) as [->|Hih].
    + rewrite (proj2 (Z.eqb_neq j h)) by (unfold child in *; lia).
      destruct (Z.eqb_spec j m) as [->|]; [done|by apply Hmax].
    + rewrite (proj2 (Z.eqb_neq i m)) by done. destruct (Z.eqb_spec j h) as [->|Hjh]; [by apply Hg|].
      destruct (Z.eqb_spec j m) as [->|]; [unfold child in *; lia|by apply Ho].
  - intros Hi Him Hmj Hj. rewrite !el_exchange by (unfold child in *; lia).
    assert (i = h) as -> by (unfold child in *; lia). rewrite Z.eqb_refl.
    rewrite (proj2 (Z.eqb_neq j h)), (proj2 (Z.eqb_neq j m)) by (unfold child in *; lia).
    apply Ho; [lia|lia|done|done].
Qed.
End heap.

(** [es'] rearranges the first [cnt] elements of [es]. *)
Record rearranged (cnt : Z) (es es' : list bytes) : Prop := Rearranged {
  re_perm : es' ≡ₚ es;
  re_above j : cnt < j → el es' j = el es j;
  re_below (P : bytes → Prop) : (∀ j, 1 ≤ j ≤ cnt → P (el es j)) → ∀ j, 1 ≤ j ≤ cnt → P (el es' j);
}.

#[global] Instance rearranged_preorder cnt : PreOrder (rearranged cnt).
Proof.
  split; [by intros es; split|]. intros es1 es2 es3 [P1 A1 B1] [P2 A2 B2]. split.
  - by etrans.
  - intros j Hj. by rewrite A2, A1.
  - intros P HP. by apply B2, B1.
Qed.

Lemma rearranged_exchange cnt es i j : 1 ≤ i ≤ cnt → 1 ≤ j ≤ cnt → cnt ≤ Z.of_nat (length es) →
  rearranged cnt es (exchange i j es).
Proof.
  intros Hi Hj Hc. split.
  - apply exchange_perm; lia.
  - intros k Hk. rewrite el_exchange by lia. rewrite (proj2 (Z.eqb_neq k i)), (proj2 (Z.eqb_neq k j)) by lia. done.
  - intros P HP k Hk. rewrite el_exchange by lia. destruct (k =? i), (k =? j); apply HP; lia.
Qed.

Lemma rearranged_length cnt es es' : rearranged cnt es es' → length es' = length es.
Proof. intros H. by rewrite (re_perm _ _ _ H). Qed.
Lemma rearranged_elements cnt sz es es' : rearranged cnt es es' → elements sz es → elements sz es'.
Proof. intros H. unfold elements. by rewrite (re_perm _ _ _ H). Qed.

(** ** The sort *)

Section sort.
Context (compare : Z → Z → M Z) (cmp : bytes → bytes → Z) (sz : nat) (p : Z) (m0 : mem).
Context (Hsz : (0 < sz)%nat) (Hp : 0 < p) (Hcmp : strcmp_like cmp) (Himpl : implements compare sz cmp).
Abbreviation A := (arr p m0).
Abbreviation size := (Z.of_nat sz).

Lemma do_compare_run es i j : elements sz es → 1 ≤ i ≤ Z.of_nat (length es) → 1 ≤ j ≤ Z.of_nat (length es) →
  do_compare compare p i j size (A es) = Ret (cmp (el es i) (el es j), A es).
Proof.
  intros He Hi Hj. apply Himpl; try by apply arr_bytes.
  - by apply elements_el.
  - by apply elements_el.
Qed.

(** One of the two comparisons of the loop body. *)
Lemma larger_run es cnt a max : elements sz es → cnt ≤ Z.of_nat (length es) → 1 ≤ a → 1 ≤ max ≤ cnt →
  (if a <=? cnt then
     c ← do_compare compare p a max size; mret (if c >? 0 then a else max)
   else mret max) (A es) = Ret (larger cmp es cnt a max, A es).
Proof.
  intros He Hc Ha Hm. unfold larger. destruct (Z.leb_spec a cnt); cbn [andb]; [|done].
  run_by ltac:(apply do_compare_run; [done|lia|lia]). rewrite Z.gtb_ltb. done.
Qed.

Lemma heapify_spec es lo i cnt : elements sz es → cnt ≤ Z.of_nat (length es) → cnt < 2 ^ 31 →
  1 ≤ lo ≤ i → i ≤ cnt → hole cmp es lo cnt i →
  ∃ es', heapify compare p i cnt size (A es) = Ret ((), A es') ∧ rearranged cnt es es' ∧ heap cmp es' lo cnt.
Proof.
  intros He Hc H31 Hlo Hi Hh.
  assert (wp (heapify compare p i cnt size) (A es) (λ _ m, ∃ es', m = A es' ∧ rearranged cnt es es' ∧ heap cmp es' lo cnt))
    as (m & -> & es' & -> & ?)%wp_unit; [|by exists es'].
  unfold heapify.
  apply (wp_loop (λ n i m, ∃ es', m = A es' ∧ n = Z.to_nat (cnt - i) ∧ lo ≤ i ≤ cnt ∧
                             rearranged cnt es es' ∧ hole cmp es' lo cnt i)) with (n := Z.to_nat (cnt - i));
    [|by exists es; split_and!; [| |lia|..]|lia].
  assert (1 ≤ lo) by lia. clear i Hlo Hi Hh. intros n i m (es1 & -> & -> & Hi & Hre & Hh).
  pose proof (rearranged_length _ _ _ Hre) as Hl. pose proof (rearranged_elements _ _ _ _ Hre He) as He1.
  rewrite !(wrap_small 32) by (unfold fits; lia).
  destruct (larger_spec cmp Hcmp es1 cnt (2 * i) i) as (Hr & _ & _).
  wp_bind_by ltac:(apply larger_run; [done|lia..]). wp_bind_by ltac:(apply larger_run; [done|lia|lia|lia]).
  fold (choose cmp es1 cnt i). destruct (Z.eqb_spec (choose cmp es1 cnt i) i) as [E|Hne].
  - apply wp_ret. exists es1. split_and!; [done..|]. eapply hole_done; [done| |done|done]. lia.
  - destruct (choose_spec cmp Hcmp es1 cnt i ltac:(lia)) as ([?|[Hch Hm]] & _); [done|].
    unfold child in Hch.
    wp_bind_by ltac:(apply do_swap_run; [done|done|lia|lia|done]). apply wp_ret.
    exists (Z.to_nat (cnt - choose cmp es1 cnt i)). split; [lia|].
    eexists. split; [done|]. split; [done|]. split; [lia|]. split.
    + etrans; [exact Hre|]. apply rearranged_exchange; lia.
    + apply hole_step; [done|lia|lia|lia|done|done].
Qed.

(** After the heap has been built. *)
Lemma build_heap es : elements sz es → Z.of_nat (length es) < 2 ^ 31 →
  let cnt := Z.of_nat (length es) in
  wp (for_each (Z.to_nat (cnt / 2)) 0 (λ k, heapify compare p (cnt / 2 - k) cnt size)) (A es)
    (λ _ m, ∃ es', m = A es' ∧ rearranged cnt es es' ∧ heap cmp es' 1 cnt).
Proof.
  intros He H31 cnt. pose proof (Z.div_mod cnt 2 ltac:(lia)). pose proof (Z.mod_pos_bound cnt 2 ltac:(lia)).
  apply (wp_for_each (λ k m, ∃ es', m = A es' ∧ rearranged cnt es es' ∧ heap cmp es' (cnt / 2 - k + 1) cnt)).
  - intros k m Hk (es1 & -> & Hre & Hh). pose proof (rearranged_length _ _ _ Hre).
    destruct (heapify_spec es1 (cnt / 2 - k) (cnt / 2 - k) cnt) as (es2 & Hrun & Hre2 & Hh2); try lia.
    { by eapply rearranged_elements. }
    { split; intros i j Hi.
      - intros Hne. apply Hh. lia.
      - unfold child. lia. }
    eapply wp_run; [exact Hrun|]. exists es2. split_and!; [done|by etrans|].
    by replace (cnt / 2 - (k + 1) + 1) with (cnt / 2 - k) by lia.
  - intros m (es1 & -> & Hre & Hh). exists es1. split_and!; [done..|].
    by replace (cnt / 2 - (0 + Z.of_nat (Z.to_nat (cnt / 2))) + 1) with 1 in Hh by lia.
  - exists es. split_and!; [done..|]. intros i j Hi Hc Hj. unfold child in Hc. lia.
Qed.

(** The elements after [i] are sorted and not smaller than the others. *)
Definition sorted_above (es : list bytes) (i : Z) : Prop :=
  ∀ a b, 1 ≤ a < b → i < b ≤ Z.of_nat (length es) → le cmp (el es a) (el es b).

Lemma sort_step es i : elements sz es → i ≤ Z.of_nat (length es) < 2 ^ 31 → 1 < i →
  heap cmp es 1 i → sorted_above es i →
  wp (do_swap p 1 i size;; heapify compare p 1 (i - 1) size) (A es)
    (λ _ m, ∃ es', m = A es' ∧ es' ≡ₚ es ∧ heap cmp es' 1 (i - 1) ∧ sorted_above es' (i - 1)).
Proof.
  intros He Hn Hi Hh Hs. wp_bind_by ltac:(apply do_swap_run; [done|done|lia|lia|lia]).
  set (es1 := exchange 1 i es). assert (length es1 = length es) as Hl by apply length_exchange.
  destruct (heapify_spec es1 1 1 (i - 1)) as (es2 & Hrun & Hre & Hh2); try lia.
  { apply elements_exchange; lia || done. }
  { split; [|intros a b Ha; unfold child; lia]. intros a b Ha Hne Hc Hb. unfold es1, child in *.
    rewrite !el_exchange by lia. rewrite !(proj2 (Z.eqb_neq _ _)) by lia. apply Hh; [lia|done|lia]. }
  eapply wp_run; [exact Hrun|]. exists es2. split_and!; [done| |done|].
  { rewrite (re_perm _ _ _ Hre). apply exchange_perm; lia. }
  pose proof (rearranged_length _ _ _ Hre) as Hl2.
  assert (∀ j, i < j → el es2 j = el es j) as Habove.
  { intros j Hj. rewrite (re_above _ _ _ Hre) by lia. unfold es1. rewrite el_exchange by lia.
    rewrite !(proj2 (Z.eqb_neq _ _)) by lia. done. }
  assert (el es2 i = el es 1) as Hti.
  { rewrite (re_above _ _ _ Hre) by lia. unfold es1. rewrite el_exchange by lia.
    rewrite (proj2 (Z.eqb_neq i 1)), Z.eqb_refl by lia. done. }
  assert (∀ x, (∀ j, 1 ≤ j ≤ i → le cmp (el es j) x) → ∀ j, 1 ≤ j ≤ i → le cmp (el es2 j) x) as Hbelow.
  { intros x Hx j Hj. destruct (decide (j = i)) as [->|]; [rewrite Hti; apply Hx; lia|].
    apply (re_below _ _ _ Hre (λ e, le cmp e x)); [|lia]. intros k Hk. unfold es1. rewrite el_exchange by lia.
    destruct (k =? 1), (k =? i); apply Hx; lia. }
  intros a b Ha Hb. destruct (decide (b = i)) as [->|].
  - rewrite Hti. apply Hbelow; [|lia]. intros j Hj. by eapply heap_root with (n := Z.to_nat j).
  - rewrite (Habove b) by lia. destruct (decide (a ≤ i)).
    + apply Hbelow; [|lia]. intros j Hj. apply Hs; lia.
    + rewrite Habove by lia. apply Hs; lia.
Qed.

Lemma sort_spec es : elements sz es → Z.of_nat (length es) < 2 ^ 31 →
  ∃ es', sort compare p (Z.of_nat (length es)) size (A es) = Ret ((), A es') ∧ es' ≡ₚ es ∧ sorted_above es' 0.
Proof.
  intros He H31. set (cnt := Z.of_nat (length es)).
  assert (wp (sort compare p cnt size) (A es) (λ _ m, ∃ es', m = A es' ∧ es' ≡ₚ es ∧ sorted_above es' 0))
    as (m & Hrun & es' & -> & ?)%wp_unit; [|by exists es'].
  unfold sort. wp_bind_by ltac:(apply assert_run; by rewrite nonnull_true by (unfold NULL; lia)).
  wp_bind_by ltac:(apply assert_run; rewrite Z.gtb_ltb; apply Z.ltb_lt; lia).
  apply wp_bind. eapply wp_mono; [by apply build_heap|]. intros [] m (es1 & -> & Hre & Hh). fold cnt in Hre, Hh.
  assert (length es1 = length es) as Hl by by eapply rearranged_length.
  destruct (decide (cnt = 0)) as [Hz|Hnz].
  { rewrite Hz. apply wp_ret. exists es1. split_and!; [done|by apply re_perm in Hre|].
    intros a b Ha Hb. lia. }
  apply (wp_for_each (λ k m, ∃ es', m = A es' ∧ es' ≡ₚ es ∧ heap cmp es' 1 (cnt - k) ∧ sorted_above es' (cnt - k))).
  - intros k m Hk (es2 & -> & Hp2 & Hh2 & Hs2). assert (length es2 = length es) as Hl2 by by rewrite Hp2.
    eapply wp_mono; [apply sort_step; try done; [unfold elements; by rewrite Hp2|lia|lia]|].
    intros [] m (es3 & -> & Hp3 & Hh3 & Hs3). exists es3. rewrite Z.sub_add_distr. split_and!; [done|by etrans|done|done].
  - intros m (es2 & -> & Hp2 & _ & Hs2). exists es2. split_and!; [done..|].
    intros a b Ha Hb. apply Hs2; lia.
  - exists es1. rewrite Z.sub_0_r. split_and!; [done|by apply re_perm in Hre|done|]. intros a b Ha Hb. lia.
Qed.
End sort.

(** ** Binary search *)

Section search.
Context (compare : Z → Z → M Z) (cmp : bytes → bytes → Z) (sz : nat) (p : Z) (m0 : mem).
Context (Hsz : (0 < sz)%nat) (Hcmp : strcmp_like cmp) (Himpl : implements compare sz cmp).
Abbreviation size := (Z.of_nat sz).
Context (es : list bytes) (He : elements sz es) (kp : Z) (key : bytes).
Context (Hkey : bytes_at (arr p m0 es) kp key) (Hkl : length key = sz).
Context (Hsorted : sorted_above cmp es 0).
Abbreviation n := (Z.of_nat (length es)).

Lemma before_smaller a b : 1 ≤ a ≤ b → b ≤ n → 0 < cmp key (el es b) → 0 < cmp key (el es a).
Proof.
  intros Ha Hb H. destruct (decide (a = b)) as [->|]; [done|].
  assert (cmp (el es a) (el es b) ≤ 0) by (apply Hsorted; lia). apply (cmp_flip _ Hcmp) in H.
  destruct (Z.lt_ge_cases 0 (cmp key (el es a))) as [|Hle]; [done|].
  assert (cmp key (el es b) ≤ 0) by (by eapply (cmp_trans _ Hcmp)).
  pose proof (proj2 (cmp_flip _ Hcmp key (el es b)) H). lia.
Qed.

Lemma after_larger a b : 1 ≤ b ≤ a → a ≤ n → cmp key (el es b) < 0 → cmp key (el es a) < 0.
Proof.
  intros Ha Hb H. destruct (decide (a = b)) as [->|]; [done|].
  assert (cmp (el es b) (el es a) ≤ 0) by (apply Hsorted; lia).
  apply (cmp_flip _ Hcmp). destruct (Z.lt_ge_cases 0 (cmp (el es a) key)) as [|Hle]; [done|].
  assert (cmp (el es b) key ≤ 0) by (by eapply (cmp_trans _ Hcmp)).
  pose proof (proj2 (cmp_flip _ Hcmp (el es b) key) H). lia.
Qed.

Definition search_result (r : Z) : Prop :=
  (∃ i, 1 ≤ i ≤ n ∧ cmp key (el es i) = 0 ∧ r = elem_ptr p i size) ∨
  (r = NULL ∧ ∀ i, 1 ≤ i ≤ n → cmp key (el es i) ≠ 0).

Lemma binary_search_spec :
  ∃ r, binary_search compare kp p n size (arr p m0 es) = Ret (r, arr p m0 es) ∧ search_result r.
Proof.
  assert (wp (binary_search compare kp p n size) (arr p m0 es) (λ r m, m = arr p m0 es ∧ search_result r))
    as (r & m & ? & -> & ?)%wp_inv; [|by exists r].
  unfold binary_search.
  apply (wp_loop (λ k '(first, last) m, m = arr p m0 es ∧ ∃ lo hi, k = Z.to_nat (hi - lo) ∧
    1 ≤ lo ≤ hi ∧ hi ≤ n + 1 ∧ first = elem_ptr p lo size ∧ last = elem_ptr p hi size ∧
    (∀ a, 1 ≤ a < lo → 0 < cmp key (el es a)) ∧ (∀ a, hi ≤ a ≤ n → cmp key (el es a) < 0)))
    with (n := length es).
  - intros k [first last] m (-> & lo & hi & -> & Hlo & Hhi & -> & -> & Hb & Ha).
    destruct (Z.ltb_spec (elem_ptr p lo size) (elem_ptr p hi size)) as [Hlt|Hge].
    2: { apply wp_ret. split; [done|]. right. split; [done|]. intros i Hi.
         assert (lo = hi) by (unfold elem_ptr in Hge; nia). subst hi.
         destruct (decide (i < lo)); [specialize (Hb i)|specialize (Ha i)]; lia. }
    assert (lo < hi) by (unfold elem_ptr in Hlt; nia).
    assert ((elem_ptr p hi size - elem_ptr p lo size) / size = hi - lo) as ->.
    { unfold elem_ptr. replace (_ - _) with ((hi - lo) * size) by ring. apply Z.div_mul. lia. }
    set (mid := lo + (hi - lo) / 2).
    assert (elem_ptr p lo size + (hi - lo) / 2 * size = elem_ptr p mid size) as -> by (unfold elem_ptr, mid; ring).
    pose proof (Z.div_mod (hi - lo) 2 ltac:(lia)). pose proof (Z.mod_pos_bound (hi - lo) 2 ltac:(lia)).
    assert (lo ≤ mid < hi) as Hmid by (unfold mid; lia).
    wp_bind_by ltac:(apply Himpl; [exact Hkey|apply arr_bytes; [done|done|lia]|done|apply elements_el; [done|lia]]).
    destruct (Z.ltb_spec (cmp key (el es mid)) 0) as [Hneg|].
    + apply wp_ret. exists (Z.to_nat (mid - lo)). split; [lia|]. split; [done|]. exists lo, mid.
      split_and!; try done; try lia. intros a Ha'. by apply (after_larger a mid); try lia.
    + rewrite Z.gtb_ltb. destruct (Z.ltb_spec 0 (cmp key (el es mid))) as [Hpos|].
      * apply wp_ret. exists (Z.to_nat (hi - (mid + 1))). split; [lia|]. split; [done|]. exists (mid + 1), hi.
        split_and!; try done; try lia; [unfold elem_ptr; ring|].
        intros a Ha'. by apply (before_smaller a mid); try lia.
      * apply wp_ret. split; [done|]. left. exists mid. split_and!; (done || lia).
  - split; [done|]. exists 1, (n + 1). split_and!; try lia; unfold elem_ptr; try ring; intros a Ha; lia.
  - lia.
Qed.
End search.

(** ** Numbers *)

(** The value [atoi] gives to a string of digits, most significant first. *)
Definition digit_value (ds : list Z) : Z := foldl (λ v d, v * 10 + d) 0 ds.

Lemma digit_value_num ds : digit_value (rev ds) = num 10 ds.
Proof.
  unfold digit_value. induction ds as [|d ds IH]; [done|]. simpl. rewrite foldl_app. simpl. rewrite IH. lia.
Qed.

Definition atoi_step (v c : Z) : Z := s32 (v * 10 - (c - chr "0")).

Lemma digit_value_snoc ds d : digit_value (ds ++ [d]) = digit_value ds * 10 + d.
Proof. unfold digit_value. by rewrite foldl_app. Qed.

Lemma digit_value_nonneg ds : Forall (λ d, 0 ≤ d < 10) ds → 0 ≤ digit_value ds.
Proof.
  induction ds as [|d ds IH] using rev_ind; [done|]. rewrite digit_value_snoc.
  intros [? Hd]%Forall_app. inversion_clear Hd. specialize (IH ltac:(done)). lia.
Qed.

(** Digits are accumulated negatively, without overflow down to the smallest [int]. *)
Lemma atoi_digits ds : Forall (λ d, 0 ≤ d < 10) ds → digit_value ds ≤ 2 ^ 31 →
  foldl atoi_step 0 ((λ d, d + chr "0") <$> ds) = - digit_value ds.
Proof.
  induction ds as [|d ds IH] using rev_ind; [done|]. rewrite digit_value_snoc.
  intros [Hds Hd]%Forall_app. inversion_clear Hd. intros Hv. pose proof (digit_value_nonneg ds Hds).
  rewrite fmap_app, foldl_app. cbn [foldl fmap list_fmap]. rewrite IH by (done || lia). unfold atoi_step.
  rewrite swrap_small by lia. lia.
Qed.

Lemma isdigit_char d : 0 ≤ d < 10 → isdigit (d + chr "0") = true.
Proof. intros. unfold isdigit. change (chr "0") with 48. apply andb_true_iff. rewrite !Z.leb_le. lia. Qed.

Lemma isspace_digit c : isdigit c = true → isspace c = false.
Proof.
  unfold isdigit, isspace. rewrite andb_true_iff, !Z.leb_le. intros Hc. apply bool_decide_eq_false.
  rewrite !elem_of_cons, elem_of_nil. lia.
Qed.

Section atoi.
Context (m : mem) (p : Z).

(** The loop over white space stops at the first other character. *)
Lemma skip_space_run ws s : string_at m p (ws ++ s) → Forall (λ c, isspace c = true) ws →
  (∀ c, head (s ++ [0]) = Some c → isspace c = false) →
  scan (λ s, c ← ldb s; mret (if isspace c then Next (s + 1) else Stop s)) p m
    = Ret (p + Z.of_nat (length ws), m).
Proof.
  intros Hs Hw Hh.
  rewrite (scan_string _ (λ i, p + Z.of_nat i) (λ i, p + Z.of_nat i) (λ _ c, isspace c) m p _ _ Hs); [|lia|done|].
  - assert (span (λ _ c, isspace c) (ws ++ s) = length ws) as ->; [|done].
    change (span (λ _ c, isspace c) (ws ++ s)) with (span_of isspace (ws ++ s)).
    rewrite span_of_app by done. destruct s as [|c s]; [apply Nat.add_0_r|]. rewrite span_of_cons, Hh by done. lia.
  - intros i c Hi. run_by ltac:(apply ldb_run; by eapply str_lookup). destruct (isspace c); [|done].
    unfold mret, ST_ret. do 3 f_equal. lia.
Qed.

Lemma digits_run q cs rest : string_at m q (cs ++ rest) → Forall (λ c, isdigit c = true) cs →
  (∀ c, head rest = Some c → isdigit c = false) →
  scan (λ '(s, value), c ← ldb s;
    mret (if isdigit c then Next (s + 1, s32 (value * 10 - (c - chr "0"))) else Stop value)) (q, 0) m
    = Ret (foldl atoi_step 0 cs, m).
Proof.
  intros Hs Hc Hh.
  rewrite (scan_string _ (λ i, (q + Z.of_nat i, foldl atoi_step 0 (take i ((cs ++ rest) ++ [0]))))
    (λ i, foldl atoi_step 0 (take i ((cs ++ rest) ++ [0]))) (λ _ c, isdigit c) m q _ _ Hs); [|by rewrite Z.add_0_r|done|].
  - do 3 f_equal. change (span (λ _ c, isdigit c) (cs ++ rest)) with (span_of isdigit (cs ++ rest)).
    rewrite span_of_app by done. assert (span_of isdigit rest = 0%nat) as ->.
    { destruct rest as [|c rest]; [done|]. by rewrite span_of_cons, Hh. }
    rewrite Nat.add_0_r, <-app_assoc. apply take_app_length.
  - intros i c Hi. run_by ltac:(apply ldb_run; by eapply str_lookup). destruct (isdigit c); [|done].
    rewrite (take_S_r _ _ _ Hi), foldl_app. unfold mret, ST_ret. do 3 f_equal. f_equal. lia.
Qed.

Lemma atoi_spec ws (negative : bool) ds rest :
  string_at m p (ws ++ (if negative then [chr "-"] else []) ++ ((λ d, d + chr "0") <$> ds) ++ rest) →
  Forall (λ c, isspace c = true) ws → Forall (λ d, 0 ≤ d < 10) ds → ds ≠ [] →
  (∀ c, head rest = Some c → isdigit c = false) →
  digit_value ds < 2 ^ 31 + (if negative then 1 else 0) →
  atoi p m = Ret (if negative then - digit_value ds else digit_value ds, m).
Proof.
  intros Hs Hw Hd Hne Hr Hv. unfold atoi. set (cs := (λ d, d + chr "0") <$> ds) in *.
  assert (Forall (λ c, isdigit c = true) cs) as Hcs.
  { apply Forall_fmap. eapply Forall_impl; [exact Hd|]. intros d. apply isdigit_char. }
  run_by ltac:(apply assert_run, nonnull_true; destruct Hs; unfold NULL; lia).
  assert (∃ c cs', cs = c :: cs' ∧ isdigit c = true) as (c0 & cs' & Ecs & Hc0).
  { destruct ds as [|d ds]; [done|]. eexists _, _. split; [done|]. by inversion Hcs. }
  rewrite (bind_run _ _ _ _ _ (skip_space_run ws _ Hs Hw ltac:(intros c; rewrite Ecs; destruct negative; simpl;
    intros [= <-]; [done|by apply isspace_digit]))).
  pose proof (str_drop _ _ _ _ Hs) as Hs1. set (q := p + Z.of_nat (length ws)) in *.
  assert (digit_value ds ≤ 2 ^ 31) by (destruct negative; lia).
  pose proof (digit_value_nonneg ds Hd).
  destruct negative.
  - run_by ltac:(apply ldb_run; rewrite <-(Z.add_0_r q); by apply (str_lookup m q _ 0 _ Hs1)).
    cbn [Z.eqb chr]. change (chr "-" =? chr "+") with false. rewrite Z.eqb_refl. cbv iota.
    apply (str_drop m q [chr "-"]) in Hs1. simpl in Hs1.
    rewrite (bind_run _ _ _ _ _ (digits_run (q + 1) cs rest Hs1 Hcs Hr)).
    unfold cs. by rewrite atoi_digits.
  - run_by ltac:(apply ldb_run; rewrite <-(Z.add_0_r q); apply (str_lookup m q _ 0 c0 Hs1); by rewrite Ecs).
    unfold isdigit in Hc0. rewrite andb_true_iff, !Z.leb_le in Hc0.
    change (chr "+") with 43. change (chr "-") with 45. rewrite !(proj2 (Z.eqb_neq _ _)) by lia. cbv iota.
    rewrite (bind_run _ _ _ _ _ (digits_run q cs rest Hs1 Hcs Hr)). unfold cs. rewrite atoi_digits by done.
    unfold mret, ST_ret. rewrite swrap_small by lia. do 2 f_equal. lia.
Qed.
End atoi.

(** ** What [%d] prints *)

Lemma num_zeros b ds k : num b (ds ++ replicate k 0) = num b ds.
Proof.
  induction ds as [|d ds IH]; simpl; [|by rewrite IH]. induction k as [|k IH]; simpl; [done|]. rewrite IH. lia.
Qed.

Lemma decimal_chars ds cs : Forall (λ d, 0 ≤ d < 10) ds →
  Forall2 (λ d c, digits base_d !! Z.to_nat d = Some c) ds cs → cs = (λ d, d + chr "0") <$> ds.
Proof.
  intros Hr. induction 1 as [|d c ds cs Hd _ IH]; [done|]. inversion_clear Hr. rewrite IH by done. cbn. f_equal.
  assert (∃ k : nat, d = Z.of_nat k ∧ (k < 10)%nat) as (k & -> & Hk) by (exists (Z.to_nat d); lia).
  rewrite Nat2Z.id in Hd. do 10 (destruct k as [|k]; [by injection Hd as <-|]). lia.
Qed.

(** A run of [%d], and what its conversion writes. *)
Lemma printed_d m w out : 
  (let v := s32 w in
   format_integer collect (if v <? 0 then u64 (- v) else v) true (v <? 0) base_d (Conversion 0 0 (-1) INT) (m, []))
     = Ret ((), (m, out)) →
  printed m (lit "%d") [w] = Ret out.
Proof.
  intros Hf. unfold printed, vprintf_. cbn [vprintf_at].
  rewrite (loop_next _ _ _ ([0], []) _ (m, out)).
  2: { transitivity ((args ← (format_integer collect (if s32 w <? 0 then u64 (- s32 w) else s32 w) true (s32 w <? 0)
         base_d (Conversion 0 0 (-1) INT);; mret ([] : list Z)); mret (Next ([0], args)) : ST _ (ctl _ ())) (m, []));
       [reflexivity|]. unfold mbind at 1, ST_bind at 1. rewrite (bind_run _ _ _ _ _ Hf). done. }
  done.
Qed.

Lemma digit_chars_u8 ds : Forall (λ d, 0 ≤ d < 10) ds →
  u8 <$> rev ((λ d, d + chr "0") <$> ds) = (λ d, d + chr "0") <$> rev ds.
Proof.
  intros Hd. change ((λ d, d + chr "0") <$> ds) with (map (λ d, d + chr "0") ds). rewrite <-map_rev.
  change (map (λ d, d + chr "0") (rev ds)) with ((λ d, d + chr "0") <$> rev ds).
  rewrite <-list_fmap_compose. apply list_fmap_ext. intros i d Hi. simpl. apply wrap_small.
  apply list_elem_of_lookup_2, list_elem_of_In, in_rev, list_elem_of_In in Hi.
  rewrite Forall_forall in Hd. specialize (Hd d Hi). unfold fits. change (chr "0") with 48. lia.
Qed.

(** A field without width. *)
Lemma field_plain sign body :
  field sign 0 (Conversion 0 0 (-1) INT) body = (if sign =? 0 then [] else [u8 sign]) ++ body.
Proof.
  unfold field. cbn [flags width]. replace (Z.to_nat (0 - _)) with 0%nat by lia. simpl.
  by rewrite app_nil_r.
Qed.

(** The decimal notation of a number: a sign if it is negative, and its digits, at least one. *)
Lemma printed_decimal m w :
  let v := s32 w in
  ∃ ds, printed m (lit "%d") [w] =
      Ret ((if v <? 0 then [chr "-"] else []) ++ ((λ d, d + chr "0") <$> ds)) ∧
    Forall (λ d, 0 ≤ d < 10) ds ∧ ds ≠ [] ∧ digit_value ds = Z.abs v ∧ (length ds ≤ 64)%nat.
Proof.
  intros v.
  assert (- 2 ^ 31 ≤ v < 2 ^ 31) as Hv.
  { unfold v, swrap. pose proof (wrap_fits 32 w ltac:(lia)) as [? ?]. 
    destruct (Z.ltb_spec (u32 w) (2 ^ (32 - 1))); lia. }
  set (a := if v <? 0 then u64 (- v) else v).
  assert (a = Z.abs v) as Ha.
  { unfold a. destruct (Z.ltb_spec v 0); [rewrite wrap_small by (unfold fits; lia)|]; lia. }
  destruct (integer_buf_spec a base_d (Conversion 0 0 (-1) INT) base_d_ok) as
    (ds & cs & [Hn Hrng Htop Hch] & Hbuf & Hlen); [done|lia|].
  change (with_groups base_d _ 0 cs) with cs in *.
  assert (zeros base_d (Conversion 0 0 (-1) INT) cs = Z.to_nat (1 - Z.of_nat (length cs))) as Hk by done.
  set (k := zeros _ _ _) in *. clearbody k.
  apply decimal_chars in Hch as ->; [|done]. rewrite length_fmap in *.
  exists (rev (ds ++ replicate k 0)). rewrite digit_value_num, num_zeros, length_rev, length_app, length_replicate.
  split_and!.
  - apply printed_d. cbv zeta. fold v a. erewrite format_integer_collect; [|exact Hbuf| |done].
    2: { rewrite length_app, length_fmap, length_replicate. lia. }
    rewrite app_nil_l, field_plain.
    assert (((λ d, d + chr "0") <$> ds) ++ replicate k (chr "0") = (λ d, d + chr "0") <$> (ds ++ replicate k 0)) as ->
      by (by rewrite fmap_app, fmap_replicate).
    rewrite digit_chars_u8; [|by apply Forall_app; split; [|apply Forall_replicate]].
    unfold sign_char. cbn [flags]. by destruct (v <? 0).
  - apply Forall_rev, Forall_app. split; [done|by apply Forall_replicate].
  - intros E%(f_equal length). rewrite length_rev, length_app, length_replicate in E. simpl in E. lia.
  - by rewrite <-Ha.
  - lia.
Qed.

(** ** Claims *)

(** C20: [sort], the heap sort behind [qsort], returns and leaves in the array a permutation of
    its elements that is sorted by the comparison function; no other memory changes.  Any
    comparison function that answers a total preorder without changing memory is allowed, for
    elements of any size. *)
Theorem sort_correct compare cmp sz p m0 es :
  (0 < sz)%nat → 0 < p → strcmp_like cmp → implements compare sz cmp →
  elements sz es → Z.of_nat (length es) < 2 ^ 31 →
  ∃ es', sort compare p (Z.of_nat (length es)) (Z.of_nat sz) (arr p m0 es) = Ret ((), arr p m0 es') ∧
    es' ≡ₚ es ∧ ∀ a b, 1 ≤ a < b → b ≤ Z.of_nat (length es) → cmp (el es' a) (el es' b) ≤ 0.
Proof.
  intros Hsz Hp Hc Hi He Hn. destruct (sort_spec compare cmp sz p m0 Hsz Hp Hc Hi es He Hn) as (es' & Hrun & Hp' & Hs).
  exists es'. split_and!; [done..|]. intros a b Ha Hb. apply Hs; [done|]. rewrite Hp'. lia.
Qed.

(** The order of single bytes, and code for it. *)
Definition byte_cmp (x y : bytes) : Z := default 0 (head x) - default 0 (head y).
Definition compare_byte (a b : Z) : M Z := x ← ldb a; y ← ldb b; mret (x - y).
Lemma byte_cmp_like : strcmp_like byte_cmp.
Proof. split; unfold byte_cmp; lia. Qed.
Lemma compare_byte_implements : implements compare_byte 1 byte_cmp.
Proof.
  intros m a b [|x []] [|y []] Ha Hb ? ?; try done. apply bytes_at_cons in Ha as [Ha _], Hb as [Hb _].
  unfold compare_byte. run_by ltac:(by apply ldb_run). run_by ltac:(by apply ldb_run). done.
Qed.

Lemma sort_correct_witness :
  let es := [[5]; [2]; [9]; [2]] in
  ∃ es', sort compare_byte 100 4 1 (arr 100 ∅ es) = Ret ((), arr 100 ∅ es') ∧
    es' ≡ₚ es ∧ ∀ a b, 1 ≤ a < b → b ≤ 4 → byte_cmp (el es' a) (el es' b) ≤ 0.
Proof.
  intros es. apply (sort_correct compare_byte byte_cmp 1 100 ∅ es); [lia|lia|apply byte_cmp_like|apply compare_byte_implements| |done].
  unfold es, elements. repeat constructor; done.
Defined.

(** [binary_search] on a sorted array returns; it answers the address of an element equal to
    the key, or a null pointer exactly when the array has none, and changes nothing. *)
Theorem binary_search_correct compare cmp sz p m0 es kp key :
  (0 < sz)%nat → strcmp_like cmp → implements compare sz cmp → elements sz es →
  bytes_at (arr p m0 es) kp key → length key = sz →
  (∀ a b, 1 ≤ a < b → b ≤ Z.of_nat (length es) → cmp (el es a) (el es b) ≤ 0) →
  ∃ r, binary_search compare kp p (Z.of_nat (length es)) (Z.of_nat sz) (arr p m0 es) = Ret (r, arr p m0 es) ∧
    search_result cmp sz p es key r.
Proof.
  intros Hsz Hc Hi He Hk Hl Hs. eapply binary_search_spec; try done. intros a b Ha Hb. apply Hs; lia.
Qed.

Lemma binary_search_correct_witness :
  let es := [[2]; [5]; [9]] in
  ∃ r, binary_search compare_byte 50 100 3 1 (arr 100 (write 50 [9] ∅) es) = Ret (r, arr 100 (write 50 [9] ∅) es) ∧
    search_result byte_cmp 1 100 es [9] r.
Proof.
  intros es. apply (binary_search_correct compare_byte byte_cmp 1 100 _ es 50 [9]);
    [lia|apply byte_cmp_like|apply compare_byte_implements| | |done|].
  - unfold es, elements. repeat constructor; done.
  - by_evaluation.
  - intros a b Ha Hb. assert (a = 1 ∧ b = 2 ∨ a = 1 ∧ b = 3 ∨ a = 2 ∧ b = 3) as [[-> ->]|[[-> ->]|[-> ->]]] by (simpl in Hb; lia); done.
Defined.

(** [snprintf] and [atoi] are inverse: the [int] printed with [%d] into a buffer that is
    large enough is what [atoi] reads back from it, for every value including the smallest. *)
Theorem snprintf_atoi_roundtrip m buffer size n :
  - 2 ^ 31 ≤ n < 2 ^ 31 → 0 < buffer → 66 ≤ size ≤ 2 ^ 31 → mapped m buffer size →
  ∃ len m', snprintf buffer size (lit "%d") [u32 n] m = Ret (len, m') ∧ atoi buffer m' = Ret (n, m').
Proof.
  intros Hn Hb Hs Hm. destruct (printed_decimal ∅ (u32 n)) as (ds & Hp & Hd & Hne & Hv & Hl).
  assert (s32 (u32 n) = n) as E.
  { unfold swrap. rewrite (wrap_small 32 (u32 n)) by (by apply wrap_fits).
    apply (swrap_small 32 n); [done|]. lia. }
  rewrite E in Hp, Hv. set (l := _ ++ _) in Hp.
  assert (length l ≤ 65)%nat as Hll.
  { unfold l. rewrite length_app, length_fmap. destruct (n <? 0); simpl; lia. }
  eexists _, _. split.
  - apply (vsnprintf_spec m ∅ buffer size ltac:(lia) Hm (map_empty_subseteq m) ltac:(done) _ _ _ Hp). lia.
  - unfold stored. rewrite take_ge by lia.
    assert (Forall (λ c, byte c ∧ c ≠ 0) l) as Hch.
    { unfold l. apply Forall_app. split; [destruct (n <? 0); repeat constructor; done|].
      apply Forall_fmap. eapply Forall_impl; [exact Hd|]. intros d Hd'. unfold compose, byte, fits. cbv beta in *. change (chr "0") with 48. lia. }
    pose proof (string_at_write m buffer l Hb Hch) as Hstr. set (m' := write _ _ _) in *.
    unfold l in Hstr. rewrite <-(app_nil_l (_ ++ _)), <-(app_nil_r ((λ d : Z, d + chr "0") <$> ds)) in Hstr.
    erewrite atoi_spec; [|exact Hstr|done|done|done|done|destruct (Z.ltb_spec n 0); lia].
    do 2 f_equal. destruct (Z.ltb_spec n 0); lia.
Qed.

Lemma snprintf_atoi_roundtrip_witness :
  let m := write 100 (replicate 66 255) ∅ in
  ∃ len m', snprintf 100 66 (lit "%d") [2147483648] m = Ret (len, m') ∧ atoi 100 m' = Ret (-2147483648, m').
Proof. intros m. apply (snprintf_atoi_roundtrip m 100 66 (-2147483648)); [lia|lia|lia|by_evaluation]. Defined.
