(* ===== verification/Random.v ===== *)
(** * The random number generator: src/src/lib/random.c

    The RC4 state is a table of 256 bytes and two indices.  Bytes are generated into memory. *)
From S2P Require Import Prelude KList CString CStringProofs Stdio.

Record rng := Rng { s : list Z; s_i : Z; s_j : Z; inited : bool }.
Abbreviation R := (ST (mem * rng)).

(** A table entry; the index is a [uint8_t], so it is in range. *)
Definition entry (t : list Z) (i : Z) : Z := default 0 (t !! Z.to_nat i).
Definition swap_byte (a b : Z) (t : list Z) : list Z :=
  <[Z.to_nat b := entry t a]> (<[Z.to_nat a := entry t b]> t).

(** The bytes of [seed], the least significant one first. *)
Definition seedp (seed i : Z) : Z := u8 (Z.shiftr seed (8 * (i mod 4))).

Definition mix (seed : Z) (st : list Z * Z) (i : Z) : list Z * Z :=
  let '(t, j) := st in
  let j := u8 (j + entry t i + seedp seed i) in
  (swap_byte i j t, j).

Definition random_init (seed : Z) : rng :=
  let t := seqZ 0 256 in
  let '(t, _) := foldl (mix seed) (t, 0) (seqZ 0 256) in
  Rng t 0 0 true.

(** One round of the loop of [random_bytes]: the next byte and state. *)
Definition round (g : rng) : Z * rng :=
  let s_i := u8 (s_i g + 1) in
  let s_j := u8 (s_j g + entry (s g) s_i) in
  let t := swap_byte s_i s_j (s g) in
  let s_k := u8 (entry t s_i + entry t s_j) in
  (entry t s_k, Rng t s_i s_j (inited g)).

Definition random_bytes (buf size : Z) : R () :=
  g ← gets snd;
  (if negb (inited g) then modify (λ '(m, _), (m, random_init 0)) else mret ());;
  for_each (Z.to_nat size) 0 (λ k,
    g ← gets snd;
    let '(b, g') := round g in
    modify (λ '(m, _), (m, g'));;
    on_mem (stb (buf + k) b)).

(** [ul] is a local variable of four bytes; its address does not matter. *)
Definition random_ulong (ul : Z) : R Z :=
  random_bytes ul 4;;
  b0 ← on_mem (ldb ul); b1 ← on_mem (ldb (ul + 1)); b2 ← on_mem (ldb (ul + 2)); b3 ← on_mem (ldb (ul + 3));
  mret (b0 + 2 ^ 8 * b1 + 2 ^ 16 * b2 + 2 ^ 24 * b3).

(** ** The table stays a permutation of the bytes *)

Record rng_ok (g : rng) : Prop := RngOk {
  ok_table : s g ≡ₚ seqZ 0 256;
  ok_i : fits 8 (s_i g);
  ok_j : fits 8 (s_j g);
}.

Lemma swap_byte_perm t a b : fits 8 a → fits 8 b → length t = 256%nat → swap_byte a b t ≡ₚ t.
Proof.
  intros [Ha1 Ha2] [Hb1 Hb2] Hl. unfold swap_byte, entry. change (2 ^ 8) with 256 in *.
  destruct (lookup_lt_is_Some_2 t (Z.to_nat a)) as [x Hx]; [lia|].
  destruct (lookup_lt_is_Some_2 t (Z.to_nat b)) as [y Hy]; [lia|]. rewrite Hx, Hy. cbn [default].
  apply Permutation_inj. split; [by rewrite !length_insert|].
  exists (λ k, if decide (k = Z.to_nat b) then Z.to_nat a else if decide (k = Z.to_nat a) then Z.to_nat b else k).
  split; [intros i j; repeat case_decide; lia|]. intros k. case_decide; subst.
  - by rewrite list_lookup_insert_eq by (rewrite length_insert; lia).
  - rewrite list_lookup_insert_ne by done. case_decide; subst.
    + by rewrite list_lookup_insert_eq by lia.
    + by rewrite list_lookup_insert_ne by done.
Qed.

Lemma table_length t : t ≡ₚ seqZ 0 256 → length t = 256%nat.
Proof. intros ->. apply length_seqZ. Qed.

Lemma table_entry t i : t ≡ₚ seqZ 0 256 → fits 8 i → fits 8 (entry t i).
Proof.
  intros Ht [Hi1 Hi2]. pose proof (table_length t Ht). unfold entry. change (2 ^ 8) with 256 in *.
  destruct (lookup_lt_is_Some_2 t (Z.to_nat i)) as [x Hx]; [lia|]. rewrite Hx. simpl.
  apply list_elem_of_lookup_2 in Hx. rewrite Ht, elem_of_seqZ in Hx. unfold fits. lia.
Qed.

Lemma mix_perm seed st i : fits 8 i → st.1 ≡ₚ seqZ 0 256 → (mix seed st i).1 ≡ₚ seqZ 0 256.
Proof.
  destruct st as [t j]. intros Hi Ht. simpl in *. etrans; [|exact Ht].
  apply swap_byte_perm; [done|by apply wrap_fits|by apply table_length].
Qed.

Lemma random_init_ok seed : rng_ok (random_init seed).
Proof.
  unfold random_init. 
  assert (∀ l st, Forall (fits 8) l → st.1 ≡ₚ seqZ 0 256 → (foldl (mix seed) st l).1 ≡ₚ seqZ 0 256) as H.
  { induction l as [|i l IH]; intros st Hl Hst; [done|]. inversion_clear Hl. simpl. apply IH; [done|].
    by apply mix_perm. }
  specialize (H (seqZ 0 256) (seqZ 0 256, 0)). destruct (foldl (mix seed) _ _) as [t j].
  split; simpl in *; [|done|done]. apply H; [|done]. apply Forall_forall. intros i. rewrite elem_of_seqZ. unfold fits. lia.
Qed.

Lemma round_ok g : rng_ok g → rng_ok (round g).2 ∧ byte (round g).1.
Proof.
  intros [Ht Hi Hj]. unfold round. cbn [fst snd].
  assert (swap_byte (u8 (s_i g + 1)) (u8 (s_j g + entry (s g) (u8 (s_i g + 1)))) (s g) ≡ₚ seqZ 0 256) as Ht'.
  { etrans; [|exact Ht]. apply swap_byte_perm; [by apply wrap_fits..|by apply table_length]. }
  split; [split; [done|by apply wrap_fits|by apply wrap_fits]|]. apply table_entry; [done|by apply wrap_fits].
Qed.

(** The bytes the generator gives from a state, and the state after them. *)
Fixpoint stream (n : nat) (g : rng) : list Z * rng :=
  match n with
  | O => ([], g)
  | S n => let '(l, g) := stream n g in let '(b, g) := round g in (l ++ [b], g)
  end.

Lemma stream_ok n g : rng_ok g → rng_ok (stream n g).2 ∧ Forall byte (stream n g).1 ∧ length (stream n g).1 = n.
Proof.
  intros Hg. induction n as [|n (IH1 & IH2 & IH3)]; [by split_and!|]. cbn [stream].
  destruct (stream n g) as [l g1]. pose proof (round_ok g1 IH1) as [H1 H2].
  destruct (round g1) as [b g2]. cbn [fst snd] in *. split_and!; [done| |by rewrite length_app, IH3, Nat.add_1_r].
  apply Forall_app. split; [done|by constructor].
Qed.

Lemma random_bytes_spec m g buf n : rng_ok g → inited g = true → mapped m buf (Z.of_nat n) →
  random_bytes buf (Z.of_nat n) (m, g) = Ret ((), (write buf (stream n g).1 m, (stream n g).2)).
Proof.
  intros Hg Hin Hm. unfold random_bytes. run_by ltac:(done). cbn [snd]. rewrite Hin. cbn [negb]. run_by ltac:(done).
  rewrite Nat2Z.id.
  enough (wp (for_each n 0 (λ k, g0 ← gets snd; let '(b, g') := round g0 in
            modify (λ '(m, _), (m, g'));; on_mem (stb (buf + k) b))) (m, g)
          (λ _ s, s = (write buf (stream n g).1 m, (stream n g).2))) as (s' & -> & ->)%wp_unit by done.
  apply (wp_for_each (λ k s, s = (write buf (stream (Z.to_nat k) g).1 m, (stream (Z.to_nat k) g).2))).
  - intros k ? Hk ->. wp_bind_by ltac:(done). cbn [snd].
    pose proof (stream_ok (Z.to_nat k) g Hg) as (H1 & H2 & H3).
    pose proof (round_ok _ H1) as [H4 H5].
    replace (Z.to_nat (k + 1)) with (S (Z.to_nat k)) by lia. cbn [stream].
    destruct (stream (Z.to_nat k) g) as [l g1]. cbn [fst snd] in *. destruct (round g1) as [b g2]. cbn [fst snd] in *.
    wp_bind_by ltac:(done). eapply wp_run.
    + unfold on_mem. rewrite (stb_run _ _ b); [done|done|].
      rewrite write_out by lia. apply Hm. lia.
    + cbn [fst snd]. rewrite write_snoc. do 3 f_equal. lia.
  - intros ? ->. by rewrite Z.add_0_l, Nat2Z.id.
  - done.
Qed.

(** A generator that has not been seeded. *)
Lemma random_bytes_unseeded buf n m g r : inited g = false → random_init 0 = r → inited r = true →
  random_bytes buf n (m, g) = random_bytes buf n (m, r).
Proof.
  intros Hg Hr Hi. unfold random_bytes. rewrite Hr. clear Hr. do 2 run_by ltac:(done). cbn [snd]. rewrite Hg, Hi. cbn [negb].
  do 2 run_by ltac:(done). done.
Qed.

(** The generator's table is always a permutation of the 256 bytes: seeding makes it one
    and generating bytes keeps it one.  [random_bytes] writes exactly [n] bytes, the stream
    the state determines, into the buffer and nothing elsewhere; a generator that has not been
    seeded is seeded with 0 first. *)
Theorem random_bytes_correct m g buf n :
  (inited g = true → rng_ok g) → mapped m buf (Z.of_nat n) →
  let g0 := if inited g then g else random_init 0 in
  ∃ g', random_bytes buf (Z.of_nat n) (m, g) = Ret ((), (write buf (stream n g0).1 m, g')) ∧
    rng_ok g' ∧ Forall byte (stream n g0).1 ∧ length (stream n g0).1 = n.
Proof.
  intros Hg Hm g0. assert (rng_ok g0 ∧ inited g0 = true) as [H0 H1].
  { unfold g0. destruct (inited g) eqn:E; [by split; [apply Hg|]|]. split; [apply random_init_ok|].
    unfold random_init. by destruct (foldl _ _ _). }
  pose proof (stream_ok n g0 H0) as (? & ? & ?). exists (stream n g0).2. split_and!; [|done..].
  rewrite <-(random_bytes_spec m g0 buf n H0 H1 Hm). unfold g0 in *.
  destruct (inited g) eqn:E; [reflexivity|]. apply random_bytes_unseeded; [assumption|reflexivity|assumption].
Qed.

Lemma random_bytes_correct_witness :
  let m := write 100 [0; 0; 0] ∅ in
  let g := Rng [] 0 0 false in
  let g0 := if inited g then g else random_init 0 in
  ∃ g', random_bytes 100 (Z.of_nat 3) (m, g) = Ret ((), (write 100 (stream 3 g0).1 m, g')) ∧
    rng_ok g' ∧ Forall byte (stream 3 g0).1 ∧ length (stream 3 g0).1 = 3%nat.
Proof. exact (random_bytes_correct (write 100 [0; 0; 0] ∅) (Rng [] 0 0 false) 100 3 ltac:(done) ltac:(by_evaluation)). Defined.
