(* ===== verification/Hash.v ===== *)
(** * Hash tables: src/src/lib/kernel/hash.c

    The buckets are lists of list.c in the heap of links.  A [struct hash_elem] is its
    [list_elem], at the same address.  The hash and comparison functions of a table are
    parameters, their [aux] argument included.  [malloc] is another component: a function that
    may allocate is given the address [malloc] answers, null if there is no memory, and the
    cells of that storage are in the heap. *)
From S2P Require Import Prelude KList CString.

Record hash := Hash { elem_cnt : Z; bucket_cnt : Z; buckets : addr }.
Record hstate := HState { links : heap; table : hash }.
Abbreviation H := (ST hstate).

Definition on_links {A} (f : L A) : H A := λ st,
  match f (links st) with
  | Ret (a, h) => Ret (a, HState h (table st))
  | Panic => Panic
  | Fault => Fault
  | NoFuel => NoFuel
  end.
Definition set_table (t : hash) : H () := modify (λ st, HState (links st) t).

(** [&buckets[i]]: a [struct list] has 16 bytes. *)
Definition bucket_at (buckets i : Z) : addr := buckets + 16 * i.

Definition turn_off_least_1bit (x : Z) : Z := Z.land x (u32 (x - 1)).
Definition is_power_of_2 (x : Z) : bool := negb (x =? 0) && (turn_off_least_1bit x =? 0).

(** [while (!is_power_of_2 (n)) n = turn_off_least_1bit (n)]: at most 32 bits are turned off. *)
Fixpoint round_to_power (fuel : nat) (n : Z) : res Z :=
  match fuel with
  | O => NoFuel
  | S fuel => if is_power_of_2 n then Ret n else round_to_power fuel (turn_off_least_1bit n)
  end.

(** Loops over the elements of a bucket: bounded by the number of links. *)
Definition walk_links {A B} (body : A → H (ctl A B)) (a : A) : H B := λ st, loop (S (size (links st))) body a st.

Section functions.
Context (hash_fn : addr → Z) (less : addr → addr → bool).

Definition find_bucket (e : addr) : H addr :=
  t ← gets table;
  let bucket_idx := Z.land (hash_fn e) (u32 (bucket_cnt t - 1)) in
  mret (bucket_at (buckets t) bucket_idx).

Definition find_elem (bucket e : addr) : H addr :=
  i ← on_links (list_begin bucket);
  on_links (walk (λ i,
    en ← list_end bucket;
    if i =? en then mret (Stop NULL)
    else if negb (less i e) && negb (less e i) then mret (Stop i)
    else n ← list_next i; mret (Next n)) i).

Definition insert_elem (bucket e : addr) : H () :=
  t ← gets table;
  set_table (Hash (u32 (elem_cnt t + 1)) (bucket_cnt t) (buckets t));;
  on_links (list_push_front bucket e).

Definition remove_elem (e : addr) : H () :=
  t ← gets table;
  set_table (Hash (u32 (elem_cnt t - 1)) (bucket_cnt t) (buckets t));;
  _ ← on_links (list_remove e);
  mret ().

(** Moves the elements of one old bucket; each iteration removes an element from it. *)
Definition rehash_bucket (old_bucket : addr) : H () :=
  e ← on_links (list_begin old_bucket);
  walk_links (λ elem,
    en ← on_links (list_end old_bucket);
    if elem =? en then mret (Stop ())
    else
      new_bucket ← find_bucket elem;
      n ← on_links (list_next elem);
      _ ← on_links (list_remove elem);
      on_links (list_push_front new_bucket elem);;
      mret (Next n)) e.

Definition BEST_ELEMS_PER_BUCKET : Z := 2.

Definition rehash (malloc : addr) : H () :=
  t ← gets table;
  let old_buckets := buckets t in
  let old_bucket_cnt := bucket_cnt t in
  let new_bucket_cnt := elem_cnt t / BEST_ELEMS_PER_BUCKET in
  let new_bucket_cnt := if new_bucket_cnt <? 4 then 4 else new_bucket_cnt in
  new_bucket_cnt ← lift (round_to_power 33 new_bucket_cnt);
  if new_bucket_cnt =? old_bucket_cnt then mret () else
  let new_buckets := malloc in
  if negb (nonnull new_buckets) then mret () else
  for_each (Z.to_nat new_bucket_cnt) 0 (λ i, on_links (list_init (bucket_at new_buckets i)));;
  set_table (Hash (elem_cnt t) new_bucket_cnt new_buckets);;
  for_each (Z.to_nat old_bucket_cnt) 0 (λ i, rehash_bucket (bucket_at old_buckets i)).

(** [destructor] is [None] for a null pointer. *)
Definition clear_bucket (destructor : addr → H ()) (bucket : addr) : H () :=
  walk_links (λ '(),
    e ← on_links (list_empty bucket);
    if (e : bool) then mret (Stop ())
    else x ← on_links (list_pop_front bucket); destructor x;; mret (Next ())) ().

Definition hash_clear (destructor : option (addr → H ())) : H () :=
  t ← gets table;
  for_each (Z.to_nat (bucket_cnt t)) 0 (λ i,
    let bucket := bucket_at (buckets t) i in
    match destructor with Some d => clear_bucket d bucket | None => mret () end;;
    on_links (list_init bucket));;
  t ← gets table;
  set_table (Hash 0 (bucket_cnt t) (buckets t)).

Definition hash_init (malloc : addr) : H bool :=
  set_table (Hash 0 4 malloc);;
  if nonnull malloc then hash_clear None;; mret true else mret false.

(** Freeing the buckets changes nothing that the model shows. *)
Definition hash_destroy (destructor : option (addr → H ())) : H () :=
  match destructor with Some d => hash_clear (Some d) | None => mret () end.

Definition hash_insert (malloc new : addr) : H addr :=
  bucket ← find_bucket new;
  old ← find_elem bucket new;
  (if old =? NULL then insert_elem bucket new else mret ());;
  rehash malloc;;
  mret old.

Definition hash_replace (malloc new : addr) : H addr :=
  bucket ← find_bucket new;
  old ← find_elem bucket new;
  (if nonnull old then remove_elem old else mret ());;
  insert_elem bucket new;;
  rehash malloc;;
  mret old.

Definition hash_find (e : addr) : H addr :=
  bucket ← find_bucket e; find_elem bucket e.

Definition hash_delete (malloc e : addr) : H addr :=
  bucket ← find_bucket e;
  found ← find_elem bucket e;
  (if nonnull found then remove_elem found;; rehash malloc else mret ());;
  mret found.

Definition hash_apply (action : addr → H ()) : H () :=
  t ← gets table;
  for_each (Z.to_nat (bucket_cnt t)) 0 (λ i,
    let bucket := bucket_at (buckets t) i in
    e ← on_links (list_begin bucket);
    walk_links (λ elem,
      en ← on_links (list_end bucket);
      if elem =? en then mret (Stop ())
      else n ← on_links (list_next elem); action elem;; mret (Next n)) e).

(** The iterator: its bucket and element. *)
Record hash_iterator := HashIterator { it_bucket : addr; it_elem : addr }.

Definition hash_first : H hash_iterator :=
  t ← gets table;
  e ← on_links (list_head (buckets t));
  mret (HashIterator (buckets t) e).

(** Each iteration of the loop goes to the next bucket. *)
Definition hash_next (i : hash_iterator) : H (addr * hash_iterator) :=
  e ← on_links (list_next (it_elem i));
  t ← gets table;
  loop (S (Z.to_nat (bucket_cnt t))) (λ i,
    en ← on_links (list_end (it_bucket i));
    if it_elem i =? en then
      let b := it_bucket i + 16 in
      if b >=? bucket_at (buckets t) (bucket_cnt t) then mret (Stop (NULL, HashIterator b NULL))
      else e ← on_links (list_begin b); mret (Next (HashIterator b e))
    else mret (Stop (it_elem i, i))) (HashIterator (it_bucket i) e).

Definition hash_cur (i : hash_iterator) : addr := it_elem i.
Definition hash_size : H Z := t ← gets table; mret (elem_cnt t).
Definition hash_empty : H bool := t ← gets table; mret (elem_cnt t =? 0).
End functions.

(** ** Hash functions *)

Definition FNV_32_PRIME : Z := 16777619.
Definition FNV_32_BASIS : Z := 2166136261.
Definition fnv (hash b : Z) : Z := Z.lxor (u32 (hash * FNV_32_PRIME)) b.

Definition hash_bytes (buf size : Z) : M Z :=
  assert (nonnull buf);;
  loop (S (Z.to_nat size)) (λ '(i, hash),
    if i <? size then b ← ldb (buf + i); mret (Next (i + 1, fnv hash b))
    else mret (Stop hash)) (0, FNV_32_BASIS).

Definition hash_string (s : addr) : M Z :=
  assert (nonnull s);;
  scan (λ '(s, hash),
    b ← ldb s;
    if b =? 0 then mret (Stop hash) else mret (Next (s + 1, fnv hash b))) (s, FNV_32_BASIS).

(** [i] is passed by its four bytes. *)
Definition int_bytes (i : Z) : list Z := (λ k, u8 (Z.shiftr (u32 i) (8 * k))) <$> [0; 1; 2; 3].
Definition hash_int (i : Z) : Z := foldl fnv FNV_32_BASIS (int_bytes i).
