(* ===== verification/HashProofs.v ===== *)
(** * Hash tables: the table represents a set of elements with distinct keys

    An array of buckets represents a set when each bucket is a list of exactly the elements
    whose index it is.  Operations on one bucket change the set; [rehash] moves the set from
    one array to another. *)
From S2P Require Import Prelude KList KListProofs Hash.

(** ** Powers of two *)

Lemma odd_part n : 0 < n → ∃ a b, 0 ≤ a ∧ 0 ≤ b ∧ n = 2 ^ a * (2 * b + 1).
Proof.
  intros Hn. remember (Z.to_nat n) as k eqn:Hk. assert (Z.to_nat n ≤ k)%nat as Hle by lia. clear Hk.
  revert n Hn Hle. induction k as [|k IH]; intros n Hn Hle; [lia|].
  pose proof (Z.div_mod n 2 ltac:(lia)). pose proof (Z.mod_pos_bound n 2 ltac:(lia)).
  destruct (decide (n mod 2 = 1)).
  - exists 0, (n / 2). lia.
  - destruct (IH (n / 2)) as (a & b & Ha & Hb & E); [lia|lia|]. exists (a + 1), b. split_and!; [lia|done|].
    rewrite Z.pow_add_r by lia. change (2 ^ 1) with 2. lia.
Qed.

Lemma land_shifted b a c : 0 ≤ a → 0 ≤ c < 2 ^ (a + 1) → Z.land (Z.shiftl b (a + 1)) c = 0.
Proof.
  intros Ha Hc. apply Z.bits_inj'. intros i Hi. rewrite Z.land_spec, Z.bits_0.
  destruct (decide (i < a + 1)); [by rewrite Z.shiftl_spec_low|].
  rewrite <-(Z.mod_small c (2 ^ (a + 1))) by lia. rewrite Z.mod_pow2_bits_high by lia. apply andb_false_r.
Qed.

Lemma turn_off_spec a b n : 0 ≤ a → 0 ≤ b → n = 2 ^ a * (2 * b + 1) → fits 32 n →
  turn_off_least_1bit n = 2 ^ (a + 1) * b.
Proof.
  intros Ha Hb -> Hn. assert (0 < 2 ^ a) by (apply Z.pow_pos_nonneg; lia).
  unfold turn_off_least_1bit. rewrite wrap_small by (unfold fits in *; nia).
  assert (2 ^ (a + 1) = 2 * 2 ^ a) as E by (rewrite Z.pow_add_r by lia; lia).
  set (A := Z.shiftl b (a + 1)). assert (A = 2 ^ (a + 1) * b) as HA by (unfold A; rewrite Z.shiftl_mul_pow2; lia).
  replace (2 ^ a * (2 * b + 1)) with (A + 2 ^ a) at 1 by nia.
  replace (2 ^ a * (2 * b + 1) - 1) with (A + Z.ones a) by (rewrite Z.ones_equiv; nia).
  rewrite (Z.add_nocarry_lor A (2 ^ a)), (Z.add_nocarry_lor A (Z.ones a)).
  - rewrite <-Z.lor_land_distr_r, Z.land_ones by lia. rewrite Z.mod_same, Z.lor_0_r by lia. done.
  - apply land_shifted; [lia|]. rewrite Z.ones_equiv. lia.
  - apply land_shifted; lia.
Qed.

Lemma is_power_spec a b n : 0 ≤ a → 0 ≤ b → n = 2 ^ a * (2 * b + 1) → fits 32 n →
  is_power_of_2 n = (b =? 0).
Proof.
  intros Ha Hb En Hn. assert (0 < 2 ^ a) by (apply Z.pow_pos_nonneg; lia).
  unfold is_power_of_2. rewrite (proj2 (Z.eqb_neq n 0)) by nia. rewrite (turn_off_spec a b n Ha Hb En Hn). simpl.
  assert (0 < 2 ^ (a + 1)) by (apply Z.pow_pos_nonneg; lia).
  destruct (Z.eqb_spec b 0) as [->|]; [by rewrite Z.mul_0_r|]. apply Z.eqb_neq. nia.
Qed.

Lemma round_to_power_spec fuel : ∀ n j, 0 < n → fits 32 n → 0 ≤ j → (2 ^ j | n) → (32 < Z.of_nat fuel + j) →
  ∃ k, 0 ≤ k < 32 ∧ round_to_power fuel n = Ret (2 ^ k).
Proof.
  induction fuel as [|fuel IH]; intros n j Hn Hf Hj [q Hq] Hfuel.
  - exfalso. assert (2 ^ 32 ≤ 2 ^ j) by (apply Z.pow_le_mono_r; lia). unfold fits in Hf.
    assert (0 < q) by (apply Z.nle_gt; intros ?; nia). nia.
  - destruct (odd_part n Hn) as (a & b & Ha & Hb & E). cbn [round_to_power].
    assert (0 < 2 ^ a) by (apply Z.pow_pos_nonneg; lia).
    assert (a < 32) as Ha32.
    { apply Z.nle_gt. intros Hle. assert (2 ^ 32 ≤ 2 ^ a) by (apply Z.pow_le_mono_r; lia). unfold fits in Hf. nia. }
    rewrite (is_power_spec a b n Ha Hb E Hf). destruct (Z.eqb_spec b 0) as [->|Hnz].
    + exists a. split; [lia|]. f_equal. lia.
    + rewrite (turn_off_spec a b n Ha Hb E Hf).
      assert (2 ^ (a + 1) = 2 * 2 ^ a) as E2 by (rewrite Z.pow_add_r by lia; lia).
      assert (j ≤ a) as Hja.
      { apply Z.nlt_ge. intros Hlt. assert (2 ^ j = 2 ^ (a + 1) * 2 ^ (j - a - 1)) as Ej
          by (rewrite <-Z.pow_add_r by lia; f_equal; lia).
        assert (2 * b + 1 = 2 * (q * 2 ^ (j - a - 1))); [|lia].
        apply (Z.mul_reg_l _ _ (2 ^ a)); [lia|]. rewrite <-E, Hq, Ej, E2. ring. }
      apply (IH _ (a + 1)); [nia|unfold fits in *; nia|lia|apply Z.divide_factor_l|lia].
Qed.

(** ** Arrays of buckets *)

Definition header (base cnt a : Z) : Prop := base ≤ a < base + 16 * cnt.

(** Each bucket of the array at [base] is a list of the elements of [S] whose index under
    [f] it is. *)
Definition part (h : heap) (base cnt : Z) (f : addr → Z) (S : gset addr) : Prop :=
  ∀ i, 0 ≤ i < cnt → ∃ xs, list_rep h (bucket_at base i) xs ∧ ∀ e, e ∈ xs ↔ e ∈ S ∧ f e = i.

(** Two heaps agree outside [P]. *)
Definition framed (P : addr → Prop) (h h' : heap) : Prop :=
  dom h' = dom h ∧ ∀ a, ¬ P a → h' !! a = h !! a.

Lemma framed_trans P h1 h2 h3 : framed P h1 h2 → framed P h2 h3 → framed P h1 h3.
Proof. intros [D1 E1] [D2 E2]. split; [congruence|]. intros a Ha. by rewrite E2, E1. Qed.
Lemma framed_mono (P Q : addr → Prop) h h' : (∀ a, P a → Q a) → framed P h h' → framed Q h h'.
Proof. intros HPQ [D E]. split; [done|]. intros a Ha. apply E. auto. Qed.
Lemma framed_frame (P : addr → Prop) ns h h' : (∀ a, a ∈ ns → P a) → frame ns h h' → framed P h h'.
Proof. intros HP [D E]. split; [done|]. intros a Ha. apply E. auto. Qed.
Lemma framed_is_Some P h h' a : framed P h h' → is_Some (h !! a) → is_Some (h' !! a).
Proof. intros [D _]. rewrite <-!elem_of_dom. by rewrite D. Qed.
Lemma framed_size P h h' : framed P h h' → size h' = size h.
Proof. intros [D _]. by rewrite <-!size_dom, D. Qed.

Lemma rep_framed (P : addr → Prop) h h' l xs : framed P h h' → (∀ a, a ∈ nodes l xs → ¬ P a) →
  list_rep h l xs → list_rep h' l xs.
Proof.
  intros [D E] Hd [Hnd Hnn Hh Ht Hc].
  assert (∀ f a, a ∈ nodes l xs → fld f h' a = fld f h a) as Hf by (intros f a Ha; unfold fld; by rewrite E by auto).
  split; try done.
  - rewrite Hf; [done|]. unfold nodes. set_solver.
  - rewrite Hf; [done|]. unfold nodes. set_solver.
  - eapply chain_ext; [|exact Hc]. intros l1 a b l2 E'. split; apply Hf; rewrite E'; set_solver.
Qed.

Lemma bucket_nodes base i xs a : a ∈ nodes (bucket_at base i) xs ↔
  a = base + 16 * i ∨ a = base + 16 * i + 8 ∨ a ∈ xs.
Proof. unfold nodes, head_of, tail_of, bucket_at. set_solver. Qed.

Section part.
Context (base cnt : Z) (f : addr → Z).
Implicit Types S : gset addr.

Lemma part_framed P h h' S : framed P h h' → (∀ a, P a → ¬ header base cnt a ∧ a ∉ S) →
  part h base cnt f S → part h' base cnt f S.
Proof.
  intros Hf HP Hpart i Hi. destruct (Hpart i Hi) as (xs & Hr & Hxs). exists xs. split; [|done].
  eapply rep_framed; [exact Hf| |exact Hr]. intros a Ha Hpa. destruct (HP a Hpa) as [Hh HS].
  apply bucket_nodes in Ha as [->|[->|Ha]]; [apply Hh; unfold header; lia..|]. apply HS. by apply Hxs.
Qed.

(** Changing one bucket. *)
Lemma part_change P h h' S S' i xs xs' : part h base cnt f S → (∀ e, e ∈ S → ¬ header base cnt e) →
  0 ≤ i < cnt → (∀ e, e ∈ xs ↔ e ∈ S ∧ f e = i) →
  list_rep h' (bucket_at base i) xs' → framed P h h' →
  (∀ a, P a → a ∈ nodes (bucket_at base i) xs ∨ (¬ header base cnt a ∧ a ∉ S)) →
  (∀ e, e ∈ xs' ↔ e ∈ S' ∧ f e = i) → (∀ e, f e ≠ i → e ∈ S' ↔ e ∈ S) →
  part h' base cnt f S'.
Proof.
  intros Hpart Hhd Hi Hxs Hr' Hf HP Hxs' HS j Hj. destruct (decide (j = i)) as [->|Hne]; [by exists xs'|].
  destruct (Hpart j Hj) as (ys & Hry & Hys). exists ys. split.
  - eapply rep_framed; [exact Hf| |exact Hry]. intros a Ha Hpa.
    assert (a ∈ ys → a ∈ S ∧ f a = j) as Hay by apply Hys.
    apply bucket_nodes in Ha. destruct (HP a Hpa) as [Hin|[Hh HnS]].
    + apply bucket_nodes in Hin. 
      assert (a ∈ xs → a ∈ S ∧ f a = i) as Hax by apply Hxs.
      destruct Ha as [->|[->|Ha]], Hin as [E|[E|Hin]]; try lia;
        [destruct (Hax Hin) as [HaS _]; eapply Hhd; [exact HaS|unfold header; lia]..| | |].
      * destruct (Hay Ha) as [HaS _]. eapply Hhd; [exact HaS|unfold header; lia].
      * destruct (Hay Ha) as [HaS _]. eapply Hhd; [exact HaS|unfold header; lia].
      * destruct (Hay Ha), (Hax Hin). congruence.
    + destruct Ha as [->|[->|Ha]]; [apply Hh; unfold header; lia..|]. by apply HnS, Hay.
  - intros e. rewrite Hys. split; intros [HeS He]; (split; [|done]); apply HS; (congruence || done).
Qed.

Lemma part_push h S e : part h base cnt f S → (∀ e, e ∈ S → ¬ header base cnt e) →
  0 ≤ f e < cnt → e ∉ S → ¬ header base cnt e → e ≠ NULL → is_Some (h !! e) →
  ∃ h', list_push_front (bucket_at base (f e)) e h = Ret ((), h') ∧ part h' base cnt f ({[e]} ∪ S) ∧
    framed (λ a, header base cnt a ∨ a ∈ {[e]} ∪ S) h h'.
Proof.
  intros Hp Hhd Hi HeS Heh Hen Hes. destruct (Hp (f e) Hi) as (xs & Hr & Hxs).
  assert (e ∉ nodes (bucket_at base (f e)) xs) as Hnew.
  { intros [E|[E|Hin]]%bucket_nodes; [apply Heh; unfold header; lia..|]. by apply HeS, Hxs. }
  destruct (list_push_front_spec _ h xs e Hr Hnew Hen Hes) as (h' & Hrun & Hr' & Hfr). exists h'. split; [done|].
  split.
  - refine (part_change _ h h' S _ (f e) xs (e :: xs) Hp Hhd Hi Hxs Hr' (framed_frame _ _ _ _ (λ _ Ha, Ha) Hfr) _ _ _).
    + intros a. rewrite elem_of_cons. intros [->|Ha]; auto.
    + intros x. rewrite elem_of_cons, Hxs, elem_of_union, elem_of_singleton. naive_solver.
    + intros x Hx. rewrite elem_of_union, elem_of_singleton. naive_solver.
  - eapply framed_frame; [|exact Hfr]. intros a. rewrite elem_of_cons, elem_of_union, elem_of_singleton.
    intros [->|Ha]; [auto|]. apply bucket_nodes in Ha as [->|[->|Ha]]; [left; unfold header; lia..|].
    apply Hxs in Ha as [? _]. auto.
Qed.

Lemma part_remove h S e : part h base cnt f S → (∀ e, e ∈ S → ¬ header base cnt e) →
  0 ≤ f e < cnt → e ∈ S →
  ∃ n h', list_remove e h = Ret (n, h') ∧ part h' base cnt f (S ∖ {[e]}) ∧
    framed (λ a, header base cnt a ∨ a ∈ S) h h'.
Proof.
  intros Hp Hhd Hi HeS. destruct (Hp (f e) Hi) as (xs & Hr & Hxs).
  assert (e ∈ xs) as Hin by by apply Hxs. apply list_elem_of_split in Hin as (xs1 & xs2 & ->).
  destruct (list_remove_spec _ h xs1 e xs2 Hr) as (h' & Hrun & Hr' & Hfr). eexists _, h'. split; [exact Hrun|].
  assert (e ∉ xs1 ++ xs2) as Hnd.
  { pose proof (rep_nodup _ _ _ Hr) as Hn. unfold nodes in Hn. apply NoDup_cons in Hn as [_ Hn].
    apply NoDup_app in Hn as (Hn & _ & _). apply NoDup_app in Hn as (_ & Hn1 & Hn2).
    apply NoDup_cons in Hn2 as [Hn2 _]. intros [Ha|Ha]%elem_of_app; [|done]. apply (Hn1 e Ha). set_solver. }
  assert (∀ a, a ∈ nodes (bucket_at base (f e)) (xs1 ++ xs2) → a ∈ nodes (bucket_at base (f e)) (xs1 ++ e :: xs2)) as Hsub.
  { intros a. rewrite !bucket_nodes, !elem_of_app, elem_of_cons. tauto. }
  split.
  - refine (part_change _ h h' S _ (f e) _ (xs1 ++ xs2) Hp Hhd Hi Hxs Hr' (framed_frame _ _ _ _ (λ _ Ha, Ha) Hfr) _ _ _).
    + intros a Ha. auto.
    + intros x. rewrite elem_of_difference, elem_of_singleton.
      specialize (Hxs x). rewrite elem_of_app, elem_of_cons in Hxs. rewrite elem_of_app in *.
      destruct (decide (x = e)) as [->|]; [|naive_solver]. naive_solver.
    + intros x Hx. rewrite elem_of_difference, elem_of_singleton. split; [naive_solver|]. intros. split; [done|]. by intros ->.
  - eapply framed_frame; [|exact Hfr]. intros a Ha%Hsub. apply bucket_nodes in Ha as [->|[->|Ha]]; [left; unfold header; lia..|].
    apply Hxs in Ha as [? _]. auto.
Qed.
End part.

(** ** Moving elements between arrays *)

Lemma on_links_run {A} (c : L A) st a h : c (links st) = Ret (a, h) → on_links c st = Ret (a, HState h (table st)).
Proof. unfold on_links. by intros ->. Qed.

Lemma wp_walk_links {A B} (I : nat → A → hstate → Prop) (body : A → H (ctl A B)) (Q : B → hstate → Prop) n a st :
  (∀ n a s, I n a s →
    wp (body a) s (λ r s',
      match r with Next a' => ∃ n', (n' < n)%nat ∧ I n' a' s' | Stop b => Q b s' end)) →
  I n a st → (n ≤ size (links st))%nat → wp (walk_links body a) st Q.
Proof.
  intros Hb HI Hn. assert (wp (loop (S (size (links st))) body a) st Q) as (b & s & Hrun & HQ)%wp_inv.
  { eapply wp_loop; [done..|lia]. }
  eapply wp_run; [|done]. done.
Qed.

(** The bucket index of an element in a table of [cnt] buckets. *)
Definition index (hash_fn : addr → Z) (cnt : Z) (e : addr) : Z := Z.land (hash_fn e) (u32 (cnt - 1)).

Lemma find_bucket_run hash_fn e h ec cnt base :
  find_bucket hash_fn e (HState h (Hash ec cnt base)) =
    Ret (bucket_at base (index hash_fn cnt e), HState h (Hash ec cnt base)).
Proof. done. Qed.

Section move.
Context (ob ocnt : Z) (fo : addr → Z) (nb ncnt : Z) (fn : addr → Z) (T : gset addr) (D : gset addr).

(** The arrays do not overlap, and no element of [T] is in them. *)
Record apart : Prop := Apart {
  ap_headers a : header ob ocnt a → ¬ header nb ncnt a;
  ap_elems e : e ∈ T → e ≠ NULL ∧ e ∈ D ∧ ¬ header ob ocnt e ∧ ¬ header nb ncnt e;
  ap_old e : e ∈ T → 0 ≤ fo e < ocnt;
  ap_new e : e ∈ T → 0 ≤ fn e < ncnt;
}.

(** [So] is still in the old array, [Sn] already in the new one. *)
Record moving (h : heap) (So Sn : gset addr) : Prop := Moving {
  mv_old : part h ob ocnt fo So;
  mv_new : part h nb ncnt fn Sn;
  mv_disj : So ## Sn;
  mv_all : So ∪ Sn = T;
  mv_dom : dom h = D;
}.

Context (Hap : apart).

Lemma move_step h So Sn i e ys : moving h So Sn → 0 ≤ i < ocnt → e ∈ So →
  list_rep h (bucket_at ob i) (e :: ys) → (∀ y, y ∈ ys → y ∈ So) →
  ∃ n h1 h2, list_remove e h = Ret (n, h1) ∧ list_push_front (bucket_at nb (fn e)) e h1 = Ret ((), h2) ∧
    moving h2 (So ∖ {[e]}) ({[e]} ∪ Sn) ∧ list_rep h2 (bucket_at ob i) ys.
Proof.
  intros [Hold Hnew Hd Hall Hdom] Hi He Hr Hys. destruct Hap as [Hh Hel Hfo Hfn].
  assert (e ∈ T) as HeT by set_solver.
  assert (∀ x, x ∈ So → ¬ header ob ocnt x) as Hho by (intros x Hx; apply Hel; set_solver).
  assert (∀ x, x ∈ Sn → ¬ header nb ncnt x) as Hhn by (intros x Hx; apply Hel; set_solver).
  destruct (part_remove ob ocnt fo h So e Hold Hho (Hfo e HeT) He) as (n & h1 & Hrun1 & Hold1 & Hf1).
  destruct (list_remove_spec _ h [] e ys Hr) as (h1' & Hrun1' & Hr1 & _).
  rewrite Hrun1 in Hrun1'. injection Hrun1' as Hn Hh1. subst h1'. simpl in Hr1.
  assert (part h1 nb ncnt fn Sn) as Hnew1.
  { eapply part_framed; [exact Hf1| |exact Hnew]. intros a [Ha|Ha]; [|split; [apply Hel; set_solver|set_solver]].
    split; [by apply Hh|]. intros Hs. destruct (Hel a) as (_ & _ & Ho & _); [set_solver|]. exact (Ho Ha). }
  destruct (Hel e HeT) as (Hen & HeD & Heo & Hehn).
  destruct (part_push nb ncnt fn h1 Sn e Hnew1 Hhn (Hfn e HeT)) as (h2 & Hrun2 & Hnew2 & Hf2); [set_solver|done|done| |].
  { eapply framed_is_Some; [exact Hf1|]. apply elem_of_dom. by rewrite Hdom. }
  assert (∀ a, header nb ncnt a ∨ a ∈ {[e]} ∪ Sn → ¬ header ob ocnt a ∧ a ∉ So ∖ {[e]}) as Hout.
  { intros a [Ha|Ha].
    - split; [intros Hx; exact (Hh a Hx Ha)|]. intros [Hs _]%elem_of_difference. destruct (Hel a) as (_ & _ & _ & Ho); [set_solver|]. exact (Ho Ha).
    - split; [apply Hel; set_solver|set_solver]. }
  exists n, h1, h2. split; [done|]. split; [done|]. split.
  - split; [|done|set_solver| |by rewrite (proj1 Hf2), (proj1 Hf1)].
    + eapply part_framed; [exact Hf2|exact Hout|exact Hold1].
    + apply set_eq. intros x. destruct (decide (x = e)); set_solver.
  - eapply rep_framed; [exact Hf2| |exact Hr1]. intros a Ha Hpa. destruct (Hout a Hpa) as [Hno Hns].
    apply bucket_nodes in Ha as [->|[->|Ha]]; [apply Hno; unfold header; lia..|].
    apply Hns, elem_of_difference. split; [by apply Hys|].
    pose proof (rep_nodup _ _ _ Hr) as Hn'. unfold nodes in Hn'. apply NoDup_cons in Hn' as [_ Hn'].
    apply NoDup_cons in Hn' as [Hn' _]. set_solver.
Qed.

Context (hash_fn : addr → Z) (ec : Z) (Hfn : ∀ e, fn e = index hash_fn ncnt e).
Abbreviation t := (Hash ec ncnt nb).

Lemma rehash_bucket_spec h So Sn i : moving h So Sn → 0 ≤ i < ocnt →
  wp (rehash_bucket hash_fn (bucket_at ob i)) (HState h t)
    (λ _ st, ∃ h' So' Sn', st = HState h' t ∧ moving h' So' Sn' ∧ ∀ e, e ∈ So' → e ∈ So ∧ fo e ≠ i).
Proof.
  intros Hm Hi. destruct (mv_old _ _ _ Hm i Hi) as (xs & Hr & Hxs). unfold rehash_bucket.
  wp_bind_by ltac:(apply on_links_run, (list_begin_run _ _ _ Hr)).
  apply (wp_walk_links (λ n elem st, ∃ h1 So1 Sn1 ys, st = HState h1 t ∧ moving h1 So1 Sn1 ∧ n = length ys ∧
    list_rep h1 (bucket_at ob i) ys ∧ elem = first_of (bucket_at ob i) ys ∧
    (∀ e, e ∈ ys ↔ e ∈ So1 ∧ fo e = i) ∧ (∀ e, e ∈ So1 → e ∈ So))) with (n := length xs).
  - intros n elem st (h1 & So1 & Sn1 & ys & -> & Hm1 & -> & Hr1 & -> & Hys & Hsub).
    wp_bind_by ltac:(apply on_links_run, (list_end_run _ _ _ Hr1)).
    rewrite (rep_tail_eqb h1 (bucket_at ob i) [] ys Hr1). case_bool_decide as E.
    + subst ys. apply wp_ret. exists h1, So1, Sn1. split_and!; [done..|]. intros e He. split; [by apply Hsub|].
      intros Hf. assert (e ∈ []) as []%not_elem_of_nil by by apply Hys.
    + destruct ys as [|e ys]; [done|].
      assert (e ∈ So1 ∧ fo e = i) as [HeS Hfe] by (apply Hys; set_solver).
      destruct (move_step h1 So1 Sn1 i e ys Hm1 Hi HeS Hr1) as (n & h2 & h3 & Hrm & Hpush & Hm3 & Hr3).
      { intros y Hy. apply Hys. set_solver. }
      wp_bind_by ltac:(apply find_bucket_run).
      wp_bind_by ltac:(apply on_links_run, (list_next_elem_run (bucket_at ob i) h1 [] e ys Hr1)).
      wp_bind_by ltac:(apply on_links_run, Hrm).
      wp_bind_by ltac:(apply on_links_run; cbn [links first_of List.hd]; rewrite <-Hfn; exact Hpush).
      apply wp_ret. exists (length ys). split; [simpl; lia|].
      exists h3, (So1 ∖ {[e]}), ({[e]} ∪ Sn1), ys. split_and!; try done.
      * intros x. specialize (Hys x). rewrite elem_of_cons in Hys. rewrite elem_of_difference, elem_of_singleton.
        assert (x ∈ ys → x ≠ e) as Hne.
        { intros Hx ->. pose proof (rep_nodup _ _ _ Hr1) as Hn'. unfold nodes in Hn'. apply NoDup_cons in Hn' as [_ Hn'].
          apply NoDup_cons in Hn' as [Hn' _]. set_solver. }
        naive_solver.
      * intros x [Hx _]%elem_of_difference. by apply Hsub.
  - exists h, So, Sn, xs. split_and!; try done.
  - apply rep_size in Hr. cbn. lia.
Qed.
End move.

(** ** Well-formed tables *)

Section table.
Context (hash_fn : addr → Z) (less : addr → addr → bool).
Context (Hhash : ∀ e, fits 32 (hash_fn e)).

Definition equal (a b : addr) : bool := negb (less a b) && negb (less b a).

Lemma equal_sym a b : equal a b = equal b a.
Proof. apply andb_comm. Qed.

(** The table represents the set [S] of elements, which have distinct keys. *)
Record hash_ok (st : hstate) (S : gset addr) : Prop := HashOk {
  ho_part : part (links st) (buckets (table st)) (bucket_cnt (table st)) (index hash_fn (bucket_cnt (table st))) S;
  ho_pow : ∃ k, 0 ≤ k < 32 ∧ bucket_cnt (table st) = 2 ^ k;
  ho_elems e : e ∈ S →
    e ≠ NULL ∧ is_Some (links st !! e) ∧ ¬ header (buckets (table st)) (bucket_cnt (table st)) e;
  ho_cnt : elem_cnt (table st) = Z.of_nat (size S) ∧ Z.of_nat (size S) < 2 ^ 32;
  ho_keys a b : a ∈ S → b ∈ S → equal a b = true → a = b;
}.

Lemma index_bound k e : 0 ≤ k < 32 → 0 ≤ index hash_fn (2 ^ k) e < 2 ^ k.
Proof.
  intros Hk. assert (2 ^ k ≤ 2 ^ 31) by (apply Z.pow_le_mono_r; lia).
  assert (0 < 2 ^ k) by (apply Z.pow_pos_nonneg; lia). unfold index.
  rewrite wrap_small by (unfold fits; lia). replace (2 ^ k - 1) with (Z.ones k) by (rewrite Z.ones_equiv; lia).
  rewrite Z.land_ones by lia. by apply Z.mod_pos_bound.
Qed.

(** Storage [malloc] may answer for [n] buckets: its own, and none of the table's. *)
Record fresh_buckets (st : hstate) (S : gset addr) (nb n : Z) : Prop := FreshBuckets {
  fb_pos : 0 < nb;
  fb_room i : 0 ≤ i < n → is_Some (links st !! bucket_at nb i) ∧ is_Some (links st !! (bucket_at nb i + 8));
  fb_apart a : header nb n a → ¬ header (buckets (table st)) (bucket_cnt (table st)) a ∧ a ∉ S;
}.

(** The number of buckets [rehash] aims at for [c] elements. *)
Definition goal_cnt (c : Z) : Z := let n := c / BEST_ELEMS_PER_BUCKET in if n <? 4 then 4 else n.

Definition malloc_answer (st : hstate) (S : gset addr) (c nb : Z) : Prop :=
  nb = NULL ∨ ∀ n, round_to_power 33 (goal_cnt c) = Ret n → fresh_buckets st S nb n.

Lemma init_buckets st nb n : 0 < nb →
  (∀ i, 0 ≤ i < n → is_Some (links st !! bucket_at nb i) ∧ is_Some (links st !! (bucket_at nb i + 8))) → 0 ≤ n →
  wp (for_each (Z.to_nat n) 0 (λ i, on_links (list_init (bucket_at nb i)))) st
    (λ _ st', table st' = table st ∧ framed (header nb n) (links st) (links st') ∧
       ∀ i, 0 ≤ i < n → list_rep (links st') (bucket_at nb i) []).
Proof.
  intros Hpos Hroom Hn.
  apply (wp_for_each (λ k st', table st' = table st ∧ framed (header nb n) (links st) (links st') ∧
       ∀ i, 0 ≤ i < k → list_rep (links st') (bucket_at nb i) [])).
  - intros k [h t] Hk (Ht & Hf & Hr). cbn [links table] in *. destruct (Hroom k ltac:(lia)) as [H1 H2].
    destruct (list_init_spec (bucket_at nb k) h) as (h' & Hrun & Hr' & Hfr).
    { unfold bucket_at. lia. } { by eapply framed_is_Some. } { by eapply framed_is_Some. }
    eapply wp_run; [by apply on_links_run|]. cbn [links table]. split; [done|]. split.
    + eapply framed_trans; [exact Hf|]. eapply framed_frame; [|exact Hfr]. intros a.
      rewrite elem_of_pair. unfold head_of, tail_of, bucket_at, header. lia.
    + intros i Hi. destruct (decide (i = k)) as [->|]; [done|].
      eapply rep_frame; [exact Hfr| |apply Hr; lia]. intros a.
      rewrite bucket_nodes, elem_of_pair, elem_of_nil. unfold head_of, tail_of, bucket_at. lia.
  - intros st' (Ht & Hf & Hr). split_and!; [done..|]. intros i Hi. apply Hr. lia.
  - split_and!; [done|split; done|]. intros i Hi. lia.
Qed.

Lemma goal_cnt_round c : 0 ≤ c < 2 ^ 32 → ∃ k, 0 ≤ k < 32 ∧ round_to_power 33 (goal_cnt c) = Ret (2 ^ k).
Proof.
  intros Hc. assert (4 ≤ goal_cnt c ≤ 2 ^ 32 - 1).
  { unfold goal_cnt, BEST_ELEMS_PER_BUCKET. pose proof (Z.div_mod c 2). pose proof (Z.mod_pos_bound c 2).
    destruct (Z.ltb_spec (c / 2) 4); lia. }
  apply (round_to_power_spec 33 _ 0); [lia|unfold fits; lia|done|apply Z.divide_1_l|lia].
Qed.

(** The table with its elements moved to new buckets. *)
Lemma hash_ok_moved h S ec ocnt ob nb k h' Sn : hash_ok (HState h (Hash ec ocnt ob)) S → 0 ≤ k < 32 →
  apart ob ocnt (index hash_fn ocnt) nb (2 ^ k) (index hash_fn (2 ^ k)) S (dom h) →
  moving ob ocnt (index hash_fn ocnt) nb (2 ^ k) (index hash_fn (2 ^ k)) S (dom h) h' ∅ Sn →
  hash_ok (HState h' (Hash ec (2 ^ k) nb)) S.
Proof.
  intros [_ _ Hel Hcnt Hkeys] Hk [_ Hap _ _] [_ Hnew _ Hall Hdom]. cbn [links table buckets bucket_cnt elem_cnt] in *.
  rewrite union_empty_l_L in Hall. subst Sn. split; cbn [links table buckets bucket_cnt elem_cnt]; try done.
  - by exists k.
  - intros e He. destruct (Hap e He) as (? & HD & _ & ?). split_and!; [done| |done].
    rewrite <-Hdom in HD. by apply elem_of_dom.
Qed.

Lemma rehash_spec st S nb : hash_ok st S → malloc_answer st S (Z.of_nat (size S)) nb →
  wp (rehash hash_fn nb) st (λ _ st', hash_ok st' S ∧ dom (links st') = dom (links st)).
Proof.
  intros Hok Hm. destruct st as [h [ec ocnt ob]]. pose proof Hok as [Hpart (ko & Hko & Eo) Hel [Hec Hsz] Hkeys].
  cbn [links table buckets bucket_cnt elem_cnt] in *. unfold rehash. wp_bind_by ltac:(done).
  cbn [links table buckets bucket_cnt elem_cnt]. subst ec. set (ec := Z.of_nat (size S)) in *.
  destruct (goal_cnt_round ec (conj (Nat2Z.is_nonneg _) Hsz)) as (k & Hk & Hround).
  unfold malloc_answer in Hm. rewrite Hround in Hm.
  wp_bind_by ltac:(fold (goal_cnt ec); rewrite Hround; done).
  destruct (Z.eqb_spec (2 ^ k) ocnt); [by apply wp_ret|].
  destruct Hm as [->|Hfb]; [by apply wp_ret|]. specialize (Hfb _ eq_refl). pose proof Hfb as [Hpos _ Hapart].
  cbn [links table buckets bucket_cnt elem_cnt] in *.
  rewrite nonnull_true by (unfold NULL; lia). cbn [negb].
  assert (0 < 2 ^ k) by (apply Z.pow_pos_nonneg; lia).
  apply wp_bind. eapply wp_mono; [apply (init_buckets _ nb (2 ^ k)); [done|apply Hfb|lia]|].
  intros [] [h1 t1] (Ht & Hf & Hempty). cbn [links table] in *. subst t1.
  wp_bind_by ltac:(done). cbn [links].
  set (fo := index hash_fn ocnt) in *. set (fn := index hash_fn (2 ^ k)).
  assert (apart ob ocnt fo nb (2 ^ k) fn S (dom h)) as Hap.
  { split.
    - intros a Ha Hn. by destruct (Hapart a Hn).
    - intros e He. destruct (Hel e He) as (? & ? & ?). split_and!; [done|by apply elem_of_dom|done|].
      intros Hn. by destruct (Hapart e Hn).
    - intros e _. unfold fo. rewrite Eo. by apply index_bound.
    - intros e _. by apply index_bound. }
  assert (moving ob ocnt fo nb (2 ^ k) fn S (dom h) h1 S ∅) as Hmv.
  { split; [|intros i Hi; exists []; split; [by apply Hempty|]|apply disjoint_empty_r|apply union_empty_r_L|apply Hf].
    2: { intros e. split; [by intros ?%not_elem_of_nil|by intros [?%not_elem_of_empty _]]. }
    eapply part_framed; [exact Hf| |exact Hpart]. intros a Ha. by apply Hapart. }
  apply (wp_for_each (λ i st, ∃ h' So Sn, st = HState h' (Hash ec (2 ^ k) nb) ∧
    moving ob ocnt fo nb (2 ^ k) fn S (dom h) h' So Sn ∧ ∀ e, e ∈ So → i ≤ fo e)).
  - intros i st Hi (h' & So & Sn & -> & Hmv' & Hge).
    eapply wp_mono; [apply (rehash_bucket_spec ob ocnt fo nb (2 ^ k) fn S (dom h) Hap hash_fn ec ltac:(done) _ So Sn); [done|lia]|].
    intros [] st (h2 & So2 & Sn2 & -> & Hmv2 & Hsub). exists h2, So2, Sn2. split_and!; [done..|].
    intros e He. destruct (Hsub e He) as [H1 H2]. specialize (Hge e H1). lia.
  - intros st (h' & So & Sn & -> & Hmv' & Hge).
    assert (So = ∅) as ->.
    { apply set_eq. intros e. split; [|by intros ?%not_elem_of_empty]. intros He. specialize (Hge e He).
      assert (e ∈ S) as HeS by (rewrite <-(mv_all _ _ _ _ _ _ _ _ _ _ _ Hmv'); apply elem_of_union; by left).
      pose proof (ap_old _ _ _ _ _ _ _ _ Hap e HeS). lia. }
    split; [by eapply hash_ok_moved|apply (mv_dom _ _ _ _ _ _ _ _ _ _ _ Hmv')].
  - exists h1, S, ∅. split_and!; [done..|]. intros e He. apply (ap_old _ _ _ _ _ _ _ _ Hap e He).
Qed.

(** ** Finding *)

Context (Heq : Equivalence (λ a b, equal a b = true)).
Context (Hcongr : ∀ a b, equal a b = true → hash_fn a = hash_fn b).

Definition find_result (S : gset addr) (e r : addr) : Prop :=
  (r ∈ S ∧ equal r e = true) ∨ (r = NULL ∧ ∀ x, x ∈ S → equal x e = false).

Lemma find_elem_run h t bucket xs e : list_rep h bucket xs →
  find_elem less bucket e (HState h t) =
    Ret (default NULL (list_find (λ x, equal x e = true) xs ≫= λ '(_, x), Some x), HState h t).
Proof.
  intros Hr. unfold find_elem. run_by ltac:(apply on_links_run, (list_begin_run _ _ _ Hr)).
  apply on_links_run. cbn [links].
  set (r := default NULL _).
  assert (wp (walk (λ i, en ← list_end bucket; if i =? en then mret (Stop NULL)
      else if negb (less i e) && negb (less e i) then mret (Stop i)
      else n ← list_next i; mret (Next n)) (first_of bucket xs)) h (λ a h', a = r ∧ h' = h))
    as (a & h' & Hrun & -> & ->)%wp_inv; [|exact Hrun].
  apply (wp_walk (λ n i h', h' = h ∧ ∃ xs1 xs2, xs = xs1 ++ xs2 ∧ i = first_of bucket xs2 ∧ n = length xs2 ∧
    Forall (λ x, ¬ equal x e = true) xs1)) with (n := length xs).
  - intros n i ? (-> & xs1 & xs2 & Hxs & -> & -> & Hno). rewrite Hxs in Hr.
    wp_bind_by ltac:(apply (list_end_run _ _ _ Hr)). rewrite (rep_tail_eqb h bucket xs1 xs2 Hr). case_bool_decide as E.
    + subst xs2. apply wp_ret. split; [|done]. unfold r. rewrite app_nil_r in Hxs. subst xs1.
      assert (list_find (λ x, equal x e = true) xs = None) as -> by by apply list_find_None. done.
    + destruct xs2 as [|x xs2]; [done|]. cbn [first_of List.hd]. fold (equal x e). destruct (equal x e) eqn:Ex.
      * apply wp_ret. split; [|done]. unfold r. rewrite Hxs, list_find_app_r by by apply list_find_None.
        cbn [list_find]. rewrite decide_True by done. done.
      * wp_bind_by ltac:(by eapply list_next_elem_run). apply wp_ret. exists (length xs2). split; [simpl; lia|].
        split; [done|]. exists (xs1 ++ [x]), xs2. split_and!; [by rewrite <-app_assoc|done|done|].
        apply Forall_app. split; [done|]. constructor; [by rewrite Ex|done].
  - split; [done|]. exists [], xs. by split_and!.
  - apply rep_size in Hr. lia.
Qed.

Section found.
Context (h : heap) (t : hash) (S : gset addr) (Hok : hash_ok (HState h t) S) (e : addr).
Abbreviation st := (HState h t).
Abbreviation bucket := (bucket_at (buckets t) (index hash_fn (bucket_cnt t) e)).

Lemma own_index x : 0 ≤ index hash_fn (bucket_cnt t) x < bucket_cnt t.
Proof. destruct (ho_pow _ _ Hok) as (k & Hk & E). cbn [table] in E. rewrite E. by apply index_bound. Qed.

Lemma find_elem_spec : ∃ r, find_elem less bucket e st = Ret (r, st) ∧ find_result S e r.
Proof.
  destruct (ho_part _ _ Hok _ (own_index e)) as (xs & Hr & Hxs). eexists. split; [by apply find_elem_run|].
  destruct (list_find (λ x, equal x e = true) xs) as [[i x]|] eqn:E; simpl.
  - apply list_find_Some in E as (Hx & Heqx & _). left. split; [|done]. by apply Hxs; eapply list_elem_of_lookup_2.
  - right. split; [done|]. intros x HxS. apply list_find_None in E. destruct (equal x e) eqn:Ex; [|done].
    rewrite Forall_forall in E. destruct (E x); [|done]. apply Hxs. split; [done|].
    unfold index. by rewrite (Hcongr x e).
Qed.

Lemma find_result_nonnull r : find_result S e r → (r =? NULL) = false ↔ r ∈ S.
Proof.
  intros [[Hr _]|[-> _]].
  - destruct (ho_elems _ _ Hok r Hr) as (Hn & _). rewrite Z.eqb_neq. done.
  - split; [done|]. intros Hn. by destruct (ho_elems _ _ Hok NULL Hn).
Qed.

(** Entering an element whose key is new. *)
Lemma insert_elem_spec : e ∉ S → (∀ x, x ∈ S → equal x e = false) → e ≠ NULL → is_Some (h !! e) →
  ¬ header (buckets t) (bucket_cnt t) e → Z.of_nat (size S) < 2 ^ 32 - 1 →
  ∃ h', insert_elem bucket e st = Ret ((), HState h' (Hash (elem_cnt t + 1) (bucket_cnt t) (buckets t))) ∧
    hash_ok (HState h' (Hash (elem_cnt t + 1) (bucket_cnt t) (buckets t))) ({[e]} ∪ S) ∧ dom h' = dom h.
Proof.
  intros HeS Hkey Hen Hes Heh Hsz. destruct Hok as [Hpart Hpow Hel [Hec Hlt] Hkeys]. cbn [links table] in *.
  destruct (part_push _ _ _ h S e Hpart (λ x Hx, proj2 (proj2 (Hel x Hx))) (own_index e)) as (h' & Hrun & Hp' & Hf); try done.
  exists h'. split; [|split; [|apply Hf]].
  - unfold insert_elem. do 2 run_by ltac:(done). cbn [links table].
    rewrite (wrap_small 32 (elem_cnt t + 1)) by (rewrite Hec; unfold fits; lia). by apply on_links_run.
  - split; cbn [links table elem_cnt bucket_cnt buckets]; [done|done| | |].
    + intros x [->%elem_of_singleton|Hx]%elem_of_union; [split_and!; [done|by eapply framed_is_Some|done]|].
      destruct (Hel x Hx) as (? & ? & ?). split_and!; [done|by eapply framed_is_Some|done].
    + rewrite size_union_alt, size_singleton. rewrite difference_disjoint_L by set_solver. lia.
    + intros a b [->%elem_of_singleton|Ha]%elem_of_union [->%elem_of_singleton|Hb]%elem_of_union Hab; [done| | |by apply Hkeys].
      * rewrite equal_sym, Hkey in Hab by done. done.
      * rewrite Hkey in Hab by done. done.
Qed.

Lemma remove_elem_spec r : r ∈ S →
  ∃ h', remove_elem r st = Ret ((), HState h' (Hash (elem_cnt t - 1) (bucket_cnt t) (buckets t))) ∧
    hash_ok (HState h' (Hash (elem_cnt t - 1) (bucket_cnt t) (buckets t))) (S ∖ {[r]}) ∧ dom h' = dom h.
Proof.
  intros HrS. destruct Hok as [Hpart Hpow Hel [Hec Hlt] Hkeys]. cbn [links table] in *.
  destruct (part_remove _ _ _ h S r Hpart (λ x Hx, proj2 (proj2 (Hel x Hx))) (own_index r) HrS) as (n & h' & Hrun & Hp' & Hf).
  assert (size S = Datatypes.S (size (S ∖ {[r]}))) as Hsize.
  { rewrite size_difference, size_singleton by set_solver.
    assert (size S ≠ 0%nat) by (apply size_non_empty_iff; set_solver). lia. }
  exists h'. split; [|split; [|apply Hf]].
  - unfold remove_elem. do 2 run_by ltac:(done). cbn [links table].
    rewrite (wrap_small 32 (elem_cnt t - 1)) by (rewrite Hec; unfold fits; lia).
    run_by ltac:(apply on_links_run; exact Hrun). done.
  - split; cbn [links table elem_cnt bucket_cnt buckets]; [done|done| |lia|].
    + intros x [Hx _]%elem_of_difference. destruct (Hel x Hx) as (? & ? & ?). split_and!; [done|by eapply framed_is_Some|done].
    + intros a b [Ha _]%elem_of_difference [Hb _]%elem_of_difference. by apply Hkeys.
Qed.
End found.

(** ** The operations *)

Lemma malloc_answer_later h h' t ec S S' c nb : malloc_answer (HState h t) S c nb → dom h' = dom h → S' ⊆ S →
  malloc_answer (HState h' (Hash ec (bucket_cnt t) (buckets t))) S' c nb.
Proof.
  intros [?|Hm] Hd HS; [by left|right]. intros n Hn. destruct (Hm n Hn) as [Hp Hr Ha]. cbn [links table] in *.
  split; cbn [links table buckets bucket_cnt]; [done| |].
  - intros i Hi. rewrite <-!elem_of_dom, Hd, !elem_of_dom. by apply Hr.
  - intros a Ha'. destruct (Ha a Ha') as [H1 H2]. split; [exact H1|]. intros Hx. apply H2, HS, Hx.
Qed.

(** An element that may be entered. *)
Definition enterable (st : hstate) (e : addr) : Prop :=
  e ≠ NULL ∧ is_Some (links st !! e) ∧ ¬ header (buckets (table st)) (bucket_cnt (table st)) e.

Lemma hash_find_spec st S e : hash_ok st S → ∃ r, hash_find hash_fn less e st = Ret (r, st) ∧ find_result S e r.
Proof.
  intros Hok. destruct st as [h [ec cnt base]]. unfold hash_find. run_by ltac:(apply find_bucket_run).
  apply (find_elem_spec h (Hash ec cnt base) S Hok e).
Qed.

Lemma hash_insert_spec st S nb e : hash_ok st S → enterable st e → Z.of_nat (size S) < 2 ^ 32 - 1 →
  (∀ c, c = size S ∨ c = Datatypes.S (size S) → malloc_answer st ({[e]} ∪ S) (Z.of_nat c) nb) →
  wp (hash_insert hash_fn less nb e) st (λ r st', find_result S e r ∧
    hash_ok st' (if r =? NULL then {[e]} ∪ S else S)).
Proof.
  intros Hok (Hen & Hes & Heh) Hsz Hm. destruct st as [h t]. unfold hash_insert.
  destruct t as [ec cnt base] eqn:Et. wp_bind_by ltac:(apply find_bucket_run). rewrite <-Et in *.
  replace (bucket_at base (index hash_fn cnt e)) with (bucket_at (buckets t) (index hash_fn (bucket_cnt t) e)) by by rewrite Et.
  destruct (find_elem_spec h t S Hok e) as (r & Hrun & Hr). wp_bind_by ltac:(exact Hrun).
  pose proof (find_result_nonnull h t S Hok e r Hr) as Hnn. destruct (r =? NULL) eqn:E.
  - assert (∀ x, x ∈ S → equal x e = false) as Hkey.
    { destruct Hr as [[HrS _]|[_ ?]]; [|done]. by apply Hnn in HrS. }
    assert (e ∉ S) as HeS.
    { intros HeS. specialize (Hkey e HeS). by rewrite (@reflexivity _ _ (@Equivalence_Reflexive _ _ Heq) e) in Hkey. }
    destruct (insert_elem_spec h t S Hok e HeS Hkey Hen Hes Heh Hsz) as (h' & Hins & Hok' & Hd).
    wp_bind_by ltac:(exact Hins). apply wp_bind. eapply wp_mono; [apply (rehash_spec _ ({[e]} ∪ S)); [done|]|].
    + eapply malloc_answer_later; [|done|done]. apply Hm. right.
      rewrite size_union, size_singleton by (by apply disjoint_singleton_l). done.
    + intros [] st' [? _]. apply wp_ret. rewrite E. done.
  - wp_bind_by ltac:(done). apply wp_bind. eapply wp_mono; [apply (rehash_spec _ S); [done|]|].
    + specialize (Hm (size S) ltac:(by left)).
      eapply (malloc_answer_later h h t (elem_cnt t) _ S) in Hm; [by destruct t|done|apply union_subseteq_r].
    + intros [] st' [? _]. apply wp_ret. rewrite E. done.
Qed.

Lemma hash_delete_spec st S nb e : hash_ok st S →
  malloc_answer st S (Z.of_nat (size S) - 1) nb →
  wp (hash_delete hash_fn less nb e) st (λ r st', find_result S e r ∧
    hash_ok st' (if r =? NULL then S else S ∖ {[r]})).
Proof.
  intros Hok Hm. destruct st as [h t]. unfold hash_delete.
  destruct t as [ec cnt base] eqn:Et. wp_bind_by ltac:(apply find_bucket_run). rewrite <-Et in *.
  replace (bucket_at base (index hash_fn cnt e)) with (bucket_at (buckets t) (index hash_fn (bucket_cnt t) e)) by by rewrite Et.
  destruct (find_elem_spec h t S Hok e) as (r & Hrun & Hr). wp_bind_by ltac:(exact Hrun).
  pose proof (find_result_nonnull h t S Hok e r Hr) as Hnn. unfold nonnull. destruct (r =? NULL) eqn:E; cbn [negb].
  - wp_bind_by ltac:(done). apply wp_ret. by rewrite E.
  - assert (r ∈ S) as HrS by by apply Hnn.
    destruct (remove_elem_spec h t S Hok r HrS) as (h' & Hrem & Hok' & Hd).
    do 2 apply wp_bind. eapply wp_run; [exact Hrem|]. cbv beta.
    eapply wp_mono; [apply (rehash_spec _ (S ∖ {[r]})); [done|]|].
    + eapply malloc_answer_later; [|done|apply subseteq_difference_l; reflexivity].
      assert (Z.of_nat (size (S ∖ {[r]})) = Z.of_nat (size S) - 1) as ->; [|done].
      destruct Hok' as [_ _ _ [Hc' _] _], Hok as [_ _ _ [Hc _] _]. cbn in Hc', Hc. lia.
    + intros [] st' [? _]. apply wp_ret. rewrite E. done.
Qed.

Lemma hash_replace_spec st S nb e : hash_ok st S → enterable st e → Z.of_nat (size S) < 2 ^ 32 - 1 →
  (∀ c, c = size S ∨ c = Datatypes.S (size S) → malloc_answer st ({[e]} ∪ S) (Z.of_nat c) nb) →
  wp (hash_replace hash_fn less nb e) st (λ r st', find_result S e r ∧ hash_ok st' ({[e]} ∪ S ∖ {[r]})).
Proof.
  intros Hok (Hen & Hes & Heh) Hsz Hm. destruct st as [h t]. unfold hash_replace.
  destruct t as [ec cnt base] eqn:Et. wp_bind_by ltac:(apply find_bucket_run). rewrite <-Et in *.
  replace (bucket_at base (index hash_fn cnt e)) with (bucket_at (buckets t) (index hash_fn (bucket_cnt t) e)) by by rewrite Et.
  destruct (find_elem_spec h t S Hok e) as (r & Hrun & Hr). wp_bind_by ltac:(exact Hrun).
  pose proof (find_result_nonnull h t S Hok e r Hr) as Hnn.
  (* the table without the element that is replaced *)
  assert (∃ h1 ec1, (if nonnull r then remove_elem r else mret ()) (HState h t) =
            Ret ((), HState h1 (Hash ec1 (bucket_cnt t) (buckets t))) ∧
          hash_ok (HState h1 (Hash ec1 (bucket_cnt t) (buckets t))) (S ∖ {[r]}) ∧ dom h1 = dom h ∧
          (size (S ∖ {[r]}) = size S ∨ Datatypes.S (size (S ∖ {[r]})) = size S)) as (h1 & ec1 & Hrem & Hok1 & Hd1 & Hs1).
  { unfold nonnull. destruct (r =? NULL) eqn:E; cbn [negb].
    - assert (S ∖ {[r]} = S) as ->.
      { apply difference_disjoint_L, disjoint_singleton_r. intros HrS. by apply Hnn in HrS. }
      exists h, (elem_cnt t). split_and!; [by destruct t|by destruct t|done|by left].
    - assert (r ∈ S) as HrS by by apply Hnn. destruct (remove_elem_spec h t S Hok r HrS) as (h' & Hrem & Hok' & Hd).
      exists h', (elem_cnt t - 1). split_and!; [done..|]. right.
      destruct Hok' as [_ _ _ [Hc' _] _], Hok as [_ _ _ [Hc _] _]. cbn in Hc', Hc. lia. }
  wp_bind_by ltac:(exact Hrem).
  assert (∀ x, x ∈ S ∖ {[r]} → equal x e = false) as Hkey.
  { intros x [HxS Hxr]%elem_of_difference. rewrite elem_of_singleton in Hxr. destruct (equal x e) eqn:Ex; [|done].
    destruct Hr as [[HrS Hre]|[_ Hno]]; [|by rewrite Hno in Ex]. destruct Hxr. apply (ho_keys _ _ Hok); [done..|].
    apply (@transitivity _ _ (@Equivalence_Transitive _ _ Heq) x e r Ex). by rewrite equal_sym. }
  assert (e ∉ S ∖ {[r]}) as HeS.
  { intros HeS. specialize (Hkey e HeS). by rewrite (@reflexivity _ _ (@Equivalence_Reflexive _ _ Heq) e) in Hkey. }
  destruct (insert_elem_spec h1 (Hash ec1 (bucket_cnt t) (buckets t)) (S ∖ {[r]}) Hok1 e HeS Hkey Hen) as (h2 & Hins & Hok2 & Hd2).
  { rewrite <-elem_of_dom, Hd1. by apply elem_of_dom. } { done. } { lia. }
  wp_bind_by ltac:(exact Hins). apply wp_bind. eapply wp_mono; [apply (rehash_spec _ ({[e]} ∪ S ∖ {[r]})); [done|]|].
  - eapply (malloc_answer_later h h2 t _ ({[e]} ∪ S)); [|by rewrite Hd2, Hd1|apply union_mono_l, subseteq_difference_l; reflexivity].
    apply Hm. rewrite size_union, size_singleton by (by apply disjoint_singleton_l). lia.
  - intros [] st' [? _]. by apply wp_ret.
Qed.

Lemma hash_init_spec st nb : fresh_buckets st ∅ nb 4 →
  wp (hash_init nb) st (λ r st', r = true ∧ hash_ok st' ∅).
Proof.
  intros [Hp Hr Ha]. unfold hash_init. wp_bind_by ltac:(done). rewrite nonnull_true by (unfold NULL; lia).
  apply wp_bind. unfold hash_clear. wp_bind_by ltac:(done). apply wp_bind. cbn [table bucket_cnt buckets].
  change (λ i : Z, _) with (λ i : Z, on_links (list_init (bucket_at nb i))).
  eapply wp_mono; [apply (init_buckets (HState (links st) (Hash 0 4 nb)) nb 4); [done|done|lia]|].
  intros [] [h t] (Ht & _ & Hl). cbn [table links] in *. subst t. wp_bind_by ltac:(done).
  eapply wp_run; [done|]. apply wp_ret.
  split; [done|]. cbn [table links bucket_cnt buckets elem_cnt].
  split; cbn [table links bucket_cnt buckets elem_cnt]; [|by exists 2|set_solver|by rewrite size_empty|set_solver].
  intros i Hi. exists []. split; [by apply Hl|]. set_solver.
Qed.
End table.

(** ** Claims *)

(** What a table asks of its functions: hash values are 32-bit, equality of keys is an
    equivalence, and equal keys have equal hashes. *)
Record functions_ok (hash_fn : addr → Z) (less : addr → addr → bool) : Prop := FunctionsOk {
  fo_hash e : fits 32 (hash_fn e);
  fo_equal : Equivalence (λ a b, equal less a b = true);
  fo_congr a b : equal less a b = true → hash_fn a = hash_fn b;
}.

(** C19: insertion refines insertion into a set of keyed elements.  On a table that represents
    the set [S], [hash_insert] returns; it answers the element of [S] with an equal key and
    leaves the set as it is, or answers null and the table represents [S] with the new element.
    This includes moving all the elements to another number of buckets, and the case that
    [malloc] has no memory for them. *)
Theorem hash_insert_correct hash_fn less st S malloc e :
  functions_ok hash_fn less → hash_ok hash_fn less st S → enterable st e → Z.of_nat (size S) < 2 ^ 32 - 1 →
  (∀ c, c = size S ∨ c = Datatypes.S (size S) → malloc_answer st ({[e]} ∪ S) (Z.of_nat c) malloc) →
  ∃ r st', hash_insert hash_fn less malloc e st = Ret (r, st') ∧ find_result less S e r ∧
    hash_ok hash_fn less st' (if r =? NULL then {[e]} ∪ S else S).
Proof.
  intros [H1 H2 H3] Hok He Hs Hm. by apply wp_inv, hash_insert_spec.
Qed.

(** [hash_find] on a table that represents [S] answers the element of [S] with a key equal to
    that of [e], or null when there is none, and changes nothing. *)
Theorem hash_find_correct hash_fn less st S e :
  functions_ok hash_fn less → hash_ok hash_fn less st S →
  ∃ r, hash_find hash_fn less e st = Ret (r, st) ∧ find_result less S e r.
Proof. intros [H1 H2 H3] Hok. by apply hash_find_spec. Qed.

(** Deletion refines deletion from the set: [hash_delete] answers the element with an equal
    key and the table then represents the set without it, or answers null and the set is as
    before; [hash_replace] answers the same and the table then represents the set with the new
    element instead. *)
Theorem hash_delete_replace_correct hash_fn less st S malloc e :
  functions_ok hash_fn less → hash_ok hash_fn less st S →
  (malloc_answer st S (Z.of_nat (size S) - 1) malloc →
   ∃ r st', hash_delete hash_fn less malloc e st = Ret (r, st') ∧ find_result less S e r ∧
     hash_ok hash_fn less st' (if r =? NULL then S else S ∖ {[r]})) ∧
  (enterable st e → Z.of_nat (size S) < 2 ^ 32 - 1 →
   (∀ c, c = size S ∨ c = Datatypes.S (size S) → malloc_answer st ({[e]} ∪ S) (Z.of_nat c) malloc) →
   ∃ r st', hash_replace hash_fn less malloc e st = Ret (r, st') ∧ find_result less S e r ∧
     hash_ok hash_fn less st' ({[e]} ∪ S ∖ {[r]})).
Proof.
  intros [H1 H2 H3] Hok. split.
  - intros Hm. by apply wp_inv, hash_delete_spec.
  - intros He Hs Hm. by apply wp_inv, hash_replace_spec.
Qed.

(** A table of four buckets at 1000 with the element 500, storage for other elements, and
    elements whose key is their address. *)
Definition key_hash (e : addr) : Z := u32 e.
Definition key_less (a b : addr) : bool := a <? b.
Definition small_table : hstate :=
  HState (heap_of 1000 [500] [] ∪ heap_of 1016 [] [] ∪ heap_of 1032 [] [] ∪ heap_of 1048 [] [504; 508])
    (Hash 1 4 1000).

Lemma key_functions_ok : functions_ok key_hash key_less.
Proof.
  assert (∀ a b, equal key_less a b = true ↔ a = b) as E.
  { intros a b. unfold equal, key_less. rewrite andb_true_iff, !negb_true_iff, !Z.ltb_ge. lia. }
  split.
  - intros e. by apply wrap_fits.
  - split; [by intros a; apply E|by intros a b ->%E; apply E|]. intros a b c ->%E ->%E. by apply E.
  - by intros a b ->%E.
Qed.

Lemma small_table_ok : hash_ok key_hash key_less small_table {[500]}.
Proof.
  split; cbn [small_table table links bucket_cnt buckets elem_cnt].
  - intros i Hi. exists (if decide (i = 0) then [500] else []).
    assert (i = 0 ∨ i = 1 ∨ i = 2 ∨ i = 3) as [->|[->|[->| ->]]] by lia; (split; [by_evaluation|]);
      intros e; rewrite elem_of_singleton; simpl; rewrite ?list_elem_of_singleton, ?elem_of_nil;
      (split; [intros H; subst; done|intros [-> H]; done]).
  - by exists 2.
  - intros e ->%elem_of_singleton. split; [done|]. split; [vm_compute; eauto|]. unfold header. lia.
  - by rewrite size_singleton.
  - by intros a b ->%elem_of_singleton ->%elem_of_singleton.
Qed.

Lemma hash_insert_correct_witness :
  ∃ r st', hash_insert key_hash key_less NULL 504 small_table = Ret (r, st') ∧ find_result key_less {[500]} 504 r ∧
    hash_ok key_hash key_less st' (if r =? NULL then {[504]} ∪ {[500]} else {[500]}).
Proof.
  apply (hash_insert_correct key_hash key_less small_table {[500]} NULL 504 key_functions_ok small_table_ok);
    [|by rewrite size_singleton|by left]. split; [done|]. split; [vm_compute; eauto|]. unfold header. cbn. lia.
Defined.

Lemma hash_find_correct_witness :
  ∃ r, hash_find key_hash key_less 500 small_table = Ret (r, small_table) ∧ find_result key_less {[500]} 500 r.
Proof. exact (hash_find_correct key_hash key_less small_table {[500]} 500 key_functions_ok small_table_ok). Defined.

Lemma hash_delete_replace_correct_witness :
  ∃ r st', hash_delete key_hash key_less NULL 500 small_table = Ret (r, st') ∧ find_result key_less {[500]} 500 r ∧
     hash_ok key_hash key_less st' (if r =? NULL then {[500]} else {[500]} ∖ {[r]}).
Proof.
  apply (hash_delete_replace_correct key_hash key_less small_table {[500]} NULL 500 key_functions_ok small_table_ok). by left.
Defined.
