(* ===== verification/Malloc.v ===== *)
(** * The block allocator: src/src/threads/malloc.c

    The headers of the arenas are words of RAM, and the pages of the arenas come from the
    page allocator.  The free list of a descriptor is the list of its blocks, the abstraction
    that the contract of list.c justifies; the links, which are stored in the free blocks, are
    not tracked, and so nothing is said about what a free or fresh block holds.  Adding a block
    that is in the list, or removing one that is not, breaks that contract: it is a fault.  The
    lock of a descriptor is held only inside [malloc] and [free], which are one step here. *)
From S2P Require Import Prelude KList Bitmap Palloc.

(** ** Data *)

Record desc := Desc { block_size : Z; blocks_per_arena : Z; free_list : list Z }.

(** [descs] holds the [desc_cnt] descriptors that are in use of the array at [descs_at]. *)
Record alloc := Alloc { mach : machine; descs : list desc; descs_at : Z }.
Abbreviation H := (ST alloc).

Definition ARENA_MAGIC : Z := 0x9a548eed.
(** [sizeof (struct arena)], [sizeof (struct desc)], and the length of [descs]. *)
Definition ARENA_SIZE : Z := 12.
Definition DESC_SIZE : Z := 48.
Definition DESC_MAX : Z := 10.

(** [&descs[i]] *)
Definition desc_ptr (at_ : Z) (i : nat) : Z := at_ + DESC_SIZE * Z.of_nat i.

Definition set_mach (m : machine) (h : alloc) : alloc := Alloc m (descs h) (descs_at h).
Definition set_descs (f : list desc → list desc) (h : alloc) : alloc :=
  Alloc (mach h) (f (descs h)) (descs_at h).

(** A call of the page allocator, or an access to RAM. *)
Definition on_mach {A} (f : P A) : H A := λ h,
  match f (mach h) with
  | Ret (a, m) => Ret (a, set_mach m h)
  | Panic => Panic
  | Fault => Fault
  | NoFuel => NoFuel
  end.

(** The descriptor that a pointer designates. *)
Definition ld_desc (d : Z) : H (nat * desc) := λ h,
  let i := Z.to_nat ((d - descs_at h) / DESC_SIZE) in
  if decide (d = desc_ptr (descs_at h) i) then
    match descs h !! i with Some de => Ret ((i, de), h) | None => Fault end
  else Fault.

Definition set_free_list (l : list Z) (d : desc) : desc :=
  Desc (block_size d) (blocks_per_arena d) l.
Definition upd_free_list (i : nat) (f : list Z → list Z) : H () :=
  modify (set_descs (alter (λ d, set_free_list (f (free_list d)) d) i)).
Definition ld_free_list (i : nat) : H (list Z) := λ h,
  match descs h !! i with Some d => Ret (free_list d, h) | None => Fault end.

Definition free_push_back (i : nat) (b : Z) : H () :=
  l ← ld_free_list i;
  if bool_decide (b ∈ l) then fault else upd_free_list i (λ l, l ++ [b]).
Definition free_push_front (i : nat) (b : Z) : H () :=
  l ← ld_free_list i;
  if bool_decide (b ∈ l) then fault else upd_free_list i (cons b).
Definition free_pop_front (i : nat) : H Z :=
  l ← ld_free_list i;
  match l with
  | [] => panic
  | b :: l => upd_free_list i (λ _, l);; mret b
  end.
Definition free_remove (i : nat) (b : Z) : H () :=
  l ← ld_free_list i;
  if bool_decide (b ∈ l) then upd_free_list i (filter (λ x, x ≠ b)) else fault.

(** ** Arenas *)

Definition ld_magic (a : Z) : H Z := on_mach (ldw a).
Definition ld_arena_desc (a : Z) : H Z := on_mach (ldw (a + 4)).
Definition ld_free_cnt (a : Z) : H Z := on_mach (ldw (a + 8)).
Definition st_free_cnt (a n : Z) : H () := on_mach (stw (a + 8) n).
Definition st_arena (a d n : Z) : H () :=
  on_mach (stw a ARENA_MAGIC);;
  on_mach (stw (a + 4) d);;
  st_free_cnt a n.

Definition block_to_arena (b : Z) : H Z :=
  let a := pg_round_down b in
  assert (nonnull a);;
  mg ← ld_magic a;
  assert (mg =? ARENA_MAGIC);;
  d ← ld_arena_desc a;
  (if nonnull d then
     de ← ld_desc d;
     assert (u32 (pg_ofs b - ARENA_SIZE) mod block_size de.2 =? 0)
   else assert (pg_ofs b =? ARENA_SIZE));;
  mret a.

Definition arena_to_block (a idx : Z) : H Z :=
  assert (nonnull a);;
  mg ← ld_magic a;
  assert (mg =? ARENA_MAGIC);;
  d ← ld_arena_desc a;
  de ← ld_desc d;
  assert (idx <? blocks_per_arena de.2);;
  mret (u32 (a + ARENA_SIZE + u32 (idx * block_size de.2))).

(** ** The functions *)

(** The loop of [malloc_init], which ends because the block size doubles: 9 iterations are
    enough for 16 to reach half a page. *)
Definition malloc_init : H () :=
  loop 9 (λ bsize : Z,
    if bsize <? PGSIZE / 2 then
      modify (set_descs (λ ds, ds ++ [Desc bsize ((PGSIZE - ARENA_SIZE) / bsize) []]));;
      n ← gets (λ h, Z.of_nat (length (descs h)));
      assert (n <=? DESC_MAX);;
      mret (Next (bsize * 2))
    else mret (Stop ())) 16.

(** The first descriptor with large enough blocks. *)
Fixpoint first_fit (size : Z) (ds : list desc) : option nat :=
  match ds with
  | [] => None
  | d :: ds => if block_size d >=? size then Some O else S <$> first_fit size ds
  end.

Definition malloc (size : Z) : H Z :=
  if size =? 0 then mret NULL else
  ds ← gets descs;
  match first_fit size ds with
  | None =>
      let page_cnt := u32 (u32 (size + ARENA_SIZE) + PGSIZE - 1) / PGSIZE in
      a ← on_mach (palloc_get_multiple 0 page_cnt);
      if negb (nonnull a) then mret NULL else
      st_arena a NULL page_cnt;;
      mret (u32 (a + ARENA_SIZE))
  | Some i =>
      d ← gets (λ h, desc_ptr (descs_at h) i);
      de ← ld_desc d;
      ok ← (if bool_decide (free_list de.2 = []) then
              a ← on_mach (palloc_get_page 0);
              if negb (nonnull a) then mret false else
              st_arena a d (blocks_per_arena de.2);;
              for_each (Z.to_nat (blocks_per_arena de.2)) 0 (λ idx,
                b ← arena_to_block a idx;
                free_push_back i b);;
              mret true
            else mret true);
      if negb ok then mret NULL else
      b ← free_pop_front i;
      a ← block_to_arena b;
      n ← ld_free_cnt a;
      st_free_cnt a (n - 1);;
      mret b
  end.

(** [memset] and [memcpy] of string.c, on RAM. *)
Definition memset_bytes (p v n : Z) : H () :=
  for_each (Z.to_nat n) 0 (λ i, on_mach (modify (set_ram (set_byte (p + i) v)))).
Definition memcpy_bytes (dst src n : Z) : H () :=
  for_each (Z.to_nat n) 0 (λ i,
    v ← on_mach (gets (λ m, get_byte (ram m) (src + i)));
    on_mach (modify (set_ram (set_byte (dst + i) v)))).

Definition calloc (a b : Z) : H Z :=
  let size := u32 (a * b) in
  if (size <? a) || (size <? b) then mret NULL else
  p ← malloc size;
  (if nonnull p then memset_bytes p 0 size else mret ());;
  mret p.

(** [block_size ()] of malloc.c. *)
Definition size_of_block (block : Z) : H Z :=
  a ← block_to_arena block;
  d ← ld_arena_desc a;
  if nonnull d then de ← ld_desc d; mret (block_size de.2)
  else n ← ld_free_cnt a; mret (u32 (PGSIZE * n - pg_ofs block)).

Definition free (p : Z) : H () :=
  if negb (nonnull p) then mret () else
  a ← block_to_arena p;
  d ← ld_arena_desc a;
  if nonnull d then
    de ← ld_desc d;
    on_mach (memset_pages p 0xcccccccc (block_size de.2));;
    free_push_front de.1 p;;
    n ← ld_free_cnt a;
    st_free_cnt a (n + 1);;
    n ← ld_free_cnt a;
    if n >=? blocks_per_arena de.2 then
      assert (n =? blocks_per_arena de.2);;
      for_each (Z.to_nat (blocks_per_arena de.2)) 0 (λ idx,
        b ← arena_to_block a idx;
        free_remove de.1 b);;
      on_mach (palloc_free_page a)
    else mret ()
  else
    n ← ld_free_cnt a;
    on_mach (palloc_free_multiple a n).

Definition realloc (old_block new_size : Z) : H Z :=
  if new_size =? 0 then free old_block;; mret NULL else
  new_block ← malloc new_size;
  if nonnull old_block && nonnull new_block then
    old_size ← size_of_block old_block;
    let min_size := if new_size <? old_size then new_size else old_size in
    memcpy_bytes new_block old_block min_size;;
    free old_block;;
    mret new_block
  else mret new_block.

(** ** Runs *)

Definition boot_heap : alloc := Alloc small_machine [] 0xc0010000.
Example malloc_runs :
  (malloc_init;; a ← malloc 700; b ← malloc 1000; mret (a, b)) boot_heap =
  (malloc_init;; a ← malloc 700; b ← malloc 1000; mret (0xc010400c, 0xc010440c)) boot_heap.
Proof. vm_compute. reflexivity. Qed.
