(* ===== verification/MallocProofs.v ===== *)
(** * The block allocator: blocks are disjoint, and live blocks keep their contents

    The abstract state of the allocator is the map from the address of each block in use to
    its size.  The invariant also knows the arenas, which divide some of the pages in use. *)
From S2P Require Import Prelude KList Bitmap Palloc Malloc.

(** ** Arenas and blocks *)

Inductive akind := Small (i : nat) | Big (cnt : Z).
Definition pages (k : akind) : Z := match k with Small _ => 1 | Big c => c end.

(** Block [k] of the arena at [a], for blocks of [s] bytes. *)
Definition blk (a s k : Z) : Z := a + ARENA_SIZE + k * s.

Definition desc_ok (d : desc) : Prop :=
  16 ≤ block_size d ≤ 1024 ∧ block_size d mod 4 = 0 ∧
  blocks_per_arena d = (PGSIZE - ARENA_SIZE) / block_size d.

(** The indices of the free blocks of an arena. *)
Definition free_blocks (live : gmap Z Z) (a s n : Z) : list Z :=
  filter (λ k, live !! blk a s k = None) (seqZ 0 n).

Definition header (r : gmap Z Z) (a d n : Z) : Prop :=
  word r a = ARENA_MAGIC ∧ word r (a + 4) = d ∧ word r (a + 8) = n.

Definition arena_ok (h : alloc) (live : gmap Z Z) (a : Z) (k : akind) : Prop :=
  match k with
  | Small i => ∃ d, descs h !! i = Some d ∧
      header (ram (mach h)) a (desc_ptr (descs_at h) i)
        (Z.of_nat (length (free_blocks live a (block_size d) (blocks_per_arena d))))
  | Big c => 1 ≤ c ∧ header (ram (mach h)) a NULL c ∧
      live !! (a + ARENA_SIZE) = Some (PGSIZE * c - ARENA_SIZE)
  end.

(** The pages of an arena are pages of the kernel's pool that are in use. *)
Definition pages_used (p : pool) (a cnt : Z) : Prop :=
  ∃ j, a = page_at p j ∧ 0 ≤ j ∧ j + cnt ≤ bit_cnt (used_map p) ∧ group (used_map p) j cnt true.

Inductive live_block (ds : list desc) (ars : gmap Z akind) : Z → Z → Prop :=
| live_small a i d k : ars !! a = Some (Small i) → ds !! i = Some d →
    0 ≤ k < blocks_per_arena d → live_block ds ars (blk a (block_size d) k) (block_size d)
| live_big a c : ars !! a = Some (Big c) →
    live_block ds ars (a + ARENA_SIZE) (PGSIZE * c - ARENA_SIZE).

Definition free_ok (ars : gmap Z akind) (live : gmap Z Z) (i : nat) (d : desc) : Prop :=
  NoDup (free_list d) ∧
  ∀ b, b ∈ free_list d ↔ ∃ a k, ars !! a = Some (Small i) ∧ 0 ≤ k < blocks_per_arena d ∧
                           b = blk a (block_size d) k ∧ live !! b = None.

Record inv (h : alloc) (ars : gmap Z akind) (live : gmap Z Z) : Prop := Inv {
  iv_palloc : palloc_ok (mach h);
  iv_desc : ∀ i d, descs h !! i = Some d → desc_ok d;
  iv_at : 0 < descs_at h ∧ descs_at h + DESC_SIZE * DESC_MAX ≤ 2 ^ 32;
  iv_cnt : (length (descs h) ≤ 10)%nat;
  iv_used : ∀ a k, ars !! a = Some k → pages_used (kernel_pool (mach h)) a (pages k);
  iv_apart : ∀ a k a' k', ars !! a = Some k → ars !! a' = Some k' → a ≠ a' →
    a + PGSIZE * pages k ≤ a' ∨ a' + PGSIZE * pages k' ≤ a;
  iv_arena : ∀ a k, ars !! a = Some k → arena_ok h live a k;
  iv_live : ∀ b n, live !! b = Some n → live_block (descs h) ars b n;
  iv_free : ∀ i d, descs h !! i = Some d → free_ok ars live i d;
}.

Lemma blk_in_page a s k : 16 ≤ s ≤ 1024 → 0 ≤ k < (PGSIZE - ARENA_SIZE) / s →
  a + 12 ≤ blk a s k ∧ blk a s k + s ≤ a + 4096.
Proof.
  intros Hs Hk. unfold blk. change PGSIZE with 4096 in *. change ARENA_SIZE with 12 in *.
  pose proof (Z.div_mod (4096 - 12) s ltac:(lia)). pose proof (Z.mod_pos_bound (4096 - 12) s ltac:(lia)).
  assert ((k + 1) * s ≤ (4096 - 12) / s * s) by (apply Z.mul_le_mono_nonneg_r; lia). nia.
Qed.

Lemma blk_inj a s k k' : 16 ≤ s → blk a s k = blk a s k' → k = k'.
Proof. unfold blk. nia. Qed.

Lemma desc_bound d : desc_ok d → 0 < blocks_per_arena d < 2 ^ 12.
Proof.
  intros (Hs & _ & ->). change (PGSIZE - ARENA_SIZE) with 4084. split.
  - apply Z.div_str_pos. lia.
  - apply Z.div_lt_upper_bound; lia.
Qed.

(** ** Addresses in an arena *)

Lemma used_addr p a cnt : pool_ok p → 1 ≤ cnt → pages_used p a cnt →
  0 < a ∧ a mod 4096 = 0 ∧ a + 4096 * cnt ≤ 2 ^ 32.
Proof.
  intros [Hm Hb Ha He] Hc (j & -> & Hj & Hjc & _). unfold page_at. change PGSIZE with 4096 in *.
  split_and!; [lia| |lia]. rewrite Z.add_mod, Ha, Z.mul_comm, Z.mod_mul by done. done.
Qed.

Lemma page_offset a o : 0 ≤ a → a mod 4096 = 0 → 0 ≤ o < 4096 → a + o < 2 ^ 32 →
  pg_round_down (a + o) = a ∧ pg_ofs (a + o) = o.
Proof.
  intros Ha Hm Ho Hl. assert ((a + o) mod 4096 = o) as Hmod.
  { rewrite Z.add_mod, Hm by done. rewrite Z.add_0_l, Z.mod_mod by done. apply Z.mod_small. lia. }
  split.
  - unfold pg_round_down. rewrite page_mask by (unfold fits; lia). change PGSIZE with 4096. lia.
  - rewrite pg_ofs_mod. exact Hmod.
Qed.

Section inv.
Context {h : alloc} {ars : gmap Z akind} {live : gmap Z Z} (Hinv : inv h ars live).

Lemma pages_pos a k : ars !! a = Some k → 1 ≤ pages k.
Proof.
  intros Ha. destruct k as [i|c]; simpl; [lia|]. by destruct (iv_arena _ _ _ Hinv _ _ Ha).
Qed.

Lemma arena_addr a k : ars !! a = Some k → 0 < a ∧ a mod 4096 = 0 ∧ a + 4096 * pages k ≤ 2 ^ 32.
Proof.
  intros Ha. eapply used_addr; [exact (pa_kernel _ (iv_palloc _ _ _ Hinv))|by eapply pages_pos|].
  by apply (iv_used _ _ _ Hinv).
Qed.

(** A block lies in its arena, after the header. *)
Lemma live_in_arena b n : live !! b = Some n →
  ∃ a k, ars !! a = Some k ∧ a + 12 ≤ b ∧ b + n ≤ a + 4096 * pages k.
Proof.
  intros Hb. destruct (iv_live _ _ _ Hinv _ _ Hb) as [a i d k Ha Hd Hk|a c Ha].
  - destruct (iv_desc _ _ _ Hinv _ _ Hd) as (Hs & _ & Hp). rewrite Hp in Hk.
    pose proof (blk_in_page a _ _ Hs Hk). exists a, (Small i). simpl. split; [done|lia].
  - exists a, (Big c). change PGSIZE with 4096. change ARENA_SIZE with 12. simpl. split; [done|lia].
Qed.

Lemma same_arena a k a' k' x : ars !! a = Some k → ars !! a' = Some k' →
  a ≤ x < a + 4096 * pages k → a' ≤ x < a' + 4096 * pages k' → a = a'.
Proof.
  intros Ha Ha' Hx Hx'. destruct (decide (a = a')) as [|Hne]; [done|].
  pose proof (iv_apart _ _ _ Hinv _ _ _ _ Ha Ha' Hne). change PGSIZE with 4096 in *. lia.
Qed.

(** Blocks in use do not overlap. *)
Lemma small_range a i d k : descs h !! i = Some d → 0 ≤ k < blocks_per_arena d →
  16 ≤ block_size d ≤ 1024 ∧
  a + 12 ≤ blk a (block_size d) k ∧ blk a (block_size d) k + block_size d ≤ a + 4096.
Proof.
  intros Hd Hk. destruct (iv_desc _ _ _ Hinv _ _ Hd) as (Hs & _ & Hp). rewrite Hp in Hk.
  split; [done|]. by apply blk_in_page.
Qed.

Lemma live_disjoint b n b' n' : live !! b = Some n → live !! b' = Some n' → b ≠ b' →
  b + n ≤ b' ∨ b' + n' ≤ b.
Proof.
  intros Hb Hb' Hne.
  destruct (iv_live _ _ _ Hinv _ _ Hb) as [a1 i1 d1 k1 Ha1 Hd1 Hk1|a1 c1 Ha1],
    (iv_live _ _ _ Hinv _ _ Hb') as [a2 i2 d2 k2 Ha2 Hd2 Hk2|a2 c2 Ha2];
    try pose proof (small_range a1 _ _ _ Hd1 Hk1); try pose proof (small_range a2 _ _ _ Hd2 Hk2).
  all: destruct (decide (a1 = a2)) as [<-|Hna];
    [simplify_eq|pose proof (iv_apart _ _ _ Hinv _ _ _ _ Ha1 Ha2 Hna) as Hap; simpl in Hap;
      change PGSIZE with 4096 in *; change ARENA_SIZE with 12 in *; lia].
  unfold blk in *. destruct (Z.lt_trichotomy k1 k2) as [|[->|]]; [nia|done|nia].
Qed.

(** ** Reading headers *)

Lemma desc_ptr_nonnull i d : descs h !! i = Some d → nonnull (desc_ptr (descs_at h) i) = true.
Proof.
  intros Hd. destruct (iv_at _ _ _ Hinv) as [? ?].
  apply nonnull_true. unfold desc_ptr, NULL, DESC_SIZE. lia.
Qed.

Lemma desc_ptr_fits i d : descs h !! i = Some d → fits 32 (desc_ptr (descs_at h) i).
Proof.
  intros Hd. destruct (iv_at _ _ _ Hinv) as [? Hl]. pose proof (iv_cnt _ _ _ Hinv).
  apply lookup_lt_Some in Hd. unfold fits, desc_ptr, DESC_SIZE, DESC_MAX in *. lia.
Qed.

Lemma ld_desc_run h' i d : descs h' !! i = Some d → ld_desc (desc_ptr (descs_at h') i) h' = Ret ((i, d), h').
Proof.
  intros Hd. unfold ld_desc.
  assert (Z.to_nat ((desc_ptr (descs_at h') i - descs_at h') / DESC_SIZE) = i) as ->.
  { unfold desc_ptr. replace (_ - _) with (Z.of_nat i * DESC_SIZE) by lia. rewrite Z.div_mul by done. lia. }
  rewrite decide_True by done. by rewrite Hd.
Qed.
End inv.

Lemma ldw_run h a : on_mach (ldw a) h = Ret (word (ram (mach h)) a, h).
Proof. by destruct h. Qed.

(** [block_to_arena] finds the arena of a small block, and of a big one. *)
Lemma block_to_arena_small h a i d n k :
  0 < a → a mod 4096 = 0 → a + 4096 ≤ 2 ^ 32 → descs h !! i = Some d → desc_ok d →
  nonnull (desc_ptr (descs_at h) i) = true →
  header (ram (mach h)) a (desc_ptr (descs_at h) i) n → 0 ≤ k < blocks_per_arena d →
  block_to_arena (blk a (block_size d) k) h = Ret (a, h).
Proof.
  intros Ha Hm Hl Hd (Hs & _ & Hp) Hnn (Hmg & Hdp & _) Hk. rewrite Hp in Hk.
  pose proof (blk_in_page a _ _ Hs Hk) as [? ?]. unfold block_to_arena.
  destruct (page_offset a (blk a (block_size d) k - a)) as [Hr Ho]; [lia|done|lia|lia|].
  replace (a + (blk a (block_size d) k - a)) with (blk a (block_size d) k) in Hr, Ho by lia.
  rewrite Hr, Ho. run_by ltac:(apply assert_run, nonnull_true; unfold NULL; lia).
  run_by ltac:(apply ldw_run). rewrite Hmg. run_by ltac:(done).
  run_by ltac:(apply ldw_run). rewrite Hdp, Hnn. 
  erewrite bind_run; [done|]. erewrite bind_run; [|by apply ld_desc_run]. cbn [snd].
  apply assert_run. apply Z.eqb_eq. unfold blk, ARENA_SIZE in *.
  rewrite wrap_small by (unfold fits; lia).
  replace (a + 12 + k * block_size d - a - 12) with (k * block_size d) by lia. apply Z.mod_mul. lia.
Qed.

Lemma block_to_arena_big h a n :
  0 < a → a mod 4096 = 0 → a + 4096 ≤ 2 ^ 32 → header (ram (mach h)) a NULL n →
  block_to_arena (a + ARENA_SIZE) h = Ret (a, h).
Proof.
  intros Ha Hm Hl (Hmg & Hdp & _). unfold block_to_arena.
  destruct (page_offset a ARENA_SIZE) as [Hr Ho]; [lia|done|done|unfold ARENA_SIZE; lia|].
  rewrite Hr, Ho. run_by ltac:(apply assert_run, nonnull_true; unfold NULL; lia).
  run_by ltac:(apply ldw_run). rewrite Hmg. run_by ltac:(done).
  run_by ltac:(apply ldw_run). rewrite Hdp. by run_by ltac:(done).
Qed.

Lemma arena_to_block_run h a i d n k :
  0 < a → a + 4096 ≤ 2 ^ 32 → descs h !! i = Some d → desc_ok d →
  header (ram (mach h)) a (desc_ptr (descs_at h) i) n → 0 ≤ k < blocks_per_arena d →
  arena_to_block a k h = Ret (blk a (block_size d) k, h).
Proof.
  intros Ha Hl Hd (Hs & _ & Hp) (Hmg & Hdp & _) Hk. pose proof Hk as Hk'. rewrite Hp in Hk'.
  pose proof (blk_in_page a _ _ Hs Hk') as [? ?]. unfold arena_to_block.
  run_by ltac:(apply assert_run, nonnull_true; unfold NULL; lia).
  run_by ltac:(apply ldw_run). rewrite Hmg. run_by ltac:(done).
  run_by ltac:(apply ldw_run). rewrite Hdp. run_by ltac:(by apply ld_desc_run). cbn [snd].
  run_by ltac:(apply assert_run, Z.ltb_lt; lia). unfold mret, ST_ret. do 2 f_equal.
  unfold blk, ARENA_SIZE in *. rewrite (wrap_small 32 (k * _)), wrap_small by (unfold fits; nia). done.
Qed.

(** ** Taking and giving back a small block *)

Lemma word_same r r' x : r' !! x = r !! x → word r' x = word r x.
Proof. unfold word. by intros ->. Qed.

Lemma free_blocks_ext live live' a s n :
  (∀ k, 0 ≤ k < n → live' !! blk a s k = live !! blk a s k) →
  free_blocks live' a s n = free_blocks live a s n.
Proof.
  intros Hext. unfold free_blocks.
  assert (∀ l : list Z, (∀ k, k ∈ l → live' !! blk a s k = live !! blk a s k) →
    filter (λ k, live' !! blk a s k = None) l = filter (λ k, live !! blk a s k = None) l) as Hl.
  { induction l as [|k l IH]; intros Hk; [done|]. rewrite !filter_cons, Hk, IH by set_solver. done. }
  apply Hl. intros k Hk%elem_of_seqZ. apply Hext. lia.
Qed.

(** [r'] has the headers of [r], except for the count of free blocks of the arena [a]. *)
Definition headers_but (ars : gmap Z akind) (a : Z) (r r' : gmap Z Z) : Prop :=
  ∀ a' k o, ars !! a' = Some k → 0 ≤ o < 12 → ¬ (a' = a ∧ o = 8) → word r' (a' + o) = word r (a' + o).

Lemma header_but ars a r r' a' k d n : headers_but ars a r r' → ars !! a' = Some k → a' ≠ a →
  header r a' d n → header r' a' d n.
Proof.
  intros Hr Ha Hne (H1 & H2 & H3). unfold header.
  rewrite <-(Z.add_0_r a') at 1. rewrite !(Hr a' k) by (done || lia). rewrite Z.add_0_r. done.
Qed.

Definition with_free (i : nat) (l : list Z) (r : gmap Z Z) (h : alloc) : alloc :=
  Alloc (set_ram (λ _, r) (mach h)) (alter (set_free_list l) i (descs h)) (descs_at h).

Lemma with_free_desc i l r h j d : descs (with_free i l r h) !! j = Some d →
  ∃ d0, descs h !! j = Some d0 ∧ block_size d = block_size d0 ∧
        blocks_per_arena d = blocks_per_arena d0 ∧ free_list d = if decide (i = j) then l else free_list d0.
Proof.
  simpl. destruct (decide (i = j)) as [->|Hne].
  - rewrite list_lookup_alter_eq. destruct (descs h !! j) as [d0|] eqn:E; [|done].
    intros [= <-]. exists d0. done.
  - rewrite list_lookup_alter_ne by done. intros Hd. by exists d.
Qed.

Lemma with_free_lookup i l r h j d : descs h !! j = Some d →
  ∃ d', descs (with_free i l r h) !! j = Some d' ∧ block_size d' = block_size d ∧
        blocks_per_arena d' = blocks_per_arena d.
Proof.
  intros Hd. simpl. destruct (decide (i = j)) as [->|Hne].
  - rewrite list_lookup_alter_eq, Hd. eexists. by split_and!.
  - rewrite list_lookup_alter_ne by done. by exists d.
Qed.

Lemma palloc_ok_ram m r : palloc_ok m → palloc_ok (set_ram (λ _, r) m).
Proof. intros []. by split. Qed.

Lemma live_block_with_free i l r h ars b n : live_block (descs h) ars b n →
  live_block (descs (with_free i l r h)) ars b n.
Proof.
  intros [a j d k Ha Hd Hk|a c Ha]; [|by apply live_big].
  destruct (with_free_lookup i l r h j d Hd) as (d' & Hd' & <- & Hp). rewrite <-Hp in Hk.
  by eapply live_small.
Qed.

Lemma inv_toggle h ars live live' a i d k l r :
  inv h ars live → ars !! a = Some (Small i) → descs h !! i = Some d → 0 ≤ k < blocks_per_arena d →
  (∀ x, x ≠ blk a (block_size d) k → live' !! x = live !! x) →
  live' !! blk a (block_size d) k = None ∨ live' !! blk a (block_size d) k = Some (block_size d) →
  NoDup l →
  (∀ x, x ∈ l ↔ (x = blk a (block_size d) k ∧ live' !! x = None) ∨
                (x ≠ blk a (block_size d) k ∧ x ∈ free_list d)) →
  headers_but ars a (ram (mach h)) r →
  word r (a + 8) = Z.of_nat (length (free_blocks live' a (block_size d) (blocks_per_arena d))) →
  inv (with_free i l r h) ars live'.
Proof.
  intros Hinv Ha Hd Hk Hother Hb Hnd Hl Hr Hn. set (b := blk a (block_size d) k) in *.
  assert (∀ a' k' x, ars !! a' = Some k' → a' ≠ a → a' ≤ x < a' + 4096 * pages k' → x ≠ b) as Hout.
  { intros a' k' x Ha' Hne Hx ->. pose proof (small_range Hinv a _ _ _ Hd Hk).
    apply Hne. eapply (same_arena Hinv); [done|exact Ha|exact Hx|simpl; unfold b; lia]. }
  split.
  - apply palloc_ok_ram, Hinv.
  - intros j d' (d0 & Hd0 & Hs & Hp & _)%with_free_desc.
    destruct (iv_desc _ _ _ Hinv _ _ Hd0). unfold desc_ok. rewrite Hs, Hp. done.
  - apply Hinv.
  - simpl. rewrite length_alter. apply Hinv.
  - apply Hinv.
  - apply Hinv.
  - intros a' k' Ha'. pose proof (iv_arena _ _ _ Hinv _ _ Ha') as Hok.
    destruct (decide (a' = a)) as [->|Hne].
    + simplify_eq. destruct Hok as (d0 & Hd0 & Hmg & Hdp & _). simplify_eq.
      destruct (with_free_lookup i l r h i d Hd) as (d' & Hd' & Hs & Hp). exists d'. split; [done|].
      rewrite Hs, Hp. unfold header. simpl.
      rewrite <-(Z.add_0_r a) at 1. rewrite !(Hr a (Small i)) by (done || lia). rewrite Z.add_0_r. done.
    + destruct k' as [j|c].
      * destruct Hok as (d0 & Hd0 & Hh). destruct (with_free_lookup i l r h j d0 Hd0) as (d' & Hd' & Hs & Hp).
        exists d'. split; [done|]. rewrite Hs, Hp. simpl. rewrite (free_blocks_ext live live').
        -- by eapply header_but.
        -- intros k2 Hk2. apply Hother. eapply Hout; [done..|]. simpl.
           pose proof (small_range Hinv a' _ _ _ Hd0 Hk2). lia.
      * destruct Hok as (Hc & Hh & Hlv). split_and!; [done|by eapply header_but|].
        rewrite Hother; [done|]. eapply Hout; [done..|]. simpl. unfold ARENA_SIZE. lia.
  - intros x n Hx. apply live_block_with_free. destruct (decide (x = b)) as [->|Hne].
    + destruct Hb as [Hb|Hb]; rewrite Hb in Hx; simplify_eq. by eapply live_small.
    + rewrite Hother in Hx by done. by apply (iv_live _ _ _ Hinv).
  - intros j d' (d0 & Hd0 & Hs & Hp & Hfl)%with_free_desc. unfold free_ok. rewrite Hs, Hp, Hfl.
    destruct (iv_free _ _ _ Hinv _ _ Hd0) as [Hnd0 Hin0]. case_decide as E.
    + subst j. simplify_eq. split; [done|]. intros x. rewrite Hl. split.
      * intros [[-> Hx]|[Hne Hx]]; [by exists a, k|].
        apply Hin0 in Hx as (a2 & k2 & ? & ? & ? & ?). exists a2, k2. by rewrite Hother.
      * intros (a2 & k2 & ? & ? & Hx & ?). destruct (decide (x = b)); [by left|]. right. split; [done|].
        apply Hin0. exists a2, k2. by rewrite <-Hother.
    + split; [done|]. intros x. rewrite Hin0.
      enough (∀ a2 k2, ars !! a2 = Some (Small j) → 0 ≤ k2 < blocks_per_arena d0 →
                x = blk a2 (block_size d0) k2 → live' !! x = live !! x) as Hx.
      { split; intros (a2 & k2 & ? & ? & ? & ?); exists a2, k2;
          (do 3 (split; [done|])); [rewrite (Hx a2 k2)|rewrite <-(Hx a2 k2)]; done. }
      intros a2 k2 Ha2 Hk2 ->. apply Hother. eapply Hout; [done|naive_solver|].
      pose proof (small_range Hinv a2 _ _ _ Hd0 Hk2). simpl. lia.
Qed.

Lemma filter_remove_one `{EqDecision A} (P Q : A → Prop) `{∀ x, Decision (P x), ∀ x, Decision (Q x)} (y : A) l :
  NoDup l → y ∈ l → P y → (∀ x, Q x ↔ P x ∧ x ≠ y) → length (filter P l) = S (length (filter Q l)).
Proof.
  intros Hnd Hy HP HQ. induction Hnd as [|x l Hx Hnd IH]; [by apply elem_of_nil in Hy|].
  rewrite !filter_cons. destruct (decide (x = y)) as [->|Hne].
  - rewrite decide_True, decide_False by naive_solver. simpl. f_equal. f_equal.
    clear IH Hnd Hy. induction l as [|z l IH]; [done|]. rewrite !filter_cons, IH by set_solver.
    destruct (decide (P z)), (decide (Q z)); [done| | |done]; set_solver.
  - rewrite (decide_ext (P x) (Q x)) by naive_solver. case_decide; simpl; rewrite IH by set_solver; done.
Qed.

Lemma free_blocks_insert live a s n k v : 16 ≤ s → 0 ≤ k < n → live !! blk a s k = None →
  length (free_blocks live a s n) = S (length (free_blocks (<[blk a s k := v]> live) a s n)).
Proof.
  intros Hs Hk Hb. unfold free_blocks. apply (filter_remove_one _ _ k); [apply NoDup_seqZ| |done|].
  - apply elem_of_seqZ. lia.
  - intros x. rewrite lookup_insert_None. split; [naive_solver|]. intros [Hx Hne]. split; [done|].
    intros Heq. apply Hne. symmetry. by apply (blk_inj a s).
Qed.

Lemma free_blocks_delete live a s n k v : 16 ≤ s → 0 ≤ k < n → live !! blk a s k = Some v →
  length (free_blocks (delete (blk a s k) live) a s n) = S (length (free_blocks live a s n)).
Proof.
  intros Hs Hk Hb. rewrite (free_blocks_insert _ a s n k v) by (done || apply lookup_delete_eq).
  by rewrite insert_delete_id.
Qed.

Lemma free_blocks_bound live a s n : 0 ≤ n → 0 ≤ Z.of_nat (length (free_blocks live a s n)) ≤ n.
Proof.
  intros Hn. unfold free_blocks. pose proof (length_filter (λ k, live !! blk a s k = None) (seqZ 0 n)) as Hl.
  rewrite length_seqZ in Hl. lia.
Qed.

Lemma free_blocks_all live a s n k : 0 ≤ k < n →
  n ≤ Z.of_nat (length (free_blocks live a s n)) → live !! blk a s k = None.
Proof.
  intros Hk Hn. destruct (decide (live !! blk a s k = None)) as [|Hne]; [done|]. exfalso.
  assert (length (free_blocks live a s n) < length (seqZ 0 n))%nat.
  { apply (length_filter_lt _ _ k); [apply elem_of_seqZ; lia|done]. }
  rewrite length_seqZ in *. lia.
Qed.

Lemma free_blocks_full live a s n : 0 ≤ n → (∀ k, 0 ≤ k < n → live !! blk a s k = None) →
  Z.of_nat (length (free_blocks live a s n)) = n.
Proof.
  intros Hn Hk. unfold free_blocks.
  assert (∀ l : list Z, (∀ k, k ∈ l → live !! blk a s k = None) →
    filter (λ k, live !! blk a s k = None) l = l) as Hl.
  { induction l as [|k l IH]; intros H; [done|]. rewrite filter_cons_True, IH by set_solver. done. }
  rewrite Hl, length_seqZ; [lia|]. intros k Hin%elem_of_seqZ. apply Hk. lia.
Qed.

Lemma ld_free_list_run h i d : descs h !! i = Some d → ld_free_list i h = Ret (free_list d, h).
Proof. unfold ld_free_list. by intros ->. Qed.

Lemma upd_free_list_run h i d f : descs h !! i = Some d →
  upd_free_list i f h = Ret ((), with_free i (f (free_list d)) (ram (mach h)) h).
Proof.
  intros Hd. unfold upd_free_list, modify. do 2 f_equal. unfold with_free, set_descs. destruct h as [[] ds ?].
  simpl in *. f_equal. apply list_alter_ext; [|done]. intros d' Hd'. simplify_eq. done.
Qed.

Lemma st_free_cnt_run h a n : st_free_cnt a n h = Ret ((), set_mach (set_ram <[a + 8 := u32 n]> (mach h)) h).
Proof. done. Qed.

Lemma headers_but_insert ars a r v h live k : inv h ars live → ars !! a = Some k →
  headers_but ars a r (<[a + 8 := v]> r).
Proof.
  intros Hinv Ha a' k' o Ha' Ho Hne. apply word_same, lookup_insert_ne. intros Heq.
  pose proof (pages_pos Hinv _ _ Ha). pose proof (pages_pos Hinv _ _ Ha').
  assert (a' = a) as -> by (eapply (same_arena Hinv _ _ _ _ (a + 8)); [done..| |]; lia).
  apply Hne. split; [done|lia].
Qed.

(** The end of [malloc]. *)
Definition take (i : nat) : H Z :=
  b ← free_pop_front i;
  a ← block_to_arena b;
  n ← ld_free_cnt a;
  st_free_cnt a (n - 1);;
  mret b.

Lemma take_spec h ars live i d b l : inv h ars live → descs h !! i = Some d → free_list d = b :: l →
  ∃ a r, take i h = Ret (b, with_free i l r h) ∧
    inv (with_free i l r h) ars (<[b := block_size d]> live) ∧ live !! b = None ∧
    ars !! a = Some (Small i) ∧ a + 12 ≤ b < a + 4096 ∧ b mod 4 = 0 ∧
    (∀ x, x ≠ a + 8 → r !! x = ram (mach h) !! x).
Proof.
  intros Hinv Hd Hl. destruct (iv_free _ _ _ Hinv _ _ Hd) as [Hnd Hin]. rewrite Hl in Hnd, Hin.
  apply NoDup_cons in Hnd as [Hbl Hnd].
  destruct (proj1 (Hin b) ltac:(left)) as (a & k & Ha & Hk & -> & Hlive).
  pose proof (small_range Hinv a _ _ _ Hd Hk) as (Hs & Hb1 & Hb2).
  destruct (arena_addr Hinv _ _ Ha) as (Ha0 & Ha1 & Ha2). simpl in Ha2.
  destruct (iv_arena _ _ _ Hinv _ _ Ha) as (d' & Hd' & Hh). simplify_eq.
  pose proof (iv_desc _ _ _ Hinv _ _ Hd) as Hdok. pose proof (desc_bound _ Hdok) as Hbd.
  set (b := blk a (block_size d) k) in *.
  pose proof (free_blocks_insert live a (block_size d) (blocks_per_arena d) k (block_size d)
    ltac:(lia) Hk Hlive) as Hcnt. fold b in Hcnt.
  pose proof (free_blocks_bound (<[b:=block_size d]> live) a (block_size d) (blocks_per_arena d) ltac:(lia)).
  set (r := <[a + 8 := Z.of_nat (length (free_blocks (<[b:=block_size d]> live) a (block_size d) (blocks_per_arena d)))]>
              (ram (mach h))).
  exists a, r. split; [|split; [|split_and!]].
  - unfold take, free_pop_front. erewrite bind_run.
    2: { erewrite bind_run; [|by apply ld_free_list_run]. rewrite Hl.
         erewrite bind_run; [|by apply upd_free_list_run]. done. }
    cbv beta. set (h1 := with_free _ _ _ _).
    destruct (with_free_lookup i l (ram (mach h)) h i d Hd) as (d1 & Hd1 & Hs1 & Hp1).
    assert (block_to_arena b h1 = Ret (a, h1)) as Hba.
    { unfold b. rewrite <-Hs1. eapply block_to_arena_small; try done.
      - unfold desc_ok. rewrite Hs1, Hp1. done.
      - by eapply (desc_ptr_nonnull Hinv).
      - by rewrite Hp1. }
    run_by ltac:(exact Hba). run_by ltac:(apply ldw_run). destruct Hh as (_ & _ & Hn).
    change (ram (mach h1)) with (ram (mach h)). rewrite Hn.
    run_by ltac:(apply st_free_cnt_run). unfold mret, ST_ret. do 2 f_equal.
    unfold set_mach, with_free, set_ram, r. cbn [mach descs descs_at ram]. f_equal. f_equal. f_equal.
    rewrite wrap_small by (unfold fits; lia). lia.
  - eapply (inv_toggle h ars live _ a i d k); try done.
    + intros x Hx. by rewrite lookup_insert_ne.
    + right. apply lookup_insert_eq.
    + intros x. rewrite Hl. fold b. split.
      * intros Hx. right. split; [by intros ->|by right].
      * intros [[-> Hx]|[Hne Hx]]; [by rewrite lookup_insert_eq in Hx|]. by apply elem_of_cons in Hx as [|].
    + by eapply headers_but_insert.
    + unfold r, word. rewrite lookup_insert_eq. done.
  - done.
  - done.
  - lia.
  - lia.
  - destruct Hdok as (_ & Hs4 & _). unfold b, blk, ARENA_SIZE.
    pose proof (Z.div_mod a 4096). pose proof (Z.div_mod (block_size d) 4).
    replace (a + 12 + k * block_size d) with ((a / 4096 * 1024 + 3 + k * (block_size d / 4)) * 4) by nia.
    apply Z.mod_mul. done.
  - intros x Hx. unfold r. by rewrite lookup_insert_ne.
Qed.

(** ** Adding and removing an arena *)

Definition same_shape : list desc → list desc → Prop :=
  Forall2 (λ d d', block_size d' = block_size d ∧ blocks_per_arena d' = blocks_per_arena d).

Lemma same_shape_refl ds : same_shape ds ds.
Proof. by apply Forall_Forall2_diag, Forall_true. Qed.
Lemma same_shape_alter ds i l : same_shape ds (alter (set_free_list l) i ds).
Proof.
  apply Forall2_same_length_lookup. rewrite length_alter. split; [done|].
  intros j d d' Hd Hd'. destruct (decide (i = j)) as [->|].
  - rewrite list_lookup_alter_eq, Hd in Hd'. by simplify_eq/=.
  - rewrite list_lookup_alter_ne, Hd in Hd' by done. by simplify_eq/=.
Qed.
Lemma same_shape_r ds ds' i d : same_shape ds ds' → ds !! i = Some d →
  ∃ d', ds' !! i = Some d' ∧ block_size d' = block_size d ∧ blocks_per_arena d' = blocks_per_arena d.
Proof. intros H Hd. destruct (Forall2_lookup_l _ _ _ _ _ H Hd) as (d' & ? & ? & ?). eauto. Qed.
Lemma same_shape_l ds ds' i d' : same_shape ds ds' → ds' !! i = Some d' →
  ∃ d, ds !! i = Some d ∧ block_size d' = block_size d ∧ blocks_per_arena d' = blocks_per_arena d.
Proof. intros H Hd. destruct (Forall2_lookup_r _ _ _ _ _ H Hd) as (d & ? & ? & ?). eauto. Qed.
#[local] Hint Resolve same_shape_refl same_shape_alter : core.

Section change.
Context {h : alloc} {ars : gmap Z akind} {live : gmap Z Z} (Hinv : inv h ars live).
Context (h' : alloc) (live' : gmap Z Z) (j cnt : Z) (v : bool).
Abbreviation kp := (kernel_pool (mach h)).
Abbreviation kp' := (kernel_pool (mach h')).
Context (Hshape : same_shape (descs h) (descs h')) (Hat : descs_at h' = descs_at h).
Context (Hcnt : 1 ≤ cnt) (Hj : 0 ≤ j) (Hjc : j + cnt ≤ bit_cnt (used_map kp)).
Context (Hbits : bits_set (used_map kp) (used_map kp') (λ i, (j <=? i) && (i <? j + cnt)) v).
Context (Hbase : base kp' = base kp) (Huser : user_pool (mach h') = user_pool (mach h)).
Abbreviation lo := (page_at kp j).
Abbreviation hi := (page_at kp (j + cnt)).
Context (Hram : ∀ x, ¬ lo ≤ x < hi → ram (mach h') !! x = ram (mach h) !! x).
Context (Hlive : ∀ x, ¬ lo ≤ x < hi → live' !! x = live !! x).

Lemma arena_ok_outside a k : ars !! a = Some k → a + 4096 * pages k ≤ lo ∨ hi ≤ a → arena_ok h' live' a k.
Proof.
  intros Ha Hout. pose proof (pages_pos Hinv _ _ Ha). pose proof (iv_arena _ _ _ Hinv _ _ Ha) as Hok.
  assert (∀ d n, header (ram (mach h)) a d n → header (ram (mach h')) a d n) as Hh.
  { intros d n (H1 & H2 & H3). unfold header.
    rewrite !(word_same (ram (mach h)) (ram (mach h'))) by (apply Hram; lia). done. }
  destruct k as [i|c]; simpl in *.
  - destruct Hok as (d & Hd & Hhd). destruct (same_shape_r _ _ _ _ Hshape Hd) as (d' & Hd' & Hs & Hp).
    exists d'. split; [done|]. rewrite Hs, Hp, Hat. rewrite (free_blocks_ext live live'); [by apply Hh|].
    intros k Hk. apply Hlive. pose proof (small_range Hinv a _ _ _ Hd Hk). lia.
  - destruct Hok as (Hc & Hhd & Hlv). split_and!; [done|by apply Hh|].
    rewrite Hlive; [done|]. unfold ARENA_SIZE. lia.
Qed.

Lemma pages_used_outside a c : 1 ≤ c → pages_used kp a c → a + 4096 * c ≤ lo ∨ hi ≤ a → pages_used kp' a c.
Proof.
  intros Hc (i & -> & Hi & Hic & Hg) Hout. destruct Hbits as (Hwf & Hbc & Hb).
  exists i. unfold page_at in *. rewrite Hbase, Hbc. change PGSIZE with 4096 in *.
  split_and!; [done..|]. intros x Hx. rewrite Hb by lia.
  destruct ((j <=? x) && (x <? j + cnt)) eqn:E; [lia|]. by apply Hg.
Qed.

Lemma change_palloc : palloc_ok (mach h').
Proof.
  destruct (iv_palloc _ _ _ Hinv) as [[? ? ? ?] Hu Hap]. destruct Hbits as (Hwf & Hbc & _).
  split; [split; rewrite ?Hbase, ?Hbc; done|by rewrite Huser|by rewrite Hbase, Hbc, Huser].
Qed.

Lemma change_desc i d : descs h' !! i = Some d → desc_ok d.
Proof.
  intros Hd. destruct (same_shape_l _ _ _ _ Hshape Hd) as (d0 & Hd0 & Hs & Hp).
  destruct (iv_desc _ _ _ Hinv _ _ Hd0). unfold desc_ok. rewrite Hs, Hp. done.
Qed.

Lemma change_live ars' b n :
  (∀ a k, ars !! a = Some k → a + 4096 * pages k ≤ lo ∨ hi ≤ a → ars' !! a = Some k) →
  (∀ a k, ars !! a = Some k → a + 4096 * pages k ≤ lo ∨ hi ≤ a ∨ a = lo ∧ pages k = cnt) →
  ¬ lo ≤ b < hi → live !! b = Some n → live_block (descs h') ars' b n.
Proof.
  intros Hkeep Hsep Hb Hl. destruct (iv_live _ _ _ Hinv _ _ Hl) as [a i d k Ha Hd Hk|a c Ha].
  - destruct (same_shape_r _ _ _ _ Hshape Hd) as (d' & Hd' & Hs & Hp). rewrite <-Hs in *.
    pose proof (small_range Hinv a _ _ _ Hd Hk) as Hr. rewrite <-Hs in Hr.
    eapply live_small; [|done|by rewrite Hp]. apply Hkeep; [done|].
    pose proof (Hsep _ _ Ha) as Hsa. simpl in *. unfold page_at in *. change PGSIZE with 4096 in *. lia.
  - apply live_big, Hkeep; [done|]. pose proof (pages_pos Hinv _ _ Ha).
    pose proof (Hsep _ _ Ha) as Hsa. simpl in *. unfold page_at, ARENA_SIZE in *. change PGSIZE with 4096 in *. lia.
Qed.

(** Free pages belong to no arena. *)
Lemma free_pages_apart a k : group (used_map kp) j cnt false → ars !! a = Some k →
  a + 4096 * pages k ≤ lo ∨ hi ≤ a.
Proof.
  intros Hfree Ha. pose proof (pages_pos Hinv _ _ Ha). destruct (iv_used _ _ _ Hinv _ _ Ha) as (i & -> & Hi & Hic & Hg).
  unfold page_at. change PGSIZE with 4096.
  destruct (decide (i + pages k ≤ j)); [left; lia|]. destruct (decide (j + cnt ≤ i)); [right; lia|]. exfalso.
  specialize (Hg (Z.max i j) ltac:(lia)). specialize (Hfree (Z.max i j) ltac:(lia)). congruence.
Qed.

Lemma inv_add k : v = true → pages k = cnt → group (used_map kp) j cnt false →
  arena_ok h' live' lo k →
  (∀ b n, live' !! b = Some n → lo ≤ b < hi → live_block (descs h') (<[lo := k]> ars) b n) →
  (∀ i d, descs h' !! i = Some d → free_ok (<[lo := k]> ars) live' i d) →
  inv h' (<[lo := k]> ars) live'.
Proof.
  intros Hv Hk Hfree Hnew Hnewl Hfl.
  assert (lo < hi) as Hlohi by (unfold page_at; change PGSIZE with 4096; lia).
  assert (PGSIZE * cnt = hi - lo) as Hsz by (unfold page_at; change PGSIZE with 4096; lia).
  pose proof (λ a k, free_pages_apart a k Hfree) as Hsep.
  assert (∀ a k, ars !! a = Some k → a ≠ lo) as Hne.
  { intros a k0 Ha ->. pose proof (Hsep _ _ Ha). pose proof (pages_pos Hinv _ _ Ha). lia. }
  split; [apply change_palloc|apply change_desc|rewrite Hat; apply Hinv| | | | | |done].
  - rewrite <-(Forall2_length _ _ _ Hshape). apply Hinv.
  - intros a k0 [[<- <-]|[_ Ha]]%lookup_insert_Some.
    + rewrite Hk. exists j. unfold page_at. rewrite Hbase. destruct Hbits as (_ & Hbc & Hb). rewrite Hbc.
      split_and!; [done..|]. intros x Hx. rewrite Hb by lia.
      by rewrite (proj2 (Z.leb_le j x)), (proj2 (Z.ltb_lt x (j + cnt))) by lia.
    + apply pages_used_outside; [by eapply (pages_pos Hinv)|by apply (iv_used _ _ _ Hinv)|by apply Hsep].
  - intros a1 k1 a2 k2 [[<- <-]|[_ Ha1]]%lookup_insert_Some [[<- <-]|[_ Ha2]]%lookup_insert_Some Hne12.
    + done.
    + pose proof (Hsep _ _ Ha2). rewrite Hk, Hsz. change PGSIZE with 4096. lia.
    + pose proof (Hsep _ _ Ha1). rewrite Hk, Hsz. change PGSIZE with 4096. lia.
    + by apply (iv_apart _ _ _ Hinv).
  - intros a k0 [[<- <-]|[_ Ha]]%lookup_insert_Some; [done|]. apply arena_ok_outside; [done|by apply Hsep].
  - intros b n Hb. destruct (decide (lo ≤ b < hi)) as [Hin|Hout]; [by apply Hnewl|].
    rewrite Hlive in Hb by done. apply change_live; [|naive_solver|done..].
    intros a k0 Ha _. rewrite lookup_insert_ne; [done|]. by apply not_eq_sym, (Hne a k0).
Qed.

Lemma inv_del k : ars !! lo = Some k → pages k = cnt →
  (∀ b n, live' !! b = Some n → ¬ lo ≤ b < hi) →
  (∀ i d, descs h' !! i = Some d → free_ok (delete lo ars) live' i d) →
  inv h' (delete lo ars) live'.
Proof.
  intros Hlo Hk Hnone Hfl.
  assert (PGSIZE * cnt = hi - lo) as Hsz by (unfold page_at; change PGSIZE with 4096; lia).
  assert (∀ a k0, ars !! a = Some k0 → a ≠ lo → a + 4096 * pages k0 ≤ lo ∨ hi ≤ a) as Hsep.
  { intros a k0 Ha Hne. pose proof (iv_apart _ _ _ Hinv _ _ _ _ Ha Hlo Hne) as Hap.
    rewrite Hk, Hsz in Hap. change PGSIZE with 4096 in Hap. lia. }
  split; [apply change_palloc|apply change_desc|rewrite Hat; apply Hinv| | | | | |done].
  - rewrite <-(Forall2_length _ _ _ Hshape). apply Hinv.
  - intros a k0 [Hne Ha]%lookup_delete_Some.
    apply pages_used_outside; [by eapply (pages_pos Hinv)|by apply (iv_used _ _ _ Hinv)|by apply Hsep].
  - intros a1 k1 a2 k2 [_ Ha1]%lookup_delete_Some [_ Ha2]%lookup_delete_Some. by apply (iv_apart _ _ _ Hinv).
  - intros a k0 [Hne Ha]%lookup_delete_Some. apply arena_ok_outside; [done|by apply Hsep].
  - intros b n Hb. pose proof (Hnone _ _ Hb) as Hout. rewrite Hlive in Hb by done.
    apply change_live; [| |done..].
    + intros a k0 Ha Ho. rewrite lookup_delete_ne; [done|]. intros <-.
      simplify_eq. change PGSIZE with 4096 in Hsz. lia.
    + intros a k0 Ha. destruct (decide (a = lo)) as [->|Hne]; [simplify_eq; by right; right|].
      destruct (Hsep _ _ Ha Hne); auto.
Qed.
End change.

(** ** Loops over the blocks of an arena *)

Lemma with_free_same i d h : descs h !! i = Some d → with_free i (free_list d) (ram (mach h)) h = h.
Proof.
  intros Hd. unfold with_free. destruct h as [[] ds ?]. simpl in *. f_equal.
  rewrite (list_alter_ext _ id ds ds), list_alter_id; [done|done| |done].
  intros d' Hd'. simplify_eq. by destruct d.
Qed.

Lemma with_free_twice i l1 l2 r1 r2 h : with_free i l2 r2 (with_free i l1 r1 h) = with_free i l2 r2 h.
Proof.
  unfold with_free. simpl. f_equal. rewrite list_alter_alter_eq. by apply list_alter_ext.
Qed.

Lemma with_free_self i l r h d : descs h !! i = Some d →
  descs (with_free i l r h) !! i = Some (set_free_list l d).
Proof. intros Hd. simpl. by rewrite list_lookup_alter_eq, Hd. Qed.

Section arena_loops.
Context (h : alloc) (a : Z) (i : nat) (d : desc) (n : Z).
Context (Ha : 0 < a) (Hend : a + 4096 ≤ 2 ^ 32) (Hd : descs h !! i = Some d) (Hok : desc_ok d).
Context (Hh : header (ram (mach h)) a (desc_ptr (descs_at h) i) n).
Abbreviation s := (block_size d).
Abbreviation with_list l := (with_free i l (ram (mach h)) h).

Lemma to_block_with l k : 0 ≤ k < blocks_per_arena d →
  arena_to_block a k (with_list l) = Ret (blk a s k, with_list l).
Proof.
  intros Hk. apply (arena_to_block_run _ a i (set_free_list l d) n); [done|done|by apply with_free_self|done..].
Qed.

Lemma push_all_spec : free_list d = [] →
  wp (for_each (Z.to_nat (blocks_per_arena d)) 0 (λ idx, b ← arena_to_block a idx; free_push_back i b)) h
    (λ _ h', h' = with_list (blk a s <$> seqZ 0 (blocks_per_arena d))).
Proof.
  intros Hnil. pose proof (desc_bound _ Hok) as Hb. destruct Hok as (Hs & _ & _).
  apply (wp_for_each (λ idx h', h' = with_list (blk a s <$> seqZ 0 idx))).
  - intros idx h1 Hidx ->. wp_bind_by ltac:(apply to_block_with; lia).
    unfold free_push_back. eapply wp_run.
    { erewrite bind_run; [|apply ld_free_list_run; by apply with_free_self]. cbn [free_list set_free_list].
      rewrite bool_decide_false; [by apply upd_free_list_run, with_free_self|].
      intros (k & Hk & Hin%elem_of_seqZ)%list_elem_of_fmap. apply blk_inj in Hk; lia. }
    rewrite with_free_twice. cbn [free_list set_free_list]. f_equal.
    rewrite seqZ_app, fmap_app by lia. done.
  - intros h' ->. f_equal. rewrite Z.add_0_l, Z2Nat.id by lia. done.
  - rewrite <-(with_free_same i d h Hd) at 1. by rewrite Hnil.
Qed.

Lemma remove_all_spec : NoDup (free_list d) →
  (∀ k, 0 ≤ k < blocks_per_arena d → blk a s k ∈ free_list d) →
  wp (for_each (Z.to_nat (blocks_per_arena d)) 0 (λ idx, b ← arena_to_block a idx; free_remove i b)) h
    (λ _ h', ∃ l, h' = with_list l ∧ NoDup l ∧
       ∀ x, x ∈ l ↔ x ∈ free_list d ∧ ∀ k, 0 ≤ k < blocks_per_arena d → x ≠ blk a s k).
Proof.
  intros Hnd Hall. pose proof (desc_bound _ Hok) as Hb. pose proof (proj1 Hok) as Hs.
  apply (wp_for_each (λ idx h', ∃ l, h' = with_list l ∧ NoDup l ∧
       ∀ x, x ∈ l ↔ x ∈ free_list d ∧ ∀ k, 0 ≤ k < idx → x ≠ blk a s k)).
  - intros idx h1 Hidx (l & -> & Hl & Hin). wp_bind_by ltac:(apply to_block_with; lia).
    assert (blk a s idx ∈ l) as Hbl.
    { apply Hin. split; [apply Hall; lia|]. intros k Hk E. apply blk_inj in E; lia. }
    unfold free_remove. eapply wp_run.
    { erewrite bind_run; [|apply ld_free_list_run; by apply with_free_self]. cbn [free_list set_free_list].
      rewrite bool_decide_true by done. by apply upd_free_list_run, with_free_self. }
    rewrite with_free_twice. cbn [free_list set_free_list]. eexists. split; [done|].
    split; [by apply NoDup_filter|]. intros x. rewrite list_elem_of_filter, Hin. split.
    + intros (Hne & Hx & Hk). split; [done|]. intros k Hk'. destruct (decide (k = idx)) as [->|]; [done|].
      apply Hk. lia.
    + intros (Hx & Hk). split; [apply Hk; lia|]. split; [done|]. intros k Hk'. apply Hk. lia.
  - intros h' (l & -> & Hl & Hin). exists l. split_and!; [done..|]. intros x. rewrite Hin.
    rewrite Z.add_0_l, Z2Nat.id by lia. done.
  - exists (free_list d). rewrite (with_free_same i d h Hd). split_and!; [done..|].
    intros x. split; [|naive_solver]. intros Hx. split; [done|]. lia.
Qed.
End arena_loops.

(** ** New arenas *)

(** The contents of the blocks in [live] are the same in both states. *)
Definition kept (live : gmap Z Z) (h h' : alloc) : Prop :=
  ∀ b n x, live !! b = Some n → b ≤ x < b + n → ram (mach h') !! x = ram (mach h) !! x.

(** The kernel's pool has no [cnt] contiguous free pages. *)
Definition no_pages (h : alloc) (cnt : Z) : Prop :=
  ∀ j, 0 ≤ j → j + cnt ≤ bit_cnt (used_map (kernel_pool (mach h))) →
    ¬ group (used_map (kernel_pool (mach h))) j cnt false.

Definition hdr (a d n : Z) (r : gmap Z Z) : gmap Z Z :=
  <[a + 8 := u32 n]> (<[a + 4 := u32 d]> (<[a := u32 ARENA_MAGIC]> r)).

Lemma st_arena_run a d n h : st_arena a d n h = Ret ((), set_mach (set_ram (hdr a d n) (mach h)) h).
Proof. done. Qed.

Lemma hdr_header a d n r : fits 32 d → fits 32 n → header (hdr a d n r) a d n.
Proof.
  intros Hd Hn. unfold header, hdr, word.
  rewrite lookup_insert_eq, (lookup_insert_ne _ (a + 8) (a + 4)), lookup_insert_eq by lia.
  rewrite !lookup_insert_ne, lookup_insert_eq by lia. simpl. by rewrite !wrap_small.
Qed.

Lemma hdr_out a d n r x : ¬ a ≤ x < a + 12 → hdr a d n r !! x = r !! x.
Proof. intros Hx. unfold hdr. rewrite !lookup_insert_ne by lia. done. Qed.

Lemma on_mach_run {A} (f : P A) h x m : f (mach h) = Ret (x, m) → on_mach f h = Ret (x, set_mach m h).
Proof. unfold on_mach. by intros ->. Qed.

Lemma set_mach_same h : set_mach (mach h) h = h.
Proof. by destruct h. Qed.

(** Pages for an arena: none, or [cnt] free ones. *)
Lemma get_pages h cnt : palloc_ok (mach h) → 1 ≤ cnt →
  (on_mach (palloc_get_multiple 0 cnt) h = Ret (NULL, h) ∧ no_pages h cnt) ∨
  ∃ j m, on_mach (palloc_get_multiple 0 cnt) h = Ret (page_at (kernel_pool (mach h)) j, set_mach m h) ∧
    nonnull (page_at (kernel_pool (mach h)) j) = true ∧
    0 ≤ j ∧ j + cnt ≤ bit_cnt (used_map (kernel_pool (mach h))) ∧
    group (used_map (kernel_pool (mach h))) j cnt false ∧
    bits_set (used_map (kernel_pool (mach h))) (used_map (kernel_pool m)) (λ i, (j <=? i) && (i <? j + cnt)) true ∧
    base (kernel_pool m) = base (kernel_pool (mach h)) ∧ user_pool m = user_pool (mach h) ∧
    ∀ x, ¬ page_at (kernel_pool (mach h)) j ≤ x < page_at (kernel_pool (mach h)) (j + cnt) →
      ram m !! x = ram (mach h) !! x.
Proof.
  intros Hok Hc. destruct (palloc_get_multiple_spec 0 cnt (mach h) Hok ltac:(lia) eq_refl) as (r & m & Hrun & Hres).
  destruct Hres as [Hno|j b r Hj Hjc Hg Hb Hout _].
  - left. split; [|exact Hno]. rewrite (on_mach_run _ _ _ _ Hrun). by rewrite set_mach_same.
  - right. exists j. eexists. split; [by apply on_mach_run|].
    split; [apply nonnull_true; destruct (palloc_ok_pool _ false Hok); unfold page_at, NULL; simpl in *; 
            change PGSIZE with 4096; lia|].
    by split_and!.
Qed.

Section fresh.
Context {h : alloc} {ars : gmap Z akind} {live : gmap Z Z} (Hinv : inv h ars live).
Context (j cnt : Z) (Hcnt : 1 ≤ cnt) (Hj : 0 ≤ j) (Hjc : j + cnt ≤ bit_cnt (used_map (kernel_pool (mach h)))).
Context (Hfree : group (used_map (kernel_pool (mach h))) j cnt false).
Abbreviation lo := (page_at (kernel_pool (mach h)) j).
Abbreviation hi := (page_at (kernel_pool (mach h)) (j + cnt)).

Lemma fresh_none b n : live !! b = Some n → b + n ≤ lo ∨ hi ≤ b.
Proof.
  intros Hb. destruct (live_in_arena Hinv _ _ Hb) as (a & k & Ha & ? & ?).
  pose proof (free_pages_apart Hinv j cnt Hcnt _ _ Hfree Ha). lia.
Qed.

Lemma fresh_live x : lo ≤ x < hi → live !! x = None.
Proof.
  intros Hx. destruct (live !! x) as [n|] eqn:E; [|done].
  pose proof (fresh_none _ _ E). destruct (iv_live _ _ _ Hinv _ _ E) as [? ? d ? ? Hd|? c Hc].
  - pose proof (proj1 (iv_desc _ _ _ Hinv _ _ Hd)). lia.
  - apply (pages_pos Hinv) in Hc. simpl in Hc. change PGSIZE with 4096 in *. change ARENA_SIZE with 12 in *. lia.
Qed.

Lemma fresh_arena : ars !! lo = None.
Proof.
  destruct (ars !! lo) as [k|] eqn:E; [|done]. pose proof (pages_pos Hinv _ _ E).
  pose proof (free_pages_apart Hinv j cnt Hcnt _ _ Hfree E). unfold page_at in *. change PGSIZE with 4096 in *. lia.
Qed.

Lemma fresh_addr : 0 < lo ∧ lo mod 4096 = 0 ∧ lo + 4096 * cnt ≤ 2 ^ 32 ∧ hi = lo + 4096 * cnt.
Proof.
  destruct (pa_kernel _ (iv_palloc _ _ _ Hinv)) as [? ? Hal ?]. unfold page_at. change PGSIZE with 4096 in *.
  split_and!; try lia. rewrite Z.add_mod, Hal, Z.mul_comm, Z.mod_mul by done. done.
Qed.

Lemma fresh_kept h' : (∀ x, ¬ lo ≤ x < hi → ram (mach h') !! x = ram (mach h) !! x) → kept live h h'.
Proof. intros Hr b n x Hb Hx. apply Hr. pose proof (fresh_none _ _ Hb). lia. Qed.

Lemma free_ok_ext ars' live' i d : free_ok ars live i d →
  (∀ a, ars' !! a = Some (Small i) ↔ ars !! a = Some (Small i)) →
  (∀ a k, ars !! a = Some (Small i) → 0 ≤ k < blocks_per_arena d →
     live' !! blk a (block_size d) k = live !! blk a (block_size d) k) →
  free_ok ars' live' i d.
Proof.
  intros [Hnd Hin] Hars Hlive. split; [done|]. intros b. rewrite Hin.
  split; intros (a & k & Ha & Hk & -> & Hb); exists a, k.
  - rewrite Hars, Hlive; done.
  - apply Hars in Ha. rewrite <-Hlive; done.
Qed.
End fresh.

(** The big branch of [malloc]. *)
Definition malloc_big (cnt : Z) : H Z :=
  a ← on_mach (palloc_get_multiple 0 cnt);
  if negb (nonnull a) then mret NULL else
  st_arena a NULL cnt;;
  mret (u32 (a + ARENA_SIZE)).

Lemma malloc_big_spec h ars live cnt : inv h ars live → 1 ≤ cnt < 2 ^ 32 →
  (malloc_big cnt h = Ret (NULL, h) ∧ no_pages h cnt) ∨
  ∃ a h', malloc_big cnt h = Ret (a + ARENA_SIZE, h') ∧
    inv h' (<[a := Big cnt]> ars) (<[a + ARENA_SIZE := PGSIZE * cnt - ARENA_SIZE]> live) ∧
    live !! (a + ARENA_SIZE) = None ∧ 0 < a ∧ a mod 4096 = 0 ∧ kept live h h'.
Proof.
  intros Hinv Hcnt. unfold malloc_big.
  destruct (get_pages h cnt (iv_palloc _ _ _ Hinv) ltac:(lia))
    as [[Hrun Hno]|(j & m & Hrun & Hnn & Hj & Hjc & Hg & Hb & Hbase & Huser & Hram)].
  - left. split; [|done]. by rewrite (bind_run _ _ _ _ _ Hrun).
  - right. set (a := page_at _ j) in *.
    destruct (fresh_addr Hinv j cnt Hj ltac:(lia)) as (Ha & Hm & Hend & Hhi). fold a in Ha, Hm, Hend, Hhi.
    set (h' := set_mach (set_ram (hdr a NULL cnt) m) h).
    exists a, h'. split.
    { rewrite (bind_run _ _ _ _ _ Hrun), Hnn. cbn [negb]. cbv beta iota.
      run_by ltac:(apply st_arena_run). unfold mret, ST_ret. unfold ARENA_SIZE.
      rewrite wrap_small by (unfold fits; lia). by destruct h. }
    assert (∀ x, ¬ a ≤ x < page_at (kernel_pool (mach h)) (j + cnt) → ram (mach h') !! x = ram (mach h) !! x) as Hr'.
    { intros x Hx. simpl. rewrite hdr_out by lia. by apply Hram. }
    assert (∀ x, a ≤ x < a + 4096 * cnt → live !! x = None) as Hnone.
    { intros x Hx. apply (fresh_live Hinv j cnt ltac:(lia) Hg). fold a. lia. }
    split_and!; [|apply Hnone; unfold ARENA_SIZE; lia|done|done|apply (fresh_kept Hinv j cnt ltac:(lia) Hg); exact Hr'].
    eapply (inv_add Hinv h' _ j cnt true); try done.
    + apply Hcnt.
    + intros x Hx. apply lookup_insert_ne. fold a in Hx. unfold ARENA_SIZE. lia.
    + split_and!; [lia| |apply lookup_insert_eq]. simpl. apply hdr_header; [done|unfold fits; lia].
    + intros b n [[<- <-]|[_ Hb']]%lookup_insert_Some Hin.
      * fold a. apply live_big, lookup_insert_eq.
      * fold a in Hin. rewrite Hnone in Hb' by lia. done.
    + intros i d Hd. fold a. apply (free_ok_ext (ars := ars) (live := live)); [by apply (iv_free _ _ _ Hinv)| |].
      * intros a'. rewrite lookup_insert_Some.
        pose proof (fresh_arena Hinv j cnt ltac:(lia) Hg) as Hna. fold a in Hna.
        split; [naive_solver|]. intros Ha'. right. split; [|done]. intros <-. congruence.
      * intros a' k Ha' Hk. apply lookup_insert_ne.
        pose proof (free_pages_apart Hinv j cnt ltac:(lia) _ _ Hg Ha') as Hap. fold a in Hap.
        pose proof (small_range Hinv a' _ _ _ Hd Hk). unfold ARENA_SIZE. simpl in Hap. lia.
Qed.

(** The part of [malloc] that makes an arena of small blocks. *)
Definition new_arena (i : nat) (d : Z) (de : desc) : H bool :=
  a ← on_mach (palloc_get_page 0);
  if negb (nonnull a) then mret false else
  st_arena a d (blocks_per_arena de);;
  for_each (Z.to_nat (blocks_per_arena de)) 0 (λ idx,
    b ← arena_to_block a idx;
    free_push_back i b);;
  mret true.

Lemma new_arena_spec h ars live i d : inv h ars live → descs h !! i = Some d → free_list d = [] →
  (new_arena i (desc_ptr (descs_at h) i) d h = Ret (false, h) ∧ no_pages h 1) ∨
  ∃ a h', new_arena i (desc_ptr (descs_at h) i) d h = Ret (true, h') ∧
    inv h' (<[a := Small i]> ars) live ∧ kept live h h' ∧
    (∃ d' b l, descs h' !! i = Some d' ∧ block_size d' = block_size d ∧ free_list d' = b :: l).
Proof.
  intros Hinv Hd Hnil. unfold new_arena, palloc_get_page.
  pose proof (iv_desc _ _ _ Hinv _ _ Hd) as Hdok. pose proof (desc_bound _ Hdok) as Hbd.
  destruct (get_pages h 1 (iv_palloc _ _ _ Hinv) ltac:(lia))
    as [[Hrun Hno]|(j & m & Hrun & Hnn & Hj & Hjc & Hg & Hb & Hbase & Huser & Hram)].
  - left. split; [|done]. by rewrite (bind_run _ _ _ _ _ Hrun).
  - right. set (a := page_at _ j) in *. set (s := block_size d).
    destruct (fresh_addr Hinv j 1 Hj ltac:(lia)) as (Ha & Hm & Hend & Hhi). fold a in Ha, Hm, Hend, Hhi.
    set (h1 := set_mach (set_ram (hdr a (desc_ptr (descs_at h) i) (blocks_per_arena d)) m) h).
    assert (header (ram (mach h1)) a (desc_ptr (descs_at h) i) (blocks_per_arena d)) as Hh.
    { apply hdr_header; [by eapply (desc_ptr_fits Hinv)|unfold fits; lia]. }
    destruct (wp_unit _ _ _ (push_all_spec h1 a i d _ Ha ltac:(lia) Hd Hdok Hh Hnil)) as (h' & Hloop & ->).
    set (l := blk a s <$> seqZ 0 (blocks_per_arena d)) in *. set (h' := with_free _ _ _ _) in *.
    assert (∀ x, a ≤ x < a + 4096 → live !! x = None) as Hnone.
    { intros x Hx. apply (fresh_live Hinv j 1 ltac:(lia) Hg). fold a. lia. }
    assert (∀ x, ¬ a ≤ x < page_at (kernel_pool (mach h)) (j + 1) → ram (mach h') !! x = ram (mach h) !! x) as Hr'.
    { intros x Hx. simpl. rewrite hdr_out by lia. by apply Hram. }
    pose proof (fresh_arena Hinv j 1 ltac:(lia) Hg) as Hna. fold a in Hna.
    exists a, h'. split; [|split; [|split]].
    + rewrite (bind_run _ _ _ _ _ Hrun), Hnn. cbn [negb]. cbv beta iota.
      run_by ltac:(apply st_arena_run). change (set_mach _ (set_mach m h)) with h1.
      by rewrite (bind_run _ _ _ _ _ Hloop).
    + eapply (inv_add Hinv h' _ j 1 true); try done.
      * apply same_shape_alter.
      * exists (set_free_list l d). split; [by apply with_free_self|]. cbn [block_size blocks_per_arena set_free_list].
        simpl. fold a. rewrite free_blocks_full; [done|lia|]. intros k Hk. apply Hnone.
        pose proof (small_range Hinv a _ _ k Hd Hk). lia.
      * intros b n Hb' Hin. fold a in Hin. rewrite Hnone in Hb' by lia. done.
      * intros i' d' (d0 & Hd0 & Hs & Hp & Hfl)%with_free_desc. simpl in Hd0.
        pose proof (iv_free _ _ _ Hinv _ _ Hd0) as Hfo. fold a. unfold free_ok. rewrite Hfl, Hs, Hp.
        case_decide as E; [subst i'; simplify_eq|].
        -- split; [apply NoDup_fmap_2_strong; [|apply NoDup_seqZ]; intros x y _ _ E; eapply (blk_inj a (block_size d)); [apply Hdok|exact E]|].
           intros b. unfold l. rewrite list_elem_of_fmap. split.
           ++ intros (k & -> & Hk%elem_of_seqZ). exists a, k. split; [apply lookup_insert_eq|].
              split; [lia|]. split; [done|]. apply Hnone.
              pose proof (small_range Hinv a _ _ k Hd ltac:(lia)). unfold s. lia.
           ++ intros (a' & k & [[<- _]|[_ Ha']]%lookup_insert_Some & Hk & -> & Hbn).
              { exists k. split; [done|]. apply elem_of_seqZ. lia. }
              exfalso. destruct Hfo as [_ Hin]. rewrite Hnil in Hin.
              eapply not_elem_of_nil, Hin. by exists a', k.
        -- apply (free_ok_ext (ars := ars) (live := live)); [done| |done].
           intros a'. rewrite lookup_insert_Some. split; [naive_solver|].
           intros Ha'. right. split; [|done]. intros <-. congruence.
    + apply (fresh_kept Hinv j 1 ltac:(lia) Hg). exact Hr'.
    + exists (set_free_list l d), (blk a s 0), (blk a s <$> seqZ 1 (blocks_per_arena d - 1)).
      split; [by apply with_free_self|]. split; [done|]. cbn [free_list set_free_list]. unfold l.
      rewrite (seqZ_cons 0) by lia. done.
Qed.

(** ** Allocation *)

Lemma first_fit_Some size ds i : first_fit size ds = Some i → ∃ d, ds !! i = Some d ∧ size ≤ block_size d.
Proof.
  revert i. induction ds as [|d ds IH]; intros i; [done|]. simpl. rewrite Z.geb_leb.
  destruct (Z.leb_spec size (block_size d)); [intros [= <-]; by exists d|].
  intros (k & Hk & ->)%fmap_Some. by apply IH.
Qed.

(** The pages of a big block hold its header and [size] bytes. *)
Lemma big_pages size : 0 < size ≤ 2 ^ 32 - 4108 →
  let cnt := u32 (u32 (size + ARENA_SIZE) + PGSIZE - 1) / PGSIZE in
  1 ≤ cnt < 2 ^ 32 ∧ 4096 * (cnt - 1) < size + 12 ≤ 4096 * cnt.
Proof.
  intros Hs cnt. subst cnt. change PGSIZE with 4096. change ARENA_SIZE with 12.
  rewrite (wrap_small 32 (size + 12)), wrap_small by (unfold fits; lia).
  pose proof (Z.div_mod (size + 12 + 4096 - 1) 4096). pose proof (Z.mod_pos_bound (size + 12 + 4096 - 1) 4096). lia.
Qed.

(** The answers of [malloc]. *)
Definition malloc_result (h : alloc) (live : gmap Z Z) (size p : Z) (h' : alloc) : Prop :=
  (p = NULL ∧ h' = h ∧ ∃ cnt, 1 ≤ cnt ∧ 4096 * (cnt - 1) < size + 12 ∧ no_pages h cnt) ∨
  ∃ ars n, p ≠ NULL ∧ size ≤ n ∧ live !! p = None ∧ p mod 4 = 0 ∧
    inv h' ars (<[p := n]> live) ∧ kept live h h'.

Lemma kept_trans live h1 h2 h3 : kept live h1 h2 → kept live h2 h3 → kept live h1 h3.
Proof. intros H1 H2 b n x Hb Hx. rewrite (H2 b n x Hb Hx). by apply (H1 b n). Qed.

Lemma take_result h h1 ars live i d b l size : inv h1 ars live → descs h1 !! i = Some d →
  free_list d = b :: l → size ≤ block_size d → kept live h h1 →
  ∃ p h', take i h1 = Ret (p, h') ∧ malloc_result h live size p h'.
Proof.
  intros Hinv Hd Hl Hs Hk.
  destruct (take_spec h1 ars live i d b l Hinv Hd Hl) as (a & r & Hrun & Hinv' & Hb & Ha & Hr & Hal & Hram).
  exists b. eexists. split; [exact Hrun|]. right. exists ars, (block_size d).
  destruct (arena_addr Hinv _ _ Ha) as (? & _ & _).
  split; [unfold NULL; lia|]. split_and!; [done..|].
  eapply kept_trans; [exact Hk|]. intros b' n x Hb' Hx. apply Hram. intros ->.
  destruct (live_in_arena Hinv _ _ Hb') as (a' & k' & Ha' & ? & ?).
  assert (a' = a) as -> by (eapply (same_arena Hinv _ _ _ _ (a + 8)); [done..|lia|simpl; lia]). lia.
Qed.

Lemma malloc_spec h ars live size : inv h ars live → 0 < size ≤ 2 ^ 32 - 4108 →
  ∃ p h', malloc size h = Ret (p, h') ∧ malloc_result h live size p h'.
Proof.
  intros Hinv Hs. unfold malloc. rewrite (proj2 (Z.eqb_neq size 0)) by lia. run_by ltac:(done).
  destruct (first_fit size (descs h)) as [i|] eqn:Hfit.
  - apply first_fit_Some in Hfit as (d & Hd & Hsz). run_by ltac:(done).
    run_by ltac:(by apply ld_desc_run). cbn [snd].
    case_bool_decide as Hnil.
    + fold (new_arena i (desc_ptr (descs_at h) i) d).
      destruct (new_arena_spec h ars live i d Hinv Hd Hnil)
        as [[Hrun Hno]|(a & h1 & Hrun & Hinv1 & Hk & d1 & b & l & Hd1 & Hs1 & Hl)];
        rewrite (bind_run _ _ _ _ _ Hrun); cbn [negb].
      * exists NULL, h. split; [done|]. left. split_and!; [done..|]. exists 1. split_and!; [lia..|done].
      * fold (take i). eapply take_result; [exact Hinv1|exact Hd1|exact Hl|lia|exact Hk].
    + run_by ltac:(done). cbn [negb]. fold (take i). destruct (free_list d) as [|b l] eqn:Hl; [done|].
      by eapply take_result.
  - destruct (big_pages size Hs) as [Hc Hsz]. set (cnt := _ / PGSIZE) in *. fold (malloc_big cnt).
    destruct (malloc_big_spec h ars live cnt Hinv Hc) as [[Hrun Hno]|(a & h' & Hrun & Hinv' & Hl & Ha & Hm & Hk)].
    + exists NULL, h. split; [done|]. left. split_and!; [done..|]. exists cnt. split_and!; [lia..|done].
    + exists (a + ARENA_SIZE), h'. split; [done|]. right. do 2 eexists.
      split; [unfold NULL, ARENA_SIZE; lia|]. split; [|split_and!; [done| |exact Hinv'|done]].
      * change PGSIZE with 4096. change ARENA_SIZE with 12. lia.
      * unfold ARENA_SIZE. pose proof (Z.div_mod a 4096).
        replace (a + 12) with ((a / 4096 * 1024 + 3) * 4) by lia. by apply Z.mod_mul.
Qed.

(** ** Freeing *)

(** From the pool [p] to [p']: the [cnt] pages from [a] on, which were in use, are free, and
    nothing else has changed. *)
Definition pages_returned (p p' : pool) (a cnt : Z) : Prop :=
  ∃ j, a = page_at p j ∧ 0 ≤ j ∧ j + cnt ≤ bit_cnt (used_map p) ∧ group (used_map p) j cnt true ∧
    base p' = base p ∧ bits_set (used_map p) (used_map p') (λ i, (j <=? i) && (i <? j + cnt)) false.

(** The pages of an arena go back to the pool, when no block of it is in use. *)
Section release.
Context {h : alloc} {ars : gmap Z akind} {live : gmap Z Z} (Hinv : inv h ars live).
Context (h1 : alloc) (live' : gmap Z Z) (a : Z) (k : akind) (Ha : ars !! a = Some k).
Context (Hpool : kernel_pool (mach h1) = kernel_pool (mach h)) (Huser : user_pool (mach h1) = user_pool (mach h)).
Context (Hr : ram (mach h1) = ram (mach h)) (Hat : descs_at h1 = descs_at h).
Context (Hshape : same_shape (descs h) (descs h1)).
Context (Hlive : ∀ x, ¬ a ≤ x < a + 4096 * pages k → live' !! x = live !! x).
Context (Hnone : ∀ b n, live' !! b = Some n → ¬ a ≤ b < a + 4096 * pages k).
Context (Hfree : ∀ i d, descs h1 !! i = Some d → free_ok (delete a ars) live' i d).

Lemma release_spec : ∃ h', on_mach (palloc_free_multiple a (pages k)) h1 = Ret ((), h') ∧
  inv h' (delete a ars) live' ∧ kept live' h h' ∧ user_pool (mach h') = user_pool (mach h) ∧
  pages_returned (kernel_pool (mach h)) (kernel_pool (mach h')) a (pages k).
Proof.
  pose proof (pages_pos Hinv _ _ Ha) as Hc. destruct (iv_used _ _ _ Hinv _ _ Ha) as (j & Haj & Hj & Hjc & Hg).
  assert (palloc_ok (mach h1)) as Hok.
  { destruct (iv_palloc _ _ _ Hinv). split; by rewrite ?Hpool, ?Huser. }
  destruct (palloc_free_multiple_spec (mach h1) false j (pages k) Hok) as (b & Hrun & Hb);
    simpl; rewrite ?Hpool; try (done || lia).
  simpl in Hrun, Hb. rewrite Hpool in Hrun, Hb. rewrite <-Haj in Hrun.
  set (m := Machine _ _ _ _ _ _) in Hrun. exists (set_mach m h1). split; [by apply on_mach_run|].
  assert (page_at (kernel_pool (mach h)) (j + pages k) = a + 4096 * pages k) as Hhi.
  { rewrite Haj. unfold page_at. change PGSIZE with 4096. lia. }
  assert (∀ x, ¬ a ≤ x < a + 4096 * pages k → ram m !! x = ram (mach h) !! x) as Hram.
  { intros x Hx. simpl. rewrite Hr. apply fill_out. lia. }
  split_and!; [| |done|by exists j].
  - rewrite Haj. eapply (inv_del Hinv (set_mach m h1) live' j (pages k) false); rewrite ?Hhi, <-?Haj; try done.
  - intros b' n x Hb' Hx. simpl. apply Hram. pose proof (Hnone _ _ Hb') as Hout.
    rewrite Hlive in Hb' by done. destruct (live_in_arena Hinv _ _ Hb') as (a' & k' & Ha' & ? & ?).
    destruct (decide (a' = a)) as [->|Hne]; [simplify_eq; lia|].
    pose proof (iv_apart _ _ _ Hinv _ _ _ _ Ha' Ha Hne). change PGSIZE with 4096 in *. lia.
Qed.
End release.

Lemma free_big_spec h ars live a c : inv h ars live → ars !! a = Some (Big c) →
  ∃ h', on_mach (palloc_free_multiple a c) h = Ret ((), h') ∧
    inv h' (delete a ars) (delete (a + ARENA_SIZE) live) ∧ kept (delete (a + ARENA_SIZE) live) h h' ∧
    user_pool (mach h') = user_pool (mach h) ∧
    pages_returned (kernel_pool (mach h)) (kernel_pool (mach h')) a c.
Proof.
  intros Hinv Ha. pose proof (pages_pos Hinv _ _ Ha) as Hc. simpl in Hc.
  apply (release_spec Hinv h (delete (a + ARENA_SIZE) live) a (Big c)); try done.
  - intros x Hx. apply lookup_delete_ne. simpl in Hx. unfold ARENA_SIZE. lia.
  - intros b n [Hne Hb]%lookup_delete_Some Hin.
    destruct (iv_live _ _ _ Hinv _ _ Hb) as [a' i d k Ha' Hd Hk|a' c' Ha'].
    + pose proof (small_range Hinv a' _ _ _ Hd Hk).
      assert (a' = a) as -> by (eapply (same_arena Hinv); [done..| |exact Hin]; simpl; lia). congruence.
    + pose proof (pages_pos Hinv _ _ Ha'). simpl in *. 
      assert (a' = a) as -> by (eapply (same_arena Hinv); [done..| |exact Hin]; unfold ARENA_SIZE; simpl; lia). done.
  - intros i d Hd. eapply free_ok_ext; [by apply (iv_free _ _ _ Hinv)| |].
    + intros a'. rewrite lookup_delete_Some. split; [naive_solver|]. intros Ha'. split; [|done]. intros <-. congruence.
    + intros a' k Ha' Hk. apply lookup_delete_ne. intros Heq.
      pose proof (small_range Hinv a' _ _ _ Hd Hk).
      assert (a' = a) as ->; [|congruence].
      eapply (same_arena Hinv _ _ _ _ (a + ARENA_SIZE)); [done..| |]; unfold ARENA_SIZE in *; simpl; lia.
Qed.

(** The end of [free], when the arena has no block in use. *)
Definition drop_arena (i : nat) (a n : Z) : H () :=
  for_each (Z.to_nat n) 0 (λ idx, b ← arena_to_block a idx; free_remove i b);;
  on_mach (palloc_free_page a).

Lemma drop_arena_spec h ars live a i d : inv h ars live → ars !! a = Some (Small i) →
  descs h !! i = Some d →
  (∀ k, 0 ≤ k < blocks_per_arena d → live !! blk a (block_size d) k = None) →
  ∃ h', drop_arena i a (blocks_per_arena d) h = Ret ((), h') ∧ inv h' (delete a ars) live ∧ kept live h h' ∧
    user_pool (mach h') = user_pool (mach h) ∧
    pages_returned (kernel_pool (mach h)) (kernel_pool (mach h')) a 1.
Proof.
  intros Hinv Ha Hd Hall. destruct (iv_arena _ _ _ Hinv _ _ Ha) as (d' & Hd' & Hh). simplify_eq.
  destruct (arena_addr Hinv _ _ Ha) as (Ha0 & _ & Ha2). simpl in Ha2.
  destruct (iv_free _ _ _ Hinv _ _ Hd) as [Hnd Hin].
  destruct (wp_unit _ _ _ (remove_all_spec h a i d _ Ha0 ltac:(lia) Hd (iv_desc _ _ _ Hinv _ _ Hd) Hh Hnd
    ltac:(intros k Hk; apply Hin; exists a, k; auto)))
    as (h1 & Hloop & l & -> & Hl & Hlin).
  unfold drop_arena. rewrite (bind_run _ _ _ _ _ Hloop).
  apply (release_spec Hinv _ live a (Small i) Ha); try done.
  - apply same_shape_alter.
  - intros b n Hb Hin'. simpl in Hin'. destruct (iv_live _ _ _ Hinv _ _ Hb) as [a' i' d' k Ha' Hd' Hk|a' c Ha'].
    + pose proof (small_range Hinv a' _ _ _ Hd' Hk).
      assert (a' = a) as -> by (eapply (same_arena Hinv); [done..| |exact Hin']; simpl; lia).
      simplify_eq. rewrite Hall in Hb by done. done.
    + pose proof (pages_pos Hinv _ _ Ha'). simpl in *.
      assert (a' = a) as ->; [|congruence]. 
      eapply (same_arena Hinv); [done..| |exact Hin']; unfold ARENA_SIZE; simpl; lia.
  - intros i' d' (d0 & Hd0 & Hs & Hp & Hfl)%with_free_desc. unfold free_ok. rewrite Hfl, Hs, Hp.
    case_decide as E.
    + subst i'. rewrite Hd in Hd0. injection Hd0 as <-. split; [done|]. intros b. rewrite Hlin, Hin. split.
      * intros [(a' & k & Ha' & Hk & -> & Hb) Hne]. exists a', k. split; [|done].
        apply lookup_delete_Some. split; [|done]. intros <-. by apply (Hne k).
      * intros (a' & k & [Hne Ha']%lookup_delete_Some & Hk & -> & Hb). split; [by exists a', k|].
        intros k' Hk' Heq. pose proof (small_range Hinv a' _ _ _ Hd Hk). pose proof (small_range Hinv a _ _ _ Hd Hk').
        apply Hne. symmetry. eapply (same_arena Hinv _ _ _ _ (blk a' (block_size d) k)); [done..| |]; simpl; lia.
    + eapply free_ok_ext; [by apply (iv_free _ _ _ Hinv)| |done].
      intros a'. rewrite lookup_delete_Some. split; [naive_solver|]. intros Ha'. split; [|done].
      intros <-. congruence.
Qed.

(** The block back in its free list and its arena's count incremented. *)
Lemma give_spec h ars live a i d k r : inv h ars live → ars !! a = Some (Small i) → descs h !! i = Some d →
  0 ≤ k < blocks_per_arena d → live !! blk a (block_size d) k = Some (block_size d) →
  (∀ x, ¬ blk a (block_size d) k ≤ x < blk a (block_size d) k + block_size d → r !! x = ram (mach h) !! x) →
  let b := blk a (block_size d) k in
  let n := Z.of_nat (length (free_blocks (delete b live) a (block_size d) (blocks_per_arena d))) in
  let h1 := set_mach (set_ram (λ _, r) (mach h)) h in
  let h2 := with_free i (b :: free_list d) (<[a + 8 := n]> r) h in
  (free_push_front i b;; n ← ld_free_cnt a; st_free_cnt a (n + 1)) h1 = Ret ((), h2) ∧
  inv h2 ars (delete b live) ∧ kept (delete b live) h h2.
Proof.
  intros Hinv Ha Hd Hk Hlive Hr b n h1 h2.
  pose proof (small_range Hinv a _ _ _ Hd Hk) as (Hs & Hb1 & Hb2). fold b in Hb1, Hb2.
  pose proof (iv_desc _ _ _ Hinv _ _ Hd) as Hdok. pose proof (desc_bound _ Hdok) as Hbd.
  destruct (iv_arena _ _ _ Hinv _ _ Ha) as (d' & Hd' & Hmg & Hdp & Hn). simplify_eq.
  destruct (iv_free _ _ _ Hinv _ _ Hd) as [Hnd Hin].
  assert (b ∉ free_list d) as Hnb. { intros (? & ? & ? & ? & ? & ?)%Hin. fold b in Hlive. congruence. }
  assert (∀ a' k' o, ars !! a' = Some k' → 0 ≤ o < 12 → r !! (a' + o) = ram (mach h) !! (a' + o)) as Hrh.
  { intros a' k' o Ha' Ho. apply Hr. fold b. intros Hx. pose proof (pages_pos Hinv _ _ Ha').
    assert (a' = a) as -> by (eapply (same_arena Hinv _ _ _ _ (a' + o)); [done..| |]; simpl; lia). lia. }
  split; [|split].
  - unfold free_push_front. erewrite bind_run.
    2: { erewrite bind_run; [|by apply ld_free_list_run]. rewrite bool_decide_false by done.
         by apply upd_free_list_run. }
    cbv beta. run_by ltac:(apply ldw_run). rewrite st_free_cnt_run.
    unfold h2, h1, with_free, set_mach, set_ram. cbn [mach descs descs_at ram kernel_pool user_pool init_ram_pages init_page_dir cr3].
    rewrite (word_same (ram (mach h))) by (by eapply Hrh). rewrite Hn.
    pose proof (free_blocks_delete live a (block_size d) (blocks_per_arena d) k _ ltac:(lia) Hk Hlive) as Hc.
    fold b in Hc. pose proof (free_blocks_bound (delete b live) a (block_size d) (blocks_per_arena d) ltac:(lia)).
    rewrite wrap_small by (unfold fits; lia). unfold n. rewrite Hc. do 5 f_equal. f_equal. lia.
  - eapply (inv_toggle h ars live _ a i d k); try done.
    + intros x Hx. by apply lookup_delete_ne.
    + left. apply lookup_delete_eq.
    + by apply NoDup_cons.
    + intros x. fold b. rewrite elem_of_cons. split.
      * intros [->|Hx]; [left; split; [done|apply lookup_delete_eq]|right]. split; [by intros ->|done].
      * intros [[-> _]|[_ Hx]]; auto.
    + intros a' k' o Ha' Ho Hne. rewrite (headers_but_insert _ _ r n _ _ _ Hinv Ha _ _ _ Ha' Ho Hne).
      apply word_same. by eapply Hrh.
    + unfold word. by rewrite lookup_insert_eq.
  - intros b' n' x [Hne Hb']%lookup_delete_Some Hx. simpl.
    pose proof (live_disjoint Hinv _ _ _ _ Hlive Hb' ltac:(done)) as Hdis. fold b in Hdis.
    destruct (live_in_arena Hinv _ _ Hb') as (a' & k' & Ha' & ? & ?).
    rewrite lookup_insert_ne.
    + apply Hr. fold b. lia.
    + intros <-. assert (a' = a) as -> by (eapply (same_arena Hinv _ _ _ _ (a + 8)); [done..| |]; simpl; lia). lia.
Qed.

Lemma give_cont {A} i b a (m : H A) h :
  (free_push_front i b;; n ← ld_free_cnt a; st_free_cnt a (n + 1);; m) h =
  ((free_push_front i b;; n ← ld_free_cnt a; st_free_cnt a (n + 1));; m) h.
Proof.
  unfold mbind, ST_bind. destruct (free_push_front i b h) as [[[] h1]| | |]; done.
Qed.

(** Another block in use lies in the page where [p] starts. *)
Definition shares_page (live : gmap Z Z) (p : Z) : Prop :=
  ∃ b n, live !! b = Some n ∧ b ≠ p ∧ b / PGSIZE = p / PGSIZE.

(** What freeing the block [p] of [n] bytes does to the pages: those of its arena go back to the
    kernel's pool exactly when no other block shares its page. *)
Definition pages_after_free (live : gmap Z Z) (p n : Z) (m m' : machine) : Prop :=
  user_pool m' = user_pool m ∧
  (shares_page live p → kernel_pool m' = kernel_pool m) ∧
  (¬ shares_page live p →
     pages_returned (kernel_pool m) (kernel_pool m') (p - p mod PGSIZE) ((n + ARENA_SIZE + PGSIZE - 1) / PGSIZE)).

Lemma block_page h ars live a k b : inv h ars live → ars !! a = Some k → a ≤ b < a + 4096 →
  b - b mod PGSIZE = a ∧ b / PGSIZE = a / PGSIZE.
Proof.
  intros Hinv Ha Hb. destruct (arena_addr Hinv _ _ Ha) as (_ & Hm & _). change PGSIZE with 4096.
  pose proof (Z.div_mod a 4096 ltac:(lia)).
  rewrite (Z.mod_eq b) by lia. rewrite <-(Z.div_unique b 4096 (a / 4096) (b - a)) by lia. lia.
Qed.

(** The blocks that share a page with a block of a small arena are blocks of that arena. *)
Lemma shares_small h ars live a i d k : inv h ars live → ars !! a = Some (Small i) → descs h !! i = Some d →
  0 ≤ k < blocks_per_arena d → let p := blk a (block_size d) k in
  shares_page live p ↔ ∃ k', 0 ≤ k' < blocks_per_arena d ∧ delete p live !! blk a (block_size d) k' ≠ None.
Proof.
  intros Hinv Ha Hd Hk p. pose proof (small_range Hinv a _ _ _ Hd Hk) as (Hs & Hp1 & Hp2). fold p in Hp1, Hp2.
  destruct (block_page _ _ _ _ _ p Hinv Ha) as [_ Hpp]; [lia|]. split.
  - intros (b & n & Hb & Hne & Hpg). rewrite Hpp in Hpg.
    assert (a ≤ b < a + 4096) as Hin.
    { destruct (arena_addr Hinv _ _ Ha) as (_ & Hm & _). change PGSIZE with 4096 in Hpg.
      pose proof (Z.div_mod a 4096 ltac:(lia)). pose proof (Z.div_mod b 4096 ltac:(lia)).
      pose proof (Z.mod_pos_bound b 4096 ltac:(lia)). lia. }
    destruct (iv_live _ _ _ Hinv _ _ Hb) as [a' i' d' k' Ha' Hd' Hk'|a' c Ha'].
    + pose proof (small_range Hinv a' _ _ _ Hd' Hk').
      assert (a' = a) as -> by (eapply (same_arena Hinv _ _ _ _ (blk a' (block_size d') k')); [done..| |]; simpl; lia).
      simplify_eq. exists k'. split; [done|]. rewrite lookup_delete_ne by done. by rewrite Hb.
    + pose proof (pages_pos Hinv _ _ Ha'). change ARENA_SIZE with 12 in *.
      assert (a' = a) as -> by (eapply (same_arena Hinv _ _ _ _ (a' + 12)); [done..| |]; simpl in *; lia). congruence.
  - intros (k' & Hk' & Hl). destruct (delete p live !! _) as [n|] eqn:E; [|done].
    apply lookup_delete_Some in E as [Hne Hl']. exists (blk a (block_size d) k'), n. split_and!; [done|done|].
    pose proof (small_range Hinv a _ _ _ Hd Hk'). rewrite Hpp. eapply (block_page _ _ _ _ _ _ Hinv Ha). lia.
Qed.

Lemma shares_big h ars live a c : inv h ars live → ars !! a = Some (Big c) → ¬ shares_page live (a + ARENA_SIZE).
Proof.
  intros Hinv Ha (b & n & Hb & Hne & Hpg). pose proof (pages_pos Hinv _ _ Ha) as Hc.
  change ARENA_SIZE with 12 in *.
  destruct (block_page _ _ _ _ _ (a + 12) Hinv Ha) as [_ Hpp]; [lia|]. rewrite Hpp in Hpg.
  assert (a ≤ b < a + 4096) as Hin.
  { destruct (arena_addr Hinv _ _ Ha) as (_ & Hm & _). change PGSIZE with 4096 in Hpg.
    pose proof (Z.div_mod a 4096 ltac:(lia)). pose proof (Z.div_mod b 4096 ltac:(lia)).
    pose proof (Z.mod_pos_bound b 4096 ltac:(lia)). lia. }
  simpl in Hc. destruct (iv_live _ _ _ Hinv _ _ Hb) as [a' i' d' k' Ha' Hd' Hk'|a' c' Ha'].
  - pose proof (small_range Hinv a' _ _ _ Hd' Hk').
    assert (a' = a) as -> by (eapply (same_arena Hinv _ _ _ _ (blk a' (block_size d') k')); [done..| |]; simpl; lia).
    congruence.
  - pose proof (pages_pos Hinv _ _ Ha'). change ARENA_SIZE with 12 in *.
    assert (a' = a) as -> by (eapply (same_arena Hinv _ _ _ _ (a' + 12)); [done..| |]; simpl in *; lia). done.
Qed.

Lemma free_spec h ars live p n : inv h ars live → live !! p = Some n →
  ∃ h' ars', free p h = Ret ((), h') ∧ inv h' ars' (delete p live) ∧ kept (delete p live) h h' ∧
    pages_after_free live p n (mach h) (mach h').
Proof.
  intros Hinv Hp. unfold free. destruct (live_in_arena Hinv _ _ Hp) as (a0 & k0 & Ha0 & Hp0 & _).
  destruct (arena_addr Hinv _ _ Ha0) as (Hpos & _).
  rewrite nonnull_true by (unfold NULL; lia). cbn [negb]. clear a0 k0 Ha0 Hp0 Hpos.
  destruct (iv_live _ _ _ Hinv _ _ Hp) as [a i d k Ha Hd Hk|a c Ha];
    destruct (arena_addr Hinv _ _ Ha) as (Ha0 & Ham & Ha2);
    pose proof (iv_arena _ _ _ Hinv _ _ Ha) as Har; simpl in Ha2, Har.
  - destruct Har as (d' & Hd' & Hh). simplify_eq. pose proof (iv_desc _ _ _ Hinv _ _ Hd) as Hdok.
    run_by ltac:(eapply block_to_arena_small; (done || lia || by eapply (desc_ptr_nonnull Hinv))).
    run_by ltac:(apply ldw_run). destruct Hh as (_ & Hdp & _). rewrite Hdp.
    rewrite (desc_ptr_nonnull Hinv _ _ Hd). run_by ltac:(by apply ld_desc_run). cbn [fst snd].
    run_by ltac:(done).
    destruct (small_range Hinv a _ _ _ Hd Hk) as (Hbs & Hb1 & Hb2).
    pose proof (shares_small h ars live a i d k Hinv Ha Hd Hk) as Hshare. simpl in Hshare.
    destruct (block_page h ars live a _ (blk a (block_size d) k) Hinv Ha ltac:(lia)) as [Hpage _].
    set (b := blk a (block_size d) k) in *. set (r := fill b (Z.to_nat (block_size d / 4)) 0xcccccccc (ram (mach h))).
    destruct (give_spec h ars live a i d k r Hinv Ha Hd Hk Hp) as (Hgive & Hinv2 & Hk2).
    { intros x Hx. apply fill_out. fold b in Hx. destruct Hdok as (? & ? & _).
      pose proof (Z.div_mod (block_size d) 4). lia. }
    fold b in Hgive, Hinv2, Hk2. set (h2 := with_free _ _ _ _) in *.
    set (n := Z.of_nat (length (free_blocks (delete b live) a (block_size d) (blocks_per_arena d)))) in *.
    rewrite give_cont, (bind_run _ _ _ _ _ Hgive). run_by ltac:(apply ldw_run).
    assert (word (ram (mach h2)) (a + 8) = n) as -> by (unfold word; simpl; by rewrite lookup_insert_eq).
    pose proof (desc_bound _ Hdok). pose proof (free_blocks_bound (delete b live) a (block_size d) (blocks_per_arena d) ltac:(lia)).
    rewrite Z.geb_leb. destruct (Z.leb_spec (blocks_per_arena d) n).
    + run_by ltac:(apply assert_run, Z.eqb_eq; lia). fold (drop_arena i a (blocks_per_arena d)).
      destruct (drop_arena_spec h2 ars (delete b live) a i (set_free_list (b :: free_list d) d) Hinv2 Ha) as (h' & Hrun & Hinv' & Hk' & Hu & Hret).
      * by apply with_free_self.
      * intros k' Hk'. by eapply free_blocks_all.
      * exists h', (delete a ars). split_and!; [exact Hrun|done|by eapply kept_trans|]. split_and!; [done| |].
        -- intros (k' & Hk1 & Hl)%Hshare. destruct Hl. by eapply free_blocks_all.
        -- intros _. rewrite Hpage. replace ((block_size d + ARENA_SIZE + PGSIZE - 1) / PGSIZE) with 1; [exact Hret|].
           change ARENA_SIZE with 12. change PGSIZE with 4096.
           apply (Z.div_unique _ _ _ (block_size d + 11)); lia.
    + exists h2, ars. split_and!; [done..|]. split_and!; [done..|]. intros Hns. exfalso.
      enough (n = blocks_per_arena d) by lia. apply free_blocks_full; [lia|]. intros k' Hk'.
      apply dec_stable. intros Hl. apply Hns, Hshare. by exists k'.
  - destruct Har as (Hc & Hh & _).
    run_by ltac:(eapply block_to_arena_big; (done || lia)). run_by ltac:(apply ldw_run).
    destruct Hh as (_ & -> & Hn). change (nonnull NULL) with false. cbv iota. run_by ltac:(apply ldw_run). rewrite Hn.
    destruct (free_big_spec h ars live a c Hinv Ha) as (h' & Hrun & Hinv' & Hk' & Hu & Hret).
    exists h', (delete a ars). split_and!; [done..|]. split_and!; [done| |].
    + intros Hsh. by destruct (shares_big _ _ _ _ _ Hinv Ha Hsh).
    + intros _. destruct (block_page h ars live a _ (a + ARENA_SIZE) Hinv Ha) as [-> _]; [unfold ARENA_SIZE; lia|].
      replace ((PGSIZE * c - ARENA_SIZE + ARENA_SIZE + PGSIZE - 1) / PGSIZE) with c; [exact Hret|].
      change ARENA_SIZE with 12. change PGSIZE with 4096. apply (Z.div_unique _ _ _ 4095); lia.
Qed.

(** ** Bytes *)

Lemma get_set_byte a v r x : 0 ≤ v < 256 →
  get_byte (set_byte a v r) x = if decide (x = a) then v else get_byte r x.
Proof.
  intros Hv. unfold get_byte, set_byte, word. rewrite lookup_insert.
  pose proof (Z.mod_pos_bound a 4 ltac:(lia)). pose proof (Z.mod_pos_bound x 4 ltac:(lia)).
  assert (∀ i, 8 ≤ i → Z.testbit v i = false) as Hvb.
  { intros i Hi. apply (proj1 (fits_bits 8 v ltac:(lia))); [unfold fits; lia|done]. }
  change 255 with (Z.ones 8). case_decide as E.
  - simpl. apply Z.bits_inj'. intros i Hi. rewrite Z.land_spec, Z.testbit_ones_nonneg by lia.
    destruct (Z.ltb_spec i 8).
    + rewrite andb_true_r, Z.shiftr_spec, Z.lor_spec, Z.ldiff_spec, !Z.shiftl_spec by lia.
      destruct (decide (x = a)) as [->|Hne].
      * replace (i + 8 * (a mod 4) - 8 * (a mod 4)) with i by lia.
        rewrite Z.testbit_ones_nonneg, (proj2 (Z.ltb_lt i 8)) by lia. by rewrite andb_false_r.
      * assert (x mod 4 ≠ a mod 4) by lia.
        assert (Z.testbit v (i + 8 * (x mod 4) - 8 * (a mod 4)) = false) as ->.
        { destruct (decide (x mod 4 < a mod 4)); [apply Z.testbit_neg_r|apply Hvb]; lia. }
        assert (Z.testbit (Z.ones 8) (i + 8 * (x mod 4) - 8 * (a mod 4)) = false) as ->.
        { destruct (decide (x mod 4 < a mod 4)); [apply Z.testbit_neg_r; lia|].
          rewrite Z.testbit_ones_nonneg by lia. apply Z.ltb_ge. lia. }
        rewrite andb_true_r, orb_false_r, Z.land_spec, Z.shiftr_spec by lia.
        rewrite Z.testbit_ones_nonneg, (proj2 (Z.ltb_lt i 8)), andb_true_r by lia. by rewrite E.
    + rewrite andb_false_r. symmetry. destruct (decide (x = a)); [by apply Hvb|].
      rewrite Z.land_spec, Z.testbit_ones_nonneg by lia. rewrite (proj2 (Z.ltb_ge i 8)) by lia. apply andb_false_r.
  - rewrite decide_False; [done|]. intros ->. done.
Qed.

Lemma set_byte_out a v r x : x ≠ a - a mod 4 → set_byte a v r !! x = r !! x.
Proof. intros Hx. unfold set_byte. by rewrite lookup_insert_ne. Qed.

Lemma get_byte_range r x : 0 ≤ get_byte r x < 256.
Proof.
  unfold get_byte. change 255 with (Z.ones 8). rewrite Z.land_ones by lia. apply Z.mod_pos_bound. lia.
Qed.

Lemma get_byte_same r r' x : r' !! (x - x mod 4) = r !! (x - x mod 4) → get_byte r' x = get_byte r x.
Proof. unfold get_byte, word. by intros ->. Qed.

(** Writing the bytes [f 0], [f 1], ... at [p]. *)
Section copy.
Context (h : alloc) (p n : Z) (f : Z → Z) (body : Z → H ()).
Context (Hf : ∀ i, 0 ≤ i < n → 0 ≤ f i < 256).
Definition written (i : Z) (h' : alloc) : Prop :=
  ∃ r, h' = set_mach (set_ram (λ _, r) (mach h)) h ∧
    (∀ x, get_byte r x = if decide (p ≤ x < p + i) then f (x - p) else get_byte (ram (mach h)) x) ∧
    (∀ x, (∀ y, p ≤ y < p + i → x ≠ y - y mod 4) → r !! x = ram (mach h) !! x).
Context (Hbody : ∀ i h', 0 ≤ i < n → written i h' →
  body i h' = on_mach (modify (set_ram (set_byte (p + i) (f i)))) h').

Lemma copy_spec : 0 ≤ n → wp (for_each (Z.to_nat n) 0 body) h (λ _ h', written n h').
Proof.
  intros Hn. apply (wp_for_each written).
  - intros i h' Hi Hw. eapply wp_run; [by rewrite Hbody by (done || lia)|].
    destruct Hw as (r & -> & Hr & Ho). exists (set_byte (p + i) (f i) r). split; [done|]. split.
    + intros x. rewrite get_set_byte, Hr by (apply Hf; lia). destruct (decide (x = p + i)) as [->|Hne].
      * rewrite decide_True by lia. f_equal. lia.
      * repeat case_decide; (done || lia).
    + intros x Hx. rewrite set_byte_out by (apply Hx; lia). apply Ho. intros y Hy. apply Hx. lia.
  - intros h' Hw. rewrite Z.add_0_l, Z2Nat.id in Hw by lia. done.
  - exists (ram (mach h)). split; [by destruct h as [[] ? ?]|]. split; [|done].
    intros x. by rewrite decide_False by lia.
Qed.
End copy.

(** Writing inside a block in use keeps the invariant and the other blocks. *)
Lemma aligned_block h ars live p n : inv h ars live → live !! p = Some n → p mod 4 = 0 ∧ n mod 4 = 0 ∧ 0 < n.
Proof.
  intros Hinv Hp. destruct (iv_live _ _ _ Hinv _ _ Hp) as [a i d k Ha Hd Hk|a c Ha];
    destruct (arena_addr Hinv _ _ Ha) as (_ & Hm & _); pose proof (Z.div_mod a 4096).
  - destruct (iv_desc _ _ _ Hinv _ _ Hd) as (? & Hs & _). pose proof (Z.div_mod (block_size d) 4).
    split_and!; [|done|lia]. unfold blk, ARENA_SIZE.
    replace (a + 12 + k * block_size d) with ((a / 4096 * 1024 + 3 + k * (block_size d / 4)) * 4) by nia.
    by apply Z.mod_mul.
  - pose proof (pages_pos Hinv _ _ Ha) as Hc. simpl in Hc. change PGSIZE with 4096. change ARENA_SIZE with 12.
    split_and!; [| |lia].
    + replace (a + 12) with ((a / 4096 * 1024 + 3) * 4) by lia. by apply Z.mod_mul.
    + replace (4096 * c - 12) with ((1024 * c - 3) * 4) by lia. by apply Z.mod_mul.
Qed.

Lemma word_of_block p n y : p mod 4 = 0 → n mod 4 = 0 → p ≤ y < p + n → p ≤ y - y mod 4 < p + n.
Proof.
  intros. pose proof (Z.div_mod p 4). pose proof (Z.div_mod n 4). pose proof (Z.div_mod y 4).
  pose proof (Z.mod_pos_bound y 4). lia.
Qed.

Lemma inv_ram h ars live r : inv h ars live →
  (∀ a k o, ars !! a = Some k → 0 ≤ o < 12 → r !! (a + o) = ram (mach h) !! (a + o)) →
  inv (set_mach (set_ram (λ _, r) (mach h)) h) ars live.
Proof.
  intros Hinv Hr. destruct Hinv as [? ? ? ? ? ? Har ? ?]. split; try done; [by apply palloc_ok_ram|].
  intros a k Ha. pose proof (Har a k Ha) as Hok.
  assert (∀ d n, header (ram (mach h)) a d n → header r a d n) as Hh.
  { intros d n (H1 & H2 & H3). unfold header. rewrite <-(Z.add_0_r a) at 1.
    rewrite !(word_same (ram (mach h)) r) by (eapply Hr; (done || lia)). by rewrite Z.add_0_r. }
  destruct k as [i|c]; [destruct Hok as (d & Hd & Hhd)|destruct Hok as (Hc & Hhd & Hl)].
  - exists d. split; [done|]. by apply Hh.
  - split_and!; [done|by apply Hh|done].
Qed.

(** A write of [m] bytes to a block. *)
Lemma write_block h ars live p n m f h' : inv h ars live → live !! p = Some n → 0 ≤ m ≤ n →
  written h p f m h' → inv h' ars live ∧ kept (delete p live) h h' ∧
  ∀ i, 0 ≤ i < m → get_byte (ram (mach h')) (p + i) = f i.
Proof.
  intros Hinv Hp Hm (r & -> & Hb & Ho). destruct (aligned_block _ _ _ _ _ Hinv Hp) as (Hp4 & Hn4 & Hn).
  assert (∀ x, ¬ p ≤ x < p + n → r !! x = ram (mach h) !! x) as Hout.
  { intros x Hx. apply Ho. intros y Hy ->. pose proof (word_of_block p n y Hp4 Hn4). lia. }
  split_and!.
  - apply inv_ram; [done|]. intros a k o Ha Hol. apply Hout. intros Hx.
    destruct (live_in_arena Hinv _ _ Hp) as (a' & k' & Ha' & ? & ?). pose proof (pages_pos Hinv _ _ Ha).
    assert (a' = a) as -> by (eapply (same_arena Hinv _ _ _ _ (a + o)); [done..| |]; lia). lia.
  - intros b n' x [Hne Hb']%lookup_delete_Some Hx. apply Hout.
    pose proof (live_disjoint Hinv _ _ _ _ Hp Hb' Hne). lia.
  - intros i Hi. simpl. rewrite Hb, decide_True by lia. f_equal. lia.
Qed.
