(* ===== verification/MallocSpec.v ===== *)
(** * The block allocator: what its clients rely on

    [heap_ok h live]: the state [h] of the allocator is consistent, and [live] maps the address
    of each block in use to its size. *)
From S2P Require Import Prelude KList Bitmap Palloc Malloc MallocProofs.

Definition heap_ok (h : alloc) (live : gmap Z Z) : Prop := ∃ ars, inv h ars live.

(** ** [block_size], [calloc] and [realloc] *)

Lemma size_of_block_spec h ars live p n : inv h ars live → live !! p = Some n →
  size_of_block p h = Ret (n, h).
Proof.
  intros Hinv Hp. unfold size_of_block. 
  destruct (iv_live _ _ _ Hinv _ _ Hp) as [a i d k Ha Hd Hk|a c Ha];
    destruct (arena_addr Hinv _ _ Ha) as (Ha0 & Ham & Ha2);
    pose proof (iv_arena _ _ _ Hinv _ _ Ha) as Har; simpl in Ha2, Har.
  - destruct Har as (d' & Hd' & Hh). simplify_eq. pose proof (iv_desc _ _ _ Hinv _ _ Hd) as Hdok.
    run_by ltac:(eapply block_to_arena_small; (done || lia || by eapply (desc_ptr_nonnull Hinv))).
    run_by ltac:(apply ldw_run). destruct Hh as (_ & Hdp & _). rewrite Hdp.
    rewrite (desc_ptr_nonnull Hinv _ _ Hd). by run_by ltac:(by apply ld_desc_run).
  - destruct Har as (Hc & Hh & _).
    run_by ltac:(eapply block_to_arena_big; (done || lia)). run_by ltac:(apply ldw_run).
    destruct Hh as (_ & -> & Hn). change (nonnull NULL) with false. cbv iota. run_by ltac:(apply ldw_run). rewrite Hn.
    destruct (page_offset a ARENA_SIZE) as [_ ->]; [lia|done|done|unfold ARENA_SIZE; lia|].
    unfold mret, ST_ret. do 2 f_equal. change PGSIZE with 4096. change ARENA_SIZE with 12.
    apply wrap_small. unfold fits. lia.
Qed.

Lemma kept_delete_insert live p n h h' : live !! p = None → kept (delete p (<[p := n]> live)) h h' → kept live h h'.
Proof. intros Hp. by rewrite delete_insert_id. Qed.

(** Filling a block with a byte. *)
Lemma memset_spec h ars live p n v m : inv h ars live → live !! p = Some n → 0 ≤ m ≤ n → 0 ≤ v < 256 →
  ∃ h', memset_bytes p v m h = Ret ((), h') ∧ inv h' ars live ∧ kept (delete p live) h h' ∧
    ∀ i, 0 ≤ i < m → get_byte (ram (mach h')) (p + i) = v.
Proof.
  intros Hinv Hp Hm Hv.
  destruct (wp_unit _ _ _ (copy_spec h p m (λ _, v)
    (λ i, on_mach (modify (set_ram (set_byte (p + i) v)))) ltac:(done) ltac:(done) ltac:(lia))) as (h' & Hrun & Hw).
  exists h'. split; [exact Hrun|]. by eapply write_block.
Qed.

(** Copying from one block to another. *)
Lemma memcpy_spec h ars live q n' p n m : inv h ars live → live !! q = Some n' → live !! p = Some n → p ≠ q →
  0 ≤ m ≤ n → m ≤ n' →
  ∃ h', memcpy_bytes q p m h = Ret ((), h') ∧ inv h' ars live ∧ kept (delete q live) h h' ∧
    ∀ i, 0 ≤ i < m → get_byte (ram (mach h')) (q + i) = get_byte (ram (mach h)) (p + i).
Proof.
  intros Hinv Hq Hp Hne Hm Hm'.
  destruct (wp_unit _ _ _ (copy_spec h q m (λ i, get_byte (ram (mach h)) (p + i))
    (λ i, v ← on_mach (gets (λ m, get_byte (ram m) (p + i)));
          on_mach (modify (set_ram (set_byte (q + i) v)))) ltac:(intros; apply get_byte_range)
    ltac:(intros i h1 Hi (r & -> & Hb & _); erewrite bind_run; [|apply on_mach_run; done]; simpl;
          rewrite Hb, decide_False; [done|pose proof (live_disjoint Hinv _ _ _ _ Hp Hq Hne); lia])
    ltac:(lia))) as (h' & Hrun & Hw).
  exists h'. split; [exact Hrun|]. eapply write_block; [done..| |exact Hw]. lia.
Qed.

Lemma kept_mono live live' h h' : live' ⊆ live → kept live h h' → kept live' h h'.
Proof. intros Hs Hk b n x Hb. apply (Hk b n). by eapply lookup_weaken. Qed.

(** The bytes of a kept block. *)
Lemma kept_bytes h0 h ars live h' p n i : inv h0 ars live → kept live h h' → live !! p = Some n → 0 ≤ i < n →
  get_byte (ram (mach h')) (p + i) = get_byte (ram (mach h)) (p + i).
Proof.
  intros Hinv Hk Hp Hi. destruct (aligned_block _ _ _ _ _ Hinv Hp) as (Hp4 & Hn4 & Hn).
  apply get_byte_same. apply (Hk p n); [done|]. apply word_of_block; [done..|lia].
Qed.

(** ** Start-up *)

Definition desc_table : list desc :=
  (λ s, Desc s ((PGSIZE - ARENA_SIZE) / s) []) <$> [16; 32; 64; 128; 256; 512; 1024].

Lemma malloc_init_run m at_ : malloc_init (Alloc m [] at_) = Ret ((), Alloc m desc_table at_).
Proof. vm_compute. reflexivity. Qed.

Lemma init_inv m at_ : palloc_ok m → 0 < at_ → at_ + DESC_SIZE * DESC_MAX ≤ 2 ^ 32 →
  inv (Alloc m desc_table at_) ∅ ∅.
Proof.
  intros Hm H1 H2.
  assert (∀ i d, desc_table !! i = Some d → desc_ok d ∧ free_list d = []) as Hd.
  { intros i d. apply (Forall_lookup_1 (λ d, desc_ok d ∧ free_list d = [])).
    repeat constructor; vm_compute; (done || congruence). }
  split; try done.
  - intros i d Hi. by apply (Hd i).
  - simpl. lia.
  - intros i d Hi. destruct (Hd i d Hi) as [_ Hn]. split; rewrite Hn; [constructor|].
    intros b. rewrite elem_of_nil. split; [done|]. intros (a & k & Ha & _). by rewrite lookup_empty in Ha.
Qed.

(** ** Claims *)

(** C4: [malloc] is correct.  From a consistent heap, a request that is not close to the size
    of the address space returns.  It answers a new block of at least [size] bytes that is
    aligned and overlaps no block in use; the heap stays consistent with that block added, and
    no block in use changes its contents.  It answers the null pointer, changing nothing, only
    when the kernel's pool has no room for the pages the request needs. *)
Theorem malloc_correct h live size :
  heap_ok h live → 0 < size ≤ 2 ^ 32 - 4108 →
  ∃ p h', malloc size h = Ret (p, h') ∧
    ((p = NULL ∧ h' = h ∧ ∃ cnt, 1 ≤ cnt ∧ 4096 * (cnt - 1) < size + 12 ∧ no_pages h cnt) ∨
     (∃ n, p ≠ NULL ∧ p mod 4 = 0 ∧ size ≤ n ∧ heap_ok h' (<[p := n]> live) ∧ kept live h h' ∧
       ∀ b m, live !! b = Some m → b + m ≤ p ∨ p + n ≤ b)).
Proof.
  intros [ars Hinv] Hs. destruct (malloc_spec h ars live size Hinv Hs) as (p & h' & Hrun & Hres).
  exists p, h'. split; [done|]. destruct Hres as [?|(ars' & n & Hp & Hsz & Hnone & Hal & Hinv' & Hk)]; [by left|].
  right. exists n. split_and!; [done..|by exists ars'|done|]. intros b m Hb.
  assert (b ≠ p) by congruence.
  eapply (live_disjoint Hinv'); [by rewrite lookup_insert_ne|by rewrite lookup_insert_eq|done].
Qed.

Definition small_heap : alloc := Alloc small_machine desc_table 0xc0010000.
Lemma small_heap_ok : heap_ok small_heap ∅.
Proof. exists ∅. apply init_inv; [apply small_machine_ok|done|done]. Qed.

Lemma malloc_correct_witness : ∃ p h', malloc 100 small_heap = Ret (p, h').
Proof. destruct (malloc_correct small_heap ∅ 100 small_heap_ok ltac:(lia)) as (p & h' & H & _). eauto. Defined.

(** C28: [free] is correct.  A block in use can be freed: the call returns, the heap is
    consistent without that block, and the other blocks keep their contents.  When another
    block in use lies in the page where the block starts, no page changes hands; otherwise
    exactly the pages of its arena (one page, or all the pages of a big block), which were in
    use, become free in the map of the kernel's pool, and no other bit of the map changes.  The
    user pool is never touched. *)
Theorem free_correct h live p n :
  heap_ok h live → live !! p = Some n →
  ∃ h', free p h = Ret ((), h') ∧ heap_ok h' (delete p live) ∧ kept (delete p live) h h' ∧
    user_pool (mach h') = user_pool (mach h) ∧
    (shares_page live p → kernel_pool (mach h') = kernel_pool (mach h)) ∧
    (¬ shares_page live p → pages_returned (kernel_pool (mach h)) (kernel_pool (mach h'))
       (p - p mod PGSIZE) ((n + ARENA_SIZE + PGSIZE - 1) / PGSIZE)).
Proof.
  intros [ars Hinv] Hp. destruct (free_spec h ars live p n Hinv Hp) as (h' & ars' & ? & ? & ? & ? & ? & ?).
  exists h'. split_and!; [done|by exists ars'|done..].
Qed.

Lemma alone_in_page p n : ¬ shares_page (<[p := n]> ∅) p.
Proof.
  intros (b & m & Hb & Hne & _). rewrite lookup_insert_ne, lookup_empty in Hb by done. done.
Qed.

Lemma free_correct_witness : ∃ p n h1 h2, malloc 100 small_heap = Ret (p, h1) ∧
  heap_ok h1 {[ p := n ]} ∧ free p h1 = Ret ((), h2) ∧ heap_ok h2 ∅ ∧
  pages_returned (kernel_pool (mach h1)) (kernel_pool (mach h2)) (p - p mod PGSIZE)
    ((n + ARENA_SIZE + PGSIZE - 1) / PGSIZE).
Proof.
  destruct (malloc_spec small_heap ∅ ∅ 100) as (p & h1 & Hrun & Hres);
    [apply init_inv; [apply small_machine_ok|done|done]|lia|].
  destruct Hres as [(-> & _ & _)|(ars & n & _ & _ & _ & _ & Hinv & _)].
  { exfalso. revert Hrun. vm_compute. discriminate. }
  destruct (free_correct h1 (<[p := n]> ∅) p n (ex_intro _ ars Hinv) (lookup_insert_eq _ _ _))
    as (h2 & Hf & Hok & _ & _ & _ & Hret).
  rewrite delete_insert_id in Hok by done. exists p, n, h1, h2.
  split; [exact Hrun|]. split; [exists ars; exact Hinv|]. split; [exact Hf|]. split; [exact Hok|].
  exact (Hret (alone_in_page p n)).
Defined.

(** [calloc] answers the null pointer or a new block, at least the product of its
    arguments modulo 2^32 long, whose bytes up to that product are zero; and the null pointer if
    that product is less than an argument. *)
Theorem calloc_correct h live a b :
  heap_ok h live → fits 32 a → fits 32 b → 0 < u32 (a * b) ≤ 2 ^ 32 - 4108 →
  ∃ p h', calloc a b h = Ret (p, h') ∧
    (u32 (a * b) < a ∨ u32 (a * b) < b → p = NULL) ∧
    ((p = NULL ∧ h' = h) ∨
     (∃ n, p ≠ NULL ∧ live !! p = None ∧ u32 (a * b) ≤ n ∧ heap_ok h' (<[p := n]> live) ∧ kept live h h' ∧
       ∀ i, 0 ≤ i < u32 (a * b) → get_byte (ram (mach h')) (p + i) = 0)).
Proof.
  intros [ars Hinv] Ha Hb Hs. unfold calloc. set (size := u32 (a * b)) in *.
  destruct (_ || _) eqn:E.
  { exists NULL, h. split_and!; [done|done|by left]. }
  apply orb_false_iff in E as [?%Z.ltb_ge ?%Z.ltb_ge].
  destruct (malloc_spec h ars live size Hinv Hs) as (p & h1 & Hrun & Hres). rewrite (bind_run _ _ _ _ _ Hrun).
  destruct Hres as [(-> & -> & _)|(ars' & n & Hp & Hsz & Hnone & _ & Hinv' & Hk)].
  { run_by ltac:(done). exists NULL, h. split_and!; [done|done|by left]. }
  rewrite nonnull_true by done.
  destruct (memset_spec h1 ars' _ p n 0 size Hinv' (lookup_insert_eq _ _ _) ltac:(lia) ltac:(lia))
    as (h2 & Hrun2 & Hinv2 & Hk2 & Hz).
  rewrite (bind_run _ _ _ _ _ Hrun2). exists p, h2. split_and!; [done|lia|]. right. exists n.
  split_and!; [done..|by exists ars'| |done].
  eapply kept_trans; [exact Hk|]. by eapply kept_delete_insert.
Qed.

Lemma calloc_correct_witness : ∃ p h', calloc 3 20 small_heap = Ret (p, h') ∧ p ≠ NULL.
Proof.
  destruct (calloc_correct small_heap ∅ 3 20 small_heap_ok) as (p & h' & Hrun & _ & [[-> ->]|(n & Hp & _)]);
    [done|done|vm_compute; split; (done || congruence)| |].
  - exfalso. revert Hrun. vm_compute. discriminate.
  - exists p, h'. split; [exact Hrun|exact Hp].
Defined.

(** [realloc] of a block in use to a new nonzero size either answers the null pointer and
    changes nothing, or moves the block: the old one is no longer in use, the new one is large
    enough and starts with the old contents, as far as both sizes allow, and every other
    block is untouched. *)
Theorem realloc_correct h live p n size :
  heap_ok h live → live !! p = Some n → 0 < size ≤ 2 ^ 32 - 4108 →
  ∃ q h', realloc p size h = Ret (q, h') ∧
    ((q = NULL ∧ h' = h) ∨
     (∃ n', q ≠ NULL ∧ live !! q = None ∧ size ≤ n' ∧ heap_ok h' (<[q := n']> (delete p live)) ∧
       kept (delete p live) h h' ∧
       ∀ i, 0 ≤ i < Z.min size n → get_byte (ram (mach h')) (q + i) = get_byte (ram (mach h)) (p + i))).
Proof.
  intros [ars Hinv] Hp Hs. unfold realloc. rewrite (proj2 (Z.eqb_neq size 0)) by lia.
  destruct (malloc_spec h ars live size Hinv Hs) as (q & h1 & Hrun & Hres). rewrite (bind_run _ _ _ _ _ Hrun).
  assert (p ≠ NULL) as Hp0.
  { destruct (live_in_arena Hinv _ _ Hp) as (a & k & Ha & ? & _). destruct (arena_addr Hinv _ _ Ha). unfold NULL. lia. }
  rewrite (nonnull_true p) by done.
  destruct Hres as [(-> & -> & _)|(ars1 & n' & Hq & Hsz & Hnone & _ & Hinv1 & Hk1)].
  { exists NULL, h. split; [done|by left]. }
  rewrite nonnull_true by done. cbn [andb]. assert (p ≠ q) as Hne by congruence.
  assert (<[q := n']> live !! p = Some n) as Hp1 by by rewrite lookup_insert_ne.
  run_by ltac:(by eapply size_of_block_spec).
  replace (if size <? n then size else n) with (Z.min size n) by (destruct (Z.ltb_spec size n); lia).
  destruct (aligned_block _ _ _ _ _ Hinv Hp) as (_ & _ & Hn).
  destruct (memcpy_spec h1 ars1 (<[q := n']> live) q n' p n (Z.min size n) Hinv1 (lookup_insert_eq _ _ _) Hp1 Hne
    ltac:(lia) ltac:(lia)) as (h2 & Hrun2 & Hinv2 & Hk2 & Hb2).
  rewrite (bind_run _ _ _ _ _ Hrun2).
  destruct (free_spec h2 ars1 _ p n Hinv2 Hp1) as (h3 & ars3 & Hrun3 & Hinv3 & Hk3 & _).
  rewrite (bind_run _ _ _ _ _ Hrun3). exists q, h3. split; [done|]. right. exists n'.
  rewrite delete_insert_ne in Hinv3, Hk3 by done. rewrite delete_insert_id in Hk2 by done.
  split_and!; [done..|by exists ars3| |].
  - eapply kept_trans; [eapply kept_trans|].
    + eapply kept_mono; [apply delete_subseteq|exact Hk1].
    + eapply kept_mono; [apply delete_subseteq|exact Hk2].
    + eapply kept_mono; [|exact Hk3]. apply insert_subseteq. by rewrite lookup_delete_ne.
  - intros i Hi. erewrite (kept_bytes h3 h2); [|exact Hinv3|exact Hk3|apply lookup_insert_eq|lia].
    rewrite Hb2 by lia. by eapply kept_bytes; [exact Hinv|exact Hk1|done|lia].
Qed.

Lemma realloc_correct_witness : ∃ p n h1 q h2, malloc 30 small_heap = Ret (p, h1) ∧
  realloc p 3000 h1 = Ret (q, h2) ∧ heap_ok h1 {[ p := n ]}.
Proof.
  destruct (malloc_spec small_heap ∅ ∅ 30) as (p & h1 & Hrun & Hres);
    [apply init_inv; [apply small_machine_ok|done|done]|lia|].
  destruct Hres as [(-> & _ & _)|(ars & n & _ & _ & _ & _ & Hinv & _)].
  { exfalso. revert Hrun. vm_compute. discriminate. }
  destruct (realloc_correct h1 (<[p := n]> ∅) p n 3000 (ex_intro _ ars Hinv) (lookup_insert_eq _ _ _) ltac:(lia))
    as (q & h2 & Hr & _).
  exists p, n, h1, q, h2. split; [exact Hrun|]. split; [exact Hr|exists ars; exact Hinv].
Defined.

(** The sizes that [malloc] and [calloc] compute wrap around.  A request for one of the
    eleven largest sizes is given a single page, of which 4084 bytes can be used; and the check
    in [calloc] does not see every overflow: 65537 times 65537 bytes are 131073 bytes. *)
Theorem allocation_size_wraps h live size :
  heap_ok h live → 2 ^ 32 - 11 ≤ size < 2 ^ 32 →
  (∃ p h', malloc size h = Ret (p, h') ∧
    ((p = NULL ∧ no_pages h 1) ∨ (p ≠ NULL ∧ heap_ok h' (<[p := 4084]> live)))) ∧
  calloc 65537 65537 h = calloc 1 131073 h.
Proof.
  intros [ars Hinv] Hs. split; [|done]. unfold malloc. rewrite (proj2 (Z.eqb_neq size 0)) by lia.
  run_by ltac:(done). destruct (first_fit size (descs h)) as [i|] eqn:Hf.
  { apply first_fit_Some in Hf as (d & Hd & Hsz). pose proof (proj1 (iv_desc _ _ _ Hinv _ _ Hd)). lia. }
  assert (u32 (u32 (size + ARENA_SIZE) + PGSIZE - 1) / PGSIZE = 1) as ->.
  { change PGSIZE with 4096. change ARENA_SIZE with 12.
    assert (u32 (size + 12) = size + 12 - 2 ^ 32) as ->.
    { unfold wrap. symmetry. apply (Z.mod_unique _ _ 1); lia. }
    rewrite wrap_small by (unfold fits; lia). symmetry. apply (Z.div_unique _ _ _ (size + 12 - 2 ^ 32 - 1)); lia. }
  fold (malloc_big 1). destruct (malloc_big_spec h ars live 1 Hinv ltac:(lia))
    as [[Hrun Hno]|(a & h' & Hrun & Hinv' & _ & Ha & _)].
  - exists NULL, h. split; [done|by left].
  - exists (a + ARENA_SIZE), h'. split; [done|]. right. split; [unfold NULL, ARENA_SIZE; lia|]. by exists (<[a := Big 1]> ars).
Qed.

Lemma allocation_size_wraps_witness : ∃ p h', malloc (2 ^ 32 - 1) small_heap = Ret (p, h').
Proof.
  destruct (allocation_size_wraps small_heap ∅ (2 ^ 32 - 1) small_heap_ok ltac:(lia)) as [(p & h' & H & _) _]. eauto.
Defined.

(** Start-up.  [malloc_init] makes the seven descriptors for blocks of 16 to 1024 bytes and
    leaves a consistent heap with no block in use. *)
Theorem malloc_init_correct m at_ :
  palloc_ok m → 0 < at_ → at_ + DESC_SIZE * DESC_MAX ≤ 2 ^ 32 →
  ∃ h, malloc_init (Alloc m [] at_) = Ret ((), h) ∧ heap_ok h ∅ ∧
    block_size <$> descs h = [16; 32; 64; 128; 256; 512; 1024].
Proof.
  intros Hm H1 H2. exists (Alloc m desc_table at_). split_and!; [apply malloc_init_run|exists ∅; by apply init_inv|done].
Qed.
