(* ===== verification/Loader.v ===== *)
(** * Starting a program: the stack and the segments of src/src/userprog/process.c

    [setup_stack] puts the words of the command line on the new process's stack, and [load]
    maps the segments of the executable.  The memory that the code reads and writes as bytes is
    [tmem], by virtual address: a page becomes part of it, with the bytes it has in RAM, when
    the code gets the page or maps it.  The page tables stay in RAM. *)
From S2P Require Import Prelude KList Bitmap Palloc CString Pagedir.

Record task := Task { tmach : machine; tmem : mem }.
Abbreviation T := (ST task).

Definition on_pages {A} (f : P A) : T A := λ t,
  match f (tmach t) with
  | Ret (a, m) => Ret (a, Task m (tmem t))
  | Panic => Panic
  | Fault => Fault
  | NoFuel => NoFuel
  end.
Definition on_mem {A} (f : M A) : T A := λ t,
  match f (tmem t) with
  | Ret (a, m) => Ret (a, Task (tmach t) m)
  | Panic => Panic
  | Fault => Fault
  | NoFuel => NoFuel
  end.

Definition page_bytes (r : gmap Z Z) (kpage : Z) : bytes :=
  (λ i, get_byte r (kpage + i)) <$> seqZ 0 PGSIZE.
(** The page at [kpage] can be accessed at [va]. *)
Definition add_page (va kpage : Z) : T () :=
  modify (λ t, Task (tmach t) (write va (page_bytes (ram (tmach t)) kpage) (tmem t))).

(** ** The stack *)

(** A store of a 32-bit word. *)
Definition le32 (w : Z) : bytes :=
  [w mod 256; w / 256 mod 256; w / 65536 mod 256; w / 16777216 mod 256].
Definition st_word (p w : Z) : M () :=
  stb p (w mod 256);;
  stb (p + 1) (w / 256 mod 256);;
  stb (p + 2) (w / 65536 mod 256);;
  stb (p + 3) (w / 16777216 mod 256).

(** [int pointers[128]] *)
Definition MAX_ARGS : Z := 128.

(** The loop over the words of the command line; [delims] is the address of the string
    constant with a space. *)
Definition push_words (input_cpy delims : addr) : M (Z * list Z) :=
  scan (λ '(s, save, kp, pointers),
    t ← strtok_r s delims save;
    if nonnull t.1 then
      len ← strlen t.1;
      let kp := kp - (len + 1) in
      if MAX_ARGS <=? Z.of_nat (length pointers) then fault else
      _ ← strlcpy kp t.1 PGSIZE;
      mret (Next (NULL, t.2, kp, pointers ++ [kp]))
    else mret (Stop (kp, pointers))) (input_cpy, NULL, PHYS_BASE, []).

(** The end of [setup_stack], with the value it stores in [*esp]. *)
Definition push_args (input_cpy delims : addr) : M Z :=
  '(kp, pointers) ← push_words input_cpy delims;
  let count := Z.of_nat (length pointers) in
  let kp := kp - 4 in
  st_word kp NULL;;
  for_each (length pointers) 0 (λ j,
    st_word (kp - 4 * (j + 1)) (default 0 (pointers !! Z.to_nat (count - 1 - j))));;
  let kp := kp - 4 * count in
  let tmp := kp in
  let kp := kp - 4 in
  st_word kp tmp;;
  let kp := kp - 4 in
  st_word kp count;;
  let kp := kp - 4 in
  st_word kp 0;;
  mret kp.

Definition install_page (pd upage kpage : Z) (writable : bool) : P bool :=
  p ← pagedir_get_page pd upage;
  if negb (nonnull p) then pagedir_set_page pd upage kpage writable else mret false.

(** [pd] is the page directory of the running thread and [esp] the value of [*esp] before the
    call; the new one is returned.  Without a page for the copy the function returns
    [TID_ERROR] as a [bool], which is [true]. *)
Definition setup_stack (pd esp input delims : Z) : T (bool * Z) :=
  input_cpy ← on_pages (palloc_get_page 0);
  if negb (nonnull input_cpy) then mret (true, esp) else
  add_page input_cpy input_cpy;;
  _ ← on_mem (strlcpy input_cpy input PGSIZE);
  kpage ← on_pages (palloc_get_page (Z.lor PAL_USER PAL_ZERO));
  success ← (if nonnull kpage then
               ok ← on_pages (install_page pd (PHYS_BASE - PGSIZE) kpage true);
               if (ok : bool) then add_page (PHYS_BASE - PGSIZE) kpage;; mret true
               else on_pages (palloc_free_page kpage);; mret false
             else mret false);
  kp ← on_mem (push_args input_cpy delims);
  mret (success, kp).

(** ** Segments *)

Record Elf32_Phdr := Phdr {
  p_type : Z; p_offset : Z; p_vaddr : Z; p_paddr : Z;
  p_filesz : Z; p_memsz : Z; p_flags : Z; p_align : Z;
}.
Definition PF_W : Z := 2.

Definition validate_segment (phdr : Elf32_Phdr) (file_length : Z) : bool :=
  if negb (Z.land (p_offset phdr) PGMASK =? Z.land (p_vaddr phdr) PGMASK) then false else
  if p_offset phdr >? u32 file_length then false else
  if p_memsz phdr <? p_filesz phdr then false else
  if p_memsz phdr =? 0 then false else
  if negb (is_user_vaddr (p_vaddr phdr)) then false else
  if negb (is_user_vaddr (u32 (p_vaddr phdr + p_memsz phdr))) then false else
  if u32 (p_vaddr phdr + p_memsz phdr) <? p_vaddr phdr then false else
  if p_vaddr phdr <? PGSIZE then false else true.

(** [ROUND_UP] of lib/round.h, in [uint32_t]. *)
Definition ROUND_UP (x step : Z) : Z := u32 (u32 (x + step - 1) / step * step).

(** What [load] passes to [load_segment] for a segment: offset in the file, page, bytes to
    read, bytes to clear, and whether the pages are writable. *)
Definition segment_args (phdr : Elf32_Phdr) : Z * Z * Z * Z * bool :=
  let writable := flag (p_flags phdr) PF_W in
  let file_page := Z.land (p_offset phdr) (u32 (Z.lnot PGMASK)) in
  let mem_page := Z.land (p_vaddr phdr) (u32 (Z.lnot PGMASK)) in
  let page_offset := Z.land (p_vaddr phdr) PGMASK in
  if 0 <? p_filesz phdr then
    let read_bytes := u32 (page_offset + p_filesz phdr) in
    (file_page, mem_page, read_bytes,
     u32 (ROUND_UP (u32 (page_offset + p_memsz phdr)) PGSIZE - read_bytes), writable)
  else (file_page, mem_page, 0, ROUND_UP (u32 (page_offset + p_memsz phdr)) PGSIZE, writable).

(** The first three assertions of [load_segment]. *)
Definition segment_asserts (ofs upage read_bytes zero_bytes : Z) : bool :=
  (u32 (read_bytes + zero_bytes) mod PGSIZE =? 0) && (pg_ofs upage =? 0) && (Z.rem ofs PGSIZE =? 0).
