(* ===== verification/LoaderProofs.v ===== *)
(** * Starting a program: what the process finds on its stack, and where segments go *)
From S2P Require Import Prelude KList Bitmap Palloc CString CStringProofs Pagedir Loader.

(** ** Words in memory *)

Definition word_at (m : mem) (p w : Z) : Prop := bytes_at m p (le32 w).

Lemma le32_bytes w : Forall byte (le32 w).
Proof. repeat constructor; unfold byte, fits; apply Z.mod_pos_bound; lia. Qed.

Lemma st_word_run m p w : mapped m p 4 → st_word p w m = Ret ((), write p (le32 w) m).
Proof.
  intros Hm. pose proof (le32_bytes w) as Hb. unfold st_word. simpl.
  repeat (apply Forall_cons in Hb as [? Hb]).
  assert (∀ i, 0 ≤ i < 4 → is_Some (m !! (p + i))) as Hi by (intros; by apply Hm).
  pose proof (Hi 0 ltac:(lia)) as Hi0. rewrite Z.add_0_r in Hi0.
  run_by ltac:(by apply stb_run).
  run_by ltac:(apply stb_run; [done|]; rewrite lookup_insert_ne by lia; apply Hi; lia).
  run_by ltac:(apply stb_run; [done|]; rewrite !lookup_insert_ne by lia; apply Hi; lia).
  rewrite stb_run; [|done|rewrite !lookup_insert_ne by lia; apply Hi; lia].
  do 2 f_equal. replace (p + 1 + 1) with (p + 2) by lia. replace (p + 2 + 1) with (p + 3) by lia.
  apply map_eq. intros a. rewrite !lookup_insert. repeat case_decide; (done || lia).
Qed.

Lemma word_at_write m p w : word_at (write p (le32 w) m) p w.
Proof. apply bytes_at_write. Qed.

Lemma word_at_other m q bs p w : p + 4 ≤ q ∨ q + Z.of_nat (length bs) ≤ p → word_at m p w → word_at (write q bs m) p w.
Proof. intros H. apply bytes_at_write_other. simpl. lia. Qed.

Lemma mapped_after_write m q bs p n : mapped m p n → mapped (write q bs m) p n.
Proof.
  intros Hm i Hi. rewrite write_lookup. case_decide; [|by apply Hm].
  apply lookup_lt_is_Some_2. lia.
Qed.

Lemma mapped_sub m p n q k : mapped m p n → p ≤ q → q + k ≤ p + n → mapped m q k.
Proof. intros Hm H1 H2 i Hi. replace (q + i) with (p + (q - p + i)) by lia. apply Hm. lia. Qed.

Lemma string_at_write_other m q bs p s :
  p + Z.of_nat (length s) < q ∨ q + Z.of_nat (length bs) ≤ p → string_at m p s → string_at (write q bs m) p s.
Proof.
  intros Hd [Hp Hb Hc]. split; [done| |done]. apply bytes_at_write_other; [|done]. rewrite length_app. simpl. lia.
Qed.

(** Copying a string that fits. *)
Lemma strlcpy_short m dst src s size : string_at m src s → 0 < dst → Z.of_nat (length s) < size →
  mapped m dst (Z.of_nat (length s) + 1) → dst ≤ src ∨ src + Z.of_nat (length s) ≤ dst →
  strlcpy dst src size m = Ret (Z.of_nat (length s), write dst (s ++ [0]) m).
Proof.
  intros Hs Hd Hz Hm Hno. pose proof Hs as [Hp _ _]. unfold strlcpy.
  run_by ltac:(apply assert_run, nonnull_true; unfold NULL; lia).
  run_by ltac:(apply assert_run, nonnull_true; unfold NULL; lia).
  run_by ltac:(by apply strlen_run). rewrite (proj2 (Z.ltb_lt 0 size)) by lia. cbv zeta.
  assert ((if Z.of_nat (length s) <? size - 1 then Z.of_nat (length s) else size - 1) = Z.of_nat (length s)) as ->.
  { destruct (Z.ltb_spec (Z.of_nat (length s)) (size - 1)); lia. }
  erewrite bind_run; [|apply (copy_prefix_run m dst src s _ Hs); [lia|lia|done|done]].
  by rewrite Nat2Z.id, take_ge.
Qed.

(** ** The words of the command line *)

(** The bytes that words take with their terminators. *)
Fixpoint room (ws : list bytes) : Z :=
  match ws with [] => 0 | w :: ws => Z.of_nat (length w) + 1 + room ws end.
(** Where each word goes, from [top] down. *)
Fixpoint places (top : Z) (ws : list bytes) : list Z :=
  match ws with
  | [] => []
  | w :: ws => let p := top - (Z.of_nat (length w) + 1) in p :: places p ws
  end.

Lemma room_nonneg ws : 0 ≤ room ws.
Proof. induction ws; simpl; lia. Qed.
Lemma length_places top ws : length (places top ws) = length ws.
Proof. revert top. induction ws as [|w ws IH]; intros top; simpl; [done|]. by rewrite IH. Qed.

Lemma length_words_le d s : (length (words d s) ≤ length s)%nat.
Proof.
  unfold words. enough (∀ w ws, split_words d s = (w, ws) → (length w + length ws ≤ length s)%nat) as H.
  { destruct (split_words d s) as [w ws]. specialize (H _ _ eq_refl). destruct w; simpl in *; lia. }
  induction s as [|c s IH]; simpl; [by intros ? ? [= <- <-]|]. intros w ws.
  destruct (split_words d s) as [w1 ws1]. specialize (IH _ _ eq_refl).
  destruct (d c); intros [= <- <-]; simpl; [destruct w1; simpl in *; lia|lia].
Qed.

Section push_words.
Context (q lo hi : Z) (delims : bytes).
(** The loop body, from any position. *)
Abbreviation body := (λ '(s, save, kp, pointers),
    t ← strtok_r s q save;
    if nonnull t.1 then
      len ← strlen t.1;
      let kp := kp - (len + 1) in
      if MAX_ARGS <=? Z.of_nat (length pointers) then fault else
      _ ← strlcpy kp t.1 PGSIZE;
      mret (Next (NULL, t.2, kp, pointers ++ [kp]))
    else mret (Stop (kp, pointers))).

(** The state of the loop in memory [m]: what is left of the command line is the string [s] at
    [p], and the stack can be accessed from [lo] to [hi], below it. *)
Record push_ok (m : mem) (p : Z) (s : bytes) : Prop := PushOk {
  po_input : string_at m p s;
  po_delims : string_at m q delims;
  po_stack : mapped m lo (hi - lo);
  po_apart : hi ≤ p ∧ hi ≤ q;
  po_disjoint : q + Z.of_nat (length delims) < p ∨ p + Z.of_nat (length s) ≤ q;
  po_page : 0 < lo ∧ hi - lo ≤ PGSIZE;
}.

Lemma push_words_loop s : ∀ fuel m p a b kp pointers,
  push_ok m p s → (if nonnull a then a else b) = p → (length s < fuel)%nat →
  let ws := words (mem_char delims) s in
  lo + room ws ≤ kp ≤ hi → Z.of_nat (length pointers + length ws) ≤ MAX_ARGS →
  ∃ m', loop fuel body (a, b, kp, pointers) m = Ret ((kp - room ws, pointers ++ places kp ws), m') ∧
    Forall2 (string_at m') (places kp ws) ws ∧ mapped m' lo (hi - lo) ∧
    (∀ x, ¬ (kp - room ws ≤ x < kp) → ¬ (p ≤ x < p + Z.of_nat (length s)) → m' !! x = m !! x).
Proof.
  remember (length s) as n eqn:Hn. revert s Hn. induction n as [n IH] using lt_wf_ind.
  intros s Hn fuel m p a b kp pointers Hok Hp Hfuel ws Hkp Hmax. subst n.
  destruct fuel as [|fuel]; [lia|]. destruct Hok as [Hs Hq Hst Hap Hdj Hpg].
  destruct (strtok_step m p q a b s delims Hq Hs Hp) as (tok & save & m1 & Hrun & _ & Hsame & Hres).
  fold ws in Hres. pose proof (str_ptr _ _ _ Hs) as Hp0.
  assert (mapped m1 lo (hi - lo)) as Hst1.
  { intros i Hi. rewrite Hsame by lia. by apply Hst. }
  assert (string_at m1 q delims) as Hq1 by (eapply string_at_same; [exact Hsame|lia|done]).
  destruct ws as [|w ws'] eqn:Hws.
  - subst tok. exists m1. cbn [room places]. rewrite app_nil_r, Z.sub_0_r. split; [|split_and!].
    + apply loop_stop. by rewrite (bind_run _ _ _ _ _ Hrun).
    + constructor.
    + done.
    + intros x _ Hx. by apply Hsame.
  - destruct Hres as (Htp & Htok & rest & Hrest & Hwr & Hlen & Hps & Hend & Hlt).
    simpl room in *. simpl length in Hmax. pose proof (room_nonneg ws'). pose proof (str_ptr _ _ _ Htok).
    set (kp' := kp - (Z.of_nat (length w) + 1)) in *.
    assert (Z.of_nat (length w) + 1 ≤ hi - lo) by lia.
    assert (body (a, b, kp, pointers) m =
      Ret (Next (NULL, save, kp', pointers ++ [kp']), write kp' (w ++ [0]) m1)) as Hbody.
    { run_by ltac:(exact Hrun). cbn [fst snd]. rewrite nonnull_true by (unfold NULL; lia).
      run_by ltac:(by apply strlen_run). cbv zeta.
      destruct (Z.leb_spec MAX_ARGS (Z.of_nat (length pointers))); [lia|].
      fold kp'. run_by ltac:(apply strlcpy_short; [done|lia|change PGSIZE with 4096 in *; lia|
        apply (mapped_sub m1 lo (hi - lo)); [done|lia|lia]|lia]). done. }
    set (m2 := write kp' (w ++ [0]) m1) in *.
    assert (push_ok m2 save rest) as Hok2.
    { split.
      - apply string_at_write_other; [rewrite length_app; simpl; lia|done].
      - apply string_at_write_other; [rewrite length_app; simpl; lia|done].
      - by apply mapped_after_write.
      - lia.
      - lia.
      - done. }
    destruct (IH (length rest) Hlen rest eq_refl fuel m2 save NULL save kp' (pointers ++ [kp']) Hok2 eq_refl)
      as (m' & Hloop & Hstr & Hst' & Hsame').
    { lia. }
    { rewrite Hwr. unfold kp'. lia. }
    { rewrite Hwr, length_app. simpl. lia. }
    rewrite Hwr in *. exists m'. split; [|split_and!].
    + rewrite (loop_next _ _ _ _ _ _ Hbody), Hloop. simpl. fold kp'. rewrite <-app_assoc. simpl.
      do 3 f_equal. unfold kp'. lia.
    + simpl. fold kp'. constructor; [|done].
      assert (string_at m2 kp' w) as Hw2.
      { apply string_at_write; [lia|]. by destruct Htok. }
      destruct Hw2 as [? Hb Hc]. split; [done| |done]. intros i c Hi. pose proof (lookup_lt_Some _ _ _ Hi) as Hli.
      rewrite length_app in Hli. simpl in Hli. rewrite Hsame' by (unfold kp' in *; lia). by apply Hb.
    + done.
    + intros x Hx1 Hx2. unfold kp' in *. rewrite Hsame' by lia. unfold m2. rewrite write_out; [apply Hsame; lia|].
      rewrite length_app. simpl. lia.
Qed.
End push_words.

Lemma places_low ws : ∀ top, Forall (λ p, top - room ws ≤ p) (places top ws).
Proof.
  induction ws as [|w ws IH]; intros top; simpl; [constructor|]. pose proof (room_nonneg ws).
  constructor; [lia|]. eapply Forall_impl; [apply IH|]. intros p Hp. simpl in Hp. lia.
Qed.

(** ** The whole stack *)

(** The stack of a program with the arguments [ws], from the stack pointer up: a return
    address, [argc], [argv], and at [argv] the pointers to the arguments, then a null pointer. *)
Definition args_at (m : mem) (esp : Z) (ws : list bytes) : Prop :=
  word_at m esp 0 ∧ word_at m (esp + 4) (Z.of_nat (length ws)) ∧ word_at m (esp + 8) (esp + 12) ∧
  word_at m (esp + 12 + 4 * Z.of_nat (length ws)) NULL ∧
  ∃ ps, Forall2 (string_at m) ps ws ∧
    ∀ i p, ps !! i = Some p → word_at m (esp + 12 + 4 * Z.of_nat i) p.

(** The bytes the arguments take on the stack. *)
Definition args_room (ws : list bytes) : Z := room ws + 4 * Z.of_nat (length ws) + 16.

(** Memory changed only in [lo, hi). *)
Lemma word_at_same lo hi m m' p w : same_outside lo hi m m' → p + 4 ≤ lo ∨ hi ≤ p → word_at m p w → word_at m' p w.
Proof.
  intros Hs Hp Hw i b Hi. pose proof (lookup_lt_Some _ _ _ Hi) as Hl. simpl in Hl. rewrite Hs by lia. by apply Hw.
Qed.

Lemma write_same_outside m p bs lo hi : lo ≤ p → p + Z.of_nat (length bs) ≤ hi → same_outside lo hi m (write p bs m).
Proof. intros H1 H2 x Hx. apply write_out. lia. Qed.

(** The loop that stores the pointers: the last one first, at the highest address. *)
Lemma push_pointers_spec m top ps : mapped m (top - 4 * Z.of_nat (length ps)) (4 * Z.of_nat (length ps)) →
  ∃ m', for_each (length ps) 0 (λ j,
      st_word (top - 4 * (j + 1)) (default 0 (ps !! Z.to_nat (Z.of_nat (length ps) - 1 - j)))) m = Ret ((), m') ∧
    same_outside (top - 4 * Z.of_nat (length ps)) top m m' ∧
    (∀ i p, ps !! i = Some p → word_at m' (top - 4 * Z.of_nat (length ps) + 4 * Z.of_nat i) p) ∧
    ∀ q n, mapped m q n → mapped m' q n.
Proof.
  intros Hm. set (n := Z.of_nat (length ps)) in *. apply wp_unit.
  apply (wp_for_each (λ j m', same_outside (top - 4 * j) top m m' ∧
    (∀ i p, ps !! i = Some p → n - j ≤ Z.of_nat i → word_at m' (top - 4 * n + 4 * Z.of_nat i) p) ∧
    ∀ q k, mapped m q k → mapped m' q k)).
  - intros j m1 Hj (Hs & Hw & Hmap). eapply wp_run.
    { apply st_word_run. apply (mapped_sub m1 (top - 4 * n) (4 * n)); [by apply Hmap|lia|lia]. }
    split; [|split].
    + intros x Hx. rewrite write_out by (simpl; lia). apply Hs. lia.
    + intros i p Hi Hij. destruct (decide (Z.of_nat i = n - 1 - j)) as [E|Hne].
      * rewrite <-E, Nat2Z.id, Hi. simpl. replace (top - 4 * (j + 1)) with (top - 4 * n + 4 * Z.of_nat i) by lia.
        apply word_at_write.
      * apply word_at_other; [simpl; lia|]. apply Hw; [done|lia].
    + intros q k Hq. by apply mapped_after_write, Hmap.
  - intros m' (Hs & Hw & Hmap). fold n in Hs, Hw. rewrite Z.add_0_l in Hs, Hw. split_and!; [done| |done].
    intros i p Hi. apply Hw; [done|lia].
  - split; [done|]. split; [|done]. intros i p Hi Hij. apply lookup_lt_Some in Hi. lia.
Qed.

Lemma push_args_spec m p q s ds lo :
  push_ok q lo PHYS_BASE ds m p s →
  let ws := words (mem_char ds) s in
  lo + args_room ws ≤ PHYS_BASE → Z.of_nat (length ws) ≤ MAX_ARGS →
  ∃ m', push_args p q m = Ret (PHYS_BASE - args_room ws, m') ∧
    args_at m' (PHYS_BASE - args_room ws) ws ∧
    (∀ x, ¬ (PHYS_BASE - args_room ws ≤ x < PHYS_BASE) → ¬ (p ≤ x < p + Z.of_nat (length s)) → m' !! x = m !! x).
Proof.
  intros Hok ws Hroom Hmax. pose proof Hok as [Hs _ _ Hap _ Hpg]. pose proof (room_nonneg ws).
  unfold args_room in *. set (n := Z.of_nat (length ws)) in *.
  destruct (push_words_loop q lo PHYS_BASE ds s (S (size m)) m p p NULL PHYS_BASE [] Hok)
    as (m1 & Hrun & Hstr & Hmap1 & Hsame1); fold ws.
  { rewrite nonnull_true; [done|]. destruct Hs. unfold NULL. lia. }
  { pose proof (str_size _ _ _ Hs). lia. }
  { lia. }
  { simpl. lia. }
  fold ws in Hrun, Hstr, Hsame1. set (ps := places PHYS_BASE ws) in *. set (top := PHYS_BASE - room ws) in *.
  assert (length ps = length ws) as Hlen by apply length_places.
  unfold push_args. erewrite bind_run; [|exact Hrun]. cbv beta iota. simpl app.
  rewrite Hlen. fold n. cbv zeta.
  assert (∀ m' a, mapped m' lo (PHYS_BASE - lo) → lo ≤ a → a + 4 ≤ top → mapped m' a 4) as Hsub.
  { intros m' a Hm' H1 H2. apply (mapped_sub m' lo (PHYS_BASE - lo)); [done|lia|lia]. }
  run_by ltac:(apply st_word_run, Hsub; [done|lia|lia]). set (m2 := write _ _ m1).
  assert (mapped m2 lo (PHYS_BASE - lo)) as Hmap2 by by apply mapped_after_write.
  destruct (push_pointers_spec m2 (top - 4) ps) as (m3 & Hrun3 & Hsame3 & Hps3 & Hmap3).
  { rewrite Hlen. fold n. apply (mapped_sub m2 lo (PHYS_BASE - lo)); [done|lia|lia]. }
  rewrite Hlen in Hrun3, Hsame3, Hps3. fold n in Hrun3, Hsame3, Hps3.
  run_by ltac:(exact Hrun3). specialize (Hmap3 _ _ Hmap2).
  run_by ltac:(apply st_word_run, Hsub; [done|lia|lia]). set (m4 := write _ _ m3).
  assert (mapped m4 lo (PHYS_BASE - lo)) as Hmap4 by by apply mapped_after_write.
  run_by ltac:(apply st_word_run, Hsub; [done|lia|lia]). set (m5 := write _ _ m4).
  assert (mapped m5 lo (PHYS_BASE - lo)) as Hmap5 by by apply mapped_after_write.
  run_by ltac:(apply st_word_run, Hsub; [done|lia|lia]). set (m6 := write _ _ m5).
  set (esp := top - 4 - 4 * n - 4 - 4 - 4).
  assert (PHYS_BASE - (room ws + 4 * n + 16) = esp) as -> by (unfold esp, top; lia).
  assert (same_outside esp (top - 4 - 4 * n) m3 m6) as Hsame6.
  { intros x Hx. unfold m6, m5, m4, esp in *. rewrite !write_out by (simpl; lia). done. }
  assert (same_outside esp top m1 m6) as Hsame16.
  { intros x Hx. rewrite Hsame6, Hsame3 by (unfold esp in *; lia). unfold m2. rewrite write_out by (simpl; lia). done. }
  exists m6. split; [done|]. split.
  - assert (word_at m6 esp 0) by apply word_at_write.
    split; [done|]. split; [|split; [|split]].
    + unfold m6. apply word_at_other; [simpl; unfold esp; lia|].
      replace (esp + 4) with (top - 4 - 4 * n - 4 - 4) by (unfold esp; lia). apply word_at_write.
    + unfold m6. apply word_at_other; [simpl; unfold esp; lia|].
      unfold m5. apply word_at_other; [simpl; unfold esp; lia|].
      replace (esp + 8) with (top - 4 - 4 * n - 4) by (unfold esp; lia).
      replace (esp + 12) with (top - 4 - 4 * n) by (unfold esp; lia). apply word_at_write.
    + fold n. replace (esp + 12 + 4 * n) with (top - 4) by (unfold esp; lia).
      eapply word_at_same; [exact Hsame6|lia|]. eapply word_at_same; [exact Hsame3|lia|]. apply word_at_write.
    + exists ps. split.
      * pose proof (places_low ws PHYS_BASE) as Hlow. fold ps in Hlow.
        apply Forall2_same_length_lookup. split; [done|]. intros i x w Hx Hw.
        rewrite Forall_lookup in Hlow. specialize (Hlow _ _ Hx).
        apply (string_at_same esp top m1); [done|right; left; unfold top in *; lia|].
        by apply (Forall2_lookup_lr _ _ _ _ _ _ Hstr Hx Hw).
      * intros i x Hi. pose proof (Hps3 _ _ Hi) as Hw.
        replace (esp + 12 + 4 * Z.of_nat i) with (top - 4 - 4 * n + 4 * Z.of_nat i) by (unfold esp; lia).
        eapply word_at_same; [exact Hsame6|lia|done].
  - intros x Hx1 Hx2. rewrite Hsame16 by (unfold esp, top in *; lia). apply Hsame1; [unfold top, esp in *; lia|done].
Qed.

(** ** Pages for the stack *)

(** [pd] stays a directory, with the same entries, when kernel pages in use are left alone. *)
Record kept_pages (m m' : machine) : Prop := KeptPages {
  kg_ok : palloc_ok m';
  kg_regs : same_registers m m';
  kg_use a : in_use m a → in_use m' a;
  kg_ram a k : in_use m a → 0 ≤ k < 1024 → word (ram m') (a + 4 * k) = word (ram m) (a + 4 * k);
}.

Lemma kept_pd_ok m m' pd tables : pd_ok m pd tables → kept_pages m m' → pd_ok m' pd tables.
Proof.
  intros [Hok Hb Hu Hts Hinj Hen] [Hok' (_ & _ & _ & Hbase) Huse Hram].
  split; [done|by rewrite Hbase|by apply Huse| |done|].
  - intros i pt Ht. destruct (Hts _ _ Ht) as (? & ? & ?). split; [done|]. split; [by apply Huse|done].
  - intros i Hi. specialize (Hen i Hi). rewrite Hram by (done || lia). done.
Qed.

Lemma kept_pte m m' pd tables va : pd_ok m pd tables → kept_pages m m' → pte m' tables va = pte m tables va.
Proof.
  intros [_ _ _ Hts _ _] [_ _ _ Hram]. unfold pte. destruct (tables !! pd_no va) as [pt|] eqn:E; [|done].
  destruct (Hts _ _ E) as (_ & ? & _). apply Hram; [done|apply pt_no_bound].
Qed.

Lemma fresh_kept_pages zero m pt m' : fresh_page zero m pt m' → kept_pages m m'.
Proof. intros []. by split. Qed.

(** A page of the user pool. *)
Lemma user_page_spec flags m : palloc_ok m → flag flags PAL_USER = true → flag flags PAL_ASSERT = false →
  (palloc_get_page flags m = Ret (NULL, m) ∧ full (user_pool m)) ∨
  ∃ i m', palloc_get_page flags m = Ret (page_at (user_pool m) i, m') ∧
    0 ≤ i < bit_cnt (used_map (user_pool m)) ∧ kept_pages m m' ∧ kernel_pool m' = kernel_pool m ∧
    base (user_pool m') = base (user_pool m) ∧ bit_cnt (used_map (user_pool m')) = bit_cnt (used_map (user_pool m)) ∧
    bit (used_map (user_pool m')) i = true.
Proof.
  intros Hok Hu Ha. destruct (palloc_get_multiple_spec flags 1 m Hok ltac:(done) Ha)
    as (r & m' & Hrun & Hres). unfold palloc_get_page. rewrite Hrun. rewrite Hu in Hres.
  destruct Hres as [Hno|i b r Hi Hin Hg (Hwf & Hc & Hb) Hout Hz]; [left|right].
  { split; [done|]. intros i Hi. specialize (Hno i ltac:(lia) ltac:(simpl; lia)). simpl in Hno.
    destruct (bit _ i) eqn:E; [done|]. destruct Hno. intros j Hj. by replace j with i by lia. }
  simpl in *. exists i. eexists. split; [done|]. split; [lia|]. split; [|split_and!; try done].
  - pose proof (palloc_ok_map true m b Hok Hwf Hc) as Hok'. split; [by destruct Hok'|done|done|].
    intros a k (j & Hj & -> & Ht) Hk. unfold word. simpl. rewrite Hout; [done|].
    destruct Hok as [_ _ Hap]. unfold page_at. change PGSIZE with 4096 in *. lia.
  - simpl. rewrite Hb by lia. by rewrite (proj2 (Z.leb_le i i)), (proj2 (Z.ltb_lt i (i + 1))) by lia.
Qed.

(** Giving a page of the user pool back. *)
Lemma user_free_spec m i : palloc_ok m → 0 ≤ i < bit_cnt (used_map (user_pool m)) → bit (used_map (user_pool m)) i = true →
  ∃ m', palloc_free_page (page_at (user_pool m) i) m = Ret ((), m') ∧ kept_pages m m' ∧ kernel_pool m' = kernel_pool m ∧
    base (user_pool m') = base (user_pool m) ∧ bit_cnt (used_map (user_pool m')) = bit_cnt (used_map (user_pool m)).
Proof.
  intros Hok Hi Hb. destruct (palloc_free_multiple_spec m true i 1 Hok) as (b & Hrun & Hwf & Hc & Hbits); simpl; [lia|lia|lia| |].
  { intros j Hj. by replace j with i by lia. }
  eexists. split; [exact Hrun|]. split; [|done].
  pose proof (palloc_ok_map true m b Hok Hwf Hc) as Hok'. split; [by destruct Hok'|done|done|].
  intros a k (j & Hj & -> & Ht) Hk. unfold word. rewrite ram_set_pool. unfold poisoned. cbn [ram set_ram]. rewrite fill_out; [done|].
  destruct Hok as [_ _ Hap]. unfold page_at. cbn [get_pool]. change PGSIZE with 4096 in *. lia.
Qed.

Lemma install_page_spec m pd tables upage kpage writable :
  pd_ok m pd tables → 0 ≤ upage → pg_ofs upage = 0 → is_user_vaddr upage = true →
  pd ≠ init_page_dir m → flag (pte m tables upage) PTE_P = false →
  PHYS_BASE ≤ kpage → kpage + PGSIZE ≤ 2 ^ 32 → pg_ofs kpage = 0 →
  Z.shiftr (kpage - PHYS_BASE) PTSHIFT < init_ram_pages m →
  ∃ ok m', install_page pd upage kpage writable m = Ret (ok, m') ∧
    if (ok : bool) then
      (∃ tables', pd_ok m' pd tables') ∧ same_registers m m' ∧
      ∀ va, 0 ≤ va → is_user_vaddr va = true →
        value (pagedir_get_page pd va m') =
          if pg_no va =? pg_no upage then Ret (kpage + pg_ofs va) else value (pagedir_get_page pd va m)
    else m' = m ∧ full (kernel_pool m).
Proof.
  intros Hpd Hva Hal Hu Hinit Hnp Hk Hk2 Hka Hram. unfold install_page.
  destruct (pagedir_get_page_run m pd tables upage Hpd Hva Hu) as [Hval Hst].
  unfold translate in Hval. rewrite Hnp in Hval. unfold value in Hval.
  destruct (pagedir_get_page pd upage m) as [[r m1]| | |] eqn:E; try done.
  simpl in Hval. injection Hval as ->. rewrite (Hst _ _ eq_refl) in E.
  rewrite (bind_run _ _ _ _ _ E). cbn [negb nonnull]. by eapply pagedir_set_page_spec.
Qed.

(** ** The stack page *)

(** No byte of the stack page can be accessed. *)
Definition no_stack (m : mem) : Prop := ∀ x, PHYS_BASE - PGSIZE ≤ x < PHYS_BASE → m !! x = None.

Lemma strlcpy_fault m dst src s : string_at m src s → 0 < dst → Z.of_nat (length s) < PGSIZE →
  (∀ x, dst ≤ x ≤ dst + Z.of_nat (length s) → m !! x = None) → strlcpy dst src PGSIZE m = Fault.
Proof.
  intros Hs Hd Hz Hno. pose proof Hs as [Hp Hb _]. unfold strlcpy.
  run_by ltac:(apply assert_run, nonnull_true; unfold NULL; lia).
  run_by ltac:(apply assert_run, nonnull_true; unfold NULL; lia).
  run_by ltac:(by apply strlen_run). rewrite (proj2 (Z.ltb_lt 0 PGSIZE)) by done. cbv zeta.
  assert ((if Z.of_nat (length s) <? PGSIZE - 1 then Z.of_nat (length s) else PGSIZE - 1) = Z.of_nat (length s)) as ->.
  { destruct (Z.ltb_spec (Z.of_nat (length s)) (PGSIZE - 1)); lia. }
  enough (((_ ← memcpy dst src (Z.of_nat (length s)); stb (dst + Z.of_nat (length s)) 0) : M ()) m = Fault) as E
    by (unfold mbind at 1, ST_bind at 1; by rewrite E).
  unfold memcpy. destruct s as [|c s].
  - assert (m !! (dst + 0) = None) as Hn by (apply Hno; simpl; lia).
    change (Z.of_nat (length [])) with 0. change (Z.to_nat 0) with O. cbn [for_each].
    unfold mbind, ST_bind, ASSERT, stb. rewrite !orb_true_r. unfold mret, ST_ret. by rewrite Hn.
  - assert (m !! src = Some c) as Hc by (rewrite <-(Z.add_0_r src); by apply (Hb 0%nat)).
    assert (m !! dst = None) as Hn by (apply Hno; lia).
    rewrite Nat2Z.id. cbn [length for_each].
    unfold mbind, ST_bind, ASSERT, ldb, stb. rewrite !nonnull_true by (unfold NULL; lia). cbn [orb].
    unfold mret, ST_ret. by rewrite !Z.add_0_r, Hc, Hn.
Qed.

Lemma push_args_fault m p q s ds : string_at m p s → string_at m q ds → no_stack m →
  PHYS_BASE ≤ p → room (words (mem_char ds) s) ≤ PGSIZE →
  push_args p q m = Fault.
Proof.
  intros Hs Hq Hno Hp Hroom. pose proof (str_ptr _ _ _ Hs). change PGSIZE with 4096 in *.
  destruct (strtok_step m p q p NULL s ds Hq Hs) as (tok & save & m1 & Hrun & _ & Hsame & Hres).
  { by rewrite nonnull_true by (unfold NULL; lia). }
  assert (no_stack m1) as Hno1.
  { intros x Hx. rewrite Hsame by lia. by apply Hno. }
  unfold push_args, push_words, scan. destruct (words _ s) as [|w ws].
  - subst tok. erewrite bind_run; [|apply loop_stop; by rewrite (bind_run _ _ _ _ _ Hrun)].
    cbv beta iota zeta. unfold mbind at 1, ST_bind at 1, st_word.
    unfold mbind at 1, ST_bind at 1, stb at 1. rewrite Hno1; [done|]. change PGSIZE with 4096. lia.
  - destruct Hres as (Htp & Htok & _). simpl in Hroom. pose proof (room_nonneg ws).
    unfold mbind at 1, ST_bind at 1. simpl loop. unfold mbind at 1, ST_bind at 1.
    rewrite (bind_run _ _ _ _ _ Hrun). cbn [fst snd]. rewrite nonnull_true by (unfold NULL; lia).
    run_by ltac:(by apply strlen_run). cbv zeta. cbn [length]. change (MAX_ARGS <=? Z.of_nat 0) with false. cbv iota.
    unfold mbind at 1, ST_bind at 1. rewrite (strlcpy_fault m1 _ tok w); [done|done|unfold PHYS_BASE; lia|
      change PGSIZE with 4096; lia|]. intros x Hx. apply Hno1. change PGSIZE with 4096. lia.
Qed.

Lemma on_pages_run {A} (f : P A) t a m : f (tmach t) = Ret (a, m) → on_pages f t = Ret (a, Task m (tmem t)).
Proof. unfold on_pages. by intros ->. Qed.
Lemma on_mem_run {A} (f : M A) t a m : f (tmem t) = Ret (a, m) → on_mem f t = Ret (a, Task (tmach t) m).
Proof. unfold on_mem. by intros ->. Qed.

Lemma length_page_bytes r k : length (page_bytes r k) = 4096%nat.
Proof. unfold page_bytes. by rewrite length_fmap, length_seqZ. Qed.

Lemma mapped_new_page m va r k : mapped (write va (page_bytes r k) m) va PGSIZE.
Proof.
  intros i Hi. change PGSIZE with 4096 in Hi. rewrite write_lookup, length_page_bytes, decide_True by lia.
  apply lookup_lt_is_Some_2. rewrite length_page_bytes. lia.
Qed.

(** The [n] bytes at [p] are in no free page of the kernel's pool. *)
Definition outside_free (m : machine) (p n : Z) : Prop :=
  ∀ i, 0 ≤ i < bit_cnt (used_map (kernel_pool m)) → bit (used_map (kernel_pool m)) i = false →
    p + n ≤ page_at (kernel_pool m) i ∨ page_at (kernel_pool m) i + PGSIZE ≤ p.

(** A state in which a process with the directory [pd] can be given a stack: the command line
    [s] and the delimiter are strings, and the stack page is not mapped. *)
Record stack_ok (t : task) (pd input delims : Z) (tables : gmap Z Z) (s : bytes) : Prop := StackOk {
  so_pd : pd_ok (tmach t) pd tables;
  so_init : pd ≠ init_page_dir (tmach t);
  so_user : PHYS_BASE ≤ base (user_pool (tmach t)) ∧
    base (user_pool (tmach t)) + PGSIZE * bit_cnt (used_map (user_pool (tmach t)))
      ≤ PHYS_BASE + PGSIZE * init_ram_pages (tmach t);
  so_absent : flag (pte (tmach t) tables (PHYS_BASE - PGSIZE)) PTE_P = false;
  so_none : no_stack (tmem t);
  so_input : string_at (tmem t) input s;
  so_length : Z.of_nat (length s) < PGSIZE;
  so_delims : string_at (tmem t) delims [32];
  so_delims_kernel : PHYS_BASE ≤ delims;
  so_apart : outside_free (tmach t) input (Z.of_nat (length s) + 1) ∧ outside_free (tmach t) delims 2;
}.

(** The command line copied to its own page. *)
Lemma copy_input_spec t pd input delims tables s icp m1 : stack_ok t pd input delims tables s →
  fresh_page false (tmach t) icp m1 →
  let tm1 := write icp (page_bytes (ram m1) icp) (tmem t) in
  ∃ tm2, strlcpy icp input PGSIZE tm1 = Ret (Z.of_nat (length s), tm2) ∧
    string_at tm2 icp s ∧ string_at tm2 delims [32] ∧ no_stack tm2 ∧ PHYS_BASE ≤ icp ∧
    (delims + 1 < icp ∨ icp + Z.of_nat (length s) ≤ delims).
Proof.
  intros Hok Hf tm1. destruct Hok as [Hpd _ _ _ Hno Hin Hlen Hdel Hdk [Ha1 Ha2]].
  destruct Hpd as [Hpa Hb _ _ _ _].
  assert (∀ p n, outside_free (tmach t) p n → p + n ≤ icp ∨ icp + 4096 ≤ p) as Hout.
  { intros p n Ho. destruct (fp_free _ _ _ _ Hf) as (i & Hi & -> & Hi0). by apply (Ho i Hi Hi0). }
  pose proof (Hout _ _ Ha1) as Ho1. pose proof (Hout _ _ Ha2) as Ho2.
  assert (PHYS_BASE ≤ icp) as Hicp.
  { destruct (fp_free _ _ _ _ Hf) as (i & Hi & -> & _). unfold page_at. change PGSIZE with 4096. lia. }
  assert (0 < icp) by (unfold PHYS_BASE in *; lia). change PGSIZE with 4096 in *.
  exists (write icp (s ++ [0]) tm1). split; [|split; [|split; [|split; [|split; [done|]]]]].
  - apply strlcpy_short; [|lia|lia| |lia].
    + apply string_at_write_other; [rewrite length_page_bytes; lia|done].
    + apply (mapped_sub _ icp PGSIZE); [apply mapped_new_page|lia|change PGSIZE with 4096; lia].
  - apply string_at_write; [done|apply Hin].
  - apply string_at_write_other; [rewrite length_app; simpl; lia|].
    apply string_at_write_other; [rewrite length_page_bytes; simpl; lia|done].
  - intros x Hx. rewrite write_out by (rewrite length_app; simpl; lia).
    unfold tm1. rewrite write_out by (rewrite length_page_bytes; lia). by apply Hno.
  - lia.
Qed.

Lemma setup_stack_spec t pd esp input delims tables s :
  stack_ok t pd input delims tables s →
  let ws := words (mem_char [32]) s in
  args_room ws ≤ PGSIZE → Z.of_nat (length ws) ≤ MAX_ARGS →
  (setup_stack pd esp input delims t = Ret ((true, esp), t) ∧ full (kernel_pool (tmach t))) ∨
  (setup_stack pd esp input delims t = Fault ∧
     ∃ icp m1, fresh_page false (tmach t) icp m1 ∧ (full (user_pool m1) ∨ full (kernel_pool m1))) ∨
  (∃ t' kpage tables', setup_stack pd esp input delims t = Ret ((true, PHYS_BASE - args_room ws), t') ∧
     args_at (tmem t') (PHYS_BASE - args_room ws) ws ∧ pd_ok (tmach t') pd tables' ∧
     ∀ va, PHYS_BASE - PGSIZE ≤ va < PHYS_BASE →
       value (pagedir_get_page pd va (tmach t')) = Ret (kpage + (va - (PHYS_BASE - PGSIZE)))).
Proof.
  intros Hok ws Hroom Hmax. pose proof Hok as [Hpd Hinit [Hub Hue] Habs _ _ _ _ _ _]. unfold setup_stack.
  destruct (palloc_get_page_spec 0 (tmach t) (pd_palloc _ _ _ Hpd) eq_refl eq_refl)
    as [[Hrun Hfull]|(icp & m1 & Hrun & Hf)].
  { left. split; [|done]. erewrite bind_run; [|by apply on_pages_run]. by destruct t. }
  right. change (flag 0 PAL_ZERO) with false in Hf.
  destruct (copy_input_spec t pd input delims tables s icp m1 Hok Hf)
    as (tm2 & Hcpy & Hs2 & Hd2 & Hno2 & Hicp & Hdj).
  erewrite bind_run; [|by apply on_pages_run].
  rewrite nonnull_true by (unfold NULL, PHYS_BASE in *; lia). cbn [negb].
  run_by ltac:(done). erewrite bind_run; [|by apply on_mem_run]. cbn [tmach tmem].
  pose proof (fresh_kept_pages _ _ _ _ Hf) as Hk1. pose proof (kept_pd_ok _ _ _ _ Hpd Hk1) as Hpd1.
  pose proof (fp_user _ _ _ _ Hf) as Hu1. pose proof (fp_regs _ _ _ _ Hf) as (Hrp & Hip & _ & _).
  pose proof (room_nonneg ws). 
  assert (push_args icp delims tm2 = Fault) as Hfault.
  { apply (push_args_fault tm2 icp delims s [32]); try done. fold ws. unfold args_room in Hroom. lia. }
  destruct (user_page_spec (Z.lor PAL_USER PAL_ZERO) m1 (pd_palloc _ _ _ Hpd1) eq_refl eq_refl) as [[Hup Hfull]|(i & m2 & Hup & Hi & Hk2 & Hkp & Hub2 & Huc2 & Hbit)].
  { left. split; [|exists icp, m1; by auto]. erewrite bind_run; [|by apply on_pages_run].
    run_by ltac:(done). unfold mbind, ST_bind, on_mem. cbn [tmem]. by rewrite Hfault. }
  pose proof (palloc_ok_pool m1 true (pd_palloc _ _ _ Hpd1)) as [_ _ Hal He]. simpl in Hal, He.
  rewrite Hu1 in *. set (kpage := page_at (user_pool (tmach t)) i) in *. pose proof (kept_pd_ok _ _ _ _ Hpd1 Hk2) as Hpd2.
  destruct (kg_regs _ _ Hk2) as (Hrp2 & Hip2 & _ & _).
  change PGSIZE with 4096 in *.
  assert (PHYS_BASE ≤ kpage ∧ kpage + 4096 ≤ 2 ^ 32 ∧ kpage + 4096 ≤ PHYS_BASE + 4096 * init_ram_pages (tmach t)) as (Hk1' & Hk2' & Hk3').
  { unfold kpage, page_at. change PGSIZE with 4096. split_and!; lia. }
  assert (pg_ofs kpage = 0) as Hkal.
  { rewrite pg_ofs_mod. unfold kpage, page_at. change PGSIZE with 4096. by rewrite (Z.mul_comm 4096), Z.mod_add. }
  destruct (install_page_spec m2 pd tables (PHYS_BASE - 4096) kpage true Hpd2) as (ok & m3 & Hins & Hres); try done.
  { by rewrite Hip2, Hip. }
  { by rewrite (kept_pte m1 m2 pd), (kept_pte (tmach t) m1 pd). }
  { rewrite Hrp2, Hrp. unfold PTSHIFT, PGBITS. rewrite Z.shiftr_div_pow2 by lia.
    apply Z.div_lt_upper_bound; lia. }
  erewrite bind_run; [|by apply on_pages_run]. cbn [tmach tmem].
  rewrite nonnull_true by (unfold NULL, PHYS_BASE in *; lia).
  destruct ok.
  - right. destruct Hres as ((tables' & Hpd3) & _ & Hget).
    set (tm3 := write (PHYS_BASE - 4096) (page_bytes (ram m3) kpage) tm2).
    assert (push_ok delims (PHYS_BASE - 4096) PHYS_BASE [32] tm3 icp s) as Hpush.
    { split.
      - apply string_at_write_other; [rewrite length_page_bytes; lia|done].
      - apply string_at_write_other; [rewrite length_page_bytes; pose proof (so_delims_kernel _ _ _ _ _ _ Hok); lia|done].
      - replace (PHYS_BASE - (PHYS_BASE - 4096)) with PGSIZE by done. apply mapped_new_page.
      - pose proof (so_delims_kernel _ _ _ _ _ _ Hok). lia.
      - simpl. lia.
      - done. }
    destruct (push_args_spec tm3 icp delims s [32] _ Hpush) as (tm4 & Hpa & Hargs & _); fold ws; [lia|done|].
    exists (Task m3 tm4), kpage, tables'. split; [|split; [done|split; [done|]]].
    + erewrite bind_run.
      2: { erewrite bind_run; [|by apply on_pages_run]. cbv iota. erewrite bind_run; [|done]. done. }
      cbv beta. cbn [tmach tmem]. erewrite bind_run; [|apply on_mem_run; exact Hpa]. done.
    + intros va Hva. cbn [tmach].
      rewrite Hget; [|unfold PHYS_BASE in *; lia|unfold is_user_vaddr; apply Z.ltb_lt; lia].
      change (PHYS_BASE - PGSIZE) with (786431 * 4096) in *. change (PHYS_BASE - 4096) with (786431 * 4096) in *.
      change PHYS_BASE with (786432 * 4096) in Hva.
      rewrite !pg_no_div, pg_ofs_mod. change PGSIZE with 4096. rewrite Z.div_mul by done.
      pose proof (Z.div_mod va 4096 ltac:(done)). pose proof (Z.mod_pos_bound va 4096 ltac:(done)).
      assert (va / 4096 = 786431) as Hq by lia. rewrite Hq, Z.eqb_refl. do 2 f_equal. lia.
  - left. destruct Hres as [-> Hfull]. split.
    + assert (group (used_map (user_pool m2)) i 1 true) as Hg.
      { intros j Hj. by replace j with i by lia. }
      destruct (palloc_free_multiple_spec m2 true i 1 (pd_palloc _ _ _ Hpd2)) as (b & Hfree & _);
        [lia|lia|simpl; rewrite Huc2; lia|done|].
      assert (page_at (get_pool true m2) i = kpage) as Hkp'.
      { unfold kpage, page_at. simpl. by rewrite Hub2. }
      rewrite Hkp' in Hfree.
      erewrite bind_run.
      2: { erewrite bind_run; [|by apply on_pages_run]. cbv iota.
           erewrite bind_run; [|apply on_pages_run; exact Hfree]. done. }
      unfold mbind, ST_bind, on_mem. cbn [tmem]. by rewrite Hfault.
    + exists icp, m1. split; [done|]. right. by rewrite <-Hkp.
Qed.

(** ** Segments *)

Lemma mask_page x : fits 32 x → Z.land x (u32 (Z.lnot PGMASK)) = x - x mod 4096 ∧ Z.land x PGMASK = x mod 4096.
Proof. intros Hx. split; [by apply page_mask|]. apply pg_ofs_mod. Qed.

Lemma round_up_page x : 0 < x ≤ 2 ^ 32 - 8192 →
  ∃ k, ROUND_UP x PGSIZE = 4096 * k ∧ x ≤ 4096 * k < x + 4096.
Proof.
  intros Hx. exists ((x + 4095) / 4096). unfold ROUND_UP. change PGSIZE with 4096.
  replace (x + 4096 - 1) with (x + 4095) by lia.
  pose proof (Z.div_mod (x + 4095) 4096). pose proof (Z.mod_pos_bound (x + 4095) 4096).
  rewrite (wrap_small 32 (x + 4095)) by (unfold fits; lia). rewrite wrap_small by (unfold fits; lia). lia.
Qed.

Definition phdr_fits (h : Elf32_Phdr) : Prop :=
  fits 32 (p_offset h) ∧ fits 32 (p_vaddr h) ∧ fits 32 (p_filesz h) ∧ fits 32 (p_memsz h).

Lemma validate_segment_spec h len : phdr_fits h → 0 ≤ len < 2 ^ 31 →
  validate_segment h len = true ↔
    p_offset h mod 4096 = p_vaddr h mod 4096 ∧ p_offset h ≤ len ∧ p_filesz h ≤ p_memsz h ∧ 0 < p_memsz h ∧
    PGSIZE ≤ p_vaddr h ∧ p_vaddr h + p_memsz h < PHYS_BASE.
Proof.
  intros (Ho & Hv & Hf & Hm) Hl. unfold validate_segment.
  rewrite (proj2 (mask_page _ Ho)), (proj2 (mask_page _ Hv)), (wrap_small 32 len) by (unfold fits; lia).
  unfold is_user_vaddr. change PGSIZE with 4096. unfold fits in *.
  assert (u32 (p_vaddr h + p_memsz h) = p_vaddr h + p_memsz h ∧ p_vaddr h + p_memsz h < 2 ^ 32 ∨
          u32 (p_vaddr h + p_memsz h) = p_vaddr h + p_memsz h - 2 ^ 32 ∧ 2 ^ 32 ≤ p_vaddr h + p_memsz h) as Hw.
  { destruct (decide (p_vaddr h + p_memsz h < 2 ^ 32)); [left|right]; (split; [|lia]).
    - apply wrap_small. unfold fits. lia.
    - unfold wrap. symmetry. apply (Z.mod_unique _ _ 1); lia. }
  unfold PHYS_BASE.
  destruct (Z.eqb_spec (p_offset h mod 4096) (p_vaddr h mod 4096)); cbn [negb]; [|naive_solver].
  rewrite Z.gtb_ltb. destruct (Z.ltb_spec len (p_offset h)); [split; [done|lia]|].
  destruct (Z.ltb_spec (p_memsz h) (p_filesz h)); [split; [done|lia]|].
  destruct (Z.eqb_spec (p_memsz h) 0); [split; [done|lia]|].
  destruct (Z.ltb_spec (p_vaddr h) 0xc0000000); cbn [negb]; [|split; [done|lia]].
  destruct (Z.ltb_spec (u32 (p_vaddr h + p_memsz h)) 0xc0000000); cbn [negb]; [|split; [done|lia]].
  destruct (Z.ltb_spec (u32 (p_vaddr h + p_memsz h)) (p_vaddr h)); [split; [done|lia]|].
  destruct (Z.ltb_spec (p_vaddr h) 4096); [split; [done|lia]|]. split; [|done]. intros _. lia.
Qed.

(** The segment's pages: [n] of them from [upage] on. *)
Lemma segment_args_spec h len : phdr_fits h → 0 ≤ len < 2 ^ 31 → validate_segment h len = true →
  ∃ ofs upage rd zr w, segment_args h = (ofs, upage, rd, zr, w) ∧
    segment_asserts ofs upage rd zr = true ∧
    0 ≤ ofs ≤ len ∧ ofs - upage = p_offset h - p_vaddr h ∧
    PGSIZE ≤ upage ∧ upage + (rd + zr) ≤ PHYS_BASE ∧
    upage ≤ p_vaddr h ∧ p_vaddr h + p_memsz h ≤ upage + (rd + zr) < p_vaddr h + p_memsz h + PGSIZE ∧
    0 ≤ zr ∧ rd = (if p_filesz h =? 0 then 0 else p_vaddr h - upage + p_filesz h).
Proof.
  intros Hfit Hl Hval. pose proof Hfit as (Ho & Hv & Hf & Hm).
  apply validate_segment_spec in Hval as (Hpage & Hof & Hfm & Hm0 & Hv0 & Hend); [|done..].
  unfold segment_args. rewrite (proj1 (mask_page _ Ho)), (proj1 (mask_page _ Hv)), (proj2 (mask_page _ Hv)).
  unfold fits in *. change PGSIZE with 4096 in *. unfold PHYS_BASE in *.
  pose proof (Z.mod_pos_bound (p_vaddr h) 4096 ltac:(lia)) as Hr. pose proof (Z.div_mod (p_vaddr h) 4096 ltac:(lia)).
  pose proof (Z.div_mod (p_offset h) 4096 ltac:(lia)).
  set (r := p_vaddr h mod 4096) in *. set (v := p_vaddr h / 4096) in *. set (o := p_offset h / 4096) in *.
  rewrite Hpage in *.
  rewrite (wrap_small 32 (r + p_memsz h)) by (unfold fits; lia).
  destruct (round_up_page (r + p_memsz h) ltac:(lia)) as (k & Hk & Hkb). change PGSIZE with 4096 in Hk. rewrite Hk.
  assert (∀ rd zr, 0 ≤ rd → 0 ≤ zr → rd + zr = 4096 * k →
    segment_asserts (p_offset h - r) (p_vaddr h - r) rd zr = true) as Has.
  { intros rd zr H1 H2 H3. unfold segment_asserts. rewrite H3, pg_ofs_mod. change PGSIZE with 4096.
    rewrite wrap_small by (unfold fits; lia).
    replace (p_offset h - r) with (o * 4096) by lia. replace (p_vaddr h - r) with (v * 4096) by lia.
    rewrite (Z.mul_comm 4096 k), !Z.mod_mul, Z.rem_mul by lia. done. }
  destruct (Z.ltb_spec 0 (p_filesz h)).
  - rewrite (wrap_small 32 (r + p_filesz h)), wrap_small by (unfold fits; lia).
    do 5 eexists. split; [done|]. split; [apply Has; lia|].
    rewrite (proj2 (Z.eqb_neq (p_filesz h) 0)) by lia. lia.
  - do 5 eexists. split; [done|]. split; [apply Has; lia|].
    rewrite (proj2 (Z.eqb_eq (p_filesz h) 0)) by lia. lia.
Qed.

(** ** Claims *)

(** C10: [setup_stack] gives a program its arguments.  When the words of the command line are at
    most 128 and fit in a page, the call has one of three outcomes.  With memory available, the
    stack page is mapped, and from the stack pointer up the program finds a return address, the
    number of words, and a pointer to the array of pointers to the words, each of them a
    null-terminated string, with a null pointer at the end of the array.  Without a page for the copy of the command line the function
    claims success and leaves everything as it was; without a page for the stack or for its
    page table the kernel faults. *)
Theorem setup_stack_correct t pd esp input delims tables s :
  stack_ok t pd input delims tables s →
  let ws := words (mem_char [32]) s in
  args_room ws ≤ PGSIZE → Z.of_nat (length ws) ≤ MAX_ARGS →
  (setup_stack pd esp input delims t = Ret ((true, esp), t) ∧ full (kernel_pool (tmach t))) ∨
  (setup_stack pd esp input delims t = Fault ∧
     ∃ icp m1, fresh_page false (tmach t) icp m1 ∧ (full (user_pool m1) ∨ full (kernel_pool m1))) ∨
  (∃ t' kpage tables', setup_stack pd esp input delims t = Ret ((true, PHYS_BASE - args_room ws), t') ∧
     args_at (tmem t') (PHYS_BASE - args_room ws) ws ∧ pd_ok (tmach t') pd tables' ∧
     ∀ va, PHYS_BASE - PGSIZE ≤ va < PHYS_BASE →
       value (pagedir_get_page pd va (tmach t')) = Ret (kpage + (va - (PHYS_BASE - PGSIZE)))).
Proof. apply setup_stack_spec. Qed.

Definition stack_machine : machine :=
  Machine (Pool (Bitmap 8 [0x07]) 0xc0101000) (Pool (Bitmap 8 [0x03]) 0xc0200000)
    (<[0xc0102080 := 0x103007]> (<[0xc0103120 := 0x200007]> ∅)) 1024 0xc0101000 0x102000.
Lemma stack_machine_ok : pd_ok stack_machine 0xc0102000 {[32 := 0xc0103000]}.
Proof.
  split.
  - split; [split; [split; [done|done|]|..]..|]; try done; repeat constructor; done.
  - done.
  - exists 1. done.
  - intros i pt [<- <-]%lookup_singleton_Some. split; [done|]. split; [by exists 2|done].
  - by intros i j pt [<- _]%lookup_singleton_Some [<- _]%lookup_singleton_Some.
  - intros i Hi. destruct (decide (i = 32)) as [->|].
    + rewrite lookup_singleton_eq. done.
    + rewrite lookup_singleton_ne by done. unfold word, stack_machine. cbn [ram].
      rewrite !lookup_insert_ne by lia. done.
Qed.

Definition command : bytes := of_string "echo  foo bar".
Definition stack_task : task :=
  Task stack_machine (write 0xc0150000 (command ++ [0]) (write 0xc0160000 [32; 0] ∅)).

Lemma stack_task_ok : stack_ok stack_task 0xc0102000 0xc0150000 0xc0160000 {[32 := 0xc0103000]} command.
Proof.
  split; [apply stack_machine_ok|done|split; by vm_compute|by vm_compute| |by_evaluation|by vm_compute|by_evaluation|by vm_compute|].
  - intros x Hx. change (PHYS_BASE - PGSIZE) with 0xbffff000 in Hx. change PHYS_BASE with 0xc0000000 in Hx.
    unfold stack_task. cbn [tmem]. rewrite !write_out; [done|simpl; lia|simpl; lia].
  - split; intros i Hi _; change (bit_cnt (used_map (kernel_pool (tmach stack_task)))) with 8 in Hi;
      right; unfold page_at; change (base (kernel_pool (tmach stack_task))) with 0xc0101000; change PGSIZE with 4096; lia.
Qed.

Lemma setup_stack_correct_witness :
  ∃ t', setup_stack 0xc0102000 0 0xc0150000 0xc0160000 stack_task = Ret ((true, 0xbfffffd7), t') ∧
    args_at (tmem t') 0xbfffffd7 (of_string <$> ["echo"; "foo"; "bar"]%string).
Proof.
  destruct (setup_stack_correct stack_task 0xc0102000 0 0xc0150000 0xc0160000 _ command stack_task_ok)
    as [[_ Hfull]|[[Hrun _]|(t' & kp & tb & Hrun & Hargs & _)]];
    [by vm_compute|by vm_compute| | |].
  - exfalso. specialize (Hfull 3 ltac:(by vm_compute)). revert Hfull. vm_compute. discriminate.
  - exfalso.
    assert ((if setup_stack 0xc0102000 0 0xc0150000 0xc0160000 stack_task is Fault then false else true) = true) as E
      by (vm_compute; reflexivity).
    rewrite Hrun in E. discriminate E.
  - assert (PHYS_BASE - args_room (words (mem_char [32]) command) = 0xbfffffd7) as E by (vm_compute; reflexivity).
    assert (words (mem_char [32]) command = of_string <$> ["echo"; "foo"; "bar"]%string) as Ew by (vm_compute; reflexivity).
    rewrite E in Hrun, Hargs. rewrite Ew in Hargs. exists t'. split; [exact Hrun|exact Hargs].
Defined.

(** A segment that [validate_segment] accepts is loaded into the user's part of the address
    space.  The assertions of [load_segment] hold for the arguments that [load] computes; the
    pages it maps start at or after the second page, end below the kernel, cover the segment and
    at most part of a page more; and the file is read from the offset that puts [p_offset] at
    [p_vaddr]. *)
Theorem segment_in_user_space h len :
  phdr_fits h → 0 ≤ len < 2 ^ 31 → validate_segment h len = true →
  ∃ ofs upage rd zr w, segment_args h = (ofs, upage, rd, zr, w) ∧
    segment_asserts ofs upage rd zr = true ∧
    0 ≤ ofs ≤ len ∧ ofs - upage = p_offset h - p_vaddr h ∧
    PGSIZE ≤ upage ∧ upage + (rd + zr) ≤ PHYS_BASE ∧
    upage ≤ p_vaddr h ∧ p_vaddr h + p_memsz h ≤ upage + (rd + zr) < p_vaddr h + p_memsz h + PGSIZE ∧
    0 ≤ zr ∧ rd = (if p_filesz h =? 0 then 0 else p_vaddr h - upage + p_filesz h).
Proof. apply segment_args_spec. Qed.

Lemma segment_in_user_space_witness :
  ∃ ofs upage rd zr w, segment_args (Phdr 1 0x1234 0x8049234 0 0x100 0x2000 6 4096) = (ofs, upage, rd, zr, w) ∧
    segment_asserts ofs upage rd zr = true.
Proof.
  destruct (segment_in_user_space (Phdr 1 0x1234 0x8049234 0 0x100 0x2000 6 4096) 0x5000)
    as (ofs & upage & rd & zr & w & H1 & H2 & _); [by vm_compute|lia|by vm_compute|].
  exists ofs, upage, rd, zr, w. split; [exact H1|exact H2].
Defined.
