(* ===== verification/Ustar.v ===== *)
(** * Headers of tar archives: src/src/lib/ustar.c

    The functions work on the byte memory of CString.  A header is 512 bytes; a member of
    [struct ustar_header] is its offset.  [lit_at] gives the addresses of the string constants
    of the program.  An error of [ustar_parse_header] is the text of its message. *)
From S2P Require Import Prelude KList CString Stdio.

Inductive ustar_type := USTAR_REGULAR | USTAR_DIRECTORY | USTAR_EOF.
#[global] Instance ustar_type_eq_dec : EqDecision ustar_type.
Proof. solve_decision. Defined.
Definition type_value (t : ustar_type) : Z :=
  match t with USTAR_REGULAR => chr "0" | USTAR_DIRECTORY => chr "5" | USTAR_EOF => -1 end.

Definition USTAR_HEADER_SIZE : Z := 512.
Definition ULONG_MAX : Z := 2 ^ 32 - 1.
Definition INT_MAX : Z := 2 ^ 31 - 1.

(** The offsets and sizes of the members of [struct ustar_header] that the code uses. *)
Definition h_name (h : addr) : addr := h.
Definition h_mode (h : addr) : addr := h + 100.
Definition h_uid (h : addr) : addr := h + 108.
Definition h_gid (h : addr) : addr := h + 116.
Definition h_size (h : addr) : addr := h + 124.
Definition h_mtime (h : addr) : addr := h + 136.
Definition h_chksum (h : addr) : addr := h + 148.
Definition h_typeflag (h : addr) : addr := h + 156.
Definition h_magic (h : addr) : addr := h + 257.
Definition h_version (h : addr) : addr := h + 263.
Definition h_uname (h : addr) : addr := h + 265.
Definition h_gname (h : addr) : addr := h + 297.
Definition h_prefix (h : addr) : addr := h + 345.

Definition calculate_chksum (h : addr) : M Z :=
  loop 513 (λ '(i, chksum),
    if i <? USTAR_HEADER_SIZE then
      let chksum_start := 148 in
      let chksum_end := chksum_start + 8 in
      let in_chksum_field := (chksum_start <=? i) && (i <? chksum_end) in
      b ← (if in_chksum_field then mret (chr " ") else ldb (h + i));
      mret (Next (i + 1, u32 (chksum + b)))
    else mret (Stop chksum)) (0, 0).

(** The loop of [parse_octal_field], with what it leaves in [*value]. *)
Definition parse_octal_field (s size : Z) : M (bool * Z) :=
  loop (S (Z.to_nat size)) (λ '(ofs, value),
    if ofs <? size then
      c ← ldb (s + ofs);
      if (chr "0" <=? c) && (c <=? chr "7") then
        if value >? ULONG_MAX / 8 then mret (Stop (false, value))
        else mret (Next (ofs + 1, u32 (c - chr "0" + value * 8)))
      else if (c =? chr " ") || (c =? 0) then mret (Stop (0 <? ofs, value))
      else mret (Stop (false, value))
    else mret (Stop (false, value))) (0, 0).

Definition is_all_zeros (block cnt : Z) : M bool :=
  r ← for_loop (Z.to_nat cnt) 0 (λ i, c ← ldb (block + i); mret (if c =? 0 then None else Some false));
  mret (default true r).

Section ustar.
Context (lit_at : string → addr).

(** The condition of the loop of [strip_antisocial_prefixes]. *)
Definition antisocial (file_name : addr) : M bool :=
  c ← ldb file_name;
  if c =? chr "/" then mret true else
  d ← memcmp file_name (lit_at "./") 2;
  if d =? 0 then mret true else
  d ← memcmp file_name (lit_at "../") 3;
  mret (d =? 0).

Definition strip_antisocial_prefixes (file_name : addr) : M addr :=
  file_name ← scan (λ file_name,
    bad ← antisocial file_name;
    if (bad : bool) then p ← strchr file_name (chr "/"); mret (Next (p + 1))
    else mret (Stop file_name)) file_name;
  c ← ldb file_name;
  if c =? 0 then mret (lit_at ".") else
  d ← strcmp file_name (lit_at "..");
  mret (if d =? 0 then lit_at "." else file_name).

(** Everything but the checksum. *)
Definition fill_header (file_name : addr) (type : ustar_type) (size h : Z) : M () :=
  _ ← memset h 0 USTAR_HEADER_SIZE;
  _ ← strlcpy (h_name h) file_name 100;
  _ ← snprintf (h_mode h) 8 (lit "%07o") [if bool_decide (type = USTAR_REGULAR) then 420 else 493];
  _ ← strlcpy (h_uid h) (lit_at "0000000") 8;
  _ ← strlcpy (h_gid h) (lit_at "0000000") 8;
  _ ← snprintf (h_size h) 12 (lit "%011o") [u32 size];
  _ ← snprintf (h_mtime h) 12 (lit "%011o") [1136102400];
  stb (h_typeflag h) (type_value type);;
  _ ← strlcpy (h_magic h) (lit_at "ustar") 6;
  stb (h_version h + 1) (chr "0");;
  stb (h_version h) (chr "0");;
  _ ← strlcpy (h_gname h) (lit_at "root") 32;
  _ ← strlcpy (h_uname h) (lit_at "root") 32;
  mret ().

Definition too_long : list Z := of_string "%s: file name too long" ++ [10; 0].

Definition ustar_make_header (file_name : addr) (type : ustar_type) (size header : Z) : C bool :=
  assert (bool_decide (type = USTAR_REGULAR ∨ type = USTAR_DIRECTORY));;
  file_name ← on_mem (strip_antisocial_prefixes file_name);
  len ← on_mem (strlen file_name);
  if len >? 99 then
    _ ← printf too_long [file_name];
    mret false
  else
    on_mem (fill_header file_name type size header);;
    chksum ← on_mem (calculate_chksum header);
    _ ← on_mem (snprintf (h_chksum header) 8 (lit "%07o") [chksum]);
    mret true.

Definition ustar_parse_header (header : addr) : M (string + addr * ustar_type * Z) :=
  z ← is_all_zeros header USTAR_HEADER_SIZE;
  if (z : bool) then mret (inr (NULL, USTAR_EOF, 0)) else
  d ← memcmp (h_magic header) (lit_at "ustar") 6;
  if negb (d =? 0) then mret (inl "not a ustar archive") else
  v0 ← ldb (h_version header);
  bad ← (if negb (v0 =? chr "0") then mret true
         else v1 ← ldb (h_version header + 1); mret (negb (v1 =? chr "0")));
  if (bad : bool) then mret (inl "invalid ustar version") else
  '(ok, chksum) ← parse_octal_field (h_chksum header) 8;
  if negb ok then mret (inl "corrupt chksum field") else
  sum ← calculate_chksum header;
  if negb (chksum =? sum) then mret (inl "checksum mismatch") else
  last ← ldb (h_name header + 99);
  bad ← (if negb (last =? 0) then mret true
         else p ← ldb (h_prefix header); mret (negb (p =? 0)));
  if (bad : bool) then mret (inl "file name too long") else
  typeflag ← ldb (h_typeflag header);
  if negb (typeflag =? type_value USTAR_REGULAR) && negb (typeflag =? type_value USTAR_DIRECTORY)
  then mret (inl "unimplemented file type") else
  size ← (if typeflag =? type_value USTAR_REGULAR then
            r ← parse_octal_field (h_size header) 12;
            mret (if negb r.1 then inl "corrupt file size field"
                  else if r.2 >? INT_MAX then inl "file too large" else inr r.2)
          else mret (inr 0));
  match size with
  | inl message => mret (inl message)
  | inr size =>
      file_name ← strip_antisocial_prefixes (h_name header);
      mret (inr (file_name,
        if typeflag =? type_value USTAR_REGULAR then USTAR_REGULAR else USTAR_DIRECTORY, size))
  end.
End ustar.

(** A memory with the constants and a name, and a header made and read back. *)
Definition ustar_literals : list string :=
  ["./"; "../"; "."; ".."; "0000000"; "ustar"; "root"].
Definition literal_at (s : string) : addr :=
  1000 + 16 * Z.of_nat (default 0%nat (fst <$> list_find (λ t, t = s) ustar_literals)).
Definition literal_mem : mem :=
  foldr (λ s m, write (literal_at s) (lit s) m) ∅ ustar_literals.

Example roundtrip_file :
  let m := write 2000 (lit "/../etc/passwd") (write 4096 (replicate 512 7) literal_mem) in
  match ustar_make_header literal_at 2000 USTAR_REGULAR 1234 4096 (m, Console false true false 0 0 []) with
  | Ret (true, (m', _)) =>
      match ustar_parse_header literal_at 4096 m' with
      | Ret (inr (p, USTAR_REGULAR, 1234), _) => bool_decide (string_at m' p (of_string "etc/passwd"))
      | _ => false
      end
  | _ => false
  end = true.
Proof. vm_compute. reflexivity. Qed.
