(* ===== verification/UstarProofs.v ===== *)
(** * Proofs about tar headers

    What a header contains after it is made, what is accepted as a header, and that the one is
    read back as the other.  The reference function [strip] says what a file name becomes. *)
From S2P Require Import Prelude KList CString CStringProofs Stdio StdioProofs StdlibProofs Ustar.

Lemma bytes_at_lookup m p b bs : bytes_at m p (b :: bs) → m !! p = Some b.
Proof. by intros [? _]%bytes_at_cons. Qed.

Lemma bytes_at_0 m p bs : bytes_at m (p + 0) bs → bytes_at m p bs.
Proof. by rewrite Z.add_0_r. Qed.

(** A command whose result is only tested. *)
Lemma then_run {A B} (f : M A) (g : A → B) m a m' : f m = Ret (a, m') → (x ← f; mret (g x)) m = Ret (g a, m').
Proof. intros H. by rewrite (bind_run _ _ _ _ _ H). Qed.

Lemma string_at_inj m p s t : string_at m p s → string_at m p t → s = t.
Proof.
  revert p t. induction s as [|c s IH]; intros p [|d t] [Hp Hs Hc] [_ Ht Hd]; try done;
    apply bytes_at_cons in Hs as [Hs1 Hs]; apply bytes_at_cons in Ht as [Ht1 Ht];
    rewrite Hs1 in Ht1; simplify_eq.
  - inversion_clear Hd. naive_solver.
  - inversion_clear Hc. naive_solver.
  - inversion_clear Hc. inversion_clear Hd. f_equal. apply (IH (p + 1)); split; (done || lia).
Qed.

(** ** Octal numbers *)

Definition octal_value (ds : list Z) : Z := foldl (λ v d, d + v * 8) 0 ds.
Definition octal_chars (ds : list Z) : bytes := (λ d, d + chr "0") <$> ds.

Lemma octal_value_snoc ds d : octal_value (ds ++ [d]) = d + octal_value ds * 8.
Proof. unfold octal_value. by rewrite foldl_app. Qed.

Lemma octal_value_num ds : octal_value (rev ds) = num 8 ds.
Proof. unfold octal_value. induction ds as [|d ds IH]; [done|]. simpl. rewrite foldl_app. simpl. rewrite IH. lia. Qed.

Lemma octal_value_bound ds : Forall (λ d, 0 ≤ d < 8) ds → 0 ≤ octal_value ds < 8 ^ Z.of_nat (length ds).
Proof.
  induction ds as [|d ds IH] using rev_ind; [done|]. rewrite octal_value_snoc, length_app.
  intros [? Hd]%Forall_app. inversion_clear Hd. specialize (IH ltac:(done)).
  rewrite Nat2Z.inj_add, Z.pow_add_r by lia. simpl. lia.
Qed.

Lemma octal_digits_chars ds cs : Forall (λ d, 0 ≤ d < 8) ds →
  Forall2 (λ d c, digits base_o !! Z.to_nat d = Some c) ds cs → cs = octal_chars ds.
Proof.
  intros Hr. induction 1 as [|d c ds cs Hd _ IH]; [done|]. inversion_clear Hr. rewrite IH by done. cbn. f_equal.
  assert (∃ k : nat, d = Z.of_nat k ∧ (k < 8)%nat) as (k & -> & Hk) by (exists (Z.to_nat d); lia).
  rewrite Nat2Z.id in Hd. do 8 (destruct k as [|k]; [by injection Hd as <-|]). lia.
Qed.

(** A number below [8^k] has at most [k] digits when the leading one is not zero. *)
Lemma num_length b ds k : 2 ≤ b → Forall (λ d, 0 ≤ d < b) ds → last ds ≠ Some 0 → num b ds < b ^ k → 0 ≤ k →
  Z.of_nat (length ds) ≤ k.
Proof.
  intros Hb Hr Hl Hn Hk. destruct ds as [|d ds _] using rev_ind; [simpl; lia|].
  rewrite last_snoc in Hl. apply Forall_app in Hr as [Hr Hd]. inversion_clear Hd.
  assert (b ^ Z.of_nat (length ds) ≤ num b (ds ++ [d])) as Hge.
  { assert (0 < d) by (destruct (decide (d = 0)); [congruence|lia]). clear -Hb Hr H1.
    induction Hr as [|x ds Hx _ IH]; cbn [length num app]; [cbn; lia|].
    rewrite Nat2Z.inj_succ, Z.pow_succ_r by lia. nia. }
  rewrite length_app. simpl. assert (b ^ Z.of_nat (length ds) < b ^ k) as Hlt%Z.pow_lt_mono_r_iff by lia; lia.
Qed.

Lemma rev_replicate {A} n (x : A) : rev (replicate n x) = replicate n x.
Proof. induction n as [|n IH]; [done|]. rewrite replicate_S at 1. cbn [rev]. by rewrite IH, <-replicate_S_end. Qed.

(** The conversion [%0<w>o]. *)
Lemma format_octal v w : 0 ≤ v < 8 ^ w → 1 ≤ w ≤ 20 →
  ∃ ds, octal_value ds = v ∧ Forall (λ d, 0 ≤ d < 8) ds ∧ Z.of_nat (length ds) = w ∧
    ∀ m, format_integer collect v false false base_o (Conversion ZERO w (-1) INT) (m, []) =
      Ret ((), (m, octal_chars ds)).
Proof.
  intros Hv Hw.
  assert (v < 2 ^ 64) as Hv64.
  { eapply Z.lt_le_trans; [apply Hv|]. transitivity (8 ^ 20); [apply Z.pow_le_mono_r; lia|done]. }
  destruct (integer_buf_spec v base_o (Conversion ZERO w (-1) INT) base_o_ok) as
    (ds & cs & [Hn Hrng Htop Hch] & Hbuf & Hlen); [done|lia|].
  change (with_groups base_o _ 0 cs) with cs in *.
  assert (zeros base_o (Conversion ZERO w (-1) INT) cs = Z.to_nat (1 - Z.of_nat (length cs))) as Hk by done.
  set (k := zeros _ _ _) in *. clearbody k.
  apply octal_digits_chars in Hch as ->; [|done]. unfold octal_chars in *. rewrite length_fmap in *.
  pose proof (num_length 8 ds w ltac:(lia) Hrng Htop) as Hdl. change (base base_o) with 8 in *. rewrite Hn in Hdl.
  specialize (Hdl ltac:(lia) ltac:(lia)).
  set (pad := Z.to_nat (w - Z.of_nat (length ds + k))).
  exists (rev (ds ++ replicate k 0 ++ replicate pad 0)). split_and!.
  - by rewrite octal_value_num, <-replicate_add, num_zeros.
  - apply Forall_rev. rewrite !Forall_app. split_and!; [done|by apply Forall_replicate..].
  - rewrite length_rev, !length_app, !length_replicate. unfold pad. lia.
  - intros m. erewrite format_integer_collect; [|exact Hbuf| |cbn; lia].
    2: { rewrite length_app, length_fmap, length_replicate. lia. }
    rewrite app_nil_l. do 4 f_equal. unfold field, sign_char. cbn [flags width].
    change (flag ZERO (Z.lor MINUS ZERO)) with true. change (flag ZERO POUND) with false. change (flag ZERO ZERO) with true.
    change (flag ZERO MINUS) with false. cbn [andb]. change (0 =? 0) with true. cbv iota. rewrite !app_nil_l, app_nil_r.
    rewrite length_fmap, length_rev, length_app, length_fmap, length_replicate. fold pad.
    assert (((λ d, d + chr "0") <$> ds) ++ replicate k (chr "0") = (λ d, d + chr "0") <$> (ds ++ replicate k 0)) as ->
      by (by rewrite fmap_app, fmap_replicate).
    rewrite digit_chars_u8.
    2: { apply Forall_app. split; [|by apply Forall_replicate]. eapply Forall_impl; [exact Hrng|]. cbv beta. lia. }
    by rewrite app_assoc, !rev_app_distr, !fmap_app, !rev_replicate, !fmap_replicate.
Qed.

(** A whole run of a format that is one octal conversion with a width. *)
Lemma printed_octal (format : list Z) w v : parse_conversion (tail format) [v] = Ret ([chr "o"; 0], Conversion ZERO w (-1) INT, [v]) →
  head format = Some (chr "%") → head (tail format) = Some (chr "0") →
  0 ≤ v < 8 ^ w → 1 ≤ w ≤ 20 →
  ∃ ds, octal_value ds = v ∧ Forall (λ d, 0 ≤ d < 8) ds ∧ Z.of_nat (length ds) = w ∧
    printed ∅ format [v] = Ret (octal_chars ds).
Proof.
  intros Hp H1 H2 Hv Hw. destruct (format_octal v w Hv Hw) as (ds & Hval & Hr & Hl & Hf).
  exists ds. do 3 (split; [done|]). destruct format as [|c1 [|c2 format]]; simplify_eq/=.
  unfold printed, vprintf_. cbn [vprintf_at].
  rewrite (loop_next _ _ _ ([0], []) _ (∅, octal_chars ds)); [done|].
  run_by ltac:(done). change (chr "%" =? 0) with false. change (negb (chr "%" =? chr "%")) with false. cbv beta iota zeta.
  run_by ltac:(done). change (chr "0" =? chr "%") with false. cbv beta iota.
  cbn [tail]. rewrite Hp. run_by ltac:(done). cbv beta iota. run_by ltac:(done).
  erewrite bind_run; [done|]. unfold convert. change (chr_in (chr "o") "di") with false.
  change (chr_in (chr "o") "ouxX") with true. cbv iota. run_by ltac:(done). cbv beta iota zeta.
  change (chr "o" =? chr "o") with true. cbv iota. by run_by ltac:(apply Hf).
Qed.

Lemma printed_07o v : 0 ≤ v < 2 ^ 21 →
  ∃ ds, octal_value ds = v ∧ Forall (λ d, 0 ≤ d < 8) ds ∧ Z.of_nat (length ds) = 7 ∧
    printed ∅ (lit "%07o") [v] = Ret (octal_chars ds).
Proof. intros Hv. apply printed_octal; [reflexivity|done|done|lia|lia]. Qed.

Lemma printed_011o v : 0 ≤ v < 2 ^ 33 →
  ∃ ds, octal_value ds = v ∧ Forall (λ d, 0 ≤ d < 8) ds ∧ Z.of_nat (length ds) = 11 ∧
    printed ∅ (lit "%011o") [v] = Ret (octal_chars ds).
Proof. intros Hv. apply printed_octal; [reflexivity|done|done|lia|lia]. Qed.

Lemma octal_chars_bytes ds : Forall (λ d, 0 ≤ d < 8) ds → Forall byte (octal_chars ds ++ [0]).
Proof.
  intros Hr. apply Forall_app. split; [|by repeat constructor]. apply Forall_fmap. eapply Forall_impl; [exact Hr|].
  intros d Hd. unfold compose, byte, fits. cbv beta in *. change (chr "0") with 48. lia.
Qed.

(** [snprintf] of such a number into a field with room for it and the terminator. *)
Lemma snprintf_octal m p n format v ds : printed ∅ format [v] = Ret (octal_chars ds) →
  Z.of_nat (length ds) = n - 1 → 0 < n < 2 ^ 31 → mapped m p n →
  snprintf p n format [v] m = Ret (n - 1, write p (octal_chars ds ++ [0]) m).
Proof.
  intros Hp Hl Hn Hm. unfold snprintf.
  rewrite (vsnprintf_spec m ∅ p n ltac:(lia) Hm (map_empty_subseteq m) ltac:(done) _ _ _ Hp);
    unfold octal_chars, stored in *; rewrite length_fmap; [|lia].
  rewrite take_ge by (rewrite length_fmap; lia). by rewrite Hl.
Qed.

(** ** Reading fields *)

Lemma octal_value_le ds1 ds2 : Forall (λ d, 0 ≤ d < 8) (ds1 ++ ds2) → 0 ≤ octal_value ds1 ≤ octal_value (ds1 ++ ds2).
Proof.
  intros [Hr1 Hr2]%Forall_app. pose proof (octal_value_bound _ Hr1) as [? _]. split; [done|].
  induction ds2 as [|x ds2 IH] using rev_ind; [by rewrite app_nil_r|]. apply Forall_app in Hr2 as [Hr2 Hx].
  inversion_clear Hx. rewrite app_assoc, octal_value_snoc. specialize (IH Hr2). lia.
Qed.

Lemma parse_octal_run m p n ds : bytes_at m p (octal_chars ds ++ [0]) → Forall (λ d, 0 ≤ d < 8) ds →
  Z.of_nat (length ds) < n → ds ≠ [] → octal_value ds < 2 ^ 32 →
  parse_octal_field p n m = Ret ((true, octal_value ds), m).
Proof.
  intros Hm Hr Hn Hne Hv. unfold parse_octal_field.
  set (body := λ '(ofs, value), _).
  enough (∀ ds1 ds2 fuel, ds = ds1 ++ ds2 → (length ds2 < fuel)%nat →
    loop fuel body (Z.of_nat (length ds1), octal_value ds1) m = Ret ((true, octal_value ds), m)) as Hgen.
  { apply (Hgen [] ds); [done|lia]. }
  intros ds1 ds2. revert ds1. induction ds2 as [|d ds2 IH]; intros ds1 [|fuel] E Hf; try (simpl in Hf; lia).
  - rewrite app_nil_r in E. subst ds1. apply loop_stop. unfold body. rewrite (proj2 (Z.ltb_lt _ _)) by lia.
    run_by ltac:(apply ldb_run, Hm; unfold octal_chars; rewrite lookup_app_r by (rewrite length_fmap; lia);
      by rewrite length_fmap, Nat.sub_diag).
    change ((chr "0" <=? 0) && (0 <=? chr "7")) with false. change ((0 =? chr " ") || (0 =? 0)) with true. cbv iota.
    rewrite (proj2 (Z.ltb_lt 0 _)); [done|]. destruct ds; [done|simpl; lia].
  - subst ds. rewrite length_app in Hn. simpl in Hn, Hf.
    assert (0 ≤ octal_value (ds1 ++ [d]) ≤ octal_value (ds1 ++ d :: ds2)) as Hle.
    { replace (ds1 ++ d :: ds2) with ((ds1 ++ [d]) ++ ds2) in Hr |- * by (by rewrite <-app_assoc). by apply octal_value_le. }
    rewrite octal_value_snoc in Hle.
    apply Forall_app in Hr as Hr'. destruct Hr' as [Hr1 Hr2]. inversion_clear Hr2.
    rewrite (loop_next body fuel _ (Z.of_nat (length (ds1 ++ [d])), octal_value (ds1 ++ [d])) m m).
    { apply IH; [by rewrite <-app_assoc|lia]. }
    unfold body. rewrite (proj2 (Z.ltb_lt _ _)) by lia.
    run_by ltac:(apply ldb_run, Hm; unfold octal_chars; rewrite fmap_app, <-app_assoc;
      rewrite lookup_app_r by (rewrite length_fmap; lia); by rewrite length_fmap, Nat.sub_diag).
    change (chr "0") with 48. change (chr "7") with 55.
    rewrite (proj2 (Z.leb_le 48 _)), (proj2 (Z.leb_le _ 55)) by lia. cbn [andb]. cbv iota.
    rewrite Z.gtb_ltb, (proj2 (Z.ltb_ge _ _)).
    2: { change (ULONG_MAX / 8) with 536870911. lia. }
    unfold mret, ST_ret. do 3 f_equal. rewrite octal_value_snoc, length_app. simpl. f_equal; [lia|].
    rewrite wrap_small by (unfold fits; lia). lia.
Qed.

(** On any bytes the parser returns, and its value is an [unsigned long]. *)
Lemma parse_octal_total m p n : mapped m p n → 0 ≤ n →
  ∃ ok v, parse_octal_field p n m = Ret ((ok, v), m) ∧ 0 ≤ v < 2 ^ 32.
Proof.
  intros Hm Hn. unfold parse_octal_field. set (body := λ '(ofs, value), _).
  destruct (wp_inv (loop (S (Z.to_nat n)) body (0, 0)) m (λ r m', m' = m ∧ 0 ≤ r.2 < 2 ^ 32))
    as ([ok v] & ? & Hrun & -> & Hv); [|by exists ok, v].
  eapply (wp_loop (λ k a m', m' = m ∧ 0 ≤ a.1 ≤ n ∧ k = Z.to_nat (n - a.1) ∧ 0 ≤ a.2 < 2 ^ 32)) with (n := Z.to_nat n);
    [|simpl; split_and!; (done || lia)|lia].
  intros k [ofs v] ? (-> & Ho & -> & Hv). simpl in *. unfold body.
  destruct (Z.ltb_spec ofs n) as [Hlt|]; [|by repeat wp_step].
  destruct (Hm ofs) as [c Hc]; [lia|]. wp_bind_by ltac:(by apply ldb_run).
  destruct (_ && _); [destruct (_ >? _)|destruct (_ || _)]; wp_step; simpl; try done.
  pose proof (wrap_fits 32 (c - chr "0" + v * 8) ltac:(lia)) as [? ?].
  eexists. split_and!; [|done|lia..|done|lia|lia]. lia.
Qed.

Lemma is_all_zeros_run m p n : mapped m p n → 0 ≤ n →
  is_all_zeros p n m = Ret (bool_decide (Forall (λ i, m !! (p + i) = Some 0) (seqZ 0 n)), m).
Proof.
  intros Hm Hn. unfold is_all_zeros. set (body := λ i, ldb (p + i) ≫= _).
  destruct (wp_inv (for_loop (Z.to_nat n) 0 body) m (λ r m', m' = m ∧
    default true r = bool_decide (Forall (λ i, m !! (p + i) = Some 0) (seqZ 0 n)))) as (r & ? & Hrun & -> & Hr).
  - apply (wp_for_loop (λ i m', m' = m ∧ ∀ j, 0 ≤ j < i → m !! (p + j) = Some 0)).
    + intros i ? Hi [-> Hz]. destruct (Hm i) as [c Hc]; [lia|]. unfold body. wp_bind_by ltac:(by apply ldb_run).
      destruct (Z.eqb_spec c 0) as [->|Hc0]; wp_step; simpl; (split; [done|]).
      * intros j Hj. destruct (decide (j = i)) as [->|]; [done|]. apply Hz. lia.
      * symmetry. apply bool_decide_eq_false. rewrite Forall_forall. intros H.
        specialize (H i). rewrite elem_of_seqZ, Hc in H. specialize (H ltac:(lia)). congruence.
    + intros ? [-> Hz]. split; [done|]. symmetry. apply bool_decide_eq_true, Forall_forall. intros i Hi%elem_of_seqZ.
      apply Hz. lia.
    + split; [done|]. lia.
  - by rewrite (bind_run _ _ _ _ _ Hrun), Hr.
Qed.

(** ** The checksum *)

(** Memory cells hold bytes. *)
Definition mem_ok (m : mem) : Prop := map_Forall (λ _ b, byte b) m.

Lemma mem_ok_write m p bs : mem_ok m → Forall byte bs → mem_ok (write p bs m).
Proof.
  intros Hm Hb a b. rewrite write_lookup. case_decide; [|apply Hm]. intros Ha.
  rewrite Forall_lookup in Hb. by eapply Hb.
Qed.

Definition chksum_byte (m : mem) (h i : Z) : Z :=
  if decide (148 ≤ i < 156) then chr " " else default 0 (m !! (h + i)).
Fixpoint chksum_to (m : mem) (h : Z) (n : nat) : Z :=
  match n with O => 0 | S n => chksum_to m h n + chksum_byte m h (Z.of_nat n) end.

Lemma chksum_byte_range m h i : mem_ok m → byte (chksum_byte m h i).
Proof.
  intros Hm. unfold chksum_byte. case_decide; [done|]. destruct (m !! (h + i)) as [b|] eqn:E; [by eapply Hm|done].
Qed.

Lemma chksum_range m h n : mem_ok m → 0 ≤ chksum_to m h n ≤ 255 * Z.of_nat n.
Proof.
  intros Hm. induction n as [|n IH]; [done|]. cbn [chksum_to].
  pose proof (chksum_byte_range m h (Z.of_nat n) Hm) as [? ?]. lia.
Qed.

(** The checksum does not depend on the field that holds it. *)
Lemma chksum_ext m m' h n : (∀ i, 0 ≤ i < Z.of_nat n → ¬ 148 ≤ i < 156 → m' !! (h + i) = m !! (h + i)) →
  chksum_to m' h n = chksum_to m h n.
Proof.
  induction n as [|n IH]; intros H; [done|]. cbn [chksum_to]. rewrite IH by (intros; apply H; lia). f_equal.
  unfold chksum_byte. case_decide; [done|]. by rewrite H by lia.
Qed.

Lemma calculate_chksum_run m h : mem_ok m → mapped m h 512 →
  calculate_chksum h m = Ret (chksum_to m h 512, m).
Proof.
  intros Hok Hm. unfold calculate_chksum. set (body := λ '(i, chksum), _).
  enough (∀ k n fuel, (n + k = 512)%nat → (k < fuel)%nat →
    loop fuel body (Z.of_nat n, chksum_to m h n) m = Ret (chksum_to m h 512, m)) as Hgen.
  { apply (Hgen 512%nat 0%nat); lia. }
  induction k as [|k IH]; intros n [|fuel] Hn Hf; try lia.
  - assert (n = 512%nat) as -> by lia. by apply loop_stop.
  - rewrite (loop_next body fuel _ (Z.of_nat (S n), chksum_to m h (S n)) m m); [apply IH; lia|].
    unfold body. rewrite (proj2 (Z.ltb_lt _ _)) by (change USTAR_HEADER_SIZE with 512; lia). cbv zeta.
    pose proof (chksum_byte_range m h (Z.of_nat n) Hok) as [? ?]. pose proof (chksum_range m h n Hok).
    destruct (Hm (Z.of_nat n)) as [b Hb]; [lia|].
    erewrite (bind_run _ _ _ (chksum_byte m h (Z.of_nat n)) m).
    2: { unfold chksum_byte. change (148 + 8) with 156. case_decide as Hd.
      - by rewrite (proj2 (Z.leb_le _ _)), (proj2 (Z.ltb_lt _ _)) by lia.
      - rewrite Hb. destruct (Z.leb_spec 148 (Z.of_nat n)), (Z.ltb_spec (Z.of_nat n) 156); try lia; by apply ldb_run. }
    unfold mret, ST_ret. do 3 f_equal. cbn [chksum_to]. f_equal; [lia|]. apply wrap_small. unfold fits. lia.
Qed.

(** ** File names *)

(** The name without what [strip_antisocial_prefixes] drops from its front. *)
Fixpoint strip_prefixes (s : bytes) : bytes :=
  match s with
  | a :: t =>
      if a =? chr "/" then strip_prefixes t else
      match t with
      | b :: u =>
          if (a =? chr ".") && (b =? chr "/") then strip_prefixes u else
          match u with
          | c :: v => if (a =? chr ".") && (b =? chr ".") && (c =? chr "/") then strip_prefixes v else s
          | [] => s
          end
      | [] => s
      end
  | [] => []
  end.
Definition strip (s : bytes) : bytes :=
  let t := strip_prefixes s in
  if bool_decide (t = [] ∨ t = of_string "..") then of_string "." else t.

(** A name that stays below the directory it is extracted to, as far as its first component
    can tell. *)
Definition social (s : bytes) : Prop :=
  s ≠ [] ∧ s ≠ of_string ".." ∧ head s ≠ Some (chr "/") ∧
  take 2 s ≠ of_string "./" ∧ take 3 s ≠ of_string "../".
#[global] Instance social_dec s : Decision (social s).
Proof. unfold social. apply _. Defined.

(** One round: the name has a bad prefix up to its first slash, or is left alone. *)
Inductive strip_view (s : bytes) : Prop :=
| strip_slash t : s = chr "/" :: t → strip_view s
| strip_dot t : s = chr "." :: chr "/" :: t → strip_view s
| strip_dots t : s = chr "." :: chr "." :: chr "/" :: t → strip_view s
| strip_none : head s ≠ Some (chr "/") → take 2 s ≠ of_string "./" → take 3 s ≠ of_string "../" →
    strip_prefixes s = s → strip_view s.

Lemma strip_cases s : strip_view s.
Proof.
  destruct s as [|a s1]; [by apply strip_none|].
  destruct (decide (a = chr "/")) as [->|Ha]; [by eapply strip_slash|].
  assert (a =? chr "/" = false) as Ha' by by apply Z.eqb_neq.
  destruct s1 as [|b s2]; [apply strip_none; [by intros [= ?]|done|done|cbn [strip_prefixes]; by rewrite Ha']|].
  destruct (decide (a = chr "." ∧ b = chr "/")) as [[-> ->]|Hb]; [by eapply strip_dot|].
  assert ((a =? chr ".") && (b =? chr "/") = false) as Hb'
    by (apply andb_false_iff; rewrite !Z.eqb_neq; destruct (decide (a = chr ".")); tauto).
  destruct s2 as [|c s3].
  { apply strip_none; [by intros [= ?]| |done|cbn [strip_prefixes]; by rewrite Ha', Hb'].
    intros [= -> ->]. by apply Hb. }
  destruct (decide (a = chr "." ∧ b = chr "." ∧ c = chr "/")) as [(-> & -> & ->)|Hc]; [by eapply strip_dots|].
  assert ((a =? chr ".") && (b =? chr ".") && (c =? chr "/") = false) as Hc'
    by (rewrite !andb_false_iff, !Z.eqb_neq; destruct (decide (a = chr ".")), (decide (b = chr ".")); tauto).
  apply strip_none; [by intros [= ?]| | |cbn [strip_prefixes]; by rewrite Ha', Hb', Hc'].
  - intros [= -> ->]. by apply Hb.
  - intros [= -> -> ->]. by apply Hc.
Qed.

Lemma strip_suffix s : ∃ pre, s = pre ++ strip_prefixes s.
Proof.
  remember (length s) as n eqn:Hn. assert (length s ≤ n)%nat as Hle by lia. clear Hn. revert s Hle.
  induction n as [|n IH]; intros s Hle; destruct (strip_cases s) as [t ->|t ->|t ->|? ? ? ->]; simpl in Hle; try lia.
  - by exists [].
  - destruct (IH t) as [pre E]; [lia|]. exists (chr "/" :: pre). change (strip_prefixes (chr "/" :: t)) with (strip_prefixes t). cbn [app]. by rewrite <-E.
  - destruct (IH t) as [pre E]; [lia|]. exists (chr "." :: chr "/" :: pre). change (strip_prefixes (chr "." :: chr "/" :: t)) with (strip_prefixes t). cbn [app]. by rewrite <-E.
  - destruct (IH t) as [pre E]; [lia|]. exists (chr "." :: chr "." :: chr "/" :: pre). change (strip_prefixes (chr "." :: chr "." :: chr "/" :: t)) with (strip_prefixes t). cbn [app]. by rewrite <-E.
  - by exists [].
Qed.

Lemma strip_social s : social (strip s).
Proof.
  unfold strip. case_bool_decide as Hd; [by_evaluation|].
  assert (strip_view (strip_prefixes s) ∧ strip_prefixes (strip_prefixes s) = strip_prefixes s) as [Hv Hi].
  { split; [apply strip_cases|]. remember (length s) as n eqn:Hn. assert (length s ≤ n)%nat as Hle by lia.
    clear -Hle. revert s Hle. induction n as [|n IH]; intros s Hle;
      destruct (strip_cases s) as [t ->|t ->|t ->|? ? ? E]; simpl in Hle; try lia; try by rewrite !E.
    all: apply (IH t); lia. }
  assert (∀ t, (length (strip_prefixes t) ≤ length t)%nat) as Hle.
  { intros t. destruct (strip_suffix t) as [pre E]. apply (f_equal length) in E. rewrite length_app in E. lia. }
  destruct Hv as [t E|t E|t E|]; [exfalso..|split_and!; (done || tauto)];
    rewrite E in Hi; specialize (Hle t); apply (f_equal length) in Hi;
    [change (strip_prefixes _) with (strip_prefixes t) in Hi..]; simpl in Hi; lia.
Qed.

Lemma strip_length s : (length (strip s) ≤ Nat.max 1 (length s))%nat.
Proof.
  unfold strip. case_bool_decide; [simpl; lia|]. destruct (strip_suffix s) as [pre E].
  apply (f_equal length) in E. rewrite length_app in E. lia.
Qed.

(** A social name is its own stripped name. *)
Lemma strip_idemp s : social s → strip s = s.
Proof.
  intros (? & ? & ? & H2 & H3). unfold strip. destruct (strip_cases s) as [t ->|t ->|t ->|_ _ _ ->]; try done.
  by rewrite bool_decide_eq_false_2 by tauto.
Qed.

(** [memcmp] stops at the first difference, so that it never reads past the terminator of a
    string that is shorter than the other argument. *)
Lemma memcmp_prefix m p q s t : string_at m p s → string_at m q t →
  ∃ r, memcmp p q (Z.of_nat (length t)) m = Ret (r, m) ∧ (r = 0 ↔ take (length t) s = t).
Proof.
  intros [Hp Hs _] [Hq Ht Hc]. unfold memcmp.
  run_by ltac:(by apply assert_run; rewrite nonnull_true by (unfold NULL; lia)).
  run_by ltac:(by apply assert_run; rewrite nonnull_true by (unfold NULL; lia)).
  rewrite Nat2Z.id. set (body := λ i, ldb (p + i) ≫= _).
  enough (∀ t s k, bytes_at m (p + k) (s ++ [0]) → bytes_at m (q + k) t → Forall (λ b, byte b ∧ b ≠ 0) t →
    ∃ o, for_loop (length t) k body m = Ret (o, m) ∧ (default 0 o = 0 ↔ take (length t) s = t)) as Hgen.
  { apply bytes_at_app in Ht as [Ht _].
    destruct (Hgen t s 0) as (o & Hrun & Ho); [by rewrite Z.add_0_r..|done|].
    rewrite (bind_run _ _ _ _ _ Hrun). by eexists. }
  clear. induction t as [|c t IH]; intros s k Hs Ht Hc; cbn [for_loop length].
  { exists None. split; [done|]. by rewrite take_0. }
  apply bytes_at_cons in Ht as [Hc1 Ht]. inversion_clear Hc as [|? ? [_ Hc0] Hct].
  assert (∃ x s', s ++ [0] = x :: s' ∧ (x = 0 ∧ s = [] ∨ ∃ s2, s = x :: s2)) as (x & s' & E & Hx).
  { destruct s as [|x s2]; [by exists 0, []; auto|]. exists x, (s2 ++ [0]). eauto. }
  rewrite E in Hs. apply bytes_at_cons in Hs as [Hx1 Hs].
  erewrite (bind_run _ _ m (if x =? c then None else Some (if c <? x then 1 else -1)) m).
  2: { unfold body. run_by ltac:(by apply ldb_run). by run_by ltac:(by apply ldb_run). }
  destruct (Z.eqb_spec x c) as [->|Hne].
  - destruct Hx as [[-> _]|[s2 ->]]; [done|]. injection E as <-.
    destruct (IH s2 (k + 1)) as (o & Hrun & Ho); [by rewrite Z.add_assoc..|done|].
    exists o. split; [done|]. rewrite Ho. cbn. split; [by intros ->|by intros [= ->]].
  - eexists. split; [done|]. cbn. split; [by destruct (c <? x)|].
    destruct Hx as [[-> ->]|[s2 ->]]; [done|]. by intros [= ->].
Qed.

Section strip.
Context (lit_at : string → addr) (m : mem).

Definition literals_at : Prop := Forall (λ s, string_at m (lit_at s) (of_string s)) ustar_literals.
#[global] Instance literals_at_dec : Decision literals_at.
Proof. unfold literals_at. apply _. Defined.
Context (Hlit : literals_at).

Lemma literal s : s ∈ ustar_literals → string_at m (lit_at s) (of_string s).
Proof. unfold literals_at in Hlit. rewrite Forall_forall in Hlit. apply Hlit. Qed.

(** The test of the loop. *)
Lemma antisocial_run p s : string_at m p s →
  antisocial lit_at p m =
  Ret (bool_decide (head s = Some (chr "/") ∨ take 2 s = of_string "./" ∨ take 3 s = of_string "../"), m).
Proof.
  intros Hs. pose proof Hs as [_ Hb _]. unfold antisocial.
  destruct (memcmp_prefix m p _ s _ Hs (literal "./" ltac:(by_evaluation))) as (r2 & H2 & E2).
  destruct (memcmp_prefix m p _ s _ Hs (literal "../" ltac:(by_evaluation))) as (r3 & H3 & E3).
  change (Z.of_nat (length (of_string "./"))) with 2 in H2. change (Z.of_nat (length (of_string "../"))) with 3 in H3.
  change (length (of_string "./")) with 2%nat in E2. change (length (of_string "../")) with 3%nat in E3.
  destruct s as [|c s]; apply bytes_at_cons in Hb as [Hb _]; (run_by ltac:(by apply ldb_run)).
  - change (0 =? chr "/") with false. cbv iota. run_by ltac:(exact H2).
    rewrite (proj2 (Z.eqb_neq _ _)) by (rewrite E2; done). run_by ltac:(exact H3).
    rewrite (proj2 (Z.eqb_neq _ _)) by (rewrite E3; done). done.
  - destruct (Z.eqb_spec c (chr "/")) as [->|Hc]; [by rewrite bool_decide_eq_true_2 by auto|].
    run_by ltac:(exact H2). destruct (Z.eqb_spec r2 0) as [Hr2|Hr2]; rewrite E2 in Hr2;
      [by rewrite bool_decide_eq_true_2 by auto|].
    run_by ltac:(exact H3). unfold mret, ST_ret. do 2 f_equal.
    destruct (Z.eqb_spec r3 0) as [Hr3|Hr3]; rewrite E3 in Hr3; symmetry;
      [apply bool_decide_eq_true; auto|apply bool_decide_eq_false]. cbn [head]. naive_solver.
Qed.

(** What the loop skips before the first slash, and the slash. *)
Lemma skip_slash p pre t : string_at m p (pre ++ chr "/" :: t) → chr "/" ∉ pre →
  strchr p (chr "/") m = Ret (p + Z.of_nat (length pre), m) ∧ string_at m (p + Z.of_nat (length pre) + 1) t.
Proof.
  intros Hs Hn. split.
  - rewrite (strchr_run m p _ (chr "/") Hs ltac:(done)). unfold find_char.
    rewrite span_of_app.
    + rewrite span_of_cons. change (chr "/" =? chr "/") with true. cbn [negb andb]. rewrite Nat.add_0_r, length_app.
      rewrite (proj2 (Nat.ltb_lt _ _)) by (simpl; lia). done.
    + destruct Hs as [_ _ [Hc _]%Forall_app]. rewrite Forall_forall in Hc |- *. intros c Hin.
      destruct (Hc c Hin) as [_ H0]. rewrite !(proj2 (Z.eqb_neq _ _)); [done|done|]. by intros ->.
  - replace (p + Z.of_nat (length pre) + 1) with (p + Z.of_nat (length (pre ++ [chr "/"]))) by (rewrite length_app; simpl; lia).
    apply str_drop. by rewrite <-app_assoc.
Qed.

Lemma strip_run p s : string_at m p s →
  ∃ q, strip_antisocial_prefixes lit_at p m = Ret (q, m) ∧ string_at m q (strip s) ∧
    (q = lit_at "." ∨ p ≤ q ∧ q + Z.of_nat (length (strip s)) = p + Z.of_nat (length s)).
Proof.
  intros Hs. unfold strip_antisocial_prefixes. set (body := λ file_name, antisocial lit_at file_name ≫= _).
  destruct (wp_inv (scan body p) m (λ q m', m' = m ∧ string_at m q (strip_prefixes s) ∧
    p ≤ q ∧ q + Z.of_nat (length (strip_prefixes s)) = p + Z.of_nat (length s))) as (q & ? & Hrun & -> & Hq & Hpq).
  - apply (wp_scan (λ n q m', m' = m ∧ ∃ t, string_at m q t ∧ strip_prefixes t = strip_prefixes s ∧ n = length t ∧
      p ≤ q ∧ q + Z.of_nat (length t) = p + Z.of_nat (length s))) with (n := length s).
    + intros n q ? (-> & t & Ht & E & -> & Hpq). unfold body.
      eapply wp_bind_run; [apply (antisocial_run q t Ht)|].
      assert (∀ pre u, t = pre ++ chr "/" :: u → chr "/" ∉ pre → strip_prefixes t = strip_prefixes u →
        wp (p ← strchr q (chr "/"); mret (Next (p + 1))) m (λ r m', match r with
          | Next a' => ∃ n', (n' < length t)%nat ∧ m' = m ∧ ∃ t, string_at m a' t ∧ strip_prefixes t = strip_prefixes s ∧
              n' = length t ∧ p ≤ a' ∧ a' + Z.of_nat (length t) = p + Z.of_nat (length s)
          | Stop b => m' = m ∧ string_at m b (strip_prefixes s) ∧ p ≤ b ∧
              b + Z.of_nat (length (strip_prefixes s)) = p + Z.of_nat (length s) end)) as Hskip.
      { intros pre u -> Hn Eu. destruct (skip_slash q pre u Ht Hn) as [Hrun Hu]. wp_bind_by ltac:(exact Hrun).
        wp_step. rewrite length_app in *. simpl in *. eexists. split; [|split; [done|]; exists u; split_and!]; try done; try lia.
        congruence. }
      destruct (strip_cases t) as [u Eu|u Eu|u Eu|H1 H2 H3 H4].
      * rewrite bool_decide_eq_true_2 by (subst t; auto). by apply (Hskip [] u); [|apply not_elem_of_nil|subst t].
      * rewrite bool_decide_eq_true_2 by (subst t; auto). by apply (Hskip [chr "."] u); [|by_evaluation|subst t].
      * rewrite bool_decide_eq_true_2 by (subst t; auto). by apply (Hskip [chr "."; chr "."] u); [|by_evaluation|subst t].
      * rewrite bool_decide_eq_false_2 by tauto. wp_step. rewrite <-E, H4. split; [done|]. split; [done|]. exact Hpq.
    + split; [done|]. exists s. split_and!; (done || lia).
    + pose proof (str_size _ _ _ Hs). lia.
  - rewrite (bind_run _ _ _ _ _ Hrun). pose proof (literal "." ltac:(by_evaluation)) as Hdot.
    pose proof (strcmp_run m q _ _ _ Hq (literal ".." ltac:(by_evaluation))) as Hcmp.
    unfold strip. destruct (strip_prefixes s) as [|c t].
    + destruct Hq as [_ Hb _]. apply bytes_at_cons in Hb as [Hb _]. run_by ltac:(by apply ldb_run).
      eexists. split; [done|]. auto.
    + pose proof Hq as [_ Hb Hch]. apply bytes_at_cons in Hb as [Hb _]. inversion_clear Hch as [|? ? [_ Hc0] _].
      run_by ltac:(by apply ldb_run). rewrite (proj2 (Z.eqb_neq c 0)) by done. run_by ltac:(exact Hcmp).
      pose proof (str_order_eq (c :: t) (of_string "..")) as Hord.
      destruct (Z.eqb_spec (str_order (c :: t) (of_string "..")) 0) as [E0|E0]; rewrite Hord in E0.
      * rewrite bool_decide_eq_true_2 by auto. eexists. split; [done|]. auto.
      * rewrite bool_decide_eq_false_2 by naive_solver. eexists. split; [done|]. auto.
Qed.
End strip.

(** ** Making a header *)

Lemma literal_length s : s ∈ ustar_literals → (length (of_string s) ≤ 7)%nat.
Proof. revert s. apply Forall_forall. by_evaluation. Qed.

Section header.
Context (lit_at : string → addr) (m : mem) (h : addr).
Context (Hok : mem_ok m) (Hlit : literals_at lit_at m) (Hh : 0 < h) (Hmap : mapped m h 512).
Context (Hapart : Forall (λ s, lit_at s + 8 ≤ h ∨ h + 512 ≤ lit_at s) ustar_literals).

(** Only the header has changed. *)
Record in_header (m' : mem) : Prop := InHeader {
  ih_ok : mem_ok m';
  ih_same : same_outside h (h + 512) m m';
  ih_mapped : mapped m' h 512;
}.

Lemma in_header_refl : in_header m.
Proof. split; [done|apply same_outside_refl|done]. Qed.

Lemma in_header_write m' off bs : in_header m' → Forall byte bs → 0 ≤ off →
  off + Z.of_nat (length bs) ≤ 512 → in_header (write (h + off) bs m').
Proof.
  intros [Ho Hs Hm] Hb H0 Hl. split.
  - by apply mem_ok_write.
  - intros a Ha. rewrite write_out by lia. by apply Hs.
  - intros i Hi. rewrite write_lookup. case_decide; [|by apply Hm]. apply lookup_lt_is_Some_2. lia.
Qed.

Lemma in_header_mapped m' off n : in_header m' → 0 ≤ off → off + n ≤ 512 → mapped m' (h + off) n.
Proof. intros [_ _ Hm] H0 Hn i Hi. rewrite <-Z.add_assoc. apply Hm. lia. Qed.

Lemma in_header_literal m' s : in_header m' → s ∈ ustar_literals → string_at m' (lit_at s) (of_string s).
Proof.
  intros [_ Hs _] Hin. eapply string_at_same; [exact Hs| |by apply (literal lit_at m Hlit)].
  rewrite Forall_forall in Hapart. specialize (Hapart s Hin).
  pose proof (literal_length s Hin). lia.
Qed.

(** The steps of [fill_header]. *)
Lemma put_literal m' off n s : in_header m' → s ∈ ustar_literals → 0 ≤ off → off + n ≤ 512 →
  Z.of_nat (length (of_string s)) < n →
  strlcpy (h + off) (lit_at s) n m' = Ret (Z.of_nat (length (of_string s)), write (h + off) (lit s) m') ∧
  in_header (write (h + off) (lit s) m').
Proof.
  intros Hi Hin H0 Hn Hl. pose proof (in_header_literal m' s Hi Hin) as Hs. split.
  - rewrite (strlcpy_run m' (h + off) (lit_at s) (of_string s) n Hs).
    + by rewrite take_ge by lia.
    + lia.
    + lia.
    + by apply in_header_mapped.
    + rewrite Forall_forall in Hapart. specialize (Hapart s Hin). pose proof (literal_length s Hin). lia.
  - apply in_header_write; [done| |done|unfold lit; rewrite length_app; simpl; lia].
    apply Forall_app. split; [by eapply str_bytes_ok|by repeat constructor].
Qed.

Lemma put_octal m' off n format v ds : in_header m' → printed ∅ format [v] = Ret (octal_chars ds) →
  Forall (λ d, 0 ≤ d < 8) ds → Z.of_nat (length ds) = n - 1 → 0 < n → 0 ≤ off → off + n ≤ 512 →
  snprintf (h + off) n format [v] m' = Ret (n - 1, write (h + off) (octal_chars ds ++ [0]) m') ∧
  in_header (write (h + off) (octal_chars ds ++ [0]) m').
Proof.
  intros Hi Hp Hr Hl Hn H0 H1. split.
  - apply snprintf_octal; [done|done|lia|by apply in_header_mapped].
  - apply in_header_write; [done|by apply octal_chars_bytes|done|].
    unfold octal_chars. rewrite length_app, length_fmap. simpl. lia.
Qed.

Lemma put_byte m' off b : in_header m' → byte b → 0 ≤ off < 512 →
  stb (h + off) b m' = Ret ((), write (h + off) [b] m') ∧ in_header (write (h + off) [b] m').
Proof.
  intros Hi Hb Ho. split.
  - apply stb_run; [done|]. by apply (ih_mapped _ Hi).
  - apply in_header_write; [done|by apply Forall_singleton|lia|simpl; lia].
Qed.

(** The contents of a header for the name [n], type [t] and size [v]. *)
Record header_of (n : bytes) (t : ustar_type) (v : Z) (m' : mem) : Prop := HeaderOf {
  ho_in : in_header m';
  ho_name : bytes_at m' h (n ++ [0]);
  ho_name_end : m' !! (h + 99) = Some 0;
  ho_size : ∃ ds, bytes_at m' (h + 124) (octal_chars ds ++ [0]) ∧ Forall (λ d, 0 ≤ d < 8) ds ∧
    length ds = 11%nat ∧ octal_value ds = v;
  ho_type : m' !! (h + 156) = Some (type_value t);
  ho_magic : bytes_at m' (h + 257) (lit "ustar");
  ho_version : bytes_at m' (h + 263) [chr "0"; chr "0"];
  ho_prefix : m' !! (h + 345) = Some 0;
}.

(** The stores of [fill_header] in order, with the digits of the numbers. *)
Definition filled (n : bytes) (t : ustar_type) (dm dv dt : list Z) : mem :=
  foldl (λ m' '(off, bs), write (h + off) bs m') m
    [(0, replicate 512 0); (0, n ++ [0]); (100, octal_chars dm ++ [0]); (108, lit "0000000"); (116, lit "0000000");
     (124, octal_chars dv ++ [0]); (136, octal_chars dt ++ [0]); (156, [type_value t]); (257, lit "ustar");
     (264, [chr "0"]); (263, [chr "0"]); (297, lit "root"); (265, lit "root")].

Lemma type_value_byte t : t ≠ USTAR_EOF → byte (type_value t).
Proof. by destruct t. Qed.
Lemma zero_byte : byte (chr "0").
Proof. done. Qed.

Lemma clear_header : memset h 0 USTAR_HEADER_SIZE m = Ret (h, write (h + 0) (replicate 512 0) m) ∧
  in_header (write (h + 0) (replicate 512 0) m).
Proof.
  split.
  - rewrite Z.add_0_r. apply memset_run; [left; apply nonnull_true; unfold NULL; lia|done|exact Hmap].
  - apply in_header_write; [apply in_header_refl|by apply Forall_replicate|lia|rewrite length_replicate; lia].
Qed.

Lemma put_name m' p n : in_header m' → string_at m p n → (p + Z.of_nat (length n) < h ∨ h + 512 ≤ p) →
  (length n ≤ 99)%nat →
  strlcpy (h_name h) p 100 m' = Ret (Z.of_nat (length n), write (h + 0) (n ++ [0]) m') ∧
  in_header (write (h + 0) (n ++ [0]) m').
Proof.
  intros Hi Hn Hp Hl. split.
  - unfold h_name. rewrite (strlcpy_run m' h p n 100), Z.add_0_r.
    + by rewrite take_ge by lia.
    + eapply string_at_same; [apply (ih_same _ Hi)|lia|done].
    + done.
    + done.
    + intros i Hi'. apply (ih_mapped _ Hi). lia.
    + lia.
  - apply in_header_write; [done| |lia|rewrite length_app; simpl; lia].
    apply Forall_app. split; [by eapply str_bytes_ok|by repeat constructor].
Qed.

(** Runs the next store, whose effect [L] states. *)
Ltac put L :=
  let R := fresh "R" in let H := fresh "Hin" in
  destruct L as [R H]; [try lia; try by_evaluation; try done..|]; erewrite (bind_run _ _ _ _ _ R); clear R.

Lemma fill_header_run p n t v dm dv dt : string_at m p n → (p + Z.of_nat (length n) < h ∨ h + 512 ≤ p) →
  (length n ≤ 99)%nat → t ≠ USTAR_EOF →
  printed ∅ (lit "%07o") [if bool_decide (t = USTAR_REGULAR) then 420 else 493] = Ret (octal_chars dm) →
  printed ∅ (lit "%011o") [u32 v] = Ret (octal_chars dv) →
  printed ∅ (lit "%011o") [1136102400] = Ret (octal_chars dt) →
  Forall (λ d, 0 ≤ d < 8) (dm ++ dv ++ dt) →
  Z.of_nat (length dm) = 7 → Z.of_nat (length dv) = 11 → Z.of_nat (length dt) = 11 →
  fill_header lit_at p t v h m = Ret ((), filled n t dm dv dt) ∧ in_header (filled n t dm dv dt).
Proof.
  intros Hn Hp Hl Ht Hm Hv Htm [Hdm [Hdv Hdt]%Forall_app]%Forall_app Hlm Hlv Hlt. unfold fill_header, filled. cbn [foldl].
  put clear_header. put (put_name _ p n Hin Hn Hp Hl).
  put (put_octal _ 100 8 _ _ dm Hin0 Hm Hdm Hlm).
  put (put_literal _ 108 8 "0000000" Hin1).
  put (put_literal _ 116 8 "0000000" Hin2).
  put (put_octal _ 124 12 _ _ dv Hin3 Hv Hdv Hlv).
  put (put_octal _ 136 12 _ _ dt Hin4 Htm Hdt Hlt).
  put (put_byte _ 156 (type_value t) Hin5 (type_value_byte t Ht)).
  put (put_literal _ 257 6 "ustar" Hin6).
  assert (h_version h + 1 = h + 264) as -> by (unfold h_version; lia).
  put (put_byte _ 264 (chr "0") Hin7 zero_byte).
  put (put_byte _ 263 (chr "0") Hin8 zero_byte).
  put (put_literal _ 297 32 "root" Hin9).
  put (put_literal _ 265 32 "root" Hin10). split; [reflexivity|assumption].
Qed.

(** Reading one store through the later ones, which touch other bytes. *)
Ltac peel :=
  repeat (first [apply bytes_at_write|apply bytes_at_write_other; [unfold octal_chars; rewrite ?length_app, ?length_fmap; cbn; lia|]]).
Ltac peel_byte :=
  repeat (rewrite write_out by (unfold octal_chars; rewrite ?length_app, ?length_fmap; cbn; lia)).

Lemma filled_header n t v dm dv dt : in_header (filled n t dm dv dt) → (length n ≤ 99)%nat → Forall (λ d, 0 ≤ d < 8) dv →
  Z.of_nat (length dm) = 7 → Z.of_nat (length dv) = 11 → Z.of_nat (length dt) = 11 → octal_value dv = v →
  header_of n t v (filled n t dm dv dt).
Proof.
  intros Hin Hl Hdv Hlm Hlv Hlt Hv. pose proof (write_lookup (replicate 512 0) (h + 0) m) as Hz.
  assert (∀ i, 0 ≤ i < 512 → write (h + 0) (replicate 512 0) m !! (h + i) = Some 0) as Hzero.
  { intros i Hi. rewrite Hz, length_replicate, decide_True by lia. apply lookup_replicate_2. lia. }
  split; [done|..]; unfold filled; cbn [foldl].
  - apply bytes_at_0. peel.
  - peel_byte. rewrite write_lookup. case_decide as Hd; [|apply Hzero; lia].
    rewrite length_app in Hd. simpl in Hd. rewrite lookup_app_r by lia. by replace (_ - _)%nat with 0%nat by lia.
  - exists dv. split; [peel|]. split_and!; [done|lia|done].
  - apply (bytes_at_lookup _ _ _ []). peel.
  - peel.
  - change [chr "0"; chr "0"] with ([chr "0"] ++ [chr "0"]). apply bytes_at_app.
    change (Z.of_nat (length [chr "0"])) with 1. rewrite <-Z.add_assoc. split; peel.
  - peel_byte. apply Hzero. lia.
Qed.

(** The checksum goes into a field of its own. *)
Lemma header_of_chksum n t v m' dc : header_of n t v m' → (length n ≤ 99)%nat → Forall (λ d, 0 ≤ d < 8) dc → length dc = 7%nat →
  header_of n t v (write (h + 148) (octal_chars dc ++ [0]) m').
Proof.
  intros [Hi Hn He (ds & Hs & Hd & Hl & Hv) Ht Hm Hver Hp] Hln Hdc Hlc.
  split; try peel_byte; try done; try (apply bytes_at_write_other;
    [unfold octal_chars; rewrite ?length_app, ?length_fmap; cbn; lia|done]).
  - apply in_header_write; [done|by apply octal_chars_bytes|lia|].
    unfold octal_chars. rewrite length_app, length_fmap. simpl. lia.
  - exists ds. split; [|done]. apply bytes_at_write_other; [|done].
    unfold octal_chars. rewrite !length_app, !length_fmap. simpl. lia.
Qed.
End header.

(** ** Reading a header *)

Section parse.
Context (lit_at : string → addr) (m : mem) (h : addr).
Context (Hok : mem_ok m) (Hlit : literals_at lit_at m) (Hh : 0 < h) (Hmap : mapped m h 512).

Lemma parse_run n t v dc m0 : header_of m0 h n t v m → bytes_at m (h + 148) (octal_chars dc ++ [0]) →
  Forall (λ d, 0 ≤ d < 8) dc → length dc = 7%nat → octal_value dc = chksum_to m h 512 →
  Forall (λ b, byte b ∧ b ≠ 0) n → social n → t ≠ USTAR_EOF → 0 ≤ v < 2 ^ 31 →
  ∃ q, ustar_parse_header lit_at h m =
      Ret (inr (q, t, if bool_decide (t = USTAR_REGULAR) then v else 0), m) ∧ string_at m q n.
Proof.
  intros [Hi Hn He (ds & Hs & Hd & Hl & Hv) Ht Hm Hver Hp] Hc Hdc Hlc Hsum Hch Hsoc Hte Hv31.
  unfold ustar_parse_header, h_magic, h_version, h_chksum, h_name, h_prefix, h_typeflag, h_size.
  run_by ltac:(by apply is_all_zeros_run). rewrite bool_decide_eq_false_2.
  2: { rewrite Forall_forall. intros H0. specialize (H0 257). rewrite (bytes_at_lookup _ _ _ _ Hm) in H0.
       assert (257 ∈ seqZ 0 USTAR_HEADER_SIZE) as Hin by (apply elem_of_seqZ; unfold USTAR_HEADER_SIZE; lia).
       by specialize (H0 Hin). }
  pose proof (literal lit_at m Hlit "ustar" ltac:(by_evaluation)) as [Hup Hu _].
  pose proof (memcmp_run m _ _ _ _ Hm Hu eq_refl ltac:(left; lia) ltac:(by left)) as Hcmp.
  change (Z.of_nat (length (lit "ustar"))) with 6 in Hcmp. run_by ltac:(exact Hcmp).
  rewrite (proj2 (str_order_eq _ _) eq_refl). change (negb (0 =? 0)) with false. cbv iota.
  apply bytes_at_cons in Hver as [Hv0 [Hv1 _]%bytes_at_cons].
  run_by ltac:(by apply ldb_run). change (negb (chr "0" =? chr "0")) with false. cbv iota.
  run_by ltac:(by apply then_run, ldb_run). change (negb (chr "0" =? chr "0")) with false. cbv iota.
  pose proof (octal_value_bound dc Hdc) as Hcb. rewrite Hlc in Hcb.
  run_by ltac:(apply parse_octal_run; [done|done|lia|by destruct dc|lia]). cbv beta iota. cbn [negb].
  run_by ltac:(by apply calculate_chksum_run). rewrite Hsum, Z.eqb_refl. cbn [negb].
  run_by ltac:(by apply ldb_run). change (negb (0 =? 0)) with false. cbv iota.
  run_by ltac:(by apply then_run, ldb_run). change (negb (0 =? 0)) with false. cbv iota.
  run_by ltac:(by apply ldb_run).
  assert (string_at m h n) as Hstr by by split.
  destruct (strip_run lit_at m Hlit h n Hstr) as (q & Hq & Hqs & _). rewrite strip_idemp in Hqs by done.
  exists q. split; [|done]. destruct t; [| |done].
  - change (type_value USTAR_REGULAR =? type_value USTAR_REGULAR) with true. cbn [negb andb]. cbv iota.
    run_by ltac:(apply then_run, (parse_octal_run m (h + 124) 12 ds); [done|done|lia|by destruct ds|lia]).
    cbn [negb fst snd]. rewrite Hv, Z.gtb_ltb, (proj2 (Z.ltb_ge INT_MAX v)) by (unfold INT_MAX; lia).
    by run_by ltac:(exact Hq).
  - change (type_value USTAR_DIRECTORY =? type_value USTAR_REGULAR) with false.
    change (type_value USTAR_DIRECTORY =? type_value USTAR_DIRECTORY) with true. cbn [negb andb]. cbv iota.
    run_by ltac:(done). cbv beta iota. by run_by ltac:(exact Hq).
Qed.
End parse.

(** ** Arbitrary headers *)

(** A field that ends in a terminator holds a string. *)
Lemma field_string m p n : mem_ok m → 0 < p → m !! (p + Z.of_nat n) = Some 0 → mapped m p (Z.of_nat n) →
  ∃ s, string_at m p s ∧ (length s ≤ n)%nat.
Proof.
  intros Hok. revert p. induction n as [|n IH]; intros p Hp H0 Hm.
  - exists []. split; [|simpl; lia]. split; [done| |constructor]. simpl.
    apply bytes_at_cons. rewrite Z.add_0_r in H0. split; [done|by intros [|]].
  - destruct (Hm 0) as [b Hb]; [lia|]. rewrite Z.add_0_r in Hb. destruct (decide (b = 0)) as [->|Hb0].
    { exists []. split; [|simpl; lia]. split; [done| |constructor]. simpl.
      apply bytes_at_cons. split; [done|by intros [|]]. }
    destruct (IH (p + 1)) as (s & [_ Hs Hc] & Hl); [lia| | |].
    + rewrite <-H0. f_equal. lia.
    + intros i Hi. rewrite <-Z.add_assoc. apply Hm. lia.
    + exists (b :: s). split; [|simpl; lia]. split; [done| |constructor; [split; [by eapply Hok|done]|done]].
      cbn [app]. apply bytes_at_cons. by split.
Qed.

Lemma mapped_bytes m p n : mapped m p (Z.of_nat n) → ∃ bs, bytes_at m p bs ∧ length bs = n.
Proof.
  revert p. induction n as [|n IH]; intros p Hm; [by exists []|]. destruct (Hm 0) as [b Hb]; [lia|].
  rewrite Z.add_0_r in Hb. destruct (IH (p + 1)) as (bs & Hbs & Hl).
  - intros i Hi. rewrite <-Z.add_assoc. apply Hm. lia.
  - exists (b :: bs). split; [by apply bytes_at_cons|simpl; lia].
Qed.

(** What [ustar_parse_header] may answer for the bytes at [h]. *)
Definition parse_result (m : mem) (h : addr) (r : string + addr * ustar_type * Z) : Prop :=
  match r with
  | inl _ => True
  | inr (p, USTAR_EOF, size) => p = NULL ∧ size = 0 ∧ bytes_at m h (replicate 512 0)
  | inr (p, _, size) => 0 ≤ size < 2 ^ 31 ∧ ∃ s, string_at m p s ∧ social s ∧ (length s ≤ 99)%nat
  end.

Lemma parse_total lit_at m h : mem_ok m → literals_at lit_at m → 0 < h → mapped m h 512 →
  ∃ r, ustar_parse_header lit_at h m = Ret (r, m) ∧ parse_result m h r.
Proof.
  intros Hok Hlit Hh Hmap.
  assert (∀ i, 0 ≤ i < 512 → ∃ b, ldb (h + i) m = Ret (b, m) ∧ m !! (h + i) = Some b) as Hld.
  { intros i Hi. destruct (Hmap i Hi) as [b Hb]. exists b. split; [by apply ldb_run|done]. }
  assert (∀ off n, 0 ≤ off → 0 ≤ n → off + n ≤ 512 → ∃ ok v, parse_octal_field (h + off) n m = Ret ((ok, v), m) ∧ 0 ≤ v < 2 ^ 32) as Hoct.
  { intros off n H0 H1 H2. apply parse_octal_total; [|done]. intros i Hi. rewrite <-Z.add_assoc. apply Hmap. lia. }
  unfold ustar_parse_header, h_magic, h_version, h_chksum, h_name, h_prefix, h_typeflag, h_size.
  run_by ltac:(by apply is_all_zeros_run). case_bool_decide as Hz.
  { eexists. split; [done|]. do 2 (split; [done|]). intros i b Hi. apply lookup_replicate in Hi as [-> Hi].
    rewrite Forall_forall in Hz. apply Hz, elem_of_seqZ. unfold USTAR_HEADER_SIZE. lia. }
  destruct (mapped_bytes m (h + 257) 6) as (mg & Hmg & Hmgl).
  { intros i Hi. rewrite <-Z.add_assoc. apply Hmap. lia. }
  pose proof (literal lit_at m Hlit "ustar" ltac:(by_evaluation)) as [Hup Hu _].
  pose proof (memcmp_run m _ _ _ _ Hmg Hu Hmgl ltac:(left; lia) ltac:(by left)) as Hcmp.
  rewrite Hmgl in Hcmp. run_by ltac:(exact Hcmp).
  destruct (negb _); [by eexists|].
  destruct (Hld 263) as (v0 & Hv0 & _); [lia|]. run_by ltac:(exact Hv0).
  destruct (Hld 264) as (v1 & Hv1 & _); [lia|]. replace (h + 263 + 1) with (h + 264) by lia.
  destruct (negb (v0 =? chr "0")); (run_by ltac:(done || by apply then_run)); [by eexists|].
  destruct (negb _); [by eexists|].
  destruct (Hoct 148 8) as (ok & v & Hv & _); [lia..|]. run_by ltac:(exact Hv). cbv beta iota.
  destruct (negb ok); [by eexists|]. run_by ltac:(by apply calculate_chksum_run).
  destruct (negb _); [by eexists|].
  destruct (Hld 99) as (b99 & Hb99 & H99); [lia|]. run_by ltac:(exact Hb99).
  destruct (Hld 345) as (b345 & Hb345 & _); [lia|].
  destruct (Z.eqb_spec b99 0) as [->|]; cbn [negb]; (run_by ltac:(done || by apply then_run)); [|by eexists].
  destruct (negb _); [by eexists|].
  destruct (Hld 156) as (tf & Htf & _); [lia|]. run_by ltac:(exact Htf).
  destruct (negb _ && negb _); [by eexists|].
  destruct (field_string m h 99 Hok Hh H99) as (s & Hs & Hsl); [intros i Hi; apply Hmap; lia|].
  destruct (strip_run lit_at m Hlit h s Hs) as (q & Hq & Hqs & _).
  assert (∀ sz, 0 ≤ sz < 2 ^ 31 → ∃ r, (file_name ← strip_antisocial_prefixes lit_at h;
    mret (inr (file_name, if tf =? type_value USTAR_REGULAR then USTAR_REGULAR else USTAR_DIRECTORY, sz)) : M (string + _)) m
      = Ret (r, m) ∧ parse_result m h r) as Hend.
  { intros sz Hsz. run_by ltac:(exact Hq). eexists. split; [done|].
    assert (length (strip s) ≤ 99)%nat by (pose proof (strip_length s); lia).
    destruct (tf =? _); (split; [done|]); exists (strip s); (split; [done|]); (split; [apply strip_social|done]). }
  destruct (tf =? _).
  - destruct (Hoct 124 12) as (ok2 & v2 & Hv2 & Hr2); [lia..|]. run_by ltac:(by apply then_run). cbn [fst snd].
    destruct (negb ok2); [by eexists|]. rewrite Z.gtb_ltb. destruct (Z.ltb_spec INT_MAX v2); [by eexists|].
    apply Hend. unfold INT_MAX in *. lia.
  - run_by ltac:(done). apply Hend. lia.
Qed.

(** ** The message for names that are too long *)

(** [%s] with neither width nor precision. *)
Lemma format_string_run m p s : string_at m p s → ∀ out,
  format_string collect (λ i, on_mem (ldb (p + i))) (Z.of_nat (length s)) (Conversion 0 0 (-1) INT) (m, out) =
    Ret ((), (m, out ++ s)).
Proof.
  intros Hs out. unfold format_string. cbn [width flags]. rewrite !Z.gtb_ltb, (proj2 (Z.ltb_ge _ 0)) by lia. cbn [andb].
  run_by ltac:(done). rewrite Nat2Z.id. pose proof Hs as [_ Hb Hc].
  enough (∀ t k out, bytes_at m (p + k) t → Forall (λ b, byte b ∧ b ≠ 0) t →
    for_each (length t) k (λ i, ch ← on_mem (ldb (p + i)); collect ch) (m, out) = Ret ((), (m, out ++ t))) as Hgen.
  { apply bytes_at_app in Hb as [Hb _]. by run_by ltac:(apply Hgen; [rewrite Z.add_0_r|]; done). }
  clear. induction t as [|c t IH]; intros k out Hb Hc; cbn [length for_each]; [by rewrite app_nil_r|].
  apply bytes_at_cons in Hb as [Hc1 Hb]. inversion_clear Hc as [|? ? [Hcb _] Hct].
  erewrite bind_run.
  2: { erewrite bind_run; [apply collect_run|]. unfold on_mem. by rewrite (ldb_run m (p + k) c). }
  rewrite IH; [|by rewrite Z.add_assoc|done]. by rewrite <-app_assoc, wrap_small.
Qed.

Lemma printed_too_long m p s : string_at m p s → Z.of_nat (length s) < 2 ^ 32 - 1 →
  printed m too_long [p] = Ret (s ++ of_string ": file name too long" ++ [10]).
Proof.
  intros Hs Hl. unfold printed, vprintf_. cbn [vprintf_at].
  match goal with |- context [loop _ ?b _ _] => set (body := b) end.
  assert (∀ fuel cs out, Forall (λ c, byte c ∧ c ≠ 0 ∧ c ≠ chr "%") cs → (length cs < fuel)%nat →
    loop fuel body (cs ++ [0], []) (m, out) = Ret ((), (m, out ++ cs))) as Hlit.
  { induction fuel as [|fuel IH]; intros cs out Hc Hf; [lia|]. destruct cs as [|c cs].
    { rewrite app_nil_r. by apply loop_stop. }
    inversion_clear Hc as [|? ? (Hb & H0 & H1) Hcs]. rewrite (loop_next body fuel _ (cs ++ [0], []) _ (m, out ++ [c])).
    { rewrite IH, <-app_assoc; [done|done|simpl in Hf; lia]. }
    unfold body. run_by ltac:(done). rewrite (proj2 (Z.eqb_neq c 0)), (proj2 (Z.eqb_neq c (chr "%"))) by done. cbn [negb].
    run_by ltac:(apply collect_run). by rewrite (wrap_small 8 c). }
  change (S (length too_long)) with 25%nat.
  rewrite (loop_next body _ _ (of_string ": file name too long" ++ [10] ++ [0], []) _ (m, s)).
  { rewrite app_assoc, Hlit; [done|by_evaluation|cbn; lia]. }
  unfold body. run_by ltac:(done). change (negb (chr "%" =? chr "%")) with false. cbv beta iota zeta.
  transitivity ((args ← ((length ← on_mem (strnlen p (u32 (-1)));
     format_string collect (λ i, on_mem (ldb (p + i))) length (Conversion 0 0 (-1) INT));; mret ([] : list Z));
     mret (Next (of_string ": file name too long" ++ [10] ++ [0], args)) : ST _ (ctl _ ())) (m, [])).
  { pose proof (str_ptr _ _ _ Hs). destruct p; [lia|reflexivity|lia]. }
  erewrite bind_run; [done|]. erewrite bind_run; [done|]. erewrite bind_run.
  2: { unfold on_mem. rewrite (strnlen_run m p s (u32 (-1)) Hs ltac:(done)). done. }
  cbv beta. change (u32 (-1)) with (2 ^ 32 - 1). rewrite Z.min_l by lia.
  by apply format_string_run.
Qed.

(** ** Claims *)

(** Where a header is composed: its 512 bytes lie apart from the constants of the program. *)
Definition header_room (lit_at : string → addr) (m : mem) (h : addr) : Prop :=
  mem_ok m ∧ literals_at lit_at m ∧ 0 < h ∧ mapped m h 512 ∧
  Forall (λ s, lit_at s + 8 ≤ h ∨ h + 512 ≤ lit_at s) ustar_literals.
#[global] Instance header_room_dec lit_at m h : Decision (header_room lit_at m h).
Proof. unfold header_room, mem_ok. apply _. Defined.

(** C32: A header that [ustar_make_header] composes is read back by [ustar_parse_header]: for
    every name that has at most 99 characters without its antisocial prefixes and every size,
    making the header succeeds and changes only its 512 bytes, and parsing it answers the
    stripped name, the type, and for a regular file the size. *)
Theorem ustar_roundtrip lit_at m c p s t size h :
  header_room lit_at m h → string_at m p s → (p + Z.of_nat (length s) < h ∨ h + 512 ≤ p) →
  (length (strip s) ≤ 99)%nat → t ≠ USTAR_EOF → 0 ≤ size < 2 ^ 31 →
  ∃ m', ustar_make_header lit_at p t size h (m, c) = Ret (true, (m', c)) ∧ same_outside h (h + 512) m m' ∧
    ∃ q, ustar_parse_header lit_at h m' =
        Ret (inr (q, t, if bool_decide (t = USTAR_REGULAR) then size else 0), m') ∧ string_at m' q (strip s).
Proof.
  intros (Hok & Hlit & Hh & Hmap & Hap) Hs Hp Hl Ht Hsz. unfold ustar_make_header.
  run_by ltac:(apply assert_run, bool_decide_eq_true; destruct t; naive_solver).
  destruct (strip_run lit_at m Hlit p s Hs) as (q & Hq & Hqs & Hwhere).
  run_by ltac:(unfold on_mem; by rewrite Hq). run_by ltac:(unfold on_mem; by rewrite (strlen_run m q _ Hqs)).
  rewrite Z.gtb_ltb, (proj2 (Z.ltb_ge 99 _)) by lia.
  destruct (printed_07o (if bool_decide (t = USTAR_REGULAR) then 420 else 493)) as (dm & _ & Hdm & Hdml & Hdmp);
    [by case_bool_decide|].
  destruct (printed_011o (u32 size)) as (dv & Hv & Hdv & Hdvl & Hdvp); [rewrite wrap_small by (unfold fits; lia); lia|].
  destruct (printed_011o 1136102400) as (dt & _ & Hdt & Hdtl & Hdtp); [done|].
  destruct (fill_header_run lit_at m h Hok Hlit Hh Hmap Hap q (strip s) t size dm dv dt) as [Hfill Hin]; try assumption.
  { destruct Hwhere as [->|Hw]; [|lia]. rewrite Forall_forall in Hap. pose proof (Hap "." ltac:(by_evaluation)).
    rewrite <-(string_at_inj _ _ _ _ (literal lit_at m Hlit "." ltac:(by_evaluation)) Hqs). cbn. lia. }
  { rewrite !Forall_app. auto. }
  pose proof (filled_header m h (strip s) t (u32 size) dm dv dt Hin Hl Hdv Hdml Hdvl Hdtl Hv) as Hof.
  rewrite wrap_small in Hof by (unfold fits; lia). set (m1 := filled _ _ _ _ _ _ _) in *. destruct Hin as [Hok1 Hs1 Hm1].
  run_by ltac:(unfold on_mem; by rewrite Hfill). run_by ltac:(unfold on_mem; by rewrite calculate_chksum_run).
  pose proof (chksum_range m1 h 512 Hok1) as Hcr.
  destruct (printed_07o (chksum_to m1 h 512)) as (dc & Hc & Hdc & Hdcl & Hdcp); [lia|].
  destruct (put_octal m h m1 148 8 _ _ dc ltac:(by split) Hdcp Hdc Hdcl) as [Hput Hin2]; [lia..|].
  unfold h_chksum. run_by ltac:(unfold on_mem; by rewrite Hput).
  apply (header_of_chksum m h _ _ _ _ dc) in Hof; [|done|done|lia]. set (m2 := write _ _ m1) in *.
  destruct Hin2 as [Hok2 Hs2 Hm2]. exists m2. split; [done|]. split; [done|].
  apply (parse_run lit_at m2 h Hok2) with (dc := dc) (m0 := m); try assumption.
  - apply Forall_forall. intros l Hlin. apply (in_header_literal lit_at m h Hlit Hap); [split|]; assumption.
  - apply bytes_at_write.
  - lia.
  - rewrite Hc. symmetry. apply chksum_ext. intros i Hi Hn. unfold m2. rewrite write_out; [done|].
    unfold octal_chars. rewrite length_app, length_fmap. simpl. lia.
  - by destruct Hqs.
  - apply strip_social.
Qed.

(** A memory with the constants, a name and room for a header. *)
Definition ustar_mem (file_name : string) : mem :=
  write 2000 (lit file_name) (write 4096 (replicate 512 7) literal_mem).

Lemma ustar_roundtrip_witness :
  let m := ustar_mem "/../etc/passwd" in
  let c := Console false true false 0 0 [] in
  ∃ m', ustar_make_header literal_at 2000 USTAR_REGULAR 1234 4096 (m, c) = Ret (true, (m', c)) ∧
    same_outside 4096 (4096 + 512) m m' ∧
    ∃ q, ustar_parse_header literal_at 4096 m' = Ret (inr (q, USTAR_REGULAR, 1234), m') ∧
      string_at m' q (of_string "etc/passwd").
Proof.
  intros m c. apply (ustar_roundtrip literal_at m c 2000 (of_string "/../etc/passwd") USTAR_REGULAR 1234 4096).
  - by_evaluation.
  - by_evaluation.
  - left. cbn. lia.
  - by_evaluation.
  - discriminate.
  - lia.
Defined.

(** [ustar_parse_header] is safe on any 512 bytes: it returns without touching memory.  A
    name it accepts has at most 99 characters, is not empty, does not start with a slash or
    with a dot component and does not consist of one that leads upwards; the size fits in an
    [int]; and it reports the end of an archive only for a header of zeros. *)
Theorem ustar_parse_header_safe lit_at m h :
  mem_ok m → literals_at lit_at m → 0 < h → mapped m h 512 →
  ∃ r, ustar_parse_header lit_at h m = Ret (r, m) ∧ parse_result m h r.
Proof. apply parse_total. Qed.

Lemma ustar_parse_header_safe_witness :
  let m := ustar_mem "x" in
  ∃ r, ustar_parse_header literal_at 4096 m = Ret (r, m) ∧ parse_result m 4096 r.
Proof.
  intros m. apply (ustar_parse_header_safe literal_at m 4096); [unfold mem_ok; by_evaluation|by_evaluation|lia|by_evaluation].
Defined.

(** A name with more than 99 characters after stripping is refused: [ustar_make_header]
    prints the message with the stripped name, answers false and leaves memory alone. *)
Theorem ustar_make_header_refuses lit_at m c p s t size h :
  literals_at lit_at m → string_at m p s → 99 < Z.of_nat (length (strip s)) < 2 ^ 31 - 22 → t ≠ USTAR_EOF →
  - 2 ^ 63 ≤ write_cnt c < 2 ^ 63 → 0 ≤ console_lock_depth c →
  (console_lock_held c = false → console_lock_depth c = 0) →
  ustar_make_header lit_at p t size h (m, c) =
    Ret (false, (m, showing c (strip s ++ of_string ": file name too long" ++ [10]))).
Proof.
  intros Hlit Hs Hl Ht Hw Hd Hh. unfold ustar_make_header.
  run_by ltac:(apply assert_run, bool_decide_eq_true; destruct t; naive_solver).
  destruct (strip_run lit_at m Hlit p s Hs) as (q & Hq & Hqs & _).
  run_by ltac:(unfold on_mem; by rewrite Hq). run_by ltac:(unfold on_mem; by rewrite (strlen_run m q _ Hqs)).
  rewrite Z.gtb_ltb, (proj2 (Z.ltb_lt 99 _)) by lia.
  unfold printf. erewrite bind_run; [done|].
  apply (vprintf_spec m c Hw Hd Hh m); [done|apply printed_too_long; [done|lia]|].
  rewrite !length_app. cbn. lia.
Qed.

Definition long_name : string := String.concat "" (replicate 20 "longer").
Lemma ustar_make_header_refuses_witness :
  let m := ustar_mem long_name in
  let c := Console false true false 0 0 [] in
  ustar_make_header literal_at 2000 USTAR_REGULAR 1 4096 (m, c) =
    Ret (false, (m, showing c (of_string long_name ++ of_string ": file name too long" ++ [10]))).
Proof.
  intros m c. apply (ustar_make_header_refuses literal_at m c 2000 (of_string long_name) USTAR_REGULAR 1 4096);
    [by_evaluation|by_evaluation|by_evaluation|discriminate|by_evaluation|by_evaluation|reflexivity].
Defined.
