(* ===== verification/Directory.v ===== *)
(** * Directories: src/src/filesys/directory.c

    A directory is a file of entries of 20 bytes: the sector of an inode, a name and a flag.
    The file is reached through the operations of inode.c; what directory.c relies on is the
    class [InodeLayer].  A name is the list of the characters of the string, without the
    terminator; the contracts of [strcmp], [strlen] and [strlcpy] (CStringProofs) say what they
    do with it. *)
From S2P Require Import Prelude KList CString CStringProofs.

(** ** Files, as directories and open files see them

    [contents s i] is the data of the open inode [i], [openers s i] the number of its openers
    and [denied s i] how many of them have forbidden writes.  [inode_read_at] answers the bytes
    it stores in the buffer, and [inode_write_at] how many it wrote; neither extends a file.

    The laws are the documented behaviour of inode.c on a disk that can be read and with memory
    for its buffers: a read or write inside the file is complete, and opening the inode of a
    sector answers an inode or a null pointer.  They are stronger than what this copy of inode.c
    does: its reads go through cache.c, whose operations use pointers that were never
    initialised, and a sector past the end of the device panics in [block_read].  Theorems over
    this class say what the clients do with a layer that keeps its promises.  Inode.v models the
    other operations of inode.c themselves. *)
Class InodeLayer (S : Type) := {
  inode_read_at : addr → Z → Z → ST S bytes;
  inode_write_at : addr → bytes → Z → ST S Z;
  inode_open : Z → ST S addr;
  inode_reopen : addr → ST S addr;
  inode_remove : addr → ST S ();
  inode_close : addr → ST S ();
  inode_length : addr → ST S Z;
  inode_deny_write : addr → ST S ();
  inode_allow_write : addr → ST S ();

  contents : S → addr → option bytes;
  openers : S → addr → Z;
  denied : S → addr → Z;

  openers_nonneg s i : 0 ≤ openers s i;
  inode_read_law s i bs size ofs : contents s i = Some bs → 0 ≤ ofs →
    ∃ s', inode_read_at i size ofs s = Ret (take (Z.to_nat size) (drop (Z.to_nat ofs) bs), s') ∧
      (∀ j, contents s' j = contents s j) ∧ (∀ j, openers s' j = openers s j) ∧ (∀ j, denied s' j = denied s j);
  inode_write_law s i bs data ofs : contents s i = Some bs → 0 ≤ ofs →
    ∃ n s', inode_write_at i data ofs s = Ret (n, s') ∧
      n = (if decide (denied s i = 0) then Z.min (Z.of_nat (length data)) (Z.max 0 (Z.of_nat (length bs) - ofs)) else 0) ∧
      contents s' i = Some (take (Z.to_nat ofs) bs ++ take (Z.to_nat n) data ++ drop (Z.to_nat (ofs + n)) bs) ∧
      (∀ j, j ≠ i → contents s' j = contents s j) ∧ (∀ j, openers s' j = openers s j) ∧
      (∀ j, denied s' j = denied s j);
  inode_open_law s sector :
    ∃ i s', inode_open sector s = Ret (i, s') ∧
      (∀ j, 0 < openers s j → contents s' j = contents s j ∧ denied s' j = denied s j) ∧
      (∀ j, openers s' j = openers s j + (if decide (j = i ∧ i ≠ NULL) then 1 else 0)) ∧
      (i ≠ NULL → openers s i = 0 → denied s' i = 0) ∧
      (i ≠ NULL → ∃ bs, contents s' i = Some bs ∧ Z.of_nat (length bs) < 2 ^ 31);
  inode_reopen_law s i : i = NULL ∨ 0 < openers s i →
    ∃ s', inode_reopen i s = Ret (i, s') ∧
      (∀ j, contents s' j = contents s j) ∧ (∀ j, denied s' j = denied s j) ∧
      (∀ j, openers s' j = openers s j + (if decide (j = i ∧ i ≠ NULL) then 1 else 0));
  inode_remove_law s i : 0 < openers s i →
    ∃ s', inode_remove i s = Ret ((), s') ∧
      (∀ j, contents s' j = contents s j) ∧ (∀ j, openers s' j = openers s j) ∧ (∀ j, denied s' j = denied s j);
  inode_close_law s i : i = NULL ∨ 0 < openers s i →
    ∃ s', inode_close i s = Ret ((), s') ∧
      (∀ j, openers s' j = openers s j - (if decide (j = i ∧ i ≠ NULL) then 1 else 0)) ∧
      (∀ j, 0 < openers s' j → contents s' j = contents s j ∧ denied s' j = denied s j);
  inode_length_law s i bs : contents s i = Some bs → inode_length i s = Ret (Z.of_nat (length bs), s);
  inode_deny_law s i : 0 ≤ denied s i < openers s i →
    ∃ s', inode_deny_write i s = Ret ((), s') ∧
      (∀ j, contents s' j = contents s j) ∧ (∀ j, openers s' j = openers s j) ∧
      (∀ j, denied s' j = denied s j + (if decide (j = i) then 1 else 0));
  inode_allow_law s i : 0 < denied s i ≤ openers s i →
    ∃ s', inode_allow_write i s = Ret ((), s') ∧
      (∀ j, contents s' j = contents s j) ∧ (∀ j, openers s' j = openers s j) ∧
      (∀ j, denied s' j = denied s j - (if decide (j = i) then 1 else 0));
}.

(** ** Entries *)

Definition NAME_MAX : Z := 14.

Record dir_entry := DirEntry { inode_sector : Z; name : bytes; in_use : bool }.
(** [sizeof (struct dir_entry)] *)
Definition ENTRY_SIZE : Z := 20.

Definition le32 (w : Z) : bytes :=
  [w mod 256; w / 256 mod 256; w / 65536 mod 256; w / 16777216 mod 256].
Definition of_le32 (bs : bytes) : Z :=
  match bs with [a; b; c; d] => a + 256 * b + 65536 * c + 16777216 * d | _ => 0 end.

Definition encode (e : dir_entry) : bytes :=
  le32 (inode_sector e) ++ name e ++ [if in_use e then 1 else 0].
Definition decode (bs : bytes) : dir_entry :=
  DirEntry (of_le32 (take 4 bs)) (take 15 (drop 4 bs)) (negb (default 0 (bs !! 19%nat) =? 0)).

(** The string in a name field: the characters before the first terminator. *)
Definition c_string (bs : bytes) : bytes := take (span_of (λ c, negb (c =? 0)) bs) bs.
(** [strlcpy] into a field: the field keeps its bytes after the terminator. *)
Definition strlcpy_field (field s : bytes) : bytes :=
  let s := take (length field - 1) s in s ++ [0] ++ drop (length s + 1) field.

(** ** Operations *)

Section dir.
Context {S : Type} `{InodeLayer S}.

Record dir := Dir { dir_inode : addr; pos : Z }.

(** The loop of [lookup], from the entry at [ofs]; [fuel] bounds the entries of the file.  The
    string that [strcmp] reads at [e.name] begins in the name field and goes on into [in_use]
    when the field has no terminator; what follows the entry counts as a terminator, which
    matters only for an argument that agrees with all 16 bytes. *)
Fixpoint lookup_from (fuel : nat) (inode : addr) (nm : bytes) (ofs : Z) : ST S (option (dir_entry * Z)) :=
  match fuel with
  | O => λ _, NoFuel
  | Datatypes.S fuel =>
      bs ← inode_read_at inode ENTRY_SIZE ofs;
      if Z.of_nat (length bs) =? ENTRY_SIZE then
        let e := decode bs in
        if in_use e && bool_decide (str_order nm (c_string (drop 4 bs)) = 0) then mret (Some (e, ofs))
        else lookup_from fuel inode nm (ofs + ENTRY_SIZE)
      else mret None
  end.

(** A read of an entry at an offset that grows; the file has fewer than 2^31 bytes. *)
Definition entries_bound (s : S) (inode : addr) : nat :=
  Datatypes.S (Z.to_nat (Z.of_nat (length (default [] (contents s inode))) / ENTRY_SIZE)).

Definition lookup (d : dir) (nm : bytes) : ST S (option (dir_entry * Z)) := λ s,
  lookup_from (entries_bound s (dir_inode d)) (dir_inode d) nm 0 s.

Definition dir_lookup (d : dir) (nm : bytes) : ST S (bool * addr) :=
  r ← lookup d nm;
  inode ← match r with
          | Some (e, _) => inode_open (inode_sector e)
          | None => mret NULL
          end;
  mret (nonnull inode, inode).

(** The loop that looks for a free slot; it answers its offset and what [e] then holds. *)
Fixpoint free_slot_from (fuel : nat) (inode : addr) (e : dir_entry) (ofs : Z) : ST S (dir_entry * Z) :=
  match fuel with
  | O => λ _, NoFuel
  | Datatypes.S fuel =>
      bs ← inode_read_at inode ENTRY_SIZE ofs;
      if Z.of_nat (length bs) =? ENTRY_SIZE then
        let e := decode bs in
        if negb (in_use e) then mret (e, ofs)
        else free_slot_from fuel inode e (ofs + ENTRY_SIZE)
      else mret (e, ofs)
  end.

Definition free_slot (d : dir) (e : dir_entry) : ST S (dir_entry * Z) := λ s,
  free_slot_from (entries_bound s (dir_inode d)) (dir_inode d) e 0 s.

(** [e] is what the local variable holds before it is written. *)
Definition dir_add (d : dir) (nm : bytes) (sector : Z) (e : dir_entry) : ST S bool :=
  if bool_decide (nm = []) || (Z.of_nat (length nm) >? NAME_MAX) then mret false else
  r ← lookup d nm;
  match r with
  | Some _ => mret false
  | None =>
      '(e, ofs) ← free_slot d e;
      let e := DirEntry sector (strlcpy_field (name e) nm) true in
      n ← inode_write_at (dir_inode d) (encode e) ofs;
      mret (n =? ENTRY_SIZE)
  end.

Definition dir_remove (d : dir) (nm : bytes) : ST S bool :=
  r ← lookup d nm;
  match r with
  | None => inode_close NULL;; mret false
  | Some (e, ofs) =>
      inode ← inode_open (inode_sector e);
      if negb (nonnull inode) then inode_close inode;; mret false else
      n ← inode_write_at (dir_inode d) (encode (DirEntry (inode_sector e) (name e) false)) ofs;
      ok ← (if negb (n =? ENTRY_SIZE) then mret false else inode_remove inode;; mret true);
      inode_close inode;;
      mret ok
  end.

(** The name of the next entry in use, cut to [NAME_MAX] characters by [strlcpy], and the directory with its new position. *)
Fixpoint readdir_from (fuel : nat) (d : dir) : ST S (option bytes * dir) :=
  match fuel with
  | O => λ _, NoFuel
  | Datatypes.S fuel =>
      bs ← inode_read_at (dir_inode d) ENTRY_SIZE (pos d);
      if Z.of_nat (length bs) =? ENTRY_SIZE then
        let e := decode bs in
        let d := Dir (dir_inode d) (pos d + ENTRY_SIZE) in
        if in_use e then mret (Some (take (Z.to_nat NAME_MAX) (c_string (name e))), d) else readdir_from fuel d
      else mret (None, d)
  end.
Definition dir_readdir (d : dir) : ST S (option bytes * dir) := λ s,
  readdir_from (entries_bound s (dir_inode d)) d s.

(** [alloc] says whether [calloc] has memory. *)
Definition dir_open (inode : addr) (alloc : bool) : ST S (option dir) :=
  if nonnull inode && alloc then mret (Some (Dir inode 0))
  else inode_close inode;; mret None.
Definition ROOT_DIR_SECTOR : Z := 1.
Definition dir_open_root (alloc : bool) : ST S (option dir) :=
  i ← inode_open ROOT_DIR_SECTOR; dir_open i alloc.
Definition dir_reopen (d : dir) (alloc : bool) : ST S (option dir) :=
  i ← inode_reopen (dir_inode d); dir_open i alloc.
Definition dir_close (d : option dir) : ST S () :=
  match d with Some d => inode_close (dir_inode d) | None => mret () end.
Definition dir_get_inode (d : dir) : addr := dir_inode d.
End dir.
