(* ===== verification/DirectoryProofs.v ===== *)
(** * Directories: a directory is a finite map from names to sectors

    The file of a directory is a sequence of encoded entries; the map has the names of the
    entries in use.  The theorems hold for every implementation of [InodeLayer]. *)
From S2P Require Import Prelude KList CString CStringProofs Directory.

(** ** Encoding *)

Definition entry_ok (e : dir_entry) : Prop :=
  fits 32 (inode_sector e) ∧ length (name e) = 15%nat.

Lemma of_le32_le32 w : fits 32 w → of_le32 (le32 w) = w.
Proof.
  intros Hw. unfold fits in Hw. simpl.
  pose proof (Z.div_mod w 256 ltac:(lia)). pose proof (Z.div_mod (w / 256) 256 ltac:(lia)).
  pose proof (Z.div_mod (w / 65536) 256 ltac:(lia)).
  replace (w / 65536) with (w / 256 / 256) in * by (rewrite Z.div_div; done || lia).
  replace (w / 16777216) with (w / 256 / 256 / 256) by (rewrite !Z.div_div; done || lia).
  rewrite (Z.mod_small (w / 256 / 256 / 256)).
  - lia.
  - rewrite !Z.div_div by lia. split; [apply Z.div_pos; lia|apply Z.div_lt_upper_bound; lia].
Qed.

Lemma length_encode e : entry_ok e → length (encode e) = 20%nat.
Proof. intros [_ Hn]. unfold encode. rewrite !length_app, Hn. done. Qed.

Lemma decode_encode e : entry_ok e → decode (encode e) = e.
Proof.
  intros [Hs Hn]. unfold decode, encode. destruct e as [s n u]. cbn [inode_sector name in_use] in *.
  rewrite (take_app_length' (le32 s)), of_le32_le32 by done.
  rewrite (drop_app_length' (le32 s)), take_app_length' by done.
  rewrite (lookup_app_r (le32 s)), (lookup_app_r n), Hn by (rewrite ?Hn; simpl; lia). by destruct u.
Qed.

Definition file_of (es : list dir_entry) : bytes := concat (encode <$> es).

Lemma file_of_app es1 es2 : file_of (es1 ++ es2) = file_of es1 ++ file_of es2.
Proof. unfold file_of. by rewrite fmap_app, concat_app. Qed.

Lemma length_file_of es : Forall entry_ok es → length (file_of es) = (20 * length es)%nat.
Proof.
  induction 1 as [|e es He _ IH]; [done|]. change (file_of (e :: es)) with (encode e ++ file_of es).
  rewrite length_app, IH, length_encode by done. simpl. lia.
Qed.

(** The file around the entry with index [k]. *)
Lemma file_of_split es k e : es !! k = Some e → Forall entry_ok es →
  file_of es = file_of (take k es) ++ encode e ++ file_of (drop (S k) es) ∧
  length (file_of (take k es)) = (20 * k)%nat.
Proof.
  intros Hk Hok. split.
  - rewrite <-(take_drop_middle es k e Hk) at 1. rewrite file_of_app. done.
  - rewrite length_file_of by (by apply Forall_take). rewrite length_take.
    apply lookup_lt_Some in Hk. lia.
Qed.

(** ** Directories over an inode layer *)

Section proofs.
Context {S : Type} `{InodeLayer S}.
Implicit Types (s : S) (d : dir) (es : list dir_entry) (m : gmap bytes Z).

(** The entries of a directory. *)
Record dir_entries s d es : Prop := DirEntries {
  de_contents : contents s (dir_inode d) = Some (file_of es);
  de_writable : denied s (dir_inode d) = 0;
  de_ok : Forall entry_ok es;
}.

(** A state change that keeps the directory's file. *)
Lemma dir_entries_same s s' d es :
  contents s' (dir_inode d) = contents s (dir_inode d) ∧ denied s' (dir_inode d) = denied s (dir_inode d) →
  dir_entries s d es → dir_entries s' d es.
Proof. intros [Hc Hd] [H1 H2 H3]. split; [by rewrite Hc|by rewrite Hd|done]. Qed.

Definition same_files s s' : Prop :=
  (∀ j, contents s' j = contents s j) ∧ (∀ j, openers s' j = openers s j) ∧ (∀ j, denied s' j = denied s j).

Lemma same_files_trans s1 s2 s3 : same_files s1 s2 → same_files s2 s3 → same_files s1 s3.
Proof. intros (H1 & H2 & H3) (H4 & H5 & H6). split_and!; intros j; [by rewrite H4|by rewrite H5|by rewrite H6]. Qed.

Lemma same_files_entries s s' d es : same_files s s' → dir_entries s d es → dir_entries s' d es.
Proof. intros (Hc & _ & Hd). by apply dir_entries_same. Qed.

(** Reading the entry with index [k]. *)
Lemma read_entry s d es k : dir_entries s d es →
  ∃ s', inode_read_at (dir_inode d) ENTRY_SIZE (20 * Z.of_nat k) s =
      Ret (match es !! k with Some e => encode e | None => [] end, s') ∧ same_files s s'.
Proof.
  intros [Hc _ Hok]. destruct (inode_read_law s (dir_inode d) _ ENTRY_SIZE (20 * Z.of_nat k) Hc)
    as (s' & Hrun & Hsame); [lia|].
  exists s'. split; [|done]. rewrite Hrun. do 2 f_equal. unfold ENTRY_SIZE.
  replace (Z.to_nat (20 * Z.of_nat k)) with (20 * k)%nat by lia. change (Z.to_nat 20) with 20%nat.
  destruct (es !! k) as [e|] eqn:Hk.
  - destruct (file_of_split es k e Hk Hok) as [-> Hl]. rewrite drop_app_length' by done.
    rewrite take_app_length'; [done|]. symmetry. apply length_encode. rewrite Forall_lookup in Hok. by eapply Hok.
  - apply lookup_ge_None in Hk. rewrite drop_ge; [done|]. rewrite length_file_of by done. lia.
Qed.

Lemma entries_bound_enough s d es : dir_entries s d es →
  entries_bound s (dir_inode d) = Datatypes.S (length es).
Proof.
  intros [Hc _ Hok]. unfold entries_bound. rewrite Hc. simpl. rewrite length_file_of by done.
  replace (Z.of_nat (20 * length es)) with (Z.of_nat (length es) * 20) by lia.
  unfold ENTRY_SIZE. rewrite Z.div_mul by done. by rewrite Nat2Z.id.
Qed.

(** The string at [e.name], which goes on into [in_use] when the field has no terminator. *)
Definition entry_name (e : dir_entry) : bytes := c_string (name e ++ [if in_use e then 1 else 0]).

Lemma entry_name_encode e : c_string (drop 4 (encode e)) = entry_name e.
Proof. unfold encode. by rewrite drop_app_length'. Qed.

(** An entry with the name [nm]. *)
Definition has_name (nm : bytes) (e : dir_entry) : Prop := in_use e = true ∧ entry_name e = nm.
#[local] Instance has_name_dec nm e : Decision (has_name nm e).
Proof. unfold has_name. apply _. Defined.

Lemma has_name_test nm e : in_use e && bool_decide (str_order nm (entry_name e) = 0) = bool_decide (has_name nm e).
Proof.
  rewrite (bool_decide_ext (str_order nm (entry_name e) = 0) (entry_name e = nm)).
  - apply eq_bool_prop_intro. rewrite andb_True, !bool_decide_spec. unfold has_name.
    destruct (in_use e); naive_solver.
  - rewrite str_order_eq. naive_solver.
Qed.

(** The first entry with a property, as the loops of the code look for it. *)
Definition first_with (P : dir_entry → Prop) es k e : Prop :=
  es !! k = Some e ∧ P e ∧ ∀ j e', (j < k)%nat → es !! j = Some e' → ¬ P e'.

Lemma lookup_from_spec nm es : ∀ n s d k, dir_entries s d es → (length es = n + k)%nat →
  (∀ j e, (j < k)%nat → es !! j = Some e → ¬ has_name nm e) →
  ∃ r s', lookup_from (Datatypes.S n) (dir_inode d) nm (20 * Z.of_nat k) s = Ret (r, s') ∧ same_files s s' ∧
    match r with
    | Some (e, ofs) => ∃ k', ofs = 20 * Z.of_nat k' ∧ first_with (has_name nm) es k' e
    | None => ∀ e, e ∈ es → ¬ has_name nm e
    end.
Proof.
  induction n as [|n IH]; intros s d k Hd Hlen Hbefore; cbn [lookup_from];
    destruct (read_entry s d es k Hd) as (s1 & Hrun & Hsame); rewrite (bind_run _ _ _ _ _ Hrun).
  - rewrite (lookup_ge_None_2 es k) by lia. cbn [length]. change (Z.of_nat 0 =? ENTRY_SIZE) with false. cbv iota.
    exists None, s1. split_and!; [done..|]. intros e [j Hj]%list_elem_of_lookup.
    apply (Hbefore j); [|done]. apply lookup_lt_Some in Hj. lia.
  - destruct (lookup_lt_is_Some_2 es k) as [e He]; [lia|]. rewrite He.
    assert (entry_ok e) as Hok by (destruct Hd as [_ _ Hok]; rewrite Forall_lookup in Hok; by eapply Hok).
    rewrite (length_encode e Hok). change (Z.of_nat 20 =? ENTRY_SIZE) with true. cbv iota zeta.
    rewrite (decode_encode e Hok), entry_name_encode, has_name_test. case_bool_decide as Hname.
    + exists (Some (e, 20 * Z.of_nat k)), s1. split_and!; [done..|]. exists k. by split_and!.
    + assert (dir_entries s1 d es) as Hd1 by (by eapply same_files_entries).
      replace (20 * Z.of_nat k + ENTRY_SIZE) with (20 * Z.of_nat (Datatypes.S k)) by (unfold ENTRY_SIZE; lia).
      destruct (IH s1 d (Datatypes.S k) Hd1) as (r & s2 & Hrun2 & Hsame2 & Hr); [lia| |].
      { intros j e' Hj He'. destruct (decide (j = k)) as [->|]; [by simplify_eq|]. apply (Hbefore j); [lia|done]. }
      exists r, s2. split; [done|]. split; [by eapply same_files_trans|done].
Qed.

Lemma lookup_spec s d es nm : dir_entries s d es →
  ∃ r s', lookup d nm s = Ret (r, s') ∧ same_files s s' ∧
    match r with
    | Some (e, ofs) => ∃ k, ofs = 20 * Z.of_nat k ∧ first_with (has_name nm) es k e
    | None => ∀ e, e ∈ es → ¬ has_name nm e
    end.
Proof.
  intros Hd. unfold lookup. rewrite (entries_bound_enough s d es Hd).
  apply (lookup_from_spec nm es (length es) s d 0); [done|lia|]. intros j e Hj. lia.
Qed.

Lemma free_slot_from_spec es : ∀ n s d k e0, dir_entries s d es → (length es = n + k)%nat → entry_ok e0 →
  (∀ j e, (j < k)%nat → es !! j = Some e → in_use e = true) →
  ∃ e k' s', free_slot_from (Datatypes.S n) (dir_inode d) e0 (20 * Z.of_nat k) s = Ret ((e, 20 * Z.of_nat k'), s') ∧
    same_files s s' ∧ entry_ok e ∧ (k' ≤ length es)%nat ∧
    (∀ j e, (j < k')%nat → es !! j = Some e → in_use e = true) ∧
    (∀ e, es !! k' = Some e → in_use e = false).
Proof.
  induction n as [|n IH]; intros s d k e0 Hd Hlen He0 Hbefore; cbn [free_slot_from];
    destruct (read_entry s d es k Hd) as (s1 & Hrun & Hsame); rewrite (bind_run _ _ _ _ _ Hrun).
  - rewrite (lookup_ge_None_2 es k) by lia. cbn [length]. change (Z.of_nat 0 =? ENTRY_SIZE) with false. cbv iota.
    exists e0, k, s1. split_and!; [done..|lia|done|]. intros e He. apply lookup_lt_Some in He. lia.
  - destruct (lookup_lt_is_Some_2 es k) as [e He]; [lia|]. rewrite He.
    assert (entry_ok e) as Hok by (destruct Hd as [_ _ Hok]; rewrite Forall_lookup in Hok; by eapply Hok).
    rewrite (length_encode e Hok). change (Z.of_nat 20 =? ENTRY_SIZE) with true. cbv iota zeta.
    rewrite (decode_encode e Hok). destruct (in_use e) eqn:Hu; cbn [negb].
    + assert (dir_entries s1 d es) as Hd1 by (by eapply same_files_entries).
      replace (20 * Z.of_nat k + ENTRY_SIZE) with (20 * Z.of_nat (Datatypes.S k)) by (unfold ENTRY_SIZE; lia).
      destruct (IH s1 d (Datatypes.S k) e Hd1) as (e' & k' & s2 & Hrun2 & Hsame2 & Hr); [lia|done| |].
      { intros j e' Hj He'. destruct (decide (j = k)) as [->|]; [by simplify_eq|]. apply (Hbefore j); [lia|done]. }
      exists e', k', s2. split; [done|]. split; [by eapply same_files_trans|done].
    + exists e, k, s1. split_and!; [done..|lia|done|]. intros e' He'. by simplify_eq.
Qed.

(** Writing an entry over the one with index [k], or at the end of the file. *)
Lemma write_entry s d es k e : dir_entries s d es → entry_ok e → (k ≤ length es)%nat →
  ∃ s', inode_write_at (dir_inode d) (encode e) (20 * Z.of_nat k) s =
      Ret (if decide (k < length es)%nat then ENTRY_SIZE else 0, s') ∧
    dir_entries s' d (<[k := e]> es) ∧
    (∀ j, j ≠ dir_inode d → contents s' j = contents s j) ∧ (∀ j, openers s' j = openers s j) ∧
    (∀ j, denied s' j = denied s j).
Proof.
  intros [Hc Hw Hok] He Hk.
  destruct (inode_write_law s (dir_inode d) _ (encode e) (20 * Z.of_nat k) Hc ltac:(lia))
    as (n & s' & Hrun & Hn & Hc' & Hsame).
  rewrite decide_True in Hn by done. pose proof (proj2 (proj2 Hsame) (dir_inode d)) as Hw'.
  rewrite length_encode, length_file_of in Hn by done. exists s'. split; [|split; [|done]].
  - rewrite Hrun. do 2 f_equal. unfold ENTRY_SIZE. case_decide; lia.
  - split; [|by rewrite Hw'|by apply Forall_insert].
    rewrite Hc'. f_equal. replace (Z.to_nat (20 * Z.of_nat k)) with (20 * k)%nat by lia.
    destruct (decide (k < length es)%nat) as [Hlt|Hge].
    + assert (n = 20) as -> by lia. destruct (lookup_lt_is_Some_2 es k Hlt) as [e0 He0].
      destruct (file_of_split es k e0 He0 Hok) as [Hf Hl]. rewrite Hf.
      rewrite (take_app_length' (file_of (take k es))) by done.
      rewrite (take_ge (encode e)) by (rewrite length_encode by done; lia).
      replace (Z.to_nat (20 * Z.of_nat k + 20)) with (20 * k + 20)%nat by lia.
      rewrite <-drop_drop, (drop_app_length' (file_of (take k es))) by done.
      assert (length (encode e0) = 20%nat) as Hl0 by (apply length_encode; rewrite Forall_lookup in Hok; by eapply Hok).
      rewrite drop_app_length' by done. rewrite (insert_take_drop es k e Hlt), file_of_app. done.
    + assert (n = 0) as -> by lia. simpl. rewrite list_insert_ge by lia.
      rewrite take_ge, drop_ge, app_nil_r by (rewrite length_file_of by done; lia). done.
Qed.

(** ** The map *)

(** [m] has the names in use; no two entries in use have the same name. *)
Record dir_rep s d m : Prop := DirRep {
  dr_entries : ∃ es, dir_entries s d es ∧
    (∀ nm sec, m !! nm = Some sec ↔ ∃ e, e ∈ es ∧ has_name nm e ∧ inode_sector e = sec) ∧
    (∀ i j e e', es !! i = Some e → es !! j = Some e' → in_use e = true → in_use e' = true →
       entry_name e = entry_name e' → i = j);
}.

(** A name that an entry can hold. *)
Definition valid_name (nm : bytes) : Prop :=
  nm ≠ [] ∧ Z.of_nat (length nm) ≤ NAME_MAX ∧ Forall (λ c, c ≠ 0) nm.

Lemma c_string_field field nm tail : (length nm < length field)%nat → Forall (λ c, c ≠ 0) nm →
  c_string (strlcpy_field field nm ++ tail) = nm ∧ length (strlcpy_field field nm) = length field.
Proof.
  intros Hl Hc. unfold c_string, strlcpy_field. rewrite (take_ge nm) by lia. split.
  - rewrite <-!app_assoc, span_of_app by (eapply Forall_impl; [exact Hc|]; intros c Hc0; by apply negb_true_iff, Z.eqb_neq).
    change ([0] ++ drop (length nm + 1) field ++ tail) with (0 :: drop (length nm + 1) field ++ tail).
    rewrite span_of_cons. cbn [Z.eqb negb]. rewrite Nat.add_0_r, take_app_length. done.
  - rewrite !length_app, length_drop. simpl. lia.
Qed.

(** Replacing the entry with index [k], which is not in use or has the same name, changes the
    map at one name. *)
Lemma rep_insert s s' d m es k e0 nm sec fld : dir_entries s d es →
  (∀ nm sec, m !! nm = Some sec ↔ ∃ e, e ∈ es ∧ has_name nm e ∧ inode_sector e = sec) →
  (∀ i j e e', es !! i = Some e → es !! j = Some e' → in_use e = true → in_use e' = true →
     entry_name e = entry_name e' → i = j) →
  es !! k = Some e0 → in_use e0 = false → m !! nm = None → entry_name (DirEntry sec fld true) = nm →
  dir_entries s' d (<[k := DirEntry sec fld true]> es) →
  dir_rep s' d (<[nm := sec]> m).
Proof.
  intros Hd Hm Huniq Hk Hfree Hnew Hfld Hd'. pose proof (lookup_lt_Some _ _ _ Hk) as Hlt.
  assert (∀ e, e ∈ <[k := DirEntry sec fld true]> es ↔ e = DirEntry sec fld true ∨ ∃ j, j ≠ k ∧ es !! j = Some e) as Hin.
  { intros e. rewrite list_elem_of_lookup. split.
    - intros [j Hj]. apply list_lookup_insert_Some in Hj as [(-> & <- & _)|[Hne Hj]]; [by left|right; eauto].
    - intros [->|(j & Hne & Hj)]; [exists k; by apply list_lookup_insert_eq|].
      exists j. by rewrite list_lookup_insert_ne. }
  constructor. exists (<[k := DirEntry sec fld true]> es). split; [done|]. split.
  - intros nm' sec'. rewrite lookup_insert_Some. split.
    + intros [[<- <-]|[Hne Hl]].
      * exists (DirEntry sec fld true). split; [apply Hin; by left|]. by split.
      * apply Hm in Hl as (e & [j Hj]%list_elem_of_lookup & Hn & Hs). exists e. split; [|done].
        apply Hin. right. exists j. split; [|done]. intros ->. simplify_eq. destruct Hn. congruence.
    + intros (e & [->|(j & Hne & Hj)]%Hin & [Hu Hn] & Hs); [left; simpl in *; by rewrite <-Hfld|].
      right. assert (m !! nm' = Some sec') as Hl.
      { apply Hm. exists e. split; [by eapply list_elem_of_lookup_2|]. by split. }
      split; [|done]. intros <-. congruence.
  - intros i j e e' Hi Hj Hu Hu' Heq.
    apply list_lookup_insert_Some in Hi as [(<- & <- & _)|[Hni Hi]];
      apply list_lookup_insert_Some in Hj as [(<- & <- & _)|[Hnj Hj]]; [done| | |by eapply Huniq].
    + simpl in Heq. exfalso. rewrite Hfld in Heq.
      assert (m !! nm = Some (inode_sector e')) as Hl; [|congruence].
      apply Hm. exists e'. split; [by eapply list_elem_of_lookup_2|]. by split.
    + simpl in Heq. exfalso. rewrite Hfld in Heq.
      assert (m !! nm = Some (inode_sector e)) as Hl; [|congruence].
      apply Hm. exists e. split; [by eapply list_elem_of_lookup_2|]. by split.
Qed.

Lemma rep_delete s s' d m es k e0 nm : dir_entries s d es →
  (∀ nm sec, m !! nm = Some sec ↔ ∃ e, e ∈ es ∧ has_name nm e ∧ inode_sector e = sec) →
  (∀ i j e e', es !! i = Some e → es !! j = Some e' → in_use e = true → in_use e' = true →
     entry_name e = entry_name e' → i = j) →
  es !! k = Some e0 → has_name nm e0 →
  dir_entries s' d (<[k := DirEntry (inode_sector e0) (name e0) false]> es) →
  dir_rep s' d (delete nm m).
Proof.
  intros Hd Hm Huniq Hk [Hu0 Hn0] Hd'. pose proof (lookup_lt_Some _ _ _ Hk) as Hlt.
  constructor. eexists. split; [exact Hd'|]. split.
  - intros nm' sec'. rewrite lookup_delete_Some. split.
    + intros [Hne Hl]. apply Hm in Hl as (e & [j Hj]%list_elem_of_lookup & Hn & Hs). exists e. split; [|done].
      apply list_elem_of_lookup. exists j. rewrite list_lookup_insert_ne; [done|].
      intros <-. simplify_eq. destruct Hn. congruence.
    + intros (e & [j Hj]%list_elem_of_lookup & [Hu Hn] & Hs).
      apply list_lookup_insert_Some in Hj as [(<- & <- & _)|[Hnj Hj]]; [done|]. split.
      * intros <-. apply Hnj. eapply Huniq; [exact Hk|exact Hj|done..|congruence].
      * apply Hm. exists e. split; [by eapply list_elem_of_lookup_2|]. by split.
  - intros i j e e' Hi Hj Hu Hu' Heq.
    apply list_lookup_insert_Some in Hi as [(<- & <- & _)|[Hni Hi]]; [done|].
    apply list_lookup_insert_Some in Hj as [(<- & <- & _)|[Hnj Hj]]; [done|]. by eapply Huniq.
Qed.

(** ** The operations on the map *)

Lemma dir_rep_same s s' d m :
  contents s' (dir_inode d) = contents s (dir_inode d) ∧ denied s' (dir_inode d) = denied s (dir_inode d) →
  dir_rep s d m → dir_rep s' d m.
Proof. intros Hc [(es & Hd & Hm)]. constructor. exists es. split; [by eapply dir_entries_same|done]. Qed.

Lemma lookup_map s d m nm : dir_rep s d m →
  ∃ r s', lookup d nm s = Ret (r, s') ∧ same_files s s' ∧ m !! nm = (λ x, inode_sector x.1) <$> r.
Proof.
  intros [(es & Hd & Hm & Huniq)]. destruct (lookup_spec s d es nm Hd) as (r & s' & Hrun & Hsame & Hr).
  exists r, s'. split_and!; [done..|]. destruct r as [[e ofs]|]; simpl.
  - destruct Hr as (k & _ & Hk & Hn & _). apply Hm. exists e. split; [by eapply list_elem_of_lookup_2|done].
  - destruct (m !! nm) as [sec|] eqn:E; [|done]. apply Hm in E as (e & He & Hn & _). by destruct (Hr e He).
Qed.

Lemma dir_add_spec s d m nm sec e : dir_rep s d m → fits 32 sec → entry_ok e → Forall (λ c, c ≠ 0) nm →
  ∃ ok s', dir_add d nm sec e s = Ret (ok, s') ∧
    (∀ j, j ≠ dir_inode d → contents s' j = contents s j) ∧ (∀ j, openers s' j = openers s j) ∧
    if (ok : bool) then valid_name nm ∧ m !! nm = None ∧ dir_rep s' d (<[nm := sec]> m)
    else dir_rep s' d m ∧ (valid_name nm → m !! nm = None →
           ∃ es, dir_entries s d es ∧ ∀ e, e ∈ es → in_use e = true).
Proof.
  intros Hrep Hsec He Hc. unfold dir_add.
  destruct (bool_decide (nm = []) || (Z.of_nat (length nm) >? NAME_MAX)) eqn:Hv.
  { exists false, s. split_and!; [done..|]. intros (Hne & Hl & _). rewrite bool_decide_false in Hv by done.
    simpl in Hv. rewrite Z.gtb_ltb in Hv. apply Z.ltb_lt in Hv. lia. }
  apply orb_false_iff in Hv as [Hne%bool_decide_eq_false Hl]. rewrite Z.gtb_ltb in Hl. apply Z.ltb_ge in Hl.
  destruct Hrep as [(es & Hd & Hm & Huniq)].
  destruct (lookup_spec s d es nm Hd) as (r & s1 & Hrun & Hsame1 & Hr). rewrite (bind_run _ _ _ _ _ Hrun).
  pose proof Hsame1 as (Hs1 & Ho1 & Hw1). assert (dir_entries s1 d es) as Hd1 by (by eapply same_files_entries).
  destruct r as [[e1 ofs]|].
  { exists false, s1. split_and!; [done..| |].
    - constructor. by exists es.
    - intros _ Hnone. destruct Hr as (k & _ & Hk & Hn & _). exfalso.
      assert (m !! nm = Some (inode_sector e1)); [|congruence].
      apply Hm. exists e1. split; [by eapply list_elem_of_lookup_2|done]. }
  assert (m !! nm = None) as Hnone.
  { destruct (m !! nm) as [x|] eqn:E; [|done]. apply Hm in E as (e' & He' & Hn & _). by destruct (Hr e' He'). }
  assert (free_slot d e s1 = free_slot_from (Datatypes.S (length es)) (dir_inode d) e (20 * Z.of_nat 0) s1) as Hfs.
  { unfold free_slot. by rewrite (entries_bound_enough s1 d es Hd1). }
  destruct (free_slot_from_spec es (length es) s1 d 0%nat e Hd1) as (e2 & k & s2 & Hrun2 & Hsame2 & He2 & Hk & Hused & Hfree);
    [lia|done|intros; lia|].
  rewrite <-Hfs in Hrun2. rewrite (bind_run _ _ _ _ _ Hrun2). cbv beta iota zeta.
  pose proof Hsame2 as (Hs2 & Ho2 & _). assert (dir_entries s2 d es) as Hd2 by (by eapply same_files_entries).
  unfold NAME_MAX in Hl. pose proof (proj2 He2) as Hlen.
  destruct (c_string_field (name e2) nm [1] ltac:(lia) Hc) as [Hcs Hcl].
  set (e3 := DirEntry sec (strlcpy_field (name e2) nm) true).
  assert (entry_ok e3) as He3 by (split; [done|]; simpl; lia).
  destruct (write_entry s2 d es k e3 Hd2 He3 Hk) as (s3 & Hrun3 & Hd3 & Hs3 & Ho3 & _).
  rewrite (bind_run _ _ _ _ _ Hrun3). case_decide as Hlt.
  - exists true, s3. split; [done|]. split; [intros j Hj; by rewrite Hs3, Hs2, Hs1|].
    split; [intros j; by rewrite Ho3, Ho2, Ho1|]. split; [done|]. split; [done|].
    destruct (lookup_lt_is_Some_2 es k Hlt) as [e0 He0].
    eapply (rep_insert s2); [done..|by apply Hfree|done|exact Hcs|exact Hd3].
  - exists false, s3. split; [done|]. split; [intros j Hj; by rewrite Hs3, Hs2, Hs1|].
    split; [intros j; by rewrite Ho3, Ho2, Ho1|]. rewrite list_insert_ge in Hd3 by lia. split.
    + constructor. by exists es.
    + intros _ _. exists es. split; [done|]. intros e' [j Hj]%list_elem_of_lookup.
      apply (Hused j); [|done]. apply lookup_lt_Some in Hj. lia.
Qed.

Lemma dir_remove_spec s d m nm : dir_rep s d m → 0 < openers s (dir_inode d) →
  ∃ ok s', dir_remove d nm s = Ret (ok, s') ∧ (∀ j, openers s' j = openers s j) ∧
    (∀ j, j ≠ dir_inode d → 0 < openers s j → contents s' j = contents s j) ∧
    if (ok : bool) then is_Some (m !! nm) ∧ dir_rep s' d (delete nm m)
    else dir_rep s' d m ∧ (m !! nm = None ∨ ∃ s1 s2 sec, m !! nm = Some sec ∧ same_files s s1 ∧
           inode_open sec s1 = Ret (NULL, s2)).
Proof.
  intros Hrep Hop. unfold dir_remove. pose proof Hrep as [(es & Hd & Hm & Huniq)].
  destruct (lookup_spec s d es nm Hd) as (r & s1 & Hrun & Hsame1 & Hr). rewrite (bind_run _ _ _ _ _ Hrun).
  pose proof Hsame1 as (Hs1 & Ho1 & Hw1). assert (dir_entries s1 d es) as Hd1 by (by eapply same_files_entries).
  destruct r as [[e ofs]|].
  2: { destruct (inode_close_law s1 NULL) as (s2 & Hrun2 & Ho2 & Hs2); [by left|].
    rewrite (bind_run _ _ _ _ _ Hrun2).
    assert (∀ j, openers s2 j = openers s j) as Ho.
    { intros j. rewrite Ho2, Ho1. rewrite decide_False by naive_solver. lia. }
    exists false, s2. split; [done|]. split; [done|]. split; [intros j _ Hj; destruct (Hs2 j) as [-> _]; [by rewrite Ho|by rewrite Hs1]|]. split.
    - eapply dir_rep_same; [|exact Hrep]. destruct (Hs2 (dir_inode d)) as [-> ->]; [by rewrite Ho|done].
    - left. destruct (m !! nm) as [x|] eqn:E; [|done]. apply Hm in E as (e' & He' & Hn & _). by destruct (Hr e' He'). }
  destruct Hr as (k & -> & Hk & Hn & _).
  assert (m !! nm = Some (inode_sector e)) as Hmn.
  { apply Hm. exists e. split; [by eapply list_elem_of_lookup_2|done]. }
  destruct (inode_open_law s1 (inode_sector e)) as (i & s2 & Hrun2 & Hs2 & Ho2 & _). rewrite (bind_run _ _ _ _ _ Hrun2).
  assert (dir_entries s2 d es) as Hd2.
  { eapply dir_entries_same; [|exact Hd1]. apply Hs2. by rewrite Ho1. }
  destruct (decide (i = NULL)) as [->|Hi].
  { destruct (inode_close_law s2 NULL) as (s3 & Hrun3 & Ho3 & Hs3); [by left|].
    cbn [negb nonnull]. change (nonnull NULL) with false. cbn [negb]. rewrite (bind_run _ _ _ _ _ Hrun3).
    assert (∀ j, openers s3 j = openers s j) as Ho.
    { intros j. rewrite Ho3, Ho2, Ho1. rewrite !decide_False by naive_solver. lia. }
    assert (∀ j, 0 < openers s j → contents s3 j = contents s j ∧ denied s3 j = denied s j) as Hc.
    { intros j Hj. destruct (Hs3 j) as [-> ->]; [by rewrite Ho|]. destruct (Hs2 j) as [-> ->]; by rewrite ?Ho1. }
    exists false, s3. split; [done|]. split; [done|]. split; [intros j _ Hj; by apply Hc|]. split.
    - eapply dir_rep_same; [|exact Hrep]. by apply Hc.
    - right. exists s1, s2, (inode_sector e). by split_and!. }
  rewrite (nonnull_true i) by done. cbn [negb].
  assert (entry_ok (DirEntry (inode_sector e) (name e) false)) as Hok.
  { destruct Hd as [_ _ Hok]. rewrite Forall_lookup in Hok. destruct (Hok _ _ Hk). by split. }
  pose proof (lookup_lt_Some _ _ _ Hk) as Hlt.
  destruct (write_entry s2 d es k _ Hd2 Hok ltac:(lia)) as (s3 & Hrun3 & Hd3 & Hs3 & Ho3 & Hw3).
  rewrite (bind_run _ _ _ _ _ Hrun3), decide_True by done. change (ENTRY_SIZE =? ENTRY_SIZE) with true. cbn [negb].
  assert (openers s3 i = openers s i + 1) as Hoi.
  { rewrite Ho3, Ho2, Ho1, decide_True by done. done. }
  assert (0 < openers s3 i) as Hoi0 by (pose proof (openers_nonneg s i); lia).
  destruct (inode_remove_law s3 i Hoi0) as (s4 & Hrun4 & Hs4 & Ho4 & Hw4).
  destruct (inode_close_law s4 i) as (s5 & Hrun5 & Ho5 & Hs5); [right; by rewrite Ho4|].
  assert (∀ j, openers s5 j = openers s j) as Ho.
  { intros j. rewrite Ho5, Ho4, Ho3, Ho2, Ho1. case_decide; lia. }
  exists true, s5. split; [|split; [done|split; [|split; [done|]]]].
  - erewrite bind_run; [|by erewrite bind_run]. cbv beta. by rewrite (bind_run _ _ _ _ _ Hrun5).
  - intros j Hne Hj. destruct (Hs5 j) as [-> _]; [by rewrite Ho|]. rewrite Hs4, Hs3 by done.
    destruct (Hs2 j) as [-> _]; by rewrite ?Ho1.
  - eapply (rep_delete s2); [done..|exact Hn|].
    eapply dir_entries_same; [|exact Hd3]. destruct (Hs5 (dir_inode d)) as [-> ->]; [by rewrite Ho|]. by rewrite Hs4, Hw4.
Qed.
End proofs.

(** ** An inode layer in memory

    The inode of sector [n] is at [n + 1]; files are lists of bytes with a count of openers and
    a count of the openers that deny writes. *)
Record ram_file := RamFile { rf_data : bytes; rf_open : nat; rf_deny : nat }.
Abbreviation ram_fs := (gmap addr ram_file).

Definition ram_at (s : ram_fs) (i : addr) : ram_file := default (RamFile [] 0 0) (s !! i).
Definition ram_read (i : addr) (size ofs : Z) : ST ram_fs bytes := λ s,
  Ret (take (Z.to_nat size) (drop (Z.to_nat ofs) (rf_data (ram_at s i))), s).
Definition ram_write (i : addr) (data : bytes) (ofs : Z) : ST ram_fs Z := λ s,
  let f := ram_at s i in
  let n := if decide (Z.of_nat (rf_deny f) = 0) then
      Z.min (Z.of_nat (length data)) (Z.max 0 (Z.of_nat (length (rf_data f)) - ofs)) else 0 in
  Ret (n, <[i := RamFile (take (Z.to_nat ofs) (rf_data f) ++ take (Z.to_nat n) data ++ drop (Z.to_nat (ofs + n)) (rf_data f))
                   (rf_open f) (rf_deny f)]> s).
Definition ram_update (f : ram_file → ram_file) (i : addr) : ST ram_fs () := λ s, Ret ((), <[i := f (ram_at s i)]> s).
Definition ram_reopen (i : addr) : ST ram_fs addr :=
  if decide (i = NULL) then mret i
  else ram_update (λ f, RamFile (rf_data f) (S (rf_open f)) (rf_deny f)) i;; mret i.
Definition ram_open (sector : Z) : ST ram_fs addr := λ s,
  let i := sector + 1 in
  if decide (i = NULL ∨ 2 ^ 31 ≤ Z.of_nat (length (rf_data (ram_at s i)))) then Ret (NULL, s)
  else (ram_update (λ f, RamFile (rf_data f) (S (rf_open f)) (if decide (rf_open f = 0%nat) then 0 else rf_deny f)) i;; mret i) s.
Definition ram_close (i : addr) : ST ram_fs () :=
  if decide (i = NULL) then mret ()
  else ram_update (λ f, RamFile (rf_data f) (pred (rf_open f)) (rf_deny f)) i.

Lemma ram_at_data s i bs : rf_data <$> s !! i = Some bs → rf_data (ram_at s i) = bs.
Proof. unfold ram_at. by intros (f & -> & ->)%fmap_Some. Qed.

Lemma ram_at_insert s i f j : ram_at (<[i := f]> s) j = if decide (i = j) then f else ram_at s j.
Proof. unfold ram_at. rewrite lookup_insert. by case_decide. Qed.

(** An update that keeps the data keeps the contents of files that are open. *)
Lemma ram_contents_same s i (f : ram_file) j : rf_data f = rf_data (ram_at s i) →
  0 < Z.of_nat (rf_open (ram_at s i)) → rf_data <$> <[i := f]> s !! j = rf_data <$> s !! j.
Proof.
  intros Hf Hi. rewrite lookup_insert. case_decide; [subst|done]. cbn. rewrite Hf. unfold ram_at in *.
  by destruct (s !! j); [|simpl in Hi; lia].
Qed.

#[global, program] Instance ram_layer : InodeLayer ram_fs := {
  inode_read_at := ram_read;
  inode_write_at := ram_write;
  inode_open := ram_open;
  inode_reopen := ram_reopen;
  inode_remove _ := mret ();
  inode_close := ram_close;
  inode_length i := gets (λ s, Z.of_nat (length (rf_data (ram_at s i))));
  inode_deny_write := ram_update (λ f, RamFile (rf_data f) (rf_open f) (S (rf_deny f)));
  inode_allow_write := ram_update (λ f, RamFile (rf_data f) (rf_open f) (pred (rf_deny f)));
  contents s i := rf_data <$> s !! i;
  openers s i := Z.of_nat (rf_open (ram_at s i));
  denied s i := Z.of_nat (rf_deny (ram_at s i));
}.
Next Obligation. intros s i. apply Nat2Z.is_nonneg. Qed.
Next Obligation. intros s i bs size ofs Hc _. exists s. unfold ram_read. by rewrite (ram_at_data s i bs Hc). Qed.
Next Obligation.
  intros s i bs data ofs Hc _. unfold ram_write. cbv zeta. rewrite (ram_at_data s i bs Hc). do 2 eexists.
  split; [done|]. split; [done|]. split; [by rewrite lookup_insert_eq|].
  split; [intros j Hj; by rewrite lookup_insert_ne|]. split; intros j; rewrite ram_at_insert; by case_decide; subst.
Qed.
Next Obligation.
  intros s sector. unfold ram_open. cbv zeta. case_decide as E; do 2 eexists; (split; [done|]).
  - split; [done|]. split; [intros j; rewrite decide_False by naive_solver; lia|done].
  - split; [|split; [|split]].
    + intros j Hj. split.
      * rewrite lookup_insert. case_decide; [subst|done]. cbn. unfold ram_at in *. by destruct (s !! _); [|simpl in Hj; lia].
      * rewrite ram_at_insert. case_decide; [subst|done]. simpl. case_decide; [lia|done].
    + intros j. rewrite ram_at_insert. repeat case_decide; subst; simpl; naive_solver lia.
    + intros _ H0. rewrite ram_at_insert, decide_True by done. simpl. case_decide; [done|lia].
    + intros _. exists (rf_data (ram_at s (sector + 1))). rewrite lookup_insert_eq. split; [done|]. lia.
Qed.
Next Obligation.
  intros s i Hi. unfold ram_reopen. case_decide as E; eexists; (split; [done|]).
  - do 2 (split; [done|]). intros j. rewrite decide_False by naive_solver. lia.
  - destruct Hi as [|Hi]; [done|].
    split; [|split]; intros j.
    + apply (ram_contents_same s i); [done|]. simpl. lia.
    + rewrite ram_at_insert. by case_decide; subst.
    + rewrite ram_at_insert. repeat case_decide; subst; simpl; naive_solver lia.
Qed.
Next Obligation. intros s i _. by exists s. Qed.
Next Obligation.
  intros s i Hi. unfold ram_close. case_decide as E; eexists; (split; [done|]).
  - split; [|done]. intros j. rewrite decide_False by naive_solver. lia.
  - destruct Hi as [|Hi]; [done|]. split; intros j.
    + rewrite ram_at_insert. repeat case_decide; subst; simpl; naive_solver lia.
    + intros _. split; [apply (ram_contents_same s i); [done|lia]|]. rewrite ram_at_insert. by case_decide; subst.
Qed.
Next Obligation. intros s i bs Hc. unfold gets. by rewrite (ram_at_data s i bs Hc). Qed.
Next Obligation.
  intros s i Hi. eexists. split; [done|]. split; [|split]; intros j.
  - apply (ram_contents_same s i); [done|lia].
  - rewrite ram_at_insert. by case_decide; subst.
  - rewrite ram_at_insert. repeat case_decide; subst; simpl; naive_solver lia.
Qed.
Next Obligation.
  intros s i Hi. eexists. split; [done|]. split; [|split]; intros j.
  - apply (ram_contents_same s i); [done|lia].
  - rewrite ram_at_insert. by case_decide; subst.
  - rewrite ram_at_insert. repeat case_decide; subst; simpl; naive_solver lia.
Qed.

(** ** Claims *)

(** C11: [dir_add] refines insertion into a finite map from names to sectors, over every
    implementation of the inode layer.  It answers true exactly when it has entered a valid new
    name; otherwise the map is unchanged, and the name was not valid, was already there, or
    every entry of the directory was in use.  No other file changes. *)
Theorem dir_add_correct {S} `{InodeLayer S} (s : S) d m nm sec e :
  dir_rep s d m → fits 32 sec → entry_ok e → Forall (λ c, c ≠ 0) nm →
  ∃ ok s', dir_add d nm sec e s = Ret (ok, s') ∧
    (∀ j, j ≠ dir_inode d → contents s' j = contents s j) ∧ (∀ j, openers s' j = openers s j) ∧
    if (ok : bool) then valid_name nm ∧ m !! nm = None ∧ dir_rep s' d (<[nm := sec]> m)
    else dir_rep s' d m ∧ (valid_name nm → m !! nm = None →
           ∃ es, dir_entries s d es ∧ ∀ e, e ∈ es → in_use e = true).
Proof. apply dir_add_spec. Qed.

Definition empty_entry : dir_entry := DirEntry 0 (replicate 15 0) false.
Definition root_dir : dir := Dir 2 0.
Definition root_fs : ram_fs := {[ 2 := RamFile (file_of [empty_entry; empty_entry]) 1 0 ]}.

Lemma root_fs_rep : dir_rep root_fs root_dir ∅.
Proof.
  constructor. exists [empty_entry; empty_entry]. split; [|split].
  - split; [done|done|]. repeat constructor; done.
  - intros nm sec. rewrite lookup_empty. split; [done|].
    intros (e & [->|[->|[]%elem_of_nil]%elem_of_cons]%elem_of_cons & [? _] & _); done.
  - intros i j e e' Hi _ Hu. apply list_elem_of_lookup_2 in Hi.
    apply elem_of_cons in Hi as [->|[->|[]%elem_of_nil]%elem_of_cons]; done.
Qed.

Lemma dir_add_correct_witness :
  ∃ s, dir_add root_dir (of_string "motd") 7 empty_entry root_fs = Ret (true, s) ∧
       dir_rep s root_dir {[ of_string "motd" := 7 ]}.
Proof.
  destruct (dir_add_correct root_fs root_dir ∅ (of_string "motd") 7 empty_entry) as (ok & s & Hrun & _ & _ & Hok).
  - apply root_fs_rep.
  - done.
  - done.
  - repeat constructor; done.
  - destruct ok.
    + exists s. split; [exact Hrun|apply Hok].
    + exfalso.
      assert ((if dir_add root_dir (of_string "motd") 7 empty_entry root_fs is Ret (b, _) then b else false) = true) as E
        by (vm_compute; reflexivity).
      rewrite Hrun in E. discriminate E.
Defined.

(** C33: [dir_remove] refines deletion.  It answers true exactly when it has deleted the name;
    otherwise the map is unchanged and the name was not in it, or its inode could not be
    opened.  Every inode has as many openers as before, and no other open file changes. *)
Theorem dir_remove_correct {S} `{InodeLayer S} (s : S) d m nm :
  dir_rep s d m → 0 < openers s (dir_inode d) →
  ∃ ok s', dir_remove d nm s = Ret (ok, s') ∧ (∀ j, openers s' j = openers s j) ∧
    (∀ j, j ≠ dir_inode d → 0 < openers s j → contents s' j = contents s j) ∧
    if (ok : bool) then is_Some (m !! nm) ∧ dir_rep s' d (delete nm m)
    else dir_rep s' d m ∧ (m !! nm = None ∨ ∃ s1 s2 sec, m !! nm = Some sec ∧ same_files s s1 ∧
           inode_open sec s1 = Ret (NULL, s2)).
Proof. apply dir_remove_spec. Qed.

Lemma dir_remove_correct_witness :
  ∃ s1 s2, dir_add root_dir (of_string "motd") 7 empty_entry root_fs = Ret (true, s1) ∧
    dir_remove root_dir (of_string "motd") s1 = Ret (true, s2) ∧ dir_rep s2 root_dir ∅.
Proof.
  destruct (dir_add_spec root_fs root_dir ∅ (of_string "motd") 7 empty_entry) as (ok & s & Hrun & Hc & Ho & Hok).
  - apply root_fs_rep.
  - done.
  - done.
  - repeat constructor; done.
  - destruct ok.
    2: { exfalso.
      assert ((if dir_add root_dir (of_string "motd") 7 empty_entry root_fs is Ret (b, _) then b else false) = true) as E
        by (vm_compute; reflexivity).
      rewrite Hrun in E. discriminate E. }
    destruct Hok as (_ & _ & Hrep).
    destruct (dir_remove_correct s root_dir _ (of_string "motd") Hrep) as (ok & s2 & Hrun2 & _ & _ & Hok2).
    { rewrite Ho. vm_compute. reflexivity. }
    destruct ok.
    + destruct Hok2 as [_ Hrep2]. rewrite delete_insert_id in Hrep2 by done.
      exists s, s2. split; [exact Hrun|]. split; [exact Hrun2|exact Hrep2].
    + exfalso. destruct Hok2 as (_ & [Hn|(s1 & s3 & sec & Hsec & [Hsame _] & Hopen)]).
      * rewrite lookup_insert_eq in Hn. discriminate Hn.
      * rewrite lookup_insert_eq in Hsec. injection Hsec as <-.
        assert (rf_data (ram_at s1 8) = []) as Hd.
        { specialize (Hsame 8). rewrite (Hc 8 ltac:(done)) in Hsame. change (contents s1 8) with (rf_data <$> s1 !! 8) in Hsame.
          change (contents root_fs 8) with (None : option bytes) in Hsame. unfold ram_at. by destruct (s1 !! 8). }
        revert Hopen. change (inode_open 7 s1) with (ram_open 7 s1). unfold ram_open. change (7 + 1) with 8. rewrite Hd.
        rewrite decide_False; [discriminate|]. intros [?|Hl]; [done|]. simpl in Hl. lia.
Defined.

(** Looking a name up answers what the map has. *)
Lemma dir_lookup_correct {S} `{InodeLayer S} (s : S) d m nm : dir_rep s d m →
  ∃ s1, same_files s s1 ∧ dir_lookup d nm s =
    match m !! nm with
    | Some sec => (i ← inode_open sec; mret (nonnull i, i)) s1
    | None => Ret ((false, NULL), s1)
    end.
Proof.
  intros Hrep. destruct (lookup_map s d m nm Hrep) as (r & s1 & Hrun & Hsame & Hm). exists s1. split; [done|].
  unfold dir_lookup. rewrite (bind_run _ _ _ _ _ Hrun), Hm. by destruct r as [[e ofs]|].
Qed.
