(* ===== verification/File.v ===== *)
(** * Open files: src/src/filesys/file.c

    An open file is an object of its own that refers to an inode; several files may refer to
    the same inode, and several pointers to the same file.  [files] has the objects by address,
    and the inodes are reached through [InodeLayer]. *)
From S2P Require Import Prelude KList CString Directory.

Record file := File { f_inode : addr; f_pos : Z; f_deny : bool }.
Record fstate (S : Type) := FState { files : gmap addr file; inodes : S }.
Arguments FState {S} _ _.
Arguments files {S} _.
Arguments inodes {S} _.

Section file.
Context {S : Type} `{InodeLayer S}.
Abbreviation F := (ST (fstate S)).

Definition on_inodes {A} (f : ST S A) : F A := λ t,
  match f (inodes t) with
  | Ret (a, s) => Ret (a, FState (files t) s)
  | Panic => Panic
  | Fault => Fault
  | NoFuel => NoFuel
  end.
Definition set_files (g : gmap addr file → gmap addr file) : F () :=
  modify (λ t, FState (g (files t)) (inodes t)).
Definition ld_file (p : addr) : F file := λ t,
  match files t !! p with Some f => Ret (f, t) | None => Fault end.

(** [p] is what [calloc] answers for the new file; a file that is not used is freed again. *)
Definition file_open (inode p : addr) : F addr :=
  if nonnull inode && nonnull p then
    set_files <[p := File inode 0 false]>;;
    mret p
  else
    on_inodes (inode_close inode);;
    mret NULL.

Definition file_reopen (file p : addr) : F addr :=
  f ← ld_file file;
  i ← on_inodes (inode_reopen (f_inode f));
  file_open i p.

Definition file_allow_write (file : addr) : F () :=
  assert (nonnull file);;
  f ← ld_file file;
  if f_deny f then
    set_files <[file := File (f_inode f) (f_pos f) false]>;;
    on_inodes (inode_allow_write (f_inode f))
  else mret ().

Definition file_deny_write (file : addr) : F () :=
  assert (nonnull file);;
  f ← ld_file file;
  if negb (f_deny f) then
    set_files <[file := File (f_inode f) (f_pos f) true]>;;
    on_inodes (inode_deny_write (f_inode f))
  else mret ().

Definition file_close (file : addr) : F () :=
  if nonnull file then
    file_allow_write file;;
    f ← ld_file file;
    on_inodes (inode_close (f_inode f));;
    set_files (delete file)
  else mret ().

Definition file_get_inode (file : addr) : F addr := f ← ld_file file; mret (f_inode f).

Definition advance (file : addr) (n : Z) : F () :=
  f ← ld_file file; set_files <[file := File (f_inode f) (s32 (f_pos f + n)) (f_deny f)]>.

Definition file_read (file : addr) (size : Z) : F bytes :=
  f ← ld_file file;
  bs ← on_inodes (inode_read_at (f_inode f) size (f_pos f));
  advance file (Z.of_nat (length bs));;
  mret bs.

Definition file_read_at (file : addr) (size file_ofs : Z) : F bytes :=
  f ← ld_file file;
  on_inodes (inode_read_at (f_inode f) size file_ofs).

Definition file_write (file : addr) (buffer : bytes) : F Z :=
  f ← ld_file file;
  n ← on_inodes (inode_write_at (f_inode f) buffer (f_pos f));
  advance file n;;
  mret n.

Definition file_write_at (file : addr) (buffer : bytes) (file_ofs : Z) : F Z :=
  f ← ld_file file;
  on_inodes (inode_write_at (f_inode f) buffer file_ofs).

Definition file_length (file : addr) : F Z :=
  assert (nonnull file);;
  f ← ld_file file;
  on_inodes (inode_length (f_inode f)).

Definition file_seek (file new_pos : Z) : F () :=
  assert (nonnull file);;
  assert (0 <=? new_pos);;
  f ← ld_file file;
  set_files <[file := File (f_inode f) new_pos (f_deny f)]>.

Definition file_tell (file : addr) : F Z :=
  assert (nonnull file);;
  f ← ld_file file;
  mret (f_pos f).
End file.
