(* ===== verification/FileProofs.v ===== *)
(** * Open files: the invariant that ties files to inodes

    Each file holds one of the openers of its inode, and an inode is denied to writers exactly
    as often as files on it have asked for it.  The assertions of inode.c on its counters then
    never fail. *)
From S2P Require Import Prelude KList CString Directory DirectoryProofs File.

(** ** Counting files *)

Definition count (P : file → bool) (m : gmap addr file) : Z :=
  Z.of_nat (size (filter (λ x, P x.2 = true) m)).
Definition one (b : bool) : Z := if b then 1 else 0.

Lemma count_nonneg P m : 0 ≤ count P m.
Proof. unfold count. lia. Qed.

Lemma count_insert_new P m p f : m !! p = None → count P (<[p := f]> m) = count P m + one (P f).
Proof.
  intros Hp. unfold count, one. destruct (P f) eqn:E.
  - rewrite map_filter_insert_True by done. rewrite map_size_insert_None; [lia|].
    apply map_lookup_filter_None. by left.
  - rewrite map_filter_insert_False by (simpl; congruence). rewrite delete_id by done. lia.
Qed.

Lemma count_delete P m p f : m !! p = Some f → count P (delete p m) = count P m - one (P f).
Proof.
  intros Hp. rewrite <-(insert_delete_id m p f Hp) at 2. rewrite count_insert_new by apply lookup_delete_eq. lia.
Qed.

Lemma count_insert P m p f g : m !! p = Some f → count P (<[p := g]> m) = count P m - one (P f) + one (P g).
Proof.
  intros Hp. rewrite <-insert_delete_eq, count_insert_new by apply lookup_delete_eq. by rewrite (count_delete P m p f).
Qed.

Lemma count_member P m p f : m !! p = Some f → P f = true → 0 < count P m.
Proof. intros Hp HP. pose proof (count_delete P m p f Hp). pose proof (count_nonneg P (delete p m)). rewrite HP in *. unfold one in *. lia. Qed.

Lemma count_mono P Q m : (∀ f, P f = true → Q f = true) → count P m ≤ count Q m.
Proof.
  intros HPQ. unfold count. apply inj_le, map_subseteq_size. apply map_filter_subseteq_ext. intros i x _. apply HPQ.
Qed.

(** ** The invariant *)

Definition on (i : addr) (f : file) : bool := f_inode f =? i.
Definition denies (i : addr) (f : file) : bool := (f_inode f =? i) && f_deny f.

Section proofs.
Context {S : Type} `{InodeLayer S}.
Implicit Types t : fstate S.

Record files_ok t : Prop := FilesOk {
  fo_null : files t !! NULL = None;
  fo_inodes : map_Forall (λ _ f, f_inode f ≠ NULL ∧ 0 ≤ f_pos f < 2 ^ 31 ∧
    ∃ bs, contents (inodes t) (f_inode f) = Some bs ∧ Z.of_nat (length bs) < 2 ^ 31) (files t);
  fo_denied i : 0 < openers (inodes t) i → denied (inodes t) i = count (denies i) (files t);
  fo_openers i : i ≠ NULL → count (on i) (files t) ≤ openers (inodes t) i;
}.

Lemma denies_on i f : denies i f = true → on i f = true.
Proof. unfold denies, on. by intros [? _]%andb_true_iff. Qed.

(** What happens to the invariant when the inode layer moves to [s'] and the files to [m']. *)
Lemma files_ok_step t m' s' : files_ok t → m' !! NULL = None →
  map_Forall (λ _ f, f_inode f ≠ NULL ∧ 0 ≤ f_pos f < 2 ^ 31 ∧
    ∃ bs, contents s' (f_inode f) = Some bs ∧ Z.of_nat (length bs) < 2 ^ 31) m' →
  (∀ i, 0 < openers s' i → denied s' i = count (denies i) m') →
  (∀ i, i ≠ NULL → count (on i) (files t) ≤ openers (inodes t) i → count (on i) m' ≤ openers s' i) →
  files_ok (FState m' s').
Proof.
  intros [Hn Hi Hd Ho] Hn' Hi' Hd' Ho'. split; [done|done|done|]; simpl; intros i Hne. apply Ho'; [done|by apply Ho].
Qed.

Lemma ld_file_run t p f : files t !! p = Some f → ld_file p t = Ret (f, t).
Proof. unfold ld_file. by intros ->. Qed.

Lemma on_inodes_run {A} (g : ST S A) t a s : g (inodes t) = Ret (a, s) → on_inodes g t = Ret (a, FState (files t) s).
Proof. unfold on_inodes. by intros ->. Qed.

Lemma file_nonnull t p f : files_ok t → files t !! p = Some f → nonnull p = true.
Proof. intros [Hn _ _ _] Hp. apply nonnull_true. intros ->. congruence. Qed.

Lemma file_opener t p f : files_ok t → files t !! p = Some f → f_inode f ≠ NULL ∧ 0 < openers (inodes t) (f_inode f).
Proof.
  intros [_ Hi _ Ho] Hp. destruct (Hi p f Hp) as (Hne & _). split; [done|].
  pose proof (count_member (on (f_inode f)) _ p f Hp (Z.eqb_refl _)). specialize (Ho _ Hne). lia.
Qed.

(** *** Reading and writing *)

Lemma file_read_spec t p f bs size : files_ok t → files t !! p = Some f →
  contents (inodes t) (f_inode f) = Some bs → 0 ≤ size →
  ∃ s', file_read p size t =
      Ret (take (Z.to_nat size) (drop (Z.to_nat (f_pos f)) bs),
           FState (<[p := File (f_inode f) (Z.min (f_pos f + size) (Z.max (f_pos f) (Z.of_nat (length bs)))) (f_deny f)]> (files t)) s') ∧
    (∀ j, contents s' j = contents (inodes t) j) ∧ (∀ j, openers s' j = openers (inodes t) j) ∧
    (∀ j, denied s' j = denied (inodes t) j).
Proof.
  intros Hok Hp Hbs Hsz. destruct (fo_inodes _ Hok p f Hp) as (_ & Hpos & bs' & Hbs' & Hlen). simplify_eq.
  destruct (inode_read_law (inodes t) (f_inode f) bs size (f_pos f) Hbs) as (s' & Hrun & Hsame); [lia|].
  exists s'. split; [|done]. unfold file_read. run_by ltac:(by apply ld_file_run).
  run_by ltac:(by apply on_inodes_run). unfold advance.
  erewrite bind_run; [|erewrite bind_run; [reflexivity|by apply ld_file_run]].
  unfold mret, ST_ret. do 5 f_equal. cbn [files]. rewrite length_take, length_drop, swrap_small by lia.
  f_equal. lia.
Qed.

(** [file_read] with any size. *)
Lemma file_read_any t p f bs size : files_ok t → files t !! p = Some f → contents (inodes t) (f_inode f) = Some bs →
  let out := take (Z.to_nat size) (drop (Z.to_nat (f_pos f)) bs) in
  ∃ s', file_read p size t =
      Ret (out, FState (<[p := File (f_inode f) (f_pos f + Z.of_nat (length out)) (f_deny f)]> (files t)) s') ∧
    (∀ j, contents s' j = contents (inodes t) j) ∧ (∀ j, openers s' j = openers (inodes t) j) ∧
    (∀ j, denied s' j = denied (inodes t) j).
Proof.
  intros Hok Hp Hbs out. destruct (fo_inodes _ Hok p f Hp) as (_ & Hpos & bs' & Hbs' & Hlen). simplify_eq.
  destruct (inode_read_law (inodes t) (f_inode f) bs size (f_pos f) Hbs) as (s' & Hrun & Hsame); [lia|].
  exists s'. split; [|done]. unfold file_read. rewrite (bind_run _ _ _ _ _ (ld_file_run _ _ _ Hp)).
  rewrite (bind_run _ _ _ _ _ (on_inodes_run _ _ _ _ Hrun)). unfold advance.
  erewrite bind_run; [|erewrite bind_run; [reflexivity|by apply ld_file_run]].
  fold out. assert (Z.of_nat (length out) ≤ Z.of_nat (length bs) ∧ Z.of_nat (length out) ≤ Z.max 0 (Z.of_nat (length bs) - f_pos f)) as Hle.
  { unfold out. rewrite length_take, length_drop. lia. }
  cbn [files inodes]. rewrite swrap_small by lia. done.
Qed.

Lemma file_write_spec t p f bs data : files_ok t → files t !! p = Some f →
  contents (inodes t) (f_inode f) = Some bs → Z.of_nat (length data) < 2 ^ 31 →
  ∃ n s', file_write p data t = Ret (n, FState (<[p := File (f_inode f) (f_pos f + n) (f_deny f)]> (files t)) s') ∧
    n = (if decide (denied (inodes t) (f_inode f) = 0)
         then Z.min (Z.of_nat (length data)) (Z.max 0 (Z.of_nat (length bs) - f_pos f)) else 0) ∧
    contents s' (f_inode f) = Some (take (Z.to_nat (f_pos f)) bs ++ take (Z.to_nat n) data ++ drop (Z.to_nat (f_pos f + n)) bs) ∧
    (∀ j, j ≠ f_inode f → contents s' j = contents (inodes t) j) ∧
    (∀ j, openers s' j = openers (inodes t) j) ∧ (∀ j, denied s' j = denied (inodes t) j).
Proof.
  intros Hok Hp Hbs Hl. destruct (fo_inodes _ Hok p f Hp) as (_ & Hpos & bs' & Hbs' & Hlen). simplify_eq.
  destruct (inode_write_law (inodes t) (f_inode f) bs data (f_pos f) Hbs ltac:(lia)) as (n & s' & Hrun & Hn & Hc).
  exists n, s'. split; [|done]. unfold file_write. run_by ltac:(by apply ld_file_run).
  run_by ltac:(by apply on_inodes_run). unfold advance.
  erewrite bind_run; [|erewrite bind_run; [reflexivity|by apply ld_file_run]].
  unfold mret, ST_ret. do 6 f_equal. rewrite swrap_small; [done|done|]. case_decide; lia.
Qed.

(** *** Operations as data *)

(** [inode] and [p] as for [file_open]: the caller hands over one opener of the inode, and [p]
    is new memory or null. *)
Inductive file_op :=
| FOpen (inode p : addr)
| FReopen (file p : addr)
| FClose (file : addr)
| FDeny (file : addr)
| FAllow (file : addr)
| FRead (file size : Z)
| FWrite (file : addr) (data : bytes)
| FSeek (file pos : Z).

Definition exec (o : file_op) : ST (fstate S) () :=
  match o with
  | FOpen inode p => _ ← file_open inode p; mret ()
  | FReopen file p => _ ← file_reopen file p; mret ()
  | FClose file => file_close file
  | FDeny file => file_deny_write file
  | FAllow file => file_allow_write file
  | FRead file size => _ ← file_read file size; mret ()
  | FWrite file data => _ ← file_write file data; mret ()
  | FSeek file pos => file_seek file pos
  end.

(** What callers of file.c have to respect. *)
Definition op_ok t (o : file_op) : Prop :=
  match o with
  | FOpen inode p => files t !! p = None ∧
      (inode ≠ NULL → count (on inode) (files t) < openers (inodes t) inode ∧
         ∃ bs, contents (inodes t) inode = Some bs ∧ Z.of_nat (length bs) < 2 ^ 31)
  | FReopen file p => is_Some (files t !! file) ∧ files t !! p = None
  | FClose file => file = NULL ∨ is_Some (files t !! file)
  | FDeny file | FAllow file => is_Some (files t !! file)
  | FRead file size => is_Some (files t !! file) ∧ 0 ≤ size
  | FWrite file data => is_Some (files t !! file) ∧ Z.of_nat (length data) < 2 ^ 31
  | FSeek file pos => is_Some (files t !! file) ∧ 0 ≤ pos < 2 ^ 31
  end.

(** The inodes of the files after a step that keeps the contents of open inodes. *)
Lemma fo_inodes_same t s' : files_ok t →
  (∀ j, 0 < openers (inodes t) j → contents s' j = contents (inodes t) j) →
  map_Forall (λ _ f, f_inode f ≠ NULL ∧ 0 ≤ f_pos f < 2 ^ 31 ∧
    ∃ bs, contents s' (f_inode f) = Some bs ∧ Z.of_nat (length bs) < 2 ^ 31) (files t).
Proof.
  intros Hok Hc p f Hp. destruct (fo_inodes _ Hok p f Hp) as (Hn & Hpos & Hbs).
  split; [done|]. split; [done|]. by rewrite Hc by (by eapply file_opener).
Qed.

Lemma denied_opened t i : files_ok t → i ≠ NULL → 0 < openers (inodes t) i → denied (inodes t) i ≤ openers (inodes t) i.
Proof.
  intros [_ _ Hd Ho] Hi Hp. rewrite Hd by done. etrans; [|by apply Ho]. apply count_mono. apply denies_on.
Qed.

(** Giving up one opener that no file holds. *)
Lemma close_ok t m' i s' : files_ok t → m' !! NULL = None → (∀ p f, m' !! p = Some f → files t !! p = Some f) →
  (∀ j, openers s' j = openers (inodes t) j - (if decide (j = i ∧ i ≠ NULL) then 1 else 0)) →
  (∀ j, 0 < openers s' j → contents s' j = contents (inodes t) j ∧ denied s' j = denied (inodes t) j) →
  (i ≠ NULL → count (on i) m' < openers (inodes t) i) → (∀ j, j ≠ i → count (on j) m' = count (on j) (files t)) →
  (∀ j, count (denies j) m' = count (denies j) (files t)) → files_ok (FState m' s').
Proof.
  intros Hok Hn Hsub Ho Hc Hi Hon Hde. split; simpl.
  - done.
  - intros p f Hp. apply Hsub in Hp as Hp0. destruct (fo_inodes _ Hok p f Hp0) as (Hne & Hpos & Hbs).
    split; [done|]. split; [done|]. destruct (Hc (f_inode f)) as [-> _]; [|done].
    rewrite Ho. destruct (decide (f_inode f = i ∧ i ≠ NULL)) as [Hd|Hd].
    + destruct Hd as [Hd _]. pose proof (count_member (on i) m' p f Hp (proj2 (Z.eqb_eq _ _) Hd)).
      rewrite Hd. assert (i ≠ NULL) by congruence. specialize (Hi ltac:(done)). lia.
    + destruct (file_opener t p f Hok Hp0). lia.
  - intros j Hj. destruct (Hc j Hj) as [_ ->]. rewrite Hde. apply (fo_denied _ Hok).
    rewrite Ho in Hj. destruct (decide (j = i ∧ i ≠ NULL)); lia.
  - intros j Hj. rewrite Ho. destruct (decide (j = i ∧ i ≠ NULL)) as [Hd|Hd]; [destruct Hd as [-> Hd]; specialize (Hi Hd); lia|].
    destruct (decide (j = i)) as [->|Hji]; [tauto|]. rewrite Hon by done. pose proof (fo_openers _ Hok j Hj). lia.
Qed.

Lemma file_open_ok t i p : files_ok t → op_ok t (FOpen i p) → ∃ r t', file_open i p t = Ret (r, t') ∧ files_ok t'.
Proof.
  intros Hok [Hp Hi]. unfold file_open.
  destruct (decide (i ≠ NULL ∧ p ≠ NULL)) as [[Hin Hpn]|Hno].
  - rewrite !nonnull_true by done. cbn [andb]. destruct (Hi Hin) as [Hop Hbs].
    do 2 eexists. split; [done|]. apply (files_ok_step t); [done|..].
    + rewrite lookup_insert_ne by done. by apply fo_null.
    + apply map_Forall_insert_2; [by split_and!|]. by apply fo_inodes.
    + intros j Hj. rewrite count_insert_new by done. unfold denies at 2, one. simpl. rewrite andb_false_r.
      rewrite Z.add_0_r. by apply fo_denied.
    + intros j Hj Hle. rewrite count_insert_new by done. unfold on at 2, one. simpl.
      destruct (Z.eqb_spec i j); subst; lia.
  - assert (nonnull i && nonnull p = false) as ->.
    { unfold nonnull. destruct (Z.eqb_spec i NULL), (Z.eqb_spec p NULL); try done. tauto. }
    assert (i = NULL ∨ 0 < openers (inodes t) i) as Hio.
    { destruct (decide (i = NULL)) as [|Hin]; [by left|right]. destruct (Hi Hin) as [? _].
      pose proof (count_nonneg (on i) (files t)). lia. }
    destruct (inode_close_law (inodes t) i Hio) as (s' & Hrun & Ho & Hc).
    run_by ltac:(by apply on_inodes_run). do 2 eexists. split; [done|].
    apply (close_ok t (files t) i); try done; [by apply fo_null|]. intros Hin. by apply Hi.
Qed.

Lemma file_reopen_ok t p q : files_ok t → op_ok t (FReopen p q) → ∃ r t', file_reopen p q t = Ret (r, t') ∧ files_ok t'.
Proof.
  intros Hok [[f Hf] Hq]. destruct (file_opener t p f Hok Hf) as [Hn Ho].
  destruct (fo_inodes _ Hok p f Hf) as (_ & _ & Hbs). unfold file_reopen. run_by ltac:(by apply ld_file_run).
  destruct (inode_reopen_law (inodes t) (f_inode f)) as (s' & Hrun & Hc & Hd & Hop); [by right|].
  run_by ltac:(by apply on_inodes_run).
  assert (openers s' (f_inode f) = openers (inodes t) (f_inode f) + 1) as Hi.
  { rewrite Hop. by destruct (decide (f_inode f = f_inode f ∧ f_inode f ≠ NULL)) as [|[]]. }
  assert (∀ j, openers (inodes t) j ≤ openers s' j ∧ (openers s' j = openers (inodes t) j ∨ j = f_inode f)) as Hmono.
  { intros j. rewrite Hop. destruct (decide (j = f_inode f ∧ f_inode f ≠ NULL)) as [[-> _]|]; [split; [lia|by right]|lia]. }
  apply file_open_ok.
  - apply (files_ok_step t); [done|by apply fo_null|by apply fo_inodes_same| |].
    + intros j Hj. rewrite Hd. apply (fo_denied _ Hok). destruct (Hmono j) as [_ [?| ->]]; lia.
    + intros j Hj Hle. pose proof (Hmono j) as [? _]. lia.
  - split; [done|]. intros _. cbn [files inodes]. rewrite Hi, Hc. split; [|done].
    pose proof (fo_openers _ Hok _ Hn). lia.
Qed.

(** Setting the flag of a file, with the counter of its inode. *)
Lemma set_deny_ok t p f b s' : files_ok t → files t !! p = Some f → f_deny f = negb b →
  (∀ j, contents s' j = contents (inodes t) j) → (∀ j, openers s' j = openers (inodes t) j) →
  (∀ j, denied s' j = denied (inodes t) j + (if decide (j = f_inode f) then if b then 1 else -1 else 0)) →
  files_ok (FState (<[p := File (f_inode f) (f_pos f) b]> (files t)) s').
Proof.
  intros Hok Hf Hb Hc Ho Hd. apply (files_ok_step t); [done|..].
  - rewrite lookup_insert_None. split; [by apply fo_null|]. intros ->. rewrite (fo_null _ Hok) in Hf. done.
  - apply map_Forall_insert_2; [|by apply fo_inodes_same]. by apply (fo_inodes_same t s' Hok (λ j _, Hc j) p f).
  - intros j Hj. rewrite (count_insert _ _ p f) by done. rewrite Hd, (fo_denied _ Hok) by (by rewrite <-Ho).
    unfold denies, one. simpl. rewrite Hb. rewrite <-(Z.eqb_sym j).
    destruct (Z.eqb_spec j (f_inode f)), (decide (j = f_inode f)); try done; destruct b; simpl; lia.
  - intros j _. rewrite (count_insert _ _ p f) by done. rewrite Ho. unfold on, one. simpl.
    destruct (f_inode f =? j); lia.
Qed.

Lemma file_allow_ok t p f : files_ok t → files t !! p = Some f →
  ∃ t', file_allow_write p t = Ret ((), t') ∧ files_ok t' ∧ files t' = <[p := File (f_inode f) (f_pos f) false]> (files t) ∧
    (∀ j, openers (inodes t') j = openers (inodes t) j).
Proof.
  intros Hok Hf. unfold file_allow_write. run_by ltac:(apply assert_run; by eapply file_nonnull).
  run_by ltac:(by apply ld_file_run). destruct (f_deny f) eqn:E.
  - destruct (file_opener t p f Hok Hf) as [Hn Ho].
    destruct (inode_allow_law (inodes t) (f_inode f)) as (s' & Hrun & Hc & Hop & Hd).
    { split; [|by apply denied_opened]. rewrite (fo_denied _ Hok) by done.
      apply (count_member _ _ p f Hf). unfold denies. by rewrite Z.eqb_refl, E. }
    run_by ltac:(done). erewrite on_inodes_run; [|exact Hrun]. eexists. split; [done|]. split; [|done].
    cbn [files]. apply (set_deny_ok t p f false); try done. intros j. rewrite Hd. by destruct (decide (j = f_inode f)); lia.
  - exists t. split; [done|]. split; [done|]. split; [|done]. rewrite insert_id; [done|]. rewrite Hf. by destruct f; simpl in *; subst.
Qed.

Lemma file_deny_ok t p f : files_ok t → files t !! p = Some f →
  ∃ t', file_deny_write p t = Ret ((), t') ∧ files_ok t' ∧ files t' = <[p := File (f_inode f) (f_pos f) true]> (files t) ∧
    (∀ j, contents (inodes t') j = contents (inodes t) j).
Proof.
  intros Hok Hf. unfold file_deny_write. run_by ltac:(apply assert_run; by eapply file_nonnull).
  run_by ltac:(by apply ld_file_run). destruct (f_deny f) eqn:E; cbn [negb].
  - exists t. split; [done|]. split; [done|]. split; [|done]. rewrite insert_id; [done|]. rewrite Hf. by destruct f; simpl in *; subst.
  - destruct (file_opener t p f Hok Hf) as [Hn Ho].
    destruct (inode_deny_law (inodes t) (f_inode f)) as (s' & Hrun & Hc & Hop & Hd).
    { rewrite (fo_denied _ Hok) by done. split; [apply count_nonneg|].
      eapply Z.lt_le_trans; [|by apply (fo_openers _ Hok)].
      pose proof (count_delete (denies (f_inode f)) _ p f Hf) as H1. pose proof (count_delete (on (f_inode f)) _ p f Hf) as H2.
      pose proof (count_mono (denies (f_inode f)) (on (f_inode f)) (delete p (files t)) (denies_on _)) as H3.
      assert (denies (f_inode f) f = false) as E1 by (unfold denies; by rewrite E, andb_false_r).
      assert (on (f_inode f) f = true) as E2 by apply Z.eqb_refl. rewrite E1 in H1. rewrite E2 in H2. unfold one in *. lia. }
    run_by ltac:(done). erewrite on_inodes_run; [|exact Hrun]. eexists. split; [done|]. split; [|done].
    cbn [files]. by apply (set_deny_ok t p f true).
Qed.

(** Openers of an inode that no file holds. *)
Definition spare t (j : addr) : Z := openers (inodes t) j - count (on j) (files t).

Lemma file_close_ok t p : files_ok t → op_ok t (FClose p) →
  ∃ t', file_close p t = Ret ((), t') ∧ files_ok t' ∧ files t' = delete p (files t) ∧ ∀ j, spare t' j = spare t j.
Proof.
  intros Hok Hp. unfold file_close. destruct (decide (p = NULL)) as [->|Hpn].
  { exists t. split; [done|]. split; [done|]. split; [|done]. by rewrite delete_id by apply Hok. }
  destruct Hp as [|[f Hf]]; [done|]. rewrite nonnull_true by done.
  destruct (file_allow_ok t p f Hok Hf) as (t1 & Hrun1 & Hok1 & Hf1 & Ho1). run_by ltac:(exact Hrun1).
  set (g := File (f_inode f) (f_pos f) false) in *.
  assert (files t1 !! p = Some g) as Hg by (rewrite Hf1; apply lookup_insert_eq).
  run_by ltac:(by apply ld_file_run). destruct (file_opener t1 p g Hok1 Hg) as [Hn Ho].
  destruct (inode_close_law (inodes t1) (f_inode g)) as (s' & Hrun & Hop & Hc); [by right|].
  run_by ltac:(by apply on_inodes_run). eexists. split; [done|]. cbn [files inodes].
  split; [|split; [by rewrite Hf1, delete_insert_eq|]].
  2: { intros j. unfold spare. cbn [files inodes]. rewrite (count_delete _ _ p g Hg), Hop, Ho1, Hf1, (count_insert _ _ p f g Hf).
       change (on j g) with (f_inode f =? j). change (on j f) with (f_inode f =? j). destruct (decide _) as [[-> _]|Hj]; unfold one.
       - change (f_inode g) with (f_inode f). rewrite Z.eqb_refl. lia.
       - destruct (Z.eqb_spec (f_inode f) j) as [<-|]; [by destruct Hj|lia]. }
  apply (close_ok t1 (delete p (files t1)) (f_inode g)); try done.
  - rewrite lookup_delete_None. right. by apply fo_null.
  - intros q h. rewrite lookup_delete_Some. tauto.
  - intros _. rewrite (count_delete _ _ p g Hg). unfold on at 2. rewrite Z.eqb_refl. unfold one.
    pose proof (fo_openers _ Hok1 _ Hn). lia.
  - intros j Hj. rewrite (count_delete _ _ p g Hg). unfold on at 2. rewrite (proj2 (Z.eqb_neq _ _)) by done. unfold one. lia.
  - intros j. rewrite (count_delete _ _ p g Hg). unfold denies at 2. simpl. rewrite andb_false_r. unfold one. lia.
Qed.

(** Moving the position of a file while the inode layer keeps its counters. *)
Lemma set_pos_ok t p f pos s' : files_ok t → files t !! p = Some f → 0 ≤ pos < 2 ^ 31 →
  (∀ j bs, contents (inodes t) j = Some bs → ∃ bs', contents s' j = Some bs' ∧ length bs' = length bs) →
  (∀ j, openers s' j = openers (inodes t) j) → (∀ j, denied s' j = denied (inodes t) j) →
  files_ok (FState (<[p := File (f_inode f) pos (f_deny f)]> (files t)) s').
Proof.
  intros Hok Hf Hpos Hc Ho Hd. apply (files_ok_step t); [done|..].
  - rewrite lookup_insert_None. split; [by apply fo_null|]. intros ->. rewrite (fo_null _ Hok) in Hf. done.
  - assert (∀ q h, files t !! q = Some h → f_inode h ≠ NULL ∧ ∃ bs, contents s' (f_inode h) = Some bs ∧ Z.of_nat (length bs) < 2 ^ 31) as Hall.
    { intros q h Hq. destruct (fo_inodes _ Hok q h Hq) as (Hn & _ & bs & Hbs & Hl). split; [done|].
      destruct (Hc _ _ Hbs) as (bs' & Hbs' & Hl'). exists bs'. by rewrite Hl'. }
    apply map_Forall_insert_2; [by destruct (Hall p f Hf)|]. intros q h Hq. destruct (Hall q h Hq). split; [done|].
    split; [|done]. by destruct (fo_inodes _ Hok q h Hq) as (_ & ? & _).
  - intros j Hj. rewrite (count_insert _ _ p f) by done. rewrite Hd, (fo_denied _ Hok) by (by rewrite <-Ho).
    change (denies j (File (f_inode f) pos (f_deny f))) with (denies j f). lia.
  - intros j _. rewrite (count_insert _ _ p f) by done. rewrite Ho.
    change (on j (File (f_inode f) pos (f_deny f))) with (on j f). lia.
Qed.

Lemma exec_ok t o : files_ok t → op_ok t o → ∃ t', exec o t = Ret ((), t') ∧ files_ok t'.
Proof.
  intros Hok Ho. destruct o; simpl.
  - destruct (file_open_ok t inode p Hok Ho) as (r & t' & Hrun & ?). exists t'. by run_by ltac:(exact Hrun).
  - destruct (file_reopen_ok t file p Hok Ho) as (r & t' & Hrun & ?). exists t'. by run_by ltac:(exact Hrun).
  - destruct (file_close_ok t file Hok Ho) as (t' & Hrun & ? & _). by exists t'.
  - destruct Ho as [f Hf]. destruct (file_deny_ok t file f Hok Hf) as (t' & ? & ? & _). by exists t'.
  - destruct Ho as [f Hf]. destruct (file_allow_ok t file f Hok Hf) as (t' & ? & ? & _). by exists t'.
  - destruct Ho as [[f Hf] Hs]. destruct (fo_inodes _ Hok _ f Hf) as (_ & Hpos & bs & Hbs & Hl).
    destruct (file_read_spec t file f bs size Hok Hf Hbs Hs) as (s' & Hrun & Hc & Hop & Hd).
    eexists. split; [by run_by ltac:(exact Hrun)|]. apply set_pos_ok; try done; [lia|]. intros j bs' Hj. rewrite Hc. eauto.
  - destruct Ho as [[f Hf] Hs]. destruct (fo_inodes _ Hok _ f Hf) as (_ & Hpos & bs & Hbs & Hl).
    destruct (file_write_spec t file f bs data Hok Hf Hbs Hs) as (n & s' & Hrun & Hn & Hc & Hother & Hop & Hd).
    eexists. split; [by run_by ltac:(exact Hrun)|]. apply set_pos_ok; try done; [case_decide; lia|].
    intros j bs' Hj. destruct (decide (j = f_inode f)) as [->|]; [|rewrite Hother by done; eauto]. simplify_eq.
    eexists. split; [exact Hc|]. rewrite !length_app, !length_take, length_drop. case_decide; lia.
  - destruct Ho as [[f Hf] Hs]. unfold file_seek. eexists. split.
    + run_by ltac:(apply assert_run; by eapply file_nonnull). run_by ltac:(apply assert_run, Z.leb_le; lia).
      run_by ltac:(by apply ld_file_run). done.
    + apply set_pos_ok; try done. eauto.
Qed.
End proofs.

(** ** Claims *)

(** A run of operations, each of which respects [op_ok]. *)
Inductive file_step {S} `{InodeLayer S} (t t' : fstate S) : Prop :=
| FileStep o : op_ok t o → exec o t = Ret ((), t') → file_step t t'.

Lemma reachable_files_ok {S} `{InodeLayer S} (t0 t : fstate S) : files_ok t0 → rtc file_step t0 t → files_ok t.
Proof.
  intros Hok Hr. induction Hr as [|t1 t2 t3 [o Ho Hrun] _ IH]; [done|]. apply IH.
  destruct (exec_ok t1 o Hok Ho) as (t' & Hrun' & ?). congruence.
Qed.

(** C24: In every state that calls of file.c can lead to, over any lawful inode layer, each
    further call that respects the interface returns: the assertions on the counters of an
    inode never fail.  Each inode is denied to writers exactly as often as open files on it have
    asked for it, and has an opener for each of them. *)
Theorem file_operations_safe {S} `{InodeLayer S} (t0 t : fstate S) o :
  files_ok t0 → rtc file_step t0 t → op_ok t o →
  (∃ t', exec o t = Ret ((), t') ∧ files_ok t') ∧
  ∀ i, i ≠ NULL → 0 < openers (inodes t) i → denied (inodes t) i = count (denies i) (files t) ∧
    denied (inodes t) i ≤ count (on i) (files t) ≤ openers (inodes t) i.
Proof.
  intros Hok Hr Ho. pose proof (reachable_files_ok _ _ Hok Hr) as Ht. split; [by apply exec_ok|].
  intros i Hi Hp. rewrite (fo_denied _ Ht i Hp). split; [done|]. split; [apply count_mono, denies_on|by apply fo_openers].
Qed.

(** Two files on the inode 8, which has three openers and ten bytes. *)
Definition two_files : fstate ram_fs :=
  FState {[ 100 := File 8 0 false; 200 := File 8 4 false ]} {[ 8 := RamFile (of_string "0123456789") 3 0 ]}.
Lemma two_files_ok : files_ok two_files.
Proof.
  split.
  - done.
  - apply map_Forall_insert_2; [|apply map_Forall_singleton]; (split; [done|]); (split; [simpl; lia|]);
      exists (of_string "0123456789"); (split; [reflexivity|by vm_compute]).
  - intros i. destruct (decide (i = 8)) as [->|Hi]; [intros _; by vm_compute|].
    simpl. unfold ram_at. rewrite lookup_singleton_ne by done. simpl. lia.
  - intros i _. destruct (decide (i = 8)) as [->|Hi]; [by vm_compute|].
    unfold two_files. cbn [files inodes openers ram_layer].
    rewrite <-insert_empty, !count_insert_new by done.
    assert (∀ pos, on i (File 8 pos false) = false) as E by (intros; by apply Z.eqb_neq).
    rewrite !E. change (count (on i) ∅) with 0. unfold one. lia.
Qed.

Lemma file_operations_safe_witness :
  ∃ t', exec (FClose 100) two_files = Ret ((), t') ∧ files_ok t'.
Proof.
  apply (file_operations_safe two_files two_files (FClose 100)); [exact two_files_ok|constructor|].
  right. exists (File 8 0 false). reflexivity.
Defined.

(** What [file_write] writes, [file_read] reads back: writing at the position of the file
    moves the position past the data; after seeking back, reading as many bytes gives the data
    that was written, as long as the file is not denied to writers and long enough. *)
Theorem file_write_read_roundtrip {S} `{InodeLayer S} (t : fstate S) p f bs data :
  files_ok t → files t !! p = Some f → contents (inodes t) (f_inode f) = Some bs →
  denied (inodes t) (f_inode f) = 0 → f_pos f + Z.of_nat (length data) ≤ Z.of_nat (length bs) →
  ∃ t1 t2, file_write p data t = Ret (Z.of_nat (length data), t1) ∧
    file_tell p t1 = Ret (f_pos f + Z.of_nat (length data), t1) ∧
    (file_seek p (f_pos f);; file_read p (Z.of_nat (length data))) t1 = Ret (data, t2).
Proof.
  intros Hok Hf Hbs Hd Hl. destruct (fo_inodes _ Hok p f Hf) as (_ & Hpos & bs' & Hbs' & Hlb). simplify_eq.
  destruct (file_write_spec t p f bs data Hok Hf Hbs ltac:(lia)) as (n & s' & Hrun & Hn & Hc & Hother & Ho & Hdn).
  rewrite decide_True in Hn by done. assert (n = Z.of_nat (length data)) as -> by lia. clear Hn.
  rewrite (take_ge data) in Hc by lia.
  pose proof (file_nonnull t p f Hok Hf) as Hnn.
  set (t1 := FState (<[p := File (f_inode f) (f_pos f + Z.of_nat (length data)) (f_deny f)]> (files t)) s') in *.
  assert (files t1 !! p = Some (File (f_inode f) (f_pos f + Z.of_nat (length data)) (f_deny f))) as Hp1 by apply lookup_insert_eq.
  destruct (exec_ok t (FWrite p data) Hok ltac:(simpl; split; [by exists f|lia])) as (t1' & Hex & Hok1).
  simpl in Hex. rewrite (bind_run _ _ _ _ _ Hrun) in Hex. injection Hex as <-.
  destruct (exec_ok t1 (FSeek p (f_pos f)) Hok1 ltac:(simpl; split; [by eexists|lia])) as (t2 & Hseek & Hok2). simpl in Hseek.
  assert (t2 = FState (<[p := f]> (files t)) s') as ->.
  { unfold file_seek in Hseek. revert Hseek. run_by ltac:(by apply assert_run). run_by ltac:(apply assert_run, Z.leb_le; lia).
    run_by ltac:(by apply ld_file_run). intros [= <-]. cbn [files inodes]. rewrite insert_insert_eq. by destruct f. }
  destruct (file_read_spec _ p f _ (Z.of_nat (length data)) Hok2 (lookup_insert_eq _ _ _) Hc ltac:(lia)) as (s2 & Hread & _).
  eexists t1, _. split; [done|]. split.
  - unfold file_tell. run_by ltac:(by apply assert_run). by run_by ltac:(by apply ld_file_run).
  - run_by ltac:(exact Hseek). rewrite Hread. do 2 f_equal.
    rewrite drop_app_length' by (rewrite length_take; lia). by rewrite take_app_length' by lia.
Qed.

Lemma file_write_read_roundtrip_witness :
  ∃ t1 t2, file_write 200 (of_string "abc") two_files = Ret (3, t1) ∧ file_tell 200 t1 = Ret (7, t1) ∧
    (file_seek 200 4;; file_read 200 3) t1 = Ret (of_string "abc", t2).
Proof.
  apply (file_write_read_roundtrip two_files 200 (File 8 4 false) (of_string "0123456789") (of_string "abc"));
    [exact two_files_ok|reflexivity|reflexivity|reflexivity|by vm_compute].
Defined.

(** [file_deny_write] protects the data: while one file on an inode denies writes, a write
    through any file on it writes nothing and answers zero. *)
Theorem deny_write_protects {S} `{InodeLayer S} (t : fstate S) p f q g data :
  files_ok t → files t !! p = Some f → files t !! q = Some g → f_inode g = f_inode f →
  Z.of_nat (length data) < 2 ^ 31 →
  ∃ t1 t2, file_deny_write p t = Ret ((), t1) ∧ file_write q data t1 = Ret (0, t2) ∧
    ∀ j, contents (inodes t2) j = contents (inodes t) j.
Proof.
  intros Hok Hf Hg Hi Hl. destruct (file_deny_ok t p f Hok Hf) as (t1 & Hrun & Hok1 & Hf1 & Hc1).
  set (f1 := File (f_inode f) (f_pos f) true) in *.
  assert (files t1 !! p = Some f1) as Hp1 by (rewrite Hf1; apply lookup_insert_eq).
  assert (∃ g1, files t1 !! q = Some g1 ∧ f_inode g1 = f_inode f) as (g1 & Hg1 & Hi1).
  { rewrite Hf1. destruct (decide (q = p)) as [->|]; [exists f1; by rewrite lookup_insert_eq|].
    exists g. by rewrite lookup_insert_ne. }
  destruct (fo_inodes _ Hok1 q g1 Hg1) as (_ & Hpos & bs & Hbs & Hlb).
  destruct (file_write_spec t1 q g1 bs data Hok1 Hg1 Hbs Hl) as (n & s' & Hw & Hn & Hc & Hother & _).
  destruct (file_opener t1 p f1 Hok1 Hp1) as [Hnn Hop].
  assert (0 < denied (inodes t1) (f_inode g1)) as Hden.
  { rewrite Hi1, (fo_denied _ Hok1) by done. apply (count_member _ _ p f1 Hp1). unfold denies. simpl. by rewrite Z.eqb_refl. }
  rewrite decide_False in Hn by lia. subst n. eexists t1, _. split; [done|]. split; [exact Hw|]. cbn [inodes].
  intros j. rewrite <-Hc1. destruct (decide (j = f_inode g1)) as [->|]; [|by apply Hother].
  rewrite Hc, Hbs. f_equal. simpl. by rewrite Z.add_0_r, take_drop.
Qed.

Lemma deny_write_protects_witness :
  ∃ t1 t2, file_deny_write 100 two_files = Ret ((), t1) ∧ file_write 200 (of_string "abc") t1 = Ret (0, t2) ∧
    ∀ j, contents (inodes t2) j = contents (inodes two_files) j.
Proof.
  apply (deny_write_protects two_files 100 (File 8 0 false) 200 (File 8 4 false) (of_string "abc"));
    [exact two_files_ok|reflexivity|reflexivity|reflexivity|by vm_compute].
Defined.
