(* ===== verification/Blocks.v ===== *)
(** * Block devices and partitions: src/src/devices/block.c and partition.c

    [blocks] and [partitions] have the [struct block] and [struct partition] objects by address,
    and [all_blocks] is the list of devices in probe order.  A sector number is a [uint32_t].
    What a driver does is the class [DiskDriver]; the operations of a block device are the
    driver's or those of partition.c, which call [block_read] and [block_write] again on the
    device that the partition lies on.  [mallocs] holds the answers of [malloc] to come, where
    the end of the list is a null pointer.  A call of [printf] is recorded as a [message]. *)
From stdpp Require Import pretty.
From S2P Require Import Prelude KList.

Definition BLOCK_SECTOR_SIZE : Z := 512.

Inductive block_type :=
| BLOCK_KERNEL | BLOCK_FILESYS | BLOCK_SCRATCH | BLOCK_SWAP | BLOCK_RAW | BLOCK_FOREIGN.
#[global] Instance block_type_eq_dec : EqDecision block_type.
Proof. solve_decision. Defined.

(** The value of the enumeration; [BLOCK_ROLE_CNT] is 4. *)
Definition type_index (t : block_type) : nat :=
  match t with
  | BLOCK_KERNEL => 0 | BLOCK_FILESYS => 1 | BLOCK_SCRATCH => 2 | BLOCK_SWAP => 3
  | BLOCK_RAW => 4 | BLOCK_FOREIGN => 5
  end%nat.
Definition BLOCK_ROLE_CNT : nat := 4.

Definition block_type_name (t : block_type) : string :=
  match t with
  | BLOCK_KERNEL => "kernel" | BLOCK_FILESYS => "filesys" | BLOCK_SCRATCH => "scratch"
  | BLOCK_SWAP => "swap" | BLOCK_RAW => "raw" | BLOCK_FOREIGN => "foreign"
  end.

(** ** Drivers

    [media d aux] is the list of the sectors of the disk that the driver knows as [aux]. *)
Class DiskDriver (D : Type) := {
  drv_read : addr → Z → ST D (list Z);
  drv_write : addr → Z → list Z → ST D ();
  media : D → addr → list (list Z);
  drv_read_law d aux i bs : media d aux !! i = Some bs →
    ∃ d', drv_read aux (Z.of_nat i) d = Ret (bs, d') ∧ ∀ a, media d' a = media d a;
  drv_write_law d aux i bs old : media d aux !! i = Some old →
    ∃ d', drv_write aux (Z.of_nat i) bs d = Ret ((), d') ∧
      media d' aux = <[i := bs]> (media d aux) ∧ ∀ a, a ≠ aux → media d' a = media d a;
}.

Inductive block_operations := driver_operations | partition_operations.

Record block := Block {
  b_name : string;
  b_type : block_type;
  b_size : Z;
  b_ops : block_operations;
  b_aux : addr;
  read_cnt : Z;
  write_cnt : Z;
}.
Record partition := Partition { p_block : addr; p_start : Z }.

(** The text that [block_register] adds to its message. *)
Inductive extra := NoInfo | Model (model serial : string) | PartitionInfo (type_name : string) (part_type : Z).

Inductive message :=
| Registered (name : string) (size : Z) (info : extra)
| PastEndOfDevice (name : string) (sector : Z)
| InvalidSignature (name : string)
| InvalidExtended (name : string) (sector : Z)
| ExtendedPartition (name : string) (sector : Z)
| PartitionStartsPastEnd (name : string) (part_nr start : Z)
| PartitionEndsPastEnd (name : string) (part_nr last size : Z)
| NoPartitions (name : string)
| Stats (name type : string) (reads writes : Z).

Record bstate (D : Type) := BState {
  blocks : gmap addr block;
  all_blocks : list addr;
  block_by_role : list addr;
  partitions : gmap addr partition;
  mallocs : list addr;
  messages : list message;
  disks : D;
}.
Arguments BState {D} _ _ _ _ _ _ _.
Arguments blocks {D} _.
Arguments all_blocks {D} _.
Arguments block_by_role {D} _.
Arguments partitions {D} _.
Arguments mallocs {D} _.
Arguments messages {D} _.
Arguments disks {D} _.

(** Fields of a sector, little-endian; a byte is a [uint8_t]. *)
Definition byte_of (bs : list Z) (i : nat) : Z := u8 (default 0 (bs !! i)).
Definition u16_of (bs : list Z) (i : nat) : Z := byte_of bs i + 256 * byte_of bs (i + 1).
Definition u32_of (bs : list Z) (i : nat) : Z := u16_of bs i + 65536 * u16_of bs (i + 2).
(** A 32-bit value as it is stored. *)
Definition word (w : Z) : list Z := [w mod 256; w / 256 mod 256; w / 65536 mod 256; w / 16777216 mod 256].

Section block.
Context {D : Type} `{DiskDriver D}.
Abbreviation B := (ST (bstate D)).

Definition set_blocks (f : gmap addr block → gmap addr block) (s : bstate D) : bstate D :=
  BState (f (blocks s)) (all_blocks s) (block_by_role s) (partitions s) (mallocs s) (messages s) (disks s).
Definition set_all (f : list addr → list addr) (s : bstate D) : bstate D :=
  BState (blocks s) (f (all_blocks s)) (block_by_role s) (partitions s) (mallocs s) (messages s) (disks s).
Definition set_roles (f : list addr → list addr) (s : bstate D) : bstate D :=
  BState (blocks s) (all_blocks s) (f (block_by_role s)) (partitions s) (mallocs s) (messages s) (disks s).
Definition set_partitions (f : gmap addr partition → gmap addr partition) (s : bstate D) : bstate D :=
  BState (blocks s) (all_blocks s) (block_by_role s) (f (partitions s)) (mallocs s) (messages s) (disks s).
Definition set_mallocs (f : list addr → list addr) (s : bstate D) : bstate D :=
  BState (blocks s) (all_blocks s) (block_by_role s) (partitions s) (f (mallocs s)) (messages s) (disks s).
Definition set_disks (d : D) (s : bstate D) : bstate D :=
  BState (blocks s) (all_blocks s) (block_by_role s) (partitions s) (mallocs s) (messages s) d.
Definition print (m : message) : B () := modify (λ s,
  BState (blocks s) (all_blocks s) (block_by_role s) (partitions s) (mallocs s) (messages s ++ [m]) (disks s)).

Definition block_malloc : B addr :=
  l ← gets mallocs;
  modify (set_mallocs tail);;
  mret (default NULL (head l)).
Definition ld_block (b : addr) : B block := λ s,
  match blocks s !! b with Some x => Ret (x, s) | None => Fault end.
Definition ld_partition (p : addr) : B partition := λ s,
  match partitions s !! p with Some x => Ret (x, s) | None => Fault end.
Definition on_disks {A} (f : ST D A) : B A := λ s,
  match f (disks s) with
  | Ret (a, d) => Ret (a, set_disks d s)
  | Panic => Panic
  | Fault => Fault
  | NoFuel => NoFuel
  end.

(** ** Finding devices *)

Definition block_get_role (role : block_type) : B addr :=
  assert (type_index role <? BLOCK_ROLE_CNT)%nat;;
  l ← gets block_by_role;
  mret (default NULL (l !! type_index role)).

Definition block_set_role (role : block_type) (b : addr) : B () :=
  assert (type_index role <? BLOCK_ROLE_CNT)%nat;;
  modify (set_roles <[type_index role := b]>).

(** The device of an element of [all_blocks], and null for the end of the list. *)
Definition list_elem_to_block (l : list addr) : addr := default NULL (head l).

Definition block_first : B addr := l ← gets all_blocks; mret (list_elem_to_block l).

(** What follows [b] in the list. *)
Fixpoint after (b : addr) (l : list addr) : list addr :=
  match l with
  | [] => []
  | x :: l => if x =? b then l else after b l
  end.
Definition block_next (b : addr) : B addr :=
  _ ← ld_block b; l ← gets all_blocks; mret (list_elem_to_block (after b l)).

Fixpoint find_name (nm : string) (l : list addr) : B addr :=
  match l with
  | [] => mret NULL
  | b :: l => x ← ld_block b; if String.eqb nm (b_name x) then mret b else find_name nm l
  end.
Definition block_get_by_name (nm : string) : B addr := l ← gets all_blocks; find_name nm l.

(** ** Reading and writing *)

Definition check_sector (b : addr) (sector : Z) : B () :=
  x ← ld_block b; if b_size x <=? sector then panic else mret ().

Definition count_read (x : block) : block :=
  Block (b_name x) (b_type x) (b_size x) (b_ops x) (b_aux x) (u64 (read_cnt x + 1)) (write_cnt x).
Definition count_write (x : block) : block :=
  Block (b_name x) (b_type x) (b_size x) (b_ops x) (b_aux x) (read_cnt x) (u64 (write_cnt x + 1)).
Definition upd_block (b : addr) (f : block → block) : B () :=
  x ← ld_block b; modify (set_blocks <[b := f x]>).

(** [partition_read] and [partition_write], with [block_read] and [block_write] to call. *)
Definition partition_read (block_read : addr → Z → B (list Z)) (p_ : addr) (sector : Z) : B (list Z) :=
  p ← ld_partition p_; block_read (p_block p) (u32 (p_start p + sector)).
Definition partition_write (block_write : addr → Z → list Z → B ()) (p_ : addr) (sector : Z) (buffer : list Z) : B () :=
  p ← ld_partition p_; block_write (p_block p) (u32 (p_start p + sector)) buffer.

(** The fuel bounds how deep partitions are nested. *)
Fixpoint block_read_from (fuel : nat) (b : addr) (sector : Z) : B (list Z) :=
  match fuel with
  | O => λ _, NoFuel
  | S fuel =>
      check_sector b sector;;
      x ← ld_block b;
      buffer ← (match b_ops x with
                | driver_operations => on_disks (drv_read (b_aux x) sector)
                | partition_operations => partition_read (block_read_from fuel) (b_aux x) sector
                end);
      upd_block b count_read;;
      mret buffer
  end.
Fixpoint block_write_from (fuel : nat) (b : addr) (sector : Z) (buffer : list Z) : B () :=
  match fuel with
  | O => λ _, NoFuel
  | S fuel =>
      check_sector b sector;;
      x ← ld_block b;
      assert (negb (bool_decide (b_type x = BLOCK_FOREIGN)));;
      (match b_ops x with
       | driver_operations => on_disks (drv_write (b_aux x) sector buffer)
       | partition_operations => partition_write (block_write_from fuel) (b_aux x) sector buffer
       end);;
      upd_block b count_write
  end.
(** No device is below more devices than there are. *)
Definition block_read (b : addr) (sector : Z) : B (list Z) := λ s,
  block_read_from (length (all_blocks s)) b sector s.
Definition block_write (b : addr) (sector : Z) (buffer : list Z) : B () := λ s,
  block_write_from (length (all_blocks s)) b sector buffer s.

Definition block_size (b : addr) : B Z := x ← ld_block b; mret (b_size x).
Definition block_name (b : addr) : B string := x ← ld_block b; mret (b_name x).
Definition type_of_block (b : addr) : B block_type := x ← ld_block b; mret (b_type x).

Definition block_print_stats : B () :=
  for_each BLOCK_ROLE_CNT 0 (λ i,
    l ← gets block_by_role;
    let b := default NULL (l !! Z.to_nat i) in
    if nonnull b then
      x ← ld_block b;
      print (Stats (b_name x) (block_type_name (b_type x)) (read_cnt x) (write_cnt x))
    else mret ()).

(** ** Registering devices *)

(** [strlcpy] into the 16 bytes of [name]. *)
Definition name16 (s : string) : string := String.substring 0 15 s.

Definition block_register (nm : string) (type : block_type) (extra_info : extra) (size : Z)
    (ops : block_operations) (aux : addr) : B addr :=
  b ← block_malloc;
  if negb (nonnull b) then panic else
  modify (set_all (λ l, l ++ [b]));;
  modify (set_blocks <[b := Block (name16 nm) type size ops aux 0 0]>);;
  print (Registered (name16 nm) size extra_info);;
  mret b.

(** ** Partition tables *)

(** [struct partition_table_entry], at offset [446 + 16 * i] of the sector. *)
Record partition_table_entry := Entry { e_type : Z; e_offset : Z; e_size : Z }.
Definition entry_of (pt : list Z) (i : nat) : partition_table_entry :=
  let o := (446 + 16 * i)%nat in
  Entry (byte_of pt (o + 4)) (u32_of pt (o + 8)) (u32_of pt (o + 12)).
Definition signature (pt : list Z) : Z := u16_of pt 510.

Definition type_names : list (Z * string) :=
  [(0x00, "Empty"); (0x01, "FAT12"); (0x02, "XENIX root");
   (0x03, "XENIX usr"); (0x04, "FAT16 <32M"); (0x05, "Extended");
   (0x06, "FAT16"); (0x07, "HPFS/NTFS"); (0x08, "AIX");
   (0x09, "AIX bootable"); (0x0a, "OS/2 Boot Manager"); (0x0b, "W95 FAT32");
   (0x0c, "W95 FAT32 (LBA)"); (0x0e, "W95 FAT16 (LBA)"); (0x0f, "W95 Ext'd (LBA)");
   (0x10, "OPUS"); (0x11, "Hidden FAT12"); (0x12, "Compaq diagnostics");
   (0x14, "Hidden FAT16 <32M"); (0x16, "Hidden FAT16"); (0x17, "Hidden HPFS/NTFS");
   (0x18, "AST SmartSleep"); (0x1b, "Hidden W95 FAT32"); (0x1c, "Hidden W95 FAT32 (LBA)");
   (0x1e, "Hidden W95 FAT16 (LBA)"); (0x20, "Pintos OS kernel"); (0x21, "Pintos file system");
   (0x22, "Pintos scratch"); (0x23, "Pintos swap"); (0x24, "NEC DOS");
   (0x39, "Plan 9"); (0x3c, "PartitionMagic recovery"); (0x40, "Venix 80286");
   (0x41, "PPC PReP Boot"); (0x42, "SFS"); (0x4d, "QNX4.x");
   (0x4e, "QNX4.x 2nd part"); (0x4f, "QNX4.x 3rd part"); (0x50, "OnTrack DM");
   (0x51, "OnTrack DM6 Aux1"); (0x52, "CP/M"); (0x53, "OnTrack DM6 Aux3");
   (0x54, "OnTrackDM6"); (0x55, "EZ-Drive"); (0x56, "Golden Bow");
   (0x5c, "Priam Edisk"); (0x61, "SpeedStor"); (0x63, "GNU HURD or SysV");
   (0x64, "Novell Netware 286"); (0x65, "Novell Netware 386"); (0x70, "DiskSecure Multi-Boot");
   (0x75, "PC/IX"); (0x80, "Old Minix"); (0x81, "Minix / old Linux");
   (0x82, "Linux swap / Solaris"); (0x83, "Linux"); (0x84, "OS/2 hidden C: drive");
   (0x85, "Linux extended"); (0x86, "NTFS volume set"); (0x87, "NTFS volume set");
   (0x88, "Linux plaintext"); (0x8e, "Linux LVM"); (0x93, "Amoeba");
   (0x94, "Amoeba BBT"); (0x9f, "BSD/OS"); (0xa0, "IBM Thinkpad hibernation");
   (0xa5, "FreeBSD"); (0xa6, "OpenBSD"); (0xa7, "NeXTSTEP");
   (0xa8, "Darwin UFS"); (0xa9, "NetBSD"); (0xab, "Darwin boot");
   (0xb7, "BSDI fs"); (0xb8, "BSDI swap"); (0xbb, "Boot Wizard hidden");
   (0xbe, "Solaris boot"); (0xbf, "Solaris"); (0xc1, "DRDOS/sec (FAT-12)");
   (0xc4, "DRDOS/sec (FAT-16 < 32M)"); (0xc6, "DRDOS/sec (FAT-16)"); (0xc7, "Syrinx");
   (0xda, "Non-FS data"); (0xdb, "CP/M / CTOS / ..."); (0xde, "Dell Utility");
   (0xdf, "BootIt"); (0xe1, "DOS access"); (0xe3, "DOS R/O");
   (0xe4, "SpeedStor"); (0xeb, "BeOS fs"); (0xee, "EFI GPT");
   (0xef, "EFI (FAT-12/16/32)"); (0xf0, "Linux/PA-RISC boot"); (0xf1, "SpeedStor");
   (0xf4, "SpeedStor"); (0xf2, "DOS secondary"); (0xfd, "Linux raid autodetect");
   (0xfe, "LANstep"); (0xff, "BBT")].

Definition partition_type_name (type : Z) : string :=
  match list_find (λ e, e.1 = type) type_names with
  | Some (_, (_, nm)) => nm
  | None => "Unknown"
  end.

Definition is_extended (type : Z) : bool := bool_decide (type ∈ [0x05; 0x0f; 0x85; 0xc5]).

Definition role_of_type (part_type : Z) : block_type :=
  if part_type =? 0x20 then BLOCK_KERNEL
  else if part_type =? 0x21 then BLOCK_FILESYS
  else if part_type =? 0x22 then BLOCK_SCRATCH
  else if part_type =? 0x23 then BLOCK_SWAP
  else BLOCK_FOREIGN.

(** The name is what snprintf stores in 16 bytes for the format %s%d. *)
Definition found_partition (b : addr) (part_type start size part_nr : Z) : B () :=
  nm ← block_name b;
  bsize ← block_size b;
  if bsize <=? start then print (PartitionStartsPastEnd nm part_nr start)
  else if (u32 (start + size) <? start) || (bsize <? u32 (start + size)) then
    print (PartitionEndsPastEnd nm part_nr (u32 (start + size)) bsize)
  else
    p ← block_malloc;
    if negb (nonnull p) then panic else
    modify (set_partitions <[p := Partition b start]>);;
    _ ← block_register (name16 (nm +:+ pretty part_nr)) (role_of_type part_type)
          (PartitionInfo (partition_type_name part_type) part_type) size partition_operations p;
    mret ().

(** One entry of the table [pt]; [rec] is [read_partition_table]. *)
Definition scan_entry (rec : Z → Z → Z → B Z) (b : addr) (nm : string) (pt : list Z)
    (sector primary_extended_sector : Z) : nat * Z → B (ctl (nat * Z) Z) := λ '(i, part_nr),
  if (i <? 4)%nat then
    let e := entry_of pt i in
    if (e_size e =? 0) || (e_type e =? 0) then mret (Next (S i, part_nr))
    else if is_extended (e_type e) then
      print (ExtendedPartition nm sector);;
      part_nr ← (if sector =? 0 then rec (e_offset e) (e_offset e) part_nr
                 else rec (u32 (e_offset e + primary_extended_sector)) primary_extended_sector part_nr);
      mret (Next (S i, part_nr))
    else
      found_partition b (e_type e) (u32 (e_offset e + sector)) (e_size e) (part_nr + 1);;
      mret (Next (S i, part_nr + 1))
  else mret (Stop part_nr).

(** The table of the device is always read from sector 0.  The result is [*part_nr]; the fuel
    bounds the depth of the recursion. *)
Fixpoint read_partition_table (fuel : nat) (b : addr) (sector primary_extended_sector part_nr : Z) : B Z :=
  match fuel with
  | O => λ _, NoFuel
  | S fuel =>
      bsize ← block_size b;
      nm ← block_name b;
      if bsize <=? sector then print (PastEndOfDevice nm sector);; mret part_nr else
      p ← block_malloc;
      if negb (nonnull p) then panic else
      pt ← block_read b 0;
      if negb (signature pt =? 0xaa55) then
        print (if primary_extended_sector =? 0 then InvalidSignature nm else InvalidExtended nm sector);;
        mret part_nr
      else
        loop 5 (scan_entry (read_partition_table fuel b) b nm pt sector primary_extended_sector) (O, part_nr)
  end.

Definition partition_scan (fuel : nat) (b : addr) : B () :=
  part_nr ← read_partition_table fuel b 0 0 0;
  if part_nr =? 0 then nm ← block_name b; print (NoPartitions nm) else mret ().
End block.
