(* ===== verification/BlocksProofs.v ===== *)
(** * Block devices and partitions: windows, isolation, and the partition table

    [blocks_ok] is the invariant of the devices: every partition lies inside a device that was
    registered before it.  Under it a sector of a device is a sector of one disk ([place]), and
    reading and writing refine that view. *)
From stdpp Require Import pretty.
From S2P Require Import Prelude KList Blocks.

Section blocks.
Context {D : Type} `{DiskDriver D}.
Implicit Types s : bstate D.
Implicit Types b aux : addr.

(** ** The disk sector that a sector of a device is *)

Fixpoint place_from (fuel : nat) s b (sector : Z) : option (addr * nat) :=
  match fuel with
  | O => None
  | S fuel =>
      x ← blocks s !! b;
      if bool_decide (0 ≤ sector < b_size x) then
        match b_ops x with
        | driver_operations => Some (b_aux x, Z.to_nat sector)
        | partition_operations =>
            p ← partitions s !! b_aux x; place_from fuel s (p_block p) (p_start p + sector)
        end
      else None
  end.
Definition place s b (sector : Z) : option (addr * nat) := place_from (length (all_blocks s)) s b sector.

(** The contents of a sector of a device. *)
Definition sector_at s b (sector : Z) : option (list Z) :=
  '(aux, k) ← place s b sector; media (disks s) aux !! k.

(** ** The invariant *)

(** [b] is entry [n] of the list of devices. *)
Abbreviation rank s b n := (all_blocks s !! (n : nat) = Some b).

Record blocks_ok s : Prop := BlocksOk {
  bo_nodup : NoDup (all_blocks s);
  bo_dom b : is_Some (blocks s !! b) ↔ b ∈ all_blocks s;
  bo_size b x : blocks s !! b = Some x → fits 32 (b_size x);
  bo_driver b x : blocks s !! b = Some x → b_ops x = driver_operations →
    Z.of_nat (length (media (disks s) (b_aux x))) = b_size x;
  bo_partition b x : blocks s !! b = Some x → b_ops x = partition_operations →
    ∃ p y i j, partitions s !! b_aux x = Some p ∧ blocks s !! p_block p = Some y ∧
      rank s (p_block p) i ∧ rank s b j ∧ (i < j)%nat ∧ b_type y ≠ BLOCK_FOREIGN ∧
      0 ≤ p_start p ∧ p_start p + b_size x ≤ b_size y;
  bo_mallocs : NoDup (mallocs s);
  bo_fresh (q : addr) : q ∈ mallocs s → blocks s !! q = None ∧ partitions s !! q = None;
}.

Lemma bo_rank s b x : blocks_ok s → blocks s !! b = Some x → ∃ n, rank s b n ∧ (n < length (all_blocks s))%nat.
Proof.
  intros Hok Hb. assert (b ∈ all_blocks s) as [n Hn]%list_elem_of_lookup by (apply (bo_dom _ Hok); eauto).
  exists n. split; [done|]. by eapply lookup_lt_Some.
Qed.

Lemma rank_inj s b i j : blocks_ok s → rank s b i → rank s b j → i = j.
Proof. intros Hok. apply NoDup_lookup, Hok. Qed.

(** More fuel than the rank does not matter. *)
Lemma place_fuel s : blocks_ok s → ∀ n b sector f1 f2, rank s b n → (n < f1)%nat → (n < f2)%nat →
  place_from f1 s b sector = place_from f2 s b sector.
Proof.
  intros Hok n. induction (lt_wf n) as [n _ IH]. intros b sector [|f1] [|f2] Hn H1 H2; [lia..|]. simpl.
  destruct (blocks s !! b) as [x|] eqn:Hb; [|done]. simpl. case_bool_decide; [|done].
  destruct (b_ops x) eqn:Ho; [done|].
  destruct (bo_partition _ Hok _ _ Hb Ho) as (p & y & i & j & -> & Hy & Hi & Hj & Hij & _). simpl.
  pose proof (rank_inj _ _ _ _ Hok Hn Hj) as ->. apply (IH i); [done..|lia|lia].
Qed.

(** One step towards the disk. *)
Lemma place_driver s b x sector : blocks_ok s → blocks s !! b = Some x → b_ops x = driver_operations →
  0 ≤ sector < b_size x → place s b sector = Some (b_aux x, Z.to_nat sector).
Proof.
  intros Hok Hb Ho Hs. destruct (bo_rank _ _ _ Hok Hb) as (n & _ & Hn). unfold place.
  destruct (length (all_blocks s)); [lia|]. simpl. rewrite Hb. simpl. by rewrite bool_decide_eq_true_2, Ho.
Qed.

Lemma place_partition s b x p sector : blocks_ok s → blocks s !! b = Some x → b_ops x = partition_operations →
  partitions s !! b_aux x = Some p → 0 ≤ sector < b_size x →
  place s b sector = place s (p_block p) (p_start p + sector).
Proof.
  intros Hok Hb Ho Hp Hs.
  destruct (bo_partition _ Hok _ _ Hb Ho) as (p' & y & i & j & Hp' & Hy & Hi & Hj & Hij & _). simplify_eq.
  pose proof (lookup_lt_Some _ _ _ Hj). destruct (length (all_blocks s)) as [|m] eqn:Hm; [lia|].
  unfold place at 1. rewrite Hm. cbn. rewrite Hb. cbn. rewrite bool_decide_eq_true_2, Ho, Hp by done. cbn.
  unfold place. rewrite Hm. apply (place_fuel _ Hok i); [done|lia|lia].
Qed.

Lemma place_outside s b x sector : blocks s !! b = Some x → ¬ (0 ≤ sector < b_size x) → place s b sector = None.
Proof. intros Hb Hs. unfold place. destruct (length _); [done|]. simpl. rewrite Hb. simpl. by rewrite bool_decide_eq_false_2. Qed.

(** A sector of a device is a sector of the disk, and different sectors are different ones. *)
Lemma place_some s : blocks_ok s → ∀ n b x sector, rank s b n → blocks s !! b = Some x → 0 ≤ sector < b_size x →
  ∃ aux k, place s b sector = Some (aux, k) ∧ (k < length (media (disks s) aux))%nat ∧
    ∀ i, 0 ≤ i < b_size x → ∃ k', place s b i = Some (aux, k') ∧ Z.of_nat k' - Z.of_nat k = i - sector.
Proof.
  intros Hok n. induction (lt_wf n) as [n _ IH]. intros b x sector Hn Hb Hs.
  destruct (b_ops x) eqn:Ho.
  - exists (b_aux x), (Z.to_nat sector). rewrite (place_driver _ _ _ _ Hok Hb Ho) by done.
    pose proof (bo_driver _ Hok _ _ Hb Ho). split; [done|]. split; [lia|].
    intros i Hi. exists (Z.to_nat i). rewrite (place_driver _ _ _ _ Hok Hb Ho) by done. split; [done|lia].
  - destruct (bo_partition _ Hok _ _ Hb Ho) as (p & y & i & j & Hp & Hy & Hi & Hj & Hij & _ & H0 & Hw).
    pose proof (rank_inj _ _ _ _ Hok Hn Hj) as ->.
    destruct (IH i Hij (p_block p) y (p_start p + sector)) as (aux & k & Hk & Hlt & Hall); [done..|lia|].
    exists aux, k. rewrite (place_partition _ _ _ _ _ Hok Hb Ho Hp) by done. split; [done|]. split; [done|].
    intros l Hl. destruct (Hall (p_start p + l)) as (k' & Hk' & Hd); [lia|].
    exists k'. rewrite (place_partition _ _ _ _ _ Hok Hb Ho Hp) by done. split; [done|lia].
Qed.

(** ** What reading and writing leave alone *)

Definition erase (x : block) : block := Block (b_name x) (b_type x) (b_size x) (b_ops x) (b_aux x) 0 0.

(** [s'] is [s] up to the counters and the contents of the disks, which keep their sizes. *)
Record same_devices s s' : Prop := SameDevices {
  sd_blocks b : erase <$> blocks s' !! b = erase <$> blocks s !! b;
  sd_all : all_blocks s' = all_blocks s;
  sd_roles : block_by_role s' = block_by_role s;
  sd_partitions : partitions s' = partitions s;
  sd_mallocs : mallocs s' = mallocs s;
  sd_messages : messages s' = messages s;
  sd_media a : length (media (disks s') a) = length (media (disks s) a);
}.

#[global] Instance same_devices_preorder : PreOrder same_devices.
Proof.
  split; [by constructor|]. intros s1 s2 s3 [] []. constructor; try congruence;
    intros; etransitivity; eauto.
Qed.

Lemma sd_lookup s s' b x : same_devices s s' → blocks s !! b = Some x →
  ∃ x', blocks s' !! b = Some x' ∧ erase x' = erase x.
Proof. intros Hs Hb. pose proof (sd_blocks _ _ Hs b) as E. rewrite Hb in E. destruct (blocks s' !! b) as [x'|]; [|done]. apply (inj Some) in E. by exists x'. Qed.

Lemma sd_lookup_back s s' b x' : same_devices s s' → blocks s' !! b = Some x' →
  ∃ x, blocks s !! b = Some x ∧ erase x' = erase x.
Proof. intros Hs Hb. pose proof (sd_blocks _ _ Hs b) as E. rewrite Hb in E. destruct (blocks s !! b) as [x|]; [|done]. apply (inj Some) in E. by exists x. Qed.

Lemma sd_place s s' : same_devices s s' → ∀ b sector, place s' b sector = place s b sector.
Proof.
  intros Hs b sector. unfold place. rewrite (sd_all _ _ Hs). generalize (length (all_blocks s)) as n.
  intros n. revert b sector. induction n as [|n IH]; intros b sector; [done|]. simpl.
  pose proof (sd_blocks _ _ Hs b) as E. rewrite (sd_partitions _ _ Hs).
  destruct (blocks s' !! b) as [x'|], (blocks s !! b) as [x|]; [|done..]. injection E as _ _ Es Eo Ea.
  simpl. rewrite Es, Eo, Ea. case_bool_decide; [|done].
  destruct (b_ops x); [done|]. destruct (partitions s !! b_aux x); simpl; [apply IH|done].
Qed.

Lemma sd_ok s s' : same_devices s s' → blocks_ok s → blocks_ok s'.
Proof.
  intros Hs Hok. constructor.
  - rewrite (sd_all _ _ Hs). apply Hok.
  - intros b. rewrite (sd_all _ _ Hs), <-(bo_dom _ Hok), <-!not_eq_None_Some.
    pose proof (sd_blocks _ _ Hs b). by destruct (blocks s' !! b), (blocks s !! b).
  - intros b x' (x & Hb & E)%(sd_lookup_back _ _ _ _ Hs). injection E as _ _ -> _ _. by apply (bo_size _ Hok b).
  - intros b x' (x & Hb & E)%(sd_lookup_back _ _ _ _ Hs). injection E as _ _ -> -> ->.
    rewrite (sd_media _ _ Hs). by apply (bo_driver _ Hok b).
  - intros b x' (x & Hb & E)%(sd_lookup_back _ _ _ _ Hs). injection E as _ _ -> -> ->. intros Ho.
    destruct (bo_partition _ Hok b x Hb Ho) as (p & y & i & j & Hp & Hy & Hi & Hj & Hij & Ht & Hr).
    destruct (sd_lookup _ _ _ _ Hs Hy) as (y' & Hy' & E'). injection E' as _ Et Es _ _.
    exists p, y', i, j. rewrite (sd_partitions _ _ Hs), (sd_all _ _ Hs), Et, Es. done.
  - rewrite (sd_mallocs _ _ Hs). apply Hok.
  - intros p. rewrite (sd_mallocs _ _ Hs), (sd_partitions _ _ Hs). intros [Hb ?]%(bo_fresh _ Hok). split; [|done].
    pose proof (sd_blocks _ _ Hs p) as E. rewrite Hb in E. by destruct (blocks s' !! p).
Qed.

Lemma upd_block_run s b x f : blocks s !! b = Some x → upd_block b f s = Ret ((), set_blocks <[b := f x]> s).
Proof. intros Hb. unfold upd_block. run_by ltac:(unfold ld_block; by rewrite Hb). done. Qed.

Lemma ld_block_run s b x : blocks s !! b = Some x → ld_block b s = Ret (x, s).
Proof. unfold ld_block. by intros ->. Qed.

Lemma same_count s b x f : blocks s !! b = Some x → erase (f x) = erase x → same_devices s (set_blocks <[b := f x]> s).
Proof.
  intros Hb Hf. constructor; try done. intros b'. simpl. destruct (decide (b' = b)) as [->|?].
  - rewrite lookup_insert_eq, Hb. simpl. by rewrite Hf.
  - by rewrite lookup_insert_ne.
Qed.

Lemma check_sector_run s b x sector : blocks s !! b = Some x → sector < b_size x → check_sector b sector s = Ret ((), s).
Proof.
  intros Hb Hlt. unfold check_sector. rewrite (bind_run _ _ _ _ _ (ld_block_run _ _ _ Hb)).
  by rewrite (proj2 (Z.leb_gt _ _)) by lia.
Qed.

(** The contents of the disks after sector [k] of [aux] has been written. *)
Definition wrote s s' aux (k : nat) (bs : list Z) : Prop :=
  media (disks s') aux = <[k := bs]> (media (disks s) aux) ∧ ∀ a, a ≠ aux → media (disks s') a = media (disks s) a.

Lemma sector_fits s b x sector : blocks_ok s → blocks s !! b = Some x → 0 ≤ sector < b_size x → u32 sector = sector.
Proof. intros Hok Hb Hs. apply wrap_small. pose proof (bo_size _ Hok _ _ Hb). unfold fits in *. lia. Qed.

Lemma block_read_from_spec s : blocks_ok s → ∀ n b x sector fuel, rank s b n → (n < fuel)%nat →
  blocks s !! b = Some x → 0 ≤ sector < b_size x →
  wp (block_read_from fuel b sector) s (λ bs s', sector_at s b sector = Some bs ∧ same_devices s s' ∧
    ∀ a, media (disks s') a = media (disks s) a).
Proof.
  intros Hok n. induction (lt_wf n) as [n _ IH]. intros b x sector [|fuel] Hn Hf Hb Hs; [lia|]. cbn [block_read_from].
  wp_bind_by ltac:(eapply check_sector_run; [done|lia]). wp_bind_by ltac:(eapply ld_block_run).
  apply wp_bind. eapply (wp_mono _ _ (λ bs s', sector_at s b sector = Some bs ∧ same_devices s s' ∧
    ∀ a, media (disks s') a = media (disks s) a)).
  - destruct (b_ops x) eqn:Ho.
    + unfold sector_at. rewrite (place_driver _ _ _ _ Hok Hb Ho Hs). simpl.
      pose proof (bo_driver _ Hok _ _ Hb Ho) as Hlen.
      destruct (lookup_lt_is_Some_2 (media (disks s) (b_aux x)) (Z.to_nat sector)) as [bs Hbs]; [lia|].
      destruct (drv_read_law _ _ _ _ Hbs) as (d' & Hr & Hm). rewrite Z2Nat.id in Hr by lia.
      eapply wp_run; [unfold on_disks; by rewrite Hr|]. simpl. split; [done|]. split; [|done].
      constructor; try done. intros a. simpl. by rewrite Hm.
    + destruct (bo_partition _ Hok _ _ Hb Ho) as (p & y & i & j & Hp & Hy & Hi & Hj & Hij & _ & H0 & Hw).
      pose proof (rank_inj _ _ _ _ Hok Hn Hj) as ->. unfold partition_read.
      wp_bind_by ltac:(unfold ld_partition; by rewrite Hp).
      rewrite (sector_fits s _ y) by (done || lia).
      eapply wp_mono; [eapply (IH i Hij (p_block p) y); [done|lia|done|lia]|]. cbv beta.
      intros bs s' (Hbs & Hsd & Hm). split; [|done]. unfold sector_at in *.
      by rewrite (place_partition _ _ _ _ _ Hok Hb Ho Hp).
  - intros bs s1 (Hbs & Hsd & Hm). destruct (sd_lookup _ _ _ _ Hsd Hb) as (x1 & Hx1 & _).
    wp_bind_by ltac:(by apply upd_block_run). apply wp_ret. split; [done|]. split; [|done].
    etransitivity; [done|]. by apply same_count.
Qed.

Lemma block_write_from_spec s data : blocks_ok s → ∀ n b x sector fuel, rank s b n → (n < fuel)%nat →
  blocks s !! b = Some x → b_type x ≠ BLOCK_FOREIGN → 0 ≤ sector < b_size x →
  wp (block_write_from fuel b sector data) s (λ _ s', same_devices s s' ∧
    ∃ aux k, place s b sector = Some (aux, k) ∧ wrote s s' aux k data).
Proof.
  intros Hok n. induction (lt_wf n) as [n _ IH]. intros b x sector [|fuel] Hn Hf Hb Ht Hs; [lia|]. cbn [block_write_from].
  wp_bind_by ltac:(eapply check_sector_run; [done|lia]). wp_bind_by ltac:(eapply ld_block_run).
  wp_bind_by ltac:(apply assert_run; by rewrite bool_decide_eq_false_2).
  apply wp_bind. eapply (wp_mono _ _ (λ _ s', same_devices s s' ∧
    ∃ aux k, place s b sector = Some (aux, k) ∧ wrote s s' aux k data)).
  - destruct (b_ops x) eqn:Ho.
    + rewrite (place_driver _ _ _ _ Hok Hb Ho Hs).
      pose proof (bo_driver _ Hok _ _ Hb Ho) as Hlen.
      destruct (lookup_lt_is_Some_2 (media (disks s) (b_aux x)) (Z.to_nat sector)) as [bs Hbs]; [lia|].
      destruct (drv_write_law _ _ _ data _ Hbs) as (d' & Hr & Hm & Ho'). rewrite Z2Nat.id in Hr by lia.
      eapply wp_run; [unfold on_disks; by rewrite Hr|]. split; [|by exists (b_aux x), (Z.to_nat sector)].
      constructor; try done. intros a. simpl. destruct (decide (a = b_aux x)) as [->|?].
      * rewrite Hm. apply length_insert.
      * by rewrite Ho'.
    + destruct (bo_partition _ Hok _ _ Hb Ho) as (p & y & i & j & Hp & Hy & Hi & Hj & Hij & Hyt & H0 & Hw).
      pose proof (rank_inj _ _ _ _ Hok Hn Hj) as ->. unfold partition_write.
      wp_bind_by ltac:(unfold ld_partition; by rewrite Hp).
      rewrite (sector_fits s (p_block p) y); [|done|done|lia].
      rewrite (place_partition _ _ _ _ _ Hok Hb Ho Hp) by done.
      eapply (IH i Hij (p_block p) y); [done|lia|done|done|lia].
  - intros [] s1 (Hsd & aux & k & Hk & Hm & Hother). destruct (sd_lookup _ _ _ _ Hsd Hb) as (x1 & Hx1 & _).
    eapply wp_run; [by apply upd_block_run|]. split; [etransitivity; [done|by apply same_count]|].
    by exists aux, k.
Qed.

(** ** Registering devices *)

Lemma block_malloc_run s q l : mallocs s = q :: l → block_malloc s = Ret (q, set_mallocs tail s).
Proof. unfold block_malloc. intros Hm. run_by ltac:(done). run_by ltac:(done). by rewrite Hm. Qed.

(** The state after a device has been entered at the new address [q]. *)
Definition registered s (q : addr) nm type info size ops aux : bstate D :=
  BState (<[q := Block (name16 nm) type size ops aux 0 0]> (blocks s)) (all_blocks s ++ [q]) (block_by_role s)
    (partitions s) (tail (mallocs s)) (messages s ++ [Registered (name16 nm) size info]) (disks s).

Lemma block_register_run s q l nm type info size ops aux : mallocs s = q :: l → q ≠ NULL →
  block_register nm type info size ops aux s = Ret (q, registered s q nm type info size ops aux).
Proof.
  intros Hm Hq. unfold block_register. rewrite (bind_run _ _ _ _ _ (block_malloc_run _ _ _ Hm)). cbv beta.
  unfold nonnull.
  rewrite (proj2 (Z.eqb_neq q NULL) Hq). cbn [negb]. by run_by ltac:(done).
Qed.

(** A device that fits its driver's disk, or lies inside a registered device, may be entered. *)
Definition fits_below s (size : Z) ops aux : Prop :=
  match ops with
  | driver_operations => Z.of_nat (length (media (disks s) aux)) = size
  | partition_operations => ∃ p y, partitions s !! aux = Some p ∧ blocks s !! p_block p = Some y ∧
      b_type y ≠ BLOCK_FOREIGN ∧ 0 ≤ p_start p ∧ p_start p + size ≤ b_size y
  end.

Lemma registered_ok s q l nm type info size ops aux : blocks_ok s → mallocs s = q :: l →
  fits 32 size → fits_below s size ops aux → blocks_ok (registered s q nm type info size ops aux).
Proof.
  intros Hok Hm Hsz Hfit. pose proof (bo_mallocs _ Hok) as Hnd. rewrite Hm in Hnd. apply NoDup_cons in Hnd as [Hq Hnd].
  destruct (bo_fresh _ Hok q) as [Hqb Hqp]; [rewrite Hm; apply list_elem_of_here|].
  assert (q ∉ all_blocks s) as Hnew by (rewrite <-(bo_dom _ Hok), Hqb; by intros [? ?]).
  assert (∀ b x, blocks s !! b = Some x → b ≠ q) as Hne by (intros b x ? ->; congruence).
  unfold registered. constructor; simpl; rewrite ?Hm; simpl.
  - apply NoDup_app. split; [apply Hok|]. split; [set_solver|]. apply NoDup_singleton.
  - intros b. rewrite elem_of_app, list_elem_of_singleton, <-(bo_dom _ Hok), lookup_insert_is_Some.
    destruct (decide (q = b)); naive_solver.
  - intros b x. destruct (decide (b = q)) as [->|?]; [rewrite lookup_insert_eq|rewrite lookup_insert_ne by done].
    + by intros [= <-].
    + apply (bo_size _ Hok).
  - intros b x. destruct (decide (b = q)) as [->|?]; [rewrite lookup_insert_eq|rewrite lookup_insert_ne by done].
    + intros [= <-]. simpl. by intros ->.
    + apply (bo_driver _ Hok).
  - intros b x. destruct (decide (b = q)) as [->|?]; [rewrite lookup_insert_eq|rewrite lookup_insert_ne by done].
    + intros [= <-]. simpl. intros ->. destruct Hfit as (p & y & Hp & Hy & Hr).
      destruct (bo_rank _ _ _ Hok Hy) as (i & Hi & Hlt). exists p, y, i, (length (all_blocks s)).
      rewrite lookup_insert_ne by (symmetry; eauto). rewrite lookup_app_l by done.
      rewrite list_lookup_middle by done. done.
    + intros Hb Ho. destruct (bo_partition _ Hok _ _ Hb Ho) as (p & y & i & j & Hp & Hy & Hi & Hj & Hr).
      exists p, y, i, j. rewrite lookup_insert_ne by (symmetry; eauto).
      rewrite !lookup_app_l by (by eapply lookup_lt_Some). done.
  - done.
  - intros r Hr. destruct (bo_fresh _ Hok r) as [? ?]; [rewrite Hm; set_solver|].
    rewrite lookup_insert_ne by (intros ->; done). done.
Qed.

(** ** Partitions *)

Lemma byte_of_range bs i : 0 ≤ byte_of bs i < 256.
Proof. apply (wrap_fits 8). lia. Qed.
Lemma u32_of_fits bs i : fits 32 (u32_of bs i).
Proof.
  unfold fits, u32_of, u16_of. pose proof (byte_of_range bs i). pose proof (byte_of_range bs (i + 1)).
  pose proof (byte_of_range bs (i + 2)). pose proof (byte_of_range bs (i + 2 + 1)). lia.
Qed.

(** Nothing registered is lost or changed, up to the counters. *)
Record grows s s' : Prop := Grows {
  gr_blocks b x : blocks s !! b = Some x → ∃ x', blocks s' !! b = Some x' ∧ erase x' = erase x;
  gr_partitions : partitions s ⊆ partitions s';
  gr_media a : media (disks s') a = media (disks s) a;
}.
#[local] Instance grows_preorder : PreOrder grows.
Proof.
  split.
  - intros s. constructor; eauto.
  - intros s1 s2 s3 [H1 H2 H3] [H4 H5 H6]. constructor.
    + intros b x (x' & Hx' & E)%H1. destruct (H4 _ _ Hx') as (x2 & ? & ?). exists x2. split; [done|congruence].
    + by etransitivity.
    + intros a. by rewrite H6.
Qed.

(** The state after [malloc] and the store of a new partition. *)
Definition with_partition s (q : addr) (p : partition) : bstate D := set_partitions <[q := p]> (set_mallocs tail s).

Lemma tail_mallocs_ok s : blocks_ok s → blocks_ok (set_mallocs tail s).
Proof.
  intros Hok. pose proof (bo_mallocs _ Hok) as Hnd. constructor; simpl; try apply Hok.
  - destruct (mallocs s); [done|]. by apply NoDup_cons in Hnd as [_ ?].
  - intros q Hq. apply (bo_fresh _ Hok). destruct (mallocs s); [done|]. by apply list_elem_of_further.
Qed.

Lemma with_partition_ok s q l p : blocks_ok s → mallocs s = q :: l → blocks_ok (with_partition s q p).
Proof.
  intros Hok Hm. pose proof (bo_mallocs _ Hok) as Hnd. rewrite Hm in Hnd. apply NoDup_cons in Hnd as [Hq Hnd].
  destruct (bo_fresh _ Hok q) as [Hqb Hqp]; [rewrite Hm; apply list_elem_of_here|].
  destruct (tail_mallocs_ok _ Hok). constructor; try done; simpl in *.
  - intros b x Hb Ho. destruct (bo_partition0 b x Hb Ho) as (p' & y & i & j & Hp & Hr). exists p', y, i, j.
    rewrite lookup_insert_ne by congruence. done.
  - intros r Hr. rewrite lookup_insert_ne by (rewrite Hm in Hr; set_solver). by apply bo_fresh0.
Qed.

Lemma print_ok s m : blocks_ok s →
  blocks_ok (BState (blocks s) (all_blocks s) (block_by_role s) (partitions s) (mallocs s) (messages s ++ [m]) (disks s)).
Proof. intros []. by constructor. Qed.

(** The device that [found_partition] enters, and the state it leaves. *)
Definition new_partition s b (x : block) (q1 q2 : addr) (part_type start size part_nr : Z) : bstate D :=
  registered (with_partition s q1 (Partition b start)) q2 (name16 (b_name x +:+ pretty part_nr))
    (role_of_type part_type) (PartitionInfo (partition_type_name part_type) part_type) size partition_operations q1.

Lemma found_partition_run s b x part_type start size part_nr q1 q2 l : blocks_ok s → blocks s !! b = Some x →
  fits 32 start → fits 32 size → mallocs s = q1 :: q2 :: l → q1 ≠ NULL → q2 ≠ NULL →
  found_partition b part_type start size part_nr s =
    if bool_decide (start < b_size x ∧ start + size ≤ b_size x) then
      Ret ((), new_partition s b x q1 q2 part_type start size part_nr)
    else print (if b_size x <=? start then PartitionStartsPastEnd (b_name x) part_nr start
                else PartitionEndsPastEnd (b_name x) part_nr (u32 (start + size)) (b_size x)) s.
Proof.
  intros Hok Hb Hst Hsz Hm H1 H2. unfold found_partition, block_name, block_size.
  do 2 (erewrite bind_run; [|by rewrite (bind_run _ _ _ _ _ (ld_block_run _ _ _ Hb))]).
  destruct (Z.leb_spec (b_size x) start) as [?|?]; [by rewrite bool_decide_eq_false_2 by lia|].
  pose proof (bo_size _ Hok _ _ Hb). unfold fits in *.
  assert ((u32 (start + size) <? start) || (b_size x <? u32 (start + size)) = negb (bool_decide (start + size ≤ b_size x))) as ->.
  { unfold wrap. destruct (decide (start + size < 2 ^ 32)).
    - rewrite Z.mod_small by lia. rewrite (proj2 (Z.ltb_ge _ _)) by lia.
      case_bool_decide; simpl; [apply Z.ltb_ge|apply Z.ltb_lt]; lia.
    - rewrite (bool_decide_eq_false_2 (_ ≤ _)) by lia.
      rewrite <-(Z.mod_unique (start + size) (2 ^ 32) 1 (start + size - 2 ^ 32)) by lia.
      by rewrite (proj2 (Z.ltb_lt _ _)) by lia. }
  rewrite (bool_decide_ext (_ ∧ _) (start + size ≤ b_size x)) by lia.
  case_bool_decide; [|done]. cbn [negb].
  rewrite (bind_run _ _ _ _ _ (block_malloc_run _ _ _ Hm)). cbv beta. unfold nonnull.
  rewrite (proj2 (Z.eqb_neq q1 NULL) H1). cbn [negb]. run_by ltac:(done).
  erewrite bind_run; [|apply (block_register_run _ q2 l); [simpl; by rewrite Hm|done]]. done.
Qed.

Lemma new_partition_ok s b x q1 q2 l part_type start size part_nr : blocks_ok s → blocks s !! b = Some x →
  b_type x ≠ BLOCK_FOREIGN → mallocs s = q1 :: q2 :: l → fits 32 size → 0 ≤ start → start + size ≤ b_size x →
  blocks_ok (new_partition s b x q1 q2 part_type start size part_nr) ∧
  grows s (new_partition s b x q1 q2 part_type start size part_nr).
Proof.
  intros Hok Hb Ht Hm Hsz H0 Hle. pose proof (with_partition_ok _ _ _ (Partition b start) Hok Hm) as Hok1. split.
  - eapply registered_ok; [done|simpl; by rewrite Hm|done|]. exists (Partition b start), x. simpl.
    by rewrite lookup_insert_eq.
  - pose proof (bo_mallocs _ Hok) as Hnd. rewrite Hm in Hnd.
    destruct (bo_fresh _ Hok q1) as [_ Hp1]; [rewrite Hm; set_solver|].
    destruct (bo_fresh _ Hok q2) as [Hb2 _]; [rewrite Hm; set_solver|].
    constructor; simpl; [|by apply insert_subseteq|done].
    intros b' x' Hb'. exists x'. by rewrite lookup_insert_ne by congruence.
Qed.

(** ** Scanning preserves the invariant, whatever the table says *)

Definition scanned s s' : Prop := blocks_ok s' ∧ grows s s'.

Lemma scanned_refl s : blocks_ok s → scanned s s.
Proof. by split. Qed.
Lemma scanned_trans s1 s2 s3 : scanned s1 s2 → scanned s2 s3 → scanned s1 s3.
Proof. intros [_ ?] [? ?]. split; [done|]. by etransitivity. Qed.

Lemma scanned_print s m : blocks_ok s → wlp (print m) s (λ _ s', scanned s s').
Proof. intros Hok. apply wlp_modify. split; [by apply print_ok|]. constructor; eauto. Qed.

Lemma scanned_malloc s : blocks_ok s → wlp block_malloc s (λ q s', scanned s s' ∧ (q ≠ NULL → ∃ l, mallocs s = q :: l ∧ s' = set_mallocs tail s)).
Proof.
  intros Hok. unfold block_malloc. apply wlp_bind, wlp_gets, wlp_bind, wlp_modify, wlp_ret. split.
  - split; [by apply tail_mallocs_ok|]. constructor; eauto.
  - destruct (mallocs s) as [|q l]; [done|]. by exists l.
Qed.

Lemma found_partition_scanned s b x part_type start size part_nr : blocks_ok s → blocks s !! b = Some x →
  b_type x ≠ BLOCK_FOREIGN → fits 32 start → fits 32 size →
  wlp (found_partition b part_type start size part_nr) s (λ _ s', scanned s s').
Proof.
  intros Hok Hb Ht Hst Hsz [] s' Hrun.
  destruct (mallocs s) as [|q1 [|q2 l]] eqn:Hm.
  1, 2: revert Hrun; unfold found_partition, block_name, block_size;
    do 2 (erewrite bind_run; [|by rewrite (bind_run _ _ _ _ _ (ld_block_run _ _ _ Hb))]);
    destruct (_ <=? _); [intros Hr; by eapply scanned_print|];
    destruct (_ || _); [intros Hr; by eapply scanned_print|].
  - rewrite (bind_run block_malloc _ s NULL (set_mallocs tail s)); [done|]. unfold block_malloc. run_by ltac:(done). by rewrite Hm.
  - rewrite (bind_run _ _ _ _ _ (block_malloc_run _ _ _ Hm)). cbv beta. destruct (nonnull q1); [|done]. cbn [negb].
    run_by ltac:(done). unfold block_register, mbind at 1, ST_bind at 1.
    rewrite (bind_run block_malloc _ _ NULL (set_mallocs tail (with_partition s q1 (Partition b start)))); [done|].
    unfold block_malloc. run_by ltac:(done). simpl. by rewrite Hm.
  - destruct (decide (q1 = NULL ∨ q2 = NULL)) as [Hnull|Hnn].
    + revert Hrun. unfold found_partition, block_name, block_size.
      do 2 (erewrite bind_run; [|by rewrite (bind_run _ _ _ _ _ (ld_block_run _ _ _ Hb))]).
      destruct (_ <=? _); [intros Hr; by eapply scanned_print|].
      destruct (_ || _); [intros Hr; by eapply scanned_print|].
      rewrite (bind_run _ _ _ _ _ (block_malloc_run _ _ _ Hm)). cbv beta. unfold nonnull at 1.
      destruct (Z.eqb_spec q1 NULL) as [?|?]; [done|]. cbn [negb]. destruct Hnull as [?| ->]; [done|].
      run_by ltac:(done). unfold block_register, mbind at 1, ST_bind at 1.
      erewrite bind_run; [|eapply block_malloc_run; simpl; by rewrite Hm]. done.
    + rewrite (found_partition_run s b x part_type start size part_nr q1 q2 l) in Hrun by (done || naive_solver).
      case_bool_decide as Hin; [|by eapply scanned_print].
      injection Hrun as <-. unfold fits in Hst. eapply new_partition_ok; try done; lia.
Qed.

Lemma block_read_scanned s b x : blocks_ok s → blocks s !! b = Some x → 0 < b_size x →
  wlp (block_read b 0) s (λ _ s', scanned s s').
Proof.
  intros Hok Hb Hsz bs s' Hrun. destruct (bo_rank _ _ _ Hok Hb) as (n & Hn & Hlt).
  destruct (wp_inv _ _ _ (block_read_from_spec s Hok n b x 0 _ Hn Hlt Hb ltac:(lia))) as (bs' & s1 & Hr & _ & Hsd & Hm).
  unfold block_read in Hrun. rewrite Hr in Hrun. simplify_eq. split; [by eapply sd_ok|].
  constructor; [intros b' x' Hb'; by eapply sd_lookup|by rewrite (sd_partitions _ _ Hsd)|done].
Qed.

(** The loop over the entries, with any function that preserves the invariant for the
    recursive calls. *)
Lemma wlp_loop {A C} (I : A → bstate D → Prop) (body : A → ST (bstate D) (ctl A C)) (Q : C → bstate D → Prop) :
  (∀ a s, I a s → wlp (body a) s (λ r s', match r with Next a' => I a' s' | Stop c => Q c s' end)) →
  ∀ fuel a s, I a s → wlp (loop fuel body a) s Q.
Proof.
  intros Hb fuel. induction fuel as [|n IH]; intros a s HI; [done|]. simpl. apply wlp_bind.
  eapply wlp_mono; [by apply Hb|]. intros [a'|c] s' Hs'; [by apply IH|by apply wlp_ret].
Qed.

Lemma read_partition_table_scanned b fuel : ∀ s x sector pes nr, blocks_ok s → blocks s !! b = Some x →
  b_type x ≠ BLOCK_FOREIGN → 0 ≤ sector → wlp (read_partition_table fuel b sector pes nr) s (λ _ s', scanned s s').
Proof.
  induction fuel as [|fuel IH]; intros s x sector pes nr Hok Hb Ht Hs0; [done|]. cbn [read_partition_table].
  unfold block_size, block_name.
  do 2 (eapply wlp_bind_run; [by rewrite (bind_run _ _ _ _ _ (ld_block_run _ _ _ Hb))|]).
  destruct (Z.leb_spec (b_size x) sector) as [?|Hlt].
  { apply wlp_bind. eapply wlp_mono; [by apply scanned_print|]. intros u s' ?. by apply wlp_ret. }
  apply wlp_bind. eapply wlp_mono; [by apply scanned_malloc|]. intros q s1 [Hs1 _]. cbv beta.
  destruct (nonnull q); [|done]. cbn [negb]. destruct (gr_blocks _ _ (proj2 Hs1) _ _ Hb) as (x1 & Hb1 & E1).
  injection E1 as _ Et1 Es1 _ _.
  apply wlp_bind. eapply wlp_mono; [apply (block_read_scanned _ _ x1); [apply Hs1|done|lia]|].
  intros pt s2 Hs2. pose proof (scanned_trans _ _ _ Hs1 Hs2) as Hs12. destruct (negb _).
  { apply wlp_bind. eapply wlp_mono; [apply scanned_print; apply Hs2|]. intros u s3 Hs3. apply wlp_ret.
    by eapply scanned_trans. }
  apply (wlp_loop (λ _ s', scanned s s')); [|done]. clear -Hok Hb Ht Hs0 IH.
  intros [i nr'] s1 Hs1. unfold scan_entry. destruct (_ <? _)%nat; [|by apply wlp_ret]. cbv zeta.
  destruct (gr_blocks _ _ (proj2 Hs1) _ _ Hb) as (x1 & Hb1 & E1). injection E1 as _ Et1 Es1 _ _.
  destruct (_ || _); [by apply wlp_ret|]. destruct (is_extended _).
  - apply wlp_bind. eapply wlp_mono; [apply scanned_print; apply Hs1|]. intros u s2 Hs2. cbv beta.
    pose proof (scanned_trans _ _ _ Hs1 Hs2) as Hs12.
    destruct (gr_blocks _ _ (proj2 Hs12) _ _ Hb) as (x2 & Hb2 & E2). injection E2 as _ Et2 Es2 _ _.
    apply wlp_bind. eapply (wlp_mono _ _ (λ _ s', scanned s2 s')); [|intros nr2 s3 Hs3; apply wlp_ret; eapply scanned_trans; [exact Hs1|exact (scanned_trans _ _ _ Hs2 Hs3)]].
    destruct (sector =? 0); (eapply IH; [apply Hs2|exact Hb2|congruence|]).
    + apply u32_of_fits.
    + apply wrap_fits. lia.
  - apply wlp_bind. eapply (wlp_mono _ _ (λ _ s', scanned s1 s')); [|intros [] s3 Hs3; apply wlp_ret; by eapply scanned_trans].
    eapply found_partition_scanned; [apply Hs1|exact Hb1|congruence|by apply wrap_fits|apply u32_of_fits].
Qed.

Lemma partition_scan_scanned s b x fuel : blocks_ok s → blocks s !! b = Some x → b_type x ≠ BLOCK_FOREIGN →
  wlp (partition_scan fuel b) s (λ _ s', scanned s s').
Proof.
  intros Hok Hb Ht. apply wlp_bind. eapply wlp_mono; [by eapply read_partition_table_scanned|]. intros nr s1 Hs1.
  destruct (nr =? 0); [|by apply wlp_ret]. destruct (gr_blocks _ _ (proj2 Hs1) _ _ Hb) as (x1 & Hb1 & _).
  eapply wlp_bind_run; [unfold block_name; by rewrite (bind_run _ _ _ _ _ (ld_block_run _ _ _ Hb1))|].
  eapply wlp_mono; [apply scanned_print; apply Hs1|]. intros u s2 Hs2. exact (scanned_trans _ _ _ Hs1 Hs2).
Qed.

(** ** What a table without extended partitions gives *)

Definition table_entries (pt : list Z) : list partition_table_entry := entry_of pt <$> [0; 1; 2; 3]%nat.
Definition empty_entry (e : partition_table_entry) : bool := (e_size e =? 0) || (e_type e =? 0).

(** The partitions of a list of entries with their numbers, after [nr] others. *)
Fixpoint numbered (nr : Z) (es : list partition_table_entry) : list (Z * partition_table_entry) :=
  match es with
  | [] => []
  | e :: es => if empty_entry e then numbered nr es else (nr + 1, e) :: numbered (nr + 1) es
  end.
(** The ones that lie inside a device of [size] sectors. *)
Definition inside (size : Z) (e : Z * partition_table_entry) : Prop :=
  e_offset e.2 < size ∧ e_offset e.2 + e_size e.2 ≤ size.
#[local] Instance inside_dec size e : Decision (inside size e) := and_dec _ _.

(** [q] is the device of the partition [e] of [b], whose name is [nm]. *)
Definition partition_device s b nm (q : addr) (e : Z * partition_table_entry) : Prop :=
  ∃ p, blocks s !! q = Some (Block (name16 (name16 (nm +:+ pretty e.1))) (role_of_type (e_type e.2)) (e_size e.2)
                              partition_operations p 0 0) ∧
    partitions s !! p = Some (Partition b (e_offset e.2)).

(** What scanning the entries [found] of the device [b] does. *)
Record scan_result s s' b (x : block) (found : list (Z * partition_table_entry)) : Prop := ScanResult {
  sr_ok : blocks_ok s';
  sr_blocks : blocks s ⊆ blocks s';
  sr_partitions : partitions s ⊆ partitions s';
  sr_disks : disks s' = disks s;
  sr_new : ∃ qs, all_blocks s' = all_blocks s ++ qs ∧
    Forall2 (partition_device s' b (b_name x)) qs (filter (inside (b_size x)) found);
}.

Lemma partition_device_mono s s' b nm q e : blocks s ⊆ blocks s' → partitions s ⊆ partitions s' →
  partition_device s b nm q e → partition_device s' b nm q e.
Proof. intros Hb Hp (p & Hq & Hpp). exists p. split; by eapply lookup_weaken. Qed.

Lemma scan_result_cons s1 s2 s3 b x e es : scan_result s1 s2 b x [e] → scan_result s2 s3 b x es →
  scan_result s1 s3 b x (e :: es).
Proof.
  intros [Ho1 Hb1 Hp1 Hd1 (qs1 & Ha1 & Hf1)] [Ho2 Hb2 Hp2 Hd2 (qs2 & Ha2 & Hf2)].
  constructor; [done|by etransitivity|by etransitivity|congruence|]. exists (qs1 ++ qs2).
  split; [by rewrite Ha2, Ha1, (assoc_L (++))|]. change (e :: es) with ([e] ++ es). rewrite filter_app.
  apply Forall2_app; [|done]. eapply Forall2_impl; [exact Hf1|]. intros q e' He. by eapply partition_device_mono.
Qed.

Lemma scan_result_nil s b x : blocks_ok s → scan_result s s b x [].
Proof. intros Hok. constructor; try done. exists []. split; [by rewrite app_nil_r|constructor]. Qed.

Lemma found_partition_result s b x nr e q1 q2 l : blocks_ok s → blocks s !! b = Some x → b_type x ≠ BLOCK_FOREIGN →
  fits 32 (e_offset e) → fits 32 (e_size e) → mallocs s = q1 :: q2 :: l → q1 ≠ NULL → q2 ≠ NULL →
  wp (found_partition b (e_type e) (e_offset e) (e_size e) nr) s (λ _ s', scan_result s s' b x [(nr, e)] ∧
    ∃ l1, mallocs s = l1 ++ mallocs s' ∧ (length l1 ≤ 2)%nat).
Proof.
  intros Hok Hb Ht Hof Hsz Hm H1 H2.
  pose proof (found_partition_run s b x (e_type e) (e_offset e) (e_size e) nr q1 q2 l Hok Hb Hof Hsz Hm H1 H2) as Hrun.
  case_bool_decide as Hin.
  - eapply wp_run; [exact Hrun|]. unfold fits in Hof.
    destruct (new_partition_ok s b x q1 q2 l (e_type e) (e_offset e) (e_size e) nr) as [Hok' Hg]; [done..|lia|lia|].
    destruct (bo_fresh _ Hok q2) as [Hb2 _]; [rewrite Hm; set_solver|].
    split; [|exists [q1; q2]; simpl; by rewrite Hm].
    constructor; [done| |apply Hg|done|].
    + by apply insert_subseteq.
    + exists [q2]. split; [done|]. rewrite filter_cons_True by exact Hin. rewrite filter_nil.
      apply Forall2_cons. split; [|constructor]. exists q1. simpl. by rewrite !lookup_insert_eq.
  - eapply wp_run; [exact Hrun|]. split; [|exists []; split; [done|simpl; lia]].
    constructor; [by apply print_ok|done..|]. exists []. split; [by rewrite app_nil_r|].
    by rewrite filter_cons_False, filter_nil by exact Hin.
Qed.

(** Devices that stay registered keep their sectors. *)
Lemma grows_place s s' : blocks_ok s → blocks_ok s' → grows s s' →
  ∀ n b x sector, rank s b n → blocks s !! b = Some x → place s' b sector = place s b sector.
Proof.
  intros Hok Hok' Hg n. induction (lt_wf n) as [n _ IH]. intros b x sector Hn Hb.
  destruct (gr_blocks _ _ Hg _ _ Hb) as (x' & Hb' & E). injection E as _ Et Es Eo Ea.
  destruct (decide (0 ≤ sector < b_size x)) as [Hs|Hs].
  2: { rewrite (place_outside s b x), (place_outside s' b x'); [done|done|by rewrite Es|done|done]. }
  destruct (b_ops x) eqn:Ho.
  - by rewrite (place_driver s b x), (place_driver s' b x'), Ea by (done || by rewrite Es).
  - destruct (bo_partition _ Hok _ _ Hb Ho) as (p & y & i & j & Hp & Hy & Hi & Hj & Hij & _).
    pose proof (rank_inj _ _ _ _ Hok Hn Hj) as ->.
    assert (partitions s' !! b_aux x' = Some p) as Hp' by (rewrite Ea; apply (lookup_weaken _ _ _ _ Hp), Hg).
    rewrite (place_partition s b x p), (place_partition s' b x' p) by (done || by rewrite Es). by eapply IH.
Qed.

Lemma grows_sector s s' b sector : blocks_ok s → blocks_ok s' → grows s s' → is_Some (blocks s !! b) →
  sector_at s' b sector = sector_at s b sector.
Proof.
  intros Hok Hok' Hg [x Hb]. destruct (bo_rank _ _ _ Hok Hb) as (n & Hn & _). unfold sector_at.
  rewrite (grows_place s s' Hok Hok' Hg n b x) by done. destruct (place s b sector) as [[aux k]|]; [|done]. simpl.
  by rewrite (gr_media _ _ Hg).
Qed.

Lemma scan_result_grows s s' b x found : scan_result s s' b x found → grows s s'.
Proof.
  intros [_ Hb Hp Hd _]. constructor; [|done|by rewrite Hd].
  intros b' x' Hb'. exists x'. split; [by eapply lookup_weaken|done].
Qed.

(** The loop of [read_partition_table] over the last [k] entries of a table with no extended
    partitions. *)
Lemma loop_unfold {A C} n (body : A → ST (bstate D) (ctl A C)) a :
  loop (S n) body a = body a ≫= λ r, match r with Next a' => loop n body a' | Stop c => mret c end.
Proof. done. Qed.

(** One entry that is not an extended partition. *)
Lemma entry_step rec pt b x nm pes i nr s q1 q2 l :
  (i < 4)%nat → (empty_entry (entry_of pt i) = false → is_extended (e_type (entry_of pt i)) = false) →
  blocks_ok s → blocks s !! b = Some x → b_type x ≠ BLOCK_FOREIGN →
  mallocs s = q1 :: q2 :: l → NULL ∉ mallocs s →
  wp (scan_entry rec b nm pt 0 pes (i, nr)) s (λ r s',
    if empty_entry (entry_of pt i) then r = Next (S i, nr) ∧ s' = s
    else r = Next (S i, nr + 1) ∧ scan_result s s' b x [(nr + 1, entry_of pt i)] ∧
      ∃ l1, mallocs s = l1 ++ mallocs s' ∧ (length l1 ≤ 2)%nat).
Proof.
  intros Hi He Hok Hb Ht Hm Hnn. unfold scan_entry.
  rewrite Hm in Hnn. apply not_elem_of_cons in Hnn as [H1 [H2 _]%not_elem_of_cons].
  rewrite (proj2 (Nat.ltb_lt i 4)) by lia. cbv zeta. fold (empty_entry (entry_of pt i)).
  destruct (empty_entry (entry_of pt i)); [by apply wp_ret|]. rewrite He by done. apply wp_bind.
  rewrite Z.add_0_r, (wrap_small 32) by apply u32_of_fits.
  eapply wp_mono; [eapply (found_partition_result s b x _ (entry_of pt i) q1 q2 l); try done; apply u32_of_fits|]. cbv beta. intros [] s1 Hr. by apply wp_ret.
Qed.

Lemma entries_loop rec pt b x nm pes k : ∀ i nr s, (i + k = 4)%nat →
  Forall (λ e, empty_entry e = false → is_extended (e_type e) = false) (table_entries pt) →
  blocks_ok s → blocks s !! b = Some x → b_type x ≠ BLOCK_FOREIGN →
  (2 * k ≤ length (mallocs s))%nat → NULL ∉ mallocs s →
  wp (loop (S k) (scan_entry rec b nm pt 0 pes) (i, nr)) s
    (λ nr' s', nr ≤ nr' ∧ (nr' = nr ↔ numbered nr (drop i (table_entries pt)) = []) ∧
      scan_result s s' b x (numbered nr (drop i (table_entries pt)))).
Proof.
  induction k as [|k IH]; intros i nr s Hik Hext Hok Hb Ht Hlen Hnn; rewrite loop_unfold.
  - assert (i = 4%nat) as -> by lia. wp_bind_by ltac:(done). apply wp_ret. split; [done|]. split; [done|].
    by apply scan_result_nil.
  - assert (table_entries pt !! i = Some (entry_of pt i)) as Hi.
    { unfold table_entries. rewrite list_lookup_fmap. do 4 (destruct i as [|i]; [done|]). lia. }
    rewrite (drop_S _ _ _ Hi). cbn [numbered].
    destruct (mallocs s) as [|q1 [|q2 l]] eqn:Hm; [simpl in Hlen; lia..|].
    apply wp_bind. eapply wp_mono; [eapply (entry_step rec pt b x nm pes i nr s q1 q2 l); try done; [lia| |by rewrite Hm]|].
    { by eapply (Forall_lookup_1 _ _ i) in Hext. }
    cbv beta. intros r s1 Hr. destruct (empty_entry (entry_of pt i)).
    + destruct Hr as [-> ->]. eapply IH; [lia|done..|rewrite Hm; simpl in *; lia|by rewrite Hm].
    + destruct Hr as (-> & Hr1 & l1 & Hl1 & Hle). rewrite <-Hm, Hl1 in Hnn. rewrite <-Hm, Hl1, length_app in Hlen.
      eapply wp_mono; [eapply (IH (S i) (nr + 1) s1); [lia|done|apply Hr1| |done|lia|set_solver]|].
      * eapply lookup_weaken; [exact Hb|apply Hr1].
      * cbv beta. intros nr' s2 (Hle' & _ & Hr2). split; [lia|]. split; [split; [lia|done]|].
        by eapply scan_result_cons.
Qed.

(** ** Reachable states *)

(** The state before any device is found, when [malloc] will answer [ms]. *)
Definition no_devices (ms : list addr) (d : D) : bstate D := BState ∅ [] (replicate BLOCK_ROLE_CNT NULL) ∅ ms [] d.

(** The IDE driver enters a disk of the size it has; a device that is not foreign may be
    scanned; and anyone may read, write and assign roles. *)
Inductive dev_step s : bstate D → Prop :=
| step_disk nm info size aux b s' :
    Z.of_nat (length (media (disks s) aux)) = size → fits 32 size →
    block_register nm BLOCK_RAW info size driver_operations aux s = Ret (b, s') → dev_step s s'
| step_scan b x fuel s' : blocks s !! b = Some x → b_type x ≠ BLOCK_FOREIGN →
    partition_scan fuel b s = Ret ((), s') → dev_step s s'
| step_read b sector bs s' : 0 ≤ sector → block_read b sector s = Ret (bs, s') → dev_step s s'
| step_write b sector bs s' : 0 ≤ sector → block_write b sector bs s = Ret ((), s') → dev_step s s'
| step_role role b s' : block_set_role role b s = Ret ((), s') → dev_step s s'.
Abbreviation dev_steps := (rtc dev_step).

Lemma no_devices_ok ms d : NoDup ms → blocks_ok (no_devices ms d).
Proof. intros Hms. constructor; simpl; try done. - constructor. - intros b. rewrite lookup_empty. split; [by intros [? ?]|set_solver]. Qed.

Lemma outside_panics s b sector x fuel data : blocks s !! b = Some x → b_size x ≤ sector →
  block_read_from (S fuel) b sector s = Panic ∧ block_write_from (S fuel) b sector data s = Panic.
Proof.
  intros Hb Hle. assert (check_sector b sector s = Panic) as Hc.
  { unfold check_sector. rewrite (bind_run _ _ _ _ _ (ld_block_run _ _ _ Hb)).
    by rewrite (proj2 (Z.leb_le _ _)) by lia. }
  cbn. unfold mbind, ST_bind. by rewrite Hc.
Qed.

Lemma check_passes s b sector u s' : check_sector b sector s = Ret (u, s') →
  ∃ x, blocks s !! b = Some x ∧ sector < b_size x.
Proof.
  unfold check_sector, ld_block, mbind, ST_bind. destruct (blocks s !! b) as [x|]; [|done].
  destruct (Z.leb_spec (b_size x) sector); [done|]. by exists x.
Qed.

Lemma block_read_returns s b sector bs s' : blocks_ok s → 0 ≤ sector → block_read b sector s = Ret (bs, s') →
  same_devices s s'.
Proof.
  unfold block_read. intros Hok H0 Hr. destruct (length (all_blocks s)) as [|n] eqn:Hn; [done|].
  pose proof Hr as Hr'. cbn [block_read_from] in Hr'. unfold mbind at 1, ST_bind at 1 in Hr'.
  destruct (check_sector b sector s) as [[u s1]| | |] eqn:Hc; [|done..].
  destruct (check_passes _ _ _ _ _ Hc) as (x & Hb & Hlt). destruct (bo_rank _ _ _ Hok Hb) as (m & Hm & Hml).
  destruct (wp_inv _ _ _ (block_read_from_spec s Hok m b x sector (S n) Hm ltac:(lia) Hb ltac:(lia))) as (bs' & s2 & Hr2 & _ & Hsd & _).
  congruence.
Qed.

Lemma block_write_returns s b sector bs s' : blocks_ok s → 0 ≤ sector → block_write b sector bs s = Ret ((), s') →
  same_devices s s'.
Proof.
  unfold block_write. intros Hok H0 Hr. destruct (length (all_blocks s)) as [|n] eqn:Hn; [done|].
  pose proof Hr as Hr'. cbn [block_write_from] in Hr'. unfold mbind at 1, ST_bind at 1 in Hr'.
  destruct (check_sector b sector s) as [[u s1]| | |] eqn:Hc; [|done..].
  destruct (check_passes _ _ _ _ _ Hc) as (x & Hb & Hlt).
  rewrite (check_sector_run _ _ _ _ Hb Hlt) in Hc. injection Hc as <- <-.
  unfold mbind at 1, ST_bind at 1 in Hr'. rewrite (ld_block_run _ _ _ Hb) in Hr'.
  unfold mbind at 1, ST_bind at 1, ASSERT in Hr'. case_bool_decide as Ht; [done|].
  destruct (bo_rank _ _ _ Hok Hb) as (m & Hm & Hml).
  destruct (wp_inv _ _ _ (block_write_from_spec s bs Hok m b x sector (S n) Hm ltac:(lia) Hb Ht ltac:(lia))) as (bs' & s2 & Hr2 & Hsd & _).
  congruence.
Qed.

Lemma dev_step_ok s s' : blocks_ok s → dev_step s s' → blocks_ok s'.
Proof.
  intros Hok [nm info size aux b s1 Hsz Hf Hr|b x fuel s1 Hb Ht Hr|b i bs s1 H0 Hr|b i bs s1 H0 Hr|role b s1 Hr].
  - destruct (mallocs s) as [|q l] eqn:Hm.
    + unfold block_register in Hr. rewrite (bind_run block_malloc _ s NULL (set_mallocs tail s)) in Hr; [done|].
      unfold block_malloc. run_by ltac:(done). by rewrite Hm.
    + destruct (decide (q = NULL)) as [->|Hq].
      * unfold block_register in Hr. by rewrite (bind_run _ _ _ _ _ (block_malloc_run _ _ _ Hm)) in Hr.
      * rewrite (block_register_run s q l) in Hr by done. injection Hr as <- <-. by eapply registered_ok.
  - by eapply (partition_scan_scanned s b x fuel).
  - eapply sd_ok; [by eapply block_read_returns|done].
  - eapply sd_ok; [by eapply block_write_returns|done].
  - revert Hr. unfold block_set_role. unfold mbind, ST_bind, ASSERT. destruct (_ <? _)%nat; [|done].
    intros [= <-]. destruct Hok. by constructor.
Qed.

Lemma reachable_ok ms d s : NoDup ms → dev_steps (no_devices ms d) s → blocks_ok s.
Proof.
  intros Hms. apply (rtc_ind_r (λ s, blocks_ok s)); [by apply no_devices_ok|]. intros s1 s2 _ Hst IH. by eapply dev_step_ok.
Qed.

Lemma place_inj s b x i j : blocks_ok s → blocks s !! b = Some x → 0 ≤ i < b_size x → 0 ≤ j < b_size x →
  ∃ aux k l, place s b i = Some (aux, k) ∧ place s b j = Some (aux, l) ∧
    (k < length (media (disks s) aux))%nat ∧ Z.of_nat l - Z.of_nat k = j - i.
Proof.
  intros Hok Hb Hi Hj. destruct (bo_rank _ _ _ Hok Hb) as (n & Hn & _).
  destruct (place_some s Hok n b x i Hn Hb Hi) as (aux & k & Hk & Hlt & Hall). destruct (Hall j Hj) as (l & Hl & Hd).
  by exists aux, k, l.
Qed.

(** A write changes the sectors of all devices that are the written sector of the disk. *)
Lemma wrote_sectors s s' b i aux k data : same_devices s s' → place s b i = Some (aux, k) →
  (k < length (media (disks s) aux))%nat → wrote s s' aux k data →
  ∀ b' j, sector_at s' b' j = if decide (place s b' j = place s b i) then Some data else sector_at s b' j.
Proof.
  intros Hsd Hk Hlt [Hm Ho] b' j. unfold sector_at. rewrite (sd_place _ _ Hsd), Hk.
  destruct (place s b' j) as [[aux' k']|]; [|done]. cbn. destruct (decide (aux' = aux)) as [->|Hne].
  - rewrite Hm. destruct (decide (k' = k)) as [->|?].
    + rewrite decide_True by done. by apply list_lookup_insert_eq.
    + rewrite decide_False by congruence. by apply list_lookup_insert_ne.
  - rewrite decide_False by congruence. by rewrite Ho.
Qed.

(** Reads and writes of a device as an array of sectors. *)
Lemma block_read_run s b x sector : blocks_ok s → blocks s !! b = Some x → 0 ≤ sector < b_size x →
  ∃ bs s', block_read b sector s = Ret (bs, s') ∧ same_devices s s' ∧ sector_at s b sector = Some bs ∧
    ∀ b' j, sector_at s' b' j = sector_at s b' j.
Proof.
  intros Hok Hb Hs. destruct (bo_rank _ _ _ Hok Hb) as (n & Hn & Hlt).
  destruct (wp_inv _ _ _ (block_read_from_spec s Hok n b x sector _ Hn Hlt Hb Hs)) as (bs & s' & Hr & Hbs & Hsd & Hm).
  exists bs, s'. split_and!; [done..|]. intros b' j. unfold sector_at.
  rewrite (sd_place _ _ Hsd). destruct (place s b' j) as [[? ?]|]; [|done]. simpl. by rewrite Hm.
Qed.

Lemma block_write_run s b x sector data : blocks_ok s → blocks s !! b = Some x → 0 ≤ sector < b_size x →
  b_type x ≠ BLOCK_FOREIGN → ∃ s', block_write b sector data s = Ret ((), s') ∧ same_devices s s' ∧
    ∀ b' j, sector_at s' b' j = if decide (place s b' j = place s b sector) then Some data else sector_at s b' j.
Proof.
  intros Hok Hb Hs Ht. destruct (bo_rank _ _ _ Hok Hb) as (n & Hn & Hlt).
  destruct (wp_unit _ _ _ (block_write_from_spec s data Hok n b x sector _ Hn Hlt Hb Ht Hs))
    as (s' & Hr & Hsd & aux & k & Hk & Hw).
  exists s'. split_and!; [done..|]. destruct (place_inj s b x sector sector) as (aux' & k' & l & Hk' & _ & Hkl & _); [done..|].
  assert ((aux', k') = (aux, k)) as [= -> ->] by congruence. by eapply wrote_sectors.
Qed.

Lemma place_eq s b x i j : blocks_ok s → blocks s !! b = Some x → 0 ≤ i < b_size x → 0 ≤ j < b_size x →
  place s b i = place s b j ↔ i = j.
Proof.
  intros Hok Hb Hi Hj. split; [|by intros ->]. destruct (place_inj s b x i j) as (aux & k & l & -> & -> & _ & Hd); [done..|].
  intros [= ->]. lia.
Qed.

(** A table whose first entry is an extended partition in the first half of the device. *)
Definition extended_first (pt : list Z) (size : Z) : Prop :=
  signature pt = 0xaa55 ∧ empty_entry (entry_of pt 0) = false ∧ is_extended (e_type (entry_of pt 0)) = true ∧
  0 < e_offset (entry_of pt 0) ∧ 2 * e_offset (entry_of pt 0) < size.

Lemma read_extended_never b pt x0 : extended_first pt (b_size x0) → ∀ fuel s x sector pes nr,
  blocks_ok s → blocks s !! b = Some x → b_size x = b_size x0 → sector_at s b 0 = Some pt →
  let o := e_offset (entry_of pt 0) in sector = 0 ∨ pes = o ∧ (sector = o ∨ sector = 2 * o) →
  wlp (read_partition_table fuel b sector pes nr) s (λ _ _, False).
Proof.
  intros (Hsig & Hne & Hext & H0 & H2) fuel. induction fuel as [|fuel IH]; intros s x sector pes nr Hok Hb Hsz Hpt o Hsec; [done|].
  assert (0 ≤ sector < b_size x) as Hrange by lia. cbn [read_partition_table]. unfold block_size, block_name.
  do 2 (eapply wlp_bind_run; [by rewrite (bind_run _ _ _ _ _ (ld_block_run _ _ _ Hb))|]).
  rewrite (proj2 (Z.leb_gt _ _)) by lia.
  apply wlp_bind. eapply wlp_mono; [by apply scanned_malloc|]. intros q s1 [[Hok1 Hg1] _]. cbv beta.
  destruct (nonnull q); [|done]. cbn [negb]. destruct (gr_blocks _ _ Hg1 _ _ Hb) as (x1 & Hb1 & E1).
  injection E1 as _ _ Es1 _ _. destruct (bo_rank _ _ _ Hok1 Hb1) as (n & Hn & Hlt).
  apply wlp_bind. intros pt' s2 Hr.
  destruct (wp_inv _ _ _ (block_read_from_spec s1 Hok1 n b x1 0 _ Hn Hlt Hb1 ltac:(lia))) as (pt2 & s2' & Hr' & Hpt2 & Hsd & Hmed).
  unfold block_read in Hr. rewrite Hr' in Hr. injection Hr as <- <-.
  rewrite (grows_sector s s1) in Hpt2 by eauto. assert (pt2 = pt) as -> by congruence. clear Hpt2.
  pose proof (sd_ok _ _ Hsd Hok1) as Hok2. destruct (sd_lookup _ _ _ _ Hsd Hb1) as (x2 & Hb2 & E2). injection E2 as _ _ Es2 _ _.
  assert (sector_at s2' b 0 = Some pt) as Hpt2.
  { rewrite <-Hpt, <-(grows_sector s s1 b 0) by eauto. unfold sector_at. rewrite (sd_place _ _ Hsd).
    destruct (place s1 b 0) as [[? ?]|]; [|done]. simpl. by rewrite Hmed. }
  rewrite (proj2 (Z.eqb_eq _ _) Hsig). cbn [negb]. rewrite loop_unfold. apply wlp_bind.
  unfold scan_entry at 1. cbv beta iota zeta. change (0 <? 4)%nat with true. cbv iota.
  fold (empty_entry (entry_of pt 0)). rewrite Hne, Hext. fold o.
  apply wlp_bind. eapply wlp_mono; [by apply scanned_print|]. intros u s3 [Hok3 Hg3].
  destruct (gr_blocks _ _ Hg3 _ _ Hb2) as (x3 & Hb3 & E3). injection E3 as _ _ Es3 _ _.
  assert (sector_at s3 b 0 = Some pt) as Hpt3 by (by rewrite (grows_sector s2' s3) by eauto).
  assert (u32 (o + o) = 2 * o) as Hoo.
  { rewrite wrap_small; [lia|]. pose proof (bo_size _ Hok _ _ Hb). unfold fits in *. lia. }
  apply wlp_bind. eapply (wlp_mono _ _ (λ _ _, False)); [|done].
  destruct (Z.eqb_spec sector 0) as [Hz|Hz].
  - eapply (IH s3 x3); [done|done|congruence|done|]. right. split; [done|by left].
  - destruct Hsec as [?|[-> Hsec]]; [done|].
    eapply (IH s3 x3); [done|done|congruence|done|]. right. split; [done|].
    right. exact Hoo.
Qed.

Lemma grows_mallocs s : blocks_ok s → grows s (set_mallocs tail s).
Proof. intros Hok. constructor; eauto. Qed.

Lemma same_grows s s' : same_devices s s' → (∀ a, media (disks s') a = media (disks s) a) → grows s s'.
Proof. intros Hsd Hm. constructor; [intros b x; by apply sd_lookup|by rewrite (sd_partitions _ _ Hsd)|done]. Qed.

Lemma scan_result_print s s' b x m found : scan_result s s' b x found →
  scan_result s (BState (blocks s') (all_blocks s') (block_by_role s') (partitions s') (mallocs s') (messages s' ++ [m]) (disks s')) b x found.
Proof. intros [? ? ? ? (qs & ? & ?)]. constructor; try done; [by apply print_ok|]. by exists qs. Qed.

(** The scan of a table without extended partitions: [s1] is the state in which the table has
    been read. *)
Lemma partition_scan_result s b x pt : blocks_ok s → blocks s !! b = Some x → b_type x ≠ BLOCK_FOREIGN →
  0 < b_size x → sector_at s b 0 = Some pt → signature pt = 0xaa55 →
  Forall (λ e, empty_entry e = false → is_extended (e_type e) = false) (table_entries pt) →
  (9 ≤ length (mallocs s))%nat → NULL ∉ mallocs s →
  wp (partition_scan 1 b) s (λ _ s', ∃ s1, grows s s1 ∧ blocks_ok s1 ∧ all_blocks s1 = all_blocks s ∧
    ∃ x1, blocks s1 !! b = Some x1 ∧ b_name x1 = b_name x ∧ b_size x1 = b_size x ∧
      scan_result s1 s' b x1 (numbered 0 (table_entries pt))).
Proof.
  intros Hok Hb Ht Hsz Hpt Hsig Hext Hlen Hnn.
  destruct (mallocs s) as [|q l] eqn:Hm; [simpl in Hlen; lia|]. apply not_elem_of_cons in Hnn as [Hq Hnn].
  pose proof (tail_mallocs_ok _ Hok) as Hok1. pose proof (grows_mallocs _ Hok) as Hg1. set (s1 := set_mallocs tail s) in *.
  destruct (bo_rank _ _ _ Hok1 (Hb : blocks s1 !! b = Some x)) as (n & Hn & Hlt).
  destruct (wp_inv _ _ _ (block_read_from_spec s1 Hok1 n b x 0 _ Hn Hlt Hb ltac:(lia))) as (pt' & s2 & Hr & Hpt' & Hsd & Hmed).
  rewrite (grows_sector s s1) in Hpt' by eauto. assert (pt' = pt) as -> by congruence.
  pose proof (sd_ok _ _ Hsd Hok1) as Hok2. destruct (sd_lookup _ _ _ _ Hsd Hb) as (x2 & Hb2 & E). injection E as En Et Es _ _.
  pose proof (transitivity Hg1 (same_grows _ _ Hsd Hmed)) as Hg2.
  apply wp_bind. cbn [read_partition_table]. unfold block_size, block_name.
  do 2 (eapply wp_bind_run; [by rewrite (bind_run _ _ _ _ _ (ld_block_run _ _ _ Hb))|]).
  rewrite (proj2 (Z.leb_gt _ _)) by lia. wp_bind_by ltac:(by apply (block_malloc_run _ q l)). unfold nonnull.
  rewrite (proj2 (Z.eqb_neq q NULL)) by done. cbn [negb]. eapply wp_bind_run; [exact Hr|].
  rewrite (proj2 (Z.eqb_eq _ _) Hsig). cbn [negb].
  eapply wp_mono; [eapply (entries_loop _ pt b x2 _ _ 4 0 0 s2); [done|done|done|done|congruence|..]|].
  1, 2: rewrite (sd_mallocs _ _ Hsd); subst s1; simpl; rewrite Hm; simpl in *; first [lia|exact Hnn].
  cbv beta. rewrite drop_0. intros nr s3 (_ & _ & Hres).
  assert (∃ x3, blocks s3 !! b = Some x3) as [x3 Hb3] by (exists x2; eapply lookup_weaken; [exact Hb2|apply Hres]).
  destruct (nr =? 0).
  - eapply wp_bind_run; [by rewrite (bind_run _ _ _ _ _ (ld_block_run _ _ _ Hb3))|]. apply wp_modify.
    exists s2. split; [done|]. split; [done|]. split; [by rewrite (sd_all _ _ Hsd)|]. exists x2.
    split; [done|]. split; [done|]. split; [done|]. by apply scan_result_print.
  - apply wp_ret. exists s2. split; [done|]. split; [done|]. split; [by rewrite (sd_all _ _ Hsd)|]. by exists x2.
Qed.

(** ** The claims *)

(** C13: A registered device behaves as the array of sectors [sector_at]: a read returns the
    sector and changes no device; a write changes exactly the sectors, of this device and of
    the others, that are the same sector of the disk; and an access past the end panics before
    it reaches the driver. *)
Theorem block_device_correct s b x sector data : blocks_ok s → blocks s !! b = Some x → 0 ≤ sector →
  (sector < b_size x → ∃ bs s', block_read b sector s = Ret (bs, s') ∧ blocks_ok s' ∧
     sector_at s b sector = Some bs ∧ ∀ b' j, sector_at s' b' j = sector_at s b' j) ∧
  (sector < b_size x → b_type x ≠ BLOCK_FOREIGN → ∃ s', block_write b sector data s = Ret ((), s') ∧ blocks_ok s' ∧
     ∀ b' j, sector_at s' b' j = if decide (place s b' j = place s b sector) then Some data else sector_at s b' j) ∧
  (b_size x ≤ sector → block_read b sector s = Panic ∧ block_write b sector data s = Panic).
Proof.
  intros Hok Hb H0. split; [|split].
  - intros Hs. destruct (block_read_run s b x sector) as (bs & s' & Hr & Hsd & ? & ?); [done..|].
    exists bs, s'. split; [done|]. split; [by eapply sd_ok|done].
  - intros Hs Ht. destruct (block_write_run s b x sector data) as (s' & Hr & Hsd & ?); [done..|].
    exists s'. split; [done|]. split; [by eapply sd_ok|done].
  - intros Hle. destruct (bo_rank _ _ _ Hok Hb) as (n & Hn & Hlt).
    unfold block_read, block_write. destruct (length (all_blocks s)) as [|m]; [lia|].
    by apply (outside_panics s b sector x).
Qed.

(** C25: In every reachable state each registered device, disk or partition at any depth, is a
    window of consecutive sectors of one disk: no sector number below its size is mapped
    outside the disk, and no two to the same sector. *)
Theorem partitions_confined ms d s b x i j : NoDup ms → dev_steps (no_devices ms d) s →
  blocks s !! b = Some x → 0 ≤ i < b_size x → 0 ≤ j < b_size x →
  ∃ aux k l, place s b i = Some (aux, k) ∧ place s b j = Some (aux, l) ∧
    (k < length (media (disks s) aux))%nat ∧ Z.of_nat l - Z.of_nat k = j - i.
Proof. intros Hms Hr. apply place_inj. by eapply reachable_ok. Qed.

(** Scanning a device whose partition table has no extended partitions registers exactly
    the partitions that lie inside the device, in order and numbered as in the table, each one
    a window of the device that starts at its offset; devices registered before keep their
    sectors. *)
Theorem partition_scan_correct s b x pt : blocks_ok s → blocks s !! b = Some x → b_type x ≠ BLOCK_FOREIGN →
  0 < b_size x → sector_at s b 0 = Some pt → signature pt = 0xaa55 →
  Forall (λ e, empty_entry e = false → is_extended (e_type e) = false) (table_entries pt) →
  (9 ≤ length (mallocs s))%nat → NULL ∉ mallocs s →
  ∃ s' qs, partition_scan 1 b s = Ret ((), s') ∧ blocks_ok s' ∧ all_blocks s' = all_blocks s ++ qs ∧
    Forall2 (λ q e, partition_device s' b (b_name x) q e ∧
               ∀ i, 0 ≤ i < e_size e.2 → sector_at s' q i = sector_at s b (e_offset e.2 + i))
      qs (filter (inside (b_size x)) (numbered 0 (table_entries pt))) ∧
    ∀ b' i, is_Some (blocks s !! b') → sector_at s' b' i = sector_at s b' i.
Proof.
  intros Hok Hb Ht Hsz Hpt Hsig Hext Hlen Hnn.
  destruct (wp_unit _ _ _ (partition_scan_result s b x pt Hok Hb Ht Hsz Hpt Hsig Hext Hlen Hnn))
    as (s' & Hrun & s1 & Hg1 & Hok1 & Hall1 & x1 & Hb1 & En & Es & Hres).
  destruct (sr_new _ _ _ _ _ Hres) as (qs & Hqs & Hf2). pose proof (sr_ok _ _ _ _ _ Hres) as Hok'.
  pose proof (transitivity Hg1 (scan_result_grows _ _ _ _ _ Hres)) as Hg.
  exists s', qs. split; [done|]. split; [done|]. split; [congruence|]. split.
  - rewrite <-En, <-Es. eapply Forall2_impl; [exact Hf2|]. intros q e (p & Hq & Hp). split; [by exists p|].
    intros i Hi. rewrite <-(grows_sector s s' b) by eauto. unfold sector_at.
    by rewrite (place_partition s' q _ (Partition b (e_offset e.2)) i Hok' Hq eq_refl Hp Hi).
  - intros b' i Hb'. by apply grows_sector.
Qed.

End blocks.

(** ** Examples: disks in memory *)

Abbreviation ram_disks := (gmap addr (list (list Z))).
Definition ram_media (d : ram_disks) (aux : addr) : list (list Z) := default [] (d !! aux).
#[global, program] Instance ram_driver : DiskDriver ram_disks := {
  drv_read aux i := λ d, match ram_media d aux !! Z.to_nat i with Some bs => Ret (bs, d) | None => Fault end;
  drv_write aux i bs := λ d, Ret ((), <[aux := <[Z.to_nat i := bs]> (ram_media d aux)]> d);
  media := ram_media;
}.
Next Obligation. intros d aux i bs Hbs. exists d. by rewrite Nat2Z.id, Hbs. Qed.
Next Obligation.
  intros d aux i bs old Hold. eexists. split; [done|]. unfold ram_media. rewrite Nat2Z.id, lookup_insert_eq.
  split; [done|]. intros a Ha. by rewrite lookup_insert_ne.
Qed.

(** A table entry, and a table with its signature. *)
Definition entry_bytes (type offset size : Z) : list Z := [0; 0; 0; 0; type; 0; 0; 0] ++ word offset ++ word size.
Definition table (es : list (list Z)) : list Z := replicate 446 0 ++ concat es ++ [0x55; 0xaa].

(** A disk of 64 sectors: a kernel, a partition that does not fit, an empty entry and a file
    system. *)
Definition example_table : list Z :=
  table [entry_bytes 0x20 2 8; entry_bytes 0x83 60 5; entry_bytes 0 0 0; entry_bytes 0x21 16 32].
Definition extended_table : list Z :=
  table [entry_bytes 5 16 32; entry_bytes 0 0 0; entry_bytes 0 0 0; entry_bytes 0 0 0].
Definition disk_of (pt : list Z) : ram_disks := {[ 0x1f0 := pt :: replicate 63 [] ]}.
Definition free_addresses : list addr := (λ i, 4096 + 64 * Z.of_nat i) <$> seq 0 16.
(** The state in which the disk has been found, at address 4096. *)
Definition hda (pt : list Z) : bstate ram_disks :=
  registered (no_devices free_addresses (disk_of pt)) 4096 "hda" BLOCK_RAW NoInfo 64 driver_operations 0x1f0.

Lemma hda_ok pt : blocks_ok (hda pt).
Proof.
  eapply registered_ok; [|done|done|done]. apply no_devices_ok. by_evaluation.
Qed.

Lemma hda_reachable pt : rtc dev_step (no_devices free_addresses (disk_of pt)) (hda pt).
Proof.
  apply rtc_once, (step_disk _ "hda" NoInfo 64 0x1f0 4096); [done|done|].
  by eapply block_register_run.
Qed.

(** The names and sizes of the devices after a scan. *)
Example scan_example :
  match partition_scan 1 4096 (hda example_table) with
  | Ret (_, s) => omap (λ b, (λ x, (b_name x, b_type x, b_size x)) <$> blocks s !! b) (all_blocks s)
  | _ => []
  end = [("hda", BLOCK_RAW, 64); ("hda1", BLOCK_KERNEL, 8); ("hda3", BLOCK_FILESYS, 32)].
Proof. by vm_compute. Qed.

Definition hda_block : block := Block "hda" BLOCK_RAW 64 driver_operations 0x1f0 0 0.

Lemma block_device_correct_witness :
  (∃ s', block_write 4096 5 [7] (hda example_table) = Ret ((), s') ∧ sector_at s' 4096 5 = Some [7]) ∧
  block_read 4096 64 (hda example_table) = Panic.
Proof.
  destruct (block_device_correct (hda example_table) 4096 hda_block 5 [7] (hda_ok _) eq_refl ltac:(lia)) as (_ & Hw & _).
  destruct (block_device_correct (hda example_table) 4096 hda_block 64 [7] (hda_ok _) eq_refl ltac:(lia)) as (_ & _ & Hp).
  split; [|by apply Hp].
  destruct Hw as (s' & Hw & _ & Hs'); [done..|]. exists s'. split; [done|]. by rewrite Hs', decide_True.
Defined.

Lemma partitions_confined_witness : ∃ aux k l,
  place (hda example_table) 4096 3 = Some (aux, k) ∧ place (hda example_table) 4096 9 = Some (aux, l) ∧
  (k < length (media (disks (hda example_table)) aux))%nat ∧ Z.of_nat l - Z.of_nat k = 9 - 3.
Proof.
  apply (partitions_confined free_addresses (disk_of example_table) (hda example_table) 4096 hda_block 3 9);
    [|apply hda_reachable|done|simpl; lia..].
  by_evaluation.
Defined.

Lemma partition_scan_correct_witness : ∃ s' qs, partition_scan 1 4096 (hda example_table) = Ret ((), s') ∧
  all_blocks s' = all_blocks (hda example_table) ++ qs ∧ length qs = 2%nat.
Proof.
  destruct (partition_scan_correct (hda example_table) 4096 hda_block example_table (hda_ok _) eq_refl)
    as (s' & qs & Hr & _ & Ha & Hf & _); [done|done|by vm_compute|by vm_compute| | | |].
  - by_evaluation.
  - by_evaluation.
  - by_evaluation.
  - exists s', qs. split; [exact Hr|]. split; [exact Ha|]. rewrite (Forall2_length _ _ _ Hf). by vm_compute.
Defined.

