(* ===== verification/Input.v ===== *)
(** * Keyboard, serial port and their queues: src/src/devices/intq.c, input.c, serial.c, kbd.c

    The hardware is a pair of sequences: the answers of [inb] to come and the log of the bytes
    written with [outb].  Waiting for the hardware for ever is running out of answers.

    A function that sleeps gives up the processor in [lock_acquire] or [thread_block], and the
    rest of it runs when the thread runs again.  [intq_getc] and [intq_putc] answer [None] at the
    point where the thread has called [lock_acquire]; [wait] is what it does when it has the
    lock, and [intq_woken] what it does when it has been woken, before it starts over. *)
From S2P Require Import Prelude KList CString Kernel Thread Synch Stdio.

(** ** Ports *)

Record io := IO { answers : list Z; written : list (Z * Z) }.
Definition inb (port : Z) : ST io Z := λ i,
  match answers i with b :: bs => Ret (b, IO bs (written i)) | [] => NoFuel end.
Definition outb (port data : Z) : ST io () := modify (λ i, IO (answers i) (written i ++ [(port, u8 data)])).

(** ** State *)

Definition INTQ_BUFSIZE : Z := 64.
Record intq := Intq {
  q_lock : addr;
  not_full : addr;
  not_empty : addr;
  buf : list Z;
  head : Z;
  tail : Z;
}.
Inductive serial_mode := UNINIT | POLL | QUEUE.
#[global] Instance serial_mode_eq_dec : EqDecision serial_mode.
Proof. solve_decision. Defined.

(** The static variables of kbd.c. *)
Record kbd := Kbd {
  left_shift : bool;
  right_shift : bool;
  left_alt : bool;
  right_alt : bool;
  left_ctrl : bool;
  right_ctrl : bool;
  caps_lock : bool;
  key_cnt : Z;
}.

(** [buffer] is the queue of input.c and [txq] the one of serial.c. *)
Record devs := Devs {
  buffer : intq;
  txq : intq;
  mode : serial_mode;
  keys : kbd;
  handlers : gmap Z string;
  ports : io;
  core : kern;
}.
Abbreviation I := (ST devs).

(** The queue that a pointer to a queue points to. *)
Inductive queue := Buffer | Txq.
Definition q_of (q : queue) (d : devs) : intq := match q with Buffer => buffer d | Txq => txq d end.
Definition set_q (q : queue) (x : intq) (d : devs) : devs :=
  match q with
  | Buffer => Devs x (txq d) (mode d) (keys d) (handlers d) (ports d) (core d)
  | Txq => Devs (buffer d) x (mode d) (keys d) (handlers d) (ports d) (core d)
  end.
Definition set_mode (m : serial_mode) (d : devs) : devs :=
  Devs (buffer d) (txq d) m (keys d) (handlers d) (ports d) (core d).
Definition set_keys (f : kbd → kbd) (d : devs) : devs :=
  Devs (buffer d) (txq d) (mode d) (f (keys d)) (handlers d) (ports d) (core d).
Definition set_handlers (f : gmap Z string → gmap Z string) (d : devs) : devs :=
  Devs (buffer d) (txq d) (mode d) (keys d) (f (handlers d)) (ports d) (core d).
Definition set_ports (i : io) (d : devs) : devs :=
  Devs (buffer d) (txq d) (mode d) (keys d) (handlers d) i (core d).
Definition set_core (k : kern) (d : devs) : devs :=
  Devs (buffer d) (txq d) (mode d) (keys d) (handlers d) (ports d) k.

Definition on_ports {A} (f : ST io A) : I A := λ d,
  match f (ports d) with
  | Ret (a, i) => Ret (a, set_ports i d)
  | Panic => Panic | Fault => Fault | NoFuel => NoFuel
  end.
Definition on_kern {A} (f : K A) : I A := λ d,
  match f (core d) with
  | Ret (a, k) => Ret (a, set_core k d)
  | Panic => Panic | Fault => Fault | NoFuel => NoFuel
  end.

(** ** Interrupt queues *)

Definition next (pos : Z) : Z := (pos + 1) mod INTQ_BUFSIZE.

Definition assert_off : I () := level ← on_kern intr_get_level; assert (negb level).

Definition intq_init (q : queue) : I () :=
  x ← gets (q_of q);
  on_kern (lock_init (q_lock x));;
  modify (set_q q (Intq (q_lock x) NULL NULL (buf x) 0 0)).

Definition intq_empty (q : queue) : I bool :=
  assert_off;; x ← gets (q_of q); mret (head x =? tail x).

Definition intq_full (q : queue) : I bool :=
  assert_off;; x ← gets (q_of q); mret (next (head x) =? tail x).

(** [&q->not_empty] and [&q->not_full]. *)
Inductive waiter := NotEmpty | NotFull.
Definition waiter_of (w : waiter) (x : intq) : addr := match w with NotEmpty => not_empty x | NotFull => not_full x end.
Definition set_waiter (w : waiter) (t : addr) (x : intq) : intq :=
  match w with
  | NotEmpty => Intq (q_lock x) (not_full x) t (buf x) (head x) (tail x)
  | NotFull => Intq (q_lock x) t (not_empty x) (buf x) (head x) (tail x)
  end.

(** Whether the queue is empty, for [NotEmpty], or full, for [NotFull]. *)
Definition must_wait (q : queue) (w : waiter) : I bool :=
  match w with NotEmpty => intq_empty q | NotFull => intq_full q end.

Definition wait (q : queue) (w : waiter) : I () :=
  c ← on_kern intr_context;
  assert (negb c);;
  assert_off;;
  m ← must_wait q w;
  assert m;;
  t ← on_kern thread_current;
  modify (λ d, set_q q (set_waiter w t (q_of q d)) d);;
  on_kern (push_kont KBlock;; thread_block).

Definition signal (q : queue) (w : waiter) : I () :=
  assert_off;;
  m ← must_wait q w;
  assert (negb m);;
  x ← gets (q_of q);
  if nonnull (waiter_of w x) then
    on_kern (thread_unblock (waiter_of w x));;
    modify (λ d, set_q q (set_waiter w NULL (q_of q d)) d)
  else mret ().

(** The body of the loops that wait, before and after its call of [wait]. *)
Definition intq_sleep (q : queue) : I () :=
  c ← on_kern intr_context;
  assert (negb c);;
  x ← gets (q_of q);
  on_kern (lock_acquire (q_lock x)).
Definition intq_woken (q : queue) : I () := x ← gets (q_of q); on_kern (lock_release (q_lock x)).

Definition intq_getc (q : queue) : I (option Z) :=
  assert_off;;
  empty ← intq_empty q;
  if (empty : bool) then intq_sleep q;; mret None else
  x ← gets (q_of q);
  byte ← (match buf x !! Z.to_nat (tail x) with Some b => mret b | None => fault end);
  modify (set_q q (Intq (q_lock x) (not_full x) (not_empty x) (buf x) (head x) (next (tail x))));;
  signal q NotFull;;
  mret (Some byte).

Definition intq_putc (q : queue) (byte : Z) : I (option ()) :=
  assert_off;;
  full ← intq_full q;
  if (full : bool) then intq_sleep q;; mret None else
  x ← gets (q_of q);
  modify (set_q q (Intq (q_lock x) (not_full x) (not_empty x) (<[Z.to_nat (head x) := byte]> (buf x)) (next (head x)) (tail x)));;
  signal q NotEmpty;;
  mret (Some ()).

(** ** The serial port *)

Definition IO_BASE : Z := 0x3f8.
Definition RBR_REG : Z := IO_BASE + 0.
Definition THR_REG : Z := IO_BASE + 0.
Definition IER_REG : Z := IO_BASE + 1.
Definition LS_REG : Z := IO_BASE + 0.
Definition MS_REG : Z := IO_BASE + 1.
Definition IIR_REG : Z := IO_BASE + 2.
Definition FCR_REG : Z := IO_BASE + 2.
Definition LCR_REG : Z := IO_BASE + 3.
Definition MCR_REG : Z := IO_BASE + 4.
Definition LSR_REG : Z := IO_BASE + 5.
Definition IER_RECV : Z := 0x01.
Definition IER_XMIT : Z := 0x02.
Definition LCR_N81 : Z := 0x03.
Definition LCR_DLAB : Z := 0x80.
Definition MCR_OUT2 : Z := 0x08.
Definition LSR_DR : Z := 0x01.
Definition LSR_THRE : Z := 0x20.

Definition set_serial (bps : Z) : I () :=
  let base_rate := 1843200 / 16 in
  let divisor := u16 (base_rate / bps) in
  assert ((300 <=? bps) && (bps <=? 115200));;
  on_ports (outb LCR_REG (Z.lor LCR_N81 LCR_DLAB));;
  on_ports (outb LS_REG (Z.land divisor 0xff));;
  on_ports (outb MS_REG (Z.shiftr divisor 8));;
  on_ports (outb LCR_REG LCR_N81).

Definition init_poll : I () :=
  m ← gets mode;
  assert (bool_decide (m = UNINIT));;
  on_ports (outb IER_REG 0);;
  on_ports (outb FCR_REG 0);;
  set_serial 9600;;
  on_ports (outb MCR_REG MCR_OUT2);;
  intq_init Txq;;
  modify (set_mode POLL).

Definition input_full : I bool := assert_off;; intq_full Buffer.

Definition write_ier : I () :=
  assert_off;;
  empty ← intq_empty Txq;
  full ← input_full;
  on_ports (outb IER_REG (Z.lor (if (empty : bool) then 0 else IER_XMIT) (if (full : bool) then 0 else IER_RECV))).

Definition serial_notify : I () :=
  assert_off;;
  m ← gets mode;
  if bool_decide (m = QUEUE) then write_ier else mret ().

(** [intr_register_ext] of interrupt.c, as far as devices see it. *)
Definition intr_register_ext (vec_no : Z) (nm : string) : I () :=
  assert ((0x20 <=? vec_no) && (vec_no <=? 0x2f));;
  h ← gets handlers;
  assert (bool_decide (h !! vec_no = None));;
  modify (set_handlers <[vec_no := nm]>).

Definition serial_init_queue : I () :=
  m ← gets mode;
  (if bool_decide (m = UNINIT) then init_poll else mret ());;
  m ← gets mode;
  assert (bool_decide (m = POLL));;
  intr_register_ext (0x20 + 4) "serial";;
  modify (set_mode QUEUE);;
  old_level ← on_kern intr_disable;
  write_ier;;
  _ ← on_kern (intr_set_level old_level);
  mret ().

Definition putc_poll (byte : Z) : I () :=
  assert_off;;
  n ← gets (λ d, S (length (answers (ports d))));
  loop n (λ _ : (),
    lsr ← on_ports (inb LSR_REG);
    if Z.land lsr LSR_THRE =? 0 then mret (Next ()) else mret (Stop ())) ();;
  on_ports (outb THR_REG byte).

(** [getc] of a queue that is known not to be empty. *)
Definition intq_getc_now (q : queue) : I Z :=
  r ← intq_getc q; match r with Some b => mret b | None => fault end.

(** [None]: the queue is full and the thread sleeps, which it does only when it came with
    interrupts on. *)
Definition serial_putc (byte : Z) : I (option ()) :=
  old_level ← on_kern intr_disable;
  m ← gets mode;
  r ← (if negb (bool_decide (m = QUEUE)) then
         (if bool_decide (m = UNINIT) then init_poll else mret ());;
         putc_poll byte;;
         mret (Some ())
       else
         (if negb old_level then
            full ← intq_full Txq;
            if (full : bool) then b ← intq_getc_now Txq; putc_poll b else mret ()
          else mret ());;
         r ← intq_putc Txq byte;
         match r with
         | Some _ => write_ier;; mret (Some ())
         | None => mret None
         end);
  match r with
  | Some _ => _ ← on_kern (intr_set_level old_level); mret (Some ())
  | None => mret None
  end.

Definition serial_flush : I () :=
  old_level ← on_kern intr_disable;
  loop (S (Z.to_nat INTQ_BUFSIZE)) (λ _ : (),
    empty ← intq_empty Txq;
    if (empty : bool) then mret (Stop ()) else
    b ← intq_getc_now Txq;
    putc_poll b;;
    mret (Next ())) ();;
  _ ← on_kern (intr_set_level old_level);
  mret ().

(** ** The input buffer *)

Definition input_init : I () := intq_init Buffer.

Definition input_putc (key : Z) : I () :=
  assert_off;;
  full ← intq_full Buffer;
  assert (negb full);;
  _ ← intq_putc Buffer key;
  serial_notify.

(** [None]: the buffer is empty and the thread sleeps; [input_getc_rest] is the end of the
    function, when there is a key. *)
Definition input_getc_rest (old_level : bool) (key : Z) : I Z :=
  serial_notify;;
  _ ← on_kern (intr_set_level old_level);
  mret key.
Definition input_getc : I (option Z) :=
  old_level ← on_kern intr_disable;
  r ← intq_getc Buffer;
  match r with
  | Some key => key ← input_getc_rest old_level key; mret (Some key)
  | None => mret None
  end.

Definition serial_interrupt : I () :=
  _ ← on_ports (inb IIR_REG);
  n ← gets (λ d, S (length (answers (ports d))));
  loop n (λ _ : (),
    full ← input_full;
    if (full : bool) then mret (Stop ()) else
    lsr ← on_ports (inb LSR_REG);
    if Z.land lsr LSR_DR =? 0 then mret (Stop ()) else
    b ← on_ports (inb RBR_REG);
    input_putc b;;
    mret (Next ())) ();;
  loop (S (Z.to_nat INTQ_BUFSIZE)) (λ _ : (),
    empty ← intq_empty Txq;
    if (empty : bool) then mret (Stop ()) else
    lsr ← on_ports (inb LSR_REG);
    if Z.land lsr LSR_THRE =? 0 then mret (Stop ()) else
    b ← intq_getc_now Txq;
    on_ports (outb THR_REG b);;
    mret (Next ())) ();;
  write_ier.

(** ** The keyboard *)

Definition DATA_REG : Z := 0x60.

(** A keymap without its null terminator. *)
Abbreviation keymap := (list (Z * list Z)).
Definition invariant_keymap : keymap :=
  [(0x01, [27]); (0x0e, [8]); (0x0f, 9 :: of_string "QWERTYUIOP"); (0x1c, [13]); (0x1e, of_string "ASDFGHJKL");
   (0x2c, of_string "ZXCVBNM"); (0x37, of_string "*"); (0x39, of_string " "); (0x53, [127])].
Definition unshifted_keymap : keymap :=
  [(0x02, of_string "1234567890-="); (0x1a, of_string "[]"); (0x27, of_string ";'`"); (0x2b, [92]);
   (0x33, of_string ",./")].
Definition shifted_keymap : keymap :=
  [(0x02, of_string "!@#$%^&*()_+"); (0x1a, of_string "{}"); (0x27, [58; 34; 126]); (0x2b, of_string "|");
   (0x33, of_string "<>?")].

Fixpoint map_key (k : keymap) (scancode : Z) : option Z :=
  match k with
  | [] => None
  | (first_scancode, chars) :: k =>
      if (first_scancode <=? scancode) && (scancode <? first_scancode + Z.of_nat (length chars)) then
        chars !! Z.to_nat (scancode - first_scancode)
      else map_key k scancode
  end.

Definition tolower (c : Z) : Z := if isupper c then c - chr "A" + chr "a" else c.

(** [shutdown_reboot] tries to restart the machine for ever. *)
Definition shutdown_reboot : I () := λ _, NoFuel.

Definition kbd_init : I () := intr_register_ext 0x21 "8042 Keyboard".

(** The store to the variable of a shift key. *)
Definition set_shift (code : Z) (b : bool) (k : kbd) : kbd :=
  let '(Kbd ls rs la ra lc rc caps n) := k in
  if code =? 0x2a then Kbd b rs la ra lc rc caps n
  else if code =? 0x36 then Kbd ls b la ra lc rc caps n
  else if code =? 0x38 then Kbd ls rs b ra lc rc caps n
  else if code =? 0xe038 then Kbd ls rs la b lc rc caps n
  else if code =? 0x1d then Kbd ls rs la ra b rc caps n
  else if code =? 0xe01d then Kbd ls rs la ra lc b caps n
  else k.
Definition toggle_caps (k : kbd) : kbd :=
  Kbd (left_shift k) (right_shift k) (left_alt k) (right_alt k) (left_ctrl k) (right_ctrl k) (negb (caps_lock k)) (key_cnt k).
Definition count_key (k : kbd) : kbd :=
  Kbd (left_shift k) (right_shift k) (left_alt k) (right_alt k) (left_ctrl k) (right_ctrl k) (caps_lock k) (s64 (key_cnt k + 1)).

(** The character of a key, before Ctrl, Shift and Alt are applied, and after. *)
Definition find_key (shift : bool) (code : Z) : option Z :=
  match map_key invariant_keymap code with
  | Some c => Some c
  | None => if shift then map_key shifted_keymap code else map_key unshifted_keymap code
  end.
Definition modified (k : kbd) (c : Z) : Z :=
  let shift := left_shift k || right_shift k in
  let alt := left_alt k || right_alt k in
  let ctrl := left_ctrl k || right_ctrl k in
  let c := if ctrl && (0x40 <=? c) && (c <? 0x60) then u8 (c - 0x40)
           else if Bool.eqb shift (caps_lock k) then tolower c else c in
  if alt then u8 (c + 0x80) else c.

Definition keyboard_interrupt : I () :=
  k ← gets keys;
  let shift := left_shift k || right_shift k in
  let alt := left_alt k || right_alt k in
  let ctrl := left_ctrl k || right_ctrl k in
  code ← on_ports (inb DATA_REG);
  code ← (if code =? 0xe0 then b ← on_ports (inb DATA_REG); mret (Z.lor (Z.shiftl code 8) b) else mret code);
  let release := negb (Z.land code 0x80 =? 0) in
  let code := Z.land code (Z.lnot 0x80) in
  if code =? 0x3a then
    if negb release then modify (set_keys toggle_caps) else mret ()
  else
    match find_key shift code with
    | Some c =>
        if negb release then
          (if (c =? 127) && ctrl && alt then shutdown_reboot else mret ());;
          full ← input_full;
          if negb full then modify (set_keys count_key);; input_putc (modified k c) else mret ()
        else mret ()
    | None => modify (set_keys (set_shift code (negb release)))
    end.

(** ** Interrupts

    [intr_handler] of interrupt.c around a handler that uses the devices. *)
Definition intr_enter : K () :=
  push_kont KIret;;
  modify (set_intr_on (λ _, false));;
  level ← intr_get_level;
  assert (negb level);;
  c ← intr_context;
  assert (negb c);;
  modify (set_in_external_intr (λ _, true));;
  modify (set_yield_on_return (λ _, false)).
Definition intr_leave : K () :=
  level ← intr_get_level;
  assert (negb level);;
  c ← intr_context;
  assert c;;
  modify (set_in_external_intr (λ _, false));;
  y ← gets yield_on_return;
  if (y : bool) then thread_yield else mret ().
Definition device_interrupt (handler : I ()) : I () := on_kern intr_enter;; handler;; on_kern intr_leave.
