(* ===== verification/InputProofs.v ===== *)
(** * Keyboard, serial port and their queues: what they deliver

    A circular buffer refines a list of at most 63 bytes ([q_bytes]).  The claims are that the
    queue functions are the operations of a bounded FIFO that wake their waiters, that the serial
    port sends every byte once and in order, what the keys produce, and what goes wrong when two
    threads wait for input. *)
From S2P Require Import Prelude KList CString Kernel Thread Synch SchedProofs SynchProofs Machine ProcWait Stdio Input.

(** ** The circular buffer as a list *)

Record q_ok (x : intq) : Prop := QOk {
  qo_head : 0 ≤ head x < 64;
  qo_tail : 0 ≤ tail x < 64;
  qo_buf : length (buf x) = 64%nat;
}.
Definition q_len (x : intq) : nat := Z.to_nat ((head x - tail x) mod 64).
(** The byte at position [i] after the tail. *)
Definition q_slot (x : intq) (i : nat) : nat := Z.to_nat ((tail x + Z.of_nat i) mod 64).
Definition q_bytes (x : intq) : list Z := (λ i, buf x !!! q_slot x i) <$> seq 0 (q_len x).

Lemma next_cases p : 0 ≤ p < 64 → next p = (if decide (p = 63) then 0 else p + 1).
Proof.
  intros Hp. unfold next, INTQ_BUFSIZE. case_decide as H; [by subst|]. apply Z.mod_small. lia.
Qed.

Lemma diff_cases h t : 0 ≤ h < 64 → 0 ≤ t < 64 → (h - t) mod 64 = if decide (t ≤ h) then h - t else h - t + 64.
Proof.
  intros. case_decide; [apply Z.mod_small; lia|]. symmetry. apply (Z.mod_unique _ _ (-1)); lia.
Qed.

Lemma q_len_lt x : (q_len x < 64)%nat.
Proof. unfold q_len. pose proof (Z.mod_pos_bound (head x - tail x) 64). lia. Qed.

Lemma length_q_bytes x : length (q_bytes x) = q_len x.
Proof. unfold q_bytes. by rewrite length_fmap, length_seq. Qed.

Lemma q_empty_iff x : q_ok x → head x = tail x ↔ q_bytes x = [].
Proof.
  intros [Hh Ht _]. rewrite <-length_zero_iff_nil, length_q_bytes. unfold q_len. rewrite diff_cases by done.
  case_decide; lia.
Qed.

Lemma q_full_iff x : q_ok x → next (head x) = tail x ↔ length (q_bytes x) = 63%nat.
Proof.
  intros [Hh Ht _]. rewrite length_q_bytes, next_cases by done. unfold q_len. rewrite diff_cases by done.
  repeat case_decide; lia.
Qed.

Definition q_put (b : Z) (x : intq) : intq :=
  Intq (q_lock x) (not_full x) (not_empty x) (<[Z.to_nat (head x) := b]> (buf x)) (next (head x)) (tail x).
Definition q_get (x : intq) : intq :=
  Intq (q_lock x) (not_full x) (not_empty x) (buf x) (head x) (next (tail x)).

Lemma next_range p : 0 ≤ next p < 64.
Proof. apply Z.mod_pos_bound. lia. Qed.

Lemma q_put_ok b x : q_ok x → q_ok (q_put b x).
Proof. intros [Hh Ht Hb]. constructor; simpl; [apply next_range|done|by rewrite length_insert]. Qed.
Lemma q_get_ok x : q_ok x → q_ok (q_get x).
Proof. intros [Hh Ht Hb]. constructor; simpl; [done|apply next_range|done]. Qed.

(** The slots of a queue are different from each other and from the head. *)
Lemma q_slot_head x i : q_ok x → (i < q_len x)%nat → q_slot x i ≠ Z.to_nat (head x).
Proof.
  intros [Hh Ht _]. unfold q_slot, q_len. rewrite diff_cases by done. intros Hi E.
  pose proof (Z.mod_pos_bound (tail x + Z.of_nat i) 64 ltac:(lia)).
  assert ((tail x + Z.of_nat i) mod 64 = head x) as E' by lia. clear E.
  pose proof (Z.div_mod (tail x + Z.of_nat i) 64 ltac:(lia)). case_decide; lia.
Qed.

Lemma q_slot_last x : q_ok x → q_slot x (q_len x) = Z.to_nat (head x).
Proof.
  intros [Hh Ht _]. unfold q_slot, q_len. rewrite diff_cases by done. f_equal. case_decide.
  - rewrite Z2Nat.id by lia. rewrite Z.mod_small by lia. lia.
  - rewrite Z2Nat.id by lia. symmetry. apply (Z.mod_unique _ _ 1); lia.
Qed.

Lemma q_len_put b x : q_ok x → next (head x) ≠ tail x → q_len (q_put b x) = S (q_len x).
Proof.
  intros [Hh Ht _]. unfold q_len. simpl. rewrite next_cases by done. intros Hn.
  rewrite !diff_cases by (repeat case_decide; lia). repeat case_decide; lia.
Qed.

Lemma q_bytes_put b x : q_ok x → next (head x) ≠ tail x → q_bytes (q_put b x) = q_bytes x ++ [b].
Proof.
  intros Hok Hn. unfold q_bytes. rewrite q_len_put, seq_S, fmap_app by done. f_equal.
  - apply list_fmap_ext. intros i j Hj%lookup_seq. change (q_slot (q_put b x) j) with (q_slot x j). simpl.
    apply list_lookup_total_insert_ne. symmetry. apply q_slot_head; [done|lia].
  - simpl. change (q_slot (q_put b x) (q_len x)) with (q_slot x (q_len x)). rewrite q_slot_last by done.
    rewrite list_lookup_total_insert_eq; [done|]. destruct Hok as [? ? ->]. lia.
Qed.

Lemma q_len_get x : q_ok x → head x ≠ tail x → q_len x = S (q_len (q_get x)).
Proof.
  intros [Hh Ht _]. unfold q_len. simpl. rewrite next_cases by done. intros Hn.
  rewrite !diff_cases by (repeat case_decide; lia). repeat case_decide; lia.
Qed.

Lemma q_bytes_get x : q_ok x → head x ≠ tail x →
  ∃ b, buf x !! Z.to_nat (tail x) = Some b ∧ q_bytes x = b :: q_bytes (q_get x).
Proof.
  intros Hok Hn. destruct (lookup_lt_is_Some_2 (buf x) (Z.to_nat (tail x))) as [b Hb].
  { destruct Hok as [? ? ->]. lia. }
  exists b. split; [done|]. unfold q_bytes. rewrite q_len_get by done. simpl. f_equal.
  - unfold q_slot. rewrite Z.add_0_r, Z.mod_small by apply Hok. by apply list_lookup_total_correct.
  - rewrite <-fmap_S_seq, <-list_fmap_compose. apply list_fmap_ext. intros i j Hj. simpl. f_equal.
    unfold q_slot. simpl. f_equal. unfold next, INTQ_BUFSIZE. rewrite Zplus_mod_idemp_l. f_equal. lia.
Qed.

#[global] Instance q_ok_dec x : Decision (q_ok x).
Proof.
  refine (cast_if (decide ((0 ≤ head x < 64) ∧ (0 ≤ tail x < 64) ∧ length (buf x) = 64%nat))).
  - abstract (destruct_and?; by constructor).
  - abstract (intros []; naive_solver).
Defined.

(** ** Runs of the queue functions *)

Lemma on_kern_run {A} (m : K A) d a k : m (core d) = Ret (a, k) → on_kern m d = Ret (a, set_core k d).
Proof. unfold on_kern. by intros ->. Qed.
Lemma on_ports_run {A} (m : ST io A) d a i : m (ports d) = Ret (a, i) → on_ports m d = Ret (a, set_ports i d).
Proof. unfold on_ports. by intros ->. Qed.
Lemma set_core_id d : set_core (core d) d = d.
Proof. by destruct d. Qed.
Lemma set_q_id q d : set_q q (q_of q d) d = d.
Proof. by destruct q, d. Qed.
Lemma q_of_set q x d : q_of q (set_q q x d) = x.
Proof. by destruct q. Qed.
Lemma core_set_q q x d : core (set_q q x d) = core d.
Proof. by destruct q. Qed.
Lemma set_q_twice q x y d : set_q q y (set_q q x d) = set_q q y d.
Proof. by destruct q. Qed.

Definition off (d : devs) : Prop := intr_on (core d) = false.

Lemma assert_off_run d : off d → assert_off d = Ret ((), d).
Proof.
  intros Hoff. unfold assert_off. rewrite (bind_run _ _ _ _ _ (on_kern_run intr_get_level d _ _ eq_refl)).
  rewrite set_core_id. by rewrite Hoff.
Qed.

Lemma intq_empty_run q d : off d → intq_empty q d = Ret (head (q_of q d) =? tail (q_of q d), d).
Proof. intros Hoff. unfold intq_empty. by rewrite (bind_run _ _ _ _ _ (assert_off_run _ Hoff)). Qed.
Lemma intq_full_run q d : off d → intq_full q d = Ret (next (head (q_of q d)) =? tail (q_of q d), d).
Proof. intros Hoff. unfold intq_full. by rewrite (bind_run _ _ _ _ _ (assert_off_run _ Hoff)). Qed.

(** A waiter is no thread or one that sleeps. *)
Definition waiter_ok (k : kern) (t : addr) : Prop :=
  t = NULL ∨ ∃ th, threads k !! t = Some th ∧ magic th = THREAD_MAGIC ∧ status th = THREAD_BLOCKED.
(** The state in which it has been made ready. *)
Definition woken (k : kern) (t : addr) : kern :=
  if nonnull t then match threads k !! t with Some th => unblocked k t th | None => k end else k.

Lemma level_off k : intr_on k = false → level k false = k.
Proof. destruct k. simpl. by intros ->. Qed.

Lemma dev_unblock_run k t : intr_on k = false → t ≠ NULL → waiter_ok k t → thread_unblock t k = Ret ((), woken k t).
Proof.
  intros Hoff Hn [?|(th & Ht & Hm & Hs)]; [done|]. unfold thread_unblock, woken, nonnull.
  rewrite (proj2 (Z.eqb_neq _ _) Hn), Ht. cbn [negb].
  rewrite (bind_run _ _ _ _ _ (is_thread_run k t th Ht Hm Hn)). run_by ltac:(done).
  rewrite (bind_run intr_disable _ k false k).
  2: { unfold intr_disable. run_by ltac:(done). run_by ltac:(done). rewrite Hoff. fold (level k false). by rewrite level_off. }
  rewrite (bind_run _ _ k th k) by (unfold ld_thread, load; by rewrite Ht).
  rewrite bool_decide_eq_true_2 by done. run_by ltac:(done). run_by ltac:(done).
  unfold upd_thread. erewrite bind_run; [|erewrite bind_run; [done|unfold ld_thread, load; simpl; by rewrite Ht]].
  erewrite bind_run; [|done]. cbv beta. fold (unblocked k t th). cbv [mret ST_ret]. f_equal. f_equal. by apply level_off.
Qed.

Lemma woken_off k t : intr_on k = false → intr_on (woken k t) = false.
Proof. unfold woken. destruct (nonnull t); [|done]. by destruct (threads k !! t). Qed.

(** What [signal] does: the waiter is ready and forgotten. *)
Definition signalled (q : queue) (w : waiter) (d : devs) : devs :=
  set_q q (set_waiter w NULL (q_of q d)) (set_core (woken (core d) (waiter_of w (q_of q d))) d).

Lemma must_wait_run q w d : off d → must_wait q w d =
  Ret (match w with NotEmpty => head (q_of q d) =? tail (q_of q d) | NotFull => next (head (q_of q d)) =? tail (q_of q d) end, d).
Proof. destruct w; [apply intq_empty_run|apply intq_full_run]. Qed.

Lemma signal_run q w d : off d → waiter_ok (core d) (waiter_of w (q_of q d)) →
  match w with NotEmpty => head (q_of q d) ≠ tail (q_of q d) | NotFull => next (head (q_of q d)) ≠ tail (q_of q d) end →
  signal q w d = Ret ((), signalled q w d).
Proof.
  intros Hoff Hw Hc. unfold signal. rewrite (bind_run _ _ _ _ _ (assert_off_run _ Hoff)).
  rewrite (bind_run _ _ _ _ _ (must_wait_run q w d Hoff)).
  replace (match w with NotEmpty => _ | NotFull => _ end) with false by (destruct w; symmetry; by apply Z.eqb_neq).
  run_by ltac:(done). run_by ltac:(done). unfold signalled.
  destruct (nonnull (waiter_of w (q_of q d))) eqn:Hn.
  - unfold nonnull in Hn. apply negb_true_iff, Z.eqb_neq in Hn.
    rewrite (bind_run _ _ _ _ _ (on_kern_run _ _ _ _ (dev_unblock_run _ _ Hoff Hn Hw))).
    by destruct q.
  - unfold woken. rewrite Hn, set_core_id. unfold nonnull in Hn. apply negb_false_iff, Z.eqb_eq in Hn.
    replace (set_waiter w NULL (q_of q d)) with (q_of q d); [by rewrite set_q_id|].
    destruct w; simpl in *; rewrite <-Hn; by destruct (q_of q d).
Qed.

(** The states after a byte has been put and taken. *)
Definition after_put (q : queue) (b : Z) (d : devs) : devs := signalled q NotEmpty (set_q q (q_put b (q_of q d)) d).
Definition after_get (q : queue) (d : devs) : devs := signalled q NotFull (set_q q (q_get (q_of q d)) d).

Lemma put_not_empty x b : q_ok x → next (head x) ≠ tail x → head (q_put b x) ≠ tail (q_put b x).
Proof. intros _ Hn. exact Hn. Qed.

Lemma intq_putc_run q b d : off d → next (head (q_of q d)) ≠ tail (q_of q d) → waiter_ok (core d) (not_empty (q_of q d)) →
  intq_putc q b d = Ret (Some (), after_put q b d).
Proof.
  intros Hoff Hn Hw. unfold intq_putc. rewrite (bind_run _ _ _ _ _ (assert_off_run _ Hoff)).
  rewrite (bind_run _ _ _ _ _ (intq_full_run q d Hoff)), (proj2 (Z.eqb_neq _ _) Hn).
  run_by ltac:(done). run_by ltac:(done). erewrite bind_run; [done|].
  apply signal_run; unfold off; rewrite ?core_set_q, ?q_of_set; done.
Qed.

Lemma get_not_full x : q_ok x → head x ≠ tail x → next (head (q_get x)) ≠ tail (q_get x).
Proof. intros [Hh Ht _] Hn. simpl. rewrite !next_cases by done. repeat case_decide; lia. Qed.

Lemma intq_getc_run q b bs d : off d → q_ok (q_of q d) → q_bytes (q_of q d) = b :: bs → waiter_ok (core d) (not_full (q_of q d)) →
  intq_getc q d = Ret (Some b, after_get q d).
Proof.
  intros Hoff Hok Hbs Hw. unfold intq_getc. rewrite (bind_run _ _ _ _ _ (assert_off_run _ Hoff)).
  assert (head (q_of q d) ≠ tail (q_of q d)) as Hn by (rewrite (q_empty_iff _ Hok), Hbs; done).
  destruct (q_bytes_get _ Hok Hn) as (b' & Hb & E). assert (b' = b) as -> by congruence.
  rewrite (bind_run _ _ _ _ _ (intq_empty_run q d Hoff)), (proj2 (Z.eqb_neq _ _) Hn).
  run_by ltac:(done). rewrite Hb. run_by ltac:(done). run_by ltac:(done). erewrite bind_run; [done|].
  apply signal_run; unfold off; rewrite ?core_set_q, ?q_of_set; [done|done|]. by apply get_not_full.
Qed.

Lemma signalled_bytes q w d : q_bytes (q_of q (signalled q w d)) = q_bytes (q_of q d).
Proof. unfold signalled. rewrite q_of_set. by destruct w. Qed.
Lemma signalled_ok q w d : q_ok (q_of q d) → q_ok (q_of q (signalled q w d)).
Proof. unfold signalled. rewrite q_of_set. intros []. destruct w; by constructor. Qed.

(** ** The claim about queues *)

Lemma intq_sleep_in_interrupt q d : in_external_intr (core d) = true → intq_sleep q d = Panic.
Proof.
  intros Hc. unfold intq_sleep. rewrite (bind_run _ _ _ _ _ (on_kern_run intr_context d _ _ eq_refl)). by rewrite Hc.
Qed.

(** C22: With interrupts off, a queue is a FIFO of at most 63 bytes: [intq_putc] appends to it and
    makes the thread that waits for a byte ready, [intq_getc] takes the oldest byte and makes the
    thread that waits for room ready; neither changes anything else.  In an interrupt handler,
    which must not sleep, putting into a full queue and taking from an empty one panic. *)
Theorem intq_fifo q b d : off d → q_ok (q_of q d) →
  waiter_ok (core d) (not_empty (q_of q d)) → waiter_ok (core d) (not_full (q_of q d)) →
  ((length (q_bytes (q_of q d)) < 63)%nat → ∃ x, intq_putc q b d =
     Ret (Some (), set_q q x (set_core (woken (core d) (not_empty (q_of q d))) d)) ∧
     q_ok x ∧ q_bytes x = q_bytes (q_of q d) ++ [b] ∧ not_empty x = NULL ∧ not_full x = not_full (q_of q d)) ∧
  (∀ c cs, q_bytes (q_of q d) = c :: cs → ∃ x, intq_getc q d =
     Ret (Some c, set_q q x (set_core (woken (core d) (not_full (q_of q d))) d)) ∧
     q_ok x ∧ q_bytes x = cs ∧ not_full x = NULL ∧ not_empty x = not_empty (q_of q d)) ∧
  (length (q_bytes (q_of q d)) ≤ 63)%nat ∧
  (in_external_intr (core d) = true →
     (length (q_bytes (q_of q d)) = 63%nat → intq_putc q b d = Panic) ∧
     (q_bytes (q_of q d) = [] → intq_getc q d = Panic)).
Proof.
  intros Hoff Hok Hwe Hwf. split; [|split; [|split; [rewrite length_q_bytes; pose proof (q_len_lt (q_of q d)); lia|split]]].
  - intros Hlt. assert (next (head (q_of q d)) ≠ tail (q_of q d)) as Hn by (rewrite (q_full_iff _ Hok); lia).
    exists (set_waiter NotEmpty NULL (q_put b (q_of q d))). split.
    { rewrite intq_putc_run by done. by destruct q. }
    split; [|split; [|done]].
    + destruct (q_put_ok b _ Hok). by constructor.
    + rewrite <-q_bytes_put by done. done.
  - intros c cs Hcs. assert (head (q_of q d) ≠ tail (q_of q d)) as Hn by (rewrite (q_empty_iff _ Hok), Hcs; done).
    destruct (q_bytes_get _ Hok Hn) as (c' & _ & E). exists (set_waiter NotFull NULL (q_get (q_of q d))). split.
    { rewrite (intq_getc_run q c cs) by done. by destruct q. }
    split; [|split; [|done]].
    + destruct (q_get_ok _ Hok). by constructor.
    + change (q_bytes (q_get (q_of q d)) = cs). congruence.
  - intros Hfull%(q_full_iff _ Hok). unfold intq_putc. rewrite (bind_run _ _ _ _ _ (assert_off_run _ Hoff)).
    rewrite (bind_run _ _ _ _ _ (intq_full_run q d Hoff)), (proj2 (Z.eqb_eq _ _) Hfull).
    unfold mbind, ST_bind. by rewrite intq_sleep_in_interrupt.
  - intros Hempty%(q_empty_iff _ Hok). unfold intq_getc. rewrite (bind_run _ _ _ _ _ (assert_off_run _ Hoff)).
    rewrite (bind_run _ _ _ _ _ (intq_empty_run q d Hoff)), (proj2 (Z.eqb_eq _ _) Hempty).
    unfold mbind, ST_bind. by rewrite intq_sleep_in_interrupt.
Qed.

(** ** The keyboard *)

Lemma input_full_run d : off d → input_full d = Ret (next (head (buffer d)) =? tail (buffer d), d).
Proof. intros Hoff. unfold input_full. rewrite (bind_run _ _ _ _ _ (assert_off_run _ Hoff)). apply (intq_full_run Buffer d Hoff). Qed.

Lemma write_ier_run d : off d → ∃ v, write_ier d = Ret ((), set_ports (IO (answers (ports d)) (written (ports d) ++ [(IER_REG, v)])) d).
Proof.
  intros Hoff. unfold write_ier. rewrite (bind_run _ _ _ _ _ (assert_off_run _ Hoff)).
  rewrite (bind_run _ _ _ _ _ (intq_empty_run Txq d Hoff)), (bind_run _ _ _ _ _ (input_full_run d Hoff)). by eexists.
Qed.

(** [d'] is [d] up to the log of the ports, in which only [IER_REG] has been written. *)
Definition logged (d d' : devs) : Prop :=
  ∃ l, Forall (λ e, e.1 = IER_REG) l ∧ d' = set_ports (IO (answers (ports d)) (written (ports d) ++ l)) d.

Lemma logged_refl d : logged d d.
Proof. exists []. rewrite app_nil_r. destruct d as [? ? ? ? ? [] ?]. by split. Qed.

Lemma serial_notify_run d : off d → ∃ d', serial_notify d = Ret ((), d') ∧ logged d d'.
Proof.
  intros Hoff. unfold serial_notify. rewrite (bind_run _ _ _ _ _ (assert_off_run _ Hoff)). run_by ltac:(done).
  case_bool_decide.
  - destruct (write_ier_run d Hoff) as [v ->]. eexists. split; [done|]. exists [(IER_REG, v)].
    split; [by apply Forall_singleton|done].
  - eexists. split; [done|]. apply logged_refl.
Qed.

Lemma input_putc_run key d : off d → next (head (buffer d)) ≠ tail (buffer d) → waiter_ok (core d) (not_empty (buffer d)) →
  ∃ d', input_putc key d = Ret ((), d') ∧ logged (after_put Buffer key d) d'.
Proof.
  intros Hoff Hn Hw. unfold input_putc. rewrite (bind_run _ _ _ _ _ (assert_off_run _ Hoff)).
  rewrite (bind_run _ _ _ _ _ (intq_full_run Buffer d Hoff)). simpl q_of. rewrite (proj2 (Z.eqb_neq _ _) Hn).
  run_by ltac:(done). rewrite (bind_run _ _ _ _ _ (intq_putc_run Buffer key d Hoff Hn Hw)). cbv beta.
  apply serial_notify_run. unfold off. simpl. by apply woken_off.
Qed.

(** The scancodes of the letters A to Z, and the character they stand for. *)
Definition letter_codes : list Z :=
  [0x1e; 0x30; 0x2e; 0x20; 0x12; 0x21; 0x22; 0x23; 0x17; 0x24; 0x25; 0x26; 0x32;
   0x31; 0x18; 0x19; 0x10; 0x13; 0x1f; 0x14; 0x16; 0x2f; 0x11; 0x2d; 0x15; 0x2c].
Definition shift (k : kbd) : bool := left_shift k || right_shift k.
Definition alt (k : kbd) : bool := left_alt k || right_alt k.
Definition ctrl (k : kbd) : bool := left_ctrl k || right_ctrl k.
Definition letter_typed (k : kbd) (l : Z) : Z :=
  (if ctrl k then l + 1 else if xorb (shift k) (caps_lock k) then 65 + l else 97 + l) + (if alt k then 128 else 0).

(** Every letter, in every state of the modifier keys. *)
Lemma letters_checked : Forall (λ '(l, code), ∀ sh cl al cp,
    find_key sh code = Some (65 + Z.of_nat l) ∧
    modified (Kbd sh false al false cl false cp 0) (65 + Z.of_nat l) =
      letter_typed (Kbd sh false al false cl false cp 0) (Z.of_nat l)) (imap pair letter_codes).
Proof. unfold letter_codes. simpl. repeat (apply Forall_cons; split; [by intros [] [] [] []|]). constructor. Qed.

Lemma modified_ext k k' c : shift k = shift k' → alt k = alt k' → ctrl k = ctrl k' → caps_lock k = caps_lock k' →
  modified k c = modified k' c ∧ ∀ l, letter_typed k l = letter_typed k' l.
Proof. unfold modified, letter_typed, shift, alt, ctrl. by intros -> -> -> ->. Qed.

Lemma letter_key l code k : letter_codes !! l = Some code →
  find_key (shift k) code = Some (65 + Z.of_nat l) ∧ modified k (65 + Z.of_nat l) = letter_typed k (Z.of_nat l) ∧
  0 ≤ code < 0x3a ∧ (l < 26)%nat.
Proof.
  intros Hl. assert (imap pair letter_codes !! l = Some (l, code)) as Hi by (by rewrite list_lookup_imap, Hl).
  destruct (Forall_lookup_1 _ _ _ _ letters_checked Hi (shift k) (ctrl k) (alt k) (caps_lock k)) as [Hf Hm].
  destruct (modified_ext k (Kbd (shift k) false (alt k) false (ctrl k) false (caps_lock k) 0) (65 + Z.of_nat l)) as [-> ->];
    unfold shift, alt, ctrl; simpl; rewrite ?orb_false_r; try done.
  split; [done|]. split; [done|]. split; [|by apply lookup_lt_Some in Hl].
  apply (Forall_lookup_1 (λ c, 0 ≤ c < 0x3a) letter_codes l); [|done]. by_evaluation.
Qed.

(** The first part of the handler: reading a scancode without prefix. *)
Lemma read_scancode d code rest : answers (ports d) = code :: rest → code ≠ 0xe0 →
  keyboard_interrupt d = (
    let k := keys d in
    let release := negb (Z.land code 0x80 =? 0) in
    let code := Z.land code (Z.lnot 0x80) in
    if code =? 0x3a then
      if negb release then modify (set_keys toggle_caps) else mret ()
    else
      match find_key (shift k) code with
      | Some c =>
          if negb release then
            (if (c =? 127) && ctrl k && alt k then shutdown_reboot else mret ());;
            full ← input_full;
            if negb full then modify (set_keys count_key);; input_putc (modified k c) else mret ()
          else mret ()
      | None => modify (set_keys (set_shift code (negb release)))
      end) (set_ports (IO rest (written (ports d))) d).
Proof.
  intros Ha Hne. unfold keyboard_interrupt. run_by ltac:(done). cbv zeta.
  erewrite bind_run; [|apply on_ports_run; unfold inb; by rewrite Ha].
  rewrite (proj2 (Z.eqb_neq _ _) Hne). by run_by ltac:(done).
Qed.

Lemma press_bits code : 0 ≤ code < 0x80 → Z.land code 0x80 = 0 ∧ Z.land code (Z.lnot 0x80) = code ∧
  Z.land (code + 0x80) 0x80 ≠ 0 ∧ Z.land (code + 0x80) (Z.lnot 0x80) = code.
Proof.
  intros Hc. assert (Forall (λ c, Z.land c 0x80 = 0 ∧ Z.land c (Z.lnot 0x80) = c ∧
    Z.land (c + 0x80) 0x80 ≠ 0 ∧ Z.land (c + 0x80) (Z.lnot 0x80) = c) (seqZ 0 128)) as HF by by_evaluation.
  rewrite Forall_forall in HF. apply HF, elem_of_seqZ. lia.
Qed.

(** Pressing the key of a letter appends one character to the input buffer: the control
    character when Ctrl is down, and otherwise the letter in upper case when exactly one of Shift
    and Caps Lock is on, with 128 added when Alt is down; the thread that waits for input becomes
    ready.  Releasing the key changes nothing, and when the buffer is full the key is dropped. *)
Theorem typed_letter l code rest d : letter_codes !! l = Some code → off d → q_ok (buffer d) →
  waiter_ok (core d) (not_empty (buffer d)) → 
  (answers (ports d) = code :: rest →
    ∃ d', keyboard_interrupt d = Ret ((), d') ∧ answers (ports d') = rest ∧
      q_bytes (buffer d') = (if decide (length (q_bytes (buffer d)) = 63%nat) then q_bytes (buffer d)
                             else q_bytes (buffer d) ++ [letter_typed (keys d) (Z.of_nat l)]) ∧
      core d' = (if decide (length (q_bytes (buffer d)) = 63%nat) then core d else woken (core d) (not_empty (buffer d))) ∧
      q_ok (buffer d') ∧ txq d' = txq d) ∧
  (answers (ports d) = code + 0x80 :: rest →
    keyboard_interrupt d = Ret ((), set_ports (IO rest (written (ports d))) d)).
Proof.
  intros Hl Hoff Hok Hw. destruct (letter_key l code (keys d) Hl) as (Hf & Hm & Hr & Hlt).
  destruct (press_bits code ltac:(lia)) as (H0 & H1 & H2 & H3). split; intros Ha.
  - rewrite (read_scancode d code rest) by (done || lia). cbv zeta. rewrite H0, H1, Hf.
    rewrite (proj2 (Z.eqb_neq code 0x3a)) by lia. cbn [negb Z.eqb]. 
    rewrite (proj2 (Z.eqb_neq (65 + Z.of_nat l) 127)) by lia. cbn [andb].
    set (d1 := set_ports _ d). run_by ltac:(done). rewrite (bind_run _ _ _ _ _ (input_full_run d1 Hoff)).
    change (buffer d1) with (buffer d). destruct (decide (length (q_bytes (buffer d)) = 63%nat)) as [Hfull|Hroom].
    + rewrite (proj2 (Z.eqb_eq _ _)) by (by apply q_full_iff). eexists. split; [done|]. done.
    + assert (next (head (buffer d)) ≠ tail (buffer d)) as Hn by (by rewrite q_full_iff).
      rewrite (proj2 (Z.eqb_neq _ _) Hn). cbn [negb]. run_by ltac:(done). rewrite Hm.
      destruct (input_putc_run (letter_typed (keys d) (Z.of_nat l)) (set_keys count_key d1)) as (d' & Hrun & w & _ & ->); [done..|].
      eexists. split; [exact Hrun|]. split; [done|]. split; [|split; [done|split; [|done]]].
      * rewrite <-q_bytes_put by done. done.
      * destruct (q_put_ok (letter_typed (keys d) (Z.of_nat l)) _ Hok). by constructor.
  - rewrite (read_scancode d (code + 0x80) rest) by (done || lia). cbv zeta. rewrite H3, Hf.
    rewrite (proj2 (Z.eqb_neq _ 0) H2). cbn [negb]. by rewrite (proj2 (Z.eqb_neq code 0x3a)) by lia.
Qed.

(** ** The bytes that the serial port sends *)

(** [d'] differs from [d] in the scheduler and the waiters only. *)
Record qsim (d d' : devs) : Prop := QSim {
  qs_buffer : buf (buffer d') = buf (buffer d) ∧ head (buffer d') = head (buffer d) ∧ tail (buffer d') = tail (buffer d);
  qs_txq : buf (txq d') = buf (txq d) ∧ head (txq d') = head (txq d) ∧ tail (txq d') = tail (txq d);
  qs_mode : mode d' = mode d;
  qs_ports : ports d' = ports d;
}.
#[local] Instance qsim_preorder : PreOrder qsim.
Proof. split; [by constructor|]. intros ? ? ? [] []. constructor; destruct_and?; intuition congruence. Qed.

Lemma qsim_core k d : qsim d (set_core k d).
Proof. by constructor. Qed.
Lemma qsim_waiter q w t d : qsim d (set_q q (set_waiter w t (q_of q d)) d).
Proof. by destruct q, w. Qed.
Lemma qsim_keys f d : qsim d (set_keys f d).
Proof. by constructor. Qed.

Lemma wlp_on_kern {A} (m : K A) d (Q : A → devs → Prop) : (∀ a d', qsim d d' → Q a d') → wlp (on_kern m) d Q.
Proof. intros HQ a d'. unfold on_kern. destruct (m (core d)) as [[a' k]| | |]; [|done..]. intros [= <- <-]. apply HQ, qsim_core. Qed.

Lemma wlp_assert_off d (Q : () → devs → Prop) : (off d → Q () d) → wlp assert_off d Q.
Proof.
  intros HQ. unfold assert_off. eapply wlp_bind_run; [apply (on_kern_run intr_get_level); done|]. rewrite set_core_id.
  apply wlp_assert. intros Hn%negb_true_iff. by apply HQ.
Qed.
Lemma wlp_intq_empty q d (Q : bool → devs → Prop) :
  (off d → Q (head (q_of q d) =? tail (q_of q d)) d) → wlp (intq_empty q) d Q.
Proof. intros HQ. apply wlp_bind, wlp_assert_off. intros Hoff. by apply wlp_bind, wlp_gets, wlp_ret, HQ. Qed.
Lemma wlp_intq_full q d (Q : bool → devs → Prop) :
  (off d → Q (next (head (q_of q d)) =? tail (q_of q d)) d) → wlp (intq_full q) d Q.
Proof. intros HQ. apply wlp_bind, wlp_assert_off. intros Hoff. by apply wlp_bind, wlp_gets, wlp_ret, HQ. Qed.

Lemma wlp_signal q w d : wlp (signal q w) d (λ _ d', qsim d d').
Proof.
  apply wlp_bind, wlp_assert_off. intros Hoff. apply wlp_bind.
  eapply wlp_run; [by apply must_wait_run|]. apply wlp_bind, wlp_assert. intros _. apply wlp_bind, wlp_gets.
  destruct (nonnull _); [|by apply wlp_ret]. apply wlp_bind, wlp_on_kern. intros [] d' Hs. apply wlp_modify.
  etransitivity; [done|]. apply qsim_waiter.
Qed.

Lemma wlp_intq_sleep q d : wlp (intq_sleep q) d (λ _ d', qsim d d').
Proof.
  apply wlp_bind, wlp_on_kern. intros c d1 H1. apply wlp_bind, wlp_assert. intros _. apply wlp_bind, wlp_gets, wlp_on_kern.
  intros [] d2 H2. by etransitivity.
Qed.

Lemma wlp_intq_getc q d : wlp (intq_getc q) d (λ r d',
  match r with
  | None => qsim d d'
  | Some b => head (q_of q d) ≠ tail (q_of q d) ∧ buf (q_of q d) !! Z.to_nat (tail (q_of q d)) = Some b ∧
      qsim (set_q q (q_get (q_of q d)) d) d'
  end).
Proof.
  apply wlp_bind, wlp_assert_off. intros Hoff. apply wlp_bind, wlp_intq_empty. intros _.
  destruct (Z.eqb_spec (head (q_of q d)) (tail (q_of q d))) as [E|Hn].
  - apply wlp_bind. eapply wlp_mono; [apply wlp_intq_sleep|]. intros u d' Hs. by apply wlp_ret.
  - apply wlp_bind, wlp_gets. destruct (buf (q_of q d) !! _) as [b|] eqn:Hb; [|done].
    apply wlp_bind, wlp_ret, wlp_bind, wlp_modify, wlp_bind. eapply wlp_mono; [apply wlp_signal|].
    intros u d' Hs. by apply wlp_ret.
Qed.

Lemma wlp_intq_putc q b d : wlp (intq_putc q b) d (λ r d',
  match r with
  | None => qsim d d'
  | Some _ => next (head (q_of q d)) ≠ tail (q_of q d) ∧ qsim (set_q q (q_put b (q_of q d)) d) d'
  end).
Proof.
  apply wlp_bind, wlp_assert_off. intros Hoff. apply wlp_bind, wlp_intq_full. intros _.
  destruct (Z.eqb_spec (next (head (q_of q d))) (tail (q_of q d))) as [E|Hn].
  - apply wlp_bind. eapply wlp_mono; [apply wlp_intq_sleep|]. intros u d' Hs. by apply wlp_ret.
  - apply wlp_bind, wlp_gets, wlp_bind, wlp_modify, wlp_bind. eapply wlp_mono; [apply wlp_signal|].
    intros u d' Hs. by apply wlp_ret.
Qed.

(** What has been written to the transmitter, and the bytes still to be sent. *)
Definition thr (l : list (Z * Z)) : list Z := omap (λ '(p, b), if p =? THR_REG then Some b else None) l.
Definition stream (d : devs) : list Z := thr (written (ports d)) ++ q_bytes (txq d).

Record serial_ok (d : devs) : Prop := SerialOk {
  so_txq : q_ok (txq d);
  so_buffer : q_ok (buffer d);
  so_mode : mode d = QUEUE;
  so_bytes : Forall byte (q_bytes (txq d));
}.
(** [l] has been added to the stream. *)
Definition sent (d : devs) (l : list Z) (d' : devs) : Prop := serial_ok d' ∧ stream d' = stream d ++ l.

Lemma q_bytes_eq x x' : buf x' = buf x ∧ head x' = head x ∧ tail x' = tail x → q_bytes x' = q_bytes x ∧ (q_ok x → q_ok x').
Proof.
  intros (Hb & Hh & Ht). unfold q_bytes, q_slot, q_len. rewrite Hb, Hh, Ht. split; [done|].
  intros []. constructor; congruence.
Qed.

Lemma qsim_sent d d' : qsim d d' → serial_ok d → sent d [] d'.
Proof.
  intros [Hbf Htx Hm Hp] []. apply q_bytes_eq in Hbf as [_ Hbf]. apply q_bytes_eq in Htx as [Htx1 Htx2].
  split; [constructor; [auto|auto|congruence|by rewrite Htx1]|]. unfold stream. by rewrite Hp, Htx1, app_nil_r.
Qed.

Lemma sent_trans d1 l1 d2 l2 d3 : sent d1 l1 d2 → sent d2 l2 d3 → sent d1 (l1 ++ l2) d3.
Proof. intros [_ E1] [Hok E2]. split; [done|]. by rewrite E2, E1, (assoc_L (++)). Qed.
Lemma sent_nil_l d1 d2 l d3 : sent d1 [] d2 → sent d2 l d3 → sent d1 l d3.
Proof. apply sent_trans. Qed.
Lemma sent_nil_r d1 l d2 d3 : sent d1 l d2 → sent d2 [] d3 → sent d1 l d3.
Proof. intros H1 H2. rewrite <-(app_nil_r l). by eapply sent_trans. Qed.

Lemma sent_put b d : serial_ok d → byte b → next (head (txq d)) ≠ tail (txq d) → sent d [b] (set_q Txq (q_put b (txq d)) d).
Proof.
  intros [] Hb Hn. split.
  - constructor; simpl; [by apply q_put_ok|done|done|]. rewrite q_bytes_put by done. apply Forall_app. split; [done|].
    by apply Forall_singleton.
  - unfold stream. simpl. by rewrite q_bytes_put, (assoc_L (++)) by done.
Qed.

Lemma sent_put_buffer b d : serial_ok d → sent d [] (set_q Buffer (q_put b (buffer d)) d).
Proof. intros []. split; [constructor; try done; by apply q_put_ok|]. unfold stream. by rewrite app_nil_r. Qed.
Lemma sent_get_buffer d : serial_ok d → sent d [] (set_q Buffer (q_get (buffer d)) d).
Proof. intros []. split; [constructor; try done; by apply q_get_ok|]. unfold stream. by rewrite app_nil_r. Qed.

(** A byte that has been taken from the queue and not been sent yet. *)
Definition in_hand (b : Z) (d d' : devs) : Prop :=
  serial_ok d' ∧ byte b ∧ stream d = thr (written (ports d')) ++ b :: q_bytes (txq d').

Lemma in_hand_get b d : serial_ok d → head (txq d) ≠ tail (txq d) → buf (txq d) !! Z.to_nat (tail (txq d)) = Some b →
  in_hand b d (set_q Txq (q_get (txq d)) d).
Proof.
  intros [Htx Hbu Hmo Hby] Hn Hb. destruct (q_bytes_get _ Htx Hn) as (b' & Hb' & E). assert (b' = b) as -> by congruence.
  rewrite E in Hby. apply Forall_cons in Hby as [? ?]. split; [|split; [done|]].
  - constructor; simpl; [by apply q_get_ok|done..].
  - unfold stream. by rewrite E.
Qed.

Lemma in_hand_qsim b d d1 d2 : in_hand b d d1 → qsim d1 d2 → in_hand b d d2.
Proof.
  intros (Hok & Hb & E) Hs. destruct (qsim_sent _ _ Hs Hok) as [Hok' _]. split; [done|]. split; [done|].
  destruct Hs as [_ Htx _ Hp]. apply q_bytes_eq in Htx as [Htx _]. by rewrite Hp, Htx.
Qed.

Lemma thr_app l l' : thr (l ++ l') = thr l ++ thr l'.
Proof. apply omap_app. Qed.

Lemma serial_ok_ports i d : serial_ok d → serial_ok (set_ports i d).
Proof. intros []. by constructor. Qed.

(** Sending the byte in hand. *)
Lemma in_hand_out b d d1 : in_hand b d d1 → wlp (on_ports (outb THR_REG b)) d1 (λ _ d2, sent d [] d2).
Proof.
  intros (Hok & Hb & E). eapply wlp_run; [apply on_ports_run; done|]. split; [by apply serial_ok_ports|].
  unfold stream at 1. simpl. rewrite thr_app, app_nil_r, E. simpl. rewrite wrap_small by done.
  by rewrite <-(assoc_L (++)).
Qed.

Lemma wlp_loop_keep {S A B} (P : S → Prop) (body : A → ST S (ctl A B)) :
  (∀ a s, P s → wlp (body a) s (λ _ s', P s')) → ∀ fuel a s, P s → wlp (loop fuel body a) s (λ _ s', P s').
Proof.
  intros Hb fuel. induction fuel as [|n IH]; intros a s HP; [done|]. simpl. apply wlp_bind.
  eapply wlp_mono; [by apply Hb|]. intros [a'|b] s' Hs'; [by apply IH|by apply wlp_ret].
Qed.

(** Reading a port changes nothing but the answers to come. *)
Lemma wlp_inb p d (Q : Z → devs → Prop) :
  (∀ b bs, Q b (set_ports (IO bs (written (ports d))) d)) → wlp (on_ports (inb p)) d Q.
Proof. intros HQ a d'. unfold on_ports, inb. destruct (answers (ports d)) as [|b bs]; [done|]. intros [= <- <-]. apply HQ. Qed.

Lemma sent_inb d l d' bs : sent d l d' → sent d l (set_ports (IO bs (written (ports d'))) d').
Proof. intros [Hok E]. split; [by apply serial_ok_ports|done]. Qed.
Lemma in_hand_inb b d d' bs : in_hand b d d' → in_hand b d (set_ports (IO bs (written (ports d'))) d').
Proof. intros (Hok & Hb & E). split; [by apply serial_ok_ports|done]. Qed.

Lemma wlp_putc_poll b d d1 : in_hand b d d1 → wlp (putc_poll b) d1 (λ _ d2, sent d [] d2).
Proof.
  intros Hh. apply wlp_bind, wlp_assert_off. intros _. apply wlp_bind, wlp_gets, wlp_bind.
  eapply (wlp_mono _ _ (λ _ d', in_hand b d d')); [|intros u d2; apply in_hand_out].
  apply (wlp_loop_keep (in_hand b d)); [|done]. intros u d2 H2. apply wlp_bind, wlp_inb. intros lsr bs.
  destruct (_ =? 0); apply wlp_ret; by apply in_hand_inb.
Qed.

Lemma sent_refl d : serial_ok d → sent d [] d.
Proof. intros. by apply qsim_sent. Qed.

Lemma wlp_write_ier d : serial_ok d → wlp write_ier d (λ _ d', sent d [] d').
Proof.
  intros Hok. apply wlp_bind, wlp_assert_off. intros Hoff. destruct (write_ier_run d Hoff) as [v Hr].
  unfold write_ier in Hr. rewrite (bind_run _ _ _ _ _ (assert_off_run _ Hoff)) in Hr.
  eapply wlp_run; [exact Hr|]. split; [by apply serial_ok_ports|]. unfold stream. simpl.
  by rewrite thr_app, !app_nil_r.
Qed.

Lemma wlp_notify d : serial_ok d → wlp serial_notify d (λ _ d', sent d [] d').
Proof.
  intros Hok. apply wlp_bind, wlp_assert_off. intros Hoff. apply wlp_bind, wlp_gets.
  case_bool_decide; [by apply wlp_write_ier|]. by apply wlp_ret, sent_refl.
Qed.

Lemma wlp_getc_now d : serial_ok d → wlp (intq_getc_now Txq) d (λ b d', in_hand b d d').
Proof.
  intros Hok. apply wlp_bind. eapply wlp_mono; [apply wlp_intq_getc|]. intros [b|] d'; [|done].
  intros (Hn & Hb & Hs). apply wlp_ret. eapply in_hand_qsim; [|exact Hs]. by apply in_hand_get.
Qed.

Lemma wlp_level b d0 l d : sent d0 l d → wlp (_ ← on_kern (intr_set_level b); mret ()) d (λ _ d', sent d0 l d').
Proof.
  intros Hs. apply wlp_bind, wlp_on_kern. intros old d' Hq. apply wlp_ret. eapply sent_nil_r; [done|].
  apply qsim_sent; [done|]. apply Hs.
Qed.

Lemma wlp_serial_putc b d : serial_ok d → byte b →
  wlp (serial_putc b) d (λ r d', sent d (if r is Some _ then [b] else []) d').
Proof.
  intros Hok Hb. apply wlp_bind, wlp_on_kern. intros old d1 Hs1. pose proof (qsim_sent _ _ Hs1 Hok) as H1.
  apply wlp_bind, wlp_gets. rewrite (so_mode _ (proj1 H1)). rewrite bool_decide_eq_true_2 by done. cbn [negb].
  apply wlp_bind. eapply (wlp_mono _ _ (λ r d', sent d (if r is Some _ then [b] else []) d')).
  2: { intros [u|] d2 H2; [|by apply wlp_ret]. apply wlp_bind, wlp_on_kern. intros lv d3 H3. apply wlp_ret.
       eapply sent_nil_r; [exact H2|]. apply qsim_sent; [done|apply H2]. }
  apply wlp_bind. eapply (wlp_mono _ _ (λ _ d', sent d [] d')).
  { destruct (negb old); [|by apply wlp_ret]. apply wlp_bind, wlp_intq_full. intros Hoff.
    destruct (next _ =? _); [|by apply wlp_ret]. apply wlp_bind. eapply wlp_mono; [apply wlp_getc_now; apply H1|].
    intros c d2 H2. eapply wlp_mono; [eapply wlp_putc_poll; exact H2|]. intros u d3 H3. eauto 3 using sent_nil_l, sent_nil_r. }
  intros u d2 H2. apply wlp_bind. eapply wlp_mono; [apply wlp_intq_putc|]. cbv beta. intros [u'|] d3.
  - intros [Hn Hs]. pose proof (sent_put b d2 (proj1 H2) Hb Hn) as H3.
    pose proof (sent_nil_r _ _ _ _ H3 (qsim_sent _ _ Hs (proj1 H3))) as H23.
    apply wlp_bind. eapply wlp_mono; [apply wlp_write_ier; apply H23|]. intros u2 d4 H4. apply wlp_ret.
    eapply sent_nil_l; [exact H2|]. eauto 3 using sent_nil_l, sent_nil_r.
  - intros Hs. apply wlp_ret. eapply sent_nil_r; [exact H2|]. apply qsim_sent; [done|apply H2].
Qed.

Lemma wlp_serial_flush d : serial_ok d → wlp serial_flush d (λ _ d', sent d [] d').
Proof.
  intros Hok. apply wlp_bind, wlp_on_kern. intros old d1 Hs1. pose proof (qsim_sent _ _ Hs1 Hok) as H1.
  apply wlp_bind. eapply (wlp_mono _ _ (λ _ d', sent d [] d')); [|intros u d2; apply wlp_level].
  apply (wlp_loop_keep (sent d [])); [|done]. intros u d2 H2. apply wlp_bind, wlp_intq_empty. intros _.
  destruct (_ =? _); [by apply wlp_ret|]. apply wlp_bind. eapply wlp_mono; [apply wlp_getc_now; apply H2|].
  intros b d3 H3. apply wlp_bind. eapply wlp_mono; [eapply wlp_putc_poll; exact H3|]. intros u2 d4 H4. apply wlp_ret.
  eauto 3 using sent_nil_l, sent_nil_r.
Qed.

Lemma wlp_input_putc key d : serial_ok d → wlp (input_putc key) d (λ _ d', sent d [] d').
Proof.
  intros Hok. apply wlp_bind, wlp_assert_off. intros _. apply wlp_bind, wlp_intq_full. intros _.
  apply wlp_bind, wlp_assert. intros _. apply wlp_bind. eapply wlp_mono; [apply wlp_intq_putc|]. cbv beta.
  intros r d1 Hr. assert (sent d [] d1) as H1.
  { destruct r as [u|]; [|by apply qsim_sent]. destruct Hr as [_ Hs]. pose proof (sent_put_buffer key d Hok) as Hp.
    eapply sent_nil_l; [exact Hp|]. apply qsim_sent; [done|apply Hp]. }
  eapply wlp_mono; [apply wlp_notify; apply H1|]. intros u d2 H2. eauto 3 using sent_nil_l, sent_nil_r.
Qed.

Lemma wlp_input_full d (Q : bool → devs → Prop) : (∀ b, Q b d) → wlp input_full d Q.
Proof. intros HQ. apply wlp_bind, wlp_assert_off. intros _. apply wlp_intq_full. intros _. apply HQ. Qed.

Lemma wlp_input_getc d : serial_ok d → wlp input_getc d (λ _ d', sent d [] d').
Proof.
  intros Hok. apply wlp_bind, wlp_on_kern. intros old d1 Hs1. pose proof (qsim_sent _ _ Hs1 Hok) as H1.
  apply wlp_bind. eapply wlp_mono; [apply wlp_intq_getc|]. cbv beta. intros [b|] d2.
  - intros (_ & _ & Hs). pose proof (sent_get_buffer d1 (proj1 H1)) as Hg.
    pose proof (sent_nil_l _ _ _ _ Hg (qsim_sent _ _ Hs (proj1 Hg))) as H2.
    apply wlp_bind, wlp_bind. eapply wlp_mono; [apply wlp_notify; apply H2|]. intros u d3 H3.
    apply wlp_bind, wlp_on_kern. intros lv d4 Hs4. apply wlp_ret, wlp_ret.
    eapply sent_nil_l; [exact H1|]. eapply sent_nil_l; [exact H2|]. eapply sent_nil_l; [exact H3|].
    apply qsim_sent; [done|apply H3].
  - intros Hs. apply wlp_ret. eapply sent_nil_l; [exact H1|]. apply qsim_sent; [done|apply H1].
Qed.

Lemma wlp_serial_interrupt d : serial_ok d → wlp serial_interrupt d (λ _ d', sent d [] d').
Proof.
  intros Hok. apply wlp_bind, wlp_inb. intros iir bs. apply wlp_bind, wlp_gets, wlp_bind.
  eapply (wlp_mono _ _ (λ _ d', sent d [] d')).
  { apply (wlp_loop_keep (sent d [])); [|by apply sent_inb, sent_refl]. intros u d1 H1.
    apply wlp_bind, wlp_input_full. intros [|]; [by apply wlp_ret|]. apply wlp_bind, wlp_inb. intros lsr bs1.
    pose proof (sent_inb _ _ _ bs1 H1) as H2. destruct (_ =? 0); [by apply wlp_ret|].
    apply wlp_bind, wlp_inb. intros key bs2. pose proof (sent_inb _ _ _ bs2 H2) as H3.
    apply wlp_bind. eapply wlp_mono; [apply wlp_input_putc; apply H3|]. intros u2 d4 H4. apply wlp_ret.
    eauto 3 using sent_nil_l, sent_nil_r. }
  intros u d1 H1. apply wlp_bind. eapply (wlp_mono _ _ (λ _ d', sent d [] d')).
  { apply (wlp_loop_keep (sent d [])); [|done]. intros u2 d2 H2. apply wlp_bind, wlp_intq_empty. intros _.
    destruct (_ =? _); [by apply wlp_ret|]. apply wlp_bind, wlp_inb. intros lsr bs1.
    pose proof (sent_inb _ _ _ bs1 H2) as H3. destruct (_ =? 0); [by apply wlp_ret|].
    apply wlp_bind. eapply wlp_mono; [apply wlp_getc_now; apply H3|]. intros b d4 H4.
    apply wlp_bind. eapply wlp_mono; [eapply in_hand_out; exact H4|]. intros u5 d5 H5. apply wlp_ret. eauto 3 using sent_nil_l, sent_nil_r. }
  intros u2 d2 H2. eapply wlp_mono; [apply wlp_write_ier; apply H2|]. intros u3 d3 H3. eauto 3 using sent_nil_l, sent_nil_r.
Qed.

Lemma sent_keys d0 l f d : sent d0 l d → sent d0 l (set_keys f d).
Proof. intros Hs. eapply sent_nil_r; [exact Hs|]. apply qsim_sent; [apply qsim_keys|apply Hs]. Qed.

Lemma wlp_keyboard d : serial_ok d → wlp keyboard_interrupt d (λ _ d', sent d [] d').
Proof.
  intros Hok. apply wlp_bind, wlp_gets. cbv zeta. apply wlp_bind, wlp_inb. intros code bs.
  pose proof (sent_inb _ _ _ bs (sent_refl _ Hok)) as H1. apply wlp_bind.
  eapply (wlp_mono _ _ (λ _ d', sent d [] d')).
  { destruct (code =? _); [|by apply wlp_ret]. apply wlp_bind, wlp_inb. intros b2 bs2. apply wlp_ret. by apply sent_inb. }
  clear H1. intros c d1 H1. destruct (_ =? 0x3a).
  { destruct (negb _); [|by apply wlp_ret]. apply wlp_modify. by apply sent_keys. }
  destruct (find_key _ _) as [ch|]; [|apply wlp_modify; by apply sent_keys].
  destruct (negb _); [|by apply wlp_ret]. apply wlp_bind.
  eapply (wlp_mono _ _ (λ _ d', sent d [] d')); [destruct (_ && _); [done|by apply wlp_ret]|].
  intros u d2 H2. apply wlp_bind, wlp_input_full. intros [|]; [by apply wlp_ret|]. cbn [negb].
  apply wlp_bind, wlp_modify. pose proof (sent_keys _ _ count_key _ H2) as H3.
  eapply wlp_mono; [apply wlp_input_putc; apply H3|]. intros u4 d4 H4. eauto 3 using sent_nil_l, sent_nil_r.
Qed.

(** Runs of the system, with the bytes that [serial_putc] has accepted: calls of the serial port,
    interrupts of the serial port and the keyboard, readers of the input buffer, and whatever the
    scheduler does in between. *)
Inductive sends (d : devs) : list Z → devs → Prop :=
| sends_none : sends d [] d
| sends_putc l d1 b d2 : sends d l d1 → byte b → serial_putc b d1 = Ret (Some (), d2) → sends d (l ++ [b]) d2
| sends_blocked l d1 b d2 : sends d l d1 → byte b → serial_putc b d1 = Ret (None, d2) → sends d l d2
| sends_interrupt l d1 handler d2 : sends d l d1 → handler ∈ [serial_interrupt; keyboard_interrupt; serial_notify; serial_flush] →
    handler d1 = Ret ((), d2) → sends d l d2
| sends_getc l d1 r d2 : sends d l d1 → input_getc d1 = Ret (r, d2) → sends d l d2
| sends_schedule l d1 d2 : sends d l d1 → qsim d1 d2 → sends d l d2.

Lemma sends_sent d l d' : serial_ok d → sends d l d' → sent d l d'.
Proof.
  intros Hok. induction 1 as [|l d1 b d2 _ IH Hb Hr|l d1 b d2 _ IH Hb Hr|l d1 h d2 _ IH Hh Hr|l d1 r d2 _ IH Hr|l d1 d2 _ IH Hs].
  - by apply sent_refl.
  - eapply sent_trans; [exact IH|]. by apply (wlp_serial_putc b d1 (proj1 IH) Hb _ _ Hr).
  - eapply sent_nil_r; [exact IH|]. by apply (wlp_serial_putc b d1 (proj1 IH) Hb _ _ Hr).
  - eapply sent_nil_r; [exact IH|]. pose proof (proj1 IH) as Hok1. repeat (apply elem_of_cons in Hh as [->|Hh]).
    + by apply (wlp_serial_interrupt d1 Hok1 _ _ Hr).
    + by apply (wlp_keyboard d1 Hok1 _ _ Hr).
    + by apply (wlp_notify d1 Hok1 _ _ Hr).
    + by apply (wlp_serial_flush d1 Hok1 _ _ Hr).
    + by apply not_elem_of_nil in Hh.
  - eapply sent_nil_r; [exact IH|]. by apply (wlp_input_getc d1 (proj1 IH) _ _ Hr).
  - eapply sent_nil_r; [exact IH|]. apply qsim_sent; [done|apply IH].
Qed.

(** C36: The serial port loses, repeats and reorders nothing: at every moment of a run, what has been
    written to the transmitter followed by the queue is what it was at the start followed by the
    bytes accepted since, in the order of the calls. *)
Theorem serial_in_order d l d' : serial_ok d → sends d l d' →
  thr (written (ports d')) ++ q_bytes (txq d') = thr (written (ports d)) ++ q_bytes (txq d) ++ l.
Proof. intros Hok [_ E]%sends_sent; [|done]. unfold stream in E. by rewrite E, (assoc_L (++)). Qed.

(** ** Flushing *)

Definition ready (lsr : Z) : Prop := Z.land lsr LSR_THRE ≠ 0.
#[global] Instance ready_dec lsr : Decision (ready lsr) := not_dec _.

Lemma putc_poll_run b d a rest : off d → answers (ports d) = a :: rest → ready a →
  putc_poll b d = Ret ((), set_ports (IO rest (written (ports d) ++ [(THR_REG, u8 b)])) d).
Proof.
  intros Hoff Ha Hr. unfold putc_poll. rewrite (bind_run _ _ _ _ _ (assert_off_run _ Hoff)). run_by ltac:(done).
  erewrite bind_run; [|eapply loop_stop; erewrite bind_run; [|apply on_ports_run; unfold inb; by rewrite Ha];
    by rewrite (proj2 (Z.eqb_neq _ _) Hr)]. done.
Qed.

Lemma intq_getc_now_run q b bs d : off d → q_ok (q_of q d) → q_bytes (q_of q d) = b :: bs →
  waiter_ok (core d) (not_full (q_of q d)) → intq_getc_now q d = Ret (b, after_get q d).
Proof. intros. unfold intq_getc_now. by rewrite (bind_run _ _ _ _ _ (intq_getc_run q b bs d ltac:(done) ltac:(done) ltac:(done) ltac:(done))). Qed.

(** The transmitter log after the bytes [bs], and one iteration of the loop. *)
Record flushing (d d' : devs) (bs : list Z) : Prop := Flushing {
  fl_off : off d';
  fl_ok : serial_ok d';
  fl_waiter : waiter_ok (core d') (not_full (txq d'));
  fl_bytes : q_bytes (txq d') = bs;
  fl_thr : thr (written (ports d')) ++ bs = stream d;
  fl_ready : Forall ready (answers (ports d'));
  fl_answers : (length bs ≤ length (answers (ports d')))%nat;
  fl_context : in_external_intr (core d') = in_external_intr (core d);
}.

Lemma flush_step d d1 b bs : flushing d d1 (b :: bs) →
  ∃ d2, (b ← intq_getc_now Txq; putc_poll b;; mret (Next () : ctl () ())) d1 = Ret (Next (), d2) ∧ flushing d d2 bs.
Proof.
  intros [Hoff Hok Hw Hb Ht Hr Hl Hc]. destruct Hok as [Htx Hbu Hmo Hby].
  assert (head (txq d1) ≠ tail (txq d1)) as Hn by (rewrite (q_empty_iff _ Htx), Hb; done).
  destruct (q_bytes_get _ Htx Hn) as (b' & _ & E). rewrite Hb in E. injection E as <- E.
  destruct (answers (ports d1)) as [|a rest] eqn:Ha; [simpl in Hl; lia|]. apply Forall_cons in Hr as [Hra Hrr].
  eexists. split.
  { rewrite (bind_run _ _ _ _ _ (intq_getc_now_run Txq b bs d1 Hoff Htx Hb Hw)).
    erewrite bind_run; [reflexivity|]. apply (putc_poll_run b _ a rest); [|done|done]. unfold off. simpl. by apply woken_off. }
  rewrite Hb in Hby. apply Forall_cons in Hby as [Hbb Hby].
  constructor; simpl; [by apply woken_off| |by left|done| |done|simpl in Hl; lia|].
  - destruct (q_get_ok _ Htx). constructor; simpl; [by constructor|done|done|]. change (Forall byte (q_bytes (q_get (txq d1)))). by rewrite <-E.
  - rewrite thr_app, <-Ht. simpl. rewrite wrap_small by done. by rewrite <-(assoc_L (++)).
  - rewrite <-Hc. unfold woken. destruct (nonnull _); [|done]. by destruct (_ !! _).
Qed.

Lemma flush_loop d n : ∀ d1 bs, flushing d d1 bs → (length bs < n)%nat →
  ∃ d2, loop n (λ _ : (),
    empty ← intq_empty Txq;
    if (empty : bool) then mret (Stop ()) else
    b ← intq_getc_now Txq;
    putc_poll b;;
    mret (Next ())) () d1 = Ret ((), d2) ∧ flushing d d2 [].
Proof.
  induction n as [|n IH]; intros d1 bs Hf Hlt; [lia|]. destruct bs as [|b bs].
  - exists d1. split; [|done]. apply loop_stop. rewrite (bind_run _ _ _ _ _ (intq_empty_run Txq d1 (fl_off _ _ _ Hf))).
    rewrite (proj2 (Z.eqb_eq _ _)); [done|]. apply q_empty_iff; apply Hf.
  - destruct (flush_step _ _ _ _ Hf) as (d2 & Hr & Hf2). destruct (IH d2 bs Hf2) as (d3 & Hr3 & Hf3); [simpl in Hlt; lia|].
    exists d3. split; [|done]. rewrite <-Hr3. apply loop_next.
    rewrite (bind_run _ _ _ _ _ (intq_empty_run Txq d1 (fl_off _ _ _ Hf))).
    rewrite (proj2 (Z.eqb_neq _ _)); [exact Hr|]. rewrite (q_empty_iff _ (so_txq _ (fl_ok _ _ _ Hf))).
    by rewrite (fl_bytes _ _ _ Hf).
Qed.

(** Flushing the serial port, when the transmitter is ready whenever it is asked, returns with
    the queue empty and all its bytes written in order; the interrupt level is as before. *)
Theorem serial_flush_empties d : serial_ok d → waiter_ok (core d) (not_full (txq d)) →
  (intr_on (core d) = true → in_external_intr (core d) = false) →
  Forall ready (answers (ports d)) → (length (q_bytes (txq d)) ≤ length (answers (ports d)))%nat →
  ∃ d', serial_flush d = Ret ((), d') ∧ q_bytes (txq d') = [] ∧
    thr (written (ports d')) = thr (written (ports d)) ++ q_bytes (txq d) ∧ intr_on (core d') = intr_on (core d).
Proof.
  intros Hok Hw Hc Hr Hl. unfold serial_flush.
  rewrite (bind_run _ _ _ (intr_on (core d)) (set_core (level (core d) false) d)) by done.
  set (d1 := set_core _ d).
  destruct (flush_loop d 65 d1 (q_bytes (txq d))) as (d2 & Hrun & Hf).
  { constructor; try done. destruct Hok. by constructor. }
  { rewrite length_q_bytes. pose proof (q_len_lt (txq d)). lia. }
  change (S (Z.to_nat INTQ_BUFSIZE)) with 65%nat. rewrite (bind_run _ _ _ _ _ Hrun).
  pose proof (fl_thr _ _ _ Hf) as Ht. rewrite app_nil_r in Ht.
  destruct (intr_on (core d)) eqn:Hon.
  - eexists. split; [erewrite bind_run; [done|]; apply on_kern_run; unfold intr_set_level, intr_enable;
      run_by ltac:(done); run_by ltac:(done); rewrite (fl_context _ _ _ Hf), Hc by done; done|].
    split; [apply Hf|]. by split.
  - eexists. split; [erewrite bind_run; [done|]; apply on_kern_run; done|].
    split; [apply Hf|]. by split.
Qed.

(** ** Two threads that wait for input *)

Definition empty_queue (lock : addr) : intq := Intq lock NULL NULL (replicate 64 0) 0 0.
Definition no_keys : kbd := Kbd false false false false false false false 0.
(** The devices before and after they are initialised, in the kernel [k] and with hardware that
    will answer [bytes]. *)
Definition desk0 (k : kern) (bytes : list Z) : devs :=
  Devs (empty_queue 0xc0020000) (empty_queue 0xc0020100) UNINIT no_keys ∅ (IO bytes []) k.
Definition desk (k : kern) (bytes : list Z) : devs :=
  match (input_init;; serial_init_queue;; kbd_init) (desk0 k bytes) with Ret (_, d) => d | _ => desk0 k bytes end.

(** A schedule of the initial thread, its child and the idle thread. *)
Definition two_readers : I (option Z * option Z * Z) :=
  (* the initial thread takes the lock of the empty buffer and sleeps *)
  a ← input_getc; on_kern resume;; wait Buffer NotEmpty;;
  (* the child starts and sleeps on the lock *)
  on_kern resume;; b ← input_getc;
  (* a key is pressed while the idle thread runs, which then blocks *)
  on_kern resume;; device_interrupt keyboard_interrupt;; on_kern resume;; on_kern idle_loop;;
  (* the initial thread releases the lock and gets the key *)
  on_kern resume;; intq_woken Buffer;; c ← intq_getc Buffer; c ← input_getc_rest true (default 0 c);
  (* another key is pressed, and the child runs until it has the lock *)
  device_interrupt keyboard_interrupt;; on_kern resume;;
  on_kern thread_yield;; on_kern resume;; on_kern resume;;
  mret (a, b, c).

(** Two threads that read input can panic the kernel.  The second one sleeps on the lock of the
    buffer; when it gets the lock it waits without looking at the buffer again, and if a key has been
    pressed in the meantime the assertion in [wait] that the buffer is empty fails. *)
Theorem second_reader_panics :
  (match two_readers (desk with_child [0x1e; 0x30]) with
   | Ret (a, b, c, d) => a = None ∧ b = None ∧ c = chr "a" ∧ q_bytes (buffer d) = [chr "b"] ∧
       running (core d) = child_page ∧ holders (core d) !! q_lock (buffer d) = Some child_page
   | _ => False
   end) ∧
  (_ ← two_readers; wait Buffer NotEmpty) (desk with_child [0x1e; 0x30]) = Panic.
Proof. by vm_compute. Qed.

(** ** Examples *)

(** The devices with interrupts off and the hardware answering [bytes]. *)
Definition quiet_desk (bytes : list Z) : devs := set_core (level booted false) (desk booted bytes).

Lemma quiet_desk_ok bytes : off (quiet_desk bytes) ∧ q_ok (buffer (quiet_desk bytes)) ∧ q_ok (txq (quiet_desk bytes)) ∧
  mode (quiet_desk bytes) = QUEUE ∧ q_ok (q_of Buffer (quiet_desk bytes)).
Proof. split_and!; [done|by_evaluation|by_evaluation|by vm_compute|by_evaluation]. Qed.

Lemma intq_fifo_witness : ∃ x, intq_putc Buffer 65 (quiet_desk []) =
    Ret (Some (), set_q Buffer x (set_core (woken (core (quiet_desk [])) (not_empty (q_of Buffer (quiet_desk [])))) (quiet_desk []))) ∧
  q_bytes x = [65].
Proof.
  destruct (quiet_desk_ok []) as (Hoff & _ & _ & _ & Hb).
  destruct (intq_fifo Buffer 65 (quiet_desk []) Hoff Hb) as (Hput & _); [by left; vm_compute..|].
  destruct Hput as (x & Hr & _ & Hx & _); [vm_compute; lia|]. exists x. split; [exact Hr|]. rewrite Hx. by vm_compute.
Defined.

Lemma typed_letter_witness : ∃ d', keyboard_interrupt (quiet_desk [0x1e]) = Ret ((), d') ∧ q_bytes (buffer d') = [97].
Proof.
  destruct (quiet_desk_ok [0x1e]) as (Hoff & Hb & _).
  destruct (typed_letter 0 0x1e [] (quiet_desk [0x1e]) eq_refl Hoff Hb) as [Hp _]; [by left; vm_compute|].
  destruct Hp as (d' & Hr & _ & Hq & _); [by vm_compute|]. exists d'. split; [exact Hr|]. rewrite Hq. by vm_compute.
Defined.

Lemma quiet_serial_ok bytes : serial_ok (quiet_desk bytes).
Proof. destruct (quiet_desk_ok bytes) as (_ & ? & ? & ? & _). constructor; [assumption..|]. vm_compute. constructor. Qed.

(** A byte queued and the transmitter ready. *)
Definition queued_desk : devs := match serial_putc 72 (quiet_desk [0x60]) with Ret (_, d) => d | _ => quiet_desk [0x60] end.

Lemma queued_sends : sends (quiet_desk [0x60]) [72] queued_desk.
Proof. apply (sends_putc _ [] (quiet_desk [0x60])); [constructor|done|]. by vm_compute. Qed.

Lemma serial_in_order_witness : thr (written (ports queued_desk)) ++ q_bytes (txq queued_desk) =
  thr (written (ports (quiet_desk [0x60]))) ++ q_bytes (txq (quiet_desk [0x60])) ++ [72].
Proof. apply (serial_in_order _ _ _ (quiet_serial_ok _)). apply queued_sends. Defined.

Lemma queued_ok : serial_ok queued_desk.
Proof. apply (sends_sent _ _ _ (quiet_serial_ok _) queued_sends). Qed.

Lemma serial_flush_empties_witness : ∃ d', serial_flush queued_desk = Ret ((), d') ∧ q_bytes (txq d') = [].
Proof.
  destruct (serial_flush_empties queued_desk queued_ok) as (d' & Hr & Hq & _);
    [by left; vm_compute|by vm_compute|by_evaluation|vm_compute; lia|]. exists d'. exact (conj Hr Hq).
Defined.
