(* ===== verification/Filesys.v ===== *)
(** * Opening, removing and creating files by name: src/src/filesys/filesys.c

    The root directory is opened for each operation and closed again.  [alloc] says whether
    [calloc] has memory for the directory, and [p] is what it answers for the file.  Creating a
    file also takes sectors from the free map and writes an inode; these three operations of
    free-map.c and inode.c are arguments of [filesys_create]. *)
From S2P Require Import Prelude KList CString Directory File.

Section filesys.
Context {S : Type} `{InodeLayer S}.

Definition filesys_open (nm : bytes) (alloc : bool) (p : addr) : ST (fstate S) addr :=
  dir ← on_inodes (dir_open_root alloc);
  inode ← match dir with
          | Some d => r ← on_inodes (dir_lookup d nm); mret r.2
          | None => mret NULL
          end;
  on_inodes (dir_close dir);;
  file_open inode p.

Definition filesys_remove (nm : bytes) (alloc : bool) : ST (fstate S) bool :=
  dir ← on_inodes (dir_open_root alloc);
  success ← match dir with
            | Some d => on_inodes (dir_remove d nm)
            | None => mret false
            end;
  on_inodes (dir_close dir);;
  mret success.

Section create.
Context (free_map_allocate : Z → ST S (option Z)) (free_map_release : Z → Z → ST S ()).
Context (inode_create : Z → Z → ST S bool).

(** [e] is what the local variable of [dir_add] holds before it is written. *)
Definition filesys_create (nm : bytes) (initial_size : Z) (alloc : bool) (e : dir_entry) : ST S bool :=
  dir ← dir_open_root alloc;
  '(success, inode_sector) ← match dir with
    | Some d =>
        a ← free_map_allocate 1;
        match a with
        | Some inode_sector =>
            c ← inode_create inode_sector initial_size;
            if (c : bool) then b ← dir_add d nm inode_sector e; mret (b, inode_sector)
            else mret (false, inode_sector)
        | None => mret (false, 0)
        end
    | None => mret (false, 0)
    end;
  (if negb success && negb (inode_sector =? 0) then free_map_release inode_sector 1 else mret ());;
  dir_close dir;;
  mret success.
End create.
End filesys.
