(* ===== verification/FilesysProofs.v ===== *)
(** * Opening and removing files by name: no opener is lost

    Over an inode layer that keeps its laws, [filesys_open] and [filesys_remove] return, keep the
    invariant of open files, and leave every inode with the openers it had, but for the one of the
    file that has been opened; [filesys_create] does so when it returns. *)
From S2P Require Import Prelude KList CString Directory DirectoryProofs File FileProofs Filesys.

Section proofs.
Context {S : Type} `{InodeLayer S}.
Implicit Types s : S.
Implicit Types t : fstate S.

(** ** Steps of the inode layer that open files allow *)

(** Open inodes stay open, with as many bytes and as many writers denied. *)
Record grown s s' : Prop := Grown {
  gw_contents j bs : 0 < openers s j → contents s j = Some bs → ∃ bs', contents s' j = Some bs' ∧ length bs' = length bs;
  gw_denied j : 0 < openers s j → denied s' j = denied s j;
  gw_new j : openers s j = 0 → 0 < openers s' j → denied s' j = 0;
  gw_openers j : openers s j ≤ openers s' j;
}.

Lemma grown_files_ok t s' : files_ok t → grown (inodes t) s' → files_ok (FState (files t) s').
Proof.
  intros Hok Hg. apply (files_ok_step t); [done|by apply fo_null|..].
  - intros p f Hp. destruct (fo_inodes _ Hok p f Hp) as (Hn & Hpos & bs & Hbs & Hl). split; [done|]. split; [done|].
    destruct (gw_contents _ _ Hg (f_inode f) bs) as (bs' & ? & E); [by eapply file_opener|done|]. exists bs'. by rewrite E.
  - intros i Hi. destruct (decide (0 < openers (inodes t) i)) as [Hp|Hp].
    + rewrite (gw_denied _ _ Hg) by done. by apply (fo_denied _ Hok).
    + pose proof (openers_nonneg (inodes t) i). rewrite (gw_new _ _ Hg) by (done || lia).
      destruct (decide (i = NULL)) as [->|Hne].
      * symmetry. unfold count. replace (filter _ (files t)) with (∅ : gmap addr file); [done|]. symmetry. apply map_empty. intros p.
        apply map_lookup_filter_None. right. intros f Hp'. simpl.
        destruct (fo_inodes _ Hok p f Hp') as (Hn & _). unfold denies. rewrite (proj2 (Z.eqb_neq _ _) Hn). done.
      * pose proof (fo_openers _ Hok i Hne). pose proof (count_nonneg (denies i) (files t)).
        pose proof (count_mono (denies i) (on i) (files t) ltac:(apply denies_on)). lia.
  - intros i Hi Hc. pose proof (gw_openers _ _ Hg i). lia.
Qed.

Lemma same_grown s s' : same_files s s' → grown s s'.
Proof. intros (Hc & Ho & Hd). constructor; intros j; rewrite ?Hc, ?Ho, ?Hd; eauto with lia. Qed.

#[local] Instance grown_trans : Transitive grown.
Proof.
  intros s1 s2 s3 [C1 D1 N1 O1] [C2 D2 N2 O2]. constructor.
  - intros j bs Hj Hbs. destruct (C1 j bs Hj Hbs) as (bs1 & Hb1 & <-). pose proof (O1 j). apply C2; [lia|done].
  - intros j Hj. pose proof (O1 j). rewrite D2 by lia. by apply D1.
  - intros j Hj Hp. pose proof (openers_nonneg s2 j). destruct (decide (0 < openers s2 j)).
    + rewrite D2 by done. by apply N1.
    + apply N2; [lia|done].
  - intros j. pose proof (O1 j). pose proof (O2 j). lia.
Qed.

Definition opened (i j : addr) : Z := if decide (j = i ∧ i ≠ NULL) then 1 else 0.

Lemma inode_open_grown s sector : ∃ i s', inode_open sector s = Ret (i, s') ∧ grown s s' ∧
  (∀ j, openers s' j = openers s j + opened i j) ∧
  (i ≠ NULL → ∃ bs, contents s' i = Some bs ∧ Z.of_nat (length bs) < 2 ^ 31).
Proof.
  destruct (inode_open_law s sector) as (i & s' & Hrun & Hc & Ho & Hd & Hb). exists i, s'. split; [done|].
  assert (∀ j, openers s j ≤ openers s' j) as Hle by (intros j; rewrite Ho; destruct (decide (j = i ∧ i ≠ NULL)); lia).
  split; [|by split]. constructor; [intros j bs Hj Hbs|intros j Hj|intros j Hj Hp|done].
  - destruct (Hc j Hj) as [-> _]. eauto.
  - by destruct (Hc j Hj).
  - rewrite Ho in Hp. destruct (decide (j = i ∧ i ≠ NULL)) as [[-> ?]|]; [|lia]. by apply Hd.
Qed.

(** ** Looking up names in any directory *)

Lemma lookup_from_total nm i bs : ∀ fuel s ofs, contents s i = Some bs → 0 ≤ ofs ≤ Z.of_nat (length bs) →
  Z.of_nat (length bs) < 20 * Z.of_nat fuel + ofs →
  ∃ r s', lookup_from fuel i nm ofs s = Ret (r, s') ∧ same_files s s' ∧ ∀ e o, r = Some (e, o) → 0 ≤ o.
Proof.
  induction fuel as [|fuel IH]; intros s ofs Hc Hofs Hf; [lia|]. cbn [lookup_from].
  destruct (inode_read_law s i bs ENTRY_SIZE ofs Hc ltac:(lia)) as (s1 & Hrun & Hsame).
  rewrite (bind_run _ _ _ _ _ Hrun). unfold ENTRY_SIZE. rewrite length_take, length_drop.
  destruct (Z.eqb_spec (Z.of_nat (Z.to_nat 20 `min` (length bs - Z.to_nat ofs))) 20) as [E|E].
  - destruct (_ && _); [do 2 eexists; split; [done|]; split; [done|]; intros ? ? [= <- <-]; lia|].
    destruct (IH s1 (ofs + 20)) as (r & s2 & Hr & Hs2 & Hn); [by rewrite (proj1 Hsame)|lia|lia|].
    exists r, s2. split; [done|]. split; [by eapply same_files_trans|done].
  - do 2 eexists. split; [done|]. split; [done|]. done.
Qed.

Lemma root_entries_enough (bs : bytes) : Z.of_nat (length bs) < 20 * Z.of_nat (Datatypes.S (Z.to_nat (Z.of_nat (length bs) / ENTRY_SIZE))) + 0.
Proof.
  unfold ENTRY_SIZE. pose proof (Z.div_mod (Z.of_nat (length bs)) 20 ltac:(lia)). pose proof (Z.mod_pos_bound (Z.of_nat (length bs)) 20 ltac:(lia)).
  rewrite Nat2Z.inj_succ, Z2Nat.id by (apply Z.div_pos; lia). lia.
Qed.

Lemma lookup_total s d nm bs : contents s (dir_inode d) = Some bs →
  ∃ r s', lookup d nm s = Ret (r, s') ∧ same_files s s' ∧ ∀ e o, r = Some (e, o) → 0 ≤ o.
Proof.
  intros Hc. unfold lookup, entries_bound. rewrite Hc. change (default [] (Some bs)) with bs. apply (lookup_from_total nm _ bs); [done|lia|].
  apply root_entries_enough.
Qed.

Lemma dir_lookup_total s d nm bs : contents s (dir_inode d) = Some bs →
  ∃ i s', dir_lookup d nm s = Ret ((nonnull i, i), s') ∧ grown s s' ∧ (∀ j, openers s' j = openers s j + opened i j) ∧
    (i ≠ NULL → ∃ bs, contents s' i = Some bs ∧ Z.of_nat (length bs) < 2 ^ 31).
Proof.
  intros Hc. destruct (lookup_total s d nm bs Hc) as (r & s1 & Hr & Hsame & _). unfold dir_lookup.
  rewrite (bind_run _ _ _ _ _ Hr). destruct r as [[e o]|].
  - destruct (inode_open_grown s1 (inode_sector e)) as (i & s2 & Hi & Hg & Ho & Hb). rewrite (bind_run _ _ _ _ _ Hi).
    exists i, s2. split; [done|]. split; [etransitivity; [by apply same_grown|done]|]. split; [|done].
    intros j. rewrite Ho. by destruct Hsame as (_ & -> & _).
  - exists NULL, s1. split; [done|]. split; [by apply same_grown|]. split; [|done].
    intros j. unfold opened. rewrite decide_False by naive_solver. destruct Hsame as (_ & -> & _). lia.
Qed.

(** ** Giving up the opener of the directory *)

Lemma close_extra t i : files_ok t → (i ≠ NULL → count (on i) (files t) < openers (inodes t) i) →
  ∃ s', inode_close i (inodes t) = Ret ((), s') ∧ files_ok (FState (files t) s') ∧
    (∀ j, openers s' j = openers (inodes t) j - opened i j) ∧
    (∀ j, 0 < openers s' j → contents s' j = contents (inodes t) j).
Proof.
  intros Hok Hi. destruct (inode_close_law (inodes t) i) as (s' & Hrun & Ho & Hc).
  { destruct (decide (i = NULL)) as [|Hn]; [by left|right]. pose proof (count_nonneg (on i) (files t)). specialize (Hi Hn). lia. }
  exists s'. split; [done|]. split; [|split; [done|intros j Hj; by apply Hc]].
  apply (close_ok t (files t) i); try done. by apply fo_null.
Qed.

Lemma opened_nonneg i j : 0 ≤ opened i j.
Proof. unfold opened. destruct (decide _); lia. Qed.
Lemma opened_null j : opened NULL j = 0.
Proof. unfold opened. by rewrite decide_False by naive_solver. Qed.
Lemma opened_self i : i ≠ NULL → opened i i = 1.
Proof. intros. unfold opened. by destruct (decide (i = i ∧ i ≠ NULL)) as [|[]]. Qed.

Lemma file_open_inv i p t r t' : file_open i p t = Ret (r, t') →
  (i ≠ NULL ∧ p ≠ NULL ∧ r = p ∧ t' = FState (<[p := File i 0 false]> (files t)) (inodes t)) ∨
  (r = NULL ∧ files t' = files t ∧ inode_close i (inodes t) = Ret ((), inodes t')).
Proof.
  unfold file_open. destruct (nonnull i && nonnull p) eqn:E.
  - apply andb_true_iff in E as [Hi Hp]. intros [= <- <-]. left. unfold nonnull in *.
    apply negb_true_iff, Z.eqb_neq in Hi, Hp. done.
  - unfold mbind, ST_bind, on_inodes. destruct (inode_close i (inodes t)) as [[[] s']| | |] eqn:Hcl; [|done..].
    intros [= <- <-]. by right.
Qed.

(** The counts of openers after a file has been opened or not. *)
Lemma filesys_open_spec t nm p : files_ok t → files t !! p = None →
  ∃ r t', filesys_open nm true p t = Ret (r, t') ∧ files_ok t' ∧
    ((r = NULL ∧ files t' = files t ∧ ∀ j, openers (inodes t') j = openers (inodes t) j) ∨
     (r = p ∧ p ≠ NULL ∧ ∃ i, files t' = <[p := File i 0 false]> (files t) ∧
        ∀ j, openers (inodes t') j = openers (inodes t) j + opened i j)).
Proof.
  intros Hok Hp. destruct t as [m s0]. cbn [files inodes] in *. unfold filesys_open, dir_open_root.
  destruct (inode_open_grown s0 ROOT_DIR_SECTOR) as (i & s1 & Hopen & Hg1 & Ho1 & Hb1).
  pose proof (grown_files_ok (FState m s0) s1 Hok Hg1) as Hok1. cbn [files inodes] in *.
  destruct (decide (i = NULL)) as [->|Hi].
  - (* no directory *)
    destruct (close_extra (FState m s1) NULL Hok1) as (s2 & Hcl & Hok2 & Ho2 & _); [done|]. cbn [files inodes] in *.
    rewrite (bind_run _ _ _ None (FState m s2)).
    2: { apply on_inodes_run. cbn [inodes]. rewrite (bind_run _ _ _ _ _ Hopen). unfold dir_open. simpl.
         by rewrite (bind_run _ _ _ _ _ Hcl). }
    rewrite (bind_run _ _ _ NULL (FState m s2)) by done. rewrite (bind_run _ _ _ () (FState m s2)) by done.
    destruct (file_open_ok (FState m s2) NULL p Hok2) as (r & t' & Hrun & Hok'); [by split|].
    exists r, t'. split; [done|]. split; [done|]. left.
    destruct (file_open_inv _ _ _ _ _ Hrun) as [[? _]|(-> & Hf & Hcl')]; [done|]. split; [done|]. split; [done|].
    destruct (inode_close_law s2 NULL (or_introl eq_refl)) as (s3 & Hcl3 & Ho3 & _). intros j. cbn [inodes] in Hcl'.
    assert (inodes t' = s3) as -> by congruence. pose proof (opened_null j). rewrite Ho3, Ho2, Ho1. unfold opened in *. lia.
  - rewrite (bind_run _ _ _ (Some (Dir i 0)) (FState m s1)).
    2: { apply on_inodes_run. cbn [inodes]. rewrite (bind_run _ _ _ _ _ Hopen). unfold dir_open. by rewrite nonnull_true. }
    destruct (Hb1 Hi) as (bs & Hbs & _).
    destruct (dir_lookup_total s1 (Dir i 0) nm bs Hbs) as (j & s2 & Hl & Hg2 & Ho2 & Hb2).
    pose proof (grown_files_ok (FState m s1) s2 Hok1 Hg2) as Hok2. cbn [files inodes] in *.
    rewrite (bind_run _ _ _ j (FState m s2)).
    2: { by rewrite (bind_run _ _ _ _ _ (on_inodes_run _ (FState m s1) _ _ Hl)). }
    destruct (close_extra (FState m s2) i Hok2) as (s3 & Hcl & Hok3 & Ho3 & Hc3); cbn [files inodes] in *.
    { intros _. rewrite Ho2, Ho1, opened_self by done. pose proof (fo_openers _ Hok i Hi). pose proof (opened_nonneg j i).
      cbn [files inodes] in *. lia. }
    assert (∀ k, openers s3 k = openers s0 k + opened j k) as Ho.
    { intros k. rewrite Ho3, Ho2, Ho1. lia. }
    rewrite (bind_run _ _ _ () (FState m s3)) by (by apply on_inodes_run).
    destruct (file_open_ok (FState m s3) j p Hok3) as (r & t' & Hrun & Hok').
    { split; [done|]. cbn [files inodes]. intros Hj. rewrite Ho, opened_self by done. pose proof (fo_openers _ Hok j Hj).
      pose proof (openers_nonneg s0 j). cbn [files inodes] in *. split; [lia|]. rewrite Hc3; [by apply Hb2|]. rewrite Ho, opened_self by done. lia. }
    exists r, t'. split; [done|]. split; [done|].
    destruct (file_open_inv _ _ _ _ _ Hrun) as [(Hj & Hpn & -> & ->)|(-> & Hf & Hcl')]; [right|left].
    2: { split; [done|]. split; [done|]. cbn [inodes] in Hcl'. destruct (inode_close_law s3 j) as (s4 & Hcl4 & Ho4 & _).
         - destruct (decide (j = NULL)); [by left|right]. rewrite Ho, opened_self by done. pose proof (openers_nonneg s0 j). lia.
         - assert (inodes t' = s4) as -> by congruence. intros k. rewrite Ho4, Ho. unfold opened. lia. }
    split; [done|]. split; [done|]. exists j. split; [done|]. exact Ho.
Qed.

Lemma filesys_open_spare t nm p r t' : files_ok t → files t !! p = None → filesys_open nm true p t = Ret (r, t') →
  ∀ j, spare t' j = spare t j.
Proof.
  intros Hok Hp Hrun. destruct (filesys_open_spec t nm p Hok Hp) as (r' & t'' & Hrun' & Hok' & Hcase).
  assert (t'' = t') as -> by congruence. intros j. unfold spare.
  destruct Hcase as [(_ & -> & ->)|(_ & _ & i & Hf & ->)]; [done|].
  rewrite Hf, count_insert_new by done. destruct (fo_inodes _ Hok' p (File i 0 false)) as [Hi _]; [by rewrite Hf, lookup_insert_eq|].
  simpl in Hi. unfold on at 2, opened, one. simpl. destruct (Z.eqb_spec i j) as [<-|Hne].
  - rewrite decide_True by done. lia.
  - rewrite decide_False by naive_solver. lia.
Qed.

(** ** Removing *)

Lemma write_grown s i bs data ofs : contents s i = Some bs → 0 ≤ ofs →
  ∃ n s', inode_write_at i data ofs s = Ret (n, s') ∧ grown s s' ∧ ∀ j, openers s' j = openers s j.
Proof.
  intros Hc Hofs. destruct (inode_write_law s i bs data ofs Hc Hofs) as (n & s' & Hrun & Hn & Hi & Hj & Ho & Hd).
  exists n, s'. split; [done|]. split; [|done]. constructor; intros j; rewrite ?Ho, ?Hd; [|done|lia|done].
  intros bs' _ Hbs'. destruct (decide (j = i)) as [->|Hne]; [|rewrite Hj by done; eauto].
  eexists. split; [exact Hi|]. assert (bs' = bs) as -> by congruence.
  rewrite !length_app, !length_take, length_drop. destruct (decide _); lia.
Qed.

Lemma dir_remove_total t d nm bs : files_ok t → contents (inodes t) (dir_inode d) = Some bs → 0 < openers (inodes t) (dir_inode d) →
  ∃ ok s', dir_remove d nm (inodes t) = Ret (ok, s') ∧ files_ok (FState (files t) s') ∧
    ∀ j, openers s' j = openers (inodes t) j.
Proof.
  intros Hok Hc Hd. destruct t as [m s0]. cbn [files inodes] in *.
  destruct (lookup_total s0 d nm bs Hc) as (r & s1 & Hr & Hsame & Hofs). unfold dir_remove. rewrite (bind_run _ _ _ _ _ Hr).
  pose proof (grown_files_ok (FState m s0) s1 Hok (same_grown _ _ Hsame)) as Hok1. cbn [files inodes] in *.
  assert (∀ s', (∀ j, openers s' j = openers s1 j - opened NULL j) → ∀ j, openers s' j = openers s0 j) as Hnull.
  { intros s' Hs' j. rewrite Hs'. destruct Hsame as (_ & -> & _). unfold opened. rewrite decide_False by naive_solver. lia. }
  destruct r as [[e ofs]|].
  2: { destruct (close_extra (FState m s1) NULL Hok1 ltac:(done)) as (s2 & Hcl & Hok2 & Ho2 & _).
       rewrite (bind_run _ _ _ _ _ Hcl). exists false, s2. split; [done|]. split; [done|]. by apply Hnull. }
  destruct (inode_open_grown s1 (inode_sector e)) as (i & s2 & Hi & Hg2 & Ho2 & _). rewrite (bind_run _ _ _ _ _ Hi).
  pose proof (grown_files_ok (FState m s1) s2 Hok1 Hg2) as Hok2. cbn [files inodes] in *.
  destruct (decide (i = NULL)) as [->|Hin].
  { destruct (close_extra (FState m s2) NULL Hok2 ltac:(done)) as (s3 & Hcl & Hok3 & Ho3 & _).
    cbn [nonnull negb Z.eqb]. change (negb (nonnull NULL)) with true. cbn [files inodes] in *. rewrite (bind_run _ _ _ _ _ Hcl).
    exists false, s3. split; [done|]. split; [done|]. apply Hnull. intros j. rewrite Ho3, Ho2. unfold opened.
    rewrite !decide_False by naive_solver. lia. }
  rewrite nonnull_true by done. cbn [negb].
  destruct (gw_contents _ _ Hg2 (dir_inode d) bs) as (bs2 & Hbs2 & _);
    [by destruct Hsame as (_ & -> & _)|by rewrite (proj1 Hsame)|].
  destruct (write_grown s2 (dir_inode d) bs2 (encode (DirEntry (inode_sector e) (name e) false)) ofs Hbs2) as (n & s3 & Hw & Hg3 & Ho3).
  { by eapply Hofs. }
  rewrite (bind_run _ _ _ _ _ Hw). pose proof (grown_files_ok (FState m s2) s3 Hok2 Hg3) as Hok3. cbn [files inodes] in *.
  assert (0 < openers s3 i) as Hio. { rewrite Ho3, Ho2, opened_self by done. pose proof (openers_nonneg s1 i). lia. }
  assert (∃ s4, (if negb (n =? ENTRY_SIZE) then mret false else inode_remove i;; mret true) s3 = Ret (n =? ENTRY_SIZE, s4) ∧
    same_files s3 s4) as (s4 & H4 & Hs4).
  { destruct (n =? ENTRY_SIZE); cbn [negb].
    - destruct (inode_remove_law s3 i Hio) as (s4 & Hrm & Hs4). exists s4. rewrite (bind_run _ _ _ _ _ Hrm). by split.
    - exists s3. by split. }
  rewrite (bind_run _ _ _ _ _ H4). pose proof (grown_files_ok (FState m s3) s4 Hok3 (same_grown _ _ Hs4)) as Hok4.
  cbn [files inodes] in *. destruct (close_extra (FState m s4) i Hok4) as (s5 & Hcl & Hok5 & Ho5 & _); cbn [files inodes] in *.
  { intros _. destruct Hs4 as (_ & -> & _). rewrite Ho3, Ho2, opened_self by done. pose proof (fo_openers _ Hok1 i Hin).
    cbn [files inodes] in *. lia. }
  rewrite (bind_run _ _ _ _ _ Hcl). exists (n =? ENTRY_SIZE), s5. split; [done|]. split; [done|].
  intros j. rewrite Ho5. destruct Hs4 as (_ & -> & _). rewrite Ho3, Ho2. destruct Hsame as (_ & -> & _). lia.
Qed.

Lemma filesys_remove_spec t nm : files_ok t →
  ∃ ok s', filesys_remove nm true t = Ret (ok, FState (files t) s') ∧ files_ok (FState (files t) s') ∧
    ∀ j, openers s' j = openers (inodes t) j.
Proof.
  intros Hok. destruct t as [m s0]. cbn [files inodes] in *. unfold filesys_remove, dir_open_root.
  destruct (inode_open_grown s0 ROOT_DIR_SECTOR) as (i & s1 & Hopen & Hg1 & Ho1 & Hb1).
  pose proof (grown_files_ok (FState m s0) s1 Hok Hg1) as Hok1. cbn [files inodes] in *.
  destruct (decide (i = NULL)) as [->|Hi].
  - destruct (close_extra (FState m s1) NULL Hok1 ltac:(done)) as (s2 & Hcl & Hok2 & Ho2 & _). cbn [files inodes] in *.
    rewrite (bind_run _ _ _ None (FState m s2)).
    2: { apply on_inodes_run. cbn [inodes]. rewrite (bind_run _ _ _ _ _ Hopen). unfold dir_open. simpl.
         by rewrite (bind_run _ _ _ _ _ Hcl). }
    exists false, s2. split; [done|]. split; [done|]. intros j. rewrite Ho2, Ho1. lia.
  - rewrite (bind_run _ _ _ (Some (Dir i 0)) (FState m s1)).
    2: { apply on_inodes_run. cbn [inodes]. rewrite (bind_run _ _ _ _ _ Hopen). unfold dir_open. by rewrite nonnull_true. }
    destruct (Hb1 Hi) as (bs & Hbs & _).
    assert (openers s1 i = openers s0 i + 1) as Hoi by (by rewrite Ho1, opened_self).
    pose proof (fo_openers _ Hok i Hi) as Hcnt. pose proof (openers_nonneg s0 i). cbn [files inodes] in *.
    destruct (dir_remove_total (FState m s1) (Dir i 0) nm bs Hok1 Hbs) as (ok & s2 & Hrm & Hok2 & Ho2); [simpl; lia|].
    cbn [files inodes] in *. rewrite (bind_run _ _ _ _ _ (on_inodes_run _ (FState m s1) _ _ Hrm)).
    destruct (close_extra (FState m s2) i Hok2) as (s3 & Hcl & Hok3 & Ho3 & _); cbn [files inodes] in *.
    { intros _. rewrite Ho2. lia. }
    rewrite (bind_run _ _ _ () (FState m s3)) by (by apply on_inodes_run).
    exists ok, s3. split; [done|]. split; [done|]. intros j. rewrite Ho3, Ho2, Ho1. lia.
Qed.

(** ** Creating *)

Lemma free_slot_from_total i bs : ∀ fuel s e ofs, contents s i = Some bs → 0 ≤ ofs ≤ Z.of_nat (length bs) →
  Z.of_nat (length bs) < 20 * Z.of_nat fuel + ofs →
  ∃ e' o s', free_slot_from fuel i e ofs s = Ret ((e', o), s') ∧ same_files s s' ∧ 0 ≤ o.
Proof.
  induction fuel as [|fuel IH]; intros s e ofs Hc Hofs Hf; [lia|]. cbn [free_slot_from].
  destruct (inode_read_law s i bs ENTRY_SIZE ofs Hc ltac:(lia)) as (s1 & Hrun & Hsame).
  rewrite (bind_run _ _ _ _ _ Hrun). unfold ENTRY_SIZE. rewrite length_take, length_drop.
  destruct (Z.eqb_spec (Z.of_nat (Z.to_nat 20 `min` (length bs - Z.to_nat ofs))) 20) as [E|E].
  - destruct (negb _); [do 3 eexists; split; [done|]; split; [done|]; lia|].
    destruct (IH s1 (decode (take (Z.to_nat 20) (drop (Z.to_nat ofs) bs))) (ofs + 20)) as (e' & o & s2 & Hr & Hs2 & Hn);
      [by rewrite (proj1 Hsame)|lia|lia|].
    exists e', o, s2. split; [done|]. split; [by eapply same_files_trans|done].
  - do 3 eexists. split; [done|]. split; [done|]. lia.
Qed.

Lemma dir_add_total s d nm sector e bs : contents s (dir_inode d) = Some bs → 0 < openers s (dir_inode d) →
  ∃ ok s', dir_add d nm sector e s = Ret (ok, s') ∧ grown s s' ∧ ∀ j, openers s' j = openers s j.
Proof.
  intros Hc Hd. unfold dir_add. destruct (_ || _); [exists false, s; split; [done|]; split; [by apply same_grown|done]|].
  destruct (lookup_total s d nm bs Hc) as (r & s1 & Hr & Hs1 & _). rewrite (bind_run _ _ _ _ _ Hr).
  destruct r as [[]|]; [exists false, s1; split; [done|]; split; [by apply same_grown|apply Hs1]|].
  assert (contents s1 (dir_inode d) = Some bs) as Hc1 by (by rewrite (proj1 Hs1)).
  destruct (free_slot_from_total (dir_inode d) bs (entries_bound s1 (dir_inode d)) s1 e 0 Hc1) as (e' & o & s2 & Hr2 & Hs2 & Ho); [lia| |].
  { unfold entries_bound. rewrite Hc1. apply root_entries_enough. }
  unfold free_slot. rewrite (bind_run (λ s, free_slot_from (entries_bound s (dir_inode d)) (dir_inode d) e 0 s) _ _ _ _ Hr2).
  destruct (write_grown s2 (dir_inode d) bs (encode (DirEntry sector (strlcpy_field (name e') nm) true)) o) as (n & s3 & Hw & Hg & Ho3);
    [by rewrite (proj1 Hs2)|done|].
  cbv beta iota. rewrite (bind_run _ _ _ _ _ Hw). exists (n =? ENTRY_SIZE), s3. split; [done|]. split.
  - etransitivity; [by apply same_grown|]. etransitivity; [by apply same_grown|done].
  - intros j. rewrite Ho3. destruct Hs1 as (_ & <- & _). apply Hs2.
Qed.

Section create.
Context (free_map_allocate : Z → ST S (option Z)) (free_map_release : Z → Z → ST S ()).
Context (inode_create : Z → Z → ST S bool).

(** Open inodes stay open, with the openers and the size they have. *)
Definition steady s s' : Prop := grown s s' ∧ ∀ j, openers s' j = openers s j.

Lemma same_steady s s' : same_files s s' → steady s s'.
Proof. intros Hs. split; [by apply same_grown|apply Hs]. Qed.
Lemma steady_trans s1 s2 s3 : steady s1 s2 → steady s2 s3 → steady s1 s3.
Proof. intros [G1 O1] [G2 O2]. split; [by etransitivity|]. intros j. by rewrite O2. Qed.

(** What the free map and [inode_create] do to the open inodes when they return: nothing
    ([InodeProofs.allocation_keeps_inodes] is this fact of their code).  Nothing is said of
    whether they return: [inode_create] panics for a negative size, and [free_map_release] for
    a sector that is free. *)
Definition allocation_frame : Prop :=
  (∀ n s, wlp (free_map_allocate n) s (λ _ s', steady s s')) ∧
  (∀ sector size s, wlp (inode_create sector size) s (λ _ s', steady s s')) ∧
  (∀ sector n s, wlp (free_map_release sector n) s (λ _ s', steady s s')).

Lemma create_in_steady s d nm size e bs : allocation_frame → contents s (dir_inode d) = Some bs → 0 < openers s (dir_inode d) →
  wlp (a ← free_map_allocate 1;
    match a with
    | Some sector =>
        c ← inode_create sector size;
        if (c : bool) then b ← dir_add d nm sector e; mret (b, sector) else mret (false, sector)
    | None => mret (false, 0)
    end) s (λ _ s', steady s s').
Proof.
  intros (Halloc & Hcr & _) Hbs Hd. apply wlp_bind. eapply wlp_mono; [apply Halloc|]. intros [sector|] s1 Hs1; [|by apply wlp_ret].
  apply wlp_bind. eapply wlp_mono; [apply Hcr|]. intros ok s2 Hs2. assert (steady s s2) as Hs by (by eapply steady_trans).
  destruct ok; [|by apply wlp_ret]. destruct Hs as [Hg Ho]. destruct (gw_contents _ _ Hg _ _ Hd Hbs) as (bs2 & Hbs2 & _).
  destruct (dir_add_total s2 d nm sector e bs2) as (b & s3 & Hadd & Hg3 & Ho3); [done|by rewrite Ho|].
  eapply wlp_bind_run; [exact Hadd|]. apply wlp_ret. eapply steady_trans; [by split|by split].
Qed.

Lemma wlp_filesys_create t nm size e : allocation_frame → files_ok t →
  wlp (filesys_create free_map_allocate free_map_release inode_create nm size true e) (inodes t)
    (λ _ s', files_ok (FState (files t) s') ∧ ∀ j, openers s' j = openers (inodes t) j).
Proof.
  intros Hall Hok. destruct t as [m s0]. cbn [files inodes] in *. unfold filesys_create, dir_open_root.
  destruct (inode_open_grown s0 ROOT_DIR_SECTOR) as (i & s1 & Hopen & Hg1 & Ho1 & Hb1).
  pose proof (grown_files_ok (FState m s0) s1 Hok Hg1) as Hok1. cbn [files inodes] in *.
  destruct (decide (i = NULL)) as [->|Hi].
  - destruct (close_extra (FState m s1) NULL Hok1 ltac:(done)) as (s2 & Hcl & Hok2 & Ho2 & _). cbn [files inodes] in *.
    eapply (wlp_bind_run _ _ _ None s2).
    { rewrite (bind_run _ _ _ _ _ Hopen). unfold dir_open. simpl. by rewrite (bind_run _ _ _ _ _ Hcl). }
    apply wlp_bind, wlp_ret. cbn. apply wlp_bind, wlp_ret. apply wlp_bind, wlp_ret, wlp_ret.
    split; [done|]. intros j. rewrite Ho2, Ho1. lia.
  - eapply (wlp_bind_run _ _ _ (Some (Dir i 0)) s1).
    { rewrite (bind_run _ _ _ _ _ Hopen). unfold dir_open. by rewrite nonnull_true. }
    destruct (Hb1 Hi) as (bs & Hbs & _).
    apply wlp_bind. eapply wlp_mono; [apply (create_in_steady s1 (Dir i 0) nm size e bs Hall Hbs)|].
    { simpl. rewrite Ho1, opened_self by done. pose proof (openers_nonneg s0 i). lia. }
    intros [success sector] s2 Hs2. cbv beta iota. apply wlp_bind.
    eapply wlp_mono with (P := λ _ s3, steady s1 s3).
    { destruct (_ && _); [|by apply wlp_ret]. eapply wlp_mono; [apply Hall|]. intros [] s3 Hs3. by eapply steady_trans. }
    intros [] s3 [Hg3 Ho3]. pose proof (grown_files_ok (FState m s1) s3 Hok1 Hg3) as Hok3.
    destruct (close_extra (FState m s3) i Hok3) as (s4 & Hcl & Hok4 & Ho4 & _); cbn [files inodes] in *.
    { intros _. rewrite Ho3, Ho1, opened_self by done. pose proof (fo_openers _ Hok i Hi). cbn [files inodes] in *. lia. }
    eapply (wlp_bind_run _ _ _ () s4); [exact Hcl|]. apply wlp_ret. split; [done|]. intros j. rewrite Ho4, Ho3, Ho1. lia.
Qed.
End create.

(** ** Sequences of operations *)

Inductive fs_op :=
| SOpen (nm : bytes) (p : addr)
| SClose (p : addr)
| SRemove (nm : bytes)
| SCreate (nm : bytes) (initial_size : Z) (e : dir_entry).

Section ops.
Context (free_map_allocate : Z → ST S (option Z)) (free_map_release : Z → Z → ST S ()).
Context (inode_create : Z → Z → ST S bool).

Definition fs_exec (o : fs_op) : ST (fstate S) () :=
  match o with
  | SOpen nm p => _ ← filesys_open nm true p; mret ()
  | SClose p => file_close p
  | SRemove nm => _ ← filesys_remove nm true; mret ()
  | SCreate nm size e => _ ← on_inodes (filesys_create free_map_allocate free_map_release inode_create nm size true e); mret ()
  end.

(** A new file needs memory that no file uses; only open files are closed. *)
Definition fs_op_ok t (o : fs_op) : Prop :=
  match o with
  | SOpen _ p => files t !! p = None
  | SClose p => p = NULL ∨ is_Some (files t !! p)
  | SRemove _ | SCreate _ _ _ => True
  end.

Inductive fs_reach t : fstate S → Prop :=
| fs_reach_refl : fs_reach t t
| fs_reach_step t1 t2 o : fs_reach t t1 → fs_op_ok t1 o → fs_exec o t1 = Ret ((), t2) → fs_reach t t2.

Lemma wlp_fs_exec t o : allocation_frame free_map_allocate free_map_release inode_create → files_ok t → fs_op_ok t o →
  wlp (fs_exec o) t (λ _ t', files_ok t' ∧ ∀ j, spare t' j = spare t j).
Proof.
  intros Hall Hok Ho. destruct o as [nm p|p|nm|nm size e]; simpl in *.
  - destruct (filesys_open_spec t nm p Hok Ho) as (r & t' & Hrun & Hok' & Hcase). eapply wlp_bind_run; [exact Hrun|].
    apply wlp_ret. split; [done|]. by eapply filesys_open_spare.
  - destruct (file_close_ok t p Hok Ho) as (t' & Hrun & ? & _ & ?). by eapply wlp_run.
  - destruct (filesys_remove_spec t nm Hok) as (ok & s' & Hrun & Hok' & Ho'). eapply wlp_bind_run; [exact Hrun|].
    apply wlp_ret. split; [done|]. intros j. unfold spare. simpl. by rewrite Ho'.
  - apply wlp_bind. intros ok t' Hrun. unfold on_inodes in Hrun.
    destruct (filesys_create _ _ _ _ _ _ _ (inodes t)) as [[ok' s']| | |] eqn:E; [|done..]. injection Hrun as <- <-.
    destruct (wlp_filesys_create _ _ _ t nm size e Hall Hok _ _ E) as [Hok' Ho'].
    apply wlp_ret. split; [done|]. intros j. unfold spare. simpl. by rewrite Ho'.
Qed.

Lemma fs_reach_ok t t' : allocation_frame free_map_allocate free_map_release inode_create → files_ok t → fs_reach t t' →
  files_ok t' ∧ ∀ j, spare t' j = spare t j.
Proof.
  intros Hall Hok. induction 1 as [|t1 t2 o _ [IH1 IH2] Ho Hrun]; [done|].
  destruct (wlp_fs_exec t1 o Hall IH1 Ho () t2 Hrun) as [Hok' Hs]. split; [done|]. intros j. rewrite Hs. apply IH2.
Qed.
End ops.
End proofs.

(** C14: Opening, closing, removing and creating files by name loses no opener: after any
    sequence of these operations that return, in any order and with any names and sizes, the
    invariant of open files holds and each inode has one opener for each open file on it,
    besides those it had in the beginning.  So when all its files are closed it has exactly the
    openers it started with, and an inode that was removed is freed.  Closing a file always
    returns. *)
Theorem filesys_no_opener_leak {S} `{InodeLayer S} free_map_allocate free_map_release inode_create (t t1 : fstate S) :
  allocation_frame free_map_allocate free_map_release inode_create → files_ok t →
  fs_reach free_map_allocate free_map_release inode_create t t1 →
  files_ok t1 ∧ (∀ j, openers (inodes t1) j = spare t j + count (on j) (files t1)) ∧
  ∀ p, is_Some (files t1 !! p) →
    ∃ t2, file_close p t1 = Ret ((), t2) ∧ files t2 = delete p (files t1) ∧
      ∀ j, openers (inodes t2) j = spare t j + count (on j) (files t2).
Proof.
  intros Hall Hok Hr. destruct (fs_reach_ok _ _ _ t t1 Hall Hok Hr) as [Hok1 Hs1]. split; [done|]. split.
  - intros j. rewrite <-Hs1. unfold spare. lia.
  - intros p Hp. destruct (file_close_ok t1 p Hok1) as (t2 & Hrun & _ & Hf & Hs2); [by right|].
    exists t2. split; [done|]. split; [done|]. intros j. rewrite <-Hs1, <-Hs2. unfold spare. lia.
Qed.

(** A disk where sector 40 is free. *)
Definition one_free (n : Z) : ST ram_fs (option Z) := mret (Some 40).
Definition one_release (sector n : Z) : ST ram_fs () := if sector =? 40 then mret () else λ _, Panic.
Definition one_create (sector size : Z) : ST ram_fs bool := if 0 <=? size then mret true else λ _, Panic.

Lemma one_free_ok : allocation_frame one_free one_release one_create.
Proof.
  split; [|split].
  - intros n s. by apply wlp_ret, same_steady.
  - intros sector size s. unfold one_create. destruct (0 <=? size); [by apply wlp_ret, same_steady|done].
  - intros sector n s. unfold one_release. destruct (sector =? 40); [by apply wlp_ret, same_steady|done].
Qed.

(** Opening a third file. *)
Definition three_files : fstate ram_fs :=
  match fs_exec one_free one_release one_create (SOpen (of_string "a") 300) two_files with Ret (_, t) => t | _ => two_files end.

Lemma three_files_reach : fs_reach one_free one_release one_create two_files three_files.
Proof.
  apply (fs_reach_step _ _ _ _ two_files _ (SOpen (of_string "a") 300)); [constructor|reflexivity|vm_compute; reflexivity].
Qed.

Lemma filesys_no_opener_leak_witness :
  files_ok three_files ∧ (∀ j, openers (inodes three_files) j = spare two_files j + count (on j) (files three_files)) ∧
  ∃ t2, file_close 100 three_files = Ret ((), t2) ∧ files t2 = delete 100 (files three_files).
Proof.
  destruct (filesys_no_opener_leak one_free one_release one_create two_files three_files one_free_ok two_files_ok three_files_reach)
    as (H1 & H2 & H3). split; [exact H1|]. split; [exact H2|].
  destruct (H3 100) as (t2 & Hc & Hf & _); [vm_compute; eauto|]. exists t2. split; [exact Hc|exact Hf].
Defined.
