(* ===== verification/Syscall.v ===== *)
(** * System calls: src/src/userprog/syscall.c

    The state is the process that makes the call: its table of open files, its memory and page
    directory, and what it shares with others, the open files and the lock around them.  The
    memory that the kernel reads and writes for the process is [tmem] of its task, by virtual
    address; an access to an address that is not in it is a page fault in the kernel.  Whether
    a page may be written is a bit of its page table entry and not part of [tmem].  The open
    files are the map [files], by their address, and not bytes of [tmem]: an address that is
    not that of an open file cannot be used as one, the null pointer included, also when the
    process has been given a page at address 0.

    A call may end the process: then its result is [inl] of the exit status, and nothing after
    the call of [exit] runs.  The bound of the file table is checked with [>], so that descriptor
    128 stands for the word after the table, the first word of the member [elem]. *)
From stdpp Require Import pretty.
From S2P Require Import Prelude KList CString Stdio Bitmap Palloc Pagedir Loader Directory File Filesys.

Definition FDS : Z := 128.

Record proc (S : Type) := Proc {
  p_files : fstate S;
  p_fds : list addr;
  p_elem : addr;
  p_task : task;
  p_pd : addr;
  p_name : bytes;
  p_exit : Z;
  io_lock : bool;
  p_out : list bytes;
  p_mallocs : list addr;
}.
Arguments Proc {S} _ _ _ _ _ _ _ _ _ _.
Arguments p_files {S} _. Arguments p_fds {S} _. Arguments p_elem {S} _. Arguments p_task {S} _.
Arguments p_pd {S} _. Arguments p_name {S} _. Arguments p_exit {S} _. Arguments io_lock {S} _.
Arguments p_out {S} _. Arguments p_mallocs {S} _.

(** Code that may end the process. *)
Definition SC (S A : Type) : Type := ST (proc S) (Z + A).
#[global] Instance SC_ret {S} : MRet (SC S) := λ A a w, Ret (inr a, w).
#[global] Instance SC_bind {S} : MBind (SC S) := λ A B f m w,
  match m w with
  | Ret (inr a, w') => f a w'
  | Ret (inl status, w') => Ret (inl status, w')
  | Panic => Panic
  | Fault => Fault
  | NoFuel => NoFuel
  end.

Section syscall.
Context {S : Type} `{InodeLayer S}.
Implicit Types w : proc S.
Abbreviation X := (SC S).

Definition set_p_files (t : fstate S) w : proc S :=
  Proc t (p_fds w) (p_elem w) (p_task w) (p_pd w) (p_name w) (p_exit w) (io_lock w) (p_out w) (p_mallocs w).
Definition set_p_fds (f : list addr → list addr) w : proc S :=
  Proc (p_files w) (f (p_fds w)) (p_elem w) (p_task w) (p_pd w) (p_name w) (p_exit w) (io_lock w) (p_out w) (p_mallocs w).
Definition set_p_elem (a : addr) w : proc S :=
  Proc (p_files w) (p_fds w) a (p_task w) (p_pd w) (p_name w) (p_exit w) (io_lock w) (p_out w) (p_mallocs w).
Definition set_p_task (t : task) w : proc S :=
  Proc (p_files w) (p_fds w) (p_elem w) t (p_pd w) (p_name w) (p_exit w) (io_lock w) (p_out w) (p_mallocs w).
Definition set_p_pd (a : addr) w : proc S :=
  Proc (p_files w) (p_fds w) (p_elem w) (p_task w) a (p_name w) (p_exit w) (io_lock w) (p_out w) (p_mallocs w).
Definition set_p_exit (x : Z) w : proc S :=
  Proc (p_files w) (p_fds w) (p_elem w) (p_task w) (p_pd w) (p_name w) x (io_lock w) (p_out w) (p_mallocs w).
Definition set_io_lock (b : bool) w : proc S :=
  Proc (p_files w) (p_fds w) (p_elem w) (p_task w) (p_pd w) (p_name w) (p_exit w) b (p_out w) (p_mallocs w).
Definition show (bs : bytes) w : proc S :=
  Proc (p_files w) (p_fds w) (p_elem w) (p_task w) (p_pd w) (p_name w) (p_exit w) (io_lock w) (p_out w ++ [bs]) (p_mallocs w).
Definition pop_malloc w : proc S :=
  Proc (p_files w) (p_fds w) (p_elem w) (p_task w) (p_pd w) (p_name w) (p_exit w) (io_lock w) (p_out w) (tail (p_mallocs w)).

(** Code of other components, code that only reads the state, and stores. *)
Definition on_files {A} (f : ST (fstate S) A) : X A := λ w,
  match f (p_files w) with
  | Ret (a, t) => Ret (inr a, set_p_files t w)
  | Panic => Panic | Fault => Fault | NoFuel => NoFuel
  end.
Definition on_task {A} (f : T A) : X A := λ w,
  match f (p_task w) with
  | Ret (a, t) => Ret (inr a, set_p_task t w)
  | Panic => Panic | Fault => Fault | NoFuel => NoFuel
  end.
Definition get {A} (f : proc S → A) : X A := λ w, Ret (inr (f w), w).
Definition upd (f : proc S → proc S) : X () := λ w, Ret (inr (), f w).
Definition fail {A} (r : res Empty_set) : X A := λ _,
  match r with Ret (e) => match e with end | Panic => Panic | Fault => Fault | NoFuel => NoFuel end.
Definition stop {A} (status : Z) : X A := λ w, Ret (inl status, w).
Definition next_malloc : X addr := l ← get p_mallocs; upd pop_malloc;; mret (default NULL (head l)).

(** [lock_acquire] and [lock_release] of the lock around the file system. *)
Definition acquire_io : X () := h ← get io_lock; if (h : bool) then fail Panic else upd (set_io_lock true).
Definition release_io : X () := h ← get io_lock; if (h : bool) then upd (set_io_lock false) else fail Panic.

(** [thread_current ()->fds[fd]] for descriptors that pass the checks. *)
Definition ld_fd (fd : Z) : X addr := get (λ w, if fd =? FDS then p_elem w else default NULL (p_fds w !! Z.to_nat fd)).
Definition st_fd (fd : Z) (p : addr) : X () :=
  if fd =? FDS then upd (set_p_elem p) else upd (set_p_fds <[Z.to_nat fd := p]>).

(** ** Ending the process *)

Fixpoint close_fds (n : nat) (i : Z) : X () :=
  match n with
  | O => mret ()
  | Datatypes.S n => p ← ld_fd i; on_files (file_close p);; st_fd i NULL;; close_fds n (i + 1)
  end.

Definition process_exit : X () :=
  close_fds (Z.to_nat (FDS - 2)) 2;;
  pd ← get p_pd;
  if nonnull pd then
    upd (set_p_pd NULL);;
    on_task (on_pages (pagedir_activate NULL));;
    on_task (on_pages (pagedir_destroy pd))
  else mret ().

(** [exit]: the message names the thread and the status; [thread_exit] does not return. *)
Definition exit {A} (status : Z) : X A :=
  nm ← get p_name;
  upd (show (nm ++ of_string ": exit(" ++ of_string (pretty status) ++ of_string ")" ++ [10]));;
  upd (set_p_exit status);;
  process_exit;;
  stop status.

(** ** Arguments *)

Definition ld_word (p : addr) : M Z :=
  a ← ldb p; b ← ldb (p + 1); c ← ldb (p + 2); d ← ldb (p + 3);
  mret (a + 256 * b + 65536 * c + 16777216 * d).
Definition arg (p : addr) : X Z := on_task (on_mem (ld_word p)).
Definition is_mapped (va : addr) : X bool := pd ← get p_pd; on_task (on_pages (pagedir_is_mapped pd va)).

(** [p == NULL || p >= PHYS_BASE || !pagedir_is_mapped (...)], from left to right. *)
Definition bad_pointer (p : addr) : X bool :=
  if negb (nonnull p) || (PHYS_BASE <=? p) then mret true else
  m ← is_mapped p; mret (negb m).

(** The string at a pointer: the kernel reads it up to its terminator. *)
Definition ld_string (p : addr) : X bytes :=
  on_task (on_mem (n ← strlen p; m ← gets (λ m : mem, m); mret ((λ i, default 0 (m !! (p + i))) <$> seqZ 0 n))).

(** The bytes at [p], and how many of [size] there are before an address that is not mapped. *)
Fixpoint readable (m : mem) (p : addr) (n : nat) : bytes :=
  match n with
  | O => []
  | Datatypes.S n => match m !! p with Some b => b :: readable m (p + 1) n | None => [] end
  end.

(** ** The calls *)

Definition halt {A} : X A := fail NoFuel.

Section other_calls.
(** [process_execute] and [process_wait] of process.c, which switch to other threads, the free map
    and [inode_create] as for [filesys_create], what the local variable of [dir_add] holds, and
    the address of the string constant with a space. *)
Context (process_execute : addr → X Z) (process_wait : Z → X Z).
Context (free_map_allocate : Z → ST S (option Z)) (free_map_release : Z → Z → ST S ()).
Context (inode_create : Z → Z → ST S bool) (slot : dir_entry) (space : addr).

Definition exec (cmd_line : addr) : X Z :=
  bad ← bad_pointer cmd_line;
  if (bad : bool) then exit (-1) else
  c ← on_task (on_mem (ldb cmd_line));
  if c =? 0 then exit (-1) else
  cmd_copy ← on_task (on_pages (palloc_get_page 0));
  if negb (nonnull cmd_copy) then mret (-1) else
  on_task (add_page cmd_copy cmd_copy);;
  _ ← on_task (on_mem (strlcpy cmd_copy cmd_line PGSIZE));
  t ← on_task (on_mem (strtok_r cmd_copy space NULL));
  nm ← ld_string t.1;
  p ← next_malloc;
  temp ← on_files (filesys_open nm true p);
  if negb (nonnull temp) || (temp =? u32 (-1)) then mret (-1) else
  acquire_io;;
  pid ← process_execute cmd_line;
  release_io;;
  mret pid.

Definition wait (pid : Z) : X Z :=
  if negb (nonnull (u32 pid)) || (PHYS_BASE <=? u32 pid) then exit (-1) else
  m ← is_mapped (u32 pid);
  if (m : bool) then exit (-1) else process_wait pid.

Definition create (file size : Z) : X Z :=
  bad ← bad_pointer file;
  if (bad : bool) then exit (-1) else
  c ← on_task (on_mem (ldb file));
  if c =? 0 then mret 0 else
  nm ← ld_string file;
  if Z.of_nat (length nm) >? 14 then mret 0 else
  acquire_io;;
  ret ← on_files (on_inodes (filesys_create free_map_allocate free_map_release inode_create nm (s32 size) true slot));
  release_io;;
  mret (if (ret : bool) then 1 else 0).

Definition remove (file : addr) : X Z :=
  acquire_io;;
  nm ← ld_string file;
  ret ← on_files (filesys_remove nm true);
  release_io;;
  mret (if (ret : bool) then 1 else 0).

(** The loop of [open] over the descriptors from [index]. *)
Fixpoint open_from (n : nat) (index : Z) (file : addr) : X Z :=
  match n with
  | O => mret (-1)
  | Datatypes.S n =>
      p ← ld_fd index;
      if negb (nonnull p) then
        acquire_io;;
        nm ← ld_string file;
        a ← next_malloc;
        p ← on_files (filesys_open nm true a);
        st_fd index p;;
        release_io;;
        mret (if nonnull p then index else -1)
      else open_from n (index + 1) file
  end.
Definition open (file : addr) : X Z :=
  if negb (nonnull file) then mret (-1) else
  bad ← bad_pointer file;
  if (bad : bool) then exit (-1) else
  c ← on_task (on_mem (ldb file));
  if c =? 0 then mret (-1) else open_from (Z.to_nat (FDS - 2)) 2 file.

(** [fd == NULL || fd < low || fd > 128]. *)
Definition bad_fd (low fd : Z) : bool := (fd =? 0) || (fd <? low) || (FDS <? u32 fd).

Definition filesize (fd : Z) : X Z :=
  if bad_fd 2 fd then exit (-1) else
  p ← ld_fd fd; on_files (file_length p).

(** Descriptor 0 counts as a null pointer, so that the branch for the keyboard is not reached. *)
Definition read (fd buffer size : Z) : X Z :=
  if (fd =? 0) || (fd <? 0) || (fd =? 1) || (FDS <? u32 fd) then exit (-1) else
  bad ← bad_pointer buffer;
  if (bad : bool) then exit (-1) else
  acquire_io;;
  p ← ld_fd fd;
  bs ← on_files (file_read p (s32 size));
  on_task (on_mem (st_bytes buffer bs));;
  release_io;;
  mret (Z.of_nat (length bs)).

(** A byte of the buffer is read when it is written to the file, so that an address that is not
    mapped is a fault only when the file has room for that byte. *)
Definition write_file (p buffer size : Z) : X Z :=
  m ← get (λ w, tmem (p_task w));
  let bs := readable m buffer (Z.to_nat (s32 size)) in
  let more := if Z.of_nat (length bs) <? s32 size then [0] else [] in
  n ← on_files (file_write p (bs ++ more));
  if Z.of_nat (length bs) <? n then fail Fault else mret n.

Definition write (fd buffer size : Z) : X Z :=
  if bad_fd 1 fd then exit (-1) else
  bad ← bad_pointer buffer;
  if (bad : bool) then exit (-1) else
  if fd =? 1 then
    m ← get (λ w, tmem (p_task w));
    let bs := readable m buffer (Z.to_nat size) in
    upd (show bs);;
    if Z.of_nat (length bs) <? size then fail Fault else mret (s32 size)
  else
    acquire_io;;
    p ← ld_fd fd;
    n ← write_file p buffer size;
    release_io;;
    mret n.

Definition seek (fd position : Z) : X () :=
  if bad_fd 2 fd then exit (-1) else
  acquire_io;;
  p ← ld_fd fd;
  on_files (file_seek p (s32 position));;
  release_io.

Definition tell (fd : Z) : X Z :=
  if bad_fd 2 fd then exit (-1) else
  acquire_io;;
  p ← ld_fd fd;
  ret ← on_files (file_tell p);
  release_io;;
  mret ret.

Definition close (fd : Z) : X () :=
  if bad_fd 2 fd then exit (-1) else
  acquire_io;;
  p ← ld_fd fd;
  on_files (file_close p);;
  st_fd fd NULL;;
  release_io.

Definition mmap (fd a : Z) : X Z := mret NULL.
Definition munmap (mapping : Z) : X () := mret ().

(** ** The handler

    The result is the value stored in [f->eax], if any. *)
Definition some {A} (m : X A) : X (option A) := a ← m; mret (Some a).
Definition none (m : X ()) : X (option Z) := m;; mret None.

Definition syscall_handler (esp : Z) : X (option Z) :=
  bad ← bad_pointer esp;
  if (bad : bool) then exit (-1) else
  let call := esp in
  let esp := u32 (esp + 4) in
  let moreargs := negb (is_kernel_vaddr esp) in
  nr ← arg call;
  match nr with
  | 0 => halt
  | 1 => if moreargs then status ← arg esp; exit (s32 status) else exit (-1)
  | 2 => if moreargs then cmd ← arg esp; some (exec cmd)
         else upd (show (of_string "No name to execute executable file."));; exit (-1)
  | 3 => pid ← arg esp; some (wait (s32 pid))
  | 4 => file ← arg esp; size ← arg (u32 (esp + 4)); some (create file size)
  | 5 => file ← arg esp; some (remove file)
  | 6 => file ← arg esp; some (open file)
  | 7 => fd ← arg esp; some (filesize (s32 fd))
  | 8 => fd ← arg esp; buffer ← arg (u32 (esp + 4)); size ← arg (u32 (esp + 8)); some (read (s32 fd) buffer size)
  | 9 => if moreargs then
           fd ← arg esp; buffer ← arg (u32 (esp + 4)); size ← arg (u32 (esp + 8)); some (write (s32 fd) buffer size)
         else upd (show (of_string "Writing to console!" ++ [10]));; some (write 1 NULL NULL)
  | 10 => fd ← arg esp; position ← arg (u32 (esp + 4)); none (seek (s32 fd) position)
  | 11 => fd ← arg esp; some (tell (s32 fd))
  | 12 => fd ← arg esp; none (close (s32 fd))
  | 13 => fd ← arg esp; a ← arg (u32 (esp + 4)); some (mmap (s32 fd) a)
  | _ => mret None
  end.
End other_calls.
End syscall.
