(* ===== verification/SyscallProofs.v ===== *)
(** * System calls: what a process can and cannot do to the kernel

    [proc_ok] ties the table of descriptors to the open files.  No system call, with any
    arguments, breaks it or keeps the lock, and a process that ends leaves no file open.  Calls
    with arguments that the checks do not catch crash the kernel. *)
From stdpp Require Import pretty.
From S2P Require Import Prelude KList CString CStringProofs Stdio Bitmap Palloc Pagedir Loader LoaderProofs Directory DirectoryProofs File FileProofs Filesys FilesysProofs Syscall.

Section proofs.
Context {S : Type} `{InodeLayer S}.
Implicit Types w : proc S.


(** ** Partial correctness of code that may end the process

    [Q] holds when the code returns and [R] when the process has ended. *)
Definition xlp {A} (m : SC S A) w (Q : A → proc S → Prop) (R : Z → proc S → Prop) : Prop :=
  ∀ r w', m w = Ret (r, w') → match r with inr a => Q a w' | inl status => R status w' end.

Lemma xlp_ret {A} (a : A) w (Q : A → proc S → Prop) R : Q a w → xlp (mret a) w Q R.
Proof. by intros HQ r w' [= <- <-]. Qed.
Lemma xlp_bind {A B} (m : SC S A) (f : A → SC S B) w (Q : B → proc S → Prop) R :
  xlp m w (λ a w', xlp (f a) w' Q R) R → xlp (m ≫= f) w Q R.
Proof.
  intros Hm r w'. unfold mbind, SC_bind. destruct (m w) as [[[z|a] w1]| | |] eqn:E; [|..|done|done|done].
  - intros [= <- <-]. apply (Hm _ _ E).
  - apply (Hm _ _ E).
Qed.
Lemma xlp_mono {A} (m : SC S A) w (Q Q' : A → proc S → Prop) (R R' : Z → proc S → Prop) : xlp m w Q R →
  (∀ a w', Q a w' → Q' a w') → (∀ z w', R z w' → R' z w') → xlp m w Q' R'.
Proof. intros Hm HQ HR r w' E. specialize (Hm r w' E). destruct r; auto. Qed.
Lemma xlp_get {A} (f : proc S → A) w (Q : A → proc S → Prop) R : Q (f w) w → xlp (get f) w Q R.
Proof. by intros HQ r w' [= <- <-]. Qed.
Lemma xlp_upd (f : proc S → proc S) w (Q : () → proc S → Prop) R : Q () (f w) → xlp (upd f) w Q R.
Proof. by intros HQ r w' [= <- <-]. Qed.
Lemma xlp_fail {A} e w (Q : A → proc S → Prop) R : xlp (fail e) w Q R.
Proof. intros r w'. unfold fail. by destruct e. Qed.
Lemma xlp_stop {A} z w (Q : A → proc S → Prop) (R : Z → proc S → Prop) : R z w → xlp (stop z) w Q R.
Proof. by intros HR r w' [= <- <-]. Qed.
Lemma xlp_on_files {A} (f : ST (fstate S) A) w (Q : A → proc S → Prop) R :
  wlp f (p_files w) (λ a t, Q a (set_p_files t w)) → xlp (on_files f) w Q R.
Proof.
  intros Hf r w'. unfold on_files. destruct (f (p_files w)) as [[a t]| | |] eqn:E; [|done..].
  intros [= <- <-]. by apply Hf.
Qed.
Lemma xlp_on_task {A} (f : T A) w (Q : A → proc S → Prop) R :
  (∀ a t, Q a (set_p_task t w)) → xlp (on_task f) w Q R.
Proof. intros HQ r w'. unfold on_task. destruct (f (p_task w)) as [[a t]| | |]; [|done..]. intros [= <- <-]. apply HQ. Qed.

(** ** The invariant *)

Record table_ok w : Prop := TableOk {
  po_files : files_ok (p_files w);
  po_len : length (p_fds w) = 128%nat;
  po_open i p : (2 ≤ i)%nat → p_fds w !! i = Some p → p ≠ NULL → is_Some (files (p_files w) !! p);
  po_inj i j p : (2 ≤ i)%nat → (2 ≤ j)%nat → p_fds w !! i = Some p → p_fds w !! j = Some p → p ≠ NULL → i = j;
  po_elem : files (p_files w) !! p_elem w = None;
  po_mallocs i j p : p_mallocs w !! i = Some p → p_mallocs w !! j = Some p → p ≠ NULL → i = j;
  po_fresh p : p ∈ p_mallocs w → p ≠ NULL → files (p_files w) !! p = None ∧ p ≠ p_elem w;
}.

(** The invariant while the process holds the lock, or does not. *)
Definition proc_ok (held : bool) w : Prop := table_ok w ∧ io_lock w = held.

(** A process that has ended: its descriptors are closed, and it does not hold the lock. *)
Definition ended w : Prop :=
  files_ok (p_files w) ∧ io_lock w = false ∧ ∀ i, (2 ≤ i < 128)%nat → p_fds w !! i = Some NULL.

(** Steps that the invariant does not see. *)
Lemma table_ok_task t w : table_ok w → table_ok (set_p_task t w).
Proof. intros []. by constructor. Qed.
Lemma table_ok_show bs w : table_ok w → table_ok (show bs w).
Proof. intros []. by constructor. Qed.
Lemma proc_ok_task h t w : proc_ok h w → proc_ok h (set_p_task t w).
Proof. intros []. split; [by apply table_ok_task|done]. Qed.

Lemma xlp_acquire_same w (Q : () → proc S → Prop) R : proc_ok false w →
  (∀ w', proc_ok true w' → p_fds w' = p_fds w → Q () w') → xlp acquire_io w Q R.
Proof.
  intros [[] Hl] HQ. apply xlp_bind, xlp_get. rewrite Hl. apply xlp_upd, HQ; [by split; [constructor|]|done].
Qed.
Lemma xlp_acquire w (Q : () → proc S → Prop) R : proc_ok false w →
  (∀ w', proc_ok true w' → Q () w') → xlp acquire_io w Q R.
Proof. intros Hok HQ. apply xlp_acquire_same; [done|]. intros w' Hw' _. by apply HQ. Qed.
Lemma xlp_release w (Q : () → proc S → Prop) R : proc_ok true w → (∀ w', proc_ok false w' → Q () w') → xlp release_io w Q R.
Proof.
  intros [[] Hl] HQ. apply xlp_bind, xlp_get. rewrite Hl. apply xlp_upd, HQ. by split; [constructor|].
Qed.

Lemma xlp_task_ok {A} (f : T A) w (P : proc S → Prop) R : (∀ t, P w → P (set_p_task t w)) → P w →
  xlp (on_task f) w (λ _ w', P w') R.
Proof. intros HP Hw. apply xlp_on_task. intros. by apply HP. Qed.

(** ** Descriptors *)

Lemma ld_fd_run w fd (Q : addr → proc S → Prop) R :
  Q (if fd =? FDS then p_elem w else default NULL (p_fds w !! Z.to_nat fd)) w → xlp (ld_fd fd) w Q R.
Proof. intros HQ. unfold ld_fd. by apply xlp_get. Qed.

(** What a descriptor that passes the checks can be: no file, or one that is open. *)
Lemma fd_cases w fd : table_ok w → 2 ≤ fd ≤ FDS →
  let p := if fd =? FDS then p_elem w else default NULL (p_fds w !! Z.to_nat fd) in
  p = NULL ∨ (is_Some (files (p_files w) !! p) ∧ fd < FDS ∧ p_fds w !! Z.to_nat fd = Some p) ∨ files (p_files w) !! p = None.
Proof.
  intros Hok Hfd. destruct (Z.eqb_spec fd FDS) as [->|Hne]; simpl; [right; right; apply Hok|].
  unfold FDS in *. destruct (p_fds w !! Z.to_nat fd) as [p|] eqn:Hp; simpl; [|by left].
  destruct (decide (p = NULL)) as [|Hn]; [by left|right; left]. split; [|by split; [lia|]].
  eapply (po_open _ Hok); [|done|done]. lia.
Qed.

(** Clearing a descriptor whose file has been closed, and storing a new file. *)
Lemma close_fd_ok w fd p (t' : fstate S) : table_ok w → 2 ≤ fd < FDS → p_fds w !! Z.to_nat fd = Some p →
  files_ok t' → files t' = delete p (files (p_files w)) → table_ok (set_p_fds <[Z.to_nat fd := NULL]> (set_p_files t' w)).
Proof.
  intros Hok Hfd Hp Hok' Hf. unfold FDS in *. constructor; simpl; rewrite ?Hf; try apply Hok.
  - done.
  - by rewrite length_insert, (po_len _ Hok).
  - intros i q Hi. destruct (decide (i = Z.to_nat fd)) as [->|Hne].
    + rewrite list_lookup_insert_eq by (rewrite (po_len _ Hok); lia). by intros [= <-].
    + rewrite list_lookup_insert_ne by done. intros Hq Hn. rewrite lookup_delete_ne; [by eapply (po_open _ Hok)|].
      intros ->. apply Hne. eapply (po_inj _ Hok); [|..|exact Hq|exact Hp|done]; lia.
  - intros i j q Hi Hj. destruct (decide (i = Z.to_nat fd)) as [->|Hni], (decide (j = Z.to_nat fd)) as [->|Hnj]; [done|..];
      rewrite ?list_lookup_insert_ne, ?list_lookup_insert_eq by (done || (rewrite (po_len _ Hok); lia)).
    + by intros [= <-].
    + by intros _ [= <-].
    + by apply (po_inj _ Hok).
  - rewrite lookup_delete_None. right. apply Hok.
  - intros q Hq Hqn. destruct (po_fresh _ Hok q Hq Hqn). split; [|done]. rewrite lookup_delete_None. by right.
Qed.

(** Taking the next answer of [malloc]. *)
Lemma pop_ok w : table_ok w → table_ok (pop_malloc w).
Proof.
  intros Hok. destruct w as [t fds el ta pd nm ex lk out l]. destruct Hok. simpl in *. constructor; try done; destruct l as [|p l]; simpl in *; try done.
  - intros i j q Hi Hj Hn. apply (inj Datatypes.S). by eapply (po_mallocs0 (Datatypes.S i) (Datatypes.S j)).
  - intros q Hq. apply po_fresh0. by apply list_elem_of_further.
Qed.

(** A new file that is not in the table, at the address that [malloc] has just answered. *)
Lemma new_file_ok w p i (t' : fstate S) : table_ok w → head (p_mallocs w) = Some p → p ≠ NULL →
  files_ok t' → files t' = <[p := File i 0 false]> (files (p_files w)) → table_ok (set_p_files t' (pop_malloc w)).
Proof.
  intros Hok Hm Hn Hok' Hf. destruct (p_mallocs w) as [|p' l] eqn:Hml; [done|]. injection Hm as ->.
  destruct (po_fresh _ Hok p) as [Hfp Hpe]; [rewrite Hml; apply list_elem_of_here|done|].
  pose proof (pop_ok w Hok) as Hpop. constructor; simpl; rewrite ?Hf; try apply Hok; try apply Hpop; try done.
  - intros k q Hk Hq Hqn. rewrite lookup_insert_is_Some. right. split; [|by eapply (po_open _ Hok)].
    intros ->. destruct (po_open _ Hok k q Hk Hq Hqn). congruence.
  - rewrite lookup_insert_ne by done. apply Hok.
  - rewrite Hml. intros q Hq Hqn. simpl in Hq. destruct (po_fresh _ Hok q) as [? ?]; [rewrite Hml; by apply list_elem_of_further|done|].
    rewrite lookup_insert_ne; [done|]. intros ->. apply list_elem_of_lookup in Hq as [k Hk].
    assert (0%nat = Datatypes.S k) as [=]. by apply (po_mallocs _ Hok _ _ q); rewrite ?Hml.
Qed.

(** Storing a file that is open, and not in the table yet. *)
Lemma store_fd_ok w fd p : table_ok w → 2 ≤ fd < FDS → is_Some (files (p_files w) !! p) →
  (∀ k, (2 ≤ k)%nat → p_fds w !! k ≠ Some p) → table_ok (set_p_fds <[Z.to_nat fd := p]> w).
Proof.
  intros Hok Hfd Hp Hne. unfold FDS in *. constructor; simpl; try apply Hok.
  - by rewrite length_insert, (po_len _ Hok).
  - intros k q Hk. destruct (decide (k = Z.to_nat fd)) as [->|Hkf].
    + rewrite list_lookup_insert_eq by (rewrite (po_len _ Hok); lia). by intros [= <-] _.
    + rewrite list_lookup_insert_ne by done. by apply (po_open _ Hok).
  - intros k j q Hk Hj. destruct (decide (k = Z.to_nat fd)) as [->|Hni], (decide (j = Z.to_nat fd)) as [->|Hnj]; [done|..].
    + rewrite list_lookup_insert_eq by (rewrite (po_len _ Hok); lia). rewrite list_lookup_insert_ne by done.
      intros [= <-] Hq _. by destruct (Hne j Hj).
    + rewrite list_lookup_insert_eq by (rewrite (po_len _ Hok); lia). rewrite list_lookup_insert_ne by done.
      intros Hq [= <-] _. by destruct (Hne k Hk).
    + rewrite !list_lookup_insert_ne by done. by apply (po_inj _ Hok).
Qed.

(** ** Operations on a file that neither open nor close one *)

Definition fstep (t t' : fstate S) : Prop :=
  files_ok t' ∧ ∀ q, is_Some (files t' !! q) ↔ is_Some (files t !! q).

Lemma fstep_ok w t' : table_ok w → fstep (p_files w) t' → table_ok (set_p_files t' w).
Proof.
  intros Hok [Hok' Hd]. assert (∀ q, files t' !! q = None ↔ files (p_files w) !! q = None) as Hn.
  { intros q. rewrite !eq_None_not_Some. by rewrite Hd. }
  constructor; simpl; try apply Hok; [done|..].
  - intros i p Hi Hp Hne. apply Hd. by eapply (po_open _ Hok).
  - apply Hn, Hok.
  - intros p Hp. rewrite Hn. by apply (po_fresh _ Hok).
Qed.
Lemma fstep_proc h w t' : proc_ok h w → fstep (p_files w) t' → proc_ok h (set_p_files t' w).
Proof. intros [? ?] ?. split; [by apply fstep_ok|done]. Qed.

Lemma fstep_pos t p f pos s' : files_ok t → files t !! p = Some f → 0 ≤ pos < 2 ^ 31 →
  (∀ j bs, contents (inodes t) j = Some bs → ∃ bs', contents s' j = Some bs' ∧ length bs' = length bs) →
  (∀ j, openers s' j = openers (inodes t) j) → (∀ j, denied s' j = denied (inodes t) j) →
  fstep t (FState (<[p := File (f_inode f) pos (f_deny f)]> (files t)) s').
Proof.
  intros Hok Hp Hpos Hc Ho Hd. split; [by apply set_pos_ok|]. intros q. simpl. rewrite lookup_insert_is_Some.
  destruct (decide (p = q)) as [->|]; naive_solver.
Qed.

Lemma wlp_ld_file p t (Q : file → fstate S → Prop) : (∀ f, files t !! p = Some f → Q f t) → wlp (ld_file p) t Q.
Proof. intros HQ f t'. unfold ld_file. destruct (files t !! p) eqn:E; [|done]. intros [= <- <-]. by apply HQ. Qed.

Lemma wlp_file_read t p size : files_ok t → wlp (file_read p size) t (λ _ t', fstep t t').
Proof.
  intros Hok. destruct (files t !! p) as [f|] eqn:Hp.
  - destruct (fo_inodes _ Hok p f Hp) as (_ & Hpos & bs & Hbs & Hl).
    destruct (file_read_any t p f bs size Hok Hp Hbs) as (s' & Hrun & Hc & Ho & Hd). eapply wlp_run; [exact Hrun|].
    apply fstep_pos; try done.
    + rewrite length_take, length_drop. lia.
    + intros j bs' Hj. rewrite Hc. eauto.
  - apply wlp_bind, wlp_ld_file. congruence.
Qed.

Lemma wlp_file_write t p data : files_ok t → Z.of_nat (length data) < 2 ^ 31 → wlp (file_write p data) t (λ _ t', fstep t t').
Proof.
  intros Hok Hdl. destruct (files t !! p) as [f|] eqn:Hp.
  - destruct (fo_inodes _ Hok p f Hp) as (_ & Hpos & bs & Hbs & Hl).
    destruct (file_write_spec t p f bs data Hok Hp Hbs Hdl) as (n & s' & Hrun & Hn & Hc & Hother & Ho & Hd).
    eapply wlp_run; [exact Hrun|]. apply fstep_pos; try done.
    + destruct (decide _) in Hn; lia.
    + intros j bs' Hj. destruct (decide (j = f_inode f)) as [->|]; [|rewrite Hother by done; eauto].
      eexists. split; [exact Hc|]. assert (bs' = bs) as -> by congruence.
      rewrite !length_app, !length_take, length_drop. destruct (decide _) in Hn; lia.
  - apply wlp_bind, wlp_ld_file. congruence.
Qed.

Lemma fstep_refl t : files_ok t → fstep t t.
Proof. by split. Qed.

Lemma wlp_file_seek t p pos : files_ok t → pos < 2 ^ 31 → wlp (file_seek p pos) t (λ _ t', fstep t t').
Proof.
  intros Hok Hpos. apply wlp_bind, wlp_assert. intros _. apply wlp_bind, wlp_assert. intros H0%Z.leb_le.
  apply wlp_bind, wlp_ld_file. intros f Hf. apply wlp_modify. apply fstep_pos; try done. eauto.
Qed.
Lemma wlp_file_tell t p : files_ok t → wlp (file_tell p) t (λ _ t', fstep t t').
Proof.
  intros Hok. apply wlp_bind, wlp_assert. intros _. apply wlp_bind, wlp_ld_file. intros f Hf. by apply wlp_ret, fstep_refl.
Qed.
Lemma wlp_file_length t p : files_ok t → wlp (file_length p) t (λ _ t', fstep t t').
Proof.
  intros Hok. apply wlp_bind, wlp_assert. intros _. apply wlp_bind, wlp_ld_file. intros f Hf.
  destruct (fo_inodes _ Hok p f Hf) as (_ & _ & bs & Hbs & _).
  eapply wlp_run; [apply on_inodes_run, inode_length_law; exact Hbs|]. destruct t. by apply fstep_refl.
Qed.

(** ** Closing descriptors and ending the process *)

Lemma wlp_file_close_wild t p (Q : () → fstate S → Prop) : p ≠ NULL → files t !! p = None → wlp (file_close p) t Q.
Proof.
  intros Hp Hn. unfold file_close. rewrite nonnull_true by done. apply wlp_bind, wlp_bind, wlp_assert. intros _.
  apply wlp_bind, wlp_ld_file. congruence.
Qed.

(** Clearing a descriptor that refers to no file. *)
Lemma clear_fd_ok w fd : table_ok w → 2 ≤ fd < FDS → p_fds w !! Z.to_nat fd = Some NULL → table_ok (set_p_fds <[Z.to_nat fd := NULL]> w).
Proof.
  intros Hok Hfd Hp. destruct w. apply (close_fd_ok _ fd NULL _ Hok Hfd Hp); [apply Hok|].
  by rewrite delete_id by apply (fo_null _ (po_files _ Hok)).
Qed.
Lemma clear_elem_ok w : table_ok w → p_elem w = NULL → table_ok (set_p_elem NULL w).
Proof. destruct w. simpl. by intros ? <-. Qed.

(** Closing what a descriptor refers to and clearing it. *)
Lemma xlp_close_fd {A} h w fd (k : SC S A) (Q : A → proc S → Prop) R : proc_ok h w → 2 ≤ fd ≤ FDS →
  (∀ w', proc_ok h w' → p_exit w' = p_exit w → (fd < FDS → p_fds w' = <[Z.to_nat fd := NULL]> (p_fds w)) → xlp k w' Q R) →
  xlp (p ← ld_fd fd; on_files (file_close p);; st_fd fd NULL;; k) w Q R.
Proof.
  intros [Hok Hl] Hfd HQ. apply xlp_bind, ld_fd_run. apply xlp_bind, xlp_on_files.
  set (p := if fd =? FDS then _ else _). destruct (decide (p = NULL)) as [Hn|Hn].
  - rewrite Hn. eapply wlp_run; [done|]. unfold st_fd, p in *.
    destruct (Z.eqb_spec fd FDS) as [->|Hne]; apply xlp_bind, xlp_upd, HQ; try done; (split; [|done]); destruct w.
    + by apply clear_elem_ok.
    + destruct (lookup_lt_is_Some_2 p_fds (Z.to_nat fd)) as [q Hq]; [pose proof (po_len _ Hok); unfold FDS in *; simpl in *; lia|].
      apply clear_fd_ok; [done|lia|]. simpl in *. by rewrite Hq in *; simpl in *; subst.
  - destruct (fd_cases w fd Hok Hfd) as [?|[([f Hf] & Hlt & Hp)|Hnone]]; [done|..|by apply wlp_file_close_wild].
    destruct (file_close_ok (p_files w) _ (po_files _ Hok) (or_intror (ex_intro _ f Hf))) as (t' & Hrun & Hok' & Hdel & _).
    eapply wlp_run; [exact Hrun|]. unfold st_fd, p in *. rewrite (proj2 (Z.eqb_neq fd FDS)) in * by lia.
    apply xlp_bind, xlp_upd, HQ; [split; [|done]|done..]. apply (close_fd_ok w fd _ t' Hok ltac:(lia) Hp Hok' Hdel).
Qed.

(** All descriptors from [i] on. *)
Lemma xlp_close_fds h (Q : () → proc S → Prop) R n : ∀ i w, proc_ok h w → 2 ≤ i → i + Z.of_nat n = FDS →
  (∀ j, (2 ≤ j < Z.to_nat i)%nat → p_fds w !! j = Some NULL) →
  (∀ w', proc_ok h w' → p_exit w' = p_exit w → (∀ j, (2 ≤ j < 128)%nat → p_fds w' !! j = Some NULL) → Q () w') → xlp (close_fds n i) w Q R.
Proof.
  unfold FDS. induction n as [|n IH]; intros i w Hok Hi Hn Hj HQ; cbn [close_fds].
  { apply xlp_ret, HQ; [done..|]. intros j ?. apply Hj. lia. }
  apply (xlp_close_fd h); [done|unfold FDS; lia|]. intros w' Hok' He Hf. unfold FDS in Hf. specialize (Hf ltac:(lia)).
  apply IH; [done|lia|lia| |by rewrite He]. intros j Hj2. rewrite Hf. destruct (decide (j = Z.to_nat i)) as [->|Hne].
  - apply list_lookup_insert_eq. destruct Hok as [Hok _]. rewrite (po_len _ Hok). lia.
  - rewrite list_lookup_insert_ne by done. apply Hj. lia.
Qed.

(** [exit] never returns, and the process it ends is [ended]. *)
Lemma xlp_exit {A} status w (Q : A → proc S → Prop) R : proc_ok false w → (∀ w', ended w' → p_exit w' = status → R status w') →
  xlp (exit status) w Q R.
Proof.
  intros [Hok Hl] HR. apply xlp_bind, xlp_get, xlp_bind, xlp_upd, xlp_bind, xlp_upd, xlp_bind. unfold process_exit.
  apply xlp_bind. apply (xlp_close_fds false); [split; [by destruct Hok|done]|done|done|lia|].
  intros w' [Hok' Hl'] He Hfds. apply xlp_bind, xlp_get.
  assert (∀ pd t, ended (set_p_task t (set_p_pd pd w'))) as Hend by (split; [apply Hok'|done]).
  destruct (nonnull (p_pd w')).
  - apply xlp_bind, xlp_upd, xlp_bind, xlp_on_task. intros _ t. apply xlp_on_task. intros _ t'. apply xlp_stop, HR; [|done].
    apply (Hend NULL t').
  - apply xlp_ret, xlp_stop, HR; [|done]. destruct w'. apply (Hend p_pd p_task).
Qed.

(** ** The calls *)

(** Every call keeps the invariant when it returns, and leaves an ended process when it does not. *)
Definition keeps {A} (m : SC S A) w : Prop := xlp m w (λ _ w', proc_ok false w') (λ _ w', ended w').

Lemma keeps_exit {A} status w : proc_ok false w → keeps (exit (A:=A) status) w.
Proof. intros Hok. by apply xlp_exit. Qed.
Lemma keeps_ret {A} (a : A) w : proc_ok false w → keeps (mret a) w.
Proof. intros Hok. by apply xlp_ret. Qed.
Lemma keeps_task {A B} (f : T A) (k : A → SC S B) w : proc_ok false w →
  (∀ a w', proc_ok false w' → keeps (k a) w') → keeps (on_task f ≫= k) w.
Proof. intros Hok Hk. apply xlp_bind, xlp_on_task. intros a t. by apply Hk, proc_ok_task. Qed.

Lemma xlp_bad_pointer p w (Q : bool → proc S → Prop) R : proc_ok false w → (∀ b w', proc_ok false w' → Q b w') → xlp (bad_pointer p) w Q R.
Proof.
  intros Hok HQ. unfold bad_pointer. destruct (_ || _); [by apply xlp_ret, HQ|].
  apply xlp_bind, xlp_bind, xlp_get, xlp_on_task. intros m t. by apply xlp_ret, HQ, proc_ok_task.
Qed.

(** A call that first checks a pointer. *)
Lemma keeps_checked {A} p (k : SC S A) w : proc_ok false w → (∀ w', proc_ok false w' → keeps k w') →
  keeps (bad ← bad_pointer p; if (bad : bool) then exit (-1) else k) w.
Proof.
  intros Hok Hk. apply xlp_bind, xlp_bad_pointer; [done|]. intros [] w' Hok'; [by apply keeps_exit|by apply Hk].
Qed.

(** Operations on the open files that keep [fstep], and their use on a descriptor. *)
Lemma xlp_fstep {A B} h (f : ST (fstate S) A) (k : A → SC S B) w (Q : B → proc S → Prop) R : proc_ok h w →
  wlp f (p_files w) (λ _ t', fstep (p_files w) t') → (∀ a w', proc_ok h w' → xlp (k a) w' Q R) → xlp (on_files f ≫= k) w Q R.
Proof.
  intros Hok Hf Hk. apply xlp_bind, xlp_on_files. eapply wlp_mono; [exact Hf|]. intros a t' Ht. by apply Hk, fstep_proc.
Qed.
Lemma xlp_fd {A B} h fd (f : addr → ST (fstate S) A) (k : A → SC S B) w (Q : B → proc S → Prop) R : proc_ok h w →
  (∀ p, wlp (f p) (p_files w) (λ _ t', fstep (p_files w) t')) → (∀ a w', proc_ok h w' → xlp (k a) w' Q R) →
  xlp (p ← ld_fd fd; a ← on_files (f p); k a) w Q R.
Proof. intros Hok Hf Hk. apply xlp_bind, ld_fd_run. by apply (xlp_fstep h). Qed.

(** The end of a call that holds the lock. *)
Lemma keeps_release {A} (a : A) w : proc_ok true w → keeps (release_io;; mret a) w.
Proof. intros Hok. apply xlp_bind, xlp_release; [done|]. intros w' Hok'. by apply keeps_ret. Qed.
Lemma keeps_release_last w : proc_ok true w → keeps release_io w.
Proof. intros Hok. by apply xlp_release. Qed.
Lemma keeps_acquire {A} (k : SC S A) w : proc_ok false w → (∀ w', proc_ok true w' → keeps k w') → keeps (acquire_io;; k) w.
Proof. intros Hok Hk. by apply xlp_bind, xlp_acquire. Qed.

Lemma s32_bound n : - 2 ^ 31 ≤ s32 n < 2 ^ 31.
Proof. by apply (swrap_range 32). Qed.

(** The bound on a descriptor that the check lets through. *)
Lemma bad_fd_range low fd : 0 ≤ low → fd < 2 ^ 31 → bad_fd low fd = false → Z.max 1 low ≤ fd ≤ FDS.
Proof.
  intros Hl Hfd [[E0%Z.eqb_neq E%Z.ltb_ge]%orb_false_iff E2%Z.ltb_ge]%orb_false_iff.
  unfold FDS in *. rewrite wrap_small in E2 by (unfold fits; lia). lia.
Qed.

Lemma keeps_filesize fd w : proc_ok false w → keeps (filesize fd) w.
Proof.
  intros Hok. unfold filesize. destruct (bad_fd 2 fd); [by apply keeps_exit|]. apply xlp_bind, ld_fd_run, xlp_on_files.
  eapply wlp_mono; [apply wlp_file_length, Hok|]. intros a t' Ht. by apply fstep_proc.
Qed.
Lemma keeps_seek fd position w : proc_ok false w → keeps (seek fd position) w.
Proof.
  intros Hok. unfold seek. destruct (bad_fd 2 fd); [by apply keeps_exit|]. apply keeps_acquire; [done|]. intros w' Hok'.
  apply (xlp_fd true); [done|intros p; apply wlp_file_seek; [apply Hok'|apply s32_bound]|]. intros _. apply keeps_release_last.
Qed.
Lemma keeps_tell fd w : proc_ok false w → keeps (tell fd) w.
Proof.
  intros Hok. unfold tell. destruct (bad_fd 2 fd); [by apply keeps_exit|]. apply keeps_acquire; [done|]. intros w' Hok'.
  apply (xlp_fd true); [done|intros p; apply wlp_file_tell, Hok'|]. intros n. apply keeps_release.
Qed.
Lemma keeps_close fd w : fd < 2 ^ 31 → proc_ok false w → keeps (close fd) w.
Proof.
  intros Hfd Hok. unfold close. destruct (bad_fd 2 fd) eqn:E; [by apply keeps_exit|]. apply keeps_acquire; [done|]. intros w' Hok'.
  apply bad_fd_range in E; [|done..]. apply (xlp_close_fd true); [done|lia|].
  intros w'' Hok'' _ _. by apply keeps_release_last.
Qed.

Lemma keeps_read fd buffer size w : proc_ok false w → keeps (read fd buffer size) w.
Proof.
  intros Hok. unfold read. destruct (_ || _); [by apply keeps_exit|]. apply keeps_checked; [done|]. intros w1 H1.
  apply keeps_acquire; [done|]. intros w2 H2. apply (xlp_fd true); [done|intros p; apply wlp_file_read, H2|].
  intros bs w3 H3. apply xlp_bind, xlp_on_task. intros _ t. by apply keeps_release, proc_ok_task.
Qed.

Lemma length_readable m n : ∀ p, (length (readable m p n) ≤ n)%nat.
Proof. induction n as [|n IH]; intros p; simpl; [lia|]. destruct (m !! p); simpl; [specialize (IH (p + 1)); lia|lia]. Qed.

Lemma xlp_write_file {A} p buffer size (k : Z → SC S A) w (Q : A → proc S → Prop) R : proc_ok true w →
  (∀ n w', proc_ok true w' → xlp (k n) w' Q R) → xlp (write_file p buffer size ≫= k) w Q R.
Proof.
  intros Hok Hk. apply xlp_bind. unfold write_file. apply xlp_bind, xlp_get. set (bs := readable _ _ _).
  pose proof (length_readable (tmem (p_task w)) (Z.to_nat (s32 size)) buffer) as Hb. fold bs in Hb. pose proof (s32_bound size).
  apply (xlp_fstep true); [done|apply wlp_file_write; [apply Hok|]|].
  - rewrite length_app. destruct (Z.ltb_spec (Z.of_nat (length bs)) (s32 size)); simpl; lia.
  - intros n w' Hok'. destruct (_ <? n); [apply xlp_fail|]. by apply xlp_ret, Hk.
Qed.

Lemma keeps_write fd buffer size w : proc_ok false w → keeps (write fd buffer size) w.
Proof.
  intros Hok. unfold write. destruct (bad_fd 1 fd); [by apply keeps_exit|]. apply keeps_checked; [done|]. intros w1 H1.
  destruct (fd =? 1).
  - apply xlp_bind, xlp_get, xlp_bind, xlp_upd. destruct (_ <? _); [apply xlp_fail|]. apply xlp_ret.
    destruct H1. split; [by apply table_ok_show|done].
  - apply keeps_acquire; [done|]. intros w2 H2. apply xlp_bind, ld_fd_run, xlp_write_file; [done|]. intros n. apply keeps_release.
Qed.

(** Strings and memory. *)
Lemma xlp_string {A} p (k : bytes → SC S A) h w (Q : A → proc S → Prop) R : proc_ok h w →
  (∀ nm w', proc_ok h w' → p_fds w' = p_fds w → xlp (k nm) w' Q R) → xlp (ld_string p ≫= k) w Q R.
Proof. intros Hok Hk. apply xlp_bind, xlp_on_task. intros nm t. apply Hk; [by apply proc_ok_task|done]. Qed.

Lemma keeps_remove file w : proc_ok false w → keeps (remove file) w.
Proof.
  intros Hok. apply keeps_acquire; [done|]. intros w1 H1. apply (xlp_string _ _ true); [done|]. intros nm w2 H2 _.
  apply (xlp_fstep true); [done| |intros r; apply keeps_release].
  destruct (filesys_remove_spec (p_files w2) nm) as (r & s' & Hrun & Hok' & _); [apply H2|].
  eapply wlp_run; [exact Hrun|]. by split.
Qed.

(** *** Opening *)

Lemma next_malloc_new w : table_ok w → files (p_files w) !! default NULL (head (p_mallocs w)) = None.
Proof.
  intros Hok. destruct (p_mallocs w) as [|q l] eqn:E; simpl; [apply (fo_null _ (po_files _ Hok))|].
  destruct (decide (q = NULL)) as [->|Hn]; [apply (fo_null _ (po_files _ Hok))|].
  apply (po_fresh _ Hok); [|done]. rewrite E. apply list_elem_of_here.
Qed.

(** Opening a file by name: no file, or one that is not in the table yet. *)
Lemma xlp_open_file {A} h nm (k : addr → SC S A) w (Q : A → proc S → Prop) R : proc_ok h w →
  (∀ p w', proc_ok h w' → p_fds w' = p_fds w →
     p = NULL ∨ is_Some (files (p_files w') !! p) ∧ (∀ j, (2 ≤ j)%nat → p_fds w !! j ≠ Some p) → xlp (k p) w' Q R) →
  xlp (a ← next_malloc; p ← on_files (filesys_open nm true a); k p) w Q R.
Proof.
  intros [Hok Hl] Hk. apply xlp_bind, xlp_bind, xlp_get, xlp_bind, xlp_upd, xlp_ret, xlp_bind, xlp_on_files.
  set (p := default NULL (head (p_mallocs w))).
  assert (p = NULL ∨ head (p_mallocs w) = Some p ∧ p ≠ NULL) as Hp.
  { unfold p. destruct (p_mallocs w) as [|q l]; [by left|]. simpl. destruct (decide (q = NULL)); [by left|by right]. }
  pose proof (next_malloc_new w Hok) as Hnew. fold p in Hnew.
  destruct (filesys_open_spec (p_files w) nm p (po_files _ Hok) Hnew) as (r & t' & Hrun & Hok' & Hcase).
  eapply wlp_run; [exact Hrun|]. destruct Hcase as [(-> & Hf & _)|(-> & Hpn & i & Hf & _)].
  - apply Hk; [|done|by left]. split; [|done]. apply fstep_ok; [by apply pop_ok|]. split; [done|]. intros q. by rewrite Hf.
  - destruct Hp as [|[Hp _]]; [done|]. apply Hk; [split; [|done]|done|right].
    + exact (new_file_ok w p i t' Hok Hp Hpn Hok' Hf).
    + split; [simpl; rewrite Hf, lookup_insert_eq; by eexists|]. intros j Hj Hq. destruct (po_open _ Hok j p Hj Hq Hpn). congruence.
Qed.

Lemma keeps_open_from file n : ∀ index w, 2 ≤ index → index + Z.of_nat n = FDS → proc_ok false w → keeps (open_from n index file) w.
Proof.
  unfold FDS. induction n as [|n IH]; intros index w Hi Hn Hok; cbn [open_from]; [by apply keeps_ret|].
  apply xlp_bind, ld_fd_run. rewrite (proj2 (Z.eqb_neq index FDS)) by (unfold FDS; lia).
  destruct (lookup_lt_is_Some_2 (p_fds w) (Z.to_nat index)) as [q Hq]; [destruct Hok as [Hok _]; rewrite (po_len _ Hok); lia|].
  rewrite Hq. simpl. destruct (nonnull q) eqn:Eq; simpl; [apply IH; [lia..|done]|].
  assert (q = NULL) as -> by (unfold nonnull in Eq; by apply negb_false_iff, Z.eqb_eq in Eq).
  unfold keeps. apply xlp_bind, xlp_acquire_same; [done|]. intros w1 H1 E1. apply (xlp_string _ _ true); [done|]. intros nm w2 H2 E2.
  apply (xlp_open_file true); [done|]. intros p w3 H3 E3 Hp. unfold st_fd. rewrite (proj2 (Z.eqb_neq index FDS)) by (unfold FDS; lia).
  apply xlp_bind, xlp_upd, keeps_release. split; [|apply H3]. destruct Hp as [->|[Hp Hne]].
  - apply clear_fd_ok; [apply H3|unfold FDS; lia|by rewrite E3, E2, E1].
  - apply store_fd_ok; [apply H3|unfold FDS; lia|done|by rewrite E3].
Qed.
Lemma keeps_open file w : proc_ok false w → keeps (open file) w.
Proof.
  intros Hok. unfold open. destruct (negb _); [by apply keeps_ret|]. apply keeps_checked; [done|]. intros w1 H1.
  apply keeps_task; [done|]. intros c w2 H2. destruct (c =? 0); [by apply keeps_ret|]. by apply keeps_open_from.
Qed.

(** *** The calls that use other components *)

Section calls.
Context (process_execute : addr → SC S Z) (process_wait : Z → SC S Z).
Context (free_map_allocate : Z → ST S (option Z)) (free_map_release : Z → Z → ST S ()).
Context (inode_create : Z → Z → ST S bool) (slot : dir_entry) (space : addr).
Abbreviation allocation_frame := (allocation_frame free_map_allocate free_map_release inode_create).

(** An operation on the files of any process: a call of file.c on an open file, or one of
    filesys.c by name. *)
Inductive activity (t t' : fstate S) : Prop :=
| act_file : file_step t t' → activity t t'
| act_name o : fs_op_ok t o → fs_exec free_map_allocate free_map_release inode_create o t = Ret ((), t') → activity t t'.

Lemma activity_ok t t' : allocation_frame → files_ok t → rtc activity t t' → files_ok t'.
Proof.
  intros Hall Hok Hr. induction Hr as [|t1 t2 t3 [Hs|o Ho Hrun] _ IH]; [done|..]; apply IH.
  - by eapply reachable_files_ok, rtc_once.
  - by destruct (wlp_fs_exec _ _ _ t1 o Hall Hok Ho () t2 Hrun).
Qed.

(** While this process does not run, others may open, use and close files of their own.  They
    leave alone its table and its lock, the files its descriptors refer to, and the memory that
    is not a file: the list element of its thread, and the blocks [malloc] has yet to answer. *)
Record others w w' : Prop := Others {
  ot_fds : p_fds w' = p_fds w;
  ot_elem : p_elem w' = p_elem w;
  ot_lock : io_lock w' = io_lock w;
  ot_mallocs : p_mallocs w' = p_mallocs w;
  ot_files : rtc activity (p_files w) (p_files w');
  ot_own i p : (2 ≤ i)%nat → p_fds w !! i = Some p → files (p_files w') !! p = files (p_files w) !! p;
  ot_free q : q = p_elem w ∨ q ∈ p_mallocs w → files (p_files w) !! q = None → files (p_files w') !! q = None;
}.

Lemma others_ok h w w' : allocation_frame → proc_ok h w → others w w' → proc_ok h w'.
Proof.
  intros Hall [Hok Hl] [E1 E2 E3 E4 Hf Hown Hfree]. split; [|by rewrite E3]. constructor.
  - by eapply activity_ok; [done|apply Hok|].
  - rewrite E1. apply Hok.
  - intros i p Hi Hp Hn. rewrite E1 in Hp. rewrite (Hown i p Hi Hp). by apply (po_open _ Hok i).
  - rewrite E1. apply Hok.
  - rewrite E2. apply Hfree; [by left|apply Hok].
  - rewrite E4. apply Hok.
  - rewrite E2, E4. intros p Hp Hn. destruct (po_fresh _ Hok p Hp Hn) as [Hp0 Hne].
    split; [|done]. apply Hfree; [by right|done].
Qed.

(** What the calls rely on of process.c: starting and awaiting another process do nothing to this
    one but let others run. *)
Definition processes_frame : Prop :=
  (∀ cmd w, xlp (process_execute cmd) w (λ _ w', others w w') (λ _ _, False)) ∧
  (∀ pid w, xlp (process_wait pid) w (λ _ w', others w w') (λ _ _, False)).

Hypothesis Hproc : processes_frame.
Hypothesis Halloc : allocation_frame.

Lemma keeps_exec cmd w : proc_ok false w → keeps (Syscall.exec process_execute space cmd) w.
Proof.
  intros Hok. unfold Syscall.exec. apply keeps_checked; [done|]. intros w1 H1. apply keeps_task; [done|]. intros c w2 H2.
  destruct (c =? 0); [by apply keeps_exit|]. apply keeps_task; [done|]. intros copy w3 H3.
  destruct (negb (nonnull copy)); [by apply keeps_ret|]. apply keeps_task; [done|]. intros _ w4 H4.
  apply keeps_task; [done|]. intros _ w5 H5. apply keeps_task; [done|]. intros t w6 H6.
  apply (xlp_string _ _ false); [done|]. intros nm w7 H7 _. apply (xlp_open_file false); [done|]. intros p w8 H8 _ _.
  destruct (_ || _); [by apply keeps_ret|]. apply keeps_acquire; [done|]. intros w9 H9. apply xlp_bind.
  eapply xlp_mono; [by apply Hproc| |done]. intros pid w10 H10. apply keeps_release. by eapply others_ok.
Qed.

Lemma keeps_wait pid w : proc_ok false w → keeps (wait process_wait pid) w.
Proof.
  intros Hok. unfold wait. destruct (_ || _); [by apply keeps_exit|]. apply xlp_bind, xlp_bind, xlp_get, xlp_on_task.
  intros m t. destruct m; [by apply keeps_exit, proc_ok_task|].
  eapply xlp_mono; [by apply Hproc| |done]. intros r w' Hw'. eapply others_ok; [done| |exact Hw']. by apply proc_ok_task.
Qed.

Lemma keeps_create file size w : proc_ok false w → keeps (create free_map_allocate free_map_release inode_create slot file size) w.
Proof.
  intros Hok. unfold create. apply keeps_checked; [done|]. intros w1 H1. apply keeps_task; [done|]. intros c w2 H2.
  destruct (c =? 0); [by apply keeps_ret|]. apply (xlp_string _ _ false); [done|]. intros nm w3 H3 _.
  destruct (_ >? _); [by apply keeps_ret|]. apply keeps_acquire; [done|]. intros w4 H4.
  apply (xlp_fstep true); [done| |intros r; apply keeps_release].
  intros ok t' Hrun. unfold on_inodes in Hrun.
  destruct (filesys_create _ _ _ _ _ _ _ _) as [[ok' s']| | |] eqn:E; [|done..]. injection Hrun as <- <-.
  destruct (wlp_filesys_create _ _ _ (p_files w4) nm (s32 size) slot Halloc ltac:(apply H4) _ _ E) as [Hok' _]. by split.
Qed.

Lemma keeps_arg {A} p (k : Z → SC S A) w : proc_ok false w → (∀ a w', proc_ok false w' → keeps (k a) w') → keeps (arg p ≫= k) w.
Proof. apply keeps_task. Qed.
Lemma keeps_some {A} (m : SC S A) w : keeps m w → keeps (some m) w.
Proof. intros Hm. apply xlp_bind. eapply xlp_mono; [exact Hm| |done]. intros a w' H'. by apply xlp_ret. Qed.
Lemma keeps_none (m : SC S ()) w : keeps m w → keeps (none m) w.
Proof. intros Hm. apply xlp_bind. eapply xlp_mono; [exact Hm| |done]. intros a w' H'. by apply xlp_ret. Qed.
Lemma keeps_show {A} bs (k : SC S A) w : proc_ok false w → (∀ w', proc_ok false w' → keeps k w') → keeps (upd (show bs);; k) w.
Proof. intros [Hok Hl] Hk. apply xlp_bind, xlp_upd, Hk. split; [by apply table_ok_show|done]. Qed.

Lemma keeps_halt {A} w : keeps (halt (A:=A)) w.
Proof. apply xlp_fail. Qed.
Lemma keeps_close_arg fd w : proc_ok false w → keeps (close (s32 fd)) w.
Proof. apply keeps_close, s32_bound. Qed.

Hint Resolve keeps_halt keeps_close_arg keeps_exit keeps_ret keeps_arg keeps_some keeps_none keeps_show keeps_exec keeps_wait keeps_create keeps_remove
  keeps_open keeps_filesize keeps_read keeps_write keeps_seek keeps_tell : keeps.

Lemma keeps_handler esp w : proc_ok false w →
  keeps (syscall_handler process_execute process_wait free_map_allocate free_map_release inode_create slot space esp) w.
Proof.
  intros Hok. apply keeps_checked; [done|]. intros w1 H1. apply keeps_arg; [done|]. intros nr w2 H2.
  unfold mmap. repeat case_match; eauto 10 with keeps.
Qed.
End calls.
End proofs.

(** ** Runs *)

Section runs.
Context {S : Type} `{InodeLayer S}.
Implicit Types w : proc S.

Lemma sc_bind_run {A B} (m : SC S A) (f : A → SC S B) w a w' : m w = Ret (inr a, w') → (m ≫= f) w = f a w'.
Proof. unfold mbind, SC_bind. by intros ->. Qed.
Lemma sc_bind_panic {A B} (m : SC S A) (f : A → SC S B) w : m w = Panic → (m ≫= f) w = Panic.
Proof. unfold mbind, SC_bind. by intros ->. Qed.
Lemma sc_bind_fault {A B} (m : SC S A) (f : A → SC S B) w : m w = Fault → (m ≫= f) w = Fault.
Proof. unfold mbind, SC_bind. by intros ->. Qed.
Lemma on_files_run {A} (f : ST (fstate S) A) w a t : f (p_files w) = Ret (a, t) → on_files f w = Ret (inr a, set_p_files t w).
Proof. unfold on_files. by intros ->. Qed.
Lemma on_task_run {A} (f : T A) w a t : f (p_task w) = Ret (a, t) → on_task f w = Ret (inr a, set_p_task t w).
Proof. unfold on_task. by intros ->. Qed.

(** Code that only looks at the task. *)
Lemma on_task_same {A} (f : T A) w a : f (p_task w) = Ret (a, p_task w) → on_task f w = Ret (inr a, w).
Proof. unfold on_task. intros ->. by destruct w. Qed.
Lemma on_pages_same {A} (f : P A) t a : f (tmach t) = Ret (a, tmach t) → on_pages f t = Ret (a, t).
Proof. unfold on_pages. intros ->. by destruct t. Qed.
Lemma on_mem_same {A} (f : M A) t a : f (tmem t) = Ret (a, tmem t) → on_mem f t = Ret (a, t).
Proof. unfold on_mem. intros ->. by destruct t. Qed.
Lemma acquire_run w : io_lock w = false → acquire_io w = Ret (inr (), set_io_lock true w).
Proof. intros Hl. unfold acquire_io. rewrite (sc_bind_run _ _ _ _ _ eq_refl), Hl. done. Qed.
Lemma release_run w : io_lock w = true → release_io w = Ret (inr (), set_io_lock false w).
Proof. intros Hl. unfold release_io. rewrite (sc_bind_run _ _ _ _ _ eq_refl), Hl. done. Qed.

Lemma bad_fd_ok low fd : low ≤ fd ≤ FDS → 0 < fd → bad_fd low fd = false.
Proof.
  intros Hfd H0. unfold bad_fd. rewrite wrap_small by (unfold fits, FDS in *; lia).
  rewrite (proj2 (Z.eqb_neq fd 0)), (proj2 (Z.ltb_ge fd low)), (proj2 (Z.ltb_ge FDS fd)) by lia. done.
Qed.
Lemma ld_fd_table w fd p : fd ≠ FDS → p_fds w !! Z.to_nat fd = Some p → ld_fd fd w = Ret (inr p, w).
Proof. intros Hne Hp. unfold ld_fd, get. rewrite (proj2 (Z.eqb_neq _ _) Hne), Hp. done. Qed.

(** A pointer that passes the check: below the kernel, with a page table for it. *)
Lemma bad_pointer_run w tables p : pd_ok (tmach (p_task w)) (p_pd w) tables → 0 < p < PHYS_BASE →
  bad_pointer p w = Ret (inr (negb (bool_decide (is_Some (tables !! pd_no p)))), w).
Proof.
  intros Hpd Hp. unfold bad_pointer. rewrite nonnull_true by (unfold NULL; lia).
  rewrite (proj2 (Z.leb_gt PHYS_BASE p)) by lia. cbn [negb orb]. unfold is_mapped.
  erewrite sc_bind_run; [reflexivity|]. erewrite sc_bind_run; [|reflexivity].
  apply on_task_same, on_pages_same, (pagedir_is_mapped_run _ _ tables); [done|lia|]. unfold is_user_vaddr. apply Z.ltb_lt. lia.
Qed.

Lemma ld_string_run w p s : string_at (tmem (p_task w)) p s → ld_string p w = Ret (inr s, w).
Proof.
  intros Hs. apply on_task_same, on_mem_same. erewrite bind_run; [|by apply strlen_run]. erewrite bind_run; [|reflexivity].
  unfold mret, ST_ret. do 2 f_equal. apply bytes_at_read. destruct Hs as [_ [Hb _]%bytes_at_app _]. done.
Qed.

(** The first byte of a string. *)
Lemma first_byte_run w p c s : string_at (tmem (p_task w)) p (c :: s) → on_task (on_mem (ldb p)) w = Ret (inr c, w).
Proof.
  intros [_ [Hc _]%bytes_at_cons _]. apply on_task_same, on_mem_same. unfold ldb. by rewrite Hc.
Qed.

(** The loop of [open] passes the descriptors in use. *)
Lemma open_from_skip file k n : ∀ index w, index + Z.of_nat k ≤ FDS → 0 ≤ index →
  (∀ j, index ≤ j < index + Z.of_nat k → ∃ q, p_fds w !! Z.to_nat j = Some q ∧ q ≠ NULL) →
  open_from (k + n) index file w = open_from n (index + Z.of_nat k) file w.
Proof.
  induction k as [|k IH]; intros index w Hk Hi Hq; [by rewrite Z.add_0_r|]. cbn [open_from Nat.add].
  destruct (Hq index ltac:(lia)) as (q & Hq0 & Hn). rewrite (sc_bind_run _ _ _ _ _ (ld_fd_table w index q ltac:(lia) Hq0)).
  rewrite nonnull_true by done. cbn [negb]. rewrite IH by (try lia; intros j Hj; apply Hq; lia). f_equal. lia.
Qed.

(** Opening at the first free descriptor: [r] is what [filesys_open] answers. *)
Lemma open_from_run file n index w nm r t' : 0 ≤ index < FDS → p_fds w !! Z.to_nat index = Some NULL → io_lock w = false →
  string_at (tmem (p_task w)) file nm → filesys_open nm true (default NULL (head (p_mallocs w))) (p_files w) = Ret (r, t') →
  open_from (Datatypes.S n) index file w =
    Ret (inr (if nonnull r then index else -1), set_p_fds <[Z.to_nat index := r]> (set_p_files t' (pop_malloc w))).
Proof.
  intros Hi Hp Hl Hs Hopen. cbn [open_from]. rewrite (sc_bind_run _ _ _ _ _ (ld_fd_table w index NULL ltac:(lia) Hp)).
  cbn [nonnull negb]. change (negb (nonnull NULL)) with true. cbv iota.
  rewrite (sc_bind_run _ _ _ _ _ (acquire_run w Hl)). rewrite (sc_bind_run _ _ _ _ _ (ld_string_run (set_io_lock true w) file nm Hs)).
  erewrite (sc_bind_run next_malloc); [|reflexivity]. cbn [p_mallocs set_io_lock].
  erewrite sc_bind_run; [|apply on_files_run; exact Hopen].
  unfold st_fd. rewrite (proj2 (Z.eqb_neq index FDS)) by lia. erewrite sc_bind_run; [|reflexivity].
  erewrite sc_bind_run; [|by apply release_run]. unfold mret, SC_ret. do 3 f_equal.
  destruct w; simpl in *; by subst.
Qed.

(** The first free descriptor, if there is one. *)
Lemma first_free (l : list addr) n : (2 + n ≤ length l)%nat →
  (∀ j, (2 ≤ j < 2 + n)%nat → ∃ q, l !! j = Some q ∧ q ≠ NULL) ∨
  ∃ k, (k < n)%nat ∧ l !! (2 + k)%nat = Some NULL ∧ ∀ j, (2 ≤ j < 2 + k)%nat → ∃ q, l !! j = Some q ∧ q ≠ NULL.
Proof.
  induction n as [|n IH]; intros Hl; [left; lia|]. destruct IH as [IH|(k & Hk & Hn & IH)]; [lia| |right; exists k; by split_and!; [lia|..]].
  destruct (lookup_lt_is_Some_2 l (2 + n)) as [q Hq]; [lia|]. destruct (decide (q = NULL)) as [->|Hqn].
  - right. exists n. by split_and!; [lia|..].
  - left. intros j Hj. destruct (decide (j = 2 + n)%nat) as [->|]; [by exists q|]. apply IH. lia.
Qed.

Lemma open_checked w tables file c s : pd_ok (tmach (p_task w)) (p_pd w) tables → 0 < file < PHYS_BASE →
  is_Some (tables !! pd_no file) → string_at (tmem (p_task w)) file (c :: s) →
  open file w = open_from (Z.to_nat (FDS - 2)) 2 file w.
Proof.
  intros Hpd Hf Ht Hs. unfold open. rewrite nonnull_true by (unfold NULL; lia). cbn [negb].
  rewrite (sc_bind_run _ _ _ _ _ (bad_pointer_run w tables file Hpd Hf)). rewrite bool_decide_true by done. cbn [negb].
  rewrite (sc_bind_run _ _ _ _ _ (first_byte_run w file c s Hs)).
  destruct Hs as [_ _ [[_ Hc] _]%Forall_cons]. by rewrite (proj2 (Z.eqb_neq c 0) Hc).
Qed.

(** [close] of a descriptor with an open file. *)
Lemma close_run w fd p f : proc_ok false w → 2 ≤ fd < FDS → p_fds w !! Z.to_nat fd = Some p → files (p_files w) !! p = Some f →
  ∃ t', close fd w = Ret (inr (), set_p_fds <[Z.to_nat fd := NULL]> (set_p_files t' w)) ∧
    files t' = delete p (files (p_files w)) ∧ ∀ j, spare t' j = spare (p_files w) j.
Proof.
  intros [Hok Hl] Hfd Hp Hf. destruct (file_close_ok (p_files w) p (po_files _ Hok)) as (t' & Hrun & _ & Hd & Hs); [right; by exists f|].
  exists t'. split; [|done]. unfold close. rewrite bad_fd_ok by lia. rewrite (sc_bind_run _ _ _ _ _ (acquire_run w Hl)).
  rewrite (sc_bind_run _ _ _ _ _ (ld_fd_table (set_io_lock true w) fd p ltac:(lia) Hp)).
  erewrite sc_bind_run; [|apply on_files_run; exact Hrun]. unfold st_fd. rewrite (proj2 (Z.eqb_neq fd FDS)) by lia.
  erewrite sc_bind_run; [|reflexivity]. rewrite release_run by done. by destruct w; simpl in *; subst.
Qed.
End runs.

(** ** The properties *)

(** What happens to a process: it runs code of its own, which may change its memory and its pages,
    it makes calls, with any stack pointer, and other processes run. *)
Inductive run_from {S} (other : relation (proc S)) (call : Z → SC S (option Z)) (w : proc S) : proc S → Prop :=
| run_start : run_from other call w w
| run_user w1 t : run_from other call w w1 → run_from other call w (set_p_task t w1)
| run_others w1 w2 : run_from other call w w1 → other w1 w2 → run_from other call w w2
| run_call w1 esp r w2 : run_from other call w w1 → call esp w1 = Ret (inr r, w2) → run_from other call w w2.


(** C26: [open] with a good pointer to a name always returns: it answers -1 and changes no descriptor,
    or it answers the lowest free descriptor, which then refers to a new file at position zero;
    closing that descriptor restores the table and the open files, and gives back the opener of
    the inode. *)
Theorem open_correct {S} `{InodeLayer S} (w : proc S) tables file c s :
  proc_ok false w → pd_ok (tmach (p_task w)) (p_pd w) tables → 0 < file < PHYS_BASE →
  is_Some (tables !! pd_no file) → string_at (tmem (p_task w)) file (c :: s) →
  ∃ fd w1, open file w = Ret (inr fd, w1) ∧ proc_ok false w1 ∧
    ((fd = -1 ∧ p_fds w1 = p_fds w ∧ files (p_files w1) = files (p_files w)) ∨
     (2 ≤ fd < FDS ∧ p_fds w !! Z.to_nat fd = Some NULL ∧ (∀ j, (2 ≤ j < Z.to_nat fd)%nat → p_fds w !! j ≠ Some NULL) ∧
      ∃ p i w2, p_fds w1 = <[Z.to_nat fd := p]> (p_fds w) ∧ files (p_files w1) = <[p := File i 0 false]> (files (p_files w)) ∧
        close fd w1 = Ret (inr (), w2) ∧ p_fds w2 = p_fds w ∧ files (p_files w2) = files (p_files w) ∧
        ∀ j, spare (p_files w2) j = spare (p_files w) j)).
Proof.
  intros Hok Hpd Hf Ht Hs. destruct Hok as [Htab Hl]. pose proof (po_len _ Htab) as Hlen.
  pose proof (λ fd w1 E, keeps_open file w (conj Htab Hl) (inr fd) w1 E) as Hkeep. cbv beta iota in Hkeep.
  rewrite (open_checked w tables file c s Hpd Hf Ht Hs) in *. change (Z.to_nat (FDS - 2)) with 126%nat in *.
  destruct (first_free (p_fds w) 126 ltac:(rewrite Hlen; lia)) as [Hfull|(k & Hk & Hnull & Hlow)].
  { exists (-1), w. split; [|by split; [|left]].
    change 126%nat with (126 + 0)%nat. rewrite open_from_skip; [done|done|lia|]. intros j Hj. apply Hfull. lia. }
  pose proof (next_malloc_new w Htab) as Hnew.
  destruct (filesys_open_spec (p_files w) (c :: s) _ (po_files _ Htab) Hnew) as (r & t' & Hopen & _ & Hcase).
  pose proof (filesys_open_spare _ _ _ _ _ (po_files _ Htab) Hnew Hopen) as Hspare.
  assert (open_from 126 2 file w = Ret (inr (if nonnull r then 2 + Z.of_nat k else -1),
    set_p_fds <[(2 + k)%nat := r]> (set_p_files t' (pop_malloc w)))) as Hrun.
  { replace 126%nat with (k + Datatypes.S (125 - k))%nat by lia.
    rewrite open_from_skip by (unfold FDS; try lia; intros j Hj; apply Hlow; lia).
    replace (2 + k)%nat with (Z.to_nat (2 + Z.of_nat k)) in * by lia. apply (open_from_run _ _ _ _ (c :: s)); try done. unfold FDS. lia. }
  pose proof (Hkeep _ _ Hrun) as Hok1. do 2 eexists. split; [exact Hrun|]. split; [exact Hok1|].
  destruct Hcase as [(-> & Hfs & _)|(Hr & Hp & i & Hfs & _)].
  - left. split; [done|]. split; [|done]. by apply list_insert_id.
  - right. rewrite <-Hr in *. rewrite nonnull_true in * by done. unfold FDS. split; [lia|].
    replace (Z.to_nat (2 + Z.of_nat k)) with (2 + k)%nat by lia. split; [done|]. split.
    { intros j Hj Hj0. destruct (Hlow j Hj) as (q & Hq & Hqn). congruence. }
    destruct (close_run _ (2 + Z.of_nat k) r (File i 0 false) Hok1) as (t2 & Hclose & Hdel & Hsp2).
    { unfold FDS. lia. }
    { cbn [p_fds set_p_fds set_p_files pop_malloc]. replace (Z.to_nat (2 + Z.of_nat k)) with (2 + k)%nat by lia. apply list_lookup_insert_eq. rewrite Hlen. lia. }
    { cbn [p_files set_p_fds set_p_files pop_malloc]. by rewrite Hfs, lookup_insert_eq. }
    exists r, i. eexists. split; [done|]. split; [done|]. split; [exact Hclose|]. split_and!.
    + cbn [p_fds set_p_fds set_p_files pop_malloc]. replace (Z.to_nat (2 + Z.of_nat k)) with (2 + k)%nat by lia. rewrite list_insert_insert_eq. by apply list_insert_id.
    + cbn [p_files set_p_fds set_p_files pop_malloc]. rewrite Hdel. cbn [p_files set_p_fds set_p_files pop_malloc]. by rewrite Hfs, delete_insert_id.
    + intros j. cbn [p_files set_p_fds set_p_files pop_malloc]. rewrite Hsp2. cbn [p_files set_p_fds set_p_files pop_malloc]. apply Hspare.
Qed.

(** C39: A process can crash the kernel with arguments that the checks let through.  On a descriptor
    from 2 to 127 that refers to no file, [filesize], [seek] and [tell] fail an assertion, and [read] and
    [write] use a null pointer; and on any descriptor from 2 to 127, [seek] to a position of [2^31] or more
    fails an assertion. *)
Theorem closed_descriptor_crashes {S} `{InodeLayer S} (w : proc S) fd :
  io_lock w = false → files (p_files w) !! NULL = None → 2 ≤ fd < FDS →
  (p_fds w !! Z.to_nat fd = Some NULL →
   filesize fd w = Panic ∧ tell fd w = Panic ∧ (∀ position, seek fd position w = Panic) ∧
   ∀ buffer size, bad_pointer buffer w = Ret (inr false, w) → read fd buffer size w = Fault ∧ write fd buffer size w = Fault) ∧
  (∀ p position, p_fds w !! Z.to_nat fd = Some p → 2 ^ 31 ≤ position < 2 ^ 32 → seek fd position w = Panic).
Proof.
  intros Hl Hnull Hfd. split.
  - intros Hp. pose proof (ld_fd_table (set_io_lock true w) fd NULL ltac:(lia) Hp) as Hld.
    assert (∀ bs, file_write NULL bs (p_files w) = Fault) as Hw by (intros bs; unfold file_write, mbind, ST_bind, ld_file; by rewrite Hnull).
    assert (∀ n, file_read NULL n (p_files w) = Fault) as Hr by (intros n; unfold file_read, mbind, ST_bind, ld_file; by rewrite Hnull).
    split; [|split; [|split]].
    + unfold filesize. rewrite bad_fd_ok by lia. by rewrite (sc_bind_run _ _ _ _ _ (ld_fd_table w fd NULL ltac:(lia) Hp)).
    + unfold tell. rewrite bad_fd_ok by lia. rewrite (sc_bind_run _ _ _ _ _ (acquire_run w Hl)). by rewrite (sc_bind_run _ _ _ _ _ Hld).
    + intros position. unfold seek. rewrite bad_fd_ok by lia. rewrite (sc_bind_run _ _ _ _ _ (acquire_run w Hl)).
      by rewrite (sc_bind_run _ _ _ _ _ Hld).
    + intros buffer size Hb. split.
      * unfold read. assert ((fd =? 0) || (fd <? 0) || (fd =? 1) || (FDS <? u32 fd) = false) as ->.
        { pose proof (bad_fd_ok 2 fd ltac:(lia) ltac:(lia)) as E. unfold bad_fd in E.
          apply orb_false_iff in E as [_ ->]. destruct (Z.eqb_spec fd 0), (Z.ltb_spec fd 0), (Z.eqb_spec fd 1); try lia; done. }
        rewrite (sc_bind_run _ _ _ _ _ Hb). cbv iota. rewrite (sc_bind_run _ _ _ _ _ (acquire_run w Hl)).
        rewrite (sc_bind_run _ _ _ _ _ Hld). apply sc_bind_fault. unfold on_files. cbn [set_io_lock p_files]. by rewrite Hr.
      * unfold write. rewrite bad_fd_ok by lia. rewrite (sc_bind_run _ _ _ _ _ Hb). cbv iota.
        rewrite (proj2 (Z.eqb_neq fd 1)) by lia. rewrite (sc_bind_run _ _ _ _ _ (acquire_run w Hl)).
        rewrite (sc_bind_run _ _ _ _ _ Hld). apply sc_bind_fault. unfold write_file. erewrite sc_bind_run; [|reflexivity].
        cbv zeta. apply sc_bind_fault. unfold on_files. cbn [set_io_lock p_files]. by rewrite Hw.
  - intros p position Hp Hpos. unfold seek. rewrite bad_fd_ok by lia. rewrite (sc_bind_run _ _ _ _ _ (acquire_run w Hl)).
    rewrite (sc_bind_run _ _ _ _ _ (ld_fd_table (set_io_lock true w) fd p ltac:(lia) Hp)). apply sc_bind_panic.
    assert (0 <=? s32 position = false) as E.
    { apply Z.leb_gt. unfold swrap, wrap. rewrite Z.mod_small by lia. change (32 - 1) with 31.
      destruct (Z.ltb_spec position (2 ^ 31)); lia. }
    unfold on_files, file_seek. destruct (nonnull p) eqn:En; unfold mbind, ST_bind, ASSERT; rewrite ?E; reflexivity.
Qed.

(** *** A process with two open files *)

Definition no_execute (cmd : addr) : SC ram_fs Z := mret (-1).
Definition no_wait (pid : Z) : SC ram_fs Z := mret (-1).

(** Its memory has a name at [0x08048000] and, above it, the arguments of [close (2)]. *)
Definition sample : proc ram_fs :=
  Proc two_files ([0; 0; 100; 200] ++ replicate 124 NULL) 0xc0009000
    (Task stack_machine (CString.write 0x08048000 (of_string "a" ++ [0]) (CString.write 0x08048100 [12; 0; 0; 0; 2; 0; 0; 0] ∅)))
    0xc0102000 (of_string "p") 0 false [] [300; 400].

Lemma sample_fds i p : p_fds sample !! i = Some p → (2 ≤ i)%nat → p ≠ NULL → (i = 2%nat ∧ p = 100) ∨ (i = 3%nat ∧ p = 200).
Proof.
  unfold sample. cbn [p_fds]. intros E. apply lookup_app_Some in E as [E|[Hi [-> _]%lookup_replicate]]; [|done].
  destruct i as [|[|[|[|i]]]]; [lia|lia|..|done]; injection E as <-; auto.
Qed.

Lemma sample_ok : proc_ok false sample.
Proof.
  split; [|done]. constructor.
  - exact two_files_ok.
  - done.
  - intros i p Hi Hp Hn. destruct (sample_fds i p Hp Hi Hn) as [[_ ->]|[_ ->]]; by eexists.
  - intros i j p Hi Hj Hp Hq Hn. destruct (sample_fds i p Hp Hi Hn), (sample_fds j p Hq Hj Hn); lia.
  - done.
  - intros i j p Hi Hj _. apply (NoDup_lookup [300; 400] i j p); [by_evaluation|done|done].
  - intros p Hp Hn. simpl in Hp. by set_unfold in Hp; destruct Hp as [->|[->|[]]].
Qed.

Lemma no_processes_ok : processes_frame no_execute no_wait one_free one_release one_create.
Proof. split; intros ? w; by apply xlp_ret. Qed.


Lemma open_correct_witness : ∃ fd w1, open 0x08048000 sample = Ret (inr fd, w1) ∧ proc_ok false w1.
Proof.
  destruct (open_correct sample {[32 := 0xc0103000]} 0x08048000 97 []) as (fd & w1 & Hrun & Hok & _);
    [exact sample_ok|exact stack_machine_ok|done|by eexists|by_evaluation|].
  exists fd, w1. split; [exact Hrun|exact Hok].
Defined.

Lemma closed_descriptor_crashes_witness : filesize 4 sample = Panic ∧ write 4 0x08048000 1 sample = Fault ∧ seek 2 0x80000000 sample = Panic.
Proof.
  destruct (closed_descriptor_crashes sample 4) as [(H1 & _ & _ & H2) _]; [done|done|done|done|].
  destruct (closed_descriptor_crashes sample 2) as [_ H3]; [done|done|done|].
  split; [exact H1|]. split; [apply H2; vm_compute; reflexivity|]. by apply (H3 100).
Defined.
