(* ===== verification/Descriptors.v ===== *)
(** * Segment descriptors, interrupt gates and the table of handlers:
    src/src/userprog/gdt.c and the tables of src/src/threads/interrupt.c

    A descriptor is a 64-bit word.  The interrupt table is state: the gates, the handler and the
    name of each vector, how often each has come unexpectedly, and what has been sent to the
    interrupt controllers.  A handler is an address; [stubs] has the addresses of the entry
    points that intr-stubs.S defines.  A message is the vector it names. *)
From S2P Require Import Prelude KList.

(** ** Segments *)

Definition SEL_NULL : Z := 0x00.
Definition SEL_KCSEG : Z := 0x08.
Definition SEL_KDSEG : Z := 0x10.
Definition SEL_UCSEG : Z := 0x1b.
Definition SEL_UDSEG : Z := 0x23.
Definition SEL_TSS : Z := 0x28.
Definition SEL_CNT : nat := 6.

Inductive seg_class := CLS_SYSTEM | CLS_CODE_DATA.
Inductive seg_granularity := GRAN_BYTE | GRAN_PAGE.
Definition class_value (c : seg_class) : Z := match c with CLS_SYSTEM => 0 | CLS_CODE_DATA => 1 end.
Definition gran_value (g : seg_granularity) : Z := match g with GRAN_BYTE => 0 | GRAN_PAGE => 1 end.

Definition make_seg_desc (base limit : Z) (class : seg_class) (type dpl : Z) (granularity : seg_granularity) : res Z :=
  if negb (limit <=? 0xfffff) then Panic else
  if negb ((0 <=? type) && (type <=? 15)) then Panic else
  if negb ((0 <=? dpl) && (dpl <=? 3)) then Panic else
  let e0 := Z.lor (Z.land limit 0xffff) (u32 (Z.shiftl base 16)) in
  let e1 := Z.lor (Z.lor (Z.lor (Z.lor (Z.lor (Z.lor (Z.lor (Z.lor
              (Z.land (Z.shiftr base 16) 0xff)
              (Z.shiftl type 8))
              (Z.shiftl (class_value class) 12))
              (Z.shiftl dpl 13))
              (Z.shiftl 1 15))
              (Z.land limit 0xf0000))
              (Z.shiftl 1 22))
              (Z.shiftl (gran_value granularity) 23))
              (Z.land base 0xff000000) in
  Ret (Z.lor e0 (Z.shiftl e1 32)).

Definition make_code_desc (dpl : Z) : res Z := make_seg_desc 0 0xfffff CLS_CODE_DATA 10 dpl GRAN_PAGE.
Definition make_data_desc (dpl : Z) : res Z := make_seg_desc 0 0xfffff CLS_CODE_DATA 2 dpl GRAN_PAGE.
Definition make_tss_desc (laddr : addr) : res Z := make_seg_desc laddr 0x67 CLS_SYSTEM 9 0 GRAN_BYTE.
Definition make_gdtr_operand (limit base : Z) : Z := Z.lor limit (Z.shiftl base 16).

(** The table, and the operand of [lgdt]; [tss] and [gdt] are the addresses of the segment and of
    the table. *)
Definition gdt_init (tss gdt : addr) : res (list Z * Z) :=
  if negb (nonnull tss) then Panic else
  kc ← make_code_desc 0;
  kd ← make_data_desc 0;
  uc ← make_code_desc 3;
  ud ← make_data_desc 3;
  ts ← make_tss_desc tss;
  let at_selector s := Z.to_nat (s / 8) in
  let t := <[at_selector SEL_TSS := ts]> (<[at_selector SEL_UDSEG := ud]> (<[at_selector SEL_UCSEG := uc]>
           (<[at_selector SEL_KDSEG := kd]> (<[at_selector SEL_KCSEG := kc]> (<[at_selector SEL_NULL := 0]>
           (replicate SEL_CNT 0)))))) in
  mret (t, make_gdtr_operand (8 * Z.of_nat SEL_CNT - 1) gdt).

(** ** Gates *)

Definition make_gate (function dpl type : Z) : res Z :=
  if negb (nonnull function) then Panic else
  if negb ((0 <=? dpl) && (dpl <=? 3)) then Panic else
  if negb ((0 <=? type) && (type <=? 15)) then Panic else
  let e0 := Z.lor (Z.land function 0xffff) (Z.shiftl SEL_KCSEG 16) in
  let e1 := Z.lor (Z.lor (Z.lor (Z.lor
              (Z.land function 0xffff0000)
              (Z.shiftl 1 15))
              (Z.shiftl dpl 13))
              (Z.shiftl 0 12))
              (Z.shiftl type 8) in
  Ret (Z.lor e0 (Z.shiftl e1 32)).
Definition make_intr_gate (function dpl : Z) : res Z := make_gate function dpl 14.
Definition make_trap_gate (function dpl : Z) : res Z := make_gate function dpl 15.
Definition make_idtr_operand (limit base : Z) : Z := Z.lor limit (Z.shiftl base 16).

(** ** Handlers *)

Definition INTR_CNT : nat := 256.

Record itable := ITable {
  idt : list Z;
  intr_handlers : list addr;
  intr_names : list string;
  unexpected_cnt : list Z;
  pic_out : list (Z * Z);
  reported : list Z;
}.
Definition set_vector (vec : nat) (gate handler : Z) (name : string) (t : itable) : itable :=
  ITable (<[vec := gate]> (idt t)) (<[vec := handler]> (intr_handlers t)) (<[vec := name]> (intr_names t))
    (unexpected_cnt t) (pic_out t) (reported t).
Definition outb (port data : Z) (t : itable) : itable :=
  ITable (idt t) (intr_handlers t) (intr_names t) (unexpected_cnt t) (pic_out t ++ [(port, data)]) (reported t).

Section handlers.
Context (stubs : nat → addr).
Abbreviation H := (ST itable).

Definition PIC0_CTRL : Z := 0x20.
Definition PIC0_DATA : Z := 0x21.
Definition PIC1_CTRL : Z := 0xa0.
Definition PIC1_DATA : Z := 0xa1.

Definition pic_init : H () :=
  modify (λ t, foldl (λ t x, outb x.1 x.2 t) t
    [(PIC0_DATA, 0xff); (PIC1_DATA, 0xff);
     (PIC0_CTRL, 0x11); (PIC0_DATA, 0x20); (PIC0_DATA, 0x04); (PIC0_DATA, 0x01);
     (PIC1_CTRL, 0x11); (PIC1_DATA, 0x28); (PIC1_DATA, 0x02); (PIC1_DATA, 0x01);
     (PIC0_DATA, 0x00); (PIC1_DATA, 0x00)]).

Definition pic_end_of_interrupt (irq : Z) : H () :=
  assert ((0x20 <=? irq) && (irq <? 0x30));;
  modify (outb 0x20 0x20);;
  if 0x28 <=? irq then modify (outb 0xa0 0x20) else mret ().

Definition exception_names : list (nat * string) :=
  [(0%nat, "#DE Divide Error"); (1%nat, "#DB Debug Exception"); (2%nat, "NMI Interrupt"); (3%nat, "#BP Breakpoint Exception");
   (4%nat, "#OF Overflow Exception"); (5%nat, "#BR BOUND Range Exceeded Exception"); (6%nat, "#UD Invalid Opcode Exception");
   (7%nat, "#NM Device Not Available Exception"); (8%nat, "#DF Double Fault Exception"); (9%nat, "Coprocessor Segment Overrun");
   (10%nat, "#TS Invalid TSS Exception"); (11%nat, "#NP Segment Not Present"); (12%nat, "#SS Stack Fault Exception");
   (13%nat, "#GP General Protection Exception"); (14%nat, "#PF Page-Fault Exception"); (16%nat, "#MF x87 FPU Floating-Point Error");
   (17%nat, "#AC Alignment Check Exception"); (18%nat, "#MC Machine-Check Exception"); (19%nat, "#XF SIMD Floating-Point Exception")].

Fixpoint init_gates (n : nat) (i : nat) : H () :=
  match n with
  | O => mret ()
  | S n =>
      g ← lift (make_intr_gate (stubs i) 0);
      modify (λ t, ITable (<[i := g]> (idt t)) (intr_handlers t) (intr_names t) (unexpected_cnt t) (pic_out t) (reported t));;
      init_gates n (S i)
  end.

(** The operand of [lidt] is returned; [table] is the address of the table. *)
Definition intr_init (table : addr) : H Z :=
  pic_init;;
  init_gates INTR_CNT 0;;
  modify (λ t, ITable (idt t) (intr_handlers t)
    (foldl (λ l x, <[x.1 := x.2]> l) (replicate INTR_CNT "unknown"%string) exception_names)
    (unexpected_cnt t) (pic_out t) (reported t));;
  mret (make_idtr_operand (8 * Z.of_nat INTR_CNT - 1) table).

(** [level] says whether the handler runs with interrupts on. *)
Definition register_handler (vec_no : nat) (dpl : Z) (level : bool) (handler : addr) (name : string) : H () :=
  old ← gets (λ t, default NULL (intr_handlers t !! vec_no));
  assert (negb (nonnull old));;
  g ← lift (if level then make_trap_gate (stubs vec_no) dpl else make_intr_gate (stubs vec_no) dpl);
  modify (set_vector vec_no g handler name).

Definition intr_register_ext (vec_no : nat) (handler : addr) (name : string) : H () :=
  assert ((0x20 <=? Z.of_nat vec_no) && (Z.of_nat vec_no <=? 0x2f));;
  register_handler vec_no 0 false handler name.

Definition intr_register_int (vec_no : nat) (dpl : Z) (level : bool) (handler : addr) (name : string) : H () :=
  assert ((Z.of_nat vec_no <? 0x20) || (0x2f <? Z.of_nat vec_no));;
  register_handler vec_no dpl level handler name.

Definition unexpected_interrupt (vec_no : nat) : H () :=
  modify (λ t, ITable (idt t) (intr_handlers t) (intr_names t)
    (<[vec_no := u32 (default 0 (unexpected_cnt t !! vec_no) + 1)]> (unexpected_cnt t)) (pic_out t) (reported t));;
  n ← gets (λ t, default 0 (unexpected_cnt t !! vec_no));
  if Z.land n (u32 (n - 1)) =? 0 then
    modify (λ t, ITable (idt t) (intr_handlers t) (intr_names t) (unexpected_cnt t) (pic_out t) (reported t ++ [Z.of_nat vec_no]))
  else mret ().

Definition intr_name (vec : nat) : H string := gets (λ t, default "" (intr_names t !! vec)).

(** [exception_init] and [syscall_init]: [kill], [page_fault] and [syscall_handler] are the
    addresses of the handlers. *)
Definition exception_init (kill page_fault : addr) : H () :=
  intr_register_int 3 3 true kill "#BP Breakpoint Exception";;
  intr_register_int 4 3 true kill "#OF Overflow Exception";;
  intr_register_int 5 3 true kill "#BR BOUND Range Exceeded Exception";;
  intr_register_int 0 0 true kill "#DE Divide Error";;
  intr_register_int 1 0 true kill "#DB Debug Exception";;
  intr_register_int 6 0 true kill "#UD Invalid Opcode Exception";;
  intr_register_int 7 0 true kill "#NM Device Not Available Exception";;
  intr_register_int 11 0 true kill "#NP Segment Not Present";;
  intr_register_int 12 0 true kill "#SS Stack Fault Exception";;
  intr_register_int 13 0 true kill "#GP General Protection Exception";;
  intr_register_int 16 0 true kill "#MF x87 FPU Floating-Point Error";;
  intr_register_int 19 0 true kill "#XF SIMD Floating-Point Exception";;
  intr_register_int 14 0 false page_fault "#PF Page-Fault Exception".

Definition syscall_init (syscall_handler : addr) : H () :=
  intr_register_int 0x30 3 true syscall_handler "syscall".
End handlers.

(** The table before [intr_init]. *)
Definition blank_table : itable :=
  ITable (replicate INTR_CNT 0) (replicate INTR_CNT NULL) (replicate INTR_CNT "") (replicate INTR_CNT 0) [] [].
