(* ===== verification/DescriptorsProofs.v ===== *)
(** * Descriptors: what the processor reads from them, and which vectors a program can invoke *)
From S2P Require Import Prelude KList Descriptors.

(** ** Fields of a word *)

(** [len] bits from bit [lo] on. *)
Definition field (d lo len : Z) : Z := d / 2 ^ lo mod 2 ^ len.

Lemma lor_add k a b : 0 ≤ k → a mod 2 ^ k = 0 → 0 ≤ b < 2 ^ k → Z.lor a b = a + b.
Proof.
  intros Hk Ha Hb. symmetry. apply Z.add_nocarry_lor. apply Z.bits_inj'. intros i Hi. rewrite Z.land_spec, Z.bits_0.
  destruct (decide (i < k)).
  - rewrite <-(Z.mod_pow2_bits_low a k i) by lia. by rewrite Ha, Z.bits_0.
  - apply andb_false_intro2. rewrite <-(Z.mod_small b (2 ^ k)) by lia. apply Z.mod_pow2_bits_high. lia.
Qed.
(** A multiple of [2 ^ k] over bits below it. *)
Lemma lor_add_up k a b q : 0 ≤ k → 0 ≤ a < 2 ^ k → b = q * 2 ^ k → Z.lor a b = a + b.
Proof. intros Hk Ha ->. rewrite Z.lor_comm, (lor_add k) by (done || apply Z.mod_mul; lia). lia. Qed.

(** Masks of the code as arithmetic. *)
Lemma land_low x : Z.land x 0xffff = x mod 65536.
Proof. change 0xffff with (Z.ones 16). by rewrite Z.land_ones by lia. Qed.
Lemma land_byte x : Z.land x 0xff = x mod 256.
Proof. change 0xff with (Z.ones 8). by rewrite Z.land_ones by lia. Qed.
Lemma land_window x lo len : 0 ≤ lo → 0 ≤ len → Z.land x (Z.shiftl (Z.ones len) lo) = x / 2 ^ lo mod 2 ^ len * 2 ^ lo.
Proof.
  intros Hlo Hlen. rewrite <-Z.land_ones, <-Z.shiftr_div_pow2, <-Z.shiftl_mul_pow2 by lia. apply Z.bits_inj'. intros i Hi.
  rewrite Z.land_spec, !Z.shiftl_spec by lia. destruct (decide (i < lo)).
  - rewrite !(Z.testbit_neg_r _ (i - lo)) by lia. by rewrite andb_false_r.
  - rewrite Z.land_spec, Z.shiftr_spec by lia. by replace (i - lo + lo) with i by lia.
Qed.

(** ** Segment descriptors *)

Definition desc_base (d : Z) : Z := field d 16 24 + 2 ^ 24 * field d 56 8.
Definition desc_limit (d : Z) : Z := field d 0 16 + 2 ^ 16 * field d 48 4.
Definition desc_type (d : Z) : Z := field d 40 4.
Definition desc_class (d : Z) : Z := field d 44 1.
Definition desc_dpl (d : Z) : Z := field d 45 2.
Definition desc_present (d : Z) : Z := field d 47 1.
Definition desc_32bit (d : Z) : Z := field d 54 1.
Definition desc_granularity (d : Z) : Z := field d 55 1.

Lemma class_range c : 0 ≤ class_value c ≤ 1.
Proof. destruct c; simpl; lia. Qed.
Lemma gran_range g : 0 ≤ gran_value g ≤ 1.
Proof. destruct g; simpl; lia. Qed.

(** The descriptor as a sum of its fields. *)
Lemma seg_desc_sum base limit class type dpl g : fits 32 base → 0 ≤ limit ≤ 0xfffff → 0 ≤ type ≤ 15 → 0 ≤ dpl ≤ 3 →
  make_seg_desc base limit class type dpl g = Ret (
    limit mod 65536 + base mod 65536 * 2 ^ 16 + base / 65536 mod 256 * 2 ^ 32 + type * 2 ^ 40 + class_value class * 2 ^ 44 +
    dpl * 2 ^ 45 + 2 ^ 47 + limit / 65536 * 2 ^ 48 + 2 ^ 54 + gran_value g * 2 ^ 55 + base / 2 ^ 24 * 2 ^ 56).
Proof.
  intros Hb Hl Ht Hd. pose proof (class_range class). pose proof (gran_range g). unfold fits in Hb.
  unfold make_seg_desc. rewrite (proj2 (Z.leb_le limit _)), !(proj2 (Z.leb_le 0 _)), (proj2 (Z.leb_le type _)), (proj2 (Z.leb_le dpl _)) by lia.
  cbn [negb andb]. rewrite land_low, land_byte.
  change 0xf0000 with (Z.shiftl (Z.ones 4) 16). change 0xff000000 with (Z.shiftl (Z.ones 8) 24). rewrite !land_window by lia.
  rewrite !Z.shiftl_mul_pow2, Z.shiftr_div_pow2 by lia. unfold wrap.
  replace (base * 2 ^ 16 mod 2 ^ 32) with (base mod 65536 * 2 ^ 16)
    by (change (2 ^ 32) with (65536 * 2 ^ 16); by rewrite Z.mul_mod_distr_r by lia).
  change (2 ^ 8) with 256. change (2 ^ 16) with 65536. change (2 ^ 12) with 4096. change (2 ^ 13) with 8192. change (2 ^ 15) with 32768.
  change (2 ^ 22) with 4194304. change (2 ^ 23) with 8388608. change (2 ^ 24) with 16777216. change (2 ^ 4) with 16.
  pose proof (Z.mod_pos_bound limit 65536 ltac:(lia)). pose proof (Z.mod_pos_bound base 65536 ltac:(lia)).
  pose proof (Z.mod_pos_bound (base / 65536) 256 ltac:(lia)).
  assert (limit / 65536 mod 16 = limit / 65536) as -> by (apply Z.mod_small; split; [apply Z.div_pos; lia|apply Z.div_lt_upper_bound; lia]).
  assert (base / 16777216 mod 256 = base / 16777216) as -> by (apply Z.mod_small; split; [apply Z.div_pos; lia|apply Z.div_lt_upper_bound; lia]).
  assert (0 ≤ limit / 65536 ≤ 15) by (split; [apply Z.div_pos; lia|apply Z.lt_succ_r, Z.div_lt_upper_bound; lia]).
  assert (0 ≤ base / 16777216 ≤ 255) by (split; [apply Z.div_pos; lia|apply Z.lt_succ_r, Z.div_lt_upper_bound; lia]).
  set (b0 := base mod 65536) in *. set (b1 := base / 65536 mod 256) in *. set (b2 := base / 16777216) in *.
  set (l0 := limit mod 65536) in *. set (l1 := limit / 65536) in *.
  rewrite (lor_add_up 16 l0 _ b0), (lor_add_up 8 b1 _ type) by lia.
  rewrite (lor_add_up 12 _ (class_value class * 4096) (class_value class)) by lia. rewrite (lor_add_up 13 _ (dpl * 8192) dpl) by lia.
  rewrite (lor_add_up 15 _ (1 * 32768) 1) by lia. rewrite (lor_add_up 16 _ (l1 * 65536) l1) by lia.
  rewrite (lor_add_up 22 _ (1 * 4194304) 1) by lia. rewrite (lor_add_up 23 _ (gran_value g * 8388608) (gran_value g)) by lia.
  rewrite (lor_add_up 24 _ (b2 * 16777216) b2) by lia. erewrite (lor_add_up 32 (l0 + _)) by (lia || reflexivity). f_equal. lia.
Qed.

Lemma field_of d lo len a b c : 0 ≤ lo → 0 ≤ len → 0 ≤ a < 2 ^ lo → 0 ≤ b < 2 ^ len → d = a + b * 2 ^ lo + c * 2 ^ (lo + len) →
  field d lo len = b.
Proof.
  intros Hlo Hlen Ha Hb ->. unfold field. rewrite Z.pow_add_r by lia.
  replace (a + b * 2 ^ lo + c * (2 ^ lo * 2 ^ len)) with (a + (b + c * 2 ^ len) * 2 ^ lo) by lia.
  rewrite Z.div_add, (Z.div_small a), Z.add_0_l, Z.mod_add by lia. by apply Z.mod_small.
Qed.

(** The processor reads from a descriptor what [make_seg_desc] was given. *)
Lemma seg_desc_fields base limit class type dpl g : fits 32 base → 0 ≤ limit ≤ 0xfffff → 0 ≤ type ≤ 15 → 0 ≤ dpl ≤ 3 →
  ∃ d, make_seg_desc base limit class type dpl g = Ret d ∧ fits 64 d ∧
    desc_base d = base ∧ desc_limit d = limit ∧ desc_class d = class_value class ∧ desc_type d = type ∧ desc_dpl d = dpl ∧
    desc_granularity d = gran_value g ∧ desc_present d = 1 ∧ desc_32bit d = 1.
Proof.
  intros Hb Hl Ht Hd. pose proof (class_range class). pose proof (gran_range g).
  rewrite (seg_desc_sum base limit class type dpl g Hb Hl Ht Hd). unfold fits in *.
  assert (base = base mod 65536 + (base / 65536) mod 256 * 65536 + base / 2 ^ 24 * 2 ^ 24) as Eb.
  { change (2 ^ 24) with (65536 * 256). rewrite <-Z.div_div by lia.
    pose proof (Z.div_mod base 65536 ltac:(lia)). pose proof (Z.div_mod (base / 65536) 256 ltac:(lia)). lia. }
  pose proof (Z.div_mod limit 65536 ltac:(lia)) as El.
  pose proof (Z.mod_pos_bound limit 65536 ltac:(lia)). pose proof (Z.mod_pos_bound base 65536 ltac:(lia)).
  pose proof (Z.mod_pos_bound (base / 65536) 256 ltac:(lia)).
  assert (0 ≤ limit / 65536 ≤ 15) by (split; [apply Z.div_pos; lia|apply Z.lt_succ_r, Z.div_lt_upper_bound; lia]).
  assert (0 ≤ base / 2 ^ 24 ≤ 255) by (split; [apply Z.div_pos; lia|apply Z.lt_succ_r, Z.div_lt_upper_bound; lia]).
  set (b0 := base mod 65536) in *. set (b1 := base / 65536 mod 256) in *. set (b2 := base / 2 ^ 24) in *.
  set (l0 := limit mod 65536) in *. set (l1 := limit / 65536) in *. set (c := class_value class) in *. set (gr := gran_value g) in *.
  eexists. split; [reflexivity|]. split; [lia|].
  unfold desc_base, desc_limit, desc_class, desc_type, desc_dpl, desc_granularity, desc_present, desc_32bit.
  set (d := l0 + _ + _ + _ + _ + _ + _ + _ + _ + _ + _).
  set (top4 := b2 * 256 + gr * 128 + 64 + l1). (* bits 48 to 63 *)
  rewrite (field_of d 0 16 0 l0 (b0 + b1 * 2 ^ 16 + type * 2 ^ 24 + c * 2 ^ 28 + dpl * 2 ^ 29 + 2 ^ 31 + top4 * 2 ^ 32)) by (unfold d, top4; lia).
  rewrite (field_of d 16 24 l0 (b0 + b1 * 2 ^ 16) (type + c * 2 ^ 4 + dpl * 2 ^ 5 + 2 ^ 7 + top4 * 2 ^ 8)) by (unfold d, top4; lia).
  set (low := l0 + b0 * 2 ^ 16 + b1 * 2 ^ 32).
  rewrite (field_of d 40 4 low type (c + dpl * 2 + 2 ^ 3 + top4 * 2 ^ 4)) by (unfold d, low, top4; lia).
  rewrite (field_of d 44 1 (low + type * 2 ^ 40) c (dpl + 2 ^ 2 + top4 * 2 ^ 3)) by (unfold d, low, top4; lia).
  rewrite (field_of d 45 2 (low + type * 2 ^ 40 + c * 2 ^ 44) dpl (1 + top4 * 2)) by (unfold d, low, top4; lia).
  set (low2 := low + type * 2 ^ 40 + c * 2 ^ 44 + dpl * 2 ^ 45).
  rewrite (field_of d 47 1 low2 1 top4) by (unfold d, low2, low, top4; lia).
  rewrite (field_of d 48 4 (low2 + 2 ^ 47) l1 (4 + gr * 8 + b2 * 16)) by (unfold d, low2, low; lia).
  rewrite (field_of d 54 1 (low2 + 2 ^ 47 + l1 * 2 ^ 48) 1 (gr + b2 * 2)) by (unfold d, low2, low; lia).
  rewrite (field_of d 55 1 (low2 + 2 ^ 47 + l1 * 2 ^ 48 + 2 ^ 54) gr b2) by (unfold d, low2, low; lia).
  rewrite (field_of d 56 8 (low2 + 2 ^ 47 + l1 * 2 ^ 48 + 2 ^ 54 + gr * 2 ^ 55) b2 0) by (unfold d, low2, low; lia).
  split_and!; try done; lia.
Qed.

(** ** Gates *)

Definition gate_offset (g : Z) : Z := field g 0 16 + 2 ^ 16 * field g 48 16.
Definition gate_selector (g : Z) : Z := field g 16 16.
Definition gate_type (g : Z) : Z := field g 40 4.
Definition gate_system (g : Z) : Z := field g 44 1.
Definition gate_dpl (g : Z) : Z := field g 45 2.
Definition gate_present (g : Z) : Z := field g 47 1.

Lemma gate_fields f dpl type : f ≠ NULL → fits 32 f → 0 ≤ dpl ≤ 3 → 0 ≤ type ≤ 15 →
  ∃ g, make_gate f dpl type = Ret g ∧ fits 64 g ∧ gate_offset g = f ∧ gate_selector g = SEL_KCSEG ∧
    gate_type g = type ∧ gate_system g = 0 ∧ gate_dpl g = dpl ∧ gate_present g = 1.
Proof.
  intros Hn Hf Hd Ht. unfold make_gate. rewrite nonnull_true by done. unfold fits in *.
  rewrite !(proj2 (Z.leb_le 0 _)), (proj2 (Z.leb_le type _)), (proj2 (Z.leb_le dpl _)) by lia. cbn [negb andb].
  rewrite land_low. change 0xffff0000 with (Z.shiftl (Z.ones 16) 16). rewrite land_window by lia. rewrite !Z.shiftl_mul_pow2 by lia.
  pose proof (Z.div_mod f 65536 ltac:(lia)) as Ef. pose proof (Z.mod_pos_bound f 65536 ltac:(lia)).
  change (2 ^ 16) with 65536. change (2 ^ 15) with 32768. change (2 ^ 13) with 8192. change (2 ^ 12) with 4096. change (2 ^ 8) with 256.
  assert (0 ≤ f / 65536 < 65536) by (split; [apply Z.div_pos; lia|apply Z.div_lt_upper_bound; lia]).
  rewrite (Z.mod_small (f / 65536)) by lia. set (lo := f mod 65536) in *. set (hi := f / 65536) in *. unfold SEL_KCSEG.
  rewrite (lor_add_up 16 lo _ 8) by lia. rewrite (Z.mul_0_l 4096), Z.lor_0_r.
  rewrite (Z.lor_comm _ (type * 256)), (Z.lor_comm _ (dpl * 8192)), (Z.lor_comm _ (1 * 32768)).
  rewrite (lor_add_up 16 (1 * 32768) _ hi) by lia.
  rewrite (lor_add_up 15 (dpl * 8192) _ (1 + hi * 2)) by lia.
  rewrite (lor_add_up 13 (type * 256) _ (dpl + 4 + hi * 8)) by lia.
  erewrite (lor_add_up 32 (lo + _)) by (lia || reflexivity).
  eexists. split; [reflexivity|]. split; [lia|]. unfold gate_offset, gate_selector, gate_type, gate_system, gate_dpl, gate_present.
  set (g := lo + _ + _).
  rewrite (field_of g 0 16 0 lo (8 + type * 2 ^ 24 + dpl * 2 ^ 29 + 2 ^ 31 + hi * 2 ^ 32)) by (unfold g; lia).
  rewrite (field_of g 16 16 lo 8 (type * 2 ^ 8 + dpl * 2 ^ 13 + 2 ^ 15 + hi * 2 ^ 16)) by (unfold g; lia).
  set (low := lo + 8 * 2 ^ 16).
  rewrite (field_of g 40 4 low type (dpl * 2 + 8 + hi * 16)) by (unfold g, low; lia).
  rewrite (field_of g 44 1 (low + type * 2 ^ 40) 0 (dpl + 4 + hi * 8)) by (unfold g, low; lia).
  rewrite (field_of g 45 2 (low + type * 2 ^ 40) dpl (1 + hi * 2)) by (unfold g, low; lia).
  rewrite (field_of g 47 1 (low + type * 2 ^ 40 + dpl * 2 ^ 45) 1 hi) by (unfold g, low; lia).
  rewrite (field_of g 48 16 (low + type * 2 ^ 40 + dpl * 2 ^ 45 + 2 ^ 47) hi 0) by (unfold g, low; lia).
  split_and!; try done; lia.
Qed.

(** ** The table *)

Inductive registration :=
| RegExt (vec : nat) (handler : addr) (name : string)
| RegInt (vec : nat) (dpl : Z) (level : bool) (handler : addr) (name : string).
Definition reg_vec (r : registration) : nat := match r with RegExt v _ _ => v | RegInt v _ _ _ _ => v end.
Definition reg_handler (r : registration) : addr := match r with RegExt _ h _ => h | RegInt _ _ _ h _ => h end.
Definition reg_dpl (r : registration) : Z := match r with RegExt _ _ _ => 0 | RegInt _ d _ _ _ => d end.
Definition reg_level (r : registration) : bool := match r with RegExt _ _ _ => false | RegInt _ _ l _ _ => l end.
Definition register (stubs : nat → addr) (r : registration) : ST itable () :=
  match r with
  | RegExt v h n => intr_register_ext stubs v h n
  | RegInt v d l h n => intr_register_int stubs v d l h n
  end.
Definition register_all (stubs : nat → addr) : list registration → ST itable () :=
  foldr (λ r k, register stubs r;; k) (mret ()).

(** A device or exception that may be registered, and one that has not been yet. *)
Definition reg_ok (r : registration) : Prop :=
  (reg_vec r < 256)%nat ∧ reg_handler r ≠ NULL ∧ 0 ≤ reg_dpl r ≤ 3 ∧
  match r with RegExt v _ _ => (0x20 ≤ v ≤ 0x2f)%nat | RegInt v _ _ _ _ => (v < 0x20 ∨ 0x2f < v)%nat end.
Definition unused (log : list registration) (r : registration) : Prop := Forall (λ r', reg_vec r' ≠ reg_vec r) log.

(** What the gate and the handler of a vector are, by the registrations so far. *)
Definition vector_entry (log : list registration) (v : nat) : Z * Z * addr :=
  match head (filter (λ r, reg_vec r = v) log) with
  | None => (0, 14, NULL)
  | Some r => (reg_dpl r, (if reg_level r then 15 else 14), reg_handler r)
  end.
Record vector_ok (stubs : nat → addr) (log : list registration) (t : itable) (v : nat) : Prop := VectorOk {
  vo_gate : ∃ g, idt t !! v = Some g ∧ gate_present g = 1 ∧ gate_system g = 0 ∧ gate_selector g = SEL_KCSEG ∧ gate_offset g = stubs v ∧
    gate_dpl g = (vector_entry log v).1.1 ∧ gate_type g = (vector_entry log v).1.2;
  vo_handler : intr_handlers t !! v = Some (vector_entry log v).2;
}.
Definition itable_ok (stubs : nat → addr) (log : list registration) (t : itable) : Prop :=
  ∀ v, (v < 256)%nat → vector_ok stubs log t v.

Section table.
Context (stubs : nat → addr) (Hstubs : ∀ v, (v < 256)%nat → stubs v ≠ NULL ∧ fits 32 (stubs v)).

Lemma init_gates_spec n : ∀ i t, (i + n = 256)%nat → length (idt t) = 256%nat → intr_handlers t = replicate 256 NULL →
  (∀ v, (v < i)%nat → vector_ok stubs [] t v) →
  ∃ t', init_gates stubs n i t = Ret ((), t') ∧ itable_ok stubs [] t' ∧ length (idt t') = 256%nat ∧ length (intr_handlers t') = 256%nat.
Proof.
  induction n as [|n IH]; intros i t Hi Hl Hh Hv; cbn [init_gates].
  - exists t. split; [done|]. split; [intros v ?; apply Hv; lia|]. by rewrite Hh, length_replicate.
  - destruct (Hstubs i ltac:(lia)) as [Hn Hf]. destruct (gate_fields (stubs i) 0 14 Hn Hf ltac:(lia) ltac:(lia)) as (g & Hg & _ & Ho & Hs & Ht & Hsys & Hd & Hp).
    rewrite (bind_run _ _ _ g t) by (unfold lift, make_intr_gate; by rewrite Hg). erewrite bind_run; [|reflexivity].
    apply IH; [lia|by cbn [idt]; rewrite length_insert|done|]. intros v Hvi. destruct (decide (v = i)) as [->|Hne].
    + constructor; cbn [idt intr_handlers].
      * exists g. split; [by rewrite list_lookup_insert_eq by lia|done].
      * rewrite Hh. by rewrite lookup_replicate_2 by lia.
    + destruct (Hv v ltac:(lia)) as [(g' & Hg' & Hr) Hh']. constructor; cbn [idt intr_handlers]; [|done].
      exists g'. by rewrite list_lookup_insert_ne by done.
Qed.

Lemma pic_init_run t : ∃ t', pic_init t = Ret ((), t') ∧ idt t' = idt t ∧ intr_handlers t' = intr_handlers t.
Proof. by eexists. Qed.

Lemma intr_init_spec table : ∃ op t, intr_init stubs table blank_table = Ret (op, t) ∧ itable_ok stubs [] t ∧
  length (idt t) = 256%nat ∧ length (intr_handlers t) = 256%nat.
Proof.
  unfold intr_init. destruct (pic_init_run blank_table) as (t0 & H0 & Hi & Hh). rewrite (bind_run _ _ _ _ _ H0).
  destruct (init_gates_spec 256 0 t0) as (t & Hrun & Hok & Hl1 & Hl2); [done|by rewrite Hi|by rewrite Hh|lia|].
  change INTR_CNT with 256%nat. rewrite (bind_run _ _ _ _ _ Hrun). erewrite bind_run; [|reflexivity].
  do 2 eexists. split; [reflexivity|]. split; [|done]. intros v Hv. destruct (Hok v Hv) as [Hg Hh']. by constructor.
Qed.

Lemma vector_entry_cons log r v : vector_entry (r :: log) v =
  if decide (reg_vec r = v) then (reg_dpl r, (if reg_level r then 15 else 14), reg_handler r) else vector_entry log v.
Proof. unfold vector_entry. rewrite filter_cons. by destruct (decide (reg_vec r = v)). Qed.

Lemma vector_entry_unused log r : unused log r → vector_entry log (reg_vec r) = (0, 14, NULL).
Proof.
  intros Hu. unfold vector_entry. induction Hu as [|r' log Hne Hu IH]; [done|]. rewrite filter_cons_False by done. exact IH.
Qed.

Lemma register_handler_spec log t r : itable_ok stubs log t → length (idt t) = 256%nat → length (intr_handlers t) = 256%nat →
  reg_ok r → unused log r → ∀ nm,
  ∃ t', register_handler stubs (reg_vec r) (reg_dpl r) (reg_level r) (reg_handler r) nm t = Ret ((), t') ∧
    itable_ok stubs (r :: log) t' ∧ length (idt t') = 256%nat ∧ length (intr_handlers t') = 256%nat.
Proof.
  intros Hok Hl1 Hl2 (Hv & Hh & Hd & _) Hu nm. unfold register_handler. destruct (Hok (reg_vec r) Hv) as [_ Hold].
  rewrite vector_entry_unused in Hold by done. cbn [snd] in Hold. erewrite bind_run; [|reflexivity]. rewrite Hold. erewrite bind_run; [|by apply assert_run].
  destruct (Hstubs (reg_vec r) Hv) as [Hn Hf].
  destruct (gate_fields (stubs (reg_vec r)) (reg_dpl r) (if reg_level r then 15 else 14) Hn Hf Hd) as (g & Hg & _ & Ho & Hs & Ht & Hsys & Hdp & Hp);
    [destruct (reg_level r); lia|].
  rewrite (bind_run _ _ _ g t) by (unfold lift, make_trap_gate, make_intr_gate; destruct (reg_level r); by rewrite Hg).
  eexists. split; [reflexivity|]. split; [|by cbn [set_vector idt intr_handlers]; rewrite !length_insert].
  intros v Hv'. destruct (decide (reg_vec r = v)) as [<-|Hne].
  - constructor; rewrite vector_entry_cons, decide_True by done; cbn [set_vector idt intr_handlers fst snd].
    + exists g. split; [by rewrite list_lookup_insert_eq by lia|done].
    + by rewrite list_lookup_insert_eq by lia.
  - destruct (Hok v Hv') as [(g' & Hg' & Hr) Hh']. constructor; rewrite vector_entry_cons, decide_False by done; cbn [set_vector idt intr_handlers].
    + exists g'. by rewrite list_lookup_insert_ne by done.
    + by rewrite list_lookup_insert_ne by done.
Qed.

Lemma register_spec log t r : itable_ok stubs log t → length (idt t) = 256%nat → length (intr_handlers t) = 256%nat →
  reg_ok r → unused log r →
  ∃ t', register stubs r t = Ret ((), t') ∧ itable_ok stubs (r :: log) t' ∧ length (idt t') = 256%nat ∧ length (intr_handlers t') = 256%nat.
Proof.
  intros Hok Hl1 Hl2 Hr Hu. pose proof (register_handler_spec log t r Hok Hl1 Hl2 Hr Hu) as Hspec.
  destruct Hr as (_ & _ & _ & Hv). destruct r as [v h nm|v d l h nm]; cbn [register reg_vec reg_dpl reg_level reg_handler] in *.
  - unfold intr_register_ext. rewrite (bind_run _ _ _ () t); [apply Hspec|]. apply assert_run, andb_true_iff. split; apply Z.leb_le; lia.
  - unfold intr_register_int. rewrite (bind_run _ _ _ () t); [apply Hspec|]. apply assert_run, orb_true_iff.
    destruct Hv; [left|right]; apply Z.ltb_lt; lia.
Qed.

(** A vector that has a handler cannot be registered again. *)
Lemma register_twice log t r : itable_ok stubs log t → reg_ok r → (vector_entry log (reg_vec r)).2 ≠ NULL → register stubs r t = Panic.
Proof.
  intros Hok (Hv & _ & _ & Hrange) He. destruct (Hok (reg_vec r) Hv) as [_ Hold].
  assert (∀ d l h nm, register_handler stubs (reg_vec r) d l h nm t = Panic) as Hp.
  { intros d l h nm. unfold register_handler. erewrite bind_run; [|reflexivity]. rewrite Hold.
    cbn [default]. rewrite nonnull_true by done. done. }
  destruct r as [v h nm|v d l h nm]; cbn [register reg_vec] in *.
  - unfold intr_register_ext. rewrite (bind_run _ _ _ () t); [apply Hp|]. apply assert_run, andb_true_iff. split; apply Z.leb_le; lia.
  - unfold intr_register_int. rewrite (bind_run _ _ _ () t); [apply Hp|]. apply assert_run, orb_true_iff.
    destruct Hrange; [left|right]; apply Z.ltb_lt; lia.
Qed.

Lemma register_all_spec regs : ∀ log t, itable_ok stubs log t → length (idt t) = 256%nat → length (intr_handlers t) = 256%nat →
  Forall reg_ok regs → NoDup (reg_vec <$> regs) → Forall (unused log) regs →
  ∃ t', register_all stubs regs t = Ret ((), t') ∧ itable_ok stubs (reverse regs ++ log) t' ∧
    length (idt t') = 256%nat ∧ length (intr_handlers t') = 256%nat.
Proof.
  induction regs as [|r regs IH]; intros log t Hok Hl1 Hl2 Hr Hnd Hu; [by exists t|].
  apply Forall_cons in Hr as [Hr Hrs]. rewrite fmap_cons in Hnd. apply NoDup_cons in Hnd as [Hnew Hnd]. apply Forall_cons in Hu as [Hu Hus].
  destruct (register_spec log t r Hok Hl1 Hl2 Hr Hu) as (t1 & Hrun & Hok1 & Hl1' & Hl2'). unfold register_all. cbn [foldr].
  rewrite (bind_run _ _ _ _ _ Hrun). destruct (IH (r :: log) t1) as (t2 & Hrun2 & Hok2 & Hl); try done.
  - rewrite Forall_forall in *. intros r' Hr'. apply Forall_cons. split; [|by apply Hus]. intros E. apply Hnew. rewrite E. apply list_elem_of_fmap_2, Hr'.
  - exists t2. split; [exact Hrun2|]. by rewrite reverse_cons, <-(assoc_L (++)).
Qed.
End table.

(** ** The vectors at run time *)

(** Registrations of devices on top of others. *)
Lemma vector_entry_devices v l1 l2 : Forall (λ r, ∃ v h nm, r = RegExt v h nm) l1 → Forall reg_ok l1 →
  (vector_entry (l1 ++ l2) v = vector_entry l2 v ∧ Forall (λ r, reg_vec r ≠ v) l1) ∨ ((0x20 ≤ v ≤ 0x2f)%nat ∧ (vector_entry (l1 ++ l2) v).1.1 = 0).
Proof.
  induction l1 as [|r l1 IH]; intros Hext Hr; [by left|]. apply Forall_cons in Hext as [(v' & h & nm & ->) Hext]. apply Forall_cons in Hr as [Hr Hrs].
  cbn [app]. rewrite vector_entry_cons. destruct (decide (reg_vec (RegExt v' h nm) = v)) as [E|Hne].
  - right. destruct Hr as (_ & _ & _ & Hv). cbn in *. subst v'. by split.
  - destruct (IH Hext Hrs) as [[Hs Hf]|]; [left; split; [done|by constructor]|by right].
Qed.

Definition exception_regs (kill page_fault : addr) : list registration :=
  [RegInt 3 3 true kill "#BP Breakpoint Exception"; RegInt 4 3 true kill "#OF Overflow Exception";
   RegInt 5 3 true kill "#BR BOUND Range Exceeded Exception"; RegInt 0 0 true kill "#DE Divide Error";
   RegInt 1 0 true kill "#DB Debug Exception"; RegInt 6 0 true kill "#UD Invalid Opcode Exception";
   RegInt 7 0 true kill "#NM Device Not Available Exception"; RegInt 11 0 true kill "#NP Segment Not Present";
   RegInt 12 0 true kill "#SS Stack Fault Exception"; RegInt 13 0 true kill "#GP General Protection Exception";
   RegInt 16 0 true kill "#MF x87 FPU Floating-Point Error"; RegInt 19 0 true kill "#XF SIMD Floating-Point Exception";
   RegInt 14 0 false page_fault "#PF Page-Fault Exception"].

Lemma bind_ext {T A B} (m : ST T A) (f g : A → ST T B) t : (∀ a t', f a t' = g a t') → (m ≫= f) t = (m ≫= g) t.
Proof. intros E. unfold mbind, ST_bind. destruct (m t) as [[a t']| | |]; auto. Qed.
Lemma bind_unit_r {T} (m : ST T ()) t : (m;; mret ()) t = m t.
Proof. unfold mbind, ST_bind. by destruct (m t) as [[[] t']| | |]. Qed.
Lemma exception_init_regs stubs kill page_fault t : exception_init stubs kill page_fault t = register_all stubs (exception_regs kill page_fault) t.
Proof. unfold exception_init, register_all. cbn [foldr exception_regs]. do 12 (apply bind_ext; intros _ ?). symmetry. apply bind_unit_r. Qed.

(** A segment descriptor describes the segment that [make_seg_desc] was asked for: the processor
    reads from it the base, the limit, the class, the type, the privilege level and the
    granularity of the arguments, of a segment that is present and has 32 bits. *)
Theorem seg_desc_roundtrip base limit class type dpl g : fits 32 base → 0 ≤ limit ≤ 0xfffff → 0 ≤ type ≤ 15 → 0 ≤ dpl ≤ 3 →
  ∃ d, make_seg_desc base limit class type dpl g = Ret d ∧ fits 64 d ∧
    desc_base d = base ∧ desc_limit d = limit ∧ desc_class d = class_value class ∧ desc_type d = type ∧ desc_dpl d = dpl ∧
    desc_granularity d = gran_value g ∧ desc_present d = 1 ∧ desc_32bit d = 1.
Proof. apply seg_desc_fields. Qed.

Lemma seg_desc_roundtrip_witness :
  ∃ d, make_seg_desc 0xc0012000 0x67 CLS_SYSTEM 9 0 GRAN_BYTE = Ret d ∧ desc_base d = 0xc0012000 ∧ desc_limit d = 0x67.
Proof.
  destruct (seg_desc_roundtrip 0xc0012000 0x67 CLS_SYSTEM 9 0 GRAN_BYTE) as (d & Hd & _ & Hb & Hl & _); [done|done|done|done|].
  exists d. split; [exact Hd|]. split; [exact Hb|exact Hl].
Defined.

(** C23: The interrupt table is always well formed.  After [intr_init] and the registration of any
    handlers for different vectors, each vector has a gate to its own entry point in the
    kernel's code segment; the gate has the privilege level of the registration and keeps
    interrupts on only when that was asked for, never for an external interrupt; vectors
    without a handler cannot be invoked by a program.  A second registration panics. *)
Theorem interrupt_table_correct stubs table regs : (∀ v, (v < 256)%nat → stubs v ≠ NULL ∧ fits 32 (stubs v)) →
  Forall reg_ok regs → NoDup (reg_vec <$> regs) →
  ∃ op t0 t, intr_init stubs table blank_table = Ret (op, t0) ∧ register_all stubs regs t0 = Ret ((), t) ∧
    itable_ok stubs (reverse regs) t ∧ ∀ r r', r ∈ regs → reg_ok r' → reg_vec r' = reg_vec r → register stubs r' t = Panic.
Proof.
  intros Hst Hr Hnd. destruct (intr_init_spec stubs Hst table) as (op & t0 & H0 & Hok0 & Hl1 & Hl2).
  destruct (register_all_spec stubs Hst regs [] t0) as (t & Hrun & Hok & _); try done.
  { apply Forall_forall. intros r _. by constructor. }
  rewrite app_nil_r in Hok. exists op, t0, t. split; [done|]. split; [done|]. split; [done|]. intros r r' Hin Hr' Hv.
  apply (register_twice stubs (reverse regs)); [done|done|]. rewrite Hv. unfold vector_entry.
  assert (r ∈ filter (λ x, reg_vec x = reg_vec r) (reverse regs)) as Hf by (apply list_elem_of_filter; split; [done|by apply elem_of_reverse]).
  destruct (filter _ (reverse regs)) as [|x l] eqn:E; [by apply elem_of_nil in Hf|]. cbn [head snd].
  assert (x ∈ filter (λ x, reg_vec x = reg_vec r) (reverse regs)) as Hx by (rewrite E; apply list_elem_of_here).
  apply list_elem_of_filter in Hx as [_ Hx]. rewrite elem_of_reverse in Hx. rewrite Forall_forall in Hr. by destruct (Hr x Hx) as (_ & ? & _).
Qed.

Definition sample_stubs (v : nat) : addr := 0xc0020000 + 16 * Z.of_nat v.
Lemma sample_stubs_ok v : (v < 256)%nat → sample_stubs v ≠ NULL ∧ fits 32 (sample_stubs v).
Proof. unfold sample_stubs, NULL, fits. lia. Qed.

Lemma interrupt_table_correct_witness :
  ∃ t, register_all sample_stubs [RegExt 0x20 0xc0030000 "8254 Timer"] t = Panic.
Proof.
  destruct (interrupt_table_correct sample_stubs 0xc0040000 [RegExt 0x20 0xc0030000 "8254 Timer"]) as (op & t0 & t & _ & _ & _ & Hp).
  - exact sample_stubs_ok.
  - constructor; [split; [simpl; lia|split; [done|split; [simpl; lia|simpl; lia]]]|constructor].
  - apply NoDup_singleton.
  - exists t. cbn [register_all foldr]. unfold mbind, ST_bind. rewrite (Hp (RegExt 0x20 0xc0030000 "8254 Timer")); [done|apply list_elem_of_here| |done].
    split; [simpl; lia|split; [done|split; [simpl; lia|simpl; lia]]].
Defined.

(** When the kernel runs, with the exceptions, the system call and any devices registered, a
    program can invoke exactly the vectors 3, 4, 5 and 0x30 with an instruction: breakpoint,
    overflow, bounds and system call. *)
Theorem user_invocable_vectors stubs table kill page_fault syscall devices :
  (∀ v, (v < 256)%nat → stubs v ≠ NULL ∧ fits 32 (stubs v)) → kill ≠ NULL → page_fault ≠ NULL → syscall ≠ NULL →
  Forall reg_ok devices → NoDup (reg_vec <$> devices) → Forall (λ r, ∃ v h nm, r = RegExt v h nm) devices →
  ∃ op t0 t1 t2 t, intr_init stubs table blank_table = Ret (op, t0) ∧ exception_init stubs kill page_fault t0 = Ret ((), t1) ∧
    syscall_init stubs syscall t1 = Ret ((), t2) ∧ register_all stubs devices t2 = Ret ((), t) ∧
    ∀ v g, (v < 256)%nat → idt t !! v = Some g → gate_dpl g = 3 ↔ v = 3%nat ∨ v = 4%nat ∨ v = 5%nat ∨ v = 48%nat.
Proof.
  intros Hst Hk Hp Hs Hr Hnd Hext. destruct (intr_init_spec stubs Hst table) as (op & t0 & H0 & Hok0 & Hl1 & Hl2).
  set (ex := exception_regs kill page_fault). set (sc := RegInt 0x30 3 true syscall "syscall").
  assert (Forall reg_ok ex) as Hex.
  { unfold ex, exception_regs. repeat (apply Forall_cons; split; [split; [cbn; lia|split; [done|cbn; lia]]|]). constructor. }
  destruct (register_all_spec stubs Hst ex [] t0) as (t1 & H1 & Hok1 & Hl3 & Hl4); try done.
  { by_evaluation. }
  { apply Forall_forall. intros r _. by constructor. }
  rewrite app_nil_r in Hok1.
  destruct (register_spec stubs Hst (reverse ex) t1 sc Hok1 Hl3 Hl4) as (t2 & H2 & Hok2 & Hl5 & Hl6).
  { split; [cbn; lia|split; [done|cbn; lia]]. }
  { repeat constructor; done. }
  destruct (register_all_spec stubs Hst devices (sc :: reverse ex) t2) as (t & H3 & Hok & _); try done.
  { rewrite Forall_forall in *. intros d Hd. destruct (Hext d Hd) as (v & h & nm & ->). destruct (Hr _ Hd) as (_ & _ & _ & Hv).
    repeat constructor; cbn; lia. }
  exists op, t0, t1, t2, t. split; [done|]. split; [by rewrite exception_init_regs|]. split; [exact H2|]. split; [exact H3|].
  intros v g Hv Hg. destruct (Hok v Hv) as [(g' & Hg' & _ & _ & _ & _ & Hd & _) _]. assert (g' = g) as -> by congruence. rewrite Hd.
  destruct (vector_entry_devices v (reverse devices) (sc :: reverse ex)) as [[-> _]|[Hrange ->]].
  { by apply Forall_reverse. }
  { by apply Forall_reverse. }
  - cbn [ex exception_regs reverse rev_append]. rewrite !vector_entry_cons. repeat case_decide; cbn in *; lia.
  - lia.
Qed.

Lemma user_invocable_vectors_witness :
  ∃ t, ∀ v g, (v < 256)%nat → idt t !! v = Some g → gate_dpl g = 3 ↔ v = 3%nat ∨ v = 4%nat ∨ v = 5%nat ∨ v = 48%nat.
Proof.
  destruct (user_invocable_vectors sample_stubs 0xc0040000 0xc0030000 0xc0030100 0xc0030200 [RegExt 0x20 0xc0030300 "8254 Timer"])
    as (op & t0 & t1 & t2 & t & _ & _ & _ & _ & Hg); [exact sample_stubs_ok|done|done|done| | | |].
  - constructor; [split; [simpl; lia|split; [done|split; [simpl; lia|simpl; lia]]]|constructor].
  - apply NoDup_singleton.
  - constructor; [by do 3 eexists|constructor].
  - exists t. exact Hg.
Defined.
