(* ===== verification/Elf.v ===== *)
(** * Loading a program: [load], [load_segment] and [start_process] of src/src/userprog/process.c

    The state has the open files, the task (page tables in RAM, and the bytes that can be accessed
    by virtual address), the page directory of the thread and the messages printed.  A page is
    filled through its kernel address and becomes part of the user's memory, with the bytes it
    then has, when it is installed. *)
From S2P Require Import Prelude KList CString Bitmap Palloc Pagedir Loader Descriptors Directory File Filesys.

Inductive load_message := OpenFailed (file_name : bytes) | ErrorLoading (file_name : bytes).

Record lstate (S : Type) := LState {
  l_files : fstate S;
  l_task : task;
  l_pagedir : addr;
  l_mallocs : list addr;
  l_messages : list load_message;
}.
Arguments LState {S} _ _ _ _ _.
Arguments l_files {S} _. Arguments l_task {S} _. Arguments l_pagedir {S} _.
Arguments l_mallocs {S} _. Arguments l_messages {S} _.

(** ** Headers *)

Record Elf32_Ehdr := Ehdr {
  e_ident : bytes; e_type : Z; e_machine : Z; e_version : Z; e_entry : Z; e_phoff : Z; e_shoff : Z;
  e_flags : Z; e_ehsize : Z; e_phentsize : Z; e_phnum : Z; e_shentsize : Z; e_shnum : Z; e_shstrndx : Z;
}.
Definition EHDR_SIZE : Z := 52.
Definition PHDR_SIZE : Z := 32.

(** Little-endian fields of a header. *)
Definition half (bs : bytes) (i : nat) : Z := u8 (default 0 (bs !! i)) + 256 * u8 (default 0 (bs !! (i + 1)%nat)).
Definition full_word (bs : bytes) (i : nat) : Z := half bs i + 65536 * half bs (i + 2).

Definition ehdr_of (bs : bytes) : Elf32_Ehdr :=
  Ehdr (take 16 bs) (half bs 16) (half bs 18) (full_word bs 20) (full_word bs 24) (full_word bs 28) (full_word bs 32)
    (full_word bs 36) (half bs 40) (half bs 42) (half bs 44) (half bs 46) (half bs 48) (half bs 50).
Definition phdr_of (bs : bytes) : Elf32_Phdr :=
  Phdr (full_word bs 0) (full_word bs 4) (full_word bs 8) (full_word bs 12)
    (full_word bs 16) (full_word bs 20) (full_word bs 24) (full_word bs 28).

Definition PT_LOAD : Z := 1.
Definition PT_DYNAMIC : Z := 2.
Definition PT_INTERP : Z := 3.
Definition PT_SHLIB : Z := 5.

(** The condition under which [load] rejects the header; [bs] is what [file_read] delivered. *)
Definition bad_header (bs : bytes) : bool :=
  let ehdr := ehdr_of bs in
  negb (Z.of_nat (length bs) =? EHDR_SIZE)
  || negb (bool_decide (take 7 (e_ident ehdr) = [127; 69; 76; 70; 1; 1; 1]))
  || negb (e_type ehdr =? 2) || negb (e_machine ehdr =? 3) || negb (e_version ehdr =? 1)
  || negb (e_phentsize ehdr =? PHDR_SIZE) || (1024 <? e_phnum ehdr).

Section load.
Context {S : Type} `{InodeLayer S}.
Abbreviation L := (ST (lstate S)).

Definition on_files {A} (f : ST (fstate S) A) : L A := λ s,
  match f (l_files s) with
  | Ret (a, t) => Ret (a, LState t (l_task s) (l_pagedir s) (l_mallocs s) (l_messages s))
  | Panic => Panic | Fault => Fault | NoFuel => NoFuel
  end.
Definition on_task {A} (f : T A) : L A := λ s,
  match f (l_task s) with
  | Ret (a, t) => Ret (a, LState (l_files s) t (l_pagedir s) (l_mallocs s) (l_messages s))
  | Panic => Panic | Fault => Fault | NoFuel => NoFuel
  end.
Definition set_pagedir (pd : addr) : L () :=
  modify (λ s, LState (l_files s) (l_task s) pd (l_mallocs s) (l_messages s)).
Definition print (m : load_message) : L () :=
  modify (λ s, LState (l_files s) (l_task s) (l_pagedir s) (l_mallocs s) (l_messages s ++ [m])).
Definition next_malloc : L addr :=
  l ← gets l_mallocs;
  modify (λ s, LState (l_files s) (l_task s) (l_pagedir s) (tail (l_mallocs s)) (l_messages s));;
  mret (default NULL (head l)).

(** The bytes of a page that can be accessed. *)
Definition page_at_va (m : mem) (va : Z) : bytes := (λ i, default 0 (m !! (va + i))) <$> seqZ 0 PGSIZE.
(** The page at the kernel address [kpage] can also be accessed at [upage]. *)
Definition alias_page (upage kpage : Z) : T () :=
  modify (λ t, Task (tmach t) (write upage (page_at_va (tmem t) kpage) (tmem t))).

(** ** Segments *)

(** One page of the loop of [load_segment]. *)
Definition load_page (file upage page_read_bytes : Z) (writable : bool) : L bool :=
  let page_zero_bytes := PGSIZE - page_read_bytes in
  kpage ← on_task (on_pages (palloc_get_page PAL_USER));
  if negb (nonnull kpage) then mret false else
  on_task (add_page kpage kpage);;
  bs ← on_files (file_read file page_read_bytes);
  on_task (on_mem (st_bytes kpage bs));;
  if negb (Z.of_nat (length bs) =? page_read_bytes) then
    on_task (on_pages (palloc_free_page kpage));; mret false
  else
    _ ← on_task (on_mem (memset (kpage + page_read_bytes) 0 page_zero_bytes));
    pd ← gets l_pagedir;
    ok ← on_task (on_pages (install_page pd upage kpage writable));
    if negb ok then on_task (on_pages (palloc_free_page kpage));; mret false
    else on_task (alias_page upage kpage);; mret true.

Fixpoint load_pages (fuel : nat) (file upage read_bytes zero_bytes : Z) (writable : bool) : L bool :=
  match fuel with
  | O => λ _, NoFuel
  | Datatypes.S fuel =>
      if (0 <? read_bytes) || (0 <? zero_bytes) then
        let page_read_bytes := if read_bytes <? PGSIZE then read_bytes else PGSIZE in
        let page_zero_bytes := PGSIZE - page_read_bytes in
        ok ← load_page file upage page_read_bytes writable;
        if negb ok then mret false else
        load_pages fuel file (u32 (upage + PGSIZE)) (u32 (read_bytes - page_read_bytes)) (u32 (zero_bytes - page_zero_bytes)) writable
      else mret true
  end.

(** Each round of the loop uses up a page. *)
Definition load_segment (file ofs upage read_bytes zero_bytes : Z) (writable : bool) : L bool :=
  assert (segment_asserts ofs upage read_bytes zero_bytes);;
  on_files (file_seek file ofs);;
  load_pages (Datatypes.S (Z.to_nat ((read_bytes + zero_bytes) / PGSIZE))) file upage read_bytes zero_bytes writable.

(** ** Program headers *)

(** One program header; the answer is [false] where the code goes to [done]. *)
Definition load_phdr (file : addr) (phdr : Elf32_Phdr) : L bool :=
  let t := p_type phdr in
  if (t =? PT_DYNAMIC) || (t =? PT_INTERP) || (t =? PT_SHLIB) then mret false
  else if t =? PT_LOAD then
    len ← on_files (file_length file);
    if validate_segment phdr len then
      let '(file_page, mem_page, read_bytes, zero_bytes, writable) := segment_args phdr in
      load_segment file (s32 file_page) mem_page read_bytes zero_bytes writable
    else mret false
  else mret true.

(** The loop over [n] program headers from [file_ofs]. *)
Fixpoint load_phdrs (n : nat) (file file_ofs : Z) : L bool :=
  match n with
  | O => mret true
  | Datatypes.S n =>
      len ← on_files (file_length file);
      if (file_ofs <? 0) || (len <? file_ofs) then mret false else
      on_files (file_seek file file_ofs);;
      bs ← on_files (file_read file PHDR_SIZE);
      if negb (Z.of_nat (length bs) =? PHDR_SIZE) then mret false else
      ok ← load_phdr file (phdr_of bs);
      if negb ok then mret false else load_phdrs n file (s32 (file_ofs + PHDR_SIZE))
  end.

(** ** Programs *)

Definition read_string (p : addr) : L bytes :=
  on_task (on_mem (n ← strlen p; m ← gets (λ m : mem, m); mret ((λ i, default 0 (m !! (p + i))) <$> seqZ 0 n))).

(** [*eip] and [*esp] are returned; [esp] is the value before.  [process_activate] also stores
    the stack of the thread in the task-state segment, which is not part of this state. *)
Definition load (file_name input delims esp : Z) : L (bool * Z * Z) :=
  pd ← on_task (on_pages pagedir_create);
  set_pagedir pd;;
  '(file, r) ←
    (if negb (nonnull pd) then mret (NULL, (false, 0, esp)) else
     on_task (on_pages (pagedir_activate pd));;
     nm ← read_string file_name;
     p ← next_malloc;
     file ← on_files (filesys_open nm true p);
     if negb (nonnull file) then print (OpenFailed nm);; mret (file, (false, 0, esp)) else
     bs ← on_files (file_read file EHDR_SIZE);
     if bad_header bs then print (ErrorLoading nm);; mret (file, (false, 0, esp)) else
     let ehdr := ehdr_of bs in
     ok ← load_phdrs (Z.to_nat (e_phnum ehdr)) file (s32 (e_phoff ehdr));
     if negb ok then mret (file, (false, 0, esp)) else
     '(ok, esp) ← on_task (setup_stack pd esp input delims);
     if negb ok then mret (file, (false, 0, esp)) else
     mret (file, (true, e_entry ehdr, esp)));
  on_files (file_close file);;
  mret r.

(** The frame with which a program starts. *)
Record user_frame := UserFrame { if_ds : Z; if_cs : Z; if_eflags : Z; if_eip : Z; if_esp : Z }.
Definition FLAG_MBS : Z := 0x2.
Definition FLAG_IF : Z := 0x200.

(** [None] when the thread ends without running the program; [gs], [fs], [es] and [ss] have the
    value of [ds]. *)
Definition start_process (input delims : Z) : L (option user_frame) :=
  input_cpy ← on_task (on_pages (palloc_get_page 0));
  if negb (nonnull input_cpy) then mret None else
  on_task (add_page input_cpy input_cpy);;
  _ ← on_task (on_mem (strlcpy input_cpy input PGSIZE));
  t ← on_task (on_mem (strtok_r input_cpy delims NULL));
  '(success, eip, esp) ← load t.1 input delims 0;
  on_task (on_pages (palloc_free_page input_cpy));;
  mret (if (success : bool) then Some (UserFrame SEL_UDSEG SEL_UCSEG (Z.lor FLAG_IF FLAG_MBS) eip esp) else None).

Section execute.
(** [thread_create] with the name of the thread and the argument of [start_process]. *)
Context (thread_create : bytes → addr → L Z).
Definition TID_ERROR : Z := -1.

Definition process_execute (input delims : Z) : L Z :=
  input_cpy ← on_task (on_pages (palloc_get_page 0));
  if negb (nonnull input_cpy) then mret TID_ERROR else
  on_task (add_page input_cpy input_cpy);;
  input_cpy2 ← on_task (on_pages (palloc_get_page 0));
  if negb (nonnull input_cpy2) then mret TID_ERROR else
  on_task (add_page input_cpy2 input_cpy2);;
  _ ← on_task (on_mem (strlcpy input_cpy input PGSIZE));
  _ ← on_task (on_mem (strlcpy input_cpy2 input PGSIZE));
  t ← on_task (on_mem (strtok_r input_cpy delims NULL));
  nm ← read_string t.1;
  tid ← thread_create nm input_cpy2;
  (if tid =? TID_ERROR then on_task (on_pages (palloc_free_page input_cpy)) else mret ());;
  mret tid.
End execute.
End load.
