(* ===== verification/ElfProofs.v ===== *)
(** * Loading a program: segments end up in memory, and no file crashes the loader *)
From S2P Require Import Prelude KList CString CStringProofs Bitmap Palloc Pagedir Loader LoaderProofs Directory DirectoryProofs File FileProofs Filesys FilesysProofs Elf.

(** A directory to which pages of the user pool can be added: what it maps can be translated. *)
Record space_ok (m : machine) (pd : Z) (tables : gmap Z Z) : Prop := SpaceOk {
  sp_pd : pd_ok m pd tables;
  sp_init : pd ≠ init_page_dir m;
  sp_user : PHYS_BASE ≤ base (user_pool m) ∧
    base (user_pool m) + PGSIZE * bit_cnt (used_map (user_pool m)) ≤ PHYS_BASE + PGSIZE * init_ram_pages m;
  sp_maps va : 0 ≤ va < PHYS_BASE → flag (pte m tables va) PTE_P = true →
    ∃ kp, translate (pte m tables va) va = Ret kp ∧ kp ≠ NULL;
}.

Lemma kept_space m m' pd tables : space_ok m pd tables → kept_pages m m' →
  base (user_pool m') = base (user_pool m) → bit_cnt (used_map (user_pool m')) = bit_cnt (used_map (user_pool m)) →
  space_ok m' pd tables.
Proof.
  intros [Hpd Hi Hu Hm] Hk Hb Hc. pose proof Hk as [_ (Hr & Hid & _ & _) _ _]. constructor.
  - by eapply kept_pd_ok.
  - by rewrite Hid.
  - by rewrite Hb, Hc, Hr.
  - intros va Hva. rewrite (kept_pte m m' pd tables va Hpd Hk). by apply Hm.
Qed.

(** A page of the user pool as an address. *)
Lemma user_page_range m pd tables i : space_ok m pd tables → 0 ≤ i < bit_cnt (used_map (user_pool m)) →
  let kpage := page_at (user_pool m) i in
  PHYS_BASE ≤ kpage ∧ kpage + PGSIZE ≤ 2 ^ 32 ∧ pg_ofs kpage = 0 ∧ Z.shiftr (kpage - PHYS_BASE) PTSHIFT < init_ram_pages m.
Proof.
  intros [Hpd _ [Hu1 Hu2] _] Hi kpage. destruct Hpd as [[_ [_ _ Hal Hend] _] _ _ _ _ _]. unfold kpage, page_at.
  change PGSIZE with 4096 in *. split; [lia|]. split; [lia|]. split.
  - rewrite pg_ofs_mod. change PGSIZE with 4096. rewrite <-Z.add_mod_idemp_r, Z.mul_comm, Z.mod_mul, Z.add_0_r by lia. done.
  - unfold PTSHIFT, PGBITS. rewrite Z.shiftr_div_pow2 by lia. change (2 ^ 12) with 4096. apply Z.div_lt_upper_bound; lia.
Qed.

Lemma same_page va upage : pg_ofs upage = 0 → upage ≤ va < upage + PGSIZE → pg_no va = pg_no upage ∧ pg_ofs va = va - upage.
Proof.
  rewrite !pg_ofs_mod. unfold pg_no, PGBITS. rewrite !Z.shiftr_div_pow2 by lia. change (2 ^ 12) with 4096. change PGSIZE with 4096.
  intros Ha Hva. pose proof (Z.div_mod upage 4096 ltac:(lia)). rewrite Ha in *.
  assert (va / 4096 = upage / 4096) as E by (symmetry; apply Z.div_unique with (va - upage); lia).
  split; [done|]. rewrite Z.mod_eq by lia. lia.
Qed.
Lemma other_page va upage : pg_ofs upage = 0 → ¬ upage ≤ va < upage + PGSIZE → pg_no va ≠ pg_no upage.
Proof.
  rewrite pg_ofs_mod. unfold pg_no, PGBITS. rewrite !Z.shiftr_div_pow2 by lia. change (2 ^ 12) with 4096. change PGSIZE with 4096.
  intros Ha Hva E. pose proof (Z.div_mod upage 4096 ltac:(lia)). pose proof (Z.div_mod va 4096 ltac:(lia)).
  pose proof (Z.mod_pos_bound va 4096 ltac:(lia)). lia.
Qed.

(** [install_page] in any such directory. *)
Lemma install_page_entries m pd tables upage i writable : space_ok m pd tables → 0 ≤ upage → pg_ofs upage = 0 →
  upage + PGSIZE ≤ PHYS_BASE → 0 ≤ i < bit_cnt (used_map (user_pool m)) → let kpage := page_at (user_pool m) i in
  ∃ ok m', install_page pd upage kpage writable m = Ret (ok, m') ∧
    if (ok : bool) then
      flag (pte m tables upage) PTE_P = false ∧ user_pool m' = user_pool m ∧
      ∃ tables', space_ok m' pd tables' ∧
        (∀ va, ¬ upage ≤ va < upage + PGSIZE → pte m' tables' va = pte m tables va) ∧
        ∀ va, upage ≤ va < upage + PGSIZE → value (pagedir_get_page pd va m') = Ret (kpage + (va - upage))
    else m' = m ∧ (flag (pte m tables upage) PTE_P = true ∨ full (kernel_pool m)).
Proof.
  intros Hsp Hup Hal Hend Hi kpage. destruct (user_page_range m pd tables i Hsp Hi) as (Hk1 & Hk2 & Hk3 & Hk4). fold kpage in Hk1, Hk2, Hk3, Hk4.
  pose proof Hsp as [Hpd Hinit [Hu1 Hu2] Hmaps]. change PGSIZE with 4096 in Hend.
  assert (is_user_vaddr upage = true) as Hu by (apply Z.ltb_lt; lia).
  unfold install_page. destruct (pagedir_get_page_run m pd tables upage Hpd Hup Hu) as [Hval Hst].
  destruct (flag (pte m tables upage) PTE_P) eqn:Hfl.
  - destruct (Hmaps upage ltac:(lia) Hfl) as (kp & Htr & Hn). rewrite Htr in Hval. unfold value in Hval.
    destruct (pagedir_get_page pd upage m) as [[r m1]| | |] eqn:E; try done. simpl in Hval. injection Hval as ->.
    rewrite (Hst _ _ eq_refl) in E. rewrite (bind_run _ _ _ _ _ E), nonnull_true by done. cbn [negb].
    exists false, m. split; [done|]. split; [done|by left].
  - unfold translate in Hval. rewrite Hfl in Hval. unfold value in Hval.
    destruct (pagedir_get_page pd upage m) as [[r m1]| | |] eqn:E; try done. simpl in Hval. injection Hval as ->.
    rewrite (Hst _ _ eq_refl) in E. rewrite (bind_run _ _ _ _ _ E). change (negb (nonnull NULL)) with true. cbv iota.
    destruct (pagedir_set_page_entries m pd tables upage kpage writable) as (ok & m' & Hrun & Hres); try done.
    exists ok, m'. split; [done|]. destruct ok; [|destruct Hres; split; [done|by right]].
    destruct Hres as (tables' & e & Hpd' & Hregs & Hup' & Hpte & Htr). split; [done|]. split; [done|]. exists tables'.
    assert (∀ va, upage ≤ va < upage + 4096 → pte m' tables' va = e) as Hin.
    { intros va Hva. rewrite Hpte. destruct (same_page va upage Hal Hva) as [-> _]. by rewrite Z.eqb_refl. }
    assert (∀ va, ¬ upage ≤ va < upage + PGSIZE → pte m' tables' va = pte m tables va) as Hout.
    { intros va Hva. rewrite Hpte. by rewrite (proj2 (Z.eqb_neq _ _) (other_page va upage Hal Hva)). }
    split; [constructor|].
    + done.
    + by destruct Hregs as (_ & -> & _).
    + rewrite Hup'. by destruct Hregs as (-> & _).
    + intros va Hva Hf. destruct (decide (upage ≤ va < upage + 4096)) as [Hi2|Ho].
      * rewrite Hin, Htr by done. eexists. split; [done|]. destruct (same_page va upage Hal Hi2) as [_ ->]. unfold NULL, PHYS_BASE in *. lia.
      * rewrite Hout in * by done. by apply Hmaps.
    + split; [done|]. intros va Hva. rewrite (proj1 (pagedir_get_page_run m' pd tables' va Hpd' ltac:(lia) ltac:(apply Z.ltb_lt; change PGSIZE with 4096 in *; lia))).
      rewrite Hin, Htr by done. by destruct (same_page va upage Hal Hva) as [_ ->].
Qed.

Section proofs.
Context {S : Type} `{InodeLayer S}.
Implicit Types s : lstate S.

Lemma load_files_run {A} (f : ST (fstate S) A) s a t : f (l_files s) = Ret (a, t) →
  on_files f s = Ret (a, LState t (l_task s) (l_pagedir s) (l_mallocs s) (l_messages s)).
Proof. unfold on_files. by intros ->. Qed.
Lemma load_task_run {A} (f : T A) s a t : f (l_task s) = Ret (a, t) →
  on_task f s = Ret (a, LState (l_files s) t (l_pagedir s) (l_mallocs s) (l_messages s)).
Proof. unfold on_task. by intros ->. Qed.

(** The file that is loaded, at position [pos]. *)
Record file_at (t : fstate S) (p inode pos : Z) (deny : bool) (bs : bytes) : Prop := FileAt {
  fa_ok : files_ok t;
  fa_file : files t !! p = Some (File inode pos deny);
  fa_bytes : contents (inodes t) inode = Some bs;
}.

Lemma read_at t p inode pos deny bs n : file_at t p inode pos deny bs →
  let out := take (Z.to_nat n) (drop (Z.to_nat pos) bs) in
  ∃ t', file_read p n t = Ret (out, t') ∧ file_at t' p inode (pos + Z.of_nat (length out)) deny bs.
Proof.
  intros [Hok Hf Hb] out. destruct (file_read_any t p _ bs n Hok Hf Hb) as (s' & Hrun & Hc & Ho & Hd). cbn [f_inode f_pos f_deny] in *. fold out in Hrun.
  eexists. split; [exact Hrun|]. destruct (fo_inodes _ Hok p _ Hf) as (_ & Hpos & bs' & Hb' & Hl). cbn [f_inode f_pos] in *. simplify_eq.
  split.
  - apply (set_pos_ok t p (File inode pos deny)); try done.
    + unfold out. rewrite length_take, length_drop. lia.
    + intros j bs0 Hj. rewrite Hc. eauto.
  - apply lookup_insert_eq.
  - simpl. by rewrite Hc.
Qed.

(** What stays the same while pages are added: everything but the files, pages and memory. *)
Definition same_rest s s' : Prop :=
  l_pagedir s' = l_pagedir s ∧ l_mallocs s' = l_mallocs s ∧ l_messages s' = l_messages s.

(** User memory outside [lo, hi). *)
Definition user_same (lo hi : Z) (m m' : mem) : Prop := ∀ x, x < PHYS_BASE → ¬ lo ≤ x < hi → m' !! x = m !! x.

Lemma user_same_kernel lo hi m p bs : PHYS_BASE ≤ p → user_same lo hi m (write p bs m).
Proof. intros Hp x Hx _. apply write_out. lia. Qed.
Lemma user_same_trans lo hi m1 m2 m3 : user_same lo hi m1 m2 → user_same lo hi m2 m3 → user_same lo hi m1 m3.
Proof. intros H1 H2 x Hx Ho. by rewrite H2, H1. Qed.

(** The bytes of a page with [n] bytes of the file from [pos] on. *)
Definition page_image (bs : bytes) (pos n : Z) : bytes :=
  (u8 <$> take (Z.to_nat n) (drop (Z.to_nat pos) bs)) ++ replicate (Z.to_nat (PGSIZE - n)) 0.

Record page_result (ok : bool) s s' (tables : gmap Z Z) (upage pos n : Z) (bs : bytes) (tables' : gmap Z Z) : Prop := PageResult {
  pr_rest : same_rest s s';
  pr_space : space_ok (tmach (l_task s')) (l_pagedir s) tables';
  pr_others va : ¬ upage ≤ va < upage + PGSIZE → pte (tmach (l_task s')) tables' va = pte (tmach (l_task s)) tables va;
  pr_memory : user_same upage (upage + PGSIZE) (tmem (l_task s)) (tmem (l_task s'));
  pr_ok : if ok then
      flag (pte (tmach (l_task s)) tables upage) PTE_P = false ∧ pos + n ≤ Z.max pos (Z.of_nat (length bs)) ∧
      bytes_at (tmem (l_task s')) upage (page_image bs pos n) ∧
      ∃ kpage, PHYS_BASE ≤ kpage ∧
        ∀ va, upage ≤ va < upage + PGSIZE → value (pagedir_get_page (l_pagedir s) va (tmach (l_task s'))) = Ret (kpage + (va - upage))
    else
      flag (pte (tmach (l_task s)) tables upage) PTE_P = true ∨ Z.of_nat (length bs) < pos + n ∨
      full (user_pool (tmach (l_task s'))) ∨ full (kernel_pool (tmach (l_task s')));
}.

(** Filling a new page through its kernel address. *)
Lemma fill_page (m : mem) kpage r (data : bytes) : 0 < kpage → Z.of_nat (length data) ≤ PGSIZE →
  let m1 := write kpage (page_bytes r kpage) m in
  let m2 := write kpage (u8 <$> data) m1 in
  let rest := PGSIZE - Z.of_nat (length data) in
  ∃ m3, st_bytes kpage data m1 = Ret ((), m2) ∧
    memset (kpage + Z.of_nat (length data)) 0 rest m2 = Ret (kpage + Z.of_nat (length data), m3) ∧
    page_at_va m3 kpage = (u8 <$> data) ++ replicate (Z.to_nat rest) 0 ∧
    ∀ x, x < kpage → m3 !! x = m !! x.
Proof.
  intros Hk Hl m1 m2 rest. change PGSIZE with 4096 in *.
  assert (mapped m1 kpage 4096) as Hm1 by apply mapped_new_page.
  exists (write (kpage + Z.of_nat (length data)) (replicate (Z.to_nat rest) 0) m2). split; [|split; [|split]].
  - apply st_bytes_run. eapply mapped_sub; [exact Hm1|lia|lia].
  - rewrite memset_run; [done|left; apply nonnull_true; unfold NULL; lia|unfold rest; lia|].
    unfold m2. apply mapped_after_write. eapply mapped_sub; [exact Hm1|lia|unfold rest; lia].
  - unfold page_at_va. change PGSIZE with 4096.
    replace 4096 with (Z.of_nat (length ((u8 <$> data) ++ replicate (Z.to_nat rest) 0)))
      by (rewrite length_app, length_fmap, length_replicate; unfold rest; lia).
    apply bytes_at_read. apply bytes_at_app. rewrite length_fmap. split; [|apply bytes_at_write].
    apply bytes_at_write_other; [rewrite length_fmap; lia|]. unfold m2. apply bytes_at_write.
  - intros x Hx. rewrite write_out by lia. unfold m2. rewrite write_out by lia. unfold m1. by rewrite write_out by lia.
Qed.

(** The state after the page [i] of the user pool has been taken, filled and given back. *)
Lemma give_back s tables upage pos n bs (t1 : fstate S) m1 tm i : space_ok m1 (l_pagedir s) tables →
  (∀ va, pte m1 tables va = pte (tmach (l_task s)) tables va) → 0 ≤ i < bit_cnt (used_map (user_pool m1)) →
  bit (used_map (user_pool m1)) i = true → user_same upage (upage + PGSIZE) (tmem (l_task s)) tm →
  flag (pte (tmach (l_task s)) tables upage) PTE_P = true ∨ Z.of_nat (length bs) < pos + n ∨ full (kernel_pool m1) →
  let s1 := LState t1 (Task m1 tm) (l_pagedir s) (l_mallocs s) (l_messages s) in
  ∃ s', (on_task (on_pages (palloc_free_page (page_at (user_pool m1) i)));; mret false) s1 = Ret (false, s') ∧
    l_files s' = t1 ∧ page_result false s s' tables upage pos n bs tables.
Proof.
  intros Hsp Hpte Hi Hbit Htm Hwhy s1. pose proof (sp_pd _ _ _ Hsp) as Hpd.
  destruct (user_free_spec m1 i (pd_palloc _ _ _ Hpd) Hi Hbit) as (m2 & Hrun & Hk & Hkp & Hb & Hc).
  eexists. split; [|split].
  - rewrite (bind_run _ _ _ _ _ (load_task_run _ s1 _ _ (on_pages_run _ (Task m1 tm) _ _ Hrun))). reflexivity.
  - done.
  - split; simpl; [done|by eapply kept_space| |done|].
    + intros va _. rewrite (kept_pte m1 m2 _ tables va Hpd Hk). apply Hpte.
    + destruct Hwhy as [|[|Hf]]; [by left|by right; left|right; right; right]. by rewrite Hkp.
Qed.

(** Installing the page that has been filled. *)
Lemma install_filled s tables upage pos n bs w (t1 : fstate S) m1 tm i : space_ok m1 (l_pagedir s) tables →
  (∀ va, pte m1 tables va = pte (tmach (l_task s)) tables va) → 0 ≤ i < bit_cnt (used_map (user_pool m1)) →
  bit (used_map (user_pool m1)) i = true → user_same upage (upage + PGSIZE) (tmem (l_task s)) tm →
  0 ≤ upage → pg_ofs upage = 0 → upage + PGSIZE ≤ PHYS_BASE → 0 ≤ n ≤ PGSIZE →
  page_at_va tm (page_at (user_pool m1) i) = page_image bs pos n → pos + n ≤ Z.max pos (Z.of_nat (length bs)) →
  let s1 := LState t1 (Task m1 tm) (l_pagedir s) (l_mallocs s) (l_messages s) in
  let kpage := page_at (user_pool m1) i in
  ∃ ok s' tables', (pd ← gets l_pagedir; ok ← on_task (on_pages (install_page pd upage kpage w));
      if negb ok then on_task (on_pages (palloc_free_page kpage));; mret false
      else on_task (alias_page upage kpage);; mret true) s1 = Ret (ok, s') ∧
    l_files s' = t1 ∧ page_result ok s s' tables upage pos n bs tables'.
Proof.
  intros Hsp Hpte Hi Hbit Htm Hup Hal Hend Hn Hpg Hlen s1 kpage.
  destruct (install_page_entries m1 (l_pagedir s) tables upage i w Hsp Hup Hal Hend Hi) as (ok & m2 & Hrun & Hres). fold kpage in Hrun, Hres, Hpg.
  rewrite (bind_run _ _ _ (l_pagedir s) s1) by done.
  rewrite (bind_run _ _ _ _ _ (load_task_run _ s1 _ _ (on_pages_run _ (Task m1 tm) _ _ Hrun))). cbn [l_files l_task l_pagedir l_mallocs l_messages tmem s1].
  destruct ok; cbn [negb].
  - destruct Hres as (Hfl & Hup2 & tables' & Hsp2 & Hout & Hval). rewrite Hpte in Hfl.
    exists true, (LState t1 (Task m2 (write upage (page_image bs pos n) tm)) (l_pagedir s) (l_mallocs s) (l_messages s)), tables'.
    split; [by rewrite <-Hpg|]. split; [done|]. split; cbn [l_task tmach tmem].
    + done.
    + done.
    + intros va Hva. by rewrite Hout.
    + apply (user_same_trans _ _ _ tm); [done|]. intros x Hx Hout'. apply write_out. unfold page_image.
      intros Hin. apply Hout'. rewrite length_app, length_fmap, length_take, length_replicate, length_drop in Hin. change PGSIZE with 4096 in *. lia.
    + split; [done|]. split; [done|]. split; [apply bytes_at_write|]. exists kpage. split; [|done].
      apply (user_page_range m1 _ _ i Hsp Hi).
  - destruct Hres as [-> Hwhy]. rewrite Hpte in Hwhy.
    destruct (give_back s tables upage pos n bs t1 m1 tm i) as (s' & Hgb & Hf & Hpr); try done; [tauto|].
    exists false, s', tables. split; [exact Hgb|done].
Qed.

Lemma load_page_spec s tables file inode pos deny bs upage n w :
  file_at (l_files s) file inode pos deny bs → space_ok (tmach (l_task s)) (l_pagedir s) tables →
  0 ≤ upage → pg_ofs upage = 0 → upage + PGSIZE ≤ PHYS_BASE → 0 ≤ n ≤ PGSIZE →
  ∃ ok s' tables' pos', load_page file upage n w s = Ret (ok, s') ∧ file_at (l_files s') file inode pos' deny bs ∧
    (ok = true → pos' = pos + n) ∧ page_result ok s s' tables upage pos n bs tables'.
Proof.
  intros Hfa Hsp Hup Hal Hend Hn. destruct s as [t [m tm] pd ml msg]. cbn [l_files l_task l_pagedir tmach tmem] in *.
  pose proof (sp_pd _ _ _ Hsp) as Hpd. unfold load_page.
  destruct (user_page_spec PAL_USER m (pd_palloc _ _ _ Hpd) eq_refl eq_refl) as [[Hnone Hfull]|(i & m1 & Hget & Hi & Hk & _ & Hb & Hc & Hbit)].
  { rewrite (bind_run _ _ _ _ _ (load_task_run _ (LState t (Task m tm) pd ml msg) _ _ (on_pages_run _ (Task m tm) _ _ Hnone))).
    exists false, (LState t (Task m tm) pd ml msg), tables, pos. split; [done|]. split; [done|]. split; [done|].
    split; [done|done|done|done|]. right; right; left. done. }
  rewrite (bind_run _ _ _ _ _ (load_task_run _ (LState t (Task m tm) pd ml msg) _ _ (on_pages_run _ (Task m tm) _ _ Hget))). cbn [l_files l_task l_pagedir l_mallocs l_messages tmem].
  pose proof (kept_space m m1 pd tables Hsp Hk Hb Hc) as Hsp1.
  assert (page_at (user_pool m) i = page_at (user_pool m1) i) as -> by (unfold page_at; by rewrite Hb). rewrite <-Hc in Hi.
  destruct (user_page_range m1 pd tables i Hsp1 Hi) as (Hk1 & _ & _ & _). set (kpage := page_at (user_pool m1) i) in *.
  rewrite (nonnull_true kpage) by (unfold NULL, PHYS_BASE in *; lia). cbn [negb].
  rewrite (bind_run _ _ _ () (LState t (Task m1 (write kpage (page_bytes (ram m1) kpage) tm)) pd ml msg)) by done.
  destruct (read_at t file inode pos deny bs n Hfa) as (t1 & Hread & Hfa1). set (data := take _ _) in *.
  rewrite (bind_run _ _ _ _ _ (load_files_run _ (LState t _ pd ml msg) _ _ Hread)). cbn [l_files l_task l_pagedir l_mallocs l_messages].
  assert (Z.of_nat (length data) ≤ n ∧ (Z.of_nat (length data) = n → pos + n ≤ Z.max pos (Z.of_nat (length bs))) ∧
    (Z.of_nat (length data) ≠ n → Z.of_nat (length bs) < pos + n)) as (Hdl & Hd1 & Hd2).
  { destruct (fo_inodes _ (fa_ok _ _ _ _ _ _ Hfa) file _ (fa_file _ _ _ _ _ _ Hfa)) as (_ & Hpos & _). cbn [f_pos] in Hpos.
    unfold data. rewrite length_take, length_drop. lia. }
  destruct (fill_page tm kpage (ram m1) data) as (m3 & Hst & Hms & Hpg & Hlow); [unfold PHYS_BASE in *; lia|lia|].
  rewrite (bind_run _ _ _ _ _ (load_task_run _ (LState t1 (Task m1 _) pd ml msg) _ _ (on_mem_run _ (Task m1 _) _ _ Hst))).
  cbn [l_files l_task l_pagedir l_mallocs l_messages tmach tmem].
  assert (∀ va, pte m1 tables va = pte m tables va) as Hpte1 by (intros va; by apply (kept_pte m m1 pd tables va)).
  destruct (Z.eqb_spec (Z.of_nat (length data)) n) as [Hlen|Hlen]; cbn [negb].
  - rewrite Hlen in Hms.
    rewrite (bind_run _ _ _ _ _ (load_task_run _ (LState t1 (Task m1 _) pd ml msg) _ _ (on_mem_run _ (Task m1 _) _ _ Hms))).
    cbn [l_files l_task l_pagedir l_mallocs l_messages tmach tmem].
    destruct (install_filled (LState t (Task m tm) pd ml msg) tables upage pos n bs w t1 m1 m3 i) as (ok & s' & tables' & Hrun & Hf & Hpr); try done.
    + intros x Hx _. apply Hlow. lia.
    + fold kpage. rewrite Hpg. unfold page_image. fold data. by rewrite Hlen.
    + by apply Hd1.
    + exists ok, s', tables', (pos + Z.of_nat (length data)). rewrite Hf. split; [exact Hrun|]. split; [done|]. split; [|done]. intros _. lia.
  - destruct (give_back (LState t (Task m tm) pd ml msg) tables upage pos n bs t1 m1 (write kpage (u8 <$> data) (write kpage (page_bytes (ram m1) kpage) tm)) i)
      as (s' & Hgb & Hf & Hpr); try done.
    + eapply user_same_trans; apply user_same_kernel; lia.
    + right; left. by apply Hd2.
    + exists false, s', tables, (pos + Z.of_nat (length data)). rewrite Hf. split; [exact Hgb|]. by split.
Qed.

(** ** Segments *)

(** The bytes of a segment: [read_bytes] bytes of the file from [pos] on, then zeros. *)
Definition segment_image (bs : bytes) (pos read_bytes zero_bytes : Z) : bytes :=
  (u8 <$> take (Z.to_nat read_bytes) (drop (Z.to_nat pos) bs)) ++ replicate (Z.to_nat zero_bytes) 0.

Lemma length_page_image bs pos n : 0 ≤ pos → 0 ≤ n ≤ PGSIZE → pos + n ≤ Z.max pos (Z.of_nat (length bs)) →
  Z.of_nat (length (page_image bs pos n)) = PGSIZE.
Proof.
  intros Hp Hn Hl. unfold page_image. rewrite length_app, length_fmap, length_take, length_drop, length_replicate.
  change PGSIZE with 4096 in *. lia.
Qed.

Lemma segment_image_step bs pos r z : 0 ≤ pos → 0 ≤ r → 0 ≤ z → PGSIZE ≤ r + z → let n := if r <? PGSIZE then r else PGSIZE in
  segment_image bs pos r z = page_image bs pos n ++ segment_image bs (pos + n) (r - n) (z - (PGSIZE - n)).
Proof.
  intros Hp Hr Hz Hs n. unfold segment_image, page_image, n. change PGSIZE with 4096 in *.
  destruct (Z.ltb_spec r 4096) as [Hlt|Hge].
  - rewrite Z.sub_diag. change (Z.to_nat 0) with 0%nat. rewrite take_0, fmap_nil, app_nil_l, <-app_assoc, <-replicate_add. do 2 f_equal. lia.
  - rewrite Z.sub_diag. change (replicate (Z.to_nat 0) 0) with (@nil Z). rewrite app_nil_r, Z.sub_0_r, app_assoc, <-fmap_app. do 2 f_equal.
    rewrite Z2Nat.inj_add, <-drop_drop, take_take_drop by lia. f_equal. lia.
Qed.

Record segment_result (ok : bool) s s' (tables : gmap Z Z) (upage len pos r z : Z) (bs : bytes) (tables' : gmap Z Z) : Prop := SegmentResult {
  sr_rest : same_rest s s';
  sr_space : space_ok (tmach (l_task s')) (l_pagedir s) tables';
  sr_others va : ¬ upage ≤ va < upage + len → pte (tmach (l_task s')) tables' va = pte (tmach (l_task s)) tables va;
  sr_memory : user_same upage (upage + len) (tmem (l_task s)) (tmem (l_task s'));
  sr_ok : if ok then
      (∀ va, upage ≤ va < upage + len → va mod PGSIZE = 0 → flag (pte (tmach (l_task s)) tables va) PTE_P = false) ∧
      pos + r ≤ Z.max pos (Z.of_nat (length bs)) ∧
      bytes_at (tmem (l_task s')) upage (segment_image bs pos r z) ∧
      ∀ va, upage ≤ va < upage + len → ∃ kp, PHYS_BASE ≤ kp ∧ value (pagedir_get_page (l_pagedir s) va (tmach (l_task s'))) = Ret kp
    else
      (∃ va, upage ≤ va < upage + len ∧ flag (pte (tmach (l_task s)) tables va) PTE_P = true) ∨ Z.of_nat (length bs) < pos + r ∨
      full (user_pool (tmach (l_task s'))) ∨ full (kernel_pool (tmach (l_task s')));
}.

(** The answer for an address whose entry has not changed. *)
Lemma get_page_same m m' pd tables tables' va : pd_ok m pd tables → pd_ok m' pd tables' → 0 ≤ va < PHYS_BASE →
  pte m' tables' va = pte m tables va → value (pagedir_get_page pd va m') = value (pagedir_get_page pd va m).
Proof.
  intros H1 H2 Hva E. assert (is_user_vaddr va = true) by (apply Z.ltb_lt; lia).
  rewrite (proj1 (pagedir_get_page_run m' pd tables' va H2 ltac:(lia) ltac:(done))), E.
  by rewrite (proj1 (pagedir_get_page_run m pd tables va H1 ltac:(lia) ltac:(done))).
Qed.

Lemma bytes_at_user_same lo hi m m' p bs : user_same lo hi m m' → p + Z.of_nat (length bs) ≤ PHYS_BASE → p + Z.of_nat (length bs) ≤ lo →
  bytes_at m p bs → bytes_at m' p bs.
Proof. intros Hs Hp Hlo Hb i b Hi. pose proof (lookup_lt_Some _ _ _ Hi). rewrite Hs by lia. by apply Hb. Qed.

(** A page followed by the rest of the segment. *)
Lemma segment_cons s s1 s2 tables tables1 tables2 ok upage len pos n r z bs : n = (if r <? PGSIZE then r else PGSIZE) →
  0 ≤ upage → pg_ofs upage = 0 → 0 ≤ pos → 0 ≤ r → 0 ≤ z → 0 ≤ len → PGSIZE ≤ r + z → upage + PGSIZE + len ≤ PHYS_BASE →
  page_result true s s1 tables upage pos n bs tables1 →
  segment_result ok s1 s2 tables1 (upage + PGSIZE) len (pos + n) (r - n) (z - (PGSIZE - n)) bs tables2 →
  segment_result ok s s2 tables upage (PGSIZE + len) pos r z bs tables2.
Proof.
  intros Hn Hup Hal Hpos Hr Hz Hlen Hrz Hend [(Er1 & Er2 & Er3) Hsp1 Ho1 Hm1 (Hf1 & Hl1 & Hb1 & kp & Hkp & Hv1)] [(Es1 & Es2 & Es3) Hsp2 Ho2 Hm2 Hok].
  rewrite Er1 in *. assert (0 ≤ n ≤ 4096) as Hnr by (subst n; change PGSIZE with 4096 in *; destruct (Z.ltb_spec r 4096); lia).
  pose proof (length_page_image bs pos n Hpos Hnr Hl1) as Hpl. change PGSIZE with 4096 in *. split.
  - split; [congruence|]. split; congruence.
  - done.
  - intros va Hva. rewrite Ho2 by lia. apply Ho1. lia.
  - intros x Hx Hout. rewrite Hm2 by lia. apply Hm1; lia.
  - destruct ok.
    + destruct Hok as (Hf2 & Hl2 & Hb2 & Hv2). split; [|split; [|split]].
      * intros va Hva Hal2. destruct (decide (va < upage + 4096)).
        -- destruct (same_page va upage Hal ltac:(change PGSIZE with 4096; lia)) as [_ E]. rewrite pg_ofs_mod in E. change PGSIZE with 4096 in *.
           replace va with upage by lia. done.
        -- rewrite <-Ho1 by lia. apply Hf2; [lia|done].
      * destruct (Z.ltb_spec r 4096); lia.
      * rewrite (segment_image_step bs pos r z) by (try done; change PGSIZE with 4096; lia). change PGSIZE with 4096. rewrite <-Hn.
        apply bytes_at_app. rewrite Hpl. split; [|done]. eapply bytes_at_user_same; [exact Hm2| |..|exact Hb1]; lia.
      * intros va Hva. destruct (decide (va < upage + 4096)); [|by apply Hv2; lia].
        exists (kp + (va - upage)). split; [lia|]. rewrite <-(Hv1 va) by lia.
        apply (get_page_same _ _ _ tables1 tables2); [apply Hsp1|apply Hsp2|lia|]. apply Ho2. lia.
    + destruct Hok as [(va & Hva & Hf)|[Hl|Hfull]]; [left|right; left|by right; right].
      * exists va. split; [lia|]. rewrite <-Ho1 by lia. done.
      * lia.
Qed.

(** A page that fails ends the segment. *)
Lemma segment_stop s s1 tables tables1 upage len pos n r z bs : n = (if r <? PGSIZE then r else PGSIZE) → 0 ≤ len →
  page_result false s s1 tables upage pos n bs tables1 → segment_result false s s1 tables upage (PGSIZE + len) pos r z bs tables1.
Proof.
  intros Hn Hlen [Hr Hsp Ho Hm Hok]. change PGSIZE with 4096 in *. split.
  - done.
  - done.
  - intros va Hva. apply Ho. change PGSIZE with 4096. lia.
  - intros x Hx Hout. apply Hm; [done|lia].
  - destruct Hok as [Hf|[Hl|Hfull]]; [left; exists upage; split; [lia|done]|right; left|by right; right].
    destruct (Z.ltb_spec r 4096); lia.
Qed.

Lemma load_pages_spec file inode deny bs w pages : ∀ fuel s tables upage pos r z,
  file_at (l_files s) file inode pos deny bs → space_ok (tmach (l_task s)) (l_pagedir s) tables →
  0 ≤ upage → pg_ofs upage = 0 → upage + PGSIZE * Z.of_nat pages ≤ PHYS_BASE → 0 ≤ r → 0 ≤ z →
  r + z = PGSIZE * Z.of_nat pages → (pages < fuel)%nat →
  ∃ ok s' tables' pos', load_pages fuel file upage r z w s = Ret (ok, s') ∧ file_at (l_files s') file inode pos' deny bs ∧
    segment_result ok s s' tables upage (PGSIZE * Z.of_nat pages) pos r z bs tables'.
Proof.
  induction pages as [|pages IH]; intros [|fuel] s tables upage pos r z Hfa Hsp Hup Hal Hend Hr Hz Hrz Hfuel; [lia| |lia|];
    cbn [load_pages]; change PGSIZE with 4096 in *.
  - rewrite !(proj2 (Z.ltb_ge _ _)) by lia. cbn [orb]. exists true, s, tables, pos. split; [done|]. split; [done|].
    assert (r = 0 ∧ z = 0) as [-> ->] by lia. split; [done|done|done|done|]. split; [lia|]. split; [lia|]. split; [|lia].
    intros i b Hi. change (segment_image bs pos 0 0) with (@nil Z) in Hi. by rewrite lookup_nil in Hi.
  - assert ((0 <? r) || (0 <? z) = true) as ->.
    { apply orb_true_iff. destruct (Z.ltb_spec 0 r); [by left|right]. apply Z.ltb_lt. lia. }
    set (n := if r <? 4096 then r else 4096). assert (0 ≤ n ≤ 4096 ∧ n ≤ r ∧ 4096 - n ≤ z) as (Hn & Hnr & Hnz).
    { unfold n. destruct (Z.ltb_spec r 4096); lia. }
    assert (0 ≤ pos) as Hpos.
    { destruct (fo_inodes _ (fa_ok _ _ _ _ _ _ Hfa) file _ (fa_file _ _ _ _ _ _ Hfa)) as (_ & Hp & _). cbn [f_pos] in Hp. lia. }
    destruct (load_page_spec s tables file inode pos deny bs upage n w) as (ok & s1 & tables1 & pos1 & Hrun & Hfa1 & Hp1 & Hpr);
      try done; [change PGSIZE with 4096; lia|].
    rewrite (bind_run _ _ _ _ _ Hrun). destruct ok; cbn [negb].
    + specialize (Hp1 eq_refl). subst pos1. unfold PHYS_BASE in Hend.
      rewrite (wrap_small 32 (upage + 4096)), (wrap_small 32 (r - n)), (wrap_small 32 (z - (4096 - n))) by (unfold fits; lia).
      pose proof (pr_rest _ _ _ _ _ _ _ _ _ Hpr) as (Epd & _).
      destruct (IH fuel s1 tables1 (upage + 4096) (pos + n) (r - n) (z - (4096 - n))) as (ok & s2 & tables2 & pos2 & Hrun2 & Hfa2 & Hsr);
        try (done || lia).
      * rewrite Epd. apply Hpr.
      * rewrite pg_ofs_mod in *. change PGSIZE with 4096 in *. by rewrite <-Z.add_mod_idemp_r, Z.mod_same, Z.add_0_r by lia.
      * unfold PHYS_BASE. lia.
      * exists ok, s2, tables2, pos2. split; [done|]. split; [done|].
        replace (4096 * Z.of_nat (Datatypes.S pages)) with (PGSIZE + 4096 * Z.of_nat pages) by (change PGSIZE with 4096; lia).
        eapply (segment_cons s s1 s2 tables tables1 tables2 ok upage); try done; change PGSIZE with 4096; unfold PHYS_BASE; lia.
    + exists false, s1, tables1, pos1. split; [done|]. split; [done|].
      replace (4096 * Z.of_nat (Datatypes.S pages)) with (PGSIZE + 4096 * Z.of_nat pages) by (change PGSIZE with 4096; lia).
      apply (segment_stop s s1 tables tables1 upage _ pos n); [done|lia|done].
Qed.

Lemma seek_at t p inode pos deny bs new_pos : file_at t p inode pos deny bs → 0 ≤ new_pos < 2 ^ 31 →
  ∃ t', file_seek p new_pos t = Ret ((), t') ∧ file_at t' p inode new_pos deny bs.
Proof.
  intros [Hok Hf Hb] Hn. eexists. split.
  - unfold file_seek. run_by ltac:(apply assert_run; by eapply file_nonnull). run_by ltac:(apply assert_run, Z.leb_le; lia).
    rewrite (bind_run _ _ _ _ _ (ld_file_run _ _ _ Hf)). reflexivity.
  - split; [|apply lookup_insert_eq|done].
    apply (set_pos_ok t p (File inode pos deny)); try done. eauto.
Qed.

Lemma length_at t p inode pos deny bs : file_at t p inode pos deny bs → file_length p t = Ret (Z.of_nat (length bs), t).
Proof.
  intros [Hok Hf Hb]. unfold file_length. run_by ltac:(apply assert_run; by eapply file_nonnull).
  rewrite (bind_run _ _ _ _ _ (ld_file_run _ _ _ Hf)). cbn [f_inode]. rewrite (on_inodes_run _ _ _ _ (inode_length_law _ _ _ Hb)). by destruct t.
Qed.

Lemma load_segment_spec s tables file inode pos deny bs ofs upage r z w :
  file_at (l_files s) file inode pos deny bs → space_ok (tmach (l_task s)) (l_pagedir s) tables →
  segment_asserts ofs upage r z = true → 0 ≤ ofs < 2 ^ 31 → 0 ≤ upage → 0 ≤ r → 0 ≤ z → upage + (r + z) ≤ PHYS_BASE →
  ∃ ok s' tables' pos', load_segment file ofs upage r z w s = Ret (ok, s') ∧ file_at (l_files s') file inode pos' deny bs ∧
    segment_result ok s s' tables upage (r + z) ofs r z bs tables'.
Proof.
  intros Hfa Hsp Has Hofs Hup Hr Hz Hend. unfold load_segment. rewrite (bind_run _ _ _ _ _ (assert_run _ _ Has)).
  apply andb_true_iff in Has as [[Hm%Z.eqb_eq Hal%Z.eqb_eq]%andb_true_iff _]. unfold PHYS_BASE in Hend.
  rewrite wrap_small in Hm by (unfold fits; lia). change PGSIZE with 4096 in *.
  assert (r + z = 4096 * Z.of_nat (Z.to_nat ((r + z) / 4096))) as Epages.
  { rewrite Z2Nat.id by (apply Z.div_pos; lia). pose proof (Z.div_mod (r + z) 4096 ltac:(lia)). lia. }
  destruct (seek_at (l_files s) file inode pos deny bs ofs Hfa Hofs) as (t1 & Hseek & Hfa1).
  rewrite (bind_run _ _ _ _ _ (load_files_run _ s _ _ Hseek)).
  destruct (load_pages_spec file inode deny bs w (Z.to_nat ((r + z) / 4096)) (Datatypes.S (Z.to_nat ((r + z) / 4096)))
    (LState t1 (l_task s) (l_pagedir s) (l_mallocs s) (l_messages s)) tables upage ofs r z) as (ok & s' & tables' & pos' & Hrun & Hfa' & [R1 R2 R3 R4 R5]);
    try done; change PGSIZE with 4096; [rewrite <-Epages; unfold PHYS_BASE; lia|lia|].
  exists ok, s', tables', pos'. split; [done|]. split; [done|]. change PGSIZE with 4096 in *. rewrite <-Epages in *. by split.
Qed.

(** ** Program headers *)

Lemma half_range bs i : 0 ≤ half bs i < 65536.
Proof. unfold half. pose proof (wrap_fits 8 (default 0 (bs !! i)) ltac:(lia)). pose proof (wrap_fits 8 (default 0 (bs !! (i + 1)%nat)) ltac:(lia)). unfold fits in *. lia. Qed.
Lemma full_word_fits bs i : fits 32 (full_word bs i).
Proof. unfold full_word, fits. pose proof (half_range bs i). pose proof (half_range bs (i + 2)). lia. Qed.
Lemma phdr_of_fits bs : phdr_fits (phdr_of bs).
Proof. split_and!; apply full_word_fits. Qed.

(** A state in which segments can be loaded. *)
Definition loading (s : lstate S) (file inode : Z) (deny : bool) (bs : bytes) : Prop :=
  (∃ pos, file_at (l_files s) file inode pos deny bs) ∧ ∃ tables, space_ok (tmach (l_task s)) (l_pagedir s) tables.

Lemma loading_length s file inode deny bs : loading s file inode deny bs → Z.of_nat (length bs) < 2 ^ 31.
Proof.
  intros [[pos [Hok Hf Hb]] _]. destruct (fo_inodes _ Hok file _ Hf) as (_ & _ & bs' & Hb' & Hl). cbn [f_inode] in *. by simplify_eq.
Qed.

Lemma load_phdr_total s file inode deny bs h : loading s file inode deny bs → phdr_fits h →
  ∃ ok s', load_phdr file h s = Ret (ok, s') ∧ loading s' file inode deny bs.
Proof.
  intros Hld Hfit. pose proof (loading_length _ _ _ _ _ Hld) as Hlen. pose proof Hld as [[pos Hfa] [tables Hsp]]. unfold load_phdr.
  destruct (_ || _); [by exists false, s|]. destruct (_ =? PT_LOAD); [|by exists true, s].
  rewrite (bind_run _ _ _ (Z.of_nat (length bs)) s).
  2: { rewrite (load_files_run _ s _ _ (length_at _ _ _ _ _ _ Hfa)). by destruct s. }
  destruct (validate_segment h (Z.of_nat (length bs))) eqn:Hv; [|by exists false, s].
  destruct (segment_args_spec h (Z.of_nat (length bs)) Hfit ltac:(lia) Hv) as (ofs & upage & rd & zr & w & -> & Has & Hofs & _ & Hlo & Hhi & Hle & _ & Hz & Hrd).
  assert (s32 ofs = ofs) as -> by (apply swrap_small; lia).
  destruct (load_segment_spec s tables file inode pos deny bs ofs upage rd zr w) as (ok & s' & tables' & pos' & Hrun & Hfa' & Hres); try done.
  - lia.
  - change PGSIZE with 4096 in *. lia.
  - destruct Hfit as (_ & _ & Hf & _). unfold fits in Hf. destruct (p_filesz h =? 0); lia.
  - exists ok, s'. split; [done|]. split; [by eexists|]. exists tables'. destruct Hres as [(-> & _) ? _ _ _]. done.
Qed.

Lemma load_phdrs_total file inode deny bs n : ∀ s ofs, loading s file inode deny bs → -2 ^ 31 ≤ ofs < 2 ^ 31 →
  ∃ ok s', load_phdrs n file ofs s = Ret (ok, s') ∧ loading s' file inode deny bs.
Proof.
  induction n as [|n IH]; intros s ofs Hld Hofs; cbn [load_phdrs]; [by exists true, s|].
  pose proof (loading_length _ _ _ _ _ Hld) as Hlen. pose proof Hld as [[pos Hfa] Hsp].
  rewrite (bind_run _ _ _ (Z.of_nat (length bs)) s).
  2: { rewrite (load_files_run _ s _ _ (length_at _ _ _ _ _ _ Hfa)). by destruct s. }
  destruct ((ofs <? 0) || (Z.of_nat (length bs) <? ofs)) eqn:E; [by exists false, s|].
  apply orb_false_iff in E as [E1%Z.ltb_ge E2%Z.ltb_ge].
  destruct (seek_at (l_files s) file inode pos deny bs ofs Hfa ltac:(lia)) as (t1 & Hseek & Hfa1). rewrite (bind_run _ _ _ _ _ (load_files_run _ s _ _ Hseek)).
  destruct (read_at t1 file inode ofs deny bs PHDR_SIZE Hfa1) as (t2 & Hread & Hfa2).
  rewrite (bind_run _ _ _ _ _ (load_files_run _ (LState t1 _ _ _ _) _ _ Hread)). cbn [l_task l_pagedir l_mallocs l_messages].
  set (s2 := LState t2 (l_task s) (l_pagedir s) (l_mallocs s) (l_messages s)).
  assert (loading s2 file inode deny bs) as Hld2 by (split; [by eexists|done]).
  destruct (negb _); [by exists false, s2|].
  destruct (load_phdr_total s2 file inode deny bs (phdr_of (take (Z.to_nat PHDR_SIZE) (drop (Z.to_nat ofs) bs))) Hld2 (phdr_of_fits _)) as (ok & s3 & Hrun & Hld3).
  rewrite (bind_run _ _ _ _ _ Hrun). destruct ok; cbn [negb]; [|by exists false, s3].
  apply IH; [done|]. apply (swrap_range 32). lia.
Qed.
End proofs.

(** C5: [load_segment] does what its comment says.  For a range of user pages that the assertions and
    [validate_segment] allow, it always returns.  On success none of the pages was mapped
    before, each is mapped to memory of the kernel afterwards, the file was long enough, and the
    user finds [read_bytes] bytes of the file from [ofs] on followed by [zero_bytes] zeros; it
    fails only when a page was mapped already, the file is too short or a pool has run out of
    pages.  In both cases the directory stays well formed, and no entry and no byte of the user
    outside the range has changed. *)
Theorem load_segment_correct {S} `{InodeLayer S} (s : lstate S) tables file inode pos deny bs ofs upage read_bytes zero_bytes writable :
  file_at (l_files s) file inode pos deny bs → space_ok (tmach (l_task s)) (l_pagedir s) tables →
  segment_asserts ofs upage read_bytes zero_bytes = true → 0 ≤ ofs < 2 ^ 31 → 0 ≤ upage → 0 ≤ read_bytes → 0 ≤ zero_bytes →
  upage + (read_bytes + zero_bytes) ≤ PHYS_BASE →
  ∃ ok s' tables', load_segment file ofs upage read_bytes zero_bytes writable s = Ret (ok, s') ∧
    space_ok (tmach (l_task s')) (l_pagedir s) tables' ∧
    (∀ va, ¬ upage ≤ va < upage + (read_bytes + zero_bytes) → pte (tmach (l_task s')) tables' va = pte (tmach (l_task s)) tables va) ∧
    (∀ x, x < PHYS_BASE → ¬ upage ≤ x < upage + (read_bytes + zero_bytes) → tmem (l_task s') !! x = tmem (l_task s) !! x) ∧
    if ok then
      (∀ va, upage ≤ va < upage + (read_bytes + zero_bytes) → va mod PGSIZE = 0 → flag (pte (tmach (l_task s)) tables va) PTE_P = false) ∧
      ofs + read_bytes ≤ Z.max ofs (Z.of_nat (length bs)) ∧
      bytes_at (tmem (l_task s')) upage
        ((u8 <$> take (Z.to_nat read_bytes) (drop (Z.to_nat ofs) bs)) ++ replicate (Z.to_nat zero_bytes) 0) ∧
      ∀ va, upage ≤ va < upage + (read_bytes + zero_bytes) →
        ∃ kp, PHYS_BASE ≤ kp ∧ value (pagedir_get_page (l_pagedir s) va (tmach (l_task s'))) = Ret kp
    else
      (∃ va, upage ≤ va < upage + (read_bytes + zero_bytes) ∧ flag (pte (tmach (l_task s)) tables va) PTE_P = true) ∨
      Z.of_nat (length bs) < ofs + read_bytes ∨
      full (user_pool (tmach (l_task s'))) ∨ full (kernel_pool (tmach (l_task s'))).
Proof.
  intros Hfa Hsp Has Ho Hu Hr Hz He.
  destruct (load_segment_spec s tables file inode pos deny bs ofs upage read_bytes zero_bytes writable Hfa Hsp Has Ho Hu Hr Hz He)
    as (ok & s' & tables' & pos' & Hrun & _ & [_ R2 R3 R4 R5]).
  exists ok, s', tables'. split; [exact Hrun|]. split; [exact R2|]. split; [exact R3|]. split; [exact R4|exact R5].
Qed.

(** C15: No executable crashes the loader: whatever a file contains, and wherever its program headers
    are said to be, [load] gets through them without a failed assertion or a fault; the file
    stays open and intact, and the page directory well formed. *)
Theorem load_headers_safe {S} `{InodeLayer S} (s : lstate S) file inode deny bs phnum phoff :
  loading s file inode deny bs → fits 32 phoff →
  ∃ ok s', load_phdrs phnum file (s32 phoff) s = Ret (ok, s') ∧ loading s' file inode deny bs.
Proof. intros Hld _. apply load_phdrs_total; [done|]. by apply (swrap_range 32). Qed.

(** *** A process with an empty directory *)

Definition empty_machine : machine :=
  Machine (Pool (Bitmap 8 [0x03]) 0xc0101000) (Pool (Bitmap 8 [0x01]) 0xc0200000) ∅ 1024 0xc0101000 0x102000.
Definition new_process : lstate ram_fs := LState two_files (Task empty_machine ∅) 0xc0102000 [] [].

Lemma empty_machine_ok : space_ok empty_machine 0xc0102000 ∅.
Proof.
  split.
  - split.
    + split; [split; [split; [done|done|]|..]..|]; try done; repeat constructor; done.
    + done.
    + exists 1. done.
    + intros i pt Hi. by rewrite lookup_empty in Hi.
    + intros i j pt Hi. by rewrite lookup_empty in Hi.
    + intros i Hi. rewrite lookup_empty. done.
  - done.
  - done.
  - intros va Hva. unfold pte. rewrite lookup_empty. done.
Qed.

Lemma new_process_file : file_at (l_files new_process) 100 8 0 false (of_string "0123456789").
Proof. split; [exact two_files_ok|done|done]. Qed.

Lemma load_segment_correct_witness :
  ∃ s', load_segment 100 0 0x08048000 10 4086 true new_process = Ret (true, s') ∧
    bytes_at (tmem (l_task s')) 0x08048000 (of_string "0123456789" ++ replicate 4086 0).
Proof.
  destruct (load_segment_correct new_process ∅ 100 8 0 false (of_string "0123456789") 0 0x08048000 10 4086 true)
    as (ok & s' & tables' & Hrun & _ & _ & _ & Hok); [exact new_process_file|exact empty_machine_ok|done..|].
  assert ((if load_segment 100 0 0x08048000 10 4086 true new_process is Ret (true, _) then true else false) = true) as E
    by (vm_compute; reflexivity).
  rewrite Hrun in E. destruct ok; [|discriminate E]. exists s'. split; [exact Hrun|]. apply Hok.
Defined.

Lemma load_headers_safe_witness : ∃ ok s', load_phdrs 2 100 (s32 0xffffffff) new_process = Ret (ok, s').
Proof.
  destruct (load_headers_safe new_process 100 8 false (of_string "0123456789") 2 0xffffffff) as (ok & s' & Hrun & _).
  - split; [exists 0; exact new_process_file|exists ∅; exact empty_machine_ok].
  - done.
  - exists ok, s'. exact Hrun.
Defined.
