(* ===== verification/Exception.v ===== *)
(** * Exceptions: src/src/userprog/exception.c

    The handlers run for the process that was interrupted; its state is that of Syscall.v, since
    they may end it.  [frame] has the members of [struct intr_frame] that they read.  The texts
    they print with [printf] and [intr_dump_frame] are arguments. *)
From S2P Require Import Prelude KList CString Bitmap Palloc Pagedir Loader Descriptors Directory File Filesys Syscall.

Record intr_frame := Frame { vec_no : Z; error_code : Z; cs : Z }.

Definition PF_P : Z := 1.
Definition PF_W : Z := 2.
Definition PF_U : Z := 4.

Section exception.
Context {S : Type} `{InodeLayer S}.
Context (dying dump unknown : intr_frame → bytes) (fault_text allocating : Z → bytes).
Abbreviation X := (SC S).

(** [thread_exit]: the thread ends with the exit status it has. *)
Definition exit_thread {A} : X A := process_exit;; status ← get p_exit; stop status.

Definition kill (f : intr_frame) : X () :=
  if cs f =? SEL_UCSEG then
    upd (show (dying f));;
    upd (show (dump f));;
    exit (-1)
  else if cs f =? SEL_KCSEG then
    upd (show (dump f));;
    fail Panic
  else
    upd (show (unknown f));;
    exit_thread.

(** [fault_addr - ((int) fault_addr % PGSIZE)], with the remainder of C. *)
Definition fault_page (fault_addr : Z) : Z := u32 (fault_addr - Z.rem (s32 fault_addr) PGSIZE).

(** [fault_addr] is the value of the register CR2. *)
Definition page_fault (f : intr_frame) (fault_addr : Z) : X () :=
  let not_present := negb (flag (error_code f) PF_P) in
  let write := flag (error_code f) PF_W in
  let user := flag (error_code f) PF_U in
  upd (show (fault_text fault_addr));;
  if not_present && write && user then
    upd (show (of_string "Allocating new page..." ++ [10]));;
    page ← on_task (on_pages (palloc_get_page PAL_USER));
    if nonnull page then
      upd (show (allocating (fault_page fault_addr)));;
      pd ← get p_pd;
      success ← on_task (on_pages (pagedir_set_page pd (fault_page fault_addr) page true));
      if (success : bool) then on_task (add_page (fault_page fault_addr) page)
      else
        upd (show (of_string "Allocation failed!" ++ [10]));;
        on_task (on_pages (palloc_free_page page));;
        kill f
    else mret ()
  else kill f.
End exception.
