(* ===== verification/ExceptionProofs.v ===== *)
(** * Page faults: when they give a process memory, and when they panic *)
From S2P Require Import Prelude KList CString CStringProofs Bitmap Palloc Pagedir Loader LoaderProofs Descriptors Directory DirectoryProofs File FileProofs Filesys FilesysProofs Elf ElfProofs Syscall SyscallProofs Exception.

(** Below [2^31] the handler finds the page of the address; above it the remainder is negative,
    and an address inside a page is taken to the page after it. *)
Lemma fault_page_low a : 0 ≤ a < 2 ^ 31 → fault_page a = a - a mod PGSIZE.
Proof.
  intros Ha. unfold fault_page. rewrite swrap_small by lia. rewrite Z.rem_mod_nonneg by (done || lia).
  pose proof (Z.mod_pos_bound a PGSIZE ltac:(done)). pose proof (Z.mod_le a PGSIZE ltac:(lia) ltac:(done)).
  rewrite wrap_small; [done|]. unfold fits. lia.
Qed.

Lemma fault_page_high a : 2 ^ 31 ≤ a ≤ 2 ^ 32 - PGSIZE → a mod PGSIZE ≠ 0 → fault_page a = a - a mod PGSIZE + PGSIZE.
Proof.
  change PGSIZE with 4096. intros Ha Hm. unfold fault_page. change PGSIZE with 4096.
  assert (s32 a = a - 2 ^ 32) as ->.
  { unfold swrap, wrap. rewrite Z.mod_small by lia. change (32 - 1) with 31. rewrite (proj2 (Z.ltb_ge _ _)) by lia. done. }
  replace (a - 2 ^ 32) with (- (2 ^ 32 - a)) by lia. rewrite Z.rem_opp_l by lia. rewrite Z.rem_mod_nonneg by lia.
  pose proof (Z.div_mod a 4096 ltac:(lia)). pose proof (Z.mod_pos_bound a 4096 ltac:(lia)).
  assert ((2 ^ 32 - a) mod 4096 = 4096 - a mod 4096) as ->.
  { symmetry. apply Z.mod_unique_pos with (2 ^ 20 - a / 4096 - 1); lia. }
  rewrite wrap_small; [lia|]. unfold fits. assert (a ≠ 2 ^ 32 - 4096) by (intros ->; done). lia.
Qed.

Lemma page_of_fault a : 0 ≤ a → pg_ofs (a - a mod PGSIZE) = 0 ∧ pg_ofs (a - a mod PGSIZE + PGSIZE) = 0.
Proof.
  intros Ha. rewrite !pg_ofs_mod. change PGSIZE with 4096. pose proof (Z.div_mod a 4096 ltac:(lia)).
  replace (a - a mod 4096) with (a / 4096 * 4096) by lia. replace (a / 4096 * 4096 + 4096) with ((a / 4096 + 1) * 4096) by lia.
  by rewrite !Z.mod_mul by lia.
Qed.

(** Mapping a page that is mapped already. *)
Lemma set_page_present m pd tables upage kpage writable : pd_ok m pd tables → 0 ≤ upage → pg_ofs upage = 0 → is_user_vaddr upage = true →
  pd ≠ init_page_dir m → flag (pte m tables upage) PTE_P = true → PHYS_BASE ≤ kpage → kpage + PGSIZE ≤ 2 ^ 32 → pg_ofs kpage = 0 →
  Z.shiftr (kpage - PHYS_BASE) PTSHIFT < init_ram_pages m → pagedir_set_page pd upage kpage writable m = Panic.
Proof.
  intros Hpd Hva Hal Hu Hinit Hp Hk Hk2 Hka Hram. unfold pagedir_set_page.
  run_by ltac:(apply assert_run; by rewrite Hal). run_by ltac:(apply assert_run; by rewrite Hka).
  run_by ltac:(by apply assert_run). run_by ltac:(rewrite vtop_kernel by lia; done). run_by ltac:(done).
  run_by ltac:(apply assert_run, Z.ltb_lt; done). run_by ltac:(done).
  run_by ltac:(apply assert_run, negb_true_iff, Z.eqb_neq; done).
  unfold pte in Hp. destruct (tables !! pd_no upage) as [pt|] eqn:Ht; [|done].
  erewrite bind_run; [|by eapply lookup_page_table]. rewrite (entry_nonnull m pd tables upage pt Hpd Ht).
  run_by ltac:(done). unfold mbind at 1, ST_bind at 1, ASSERT. unfold flag in Hp. apply negb_true_iff in Hp. by rewrite Hp.
Qed.

Section proofs.
Context {S : Type} `{InodeLayer S}.
Context (dying dump unknown : intr_frame → bytes) (fault_text allocating : Z → bytes).
Abbreviation page_fault := (page_fault dying dump unknown fault_text allocating).
Implicit Types w : proc S.

(** A write of the program to a page that is not present. *)
Definition user_write (f : intr_frame) : Prop :=
  flag (error_code f) PF_P = false ∧ flag (error_code f) PF_W = true ∧ flag (error_code f) PF_U = true.

(** The state of the machine when the new page is to be mapped. *)
Lemma page_fault_start f a w tables : user_write f → space_ok (tmach (p_task w)) (p_pd w) tables → ¬ full (user_pool (tmach (p_task w))) →
  ∃ i m1, 0 ≤ i < bit_cnt (used_map (user_pool m1)) ∧ space_ok m1 (p_pd w) tables ∧ kernel_pool m1 = kernel_pool (tmach (p_task w)) ∧
    (∀ va, pte m1 tables va = pte (tmach (p_task w)) tables va) ∧
    page_fault f a w = (
      upd (show (allocating (fault_page a)));;
      pd ← get p_pd;
      success ← on_task (on_pages (pagedir_set_page pd (fault_page a) (page_at (user_pool m1) i) true));
      if (success : bool) then on_task (add_page (fault_page a) (page_at (user_pool m1) i))
      else
        upd (show (of_string "Allocation failed!" ++ [10]));;
        on_task (on_pages (palloc_free_page (page_at (user_pool m1) i)));;
        kill dying dump unknown f)
      (set_p_task (Task m1 (tmem (p_task w))) (show (of_string "Allocating new page..." ++ [10]) (show (fault_text a) w))).
Proof.
  intros (Hp & Hw & Hu) Hsp Hnf. pose proof (sp_pd _ _ _ Hsp) as Hpd. set (m := tmach (p_task w)) in *.
  destruct (user_page_spec PAL_USER m (pd_palloc _ _ _ Hpd) eq_refl eq_refl) as [[_ Hfull]|(i & m1 & Hget & Hi & Hk & Hkp & Hb & Hc & _)]; [done|].
  assert (page_at (user_pool m) i = page_at (user_pool m1) i) as Epage by (unfold page_at; by rewrite Hb).
  pose proof (kept_space m m1 _ tables Hsp Hk Hb Hc) as Hsp1. exists i, m1. rewrite Hc. split; [done|]. split; [done|]. split; [done|].
  split; [intros va; by apply (kept_pte m m1 (p_pd w) tables va)|].
  unfold Exception.page_fault. rewrite Hp, Hw, Hu. cbn [negb andb].
  erewrite sc_bind_run; [|reflexivity]. erewrite sc_bind_run; [|reflexivity].
  erewrite sc_bind_run; [|apply on_task_run; apply on_pages_run; exact Hget].
  destruct (user_page_range m1 _ tables i Hsp1 ltac:(by rewrite Hc)) as (Hk1 & _). rewrite Epage, nonnull_true by (unfold NULL, PHYS_BASE in *; lia).
  reflexivity.
Qed.

(** Without a page in the user pool. *)
Lemma page_fault_no_memory f a w tables : user_write f → space_ok (tmach (p_task w)) (p_pd w) tables → full (user_pool (tmach (p_task w))) →
  ∃ w', page_fault f a w = Ret (inr (), w') ∧ p_task w' = p_task w.
Proof.
  intros (Hp & Hw & Hu) Hsp Hf. pose proof (sp_pd _ _ _ Hsp) as Hpd. set (m := tmach (p_task w)) in *.
  assert (palloc_get_page PAL_USER m = Ret (NULL, m)) as Hget.
  { destruct (palloc_get_multiple_spec PAL_USER 1 m (pd_palloc _ _ _ Hpd) ltac:(done) eq_refl) as (r & m' & Hrun & Hres).
    unfold palloc_get_page. rewrite Hrun. destruct Hres as [Hno|i b r Hi Hin Hg _ _ _]; [done|].
    specialize (Hf i ltac:(simpl in *; lia)). specialize (Hg i ltac:(lia)). simpl in *. congruence. }
  unfold Exception.page_fault. rewrite Hp, Hw, Hu. cbn [negb andb].
  erewrite sc_bind_run; [|reflexivity]. erewrite sc_bind_run; [|reflexivity].
  erewrite sc_bind_run; [|apply on_task_run; apply on_pages_run; exact Hget]. eexists. split; [reflexivity|].
  unfold m. cbn. by destruct (p_task w).
Qed.
End proofs.

(** C21: What the handler does with a write of the program to a page below [2^31] that it does
    not have.  When both pools have a free page, it maps a new page there, so that every address
    of the page of the fault can be used afterwards, and changes no other mapping.  When the
    user pool has none, it returns and the memory and its mapping are as before, so that the
    instruction faults again.  The address is not checked: page 0 is given to the process as any
    other, where the test bad-write expects that a write to a null pointer ends it. *)
Theorem page_fault_gives_page {S} `{InodeLayer S} dying dump unknown fault_text allocating f a (w : proc S) tables :
  user_write f → space_ok (tmach (p_task w)) (p_pd w) tables → 0 ≤ a < 2 ^ 31 →
  flag (pte (tmach (p_task w)) tables a) PTE_P = false →
  (full (user_pool (tmach (p_task w))) →
   ∃ w', page_fault dying dump unknown fault_text allocating f a w = Ret (inr (), w') ∧ p_task w' = p_task w) ∧
  (¬ full (user_pool (tmach (p_task w))) → ¬ full (kernel_pool (tmach (p_task w))) →
   ∃ w' kpage, page_fault dying dump unknown fault_text allocating f a w = Ret (inr (), w') ∧ PHYS_BASE ≤ kpage ∧
    (∀ va, a - a mod PGSIZE ≤ va < a - a mod PGSIZE + PGSIZE →
       value (pagedir_get_page (p_pd w) va (tmach (p_task w'))) = Ret (kpage + (va - (a - a mod PGSIZE))) ∧
       is_Some (tmem (p_task w') !! va)) ∧
    ∀ va, 0 ≤ va < PHYS_BASE → ¬ (a - a mod PGSIZE ≤ va < a - a mod PGSIZE + PGSIZE) →
      value (pagedir_get_page (p_pd w) va (tmach (p_task w'))) = value (pagedir_get_page (p_pd w) va (tmach (p_task w)))).
Proof.
  intros Hf Hsp Ha Hnp. split; [by apply page_fault_no_memory with tables|]. intros Hnu Hnk.
  destruct (page_fault_start dying dump unknown fault_text allocating f a w tables Hf Hsp Hnu) as (i & m1 & Hi & Hsp1 & Hkp & Hpte & ->).
  rewrite fault_page_low by done. set (upage := a - a mod PGSIZE).
  destruct (page_of_fault a ltac:(lia)) as [Hal _]. fold upage in Hal.
  pose proof (Z.mod_pos_bound a PGSIZE ltac:(done)) as Hmb. pose proof (Z.mod_le a PGSIZE ltac:(lia) ltac:(done)).
  assert (0 ≤ upage ∧ upage ≤ a < upage + PGSIZE) as [Hup Hin] by (unfold upage; lia).
  destruct (user_page_range m1 _ tables i Hsp1 Hi) as (Hk1 & Hk2 & Hk3 & Hk4). set (kpage := page_at (user_pool m1) i) in *.
  assert (∀ m va, upage ≤ va < upage + PGSIZE → pte m tables va = pte m tables upage) as Hsame.
  { intros m va Hva. destruct (same_page va upage Hal Hva) as [[E1 E2]%page_indices _]. unfold pte. by rewrite E1, E2. }
  change PGSIZE with 4096 in *. unfold PHYS_BASE in Hk1.
  destruct (pagedir_set_page_entries m1 (p_pd w) tables upage kpage true) as (ok & m2 & Hrun & Hres); try (done || apply Hsp1).
  { apply Z.ltb_lt. unfold PHYS_BASE. lia. }
  { rewrite Hpte, <-Hsame with (va := a) by lia. done. }
  erewrite sc_bind_run; [|reflexivity]. erewrite sc_bind_run; [|reflexivity].
  erewrite sc_bind_run; [|apply on_task_run; apply on_pages_run; exact Hrun].
  destruct ok; [|destruct Hres as [_ Hfull]; by rewrite Hkp in Hfull].
  destruct Hres as (tables' & e & Hpd2 & _ & _ & Hpte2 & Htr).
  eexists _, kpage. split; [reflexivity|]. cbn [p_task set_p_task tmach tmem show]. split; [done|].
  assert (∀ va, 0 ≤ va < PHYS_BASE → is_user_vaddr va = true) as Hus by (intros va ?; apply Z.ltb_lt; lia). split.
  - intros va Hva. split.
    + rewrite (proj1 (pagedir_get_page_run _ _ _ va Hpd2 ltac:(lia) (Hus va ltac:(unfold PHYS_BASE; lia)))), Hpte2.
      destruct (same_page va upage Hal Hva) as [-> E]. by rewrite Z.eqb_refl, Htr, E.
    + destruct (mapped_new_page (tmem (p_task w)) upage (ram m2) kpage (va - upage)) as [x Hx]; [change PGSIZE with 4096; lia|].
      exists x. by replace va with (upage + (va - upage)) by lia.
  - intros va Hva Hout. apply (get_page_same _ _ _ tables tables'); [apply Hsp|done|done|].
    by rewrite Hpte2, (proj2 (Z.eqb_neq _ _) (other_page va upage Hal Hout)), Hpte.
Qed.

(** A process can panic the kernel with a write.  Above [2^31] the handler maps the page after
    the one of the fault.  So a write to an address inside the page below a mapped page, such as
    the stack, fails the assertion that the page to be mapped is free; and so does a write to
    an address of the kernel that is not mapped the one that the page is the user's. *)
Theorem stack_growth_panics {S} `{InodeLayer S} dying dump unknown fault_text allocating f a (w : proc S) tables :
  user_write f → space_ok (tmach (p_task w)) (p_pd w) tables → ¬ full (user_pool (tmach (p_task w))) → a mod PGSIZE ≠ 0 →
  (2 ^ 31 ≤ a < PHYS_BASE - PGSIZE ∧ flag (pte (tmach (p_task w)) tables (a - a mod PGSIZE + PGSIZE)) PTE_P = true) ∨
  (PHYS_BASE ≤ a < 2 ^ 32 - PGSIZE) →
  page_fault dying dump unknown fault_text allocating f a w = Panic.
Proof.
  intros Hf Hsp Hnu Hm Hcase. change PGSIZE with 4096 in *. unfold PHYS_BASE in Hcase.
  pose proof (Z.mod_pos_bound a 4096 ltac:(lia)).
  destruct (page_fault_start dying dump unknown fault_text allocating f a w tables Hf Hsp Hnu) as (i & m1 & Hi & Hsp1 & _ & Hpte & ->).
  rewrite fault_page_high by (change PGSIZE with 4096; lia). change PGSIZE with 4096.
  destruct (page_of_fault a ltac:(lia)) as [_ Hal]. change PGSIZE with 4096 in Hal.
  destruct (user_page_range m1 _ tables i Hsp1 Hi) as (Hk1 & Hk2 & Hk3 & Hk4). set (kpage := page_at (user_pool m1) i) in *.
  erewrite sc_bind_run; [|reflexivity]. erewrite sc_bind_run; [|reflexivity]. apply sc_bind_panic. unfold on_task.
  cbn [p_task set_p_task]. unfold on_pages. cbn [tmach].
  assert (pagedir_set_page (p_pd w) (a - a mod 4096 + 4096) kpage true m1 = Panic) as E; [|cbn [p_pd p_task show set_p_task tmach]; by rewrite E].
  destruct Hcase as [[Ha Hp]|Ha].
  - apply (set_page_present m1 _ tables); try (done || apply Hsp1); [lia| |by rewrite Hpte]. apply Z.ltb_lt. unfold PHYS_BASE.
    pose proof (Z.div_mod a 4096 ltac:(lia)). lia.
  - unfold pagedir_set_page. run_by ltac:(apply assert_run; by rewrite Hal). run_by ltac:(apply assert_run; by rewrite Hk3).
    unfold mbind at 1, ST_bind at 1, ASSERT, is_user_vaddr. rewrite (proj2 (Z.ltb_ge _ _)); [done|]. unfold PHYS_BASE. lia.
Qed.

(** *** A process whose stack page is mapped *)

Definition stack_mapped : machine :=
  Machine (Pool (Bitmap 8 [0x07]) 0xc0101000) (Pool (Bitmap 8 [0x03]) 0xc0200000)
    (<[0xc0102bfc := 0x103007]> (<[0xc0103ffc := 0x201007]> ∅)) 1024 0xc0101000 0x102000.
Definition stack_process : proc ram_fs :=
  Proc two_files (replicate 128 NULL) 0xc0009000 (Task stack_mapped ∅) 0xc0102000 (of_string "p") 0 false [] [].
Definition no_text {A} (x : A) : bytes := [].
Definition write_fault : intr_frame := Frame 14 6 SEL_UCSEG.

Lemma stack_mapped_ok : space_ok stack_mapped 0xc0102000 {[767 := 0xc0103000]}.
Proof.
  split.
  - split.
    + split; [split; [split; [done|done|]|..]..|]; try done; repeat constructor; done.
    + done.
    + exists 1. done.
    + intros i pt [<- <-]%lookup_singleton_Some. split; [done|]. split; [by exists 2|done].
    + by intros i j pt [<- _]%lookup_singleton_Some [<- _]%lookup_singleton_Some.
    + intros i Hi. destruct (decide (i = 767)) as [->|].
      * rewrite lookup_singleton_eq. done.
      * rewrite lookup_singleton_ne by done. unfold word, stack_mapped. cbn [ram]. rewrite !lookup_insert_ne by lia. done.
  - done.
  - done.
  - intros va Hva. unfold pte. destruct (decide (pd_no va = 767)) as [E|]; [|by rewrite lookup_singleton_ne by congruence].
    rewrite E, lookup_singleton_eq. pose proof (pt_no_bound va) as Hb. unfold word, stack_mapped. cbn [ram].
    rewrite lookup_insert_ne by lia. destruct (decide (pt_no va = 1023)) as [->|].
    + rewrite lookup_insert_eq. intros _. cbn [default]. unfold translate. change (flag 0x201007 PTE_P) with true. cbv iota.
      change (pte_get_page 0x201007) with (Ret 0xc0201000). unfold mbind, res_bind. eexists. split; [reflexivity|].
      rewrite pg_ofs_mod. pose proof (Z.mod_pos_bound va PGSIZE ltac:(done)) as Hm. change PGSIZE with 4096 in *.
      change (u32 (Z.land (id 2101255) PTE_ADDR + PHYS_BASE)) with 0xc0201000. rewrite wrap_small by (unfold fits; lia). unfold NULL. lia.
    + rewrite lookup_insert_ne by lia. done.
Qed.

Lemma stack_user_not_full : ¬ full (user_pool stack_mapped).
Proof. intros Hf. specialize (Hf 2 ltac:(by vm_compute)). revert Hf. vm_compute. discriminate. Qed.
Lemma stack_kernel_not_full : ¬ full (kernel_pool stack_mapped).
Proof. intros Hf. specialize (Hf 3 ltac:(by vm_compute)). revert Hf. vm_compute. discriminate. Qed.

Lemma page_fault_gives_page_witness :
  ∃ w' kpage, page_fault no_text no_text no_text no_text no_text write_fault 0x08048123 stack_process = Ret (inr (), w') ∧
    value (pagedir_get_page 0xc0102000 0x08048123 (tmach (p_task w'))) =
      Ret (kpage + (0x08048123 - (0x08048123 - 0x08048123 mod PGSIZE))).
Proof.
  assert (0x08048123 - 0x08048123 mod PGSIZE ≤ 0x08048123 < 0x08048123 - 0x08048123 mod PGSIZE + PGSIZE) as Hin by (by vm_compute).
  destruct (page_fault_gives_page no_text no_text no_text no_text no_text write_fault 0x08048123 stack_process {[767 := 0xc0103000]})
    as [_ (w' & kpage & Hrun & _ & Hmap & _)]; [done|exact stack_mapped_ok|done|done|exact stack_user_not_full|exact stack_kernel_not_full|].
  exists w', kpage. split; [exact Hrun|]. exact (proj1 (Hmap _ Hin)).
Defined.

Lemma stack_growth_panics_witness :
  page_fault no_text no_text no_text no_text no_text write_fault 0xbfffeffc stack_process = Panic.
Proof.
  apply (stack_growth_panics no_text no_text no_text no_text no_text write_fault 0xbfffeffc stack_process {[767 := 0xc0103000]});
    [done|exact stack_mapped_ok|exact stack_user_not_full|done|left; split; [done|reflexivity]].
Defined.
