(* ===== verification/Inode.v ===== *)
(** * Inodes and the free map: src/src/filesys/inode.c and free-map.c

    [inodes] has the [struct inode] objects by address and [open_inodes] the list of open ones;
    [free_map] is the bitmap of sectors in use, and the file system lies on the block device
    [fs_device] of Blocks.  The data of a file is reached through the block cache of cache.c,
    which is not modelled: reading and writing data are left to the class [InodeLayer], and
    writing the bitmap to its file is the argument [bitmap_write]. *)
From S2P Require Import Prelude KList Bitmap Blocks.

Definition FREE_MAP_SECTOR : Z := 0.
Definition ROOT_DIR_SECTOR : Z := 1.
Definition INODE_MAGIC : Z := 0x494e4f44.

(** The [unused] words of the structure are zeros: it comes from [calloc]. *)
Record inode_disk := InodeDisk { d_start : Z; d_length : Z; d_magic : Z }.
Definition disk_bytes (d : inode_disk) : list Z :=
  word (d_start d) ++ word (d_length d) ++ word (d_magic d) ++ replicate 500 0.
Definition disk_of_bytes (bs : list Z) : inode_disk :=
  InodeDisk (u32_of bs 0) (s32 (u32_of bs 4)) (u32_of bs 8).

Record inode := Inode {
  i_sector : Z;
  open_cnt : Z;
  removed : bool;
  deny_write_cnt : Z;
  i_data : inode_disk;
}.

Record istate (D : Type) := IState {
  inodes : gmap addr inode;
  open_inodes : list addr;
  free_map : bitmap;
  free_map_file : addr;
  device : bstate D;
}.
Arguments IState {D} _ _ _ _ _.
Arguments inodes {D} _.
Arguments open_inodes {D} _.
Arguments free_map {D} _.
Arguments free_map_file {D} _.
Arguments device {D} _.

(** [DIV_ROUND_UP (size, BLOCK_SECTOR_SIZE)], in [int]. *)
Definition bytes_to_sectors (size : Z) : Z := u32 (Z.quot (s32 (size + BLOCK_SECTOR_SIZE - 1)) BLOCK_SECTOR_SIZE).

Section inode.
Context {D : Type} `{DiskDriver D}.
Abbreviation N := (ST (istate D)).

Definition set_inodes (f : gmap addr inode → gmap addr inode) (s : istate D) : istate D :=
  IState (f (inodes s)) (open_inodes s) (free_map s) (free_map_file s) (device s).
Definition set_open (f : list addr → list addr) (s : istate D) : istate D :=
  IState (inodes s) (f (open_inodes s)) (free_map s) (free_map_file s) (device s).
Definition set_map (b : bitmap) (s : istate D) : istate D :=
  IState (inodes s) (open_inodes s) b (free_map_file s) (device s).
Definition set_device (d : bstate D) (s : istate D) : istate D :=
  IState (inodes s) (open_inodes s) (free_map s) (free_map_file s) d.

Definition on_map {A} (f : BM A) : N A := λ s,
  match f (free_map s) with
  | Ret (a, b) => Ret (a, set_map b s)
  | Panic => Panic
  | Fault => Fault
  | NoFuel => NoFuel
  end.
Definition on_device {A} (f : ST (bstate D) A) : N A := λ s,
  match f (device s) with
  | Ret (a, d) => Ret (a, set_device d s)
  | Panic => Panic
  | Fault => Fault
  | NoFuel => NoFuel
  end.
Definition ld_inode (i : addr) : N inode := λ s,
  match inodes s !! i with Some x => Ret (x, s) | None => Fault end.
Definition upd_inode (i : addr) (f : inode → inode) : N () := x ← ld_inode i; modify (set_inodes <[i := f x]>).

Definition with_cnt (n : Z) (x : inode) : inode := Inode (i_sector x) n (removed x) (deny_write_cnt x) (i_data x).
Definition with_removed (x : inode) : inode := Inode (i_sector x) (open_cnt x) true (deny_write_cnt x) (i_data x).
Definition with_deny (n : Z) (x : inode) : inode := Inode (i_sector x) (open_cnt x) (removed x) n (i_data x).

Context (fs_device : addr) (bitmap_write : bitmap → addr → ST (bstate D) bool).

(** ** The free map *)

(** The arguments are the answers of [malloc] in [bitmap_create]. *)
Definition free_map_init (malloc_b : bool) (malloc_bits : option (list Z)) : N () :=
  n ← on_device (block_size fs_device);
  b ← lift (bitmap_create n malloc_b malloc_bits);
  match b with
  | None => panic
  | Some b =>
      modify (set_map b);;
      on_map (bitmap_mark FREE_MAP_SECTOR);;
      on_map (bitmap_mark ROOT_DIR_SECTOR)
  end.

Definition write_free_map : N bool :=
  b ← gets free_map;
  file ← gets free_map_file;
  on_device (bitmap_write b file).

(** The answer is [*sectorp], or nothing for false. *)
Definition free_map_allocate (cnt : Z) : N (option Z) :=
  sector ← on_map (bitmap_scan_and_flip 0 cnt false);
  file ← gets free_map_file;
  sector ← (if negb (sector =? BITMAP_ERROR) && nonnull file then
              written ← write_free_map;
              if negb written then
                on_map (bitmap_set_multiple sector cnt false);;
                mret BITMAP_ERROR
              else mret sector
            else mret sector);
  mret (if negb (sector =? BITMAP_ERROR) then Some sector else None).

Definition free_map_release (sector cnt : Z) : N () :=
  all ← on_map (bitmap_all sector cnt);
  assert all;;
  on_map (bitmap_set_multiple sector cnt false);;
  _ ← write_free_map;
  mret ().

(** ** Inodes *)

Definition byte_to_sector (inode : addr) (pos : Z) : N Z :=
  assert (nonnull inode);;
  x ← ld_inode inode;
  mret (if pos <? d_length (i_data x) then u32 (d_start (i_data x) + Z.quot pos BLOCK_SECTOR_SIZE) else u32 (-1)).

Definition inode_init : N () := modify (set_open (λ _, [])).

(** [calloc] says whether there was memory for the structure. *)
Definition inode_create (sector len : Z) (calloc : bool) : N bool :=
  assert (0 <=? len);;
  if calloc then
    let sectors := bytes_to_sectors len in
    a ← free_map_allocate sectors;
    match a with
    | Some start =>
        on_device (block_write fs_device sector (disk_bytes (InodeDisk start len INODE_MAGIC)));;
        (if 0 <? sectors then
           for_each (Z.to_nat sectors) 0 (λ i,
             on_device (block_write fs_device (u32 (start + i)) (replicate 512 0)))
         else mret ());;
        mret true
    | None => mret false
    end
  else mret false.

Definition inode_reopen (i : addr) : N addr :=
  (if nonnull i then upd_inode i (λ x, with_cnt (s32 (open_cnt x + 1)) x) else mret ());;
  mret i.

Fixpoint find_open (sec : Z) (l : list addr) : N (option addr) :=
  match l with
  | [] => mret None
  | i :: l => x ← ld_inode i; if i_sector x =? sec then mret (Some i) else find_open sec l
  end.

(** [p] is the answer of [malloc]. *)
Definition inode_open (sec : Z) (p : addr) : N addr :=
  l ← gets open_inodes;
  found ← find_open sec l;
  match found with
  | Some i => inode_reopen i
  | None =>
      if negb (nonnull p) then mret NULL else
      modify (set_open (cons p));;
      bs ← on_device (block_read fs_device sec);
      modify (set_inodes <[p := Inode sec 1 false 0 (disk_of_bytes bs)]>);;
      mret p
  end.

Definition inode_get_inumber (i : addr) : N Z := x ← ld_inode i; mret (i_sector x).

Definition inode_close (i : addr) : N () :=
  if negb (nonnull i) then mret () else
  upd_inode i (λ x, with_cnt (s32 (open_cnt x - 1)) x);;
  x ← ld_inode i;
  if open_cnt x =? 0 then
    modify (set_open (filter (λ j, j ≠ i)));;
    (if removed x then
       free_map_release (i_sector x) 1;;
       free_map_release (d_start (i_data x)) (bytes_to_sectors (d_length (i_data x)))
     else mret ());;
    modify (set_inodes (delete i))
  else mret ().

Definition inode_remove (i : addr) : N () :=
  assert (nonnull i);;
  upd_inode i with_removed.

Definition inode_deny_write (i : addr) : N () :=
  upd_inode i (λ x, with_deny (s32 (deny_write_cnt x + 1)) x);;
  x ← ld_inode i;
  assert (deny_write_cnt x <=? open_cnt x).

Definition inode_allow_write (i : addr) : N () :=
  x ← ld_inode i;
  assert (0 <? deny_write_cnt x);;
  assert (deny_write_cnt x <=? open_cnt x);;
  upd_inode i (λ x, with_deny (s32 (deny_write_cnt x - 1)) x).

Definition inode_length (i : addr) : N Z := x ← ld_inode i; mret (d_length (i_data x)).
End inode.
