(* ===== verification/InodeProofs.v ===== *)
(** * Inodes: the space of the file system is accounted for

    A [volume] is the abstract view of the file system's device: the files, by the sector of
    their inode, and the sectors that are held for something else.  The operations of inode.c
    and free-map.c refine operations on volumes; in every state the free map has exactly the
    sectors of the volume. *)
From S2P Require Import Prelude KList Bitmap Blocks BlocksProofs Inode.

(** ** Volumes *)

(** The [n] sectors from [a] on. *)
Definition sectors (a n : Z) : gset Z := list_to_set (seqZ a n).
Definition data_sectors (d : inode_disk) : gset Z := sectors (d_start d) (bytes_to_sectors (d_length d)).

Record volume := Volume { live : gmap Z inode_disk; held : gset Z }.

(** Sector [i] is in use. *)
Definition in_file (v : volume) (i : Z) : Prop :=
  ∃ sec d, live v !! sec = Some d ∧ (i = sec ∨ i ∈ data_sectors d).
Definition used (v : volume) (i : Z) : Prop := i ∈ held v ∨ in_file v i.

Record disk_ok (d : inode_disk) : Prop := DiskOk {
  dk_start : fits 32 (d_start d);
  dk_length : 0 ≤ d_length d ≤ 2 ^ 31 - 512;
  dk_magic : d_magic d = INODE_MAGIC;
}.

(** No sector is in use twice, and all are sectors of a device of [n] sectors. *)
Record volume_ok (n : Z) (v : volume) : Prop := VolumeOk {
  vk_range i : used v i → 0 ≤ i < n;
  vk_disk sec d : live v !! sec = Some d → disk_ok d;
  vk_self sec d : live v !! sec = Some d → sec ∉ data_sectors d;
  vk_held sec d : live v !! sec = Some d → sec ∉ held v ∧ data_sectors d ## held v;
  vk_files sec d sec' d' : live v !! sec = Some d → live v !! sec' = Some d' → sec ≠ sec' →
    sec ∉ data_sectors d' ∧ data_sectors d ## data_sectors d';
  vk_end sec d : live v !! sec = Some d → d_start d + bytes_to_sectors (d_length d) ≤ n;
}.

Lemma elem_of_sectors i a n : i ∈ sectors a n ↔ a ≤ i < a + n.
Proof. unfold sectors. by rewrite elem_of_list_to_set, elem_of_seqZ. Qed.

Lemma bytes_to_sectors_small n : 0 ≤ n ≤ 2 ^ 31 - 512 →
  bytes_to_sectors n = (n + 511) / 512 ∧ 0 ≤ bytes_to_sectors n < 2 ^ 22.
Proof.
  intros Hn. assert (bytes_to_sectors n = (n + 511) / 512) as ->.
  { unfold bytes_to_sectors, BLOCK_SECTOR_SIZE. rewrite swrap_small, Z.quot_div_nonneg by lia.
    rewrite wrap_small; [f_equal; lia|]. unfold fits. split; [apply Z.div_pos; lia|].
    apply Z.div_lt_upper_bound; lia. }
  split; [done|]. split; [apply Z.div_pos; lia|]. apply Z.div_lt_upper_bound; lia.
Qed.

(** A stored inode is read back. *)
Lemma u32_of_word l w r : fits 32 w → u32_of (l ++ word w ++ r) (length l) = w.
Proof.
  intros Hw. assert (∀ k x, word w !! k = Some x → (l ++ word w ++ r) !! (length l + k)%nat = Some x) as Hl.
  { intros k x Hk. rewrite lookup_app_r by lia. replace (length l + k - length l)%nat with k by lia.
    by apply lookup_app_l_Some. }
  unfold u32_of, u16_of, byte_of. rewrite <-!Nat.add_assoc. simpl Nat.add.
  replace (length l) with (length l + 0)%nat at 1 by lia.
  erewrite !Hl by reflexivity. simpl default. unfold wrap. change (2 ^ 8) with 256. rewrite !Z.mod_mod by lia.
  unfold fits in Hw. Z.div_mod_to_equations. lia.
Qed.

Lemma disk_roundtrip d : disk_ok d → disk_of_bytes (disk_bytes d) = d.
Proof.
  intros [Hs Hl Hm]. unfold disk_of_bytes, disk_bytes. destruct d as [st ln mg]. cbn [d_start d_length d_magic] in *. f_equal.
  - apply (u32_of_word []). done.
  - change 4%nat with (length (word st)). rewrite u32_of_word by (unfold fits; lia). apply swrap_small; lia.
  - change 8%nat with (length (word st ++ word ln)). rewrite (app_assoc (word st)). apply u32_of_word. by rewrite Hm.
Qed.

(** *** Operations on volumes *)

Definition hold (v : volume) (l : gset Z) : volume := Volume (live v) (held v ∪ l).
Definition unhold (v : volume) (l : gset Z) : volume := Volume (live v) (held v ∖ l).
(** A held sector becomes the inode of a new file. *)
Definition add_file (v : volume) (sec : Z) (d : inode_disk) : volume :=
  Volume (<[sec := d]> (live v)) (held v ∖ {[sec]}).
Definition drop_file (v : volume) (sec : Z) : volume := Volume (delete sec (live v)) (held v).

Lemma used_hold v l i : used (hold v l) i ↔ used v i ∨ i ∈ l.
Proof. unfold used, in_file. cbn. set_solver. Qed.

Section volume.
Context (n : Z) (v : volume) (Hv : volume_ok n v).

Lemma hold_ok l : (∀ i, i ∈ l → 0 ≤ i < n ∧ ¬ used v i) → volume_ok n (hold v l).
Proof.
  intros Hl. destruct Hv as [Hr Hd Hself Hh Hf He]. constructor; cbn [hold live held]; [|done|done| |done|done].
  - intros i [Hu|Hi]%used_hold; [by apply Hr|by apply Hl].
  - intros sec d Hs. destruct (Hh sec d Hs) as [Hsec Hdata].
    assert (∀ i, i = sec ∨ i ∈ data_sectors d → i ∉ l) as Hno.
    { intros i Hi Hil. apply (Hl i Hil). right. by exists sec, d. }
    split; [|intros i ?; pose proof (Hno i); set_solver]. pose proof (Hno sec). set_solver.
Qed.

Lemma used_unhold l i : l ⊆ held v → used (unhold v l) i ↔ used v i ∧ i ∉ l.
Proof.
  intros Hl. unfold used. cbn [unhold held]. rewrite elem_of_difference. split.
  - intros [[??]|(sec & d & Hs & Hi)]; [tauto|]. split; [right; by exists sec, d|]. intros Hil%Hl.
    destruct (vk_held _ _ Hv sec d Hs) as [Hsec Hdata]. destruct Hi as [->|Hi]; [done|]. set_solver.
  - intros [[Hi|Hi] Hil]; [by left|by right].
Qed.

Lemma unhold_ok l : volume_ok n (unhold v l).
Proof.
  destruct Hv as [Hr Hd Hself Hh Hf He]. constructor; cbn [unhold live held]; [|done|done| |done|done].
  - intros i [Hi|Hi]; apply Hr; [left; set_solver|by right].
  - intros sec d Hs. destruct (Hh sec d Hs). set_solver.
Qed.

Lemma held_not_live sec : sec ∈ held v → live v !! sec = None.
Proof. intros Hs. destruct (live v !! sec) as [d|] eqn:E; [|done]. by destruct (vk_held _ _ Hv sec d E). Qed.

Section add.
Context (sec : Z) (d : inode_disk) (Hsec : sec ∈ held v) (Hd : disk_ok d).
Context (Hfree : ∀ i, i ∈ data_sectors d → 0 ≤ i < n ∧ ¬ used v i) (Hend : d_start d + bytes_to_sectors (d_length d) ≤ n).

Lemma used_add_file i : used (add_file v sec d) i ↔ used v i ∨ i ∈ data_sectors d.
Proof.
  unfold used, in_file. cbn [add_file live held]. split.
  - intros [Hi|(sec' & d' & Hs & Hi)]; [left; left; set_solver|].
    apply lookup_insert_Some in Hs as [[<- <-]|[Hne Hs]]; [|left; right; by exists sec', d'].
    destruct Hi as [->|Hi]; [left; by left|by right].
  - destruct (decide (i = sec)) as [->|Hne]; [intros _; right; exists sec, d; by rewrite lookup_insert_eq; auto|].
    intros [[Hi|(sec' & d' & Hs & Hi)]|Hi]; [left; set_solver| |right; exists sec, d; by rewrite lookup_insert_eq; auto].
    right. exists sec', d'. split; [|done]. rewrite lookup_insert_ne; [done|]. intros <-. by rewrite held_not_live in Hs.
Qed.

Lemma add_file_ok : volume_ok n (add_file v sec d).
Proof.
  destruct Hv as [Hr Hdk Hself Hh Hf He]. assert (sec ∉ data_sectors d) as Hsd by (intros [_ Hn]%Hfree; apply Hn; by left).
  assert (∀ sec' d', live v !! sec' = Some d' → sec' ∉ data_sectors d ∧ data_sectors d' ## data_sectors d ∧ sec ∉ data_sectors d') as Hdis.
  { intros sec' d' Hs. split; [|split].
    - intros [_ Hn]%Hfree. apply Hn. right. exists sec', d'. by auto.
    - intros i Hi [_ Hn]%Hfree. apply Hn. right. exists sec', d'. by auto.
    - destruct (Hh sec' d' Hs). set_solver. }
  constructor; cbn [add_file live held].
  - intros i [Hi|Hi]%used_add_file; [by apply Hr|by apply Hfree].
  - intros sec' d' [[<- <-]|[_ Hs]]%lookup_insert_Some; [done|by eapply Hdk].
  - intros sec' d' [[<- <-]|[_ Hs]]%lookup_insert_Some; [done|by apply Hself].
  - intros sec' d' [[<- <-]|[_ Hs]]%lookup_insert_Some.
    + split; [set_solver|]. intros i [_ Hn]%Hfree Hi. apply Hn. left. set_solver.
    + destruct (Hh sec' d' Hs). set_solver.
  - intros s1 d1 s2 d2 [[<- <-]|[H1 Hs1]]%lookup_insert_Some [[<- <-]|[H2 Hs2]]%lookup_insert_Some Hne; [done|..].
    + destruct (Hdis s2 d2 Hs2) as (? & ? & ?). split; [done|]. by symmetry.
    + by destruct (Hdis s1 d1 Hs1) as (? & ? & ?).
    + by apply (Hf s1 d1 s2 d2).
  - intros sec' d' [[<- <-]|[_ Hs]]%lookup_insert_Some; [done|by eapply He].
Qed.
End add.

Section drop.
Context (sec : Z) (d : inode_disk) (Hsec : live v !! sec = Some d).

Lemma used_drop_file i : used (drop_file v sec) i ↔ used v i ∧ i ≠ sec ∧ i ∉ data_sectors d.
Proof.
  destruct Hv as [Hr Hdk Hself Hh Hf He]. unfold used, in_file. cbn [drop_file live held]. split.
  - intros [Hi|(sec' & d' & [Hne Hs]%lookup_delete_Some & Hi)].
    + destruct (Hh sec d Hsec). split; [by left|]. set_solver.
    + split; [right; by exists sec', d'|]. destruct (Hf sec d sec' d' Hsec Hs Hne) as [? ?].
      destruct (Hf sec' d' sec d Hs Hsec (not_eq_sym Hne)) as [? _]. destruct Hi as [->|Hi]; [done|]. set_solver.
  - intros [[Hi|(sec' & d' & Hs & Hi)] [H1 H2]]; [by left|]. right. exists sec', d'. split; [|done].
    apply lookup_delete_Some. split; [|done]. intros <-. assert (d' = d) as -> by congruence. tauto.
Qed.

Lemma drop_file_ok : volume_ok n (drop_file v sec).
Proof.
  pose proof (used_drop_file) as Hu. destruct Hv as [Hr Hdk Hself Hh Hf He]. constructor; cbn [drop_file live held].
  - intros i [Hi _]%Hu. by apply Hr.
  - intros sec' d' [_ Hs]%lookup_delete_Some. by eapply Hdk.
  - intros sec' d' [_ Hs]%lookup_delete_Some. by apply Hself.
  - intros sec' d' [_ Hs]%lookup_delete_Some. by apply Hh.
  - intros s1 d1 s2 d2 [_ H1]%lookup_delete_Some [_ H2]%lookup_delete_Some. by apply Hf.
  - intros sec' d' [_ Hs]%lookup_delete_Some. by eapply He.
Qed.
End drop.
End volume.

(** ** The state and the volume it represents *)

Section inode.
Context {D : Type} `{DiskDriver D} (fs_device : addr).
Context (bitmap_write : bitmap → addr → ST (bstate D) bool) (map_sectors : gset Z).
Implicit Types (s : istate D) (v : volume).

(** Sector [i] of the file system. *)
Abbreviation disk s i := (sector_at (device s) fs_device i).

(** Writing the bitmap to its file returns and changes no sector but those of the file. *)
Definition map_file_ok : Prop := ∀ b file d, file ≠ NULL → blocks_ok d →
  ∃ ok d', bitmap_write b file d = Ret (ok, d') ∧ same_devices d d' ∧
    ∀ i, i ∉ map_sectors → sector_at d' fs_device i = sector_at d fs_device i.

Definition fs_block s (n : Z) : Prop := ∃ x, blocks (device s) !! fs_device = Some x ∧ b_type x ≠ BLOCK_FOREIGN ∧ b_size x = n.

Record table_ok s v : Prop := TableOk {
  tk_nodup : NoDup (open_inodes s);
  tk_dom i : is_Some (inodes s !! i) ↔ i ∈ open_inodes s;
  tk_null : inodes s !! NULL = None;
  tk_inode i x : inodes s !! i = Some x → live v !! i_sector x = Some (i_data x) ∧
    0 < open_cnt x < 2 ^ 31 ∧ 0 ≤ deny_write_cnt x ≤ open_cnt x;
  tk_once i j x y : inodes s !! i = Some x → inodes s !! j = Some y → i_sector x = i_sector y → i = j;
}.

(** [s] represents [v]: the device has the files' inodes, the free map exactly the sectors in
    use, and the list of open inodes one object per open file. *)
Record represents s v : Prop := Represents {
  rp_device : blocks_ok (device s);
  rp_block : fs_block s (bit_cnt (free_map s));
  rp_wf : bitmap_wf (free_map s);
  rp_volume : volume_ok (bit_cnt (free_map s)) v;
  rp_map i : 0 ≤ i < bit_cnt (free_map s) → bit (free_map s) i = true ↔ used v i;
  rp_disk sec d : live v !! sec = Some d → disk s sec = Some (disk_bytes d);
  rp_own : map_sectors ⊆ held v;
  rp_table : table_ok s v;
}.

(** ** Runs of the primitives *)

Lemma on_free_map_run {A} (f : BM A) s a b : f (free_map s) = Ret (a, b) → on_map f s = Ret (a, set_map b s).
Proof. unfold on_map. by intros ->. Qed.
Lemma on_device_run {A} (f : ST (bstate D) A) s a d : f (device s) = Ret (a, d) → on_device f s = Ret (a, set_device d s).
Proof. unfold on_device. by intros ->. Qed.
Lemma ld_inode_run s i x : inodes s !! i = Some x → ld_inode i s = Ret (x, s).
Proof. unfold ld_inode. by intros ->. Qed.
Lemma upd_inode_run s i x f : inodes s !! i = Some x → upd_inode i f s = Ret ((), set_inodes <[i := f x]> s).
Proof. intros Hx. unfold upd_inode. by rewrite (bind_run _ _ _ _ _ (ld_inode_run _ _ _ Hx)). Qed.

(** [s'] differs from [s] in the free map and in sectors of the device outside [p]. *)
Record moved (p : Z → Prop) s s' : Prop := Moved {
  mv_inodes : inodes s' = inodes s;
  mv_open : open_inodes s' = open_inodes s;
  mv_file : free_map_file s' = free_map_file s;
  mv_devices : same_devices (device s) (device s');
  mv_disk i : p i → disk s' i = disk s i;
}.

Lemma moved_refl p s : moved p s s.
Proof. by constructor. Qed.
Lemma moved_trans p s1 s2 s3 : moved p s1 s2 → moved p s2 s3 → moved p s1 s3.
Proof.
  intros [] [? ? ? ? Hd]. constructor; try congruence; [by etrans|]. intros i Hi. rewrite Hd by done. auto.
Qed.
Lemma moved_map p s b : moved p s (set_map b s).
Proof. by constructor. Qed.
Lemma moved_weaken (p q : Z → Prop) s s' : (∀ i, q i → p i) → moved p s s' → moved q s s'.
Proof. intros Hpq []. constructor; eauto. Qed.

Lemma same_block s s' n : same_devices (device s) (device s') → fs_block s n → fs_block s' n.
Proof.
  intros Hm (x & Hx & Ht & Hs). destruct (sd_lookup _ _ _ _ Hm Hx) as (x' & Hx' & E).
  injection E as _ Et Es _ _. exists x'. by rewrite Et, Es.
Qed.
Lemma moved_block p s s' n : moved p s s' → fs_block s n → fs_block s' n.
Proof. intros Hm. apply same_block, Hm. Qed.

Lemma moved_table p s s' v : moved p s s' → table_ok s v → table_ok s' v.
Proof. intros [Hi Ho _ _ _] []. constructor; rewrite ?Hi, ?Ho; done. Qed.

(** ** The free map *)

Context (Hwrite : map_file_ok).
Abbreviation within a n := (λ j : Z, (a <=? j) && (j <? a + n)).
(** Nothing but the sectors of the map's file may change. *)
Abbreviation others := (λ i : Z, i ∉ map_sectors).

(** The answer of [bitmap_write] can be false. *)
Definition write_fails : Prop := ∃ b file d d', bitmap_write b file d = Ret (false, d').
(** There are no [cnt] consecutive free sectors on a device of [n] sectors. *)
Definition no_room (n : Z) v (cnt : Z) : Prop :=
  ∀ a, 0 ≤ a → a + cnt ≤ n → ∃ i, i ∈ sectors a cnt ∧ used v i.

Lemma write_free_map_run s : blocks_ok (device s) → free_map_file s ≠ NULL →
  ∃ ok s', write_free_map bitmap_write s = Ret (ok, s') ∧ moved others s s' ∧ free_map s' = free_map s ∧ (ok = false → write_fails).
Proof.
  intros Hd Hf. destruct (Hwrite (free_map s) (free_map_file s) (device s) Hf Hd) as (ok & d' & Hr & Hsd & Ho).
  exists ok, (set_device d' s). split; [by apply on_device_run|]. split_and!; [done..|]. intros ->. by eexists _, _, _, _.
Qed.

Lemma free_map_allocate_run s cnt : blocks_ok (device s) → bitmap_wf (free_map s) → 0 ≤ cnt →
  ∃ r s', free_map_allocate bitmap_write cnt s = Ret (r, s') ∧ moved others s s' ∧
    match r with
    | Some a => 0 ≤ a ∧ a + cnt ≤ bit_cnt (free_map s) ∧ group (free_map s) a cnt false ∧
        bits_set (free_map s) (free_map s') (within a cnt) true
    | None => bits_set (free_map s) (free_map s') (λ _, false) true ∧
        ((∀ a, 0 ≤ a → a + cnt ≤ bit_cnt (free_map s) → ¬ group (free_map s) a cnt false) ∨ write_fails)
    end.
Proof.
  intros Hd Hwf Hc. pose proof (wf_cnt _ Hwf) as Hcnt.
  destruct (bitmap_scan_and_flip_spec (free_map s) Hwf 0 cnt false ltac:(lia) Hc) as (a & b & Hr & Ha & Hb).
  unfold free_map_allocate. erewrite bind_run; [|by apply on_free_map_run]. cbn beta. erewrite bind_run; [|done]. cbn beta.
  cbn [set_map free_map_file]. destruct (Z.eqb_spec a BITMAP_ERROR) as [->|Hne]; cbn [negb andb].
  { subst b. eexists None, _. split; [done|]. split; [apply moved_map|]. split; [by split|].
    left. destruct Ha as [(Ha0 & Ha1 & _)|[_ Hno]]; [|exact Hno]. unfold BITMAP_ERROR, SIZE_MAX in *. lia. }
  destruct Ha as [(Ha0 & Ha1 & Hg & _)|[-> _]]; [|done].
  destruct (nonnull (free_map_file s)) eqn:Hf.
  2: { eexists (Some a), _. erewrite bind_run; [|reflexivity]. rewrite (proj2 (Z.eqb_neq _ _) Hne).
       split; [done|]. split; [apply moved_map|]. by split_and!. }
  destruct (write_free_map_run (set_map b s)) as (ok & s1 & Hr1 & Hm1 & Hb1 & Hok); [done|intros E; cbn in E; by rewrite E in Hf|].
  cbn [set_map free_map] in Hb1. destruct Hb as (Hwfb & Hcb & Hbits).
  destruct ok.
  - exists (Some a), s1. erewrite bind_run; [|by rewrite (bind_run _ _ _ _ _ Hr1)].
    rewrite (proj2 (Z.eqb_neq _ _) Hne). split; [done|]. split; [eapply moved_trans; [apply moved_map|done]|].
    rewrite Hb1. by split_and!.
  - destruct (bitmap_set_multiple_spec b Hwfb a cnt ltac:(lia) false) as (b2 & Hr2 & Hwf2 & Hc2 & Hb2).
    exists None, (set_map b2 s1). erewrite bind_run.
    2: { rewrite (bind_run _ _ _ _ _ Hr1). cbn [negb]. erewrite bind_run; [|apply on_free_map_run; by rewrite Hb1]. reflexivity. }
    split; [done|]. split; [eapply moved_trans; [apply moved_map|eapply moved_trans; [done|apply moved_map]]|].
    cbn [set_map free_map]. split; [|right; by apply Hok]. split; [done|]. split; [lia|]. intros i Hi. rewrite Hb2, Hbits by lia.
    destruct (Z.leb_spec a i), (Z.ltb_spec i (a + cnt)); cbn [andb]; try done. symmetry. apply Hg. lia.
Qed.

Lemma free_map_release_run s a cnt : blocks_ok (device s) → bitmap_wf (free_map s) → free_map_file s ≠ NULL →
  0 ≤ a → 0 ≤ cnt → a + cnt ≤ bit_cnt (free_map s) → group (free_map s) a cnt true →
  ∃ s', free_map_release bitmap_write a cnt s = Ret ((), s') ∧ moved others s s' ∧
    bits_set (free_map s) (free_map s') (within a cnt) false.
Proof.
  intros Hd Hwf Hf Ha Hc Hac Hg. destruct (bitmap_all_spec (free_map s) Hwf a cnt ltac:(lia)) as (r & Hr & Hr').
  destruct (bitmap_set_multiple_spec (free_map s) Hwf a cnt ltac:(lia) false) as (b & Hr2 & Hb).
  destruct (write_free_map_run (set_map b (set_map (free_map s) s))) as (ok & s1 & Hr1 & Hm1 & Hb1 & _); [done|done|].
  exists s1. unfold free_map_release. erewrite bind_run; [|by apply on_free_map_run].
  rewrite (proj2 Hr' Hg). erewrite bind_run; [|done]. erewrite bind_run; [|by apply on_free_map_run].
  rewrite (bind_run _ _ _ _ _ Hr1). split; [done|]. split; [eapply moved_trans; [|done]; by constructor|].
  by rewrite Hb1.
Qed.

(** ** Files *)

Lemma live_not_map s v sec d : represents s v → live v !! sec = Some d → sec ∉ map_sectors.
Proof. intros Hs Hd Hm%(rp_own _ _ Hs). by destruct (vk_held _ _ (rp_volume _ _ Hs) sec d Hd). Qed.

(** A change of the free map, of sectors without an inode and of the volume. *)
Lemma represents_moved s s' v v' (p : Z → Prop) : represents s v → moved p s s' →
  bitmap_wf (free_map s') → bit_cnt (free_map s') = bit_cnt (free_map s) →
  volume_ok (bit_cnt (free_map s)) v' → (∀ i, 0 ≤ i < bit_cnt (free_map s) → bit (free_map s') i = true ↔ used v' i) →
  (∀ sec d, live v' !! sec = Some d → disk s' sec = Some (disk_bytes d)) → map_sectors ⊆ held v' → table_ok s v' →
  represents s' v'.
Proof.
  intros Hs Hm Hwf Hc Hv Hmap Hdisk Hown Ht. constructor; rewrite ?Hc; try done.
  - eapply sd_ok; [apply Hm|apply Hs].
  - eapply moved_block; [done|apply Hs].
  - by eapply moved_table.
Qed.

(** The inodes of a volume survive a change of other sectors. *)
Lemma files_kept s s' v v' : represents s v → moved others s s' → live v' ⊆ live v →
  ∀ sec d, live v' !! sec = Some d → disk s' sec = Some (disk_bytes d).
Proof.
  intros Hs Hm Hl sec d Hd. assert (live v !! sec = Some d) as Hd' by by eapply lookup_weaken.
  rewrite (mv_disk _ _ _ Hm); [by apply Hs|]. by eapply live_not_map.
Qed.

Lemma set_iff b b' (q : Z → bool) w (P : Z → Prop) (P' : Z → Prop) : bits_set b b' q w →
  (∀ i, 0 ≤ i < bit_cnt b → bit b i = true ↔ P i) →
  (∀ i, 0 ≤ i < bit_cnt b → P' i ↔ if q i then w = true else P i) →
  ∀ i, 0 ≤ i < bit_cnt b → bit b' i = true ↔ P' i.
Proof. intros (_ & _ & Hb) HP HP' i Hi. rewrite Hb, HP' by done. destruct (q i); [done|by apply HP]. Qed.

Lemma within_sectors a n i : within a n i = true ↔ i ∈ sectors a n.
Proof. rewrite elem_of_sectors, andb_true_iff, Z.leb_le, Z.ltb_lt. lia. Qed.

Lemma allocate_refines s v cnt : represents s v → 0 ≤ cnt →
  ∃ r s', free_map_allocate bitmap_write cnt s = Ret (r, s') ∧ moved others s s' ∧
    match r with
    | Some a => 0 ≤ a ∧ a + cnt ≤ bit_cnt (free_map s) ∧ (∀ i, i ∈ sectors a cnt → 0 ≤ i < bit_cnt (free_map s) ∧ ¬ used v i) ∧
        bits_set (free_map s) (free_map s') (within a cnt) true ∧ represents s' (hold v (sectors a cnt))
    | None => represents s' v ∧ (no_room (bit_cnt (free_map s)) v cnt ∨ write_fails)
    end.
Proof.
  intros Hs Hc. destruct (free_map_allocate_run s cnt (rp_device _ _ Hs) (rp_wf _ _ Hs) Hc) as (r & s' & Hr & Hm & Hres).
  exists r, s'. split; [done|]. split; [done|]. destruct r as [a|].
  - destruct Hres as (Ha0 & Ha1 & Hg & Hb). pose proof Hb as (Hwf & Hcnt & _).
    assert (∀ i, i ∈ sectors a cnt → 0 ≤ i < bit_cnt (free_map s) ∧ ¬ used v i) as Hfree.
    { intros i Hi%elem_of_sectors. split; [lia|]. rewrite <-(rp_map _ _ Hs) by lia. by rewrite Hg by lia. }
    split_and!; [done..|]. eapply represents_moved; [done..| | | | |].
    + apply hold_ok; [apply Hs|done].
    + eapply set_iff; [done|apply Hs|]. intros i Hi. rewrite used_hold, <-within_sectors.
      destruct ((a <=? i) && (i <? a + cnt)); intuition congruence.
    + by eapply files_kept.
    + cbn. pose proof (rp_own _ _ Hs). set_solver.
    + destruct (rp_table _ _ Hs). by constructor.
  - destruct Hres as [Hres Hfail]. split.
    2: { destruct Hfail as [Hno|?]; [left|by right]. intros a Ha Hac.
         destruct (bitmap_contains_spec (free_map s) (rp_wf _ _ Hs) a cnt ltac:(lia) true) as ([] & _ & Hg); [|by destruct (Hno a)].
         destruct Hg as (j & Hj & Hb). exists j. split; [by apply elem_of_sectors|]. apply (rp_map _ _ Hs); [lia|done]. }
    pose proof Hres as (Hwf & Hcnt & _). eapply represents_moved; [done..| | | | |]; try apply Hs.
    + eapply set_iff; [done|apply Hs|done].
    + by eapply files_kept.
Qed.

Lemma release_refines s v v' a cnt : represents s v → free_map_file s ≠ NULL → 0 ≤ a → 0 ≤ cnt → a + cnt ≤ bit_cnt (free_map s) →
  (∀ i, i ∈ sectors a cnt → used v i) → volume_ok (bit_cnt (free_map s)) v' → live v' ⊆ live v → map_sectors ⊆ held v' →
  (∀ i, used v' i ↔ used v i ∧ i ∉ sectors a cnt) → table_ok s v' →
  ∃ s', free_map_release bitmap_write a cnt s = Ret ((), s') ∧ moved others s s' ∧
    bit_cnt (free_map s') = bit_cnt (free_map s) ∧ represents s' v'.
Proof.
  intros Hs Hf Ha Hc Hac Hin Hv Hl Hown Hu Ht.
  destruct (free_map_release_run s a cnt (rp_device _ _ Hs) (rp_wf _ _ Hs) Hf Ha Hc Hac) as (s' & Hr & Hm & Hb).
  { intros j Hj. apply (rp_map _ _ Hs); [lia|]. apply Hin, elem_of_sectors. lia. }
  exists s'. pose proof Hb as (Hwf & Hcnt & _). split_and!; [done..|].
  eapply represents_moved; [done..| | |done|done].
  - eapply set_iff; [done|apply Hs|]. intros i Hi. rewrite Hu, <-within_sectors.
    destruct (within a cnt i); [|intuition congruence]. split; [intuition congruence|done].
  - by eapply files_kept.
Qed.

(** *** Creating a file *)

Lemma write_sector_run s n i bs : blocks_ok (device s) → fs_block s n → 0 ≤ i < n →
  ∃ s', on_device (block_write fs_device i bs) s = Ret ((), s') ∧ moved (λ j, 0 ≤ j < n ∧ j ≠ i) s s' ∧
    free_map s' = free_map s ∧ disk s' i = Some bs.
Proof.
  intros Hd (x & Hx & Ht & <-) Hi. destruct (block_write_run (device s) fs_device x i bs) as (d' & Hr & Hsd & Hw); [done..|].
  exists (set_device d' s). split; [by apply on_device_run|]. split; [|split; [done|by rewrite Hw, decide_True]].
  constructor; try done. intros j [Hj Hne]. cbn [set_device device]. rewrite Hw, decide_False; [done|].
  by rewrite (place_eq (device s) fs_device x).
Qed.

Lemma zero_sectors_run s n a cnt : blocks_ok (device s) → fs_block s n → 0 ≤ a → 0 ≤ cnt → a + cnt ≤ n → n < 2 ^ 32 →
  ∃ s', for_each (Z.to_nat cnt) 0 (λ i, on_device (block_write fs_device (u32 (a + i)) (replicate 512 0))) s = Ret ((), s') ∧
    moved (λ j, 0 ≤ j < n ∧ j ∉ sectors a cnt) s s' ∧ free_map s' = free_map s ∧
    ∀ j, j ∈ sectors a cnt → disk s' j = Some (replicate 512 0).
Proof.
  intros Hd Hb Ha Hc Hac Hn. apply wp_unit.
  apply (wp_for_each (λ i s', moved (λ j, 0 ≤ j < n ∧ j ∉ sectors a cnt) s s' ∧ free_map s' = free_map s ∧
    ∀ j, a ≤ j < a + i → disk s' j = Some (replicate 512 0))).
  - intros i s1 Hi (Hm & Hf & Hz). rewrite wrap_small by (unfold fits; lia).
    destruct (write_sector_run s1 n (a + i) (replicate 512 0)) as (s2 & Hr & Hm2 & Hf2 & Hd2);
      [eapply sd_ok; [apply Hm|done]|by eapply moved_block|lia|].
    eapply wp_run; [exact Hr|]. split_and!; [|congruence|].
    + eapply moved_trans; [done|]. eapply moved_weaken; [|done]. intros j [Hj Hne]. split; [done|]. intros ->.
      apply Hne, elem_of_sectors. lia.
    + intros j Hj. destruct (decide (j = a + i)) as [->|Hne]; [done|].
      rewrite (mv_disk _ _ _ Hm2) by lia. apply Hz. lia.
  - intros s1 (Hm & Hf & Hz). split_and!; [done..|]. intros j Hj%elem_of_sectors. apply Hz. lia.
  - split; [apply moved_refl|]. split; [done|]. intros j Hj. lia.
Qed.

(** What the volume has gained when a file of [len] bytes was created. *)
Definition new_file (v : volume) (sec len a : Z) : volume := add_file v sec (InodeDisk a len INODE_MAGIC).

Lemma create_refines s v sec len (calloc : bool) : represents s v → sec ∈ held v → sec ∉ map_sectors → 0 ≤ len ≤ 2 ^ 31 - 512 →
  ∃ (b : bool) s', inode_create fs_device bitmap_write sec len calloc s = Ret (b, s') ∧
    moved (λ i, i ∉ map_sectors ∧ used v i ∧ i ≠ sec) s s' ∧
    if b then ∃ a, let d := InodeDisk a len INODE_MAGIC in represents s' (new_file v sec len a) ∧
        (∀ i, i ∈ data_sectors d → ¬ used v i ∧ disk s' i = Some (replicate 512 0)) ∧
        (∀ i, 0 ≤ i < bit_cnt (free_map s) → bit (free_map s') i = within a (bytes_to_sectors len) i || bit (free_map s) i) ∧
        bit_cnt (free_map s') = bit_cnt (free_map s)
    else represents s' v ∧ (calloc = false ∨ no_room (bit_cnt (free_map s)) v (bytes_to_sectors len) ∨ write_fails).
Proof.
  intros Hs Hsec Hmap Hlen. destruct (bytes_to_sectors_small len Hlen) as [_ Hn]. set (n := bytes_to_sectors len) in *.
  pose proof (wf_cnt _ (rp_wf _ _ Hs)) as Hcnt. pose proof (vk_range _ _ (rp_volume _ _ Hs) sec (or_introl Hsec)) as Hsr.
  unfold inode_create. erewrite bind_run; [|apply assert_run, Z.leb_le; lia]. cbv zeta. fold n.
  destruct calloc; [|exists false, s; split; [done|]; split; [apply moved_refl|]; split; [done|by left]].
  destruct (allocate_refines s v n Hs ltac:(lia)) as ([a|] & s1 & Hr1 & Hm1 & Hres);
    [|exists false, s1; rewrite (bind_run _ _ _ _ _ Hr1); split; [done|]; split; [eapply moved_weaken; [|done]; tauto|]; split; [apply Hres|right; apply Hres]].
  destruct Hres as (Ha0 & Ha1 & Hfree & Hbits & Hs1). rewrite (bind_run _ _ _ _ _ Hr1).
  pose proof (moved_block _ _ _ _ Hm1 (rp_block _ _ Hs)) as Hb1. pose proof (rp_device _ _ Hs1) as Hd1.
  destruct (write_sector_run s1 _ sec (disk_bytes (InodeDisk a len INODE_MAGIC)) Hd1 Hb1 Hsr) as (s2 & Hr2 & Hm2 & Hf2 & Hsec2).
  rewrite (bind_run _ _ _ _ _ Hr2). pose proof (sd_ok _ _ (mv_devices _ _ _ Hm2) Hd1) as Hd2.
  destruct (zero_sectors_run s2 _ a n Hd2 (moved_block _ _ _ _ Hm2 Hb1) Ha0 ltac:(lia) Ha1 ltac:(lia)) as (s3 & Hr3 & Hm3 & Hf3 & Hz).
  exists true, s3. split.
  { destruct (Z.ltb_spec 0 n) as [_|Hle]; [by rewrite (bind_run _ _ _ _ _ Hr3)|].
    replace n with 0 in Hr3 by lia. injection Hr3 as <-. done. }
  assert (∀ i, used v i → 0 ≤ i < bit_cnt (free_map s) ∧ i ∉ sectors a n) as Hout.
  { intros i Hi. split; [by apply (rp_volume _ _ Hs)|]. by intros [_ ?]%Hfree. }
  assert (moved (λ i, i ∉ map_sectors ∧ used v i ∧ i ≠ sec) s s3) as Hm.
  { eapply moved_trans; [eapply moved_weaken; [|exact Hm1]; tauto|].
    eapply moved_trans; (eapply moved_weaken; [|eassumption]); intros i (_ & Hi%Hout & Hne); tauto. }
  assert (free_map s3 = free_map s1) as Hf by congruence. destruct Hbits as (Hwf1 & Hc1 & Hb).
  split; [done|]. exists a. cbv zeta. split_and!.
  - assert (disk_ok (InodeDisk a len INODE_MAGIC)) as Hdk by (constructor; [unfold fits; cbn; lia|done|done]).
    eapply represents_moved; [exact Hs|exact Hm|by rewrite Hf|by rewrite Hf| | | | |].
    + apply add_file_ok; [apply Hs|done|done| |done]. by intros i ?%Hfree.
    + intros i Hi. unfold new_file. rewrite (used_add_file _ _ (rp_volume _ _ Hs)), <-(rp_map _ _ Hs), Hf, Hb by done.
      unfold data_sectors. cbn [d_start d_length]. fold n. rewrite <-within_sectors. destruct (within a n i); intuition congruence.
    + intros sec' d'. cbn [new_file add_file live]. intros [[<- <-]|[Hne Hl]]%lookup_insert_Some.
      * rewrite (mv_disk _ _ _ Hm3); [done|]. split; [done|]. intros [_ Hu]%Hfree. apply Hu. by left.
      * rewrite (mv_disk _ _ _ Hm); [by apply Hs|]. split; [by eapply live_not_map|]. split; [|done].
        right. exists sec', d'. auto.
    + cbn. pose proof (rp_own _ _ Hs). set_solver.
    + destruct (rp_table _ _ Hs) as [? ? ? Hi ?]. constructor; try done. intros i x Hx. destruct (Hi i x Hx) as [Hl ?].
      split; [|done]. cbn. rewrite lookup_insert_ne; [done|]. intros E. rewrite <-E in Hl.
      by rewrite (held_not_live _ _ (rp_volume _ _ Hs)) in Hl.
  - intros i Hi. split; [by apply Hfree|by apply Hz].
  - intros i Hi. rewrite Hf, Hb by done. by destruct (within a n i).
  - by rewrite Hf.
Qed.

(** *** Open inodes *)

(** A change of the counters of an open inode. *)
Lemma update_refines s v i x x' : represents s v → inodes s !! i = Some x → i_sector x' = i_sector x → i_data x' = i_data x →
  0 < open_cnt x' < 2 ^ 31 → 0 ≤ deny_write_cnt x' ≤ open_cnt x' → represents (set_inodes <[i := x']> s) v.
Proof.
  intros [] Hx Es Ed Ho Hd. constructor; try done. destruct rp_table0 as [? Hdom Hnull Hin Honce].
  constructor; cbn [set_inodes inodes open_inodes].
  - done.
  - intros j. rewrite lookup_insert_is_Some, Hdom. split; [|destruct (decide (i = j)); tauto].
    intros [<-|[_ ?]]; [apply Hdom; by eexists|done].
  - rewrite lookup_insert_ne; [done|]. intros ->. congruence.
  - intros j y [[<- <-]|[_ Hy]]%lookup_insert_Some; [|by eapply Hin]. rewrite Es, Ed. by destruct (Hin i x Hx).
  - intros j k y z [[<- <-]|[_ Hy]]%lookup_insert_Some [[<- <-]|[_ Hz]]%lookup_insert_Some; rewrite ?Es; try done; try by eapply Honce.
    all: intros E; eapply Honce; [done|done|congruence].
Qed.

Lemma find_open_run s sec l : (∀ i, i ∈ l → is_Some (inodes s !! i)) →
  ∃ r, find_open sec l s = Ret (r, s) ∧
    match r with
    | Some i => ∃ x, inodes s !! i = Some x ∧ i_sector x = sec
    | None => ∀ i x, i ∈ l → inodes s !! i = Some x → i_sector x ≠ sec
    end.
Proof.
  induction l as [|i l IH]; intros Hl; [exists None; split; [done|set_solver]|]. cbn [find_open].
  destruct (Hl i) as [x Hx]; [set_solver|]. rewrite (bind_run _ _ _ _ _ (ld_inode_run _ _ _ Hx)).
  destruct (Z.eqb_spec (i_sector x) sec) as [E|Hne]; [exists (Some i); split; [done|eauto]|].
  destruct IH as (r & Hr & Hres); [set_solver|]. exists r. split; [done|]. destruct r; [done|].
  intros j y [->|Hj]%elem_of_cons Hy; [congruence|eauto].
Qed.

(** An open inode for [sec], if there is one. *)
Definition opened (t : gmap addr inode) (sec : Z) (i : addr) (x : inode) : Prop := t !! i = Some x ∧ i_sector x = sec.

Lemma reopen_run s i x : inodes s !! i = Some x → inodes s !! NULL = None → 0 < open_cnt x < 2 ^ 31 - 1 →
  inode_reopen i s = Ret (i, set_inodes <[i := with_cnt (open_cnt x + 1) x]> s).
Proof.
  intros Hx Hn Hc. unfold inode_reopen. replace (nonnull i) with true.
  2: { unfold nonnull. destruct (Z.eqb_spec i NULL) as [->|]; [congruence|done]. }
  rewrite (bind_run _ _ _ _ _ (upd_inode_run _ _ _ (λ x, with_cnt (s32 (open_cnt x + 1)) x) Hx)). cbv beta. by rewrite swrap_small by lia.
Qed.

Lemma open_refines s v sec d p : represents s v → live v !! sec = Some d → inodes s !! p = None →
  (∀ i x, opened (inodes s) sec i x → open_cnt x < 2 ^ 31 - 1) →
  ∃ i s', inode_open fs_device sec p s = Ret (i, s') ∧ represents s' v ∧ free_map s' = free_map s ∧
    free_map_file s' = free_map_file s ∧ (∀ j, disk s' j = disk s j) ∧
    ((∃ x, opened (inodes s) sec i x ∧ inodes s' = <[i := with_cnt (open_cnt x + 1) x]> (inodes s) ∧ open_inodes s' = open_inodes s) ∨
     ((∀ j x, ¬ opened (inodes s) sec j x) ∧
      ((i = NULL ∧ p = NULL ∧ s' = s) ∨
       (i = p ∧ p ≠ NULL ∧ inodes s' = <[p := Inode sec 1 false 0 d]> (inodes s) ∧ open_inodes s' = p :: open_inodes s)))).
Proof.
  intros Hs Hd Hp Hroom. pose proof (rp_table _ _ Hs) as Ht. unfold inode_open. erewrite bind_run; [|reflexivity].
  destruct (find_open_run s sec (open_inodes s)) as (r & Hr & Hres); [intros i; apply Ht|].
  rewrite (bind_run _ _ _ _ _ Hr). destruct r as [i|].
  - destruct Hres as (x & Hx & Esec). destruct (tk_inode _ _ Ht i x Hx) as (_ & Hc & Hdn).
    pose proof (Hroom i x (conj Hx Esec)) as Hlt. eexists i, _. split; [apply (reopen_run s i x Hx (tk_null _ _ Ht)); lia|].
    split; [eapply update_refines; try done; cbn; lia|]. split_and!; [done..|]. left. by exists x.
  - assert (∀ j x, ¬ opened (inodes s) sec j x) as Hno.
    { intros j x [Hx E]. apply (Hres j x); [apply Ht; eauto|done|done]. }
    unfold nonnull. destruct (Z.eqb_spec p NULL) as [->|Hne]; cbn [negb].
    { exists NULL, s. split_and!; try done. right. split; [done|]. by left. }
    destruct (rp_block _ _ Hs) as (x & Hx & Htype & Hsize). pose proof (vk_range _ _ (rp_volume _ _ Hs) sec) as Hrange.
    destruct (block_read_run (device s) fs_device x sec) as (bs & d' & Hrd & Hsd & Hbs & Hsame);
      [apply Hs|done|rewrite Hsize; apply Hrange; right; exists sec, d; by auto|].
    rewrite (rp_disk _ _ Hs sec d Hd) in Hbs. injection Hbs as <-.
    erewrite bind_run; [|reflexivity]. erewrite bind_run; [|by apply on_device_run]. erewrite bind_run; [|reflexivity].
    rewrite disk_roundtrip by by eapply (vk_disk _ _ (rp_volume _ _ Hs)).
    eexists p, _. split; [done|]. split; [|split_and!; [done|done|intros j; apply Hsame|right; split; [done|]; by right]].
    constructor; cbn [set_inodes set_device set_open device free_map]; try apply Hs.
    + eapply sd_ok; [done|apply Hs].
    + by eapply (same_block s); [|apply Hs].
    + intros sec' d'' Hl. by rewrite Hsame, (rp_disk _ _ Hs sec' d'').
    + destruct Ht as [Hnd Hdom Hnull Hin Honce]. constructor; cbn [set_inodes set_device set_open inodes open_inodes].
      * constructor; [|done]. rewrite <-Hdom, Hp. by intros [? ?].
      * intros j. rewrite lookup_insert_is_Some, Hdom, elem_of_cons. destruct (decide (p = j)); intuition congruence.
      * by rewrite lookup_insert_ne.
      * intros j y [[<- <-]|[_ Hy]]%lookup_insert_Some; [|by eapply Hin]. cbn. split; [done|lia].
      * intros j k y z [[<- <-]|[_ Hy]]%lookup_insert_Some [[<- <-]|[_ Hz]]%lookup_insert_Some; cbn; [done| | |by eapply Honce].
        -- intros E. by destruct (Hno k z).
        -- intros E. by destruct (Hno j y).
Qed.

(** *** Closing *)

Lemma represents_nonnull s v i x : represents s v → inodes s !! i = Some x → nonnull i = true.
Proof.
  intros Hs Hx. unfold nonnull. destruct (Z.eqb_spec i NULL) as [->|]; [|done]. by rewrite (tk_null _ _ (rp_table _ _ Hs)) in Hx.
Qed.

(** The table without an inode. *)
Definition closed (i : addr) s : istate D := set_inodes (delete i) (set_open (filter (λ j, j ≠ i)) s).

Lemma closed_refines s v i : represents s v → represents (closed i s) v.
Proof.
  intros []. constructor; try done. destruct rp_table0 as [? Hdom Hnull Hin Honce].
  constructor; cbn [closed set_inodes set_open inodes open_inodes].
  - by apply NoDup_filter.
  - intros j. rewrite lookup_delete_is_Some, Hdom, list_elem_of_filter. split; intros [??]; (split; [congruence|done]).
  - by apply lookup_delete_None; right.
  - intros j y [_ Hy]%lookup_delete_Some. by eapply Hin.
  - intros j k y z [_ Hy]%lookup_delete_Some [_ Hz]%lookup_delete_Some. by eapply Honce.
Qed.

(** Closing a removed file for the last time releases its sectors. *)
Lemma drop_refines s v sec d : represents s v → live v !! sec = Some d → free_map_file s ≠ NULL →
  (∀ j x, ¬ opened (inodes s) sec j x) →
  ∃ s', (free_map_release bitmap_write sec 1;; free_map_release bitmap_write (d_start d) (bytes_to_sectors (d_length d))) s = Ret ((), s') ∧
    moved others s s' ∧ bit_cnt (free_map s') = bit_cnt (free_map s) ∧ represents s' (drop_file v sec).
Proof.
  intros Hs Hd Hf Hno. pose proof (rp_volume _ _ Hs) as Hv. pose proof (rp_wf _ _ Hs) as Hwf.
  destruct (vk_disk _ _ Hv sec d Hd) as [Hst Hlen _]. destruct (bytes_to_sectors_small _ Hlen) as [_ Hn].
  assert (∀ i, i = sec ∨ i ∈ data_sectors d → 0 ≤ i < bit_cnt (free_map s) ∧ bit (free_map s) i = true) as Hin.
  { intros i Hi. assert (used v i) as Hu by (right; by exists sec, d). pose proof (vk_range _ _ Hv i Hu).
    split; [done|]. by apply (rp_map _ _ Hs). }
  pose proof (Hin sec (or_introl eq_refl)) as [Hsr Hsb]. set (n := bytes_to_sectors (d_length d)) in *.
  destruct (free_map_release_run s sec 1 (rp_device _ _ Hs) Hwf Hf) as (s1 & Hr1 & Hm1 & Hwf1 & Hc1 & Hb1); [lia..| |].
  { intros j Hj. replace j with sec by lia. done. }
  assert (∀ i, i ∈ sectors (d_start d) n → 0 ≤ i < bit_cnt (free_map s) ∧ bit (free_map s1) i = true) as Hin1.
  { intros i Hi. destruct (Hin i (or_intror Hi)) as [Hir Hib]. split; [done|]. rewrite Hb1, Hib by done.
    destruct (within sec 1 i) eqn:E; [|done]. apply within_sectors, elem_of_sectors in E. replace i with sec in Hi by lia.
    by destruct (vk_self _ _ Hv sec d Hd). }
  pose proof (vk_end _ _ Hv sec d Hd) as Hend. fold n in Hend. unfold fits in Hst.
  destruct (free_map_release_run s1 (d_start d) n) as (s2 & Hr2 & Hm2 & Hwf2 & Hc2 & Hb2);
    [eapply sd_ok; [apply Hm1|apply Hs]|done|by rewrite (mv_file _ _ _ Hm1)|lia..| |].
  { intros j Hj. apply Hin1, elem_of_sectors. lia. }
  exists s2. split; [by rewrite (bind_run _ _ _ _ _ Hr1)|]. assert (moved others s s2) as Hm by by eapply moved_trans.
  split; [done|]. split; [congruence|]. eapply represents_moved; [exact Hs|exact Hm|done|congruence| | | | |].
  - by eapply drop_file_ok.
  - intros i Hi. rewrite (used_drop_file _ _ Hv sec d Hd), <-(rp_map _ _ Hs) by done.
    rewrite Hb2, Hb1 by congruence. unfold data_sectors. fold n. rewrite <-within_sectors.
    assert (within sec 1 i = true ↔ i = sec) as Hw by (rewrite within_sectors, elem_of_sectors; lia).
    destruct (within (d_start d) n i), (within sec 1 i); intuition congruence.
  - eapply files_kept; [done..|]. cbn. apply delete_subseteq.
  - apply Hs.
  - destruct (rp_table _ _ Hs) as [? ? ? Hi ?]. constructor; try done. intros j x Hx. destruct (Hi j x Hx) as [Hl ?].
    split; [|done]. cbn. rewrite lookup_delete_ne; [done|]. intros E. by destruct (Hno j x).
Qed.

(** The free map does not depend on the inodes. *)
Lemma release_frame g a n s s' : free_map_release bitmap_write a n s = Ret ((), s') →
  free_map_release bitmap_write a n (set_inodes g s) = Ret ((), set_inodes g s').
Proof.
  unfold free_map_release, write_free_map, on_map, on_device, gets, mbind, ST_bind, ASSERT, mret, ST_ret.
  cbn [set_inodes set_map set_device free_map free_map_file device inodes open_inodes].
  destruct (bitmap_all a n (free_map s)) as [[[] b]| | |]; try done. cbn [set_map free_map free_map_file device inodes open_inodes].
  destruct (bitmap_set_multiple a n false b) as [[[] b2]| | |]; try done. cbn [set_map free_map free_map_file device inodes open_inodes].
  destruct (bitmap_write b2 (free_map_file s) (device s)) as [[ok d]| | |] eqn:Ew; try done. intros [= <-].
  change (free_map_file (set_inodes g s)) with (free_map_file s). change (device (set_inodes g s)) with (device s). by rewrite Ew.
Qed.

Lemma releases_frame g a n b m s s' : (free_map_release bitmap_write a n;; free_map_release bitmap_write b m) s = Ret ((), s') →
  (free_map_release bitmap_write a n;; free_map_release bitmap_write b m) (set_inodes g s) = Ret ((), set_inodes g s').
Proof.
  destruct (free_map_release bitmap_write a n s) as [[[] s1]| | |] eqn:E; unfold mbind at 1, ST_bind at 1; rewrite E; try done.
  intros Hr. rewrite (bind_run _ _ _ _ _ (release_frame g _ _ _ _ E)). by apply release_frame.
Qed.

Lemma close_refines s v i x : represents s v → inodes s !! i = Some x → deny_write_cnt x < open_cnt x → free_map_file s ≠ NULL →
  ∃ s', inode_close bitmap_write i s = Ret ((), s') ∧ bit_cnt (free_map s') = bit_cnt (free_map s) ∧
    if open_cnt x =? 1 then
      inodes s' = delete i (inodes s) ∧ open_inodes s' = filter (λ j, j ≠ i) (open_inodes s) ∧
      represents s' (if removed x then drop_file v (i_sector x) else v)
    else inodes s' = <[i := with_cnt (open_cnt x - 1) x]> (inodes s) ∧ open_inodes s' = open_inodes s ∧ represents s' v.
Proof.
  intros Hs Hx Hdeny Hf. destruct (tk_inode _ _ (rp_table _ _ Hs) i x Hx) as (Hl & Hc & Hd).
  unfold inode_close. rewrite (represents_nonnull s v i x) by done. cbn [negb].
  rewrite (bind_run _ _ _ _ _ (upd_inode_run _ _ _ (λ x, with_cnt (s32 (open_cnt x - 1)) x) Hx)). cbv beta.
  rewrite swrap_small by lia. set (x0 := with_cnt (open_cnt x - 1) x).
  rewrite (bind_run _ _ _ _ _ (ld_inode_run _ i x0 (lookup_insert_eq _ _ _))). cbn [x0 with_cnt open_cnt removed i_sector i_data].
  destruct (Z.eqb_spec (open_cnt x) 1) as [E1|Hne]; [destruct (Z.eqb_spec (open_cnt x - 1) 0); [|lia]|].
  2: { rewrite (proj2 (Z.eqb_neq (open_cnt x - 1) 0)) by lia. eexists. split; [done|]. split_and!; [done..|].
       eapply update_refines; [done..| |]; cbn; lia. }
  erewrite bind_run; [|reflexivity]. pose proof (closed_refines s v i Hs) as Hs1.
  set (g := λ _ : gmap addr inode, <[i := x0]> (inodes s)).
  change (set_open _ _) with (set_inodes g (closed i s)).
  assert (∀ t : istate D, inodes t = delete i (inodes s) → set_inodes (delete i) (set_inodes g t) = t) as Hback.
  { intros t Ht. unfold set_inodes, g. cbn [inodes open_inodes free_map free_map_file device].
    rewrite delete_insert_eq, <-Ht. by destruct t. }
  destruct (removed x) eqn:Er.
  - assert (∀ j y, ¬ opened (inodes (closed i s)) (i_sector x) j y) as Hno.
    { intros j y [Hy Esec]. cbn [closed set_inodes set_open inodes] in Hy. apply lookup_delete_Some in Hy as [Hne Hy]. by apply Hne, (tk_once _ _ (rp_table _ _ Hs) i j x y). }
    destruct (drop_refines (closed i s) v (i_sector x) (i_data x) Hs1 Hl Hf Hno) as (s2 & Hr & Hm & Hcnt & Hs2).
    exists s2. erewrite bind_run; [|by apply releases_frame]. unfold modify. rewrite Hback by apply Hm.
    split; [done|]. split; [done|]. split; [apply Hm|]. split; [apply Hm|done].
  - exists (closed i s). erewrite bind_run; [|reflexivity]. unfold modify. by rewrite Hback.
Qed.

(** ** The operations, and what they do to the volume and the table *)

Inductive inode_op :=
| Allocate (cnt : Z) | Release (a cnt : Z) | Create (sec len : Z) (calloc : bool) | Open (sec : Z) (p : addr)
| Reopen (i : addr) | Remove (i : addr) | Close (i : addr) | Deny (i : addr) | Allow (i : addr).

Definition exec (o : inode_op) : ST (istate D) Z :=
  match o with
  | Allocate cnt => r ← free_map_allocate bitmap_write cnt; mret (default (-1) r)
  | Release a cnt => free_map_release bitmap_write a cnt;; mret 0
  | Create sec len calloc => b ← inode_create fs_device bitmap_write sec len calloc; mret (if (b : bool) then 1 else 0)
  | Open sec p => inode_open fs_device sec p
  | Reopen i => inode_reopen i
  | Remove i => inode_remove i;; mret 0
  | Close i => inode_close bitmap_write i;; mret 0
  | Deny i => inode_deny_write i;; mret 0
  | Allow i => inode_allow_write i;; mret 0
  end.

(** What a caller must respect. *)
Definition op_ok s v (o : inode_op) : Prop :=
  match o with
  | Allocate cnt => 0 ≤ cnt
  | Release a cnt => 0 ≤ a ∧ 0 ≤ cnt ∧ a + cnt ≤ bit_cnt (free_map s) ∧ sectors a cnt ⊆ held v ∖ map_sectors ∧ free_map_file s ≠ NULL
  | Create sec len _ => sec ∈ held v ∖ map_sectors ∧ 0 ≤ len ≤ 2 ^ 31 - 512
  | Open sec p => is_Some (live v !! sec) ∧ inodes s !! p = None ∧ ∀ i x, opened (inodes s) sec i x → open_cnt x < 2 ^ 31 - 1
  | Reopen i => ∃ x, inodes s !! i = Some x ∧ open_cnt x < 2 ^ 31 - 1
  | Remove i => is_Some (inodes s !! i)
  | Close i | Deny i => ∃ x, inodes s !! i = Some x ∧ deny_write_cnt x < open_cnt x ∧ free_map_file s ≠ NULL
  | Allow i => ∃ x, inodes s !! i = Some x ∧ 0 < deny_write_cnt x
  end.

(** The effect on the table [t] of open inodes and on the volume. *)
Definition effect (n : Z) (t : gmap addr inode) v (o : inode_op) (r : Z) (t' : gmap addr inode) (v' : volume) : Prop :=
  match o with
  | Allocate cnt => t' = t ∧
      (r = -1 ∧ v' = v ∧ (no_room n v cnt ∨ write_fails) ∨ 0 ≤ r ∧ (∀ i, i ∈ sectors r cnt → ¬ used v i) ∧ v' = hold v (sectors r cnt))
  | Release a cnt => t' = t ∧ v' = unhold v (sectors a cnt)
  | Create sec len calloc => t' = t ∧
      (r = 0 ∧ v' = v ∧ (calloc = false ∨ no_room n v (bytes_to_sectors len) ∨ write_fails) ∨ r = 1 ∧ ∃ a, v' = new_file v sec len a ∧ ∀ i, i ∈ sectors a (bytes_to_sectors len) → ¬ used v i)
  | Open sec p => v' = v ∧
      ((∃ x, opened t sec r x ∧ t' = <[r := with_cnt (open_cnt x + 1) x]> t) ∨
       (∀ j x, ¬ opened t sec j x) ∧
         (r = NULL ∧ p = NULL ∧ t' = t ∨ r = p ∧ p ≠ NULL ∧ ∃ d, live v !! sec = Some d ∧ t' = <[p := Inode sec 1 false 0 d]> t))
  | Reopen i => v' = v ∧ r = i ∧ t' = alter (λ x, with_cnt (open_cnt x + 1) x) i t
  | Remove i => v' = v ∧ t' = alter with_removed i t
  | Close i => ∃ x, t !! i = Some x ∧
      if open_cnt x =? 1 then t' = delete i t ∧ v' = (if removed x then drop_file v (i_sector x) else v)
      else t' = <[i := with_cnt (open_cnt x - 1) x]> t ∧ v' = v
  | Deny i => v' = v ∧ t' = alter (λ x, with_deny (deny_write_cnt x + 1) x) i t
  | Allow i => v' = v ∧ t' = alter (λ x, with_deny (deny_write_cnt x - 1) x) i t
  end.

Lemma alter_insert (t : gmap addr inode) i x f : t !! i = Some x → alter f i t = <[i := f x]> t.
Proof.
  intros Hx. apply map_eq. intros j. destruct (decide (i = j)) as [<-|Hne].
  - by rewrite lookup_alter_eq, Hx, lookup_insert_eq.
  - by rewrite lookup_alter_ne, lookup_insert_ne.
Qed.

(** The operations on an open inode that only change its counters. *)
Lemma counter_refines s v o : represents s v → op_ok s v o →
  match o with Reopen _ | Remove _ | Deny _ | Allow _ => True | _ => False end →
  ∃ r s' v', exec o s = Ret (r, s') ∧ represents s' v' ∧ effect (bit_cnt (free_map s)) (inodes s) v o r (inodes s') v'.
Proof.
  intros Hs Hok Ho. destruct o as [| | | |i|i| |i|i]; try done.
  - destruct Hok as (x & Hx & Hlt). destruct (tk_inode _ _ (rp_table _ _ Hs) i x Hx) as (Hl & Hc & Hd).
    exists i, (set_inodes <[i := with_cnt (open_cnt x + 1) x]> s), v.
    split; [apply reopen_run; [done|apply Hs|lia]|]. split; [eapply update_refines; try done; cbn; lia|].
    cbn. by rewrite (alter_insert _ _ _ _ Hx).
  - destruct Hok as (x & Hx). destruct (tk_inode _ _ (rp_table _ _ Hs) i x Hx) as (Hl & Hc & Hd).
    exists 0, (set_inodes <[i := with_removed x]> s), v. unfold exec, inode_remove.
    erewrite bind_run; [|erewrite bind_run; [|apply assert_run; by eapply represents_nonnull]; by apply upd_inode_run].
    split; [done|]. split; [by eapply update_refines|]. cbn. by rewrite (alter_insert _ _ _ _ Hx).
  - destruct Hok as (x & Hx & Hlt & _). destruct (tk_inode _ _ (rp_table _ _ Hs) i x Hx) as (Hl & Hc & Hd).
    exists 0, (set_inodes <[i := with_deny (deny_write_cnt x + 1) x]> s), v. unfold exec, inode_deny_write.
    erewrite bind_run.
    2: { rewrite (bind_run _ _ _ _ _ (upd_inode_run _ _ _ (λ x, with_deny (s32 (deny_write_cnt x + 1)) x) Hx)). cbv beta.
         rewrite swrap_small by lia. erewrite bind_run; [|apply ld_inode_run, lookup_insert_eq]. apply assert_run, Z.leb_le. cbn. lia. }
    split; [done|]. split; [eapply update_refines; try done; cbn; lia|]. cbn. by rewrite (alter_insert _ _ _ _ Hx).
  - destruct Hok as (x & Hx & Hlt). destruct (tk_inode _ _ (rp_table _ _ Hs) i x Hx) as (Hl & Hc & Hd).
    exists 0, (set_inodes <[i := with_deny (deny_write_cnt x - 1) x]> s), v. unfold exec, inode_allow_write.
    erewrite bind_run.
    2: { erewrite bind_run; [|by apply ld_inode_run]. erewrite bind_run; [|apply assert_run, Z.ltb_lt; lia].
         erewrite bind_run; [|apply assert_run, Z.leb_le; lia].
         rewrite (upd_inode_run _ _ _ (λ x, with_deny (s32 (deny_write_cnt x - 1)) x) Hx). by rewrite swrap_small by lia. }
    split; [done|]. split; [eapply update_refines; try done; cbn; lia|]. cbn. by rewrite (alter_insert _ _ _ _ Hx).
Qed.

Lemma exec_refines s v o : represents s v → op_ok s v o →
  ∃ r s' v', exec o s = Ret (r, s') ∧ represents s' v' ∧ effect (bit_cnt (free_map s)) (inodes s) v o r (inodes s') v'.
Proof.
  intros Hs Hok. destruct o as [cnt|a cnt|sec len calloc|sec p| | |i| | ]; try by apply counter_refines.
  - destruct (allocate_refines s v cnt Hs Hok) as (r & s' & Hr & Hm & Hres).
    exists (default (-1) r), s', (match r with Some a => hold v (sectors a cnt) | None => v end). cbn [exec].
    rewrite (bind_run _ _ _ _ _ Hr). split; [done|]. cbn [effect]. destruct r as [a|]; cbn [default id from_option].
    + destruct Hres as (? & ? & Hfree & _ & ?). split; [done|]. split; [apply Hm|]. right.
      split; [done|]. split; [by intros i [_ ?]%Hfree|done].
    + split; [apply Hres|]. split; [apply Hm|]. left. split_and!; [done..|apply Hres].
  - destruct Hok as (Ha & Hc & Hac & Hin & Hf). pose proof (rp_own _ _ Hs) as Hown.
    destruct (release_refines s v (unhold v (sectors a cnt)) a cnt) as (s' & Hr & Hm & _ & Hs'); try done.
    + intros i Hi. left. set_solver.
    + apply unhold_ok, Hs.
    + cbn. set_solver.
    + intros i. apply (used_unhold _ _ (rp_volume _ _ Hs)). set_solver.
    + destruct (rp_table _ _ Hs). by constructor.
    + exists 0, s', (unhold v (sectors a cnt)). cbn [exec]. rewrite (bind_run _ _ _ _ _ Hr). split; [done|]. split; [done|].
      split; [apply Hm|done].
  - destruct Hok as [Hsec Hlen]. destruct (create_refines s v sec len calloc Hs) as (b & s' & Hr & Hm & Hres); [set_solver..|done|].
    destruct b; [destruct Hres as (a & Hs' & Hz & _)|].
    + exists 1, s', (new_file v sec len a). cbn [exec]. rewrite (bind_run _ _ _ _ _ Hr). split; [done|]. split; [done|].
      split; [apply Hm|]. right. split; [done|]. exists a. split; [done|]. intros i Hi. by apply Hz.
    + exists 0, s', v. cbn [exec]. rewrite (bind_run _ _ _ _ _ Hr). split; [done|]. split; [apply Hres|].
      split; [apply Hm|left; split_and!; [done..|apply Hres]].
  - destruct Hok as ([d Hd] & Hp & Hroom). destruct (open_refines s v sec d p Hs Hd Hp Hroom) as (i & s' & Hr & Hs' & _ & _ & _ & Hres).
    exists i, s', v. split; [done|]. split; [done|]. split; [done|].
    destruct Hres as [(x & ? & ? & _)|[Hno [(-> & -> & ->)|(-> & ? & ? & _)]]]; [left; by exists x|right; split; [done|]; by left|].
    right. split; [done|]. right. split_and!; [done..|]. by exists d.
  - destruct Hok as (x & Hx & Hlt & Hf). destruct (close_refines s v i x Hs Hx Hlt Hf) as (s' & Hr & _ & Hres).
    exists 0, s', (if (open_cnt x =? 1) && removed x then drop_file v (i_sector x) else v). cbn [exec].
    rewrite (bind_run _ _ _ _ _ Hr). split; [done|]. cbn [effect]. destruct (open_cnt x =? 1) eqn:E; cbn [andb].
    + destruct Hres as (? & _ & ?). split; [done|]. exists x. by rewrite E.
    + destruct Hres as (? & _ & ?). split; [done|]. exists x. by rewrite E.
Qed.

(** ** After start-up *)

(** [free_map_init] on a device of at least two sectors leaves a volume without files, in which
    the sectors of the system files are held. *)
Lemma free_map_init_run s x ws : blocks_ok (device s) → blocks (device s) !! fs_device = Some x → b_type x ≠ BLOCK_FOREIGN →
  2 ≤ b_size x ≤ 2 ^ 32 - 32 → fresh_bits (b_size x) ws → inodes s = ∅ → open_inodes s = [] → map_sectors ⊆ {[0; 1]} →
  ∃ s', free_map_init fs_device true (Some ws) s = Ret ((), s') ∧ represents s' (Volume ∅ {[FREE_MAP_SECTOR; ROOT_DIR_SECTOR]}).
Proof.
  intros Hd Hx Ht Hn Hws Hi Ho Hm. unfold free_map_init.
  assert (block_size fs_device (device s) = Ret (b_size x, device s)) as Hsz
    by (unfold block_size; by rewrite (bind_run _ _ _ _ _ (ld_block_run _ _ _ Hx))).
  rewrite (bind_run _ _ _ _ _ (on_device_run _ _ _ _ Hsz)).
  destruct (bitmap_create_spec (b_size x) ws ltac:(lia) Hws) as (b & Hb & Hwf & Hc & Hz).
  erewrite bind_run; [|unfold lift; by rewrite Hb]. cbv beta iota. erewrite bind_run; [|reflexivity].
  destruct (bitmap_mark_spec b Hwf FREE_MAP_SECTOR) as (b1 & Hr1 & Hwf1 & Hc1 & Hb1); [unfold FREE_MAP_SECTOR; lia|].
  destruct (bitmap_mark_spec b1 Hwf1 ROOT_DIR_SECTOR) as (b2 & Hr2 & Hwf2 & Hc2 & Hb2); [unfold ROOT_DIR_SECTOR; lia|].
  erewrite bind_run; [|by apply on_free_map_run]. erewrite on_free_map_run; [|exact Hr2]. eexists. split; [done|].
  assert (∀ i, used (Volume ∅ {[FREE_MAP_SECTOR; ROOT_DIR_SECTOR]}) i ↔ i = 0 ∨ i = 1) as Hu.
  { intros i. unfold used, in_file. cbn [live held]. setoid_rewrite lookup_empty. unfold FREE_MAP_SECTOR, ROOT_DIR_SECTOR. set_solver. }
  constructor; cbn [set_map set_device device free_map live held]; rewrite ?Hc2, ?Hc1, ?Hc; try done.
  - exists x. by destruct (device s).
  - constructor; cbn [live]; try (intros *; by rewrite lookup_empty). intros i [->| ->]%Hu; lia.
  - intros i Hir. rewrite Hu, Hb2, Hb1, Hz by lia. unfold FREE_MAP_SECTOR, ROOT_DIR_SECTOR.
    destruct (Z.eqb_spec i 1), (Z.eqb_spec i 0); intuition (lia || done).
  - constructor; cbn [set_map set_device inodes open_inodes]; rewrite ?Hi, ?Ho; try (intros *; rewrite lookup_empty; done).
    + constructor.
    + intros j. rewrite lookup_empty. split; [by intros [? ?]|by intros ?%not_elem_of_nil].
Qed.

(** ** What allocation does to the open inodes *)

Definition table_kept s s' : Prop := inodes s' = inodes s ∧ open_inodes s' = open_inodes s.

Lemma wlp_on_map {A} (f : BM A) s0 s : table_kept s0 s → wlp (on_map f) s (λ _ s', table_kept s0 s').
Proof. intros Hs a s'. unfold on_map. destruct (f (free_map s)) as [[a' b]| | |]; [|done..]. by intros [= <- <-]. Qed.
Lemma wlp_on_device {A} (f : ST (bstate D) A) s0 s : table_kept s0 s → wlp (on_device f) s (λ _ s', table_kept s0 s').
Proof. intros Hs a s'. unfold on_device. destruct (f (device s)) as [[a' d]| | |]; [|done..]. by intros [= <- <-]. Qed.

Lemma wlp_allocate n s0 s : table_kept s0 s → wlp (free_map_allocate bitmap_write n) s (λ _ s', table_kept s0 s').
Proof.
  intros Hs. unfold free_map_allocate, write_free_map. apply wlp_bind. eapply wlp_mono; [by apply (wlp_on_map _ s0)|].
  intros sector s1 H1. apply wlp_bind, wlp_gets, wlp_bind. eapply wlp_mono with (P := λ _ s', table_kept s0 s'); [|by intros; apply wlp_ret].
  destruct (_ && _); [|by apply wlp_ret]. apply wlp_bind, wlp_bind, wlp_gets, wlp_bind, wlp_gets.
  eapply wlp_mono; [by apply (wlp_on_device _ s0)|]. intros [] s2 H2; [by apply wlp_ret|]. apply wlp_bind.
  eapply wlp_mono; [by apply (wlp_on_map _ s0)|]. intros [] s3 H3. by apply wlp_ret.
Qed.

Lemma wlp_zero_sectors (f : Z → ST (bstate D) ()) k s0 : ∀ i s, table_kept s0 s →
  wlp (for_each k i (λ i, on_device (f i))) s (λ _ s', table_kept s0 s').
Proof.
  induction k as [|k IH]; intros i s Hs; cbn [for_each]; [by apply wlp_ret|].
  apply wlp_bind. eapply wlp_mono; [by apply (wlp_on_device _ s0)|]. intros [] s1 H1. by apply IH.
Qed.

(** When [free_map_allocate], [free_map_release] and [inode_create] return, for whatever
    arguments and in whatever state, no inode object has changed: each has its openers, its
    writers denied and its length. *)
Theorem allocation_keeps_inodes :
  (∀ n s, wlp (free_map_allocate bitmap_write n) s (λ _ s', table_kept s s')) ∧
  (∀ sector len calloc s, wlp (inode_create fs_device bitmap_write sector len calloc) s (λ _ s', table_kept s s')) ∧
  (∀ sector n s, wlp (free_map_release bitmap_write sector n) s (λ _ s', table_kept s s')).
Proof.
  assert (∀ s, table_kept s s) as Hrefl by done. split_and!.
  - intros n s. by apply wlp_allocate.
  - intros sector len calloc s. unfold inode_create. apply wlp_bind, wlp_assert. intros _. destruct calloc; [|by apply wlp_ret].
    apply wlp_bind. eapply wlp_mono; [by apply (wlp_allocate _ s)|]. intros [start|] s1 H1; [|by apply wlp_ret].
    apply wlp_bind. eapply wlp_mono; [by apply (wlp_on_device _ s)|]. intros [] s2 H2. apply wlp_bind.
    eapply wlp_mono with (P := λ _ s', table_kept s s'); [|by intros; apply wlp_ret].
    destruct (0 <? _); [|by apply wlp_ret]. by apply (wlp_zero_sectors (λ i, block_write fs_device (u32 (start + i)) (replicate 512 0))).
  - intros sector n s. unfold free_map_release, write_free_map. apply wlp_bind. eapply wlp_mono; [by apply (wlp_on_map _ s)|].
    intros all s1 H1. apply wlp_bind, wlp_assert. intros _. apply wlp_bind. eapply wlp_mono; [by apply (wlp_on_map _ s)|].
    intros [] s2 H2. apply wlp_bind, wlp_bind, wlp_gets, wlp_bind, wlp_gets. eapply wlp_mono; [by apply (wlp_on_device _ s)|].
    intros ok s3 H3. by apply wlp_ret.
Qed.

(** C6: Nine operations of inode.c and free-map.c refine operations on a volume: allocating and
    releasing sectors, and creating, opening, reopening, removing and closing an inode and
    denying and allowing writes to it; reading and writing data, which go through the cache, are
    not among them.  In every state that represents a volume, each of these operations that
    respects the interface ([op_ok]: sectors released are held, a length is between 0 and
    [2^31 - 512], a sector opened has an inode, counters do not overflow) returns; its result
    and the table of open inodes are those of the operation on the volume, which hands out only
    sectors that nothing uses, keeps one inode object per file, and gives the sectors of a
    removed file back when its last opener closes it; afterwards the free map has exactly the
    sectors in use, and no sector is used twice. *)
Theorem inode_operations_refine s v o : represents s v → op_ok s v o →
  ∃ r s' v', exec o s = Ret (r, s') ∧ effect (bit_cnt (free_map s)) (inodes s) v o r (inodes s') v' ∧ represents s' v' ∧
    ∀ i, 0 ≤ i < bit_cnt (free_map s') → bit (free_map s') i = true ↔ used v' i.
Proof.
  intros Hs Hok. destruct (exec_refines s v o Hs Hok) as (r & s' & v' & Hr & Hs' & He).
  exists r, s', v'. split_and!; [done..|]. apply Hs'.
Qed.

Lemma filter_keep (l : list addr) p : Forall (λ j, j ≠ p) l → filter (λ j, j ≠ p) l = l.
Proof. induction 1; [done|]. rewrite filter_cons_True by done. by f_equal. Qed.

Lemma drop_new_file v n sec len a : volume_ok n v → sec ∈ held v → drop_file (new_file v sec len a) sec = unhold v {[sec]}.
Proof.
  intros Hv Hsec. unfold drop_file, new_file, add_file, unhold. cbn [live held]. f_equal.
  rewrite delete_insert_eq. apply delete_id. by eapply held_not_live.
Qed.

(** C27: A file that was created and removed leaves nothing behind: opening the new file,
    removing it and closing it returns and gives all its sectors back, so that the free map
    differs from the one before the creation only in the sector of the inode, and the open
    inodes are the same; meanwhile the new file's data was all zeros. *)
Theorem create_remove_roundtrip s s1 v sec len p : represents s v → sec ∈ held v ∖ map_sectors → 0 ≤ len ≤ 2 ^ 31 - 512 →
  free_map_file s ≠ NULL → p ≠ NULL → inodes s !! p = None → inode_create fs_device bitmap_write sec len true s = Ret (true, s1) →
  ∃ a s2, live (new_file v sec len a) !! sec = Some (InodeDisk a len INODE_MAGIC) ∧
    (∀ i, a ≤ i < a + bytes_to_sectors len → disk s1 i = Some (replicate 512 0)) ∧
    (i ← inode_open fs_device sec p; inode_remove i;; inode_close bitmap_write i) s1 = Ret ((), s2) ∧
    inodes s2 = inodes s ∧ open_inodes s2 = open_inodes s ∧
    ∀ i, 0 ≤ i < bit_cnt (free_map s) → bit (free_map s2) i = bit (free_map s) i && negb (i =? sec).
Proof.
  intros Hs [Hsec Hmap]%elem_of_difference Hlen Hf Hp0 Hp Hc. pose proof (rp_volume _ _ Hs) as Hv.
  destruct (create_refines s v sec len true Hs Hsec Hmap Hlen) as (b & s1' & Hr & Hm & Hres). rewrite Hc in Hr.
  injection Hr as <- <-. destruct Hres as (a & Hs1 & Hz & Hbits & Hcnt). set (d := InodeDisk a len INODE_MAGIC) in *.
  assert (live (new_file v sec len a) !! sec = Some d) as Hd by apply lookup_insert_eq.
  assert (∀ i x, ¬ opened (inodes s1) sec i x) as Hno.
  { intros i x [Hx E]. rewrite (mv_inodes _ _ _ Hm) in Hx. destruct (tk_inode _ _ (rp_table _ _ Hs) i x Hx) as [Hl _].
    by rewrite E, (held_not_live _ _ Hv) in Hl. }
  destruct (open_refines s1 _ sec d p Hs1 Hd) as (i & s2 & Hr2 & Hs2 & Hfm & Hff & _ & Hi);
    [by rewrite (mv_inodes _ _ _ Hm)|by intros i x ?%Hno|].
  destruct Hi as [(x & Hx & _)|[_ [(_ & -> & _)|(-> & _ & Hi2 & Ho2)]]]; [by apply Hno in Hx|done|].
  set (x := Inode sec 1 false 0 d) in *. assert (inodes s2 !! p = Some x) as Hx by (rewrite Hi2; apply lookup_insert_eq).
  set (s3 := set_inodes <[p := with_removed x]> s2).
  assert (represents s3 (new_file v sec len a)) as Hs3 by (eapply update_refines; try done; cbn; lia).
  destruct (close_refines s3 _ p (with_removed x) Hs3 (lookup_insert_eq _ _ _)) as (s4 & Hr4 & Hc4 & Hi4 & Ho4 & Hs4); [cbn; lia| |].
  { cbn [s3 set_inodes free_map_file]. by rewrite Hff, (mv_file _ _ _ Hm). }
  exists a, s4. split; [done|]. split; [intros j Hj; apply Hz, elem_of_sectors, Hj|]. split.
  { rewrite (bind_run _ _ _ _ _ Hr2). erewrite bind_run; [exact Hr4|]. unfold inode_remove.
    erewrite bind_run; [|apply assert_run; by eapply (represents_nonnull s2)]. by apply upd_inode_run. }
  cbn [s3 set_inodes inodes open_inodes with_removed removed i_sector x] in Hi4, Ho4, Hs4.
  rewrite Hi2, (mv_inodes _ _ _ Hm), insert_insert_eq, delete_insert_eq, delete_id in Hi4 by done. split; [done|].
  rewrite Ho2, (mv_open _ _ _ Hm), filter_cons_False in Ho4 by (intros E; by apply E).
  rewrite filter_keep in Ho4.
  2: { apply Forall_forall. intros j Hj ->. apply (tk_dom _ _ (rp_table _ _ Hs)) in Hj. rewrite Hp in Hj. by destruct Hj. }
  split; [done|]. rewrite (drop_new_file _ _ _ _ _ Hv Hsec) in Hs4. intros j Hj.
  cbn [s3 set_inodes free_map] in Hc4. rewrite Hfm in Hc4. apply eq_true_iff_eq.
  assert ({[sec]} ⊆ held v) as Hsub by (by apply singleton_subseteq_l).
  rewrite (rp_map _ _ Hs4), (used_unhold _ _ Hv _ _ Hsub), <-(rp_map _ _ Hs), andb_true_iff, negb_true_iff, Z.eqb_neq by lia.
  by rewrite not_elem_of_singleton.
Qed.
End inode.

(** ** Examples: a file system on a disk of 64 sectors *)

Definition write_nothing (b : bitmap) (file : addr) : ST (bstate ram_disks) bool := mret true.
Definition boot_volume : volume := Volume ∅ {[FREE_MAP_SECTOR; ROOT_DIR_SECTOR]}.
(** The state after [free_map_init]; the file of the map is at address 16. *)
Definition boot : istate ram_disks :=
  match free_map_init 4096 true (Some [7; 7]) (IState ∅ [] (Bitmap 0 []) 16 (hda example_table)) with
  | Ret (_, s) => s
  | _ => IState ∅ [] (Bitmap 0 []) 16 (hda example_table)
  end.

Lemma write_nothing_ok : map_file_ok 4096 write_nothing ∅.
Proof. intros b file d Hf Hd. exists true, d. by split_and!. Qed.

Lemma boot_represents : represents 4096 ∅ boot boot_volume.
Proof.
  destruct (free_map_init_run 4096 write_nothing ∅ write_nothing_ok (IState ∅ [] (Bitmap 0 []) 16 (hda example_table)) hda_block [7; 7]) as (s' & Hr & Hs');
    [exact (hda_ok _)|reflexivity|discriminate|cbn; lia|split; [reflexivity|by repeat constructor]|reflexivity|reflexivity|apply empty_subseteq|].
  unfold boot. by rewrite Hr.
Qed.

(** A file of 1000 bytes in the sector of the root directory takes sectors 2 and 3; removing it
    gives them back. *)
Example create_example : match inode_create 4096 write_nothing 1 1000 true boot with
  | Ret (ok, s) => (ok, bits (free_map s)) = (true, [15; 0])
  | _ => False
  end.
Proof. by vm_compute. Qed.

Lemma inode_operations_refine_witness : ∃ r s' v', exec 4096 write_nothing (Create 1 1000 true) boot = Ret (r, s') ∧
  represents 4096 ∅ s' v' ∧ ∀ i, 0 ≤ i < bit_cnt (free_map s') → bit (free_map s') i = true ↔ used v' i.
Proof.
  destruct (inode_operations_refine 4096 write_nothing ∅ write_nothing_ok boot boot_volume (Create 1 1000 true) boot_represents)
    as (r & s' & v' & Hr & _ & Hs' & Hb).
  - split; [|lia]. by vm_compute.
  - exists r, s', v'. exact (conj Hr (conj Hs' Hb)).
Defined.

Lemma create_remove_roundtrip_witness : ∃ s1 s2, inode_create 4096 write_nothing 1 1000 true boot = Ret (true, s1) ∧
  (i ← inode_open 4096 1 64; inode_remove i;; inode_close write_nothing i) s1 = Ret ((), s2) ∧
  ∀ i, 0 ≤ i < 64 → bit (free_map s2) i = bit (free_map boot) i && negb (i =? 1).
Proof.
  assert (∃ s1, inode_create 4096 write_nothing 1 1000 true boot = Ret (true, s1)) as [s1 Hc] by (eexists; by vm_compute).
  destruct (create_remove_roundtrip 4096 write_nothing ∅ write_nothing_ok boot s1 boot_volume 1 1000 64 boot_represents)
    as (a & s2 & _ & _ & Hr & _ & _ & Hb); [vm_compute; reflexivity|lia|vm_compute; discriminate|discriminate|vm_compute; reflexivity|exact Hc|].
  exists s1, s2. exact (conj Hc (conj Hr Hb)).
Defined.
