(* ===== verification/Paging.v ===== *)
(** * The kernel's page directory: [paging_init] of src/src/threads/init.c

    [paging_init] maps all of RAM at [PHYS_BASE], with the text of the kernel read-only.  What
    the processor makes of a directory is [walk]. *)
From S2P Require Import Prelude KList Bitmap Palloc Pagedir.

Definition set_init_page_dir (pd : Z) (m : machine) : machine :=
  Machine (kernel_pool m) (user_pool m) (ram m) (init_ram_pages m) pd (cr3 m).

(** One iteration of the loop; [pt] is the page table in use.  [start] and [end_text] are the
    addresses [_start] and [_end_kernel_text] that the linker gives. *)
Definition map_page (start end_text pd page pt : Z) : P Z :=
  let paddr := u32 (page * PGSIZE) in
  vaddr ← lift (ptov paddr);
  let pde_idx := pd_no vaddr in
  let pte_idx := pt_no vaddr in
  let in_kernel_text := (start <=? vaddr) && (vaddr <? end_text) in
  e ← ldw (at_index pd pde_idx);
  pt ← (if e =? 0 then
          pt ← palloc_get_page (Z.lor PAL_ASSERT PAL_ZERO);
          e ← lift (pde_create pt);
          stw (at_index pd pde_idx) e;;
          mret pt
        else mret pt);
  e ← lift (pte_create_kernel vaddr (negb in_kernel_text));
  stw (at_index pt pte_idx) e;;
  mret pt.

Definition paging_init (start end_text : Z) : P () :=
  pd ← palloc_get_page (Z.lor PAL_ASSERT PAL_ZERO);
  modify (set_init_page_dir pd);;
  n ← gets init_ram_pages;
  _ ← loop (S (Z.to_nat n)) (λ '(page, pt),
        if page <? n then
          pt ← map_page start end_text pd page pt;
          mret (Next (u32 (page + 1), pt))
        else mret (Stop ())) (0, NULL);
  init ← gets init_page_dir;
  p ← lift (vtop init);
  modify (set_cr3 p).

(** ** The processor's translation

    The physical address of [va] under the directory at [cr3], and whether it may be written
    and used by user programs; nothing when the address is not mapped. *)
Definition walk (m : machine) (va : Z) : option (Z * bool * bool) :=
  let pde := word (ram m) (PHYS_BASE + cr3 m + 4 * pd_no va) in
  if flag pde PTE_P then
    let pte := word (ram m) (PHYS_BASE + Z.land pde PTE_ADDR + 4 * pt_no va) in
    if flag pte PTE_P then
      Some (Z.land pte PTE_ADDR + pg_ofs va, flag pde PTE_W && flag pte PTE_W, flag pde PTE_U && flag pte PTE_U)
    else None
  else None.

(** ** Free pages *)

(** The kernel pool has at least [r] free pages. *)
Definition has_free (m : machine) (r : nat) : Prop :=
  ∃ l, NoDup l ∧ (r ≤ length l)%nat ∧
    ∀ i, i ∈ l → 0 ≤ i < bit_cnt (used_map (kernel_pool m)) ∧ bit (used_map (kernel_pool m)) i = false.

Lemma remove_one (l : list Z) i : NoDup l → (length l ≤ S (length (filter (λ j, j ≠ i) l)))%nat.
Proof.
  induction 1 as [|j l Hj Hl IH]; [cbn; lia|]. rewrite filter_cons. case_decide as E; [cbn; lia|].
  subst j. cbn. enough (filter (λ j, j ≠ i) l = l) as ->; [done|].
  clear IH Hl. induction l as [|k l IH]; [done|]. apply not_elem_of_cons in Hj as [Hk Hj].
  rewrite filter_cons_True by congruence. f_equal. auto.
Qed.

(** The allocator with [PAL_ASSERT] gives the page that it gives without. *)
Lemma get_page_assert m pt m' : pt ≠ NULL → palloc_get_page PAL_ZERO m = Ret (pt, m') →
  palloc_get_page (Z.lor PAL_ASSERT PAL_ZERO) m = Ret (pt, m').
Proof.
  intros Hne. unfold palloc_get_page, palloc_get_multiple. cbn [Z.eqb].
  change (flag PAL_ZERO PAL_USER) with false. change (flag (Z.lor PAL_ASSERT PAL_ZERO) PAL_USER) with false.
  change (flag PAL_ZERO PAL_ZERO) with true. change (flag (Z.lor PAL_ASSERT PAL_ZERO) PAL_ZERO) with true.
  change (flag PAL_ZERO PAL_ASSERT) with false. change (flag (Z.lor PAL_ASSERT PAL_ZERO) PAL_ASSERT) with true.
  unfold mbind, ST_bind, gets. destruct (on_map false _ m) as [[i m1]| | |]; [|done..]. cbv beta iota.
  destruct (nonnull _) eqn:E; [done|]. intros [= <- <-]. exfalso. apply Hne. unfold nonnull in E.
  apply negb_false_iff, Z.eqb_eq in E. exact E.
Qed.

Lemma get_zeroed m r : palloc_ok m → PHYS_BASE ≤ base (kernel_pool m) → has_free m (S r) →
  ∃ pt m', palloc_get_page (Z.lor PAL_ASSERT PAL_ZERO) m = Ret (pt, m') ∧ fresh_page true m pt m' ∧ has_free m' r.
Proof.
  intros Hok Hb (l & Hnd & Hlen & Hl). destruct (palloc_get_page_spec PAL_ZERO m Hok eq_refl eq_refl) as [[_ Hfull]|(pt & m' & Hr & Hf)].
  { destruct l as [|i l]; [cbn in Hlen; lia|]. destruct (Hl i) as [Hi Hbit]; [by left|]. by rewrite Hfull in Hbit. }
  exists pt, m'. pose proof (fp_regs _ _ _ _ Hf) as (_ & _ & _ & Hbase).
  assert (PHYS_BASE ≤ pt) as Hpt by (apply (in_use_bounds m'); [apply Hf|by rewrite Hbase|apply Hf]).
  split; [apply get_page_assert; [unfold NULL, PHYS_BASE in *; lia|done]|]. split; [done|].
  destruct (fp_free _ _ _ _ Hf) as (i & Hi & -> & _). exists (filter (λ j, j ≠ i) l).
  split; [by apply NoDup_filter|]. split; [pose proof (remove_one l i Hnd); lia|].
  intros j [Hj Hjl]%list_elem_of_filter. destruct (Hl j Hjl) as [Hjr Hjb]. rewrite (fp_cnt _ _ _ _ Hf). split; [done|].
  rewrite (fp_bits _ _ _ _ Hf) by (done || unfold page_at; change PGSIZE with 4096; lia). done.
Qed.

(** ** The loop *)

Section paging.
Context (start end_text : Z).

(** The entries for a page table and for page [pg] of RAM. *)
Definition pde_of (pt : Z) : Z := Z.lor (Z.lor (Z.lor (pt - PHYS_BASE) PTE_U) PTE_P) PTE_W.
Definition in_text (pg : Z) : bool := (start <=? PHYS_BASE + pg * 4096) && (PHYS_BASE + pg * 4096 <? end_text).
Definition pte_of (pg : Z) : Z := Z.lor (Z.lor (pg * 4096) PTE_P) (if negb (in_text pg) then PTE_W else 0).

(** The first [k] pages of RAM are mapped, by the page tables [pts]. *)
Record kernel_dir (m : machine) (pd : Z) (pts : list Z) (k : Z) : Prop := KernelDir {
  kd_ok : palloc_ok m;
  kd_base : PHYS_BASE ≤ base (kernel_pool m);
  kd_pd : in_use m pd;
  kd_pts i pt : pts !! i = Some pt → in_use m pt ∧ pt ≠ pd;
  kd_nodup : NoDup pts;
  kd_user j : 0 ≤ j < 768 → word (ram m) (pd + 4 * j) = 0;
  kd_pde j : 768 ≤ j < 1024 → word (ram m) (pd + 4 * j) = match pts !! Z.to_nat (j - 768) with Some pt => pde_of pt | None => 0 end;
  kd_pte i pt j : pts !! i = Some pt → 0 ≤ j < 1024 →
    word (ram m) (pt + 4 * j) = if Z.of_nat i * 1024 + j <? k then pte_of (Z.of_nat i * 1024 + j) else 0;
}.

Lemma pde_of_fits pt : PHYS_BASE ≤ pt < 2 ^ 32 → fits 32 (pde_of pt).
Proof. intros Hpt. unfold pde_of. repeat apply fits_lor; try lia; unfold fits, PHYS_BASE, PTE_U, PTE_P, PTE_W in *; lia. Qed.

Lemma pte_of_fits pg : 0 ≤ pg < 2 ^ 18 → fits 32 (pte_of pg).
Proof. intros Hpg. unfold pte_of. repeat apply fits_lor; try lia; destruct (negb (in_text pg)); unfold fits, PTE_P, PTE_W; lia. Qed.

Lemma pde_of_nonzero pt : pde_of pt ≠ 0.
Proof. intros [_ E]%Z.lor_eq_0_iff. discriminate E. Qed.

(** The indices of the kernel address of page [pg]. *)
Lemma kernel_indices pg : 0 ≤ pg < 2 ^ 18 → pd_no (PHYS_BASE + pg * 4096) = 768 + pg / 1024 ∧ pt_no (PHYS_BASE + pg * 4096) = pg mod 1024.
Proof.
  intros Hpg. rewrite pd_no_div, pt_no_mod. change PHYS_BASE with (768 * 1024 * 4096). split.
  - replace (768 * 1024 * 4096 + pg * 4096) with ((768 * 1024 + pg) * 4096) by lia. change (2 ^ 22) with (4096 * 1024).
    rewrite <-Z.div_div, Z.div_mul by lia. rewrite Z.add_comm, Z.div_add by lia. lia.
  - replace (768 * 1024 * 4096 + pg * 4096) with ((768 * 1024 + pg) * 4096) by lia.
    rewrite Z.div_mul, Z.add_comm, Z.mod_add by lia. done.
Qed.

(** A new, empty table. *)
Lemma kernel_dir_table m pd pts k pt m' : kernel_dir m pd pts k → Z.of_nat (length pts) * 1024 = k → k < 2 ^ 18 →
  fresh_page true m pt m' → kernel_dir (set_ram <[pd + 4 * (768 + k / 1024) := pde_of pt]> m') pd (pts ++ [pt]) k.
Proof.
  intros [Hok Hb Hpd Hpts Hnd Hu Hpde Hpte] Hlen Hk Hf. pose proof (fp_regs _ _ _ _ Hf) as (_ & _ & _ & Hbase).
  assert (pt ≠ pd) as Hne by (intros ->; by apply (fp_new _ _ _ _ Hf)).
  assert (k / 1024 = Z.of_nat (length pts)) as Hk' by (rewrite <-Hlen; apply Z.div_mul; lia). rewrite Hk'.
  constructor; cbn [set_ram kernel_pool user_pool ram].
  - by destruct (fp_ok _ _ _ _ Hf).
  - by rewrite Hbase.
  - by apply (fp_keep _ _ _ _ Hf).
  - intros i q [Hq|[_ Hq]]%lookup_app_Some; [destruct (Hpts i q Hq); split; [by apply (fp_keep _ _ _ _ Hf)|done]|].
    apply list_lookup_singleton_Some in Hq as [_ <-]. split; [apply Hf|done].
  - apply NoDup_app. split; [done|]. split; [|apply NoDup_singleton]. intros q [i Hq]%list_elem_of_lookup ->%list_elem_of_singleton.
    destruct (Hpts i pt Hq). by apply (fp_new _ _ _ _ Hf).
  - intros j Hj. rewrite word_insert, decide_False by lia. rewrite (fp_ram _ _ _ _ Hf) by (done || lia). by apply Hu.
  - intros j Hj. rewrite word_insert. case_decide as E.
    + rewrite lookup_app_r by lia. replace (Z.to_nat (j - 768) - length pts)%nat with 0%nat by lia. done.
    + rewrite (fp_ram _ _ _ _ Hf), Hpde by (done || lia). destruct (pts !! Z.to_nat (j - 768)) as [q|] eqn:Eq.
      * by rewrite (lookup_app_l_Some _ _ _ _ Eq).
      * apply lookup_ge_None in Eq. rewrite lookup_ge_None_2; [done|]. rewrite length_app. cbn. lia.
  - intros i q j Hq Hj. apply lookup_app_Some in Hq as [Hq|[Hge Hq]].
    + destruct (Hpts i q Hq) as [Hqu Hqne]. rewrite word_insert, decide_False.
      * rewrite (fp_ram _ _ _ _ Hf) by done. by apply Hpte.
      * apply (in_use_apart m); [done|done|by apply not_eq_sym|lia|lia].
    + apply list_lookup_singleton_Some in Hq as [Hi <-]. rewrite word_insert, decide_False.
      * rewrite (fp_zero _ _ _ _ Hf) by done. rewrite (proj2 (Z.ltb_ge _ _)) by lia. done.
      * apply (in_use_apart m'); [by apply (fp_keep _ _ _ _ Hf)|apply Hf|by apply not_eq_sym|lia|lia].
Qed.

(** A new entry. *)
Lemma kernel_dir_entry m pd pts k pt : kernel_dir m pd pts k → 0 ≤ k → pts !! Z.to_nat (k / 1024) = Some pt →
  kernel_dir (set_ram <[pt + 4 * (k mod 1024) := pte_of k]> m) pd pts (k + 1).
Proof.
  intros [Hok Hb Hpd Hpts Hnd Hu Hpde Hpte] Hk Hpt. destruct (Hpts _ _ Hpt) as [Hptu Hne].
  pose proof (Z.mod_pos_bound k 1024 ltac:(lia)) as Hm. pose proof (Z.div_mod k 1024 ltac:(lia)) as Hdm.
  pose proof (Z.div_pos k 1024 Hk ltac:(lia)) as Hd.
  constructor; cbn [set_ram kernel_pool user_pool ram]; try done.
  - by destruct Hok.
  - intros j Hj. rewrite word_insert, decide_False; [by apply Hu|]. apply (in_use_apart m); [done..|lia|lia].
  - intros j Hj. rewrite word_insert, decide_False; [by apply Hpde|]. apply (in_use_apart m); [done..|lia|lia].
  - intros i q j Hq Hj. destruct (Hpts i q Hq) as [Hqu _]. rewrite word_insert. case_decide as E.
    + assert (q = pt) as ->.
      { destruct (decide (q = pt)) as [|Hqne]; [done|]. exfalso.
        by apply (in_use_apart m pt q (k mod 1024) j Hptu Hqu (not_eq_sym Hqne) Hm Hj). }
      pose proof (NoDup_lookup pts i (Z.to_nat (k / 1024)) pt Hnd Hq Hpt) as ->.
      replace (Z.of_nat (Z.to_nat (k / 1024)) * 1024 + j) with k by lia. rewrite (proj2 (Z.ltb_lt k (k + 1))) by lia. done.
    + rewrite (Hpte i q j Hq Hj). assert (Z.of_nat i * 1024 + j ≠ k) as Hik.
      { intros E2. apply E. assert (Z.of_nat i = k / 1024) as Hi by lia. assert (j = k mod 1024) as -> by lia.
        f_equal. rewrite <-Hi, Nat2Z.id, Hq in Hpt. congruence. }
      destruct (Z.ltb_spec (Z.of_nat i * 1024 + j) k), (Z.ltb_spec (Z.of_nat i * 1024 + j) (k + 1)); (done || lia).
Qed.
Lemma pte_create_run pg : 0 ≤ pg < 2 ^ 18 → pte_create_kernel (PHYS_BASE + pg * 4096) (negb (in_text pg)) = Ret (pte_of pg).
Proof.
  intros Hpg. unfold pte_create_kernel, check. rewrite pg_ofs_mod. change PGSIZE with 4096.
  rewrite Z.mod_add by lia. change (PHYS_BASE mod 4096 =? 0) with true. cbv iota.
  unfold mbind, res_bind. rewrite vtop_kernel by lia. unfold mret, res_ret, pte_of. f_equal. f_equal; f_equal; lia.
Qed.

Lemma pde_create_eq pt : PHYS_BASE ≤ pt → pt mod PGSIZE = 0 → pde_create pt = Ret (pde_of pt).
Proof.
  intros Hpt Ha. unfold pde_create, check. rewrite pg_ofs_mod, Ha. cbn [Z.eqb]. unfold mbind, res_bind. by rewrite vtop_kernel.
Qed.

(** The page tables that [n] pages need. *)
Abbreviation tables_for n := ((n + 1023) / 1024).

(** The loop before page [k]; [pt] is the last page table. *)
Record before_page (m0 : machine) (pd n : Z) (k pt : Z) (pts : list Z) (m : machine) : Prop := BeforePage {
  bp_dir : kernel_dir m pd pts k;
  bp_len : Z.of_nat (length pts) = tables_for k;
  bp_last : 0 < k → last pts = Some pt;
  bp_free : has_free m (Z.to_nat (tables_for n - tables_for k));
  bp_regs : same_registers m0 m;
}.

Lemma map_page_run m0 m pd n k pt pts : before_page m0 pd n k pt pts m → 0 ≤ k < n → n ≤ 2 ^ 18 →
  ∃ pt' m' pts', map_page start end_text pd k pt m = Ret (pt', m') ∧ before_page m0 pd n (k + 1) pt' pts' m'.
Proof.
  intros [Hd Hlen Hlast Hfree Hregs] Hk Hn. destruct (kernel_indices k ltac:(lia)) as [Epd Ept].
  pose proof (Z.mod_pos_bound k 1024 ltac:(lia)) as Hmod. pose proof (Z.div_mod k 1024 ltac:(lia)) as Hdm.
  assert (0 ≤ k / 1024 < 256) as Hdiv by (split; [apply Z.div_pos; lia|apply Z.div_lt_upper_bound; lia]).
  unfold map_page. rewrite (wrap_small 32 (k * PGSIZE)) by (change PGSIZE with 4096; unfold fits; lia). change PGSIZE with 4096.
  assert (ptov (k * 4096) = Ret (PHYS_BASE + k * 4096)) as Hv.
  { replace (k * 4096) with (PHYS_BASE + k * 4096 - PHYS_BASE) at 1 by lia. apply ptov_vtop. unfold PHYS_BASE. lia. }
  erewrite bind_run; [|unfold lift; by rewrite Hv]. cbv beta zeta. rewrite Epd, Ept.
  rewrite (in_use_at_index m) by (apply Hd || lia). erewrite bind_run; [|reflexivity]. cbv beta.
  fold (in_text k). rewrite (kd_pde _ _ _ _ Hd (768 + k / 1024)) by lia. replace (768 + k / 1024 - 768) with (k / 1024) by lia.
  (** The table of the page, new when [k] is a multiple of 1024. *)
  assert (∃ pt' m1 pts', (if match pts !! Z.to_nat (k / 1024) with Some pt => pde_of pt | None => 0 end =? 0 then
      pt ← palloc_get_page (Z.lor PAL_ASSERT PAL_ZERO); e ← lift (pde_create pt); stw (pd + 4 * (768 + k / 1024)) e;; mret pt
      else mret pt) m = Ret (pt', m1) ∧ kernel_dir m1 pd pts' k ∧ pts' !! Z.to_nat (k / 1024) = Some pt' ∧ last pts' = Some pt' ∧
      Z.of_nat (length pts') = tables_for (k + 1) ∧ has_free m1 (Z.to_nat (tables_for n - tables_for (k + 1))) ∧ same_registers m0 m1)
    as (pt' & m1 & pts' & Hr & Hd1 & Hpt' & Hlast' & Hlen' & Hfree' & Hregs').
  { destruct (decide (k mod 1024 = 0)) as [E0|Hne].
    - assert (tables_for k = k / 1024) as Et by (Z.div_mod_to_equations; lia).
      assert (tables_for (k + 1) = k / 1024 + 1) as Et' by (Z.div_mod_to_equations; lia).
      assert (k / 1024 + 1 ≤ tables_for n) as Hle by (Z.div_mod_to_equations; lia).
      rewrite lookup_ge_None_2 by lia. cbn [Z.eqb].
      destruct (get_zeroed m (Z.to_nat (tables_for n - tables_for (k + 1)))) as (q & m1 & Hr & Hf & Hfree1);
        [apply Hd|apply Hd|by replace (S _) with (Z.to_nat (tables_for n - tables_for k)) by lia|].
      pose proof (fp_regs _ _ _ _ Hf) as (R1 & R2 & R3 & R4). destruct Hregs as (Q1 & Q2 & Q3 & Q4).
      destruct (in_use_bounds m1 (fp_ok _ _ _ _ Hf)) with q as (Hq1 & Hq2 & Hq3); [rewrite R4; apply Hd|apply Hf|].
      eexists q, (set_ram <[pd + 4 * (768 + k / 1024) := pde_of q]> m1), (pts ++ [q]). split.
      { rewrite (bind_run _ _ _ _ _ Hr). erewrite bind_run; [|unfold lift; by rewrite pde_create_eq]. cbv beta.
        unfold stw. rewrite (wrap_small 32 (pde_of q)) by (apply pde_of_fits; lia). reflexivity. }
      split; [apply (kernel_dir_table m); [done|lia|lia|done]|].
      split; [rewrite lookup_app_r by lia; by replace (_ - _)%nat with 0%nat by lia|]. split; [apply last_snoc|].
      split; [rewrite length_app; cbn; lia|]. split; [done|]. split_and!; cbn; congruence.
    - assert (tables_for (k + 1) = tables_for k ∧ tables_for k = k / 1024 + 1) as [Et Et'] by (Z.div_mod_to_equations; lia).
      assert (pts !! Z.to_nat (k / 1024) = Some pt) as Hpt.
      { rewrite <-Hlast, last_lookup by lia. f_equal. lia. }
      rewrite Hpt, (proj2 (Z.eqb_neq _ _) (pde_of_nonzero pt)). exists pt, m, pts. rewrite Et. split_and!; auto with lia. }
  rewrite (bind_run _ _ _ _ _ Hr). erewrite bind_run; [|unfold lift; by rewrite pte_create_run by lia]. cbv beta.
  destruct (kd_pts _ _ _ _ Hd1 _ _ Hpt') as [Hu' _].
  rewrite (in_use_at_index m1) by (apply Hd1 || done). unfold stw. rewrite (wrap_small 32 (pte_of k)) by (apply pte_of_fits; lia).
  erewrite bind_run; [|reflexivity]. eexists pt', _, pts'. split; [reflexivity|].
  constructor; [apply kernel_dir_entry; [done|lia|done]|done|done|done|done].
Qed.
(** ** What the processor sees *)

Lemma low_mask p mask : p mod 4096 = 0 → 0 ≤ mask < 4096 → Z.land p mask = 0.
Proof.
  intros Hp Hm. rewrite <-(Z.mod_small mask (2 ^ 12)), <-Z.land_ones by lia.
  rewrite (Z.land_comm mask), Z.land_assoc, Z.land_ones by lia. change (2 ^ 12) with 4096. by rewrite Hp.
Qed.

Lemma entry_flag p f mask : p mod 4096 = 0 → 0 ≤ mask < 4096 → flag (Z.lor p f) mask = flag f mask.
Proof. intros Hp Hm. unfold flag. by rewrite Z.land_lor_distr_l, low_mask. Qed.

Lemma kernel_address va : PHYS_BASE ≤ va < 2 ^ 32 → let pg := (va - PHYS_BASE) / 4096 in
  0 ≤ pg < 2 ^ 18 ∧ pd_no va = 768 + pg / 1024 ∧ pt_no va = pg mod 1024 ∧ va - PHYS_BASE = pg * 4096 + pg_ofs va.
Proof.
  intros Hva pg. assert (va / 4096 = 786432 + pg) as E.
  { unfold pg. change PHYS_BASE with (786432 * 4096) in *. Z.div_mod_to_equations. lia. }
  rewrite pd_no_div, pt_no_mod, pg_ofs_mod. change (2 ^ 22) with (4096 * 1024). rewrite <-Z.div_div, E by lia.
  change PGSIZE with 4096. change PHYS_BASE with (786432 * 4096) in *. Z.div_mod_to_equations. lia.
Qed.

Lemma walk_kernel m pd pts n va : kernel_dir m pd pts n → Z.of_nat (length pts) = tables_for n → cr3 m = pd - PHYS_BASE →
  0 ≤ n ≤ 2 ^ 18 → fits 32 va →
  walk m va = if bool_decide (PHYS_BASE ≤ va < PHYS_BASE + n * 4096)
              then Some (va - PHYS_BASE, negb (in_text ((va - PHYS_BASE) / 4096)), false) else None.
Proof.
  intros Hd Hlen Hc Hn Hva. unfold fits in Hva. unfold walk. rewrite Hc. replace (PHYS_BASE + (pd - PHYS_BASE)) with pd by lia.
  destruct (decide (va < PHYS_BASE)) as [Hlow|Hhigh].
  { rewrite (kd_user _ _ _ _ Hd) by (apply pd_no_user; [lia|by apply Z.ltb_lt]). rewrite bool_decide_eq_false_2 by lia. done. }
  destruct (kernel_address va ltac:(lia)) as (Hpg & Epd & Ept & Eva). set (pg := (va - PHYS_BASE) / 4096) in *.
  assert (0 ≤ pg / 1024 < 256) as Hdiv by (split; [apply Z.div_pos; lia|apply Z.div_lt_upper_bound; lia]).
  pose proof (Z.mod_pos_bound pg 1024 ltac:(lia)) as Hmod. pose proof (Z.div_mod pg 1024 ltac:(lia)) as Hdm.
  assert (pg < n ↔ va < PHYS_BASE + n * 4096) as Hiff by (unfold pg; Z.div_mod_to_equations; lia).
  rewrite Epd, (kd_pde _ _ _ _ Hd) by lia. replace (Z.to_nat (768 + pg / 1024 - 768)) with (Z.to_nat (pg / 1024)) by lia.
  destruct (pts !! Z.to_nat (pg / 1024)) as [pt|] eqn:Hpt.
  2: { apply lookup_ge_None in Hpt. rewrite bool_decide_eq_false_2; [done|]. rewrite <-(Z2Nat.id (pg / 1024)) in Hdm by lia.
       Z.div_mod_to_equations. lia. }
  destruct (kd_pts _ _ _ _ Hd _ _ Hpt) as [Hu _]. destruct (in_use_bounds m (kd_ok _ _ _ _ Hd) (kd_base _ _ _ _ Hd) pt Hu) as (Hp1 & Hp2 & Hp3).
  change PGSIZE with 4096 in Hp3. assert ((pt - PHYS_BASE) mod 4096 = 0) as Hp4 by (rewrite Zminus_mod, Hp3; done).
  unfold pde_of. rewrite <-!Z.lor_assoc, (entry_flag _ _ PTE_P), entry_addr by (done || unfold fits, PHYS_BASE, PTE_P, PTE_U, PTE_W in *; lia).
  replace (PHYS_BASE + (pt - PHYS_BASE)) with pt by lia. rewrite Ept, (kd_pte _ _ _ _ Hd _ _ _ Hpt Hmod).
  rewrite Z2Nat.id by lia. replace (pg / 1024 * 1024 + pg mod 1024) with pg by lia. cbv zeta.
  change (flag (Z.lor PTE_U (Z.lor PTE_P PTE_W)) PTE_P) with true. cbv iota.
  destruct (Z.ltb_spec pg n) as [Hlt|Hge]; [|rewrite bool_decide_eq_false_2 by lia; done].
  rewrite bool_decide_eq_true_2 by lia. unfold pte_of. assert ((pg * 4096) mod 4096 = 0) as Hal by (apply Z.mod_mul; lia).
  rewrite <-!Z.lor_assoc, (entry_flag (pg * 4096) _ PTE_P), entry_addr by (done || (by destruct (negb (in_text pg))) || unfold fits, PTE_P, PTE_U, PTE_W in *; lia).
  rewrite !(entry_flag (pt - PHYS_BASE) _ PTE_W), !(entry_flag (pg * 4096) _ PTE_W), (entry_flag (pt - PHYS_BASE) _ PTE_U),
    (entry_flag (pg * 4096) _ PTE_U) by (done || unfold PTE_W, PTE_U; lia).
  rewrite Eva. by destruct (in_text pg).
Qed.
End paging.

(** C9: [paging_init] maps the kernel.  With a page for the directory and one for each 4 MB of RAM
    left in the kernel's pool, it returns with a directory that the processor translates as
    follows: the addresses of RAM from [PHYS_BASE] on go to RAM, pages of the kernel's text
    cannot be written and all others can, none is open to user programs, and no other address
    is mapped. *)
Theorem paging_init_correct start end_text m : palloc_ok m → PHYS_BASE ≤ base (kernel_pool m) →
  0 ≤ init_ram_pages m ≤ 2 ^ 18 → has_free m (Z.to_nat (1 + (init_ram_pages m + 1023) / 1024)) →
  ∃ m', paging_init start end_text m = Ret ((), m') ∧ palloc_ok m' ∧ in_use m' (init_page_dir m') ∧
    cr3 m' = init_page_dir m' - PHYS_BASE ∧ (∀ i, 0 ≤ i < 768 → word (ram m') (init_page_dir m' + 4 * i) = 0) ∧
    ∀ va, fits 32 va → walk m' va =
      if bool_decide (PHYS_BASE ≤ va < PHYS_BASE + init_ram_pages m * 4096)
      then Some (va - PHYS_BASE, negb (in_text start end_text ((va - PHYS_BASE) / 4096)), false) else None.
Proof.
  intros Hok Hb Hn Hfree. set (n := init_ram_pages m) in *. assert (0 ≤ (n + 1023) / 1024) as Ht by (apply Z.div_pos; lia).
  replace (Z.to_nat _) with (S (Z.to_nat ((n + 1023) / 1024))) in Hfree by lia.
  destruct (get_zeroed m _ Hok Hb Hfree) as (pd & m1 & Hr & Hf & Hfree1). pose proof (fp_regs _ _ _ _ Hf) as (R1 & R2 & R3 & R4).
  set (m2 := set_init_page_dir pd m1).
  assert (before_page start end_text m2 pd n 0 NULL [] m2) as H0.
  { constructor; [|done|lia|change ((0 + 1023) / 1024) with 0; rewrite Z.sub_0_r; exact Hfree1|done]. constructor; try done.
    - by destruct (fp_ok _ _ _ _ Hf).
    - cbn. by rewrite R4.
    - apply Hf.
    - constructor.
    - intros j Hj. apply (fp_zero _ _ _ _ Hf); [done|lia].
    - intros j Hj. apply (fp_zero _ _ _ _ Hf); [done|lia]. }
  destruct (wp_inv (loop (S (Z.to_nat n)) (λ '(page, pt), if page <? n then
      pt ← map_page start end_text pd page pt; mret (Next (u32 (page + 1), pt)) else mret (Stop ())) (0, NULL)) m2
    (λ _ m3, ∃ pt pts, before_page start end_text m2 pd n n pt pts m3)) as ([] & m3 & Hloop & pt & pts & Hend).
  { apply (wp_loop (λ v '(k, pt) m', v = Z.to_nat (n - k) ∧ 0 ≤ k ≤ n ∧ ∃ pts, before_page start end_text m2 pd n k pt pts m'))
      with (n := Z.to_nat n).
    - intros v [k pt] m' (-> & Hk & pts & Hbp). destruct (Z.ltb_spec k n) as [Hlt|Hge].
      + destruct (map_page_run start end_text m2 m' pd n k pt pts Hbp ltac:(lia) ltac:(lia)) as (pt' & m'' & pts' & Hrun & Hbp').
        wp_bind_by ltac:(exact Hrun). apply wp_ret. rewrite wrap_small by (unfold fits; lia).
        exists (Z.to_nat (n - (k + 1))). split; [lia|]. split; [done|]. split; [lia|]. by exists pts'.
      + apply wp_ret. assert (k = n) by lia. exists pt, pts. subst k. exact Hbp.
    - split; [lia|]. split; [lia|]. by exists [].
    - lia. }
  destruct Hend as [Hd Hlen _ _ (Q1 & Q2 & Q3 & Q4)].
  destruct (in_use_bounds m3 (kd_ok _ _ _ _ _ _ Hd) (kd_base _ _ _ _ _ _ Hd) pd (kd_pd _ _ _ _ _ _ Hd)) as (Hpd & _ & _).
  exists (set_cr3 (pd - PHYS_BASE) m3). unfold paging_init. rewrite (bind_run _ _ _ _ _ Hr). split.
  { erewrite bind_run; [|reflexivity]. erewrite bind_run; [|reflexivity]. fold m2.
    change (init_ram_pages m2) with (init_ram_pages m1). rewrite R1. fold n. rewrite (bind_run _ _ _ _ _ Hloop).
    erewrite bind_run; [|reflexivity]. rewrite Q2. erewrite bind_run; [|unfold lift; cbn [m2 init_page_dir set_init_page_dir]; by rewrite vtop_kernel].
    done. }
  cbn [set_cr3 init_page_dir cr3]. rewrite Q2. cbn [m2 init_page_dir set_init_page_dir].
  split; [by destruct (kd_ok _ _ _ _ _ _ Hd)|]. split; [apply Hd|]. split; [done|]. split; [apply Hd|].
  intros va Hva. apply (walk_kernel start end_text _ pd pts n va); [|done|done|lia|done]. destruct Hd as [Hk ? ? ? ? ? ? ?]. constructor; try done. by destruct Hk.
Qed.

(** ** Example: 300 pages of RAM, kernel text from 0xc0020000 to 0xc0030000 *)

Definition booting_machine : machine :=
  Machine (Pool (Bitmap 40 [0; 0]) 0xc0101000) (Pool (Bitmap 8 [0]) 0xc0200000) ∅ 300 0 0.

Lemma booting_machine_ok : palloc_ok booting_machine.
Proof. split; [split; [split; [done|done|]|..]..|]; try done; repeat constructor; done. Qed.

Lemma paging_init_correct_witness : ∃ m', paging_init 0xc0020000 0xc0030000 booting_machine = Ret ((), m') ∧
  walk m' 0xc0020004 = Some (0x20004, false, false) ∧ walk m' 0xc0030004 = Some (0x30004, true, false) ∧ walk m' 0x20004 = None.
Proof.
  destruct (paging_init_correct 0xc0020000 0xc0030000 booting_machine booting_machine_ok) as (m' & Hr & _ & _ & _ & _ & Hw).
  - done.
  - done.
  - exists [0; 1]. split; [by_evaluation|]. split; [by vm_compute; lia|].
    intros i [->|[->|[]%not_elem_of_nil]%elem_of_cons]%elem_of_cons; by split.
  - exists m'. split; [exact Hr|]. clear Hr. rewrite !Hw by (split; lia). vm_compute. auto.
Defined.
