(* ===== verification/Devices.v ===== *)
(** * The display, the timer chip, the speaker and the clock:
    src/src/devices/vga.c, pit.c, speaker.c and rtc.c

    A device is the registers that the code reads and writes: the frame buffer and the cursor
    registers of the display, the writes to the ports of the timer chip, the gate of the
    speaker, and the registers of the clock. *)
From S2P Require Import Prelude.

(** ** The timer chip and the speaker

    [intr] is the interrupt level, [gate] the value of port 0x61, and [pit] the writes to the
    ports of the timer chip, the last one at the end. *)
Record speaker := Speaker { intr : bool; gate : Z; pit : list (Z * Z) }.
Abbreviation SP := (ST speaker).

Definition intr_set (l : bool) : SP () := modify (λ s, Speaker l (gate s) (pit s)).
Definition intr_off : SP bool := old ← gets intr; intr_set false;; mret old.
Definition pit_outb (port data : Z) : SP () := modify (λ s, Speaker (intr s) (gate s) (pit s ++ [(port, u8 data)])).
Definition set_gate (f : Z → Z) : SP () := modify (λ s, Speaker (intr s) (u8 (f (gate s))) (pit s)).

Definition PIT_HZ : Z := 1193180.
Definition PIT_PORT_CONTROL : Z := 0x43.
Definition PIT_PORT_COUNTER (channel : Z) : Z := 0x40 + channel.

(** The counter value for a frequency. *)
Definition pit_count (frequency : Z) : Z :=
  if frequency <? 19 then 0
  else if PIT_HZ <? frequency then 2
  else u16 (Z.quot (PIT_HZ + Z.quot frequency 2) frequency).

Definition pit_configure_channel (channel mode frequency : Z) : SP () :=
  assert ((channel =? 0) || (channel =? 2));;
  assert ((mode =? 2) || (mode =? 3));;
  let count := pit_count frequency in
  old ← intr_off;
  pit_outb PIT_PORT_CONTROL (Z.lor (Z.lor (Z.shiftl channel 6) 0x30) (Z.shiftl mode 1));;
  pit_outb (PIT_PORT_COUNTER channel) count;;
  pit_outb (PIT_PORT_COUNTER channel) (Z.shiftr count 8);;
  intr_set old.

Definition SPEAKER_GATE_ENABLE : Z := 3.

Definition speaker_off : SP () :=
  old ← intr_off;
  set_gate (λ g, Z.land g (Z.lnot SPEAKER_GATE_ENABLE));;
  intr_set old.

Definition speaker_on (frequency : Z) : SP () :=
  if (20 <=? frequency) && (frequency <=? 20000) then
    old ← intr_off;
    pit_configure_channel 2 3 frequency;;
    set_gate (λ g, Z.lor g SPEAKER_GATE_ENABLE);;
    intr_set old
  else speaker_off.

(** The thread sleeps between the two calls; other threads run then. *)
Definition speaker_beep : SP () :=
  on ← gets intr;
  if (on : bool) then speaker_on 440;; speaker_off else mret ().

(** ** The display

    A cell of the frame buffer is a character and its attribute.  [crtc_index] is the register
    that port 0x3d4 selects, [crtc_hi] and [crtc_lo] the registers 0x0e and 0x0f. *)
Definition COL_CNT : Z := 80.
Definition ROW_CNT : Z := 25.
Definition GRAY_ON_BLACK : Z := 7.

Record display := Display {
  inited : bool;
  cx : Z;
  cy : Z;
  fb : list (list (Z * Z));
  crtc_index : Z;
  crtc_hi : Z;
  crtc_lo : Z;
  spk : speaker;
}.
Abbreviation V := (ST display).

Definition set_cursor (x y : Z) : V () := modify (λ s,
  Display (inited s) x y (fb s) (crtc_index s) (crtc_hi s) (crtc_lo s) (spk s)).
Definition set_fb (f : list (list (Z * Z)) → list (list (Z * Z))) : V () := modify (λ s,
  Display (inited s) (cx s) (cy s) (f (fb s)) (crtc_index s) (crtc_hi s) (crtc_lo s) (spk s)).
Definition set_inited : V () := modify (λ s,
  Display true (cx s) (cy s) (fb s) (crtc_index s) (crtc_hi s) (crtc_lo s) (spk s)).
Definition on_speaker {A} (f : SP A) : V A := λ s,
  match f (spk s) with
  | Ret (a, k) => Ret (a, Display (inited s) (cx s) (cy s) (fb s) (crtc_index s) (crtc_hi s) (crtc_lo s) k)
  | Panic => Panic
  | Fault => Fault
  | NoFuel => NoFuel
  end.

(** Writing port 0x3d4 selects a register, and a word also stores its high byte there. *)
Definition crtc_outb (data : Z) : V () := modify (λ s,
  Display (inited s) (cx s) (cy s) (fb s) (u8 data) (crtc_hi s) (crtc_lo s) (spk s)).
Definition crtc_outw (data : Z) : V () := modify (λ s,
  let index := u8 data in
  let value := u8 (Z.shiftr data 8) in
  Display (inited s) (cx s) (cy s) (fb s) index
    (if index =? 0x0e then value else crtc_hi s) (if index =? 0x0f then value else crtc_lo s) (spk s)).
(** Reading port 0x3d5; the other registers are not used. *)
Definition crtc_inb : V Z := λ s,
  if crtc_index s =? 0x0e then Ret (crtc_hi s, s)
  else if crtc_index s =? 0x0f then Ret (crtc_lo s, s) else Fault.

(** [fb[y][x][0] = c; fb[y][x][1] = GRAY_ON_BLACK;] *)
Definition put_cell (y x c : Z) : V () := λ s,
  match fb s !! Z.to_nat y with
  | Some row =>
      if (Z.to_nat x <? length row)%nat then
        set_fb <[Z.to_nat y := <[Z.to_nat x := (u8 c, GRAY_ON_BLACK)]> row]> s
      else Fault
  | None => Fault
  end.

Definition find_cursor : V (Z * Z) :=
  crtc_outb 0x0e;;
  h ← crtc_inb;
  let cp := u16 (Z.shiftl h 8) in
  crtc_outb 0x0f;;
  l ← crtc_inb;
  let cp := Z.lor cp l in
  mret (cp mod COL_CNT, cp / COL_CNT).

Definition vga_init : V () :=
  i ← gets inited;
  if negb i then '(x, y) ← find_cursor; set_cursor x y;; set_inited else mret ().

Definition move_cursor : V () :=
  x ← gets cx;
  y ← gets cy;
  let cp := u16 (x + COL_CNT * y) in
  crtc_outw (Z.lor 0x0e (Z.land cp 0xff00));;
  crtc_outw (u16 (Z.lor 0x0f (Z.shiftl cp 8))).

Definition clear_row (y : Z) : V () := for_each (Z.to_nat COL_CNT) 0 (λ x, put_cell y x 32).

Definition cls : V () :=
  for_each (Z.to_nat ROW_CNT) 0 clear_row;;
  set_cursor 0 0;;
  move_cursor.

Definition newline : V () :=
  y ← gets cy;
  set_cursor 0 (u32 (y + 1));;
  y ← gets cy;
  if ROW_CNT <=? y then
    set_cursor 0 (ROW_CNT - 1);;
    set_fb (λ f, take (Z.to_nat (ROW_CNT - 1)) (drop 1 f) ++ drop (Z.to_nat (ROW_CNT - 1)) f);;
    clear_row (ROW_CNT - 1)
  else mret ().

Definition vga_putc (c : Z) : V () :=
  old ← on_speaker intr_off;
  vga_init;;
  x ← gets cx;
  y ← gets cy;
  (if c =? 10 then newline
   else if c =? 12 then cls
   else if c =? 8 then if 0 <? x then set_cursor (x - 1) y else mret ()
   else if c =? 13 then set_cursor 0 y
   else if c =? 9 then
     let x := u32 (x + 1 + 8 - 1) / 8 * 8 in
     set_cursor x y;;
     if COL_CNT <=? x then newline else mret ()
   else if c =? 7 then
     on_speaker (intr_set old);;
     on_speaker speaker_beep;;
     _ ← on_speaker intr_off;
     mret ()
   else
     put_cell y x c;;
     let x := u32 (x + 1) in
     set_cursor x y;;
     if COL_CNT <=? x then newline else mret ());;
  move_cursor;;
  on_speaker (intr_set old).

(** ** The clock

    The state is what the registers of the clock hold at each of the reads to come. *)
Definition RTC_REG_SEC : Z := 0.
Definition RTC_REG_MIN : Z := 2.
Definition RTC_REG_HOUR : Z := 4.
Definition RTC_REG_MDAY : Z := 7.
Definition RTC_REG_MON : Z := 8.
Definition RTC_REG_YEAR : Z := 9.

Abbreviation RTC := (ST (list (Z → Z))).
Definition cmos_read (index : Z) : RTC Z := λ l,
  match l with r :: l => Ret (u8 (r index), l) | [] => NoFuel end.
Definition bcd_to_bin (x : Z) : Z := Z.land x 0x0f + Z.shiftr x 4 * 10.

Definition read_field (index : Z) : RTC Z := x ← cmos_read index; mret (bcd_to_bin x).

(** The loop that reads the registers until the second is stable; each round takes a read. *)
Definition read_clock : RTC (Z * Z * Z * Z * Z * Z) := λ l,
  loop (S (length l)) (λ _,
    sec ← read_field RTC_REG_SEC;
    min ← read_field RTC_REG_MIN;
    hour ← read_field RTC_REG_HOUR;
    mday ← read_field RTC_REG_MDAY;
    mon ← read_field RTC_REG_MON;
    year ← read_field RTC_REG_YEAR;
    sec' ← read_field RTC_REG_SEC;
    mret (if sec =? sec' then Stop (sec, min, hour, mday, mon, year) else Next ())) () l.

Definition days_per_month : list Z := [31; 28; 31; 30; 31; 30; 31; 31; 30; 31; 30; 31].

(** The loop over the months. *)
Definition add_months (mon time : Z) : RTC Z :=
  loop (S (Z.to_nat mon)) (λ '(i, time),
    if i <=? mon then
      match days_per_month !! Z.to_nat (i - 1) with
      | Some d => mret (Next (i + 1, u32 (time + d * 24 * 60 * 60)))
      | None => λ _, Fault
      end
    else mret (Stop time)) (1, time).

Definition rtc_get_time : RTC Z :=
  '(sec, min, hour, mday, mon, year) ← read_clock;
  let year := if year <? 70 then year + 100 else year in
  let year := year - 70 in
  let time := u32 ((year * 365 + Z.quot (year - 1) 4) * 24 * 60 * 60) in
  time ← add_months mon time;
  let time := if (2 <? mon) && (Z.rem year 4 =? 0) then u32 (time + 24 * 60 * 60) else time in
  let time := u32 (time + (mday - 1) * 24 * 60 * 60) in
  let time := u32 (time + hour * 60 * 60) in
  let time := u32 (time + min * 60) in
  let time := u32 (time + sec) in
  mret time.
