(* ===== verification/DevicesProofs.v ===== *)
(** * The display is a terminal; the timer chip is set to the nearest frequency; what the clock
    is taken for *)
From S2P Require Import Prelude Devices.

(** ** The timer chip *)

Lemma pit_count_bounds f : 0 ≤ pit_count f < 2 ^ 16 ∧
  (19 ≤ f ≤ PIT_HZ → 1 ≤ pit_count f ∧ 2 * Z.abs (PIT_HZ - pit_count f * f) ≤ f) ∧
  (f < 19 → pit_count f = 0) ∧ (PIT_HZ < f → pit_count f = 2).
Proof.
  unfold pit_count. destruct (Z.ltb_spec f 19); [split; [lia|]; split; [lia|]; split; [done|]; unfold PIT_HZ; lia|].
  destruct (Z.ltb_spec PIT_HZ f); [split; [lia|]; split; [lia|]; split; [lia|done]|].
  rewrite (Z.quot_div_nonneg f 2) by lia. pose proof (Z.div_pos f 2 ltac:(lia) ltac:(lia)).
  rewrite Z.quot_div_nonneg by (unfold PIT_HZ in *; lia).
  assert (0 ≤ (PIT_HZ + f / 2) / f < 2 ^ 16) as Hb.
  { split; [apply Z.div_pos; unfold PIT_HZ in *; lia|].
    apply Z.div_lt_upper_bound; [lia|]. assert (f / 2 ≤ f) by (apply Z.div_le_upper_bound; lia). unfold PIT_HZ in *. lia. }
  rewrite wrap_small by exact Hb. split; [done|]. split; [|lia]. intros _.
  pose proof (Z.div_mod (PIT_HZ + f / 2) f ltac:(lia)). pose proof (Z.mod_pos_bound (PIT_HZ + f / 2) f ltac:(lia)).
  pose proof (Z.div_mod f 2 ltac:(lia)). pose proof (Z.mod_pos_bound f 2 ltac:(lia)).
  split; [apply Z.div_le_lower_bound; lia|]. nia.
Qed.

(** [pit_configure_channel] programs the counter of the channel with the 16-bit value whose
    frequency is nearest to the one asked for: the low byte first, then the high byte; it uses
    the slowest rate for frequencies below 19 Hz and 2 for those above the chip's clock, and
    leaves the interrupt level as it was. *)
Theorem pit_configure_correct channel mode f s : channel = 0 ∨ channel = 2 → mode = 2 ∨ mode = 3 →
  ∃ c, pit_configure_channel channel mode f s =
      Ret ((), Speaker (intr s) (gate s) (pit s ++ [(0x43, channel * 64 + 0x30 + mode * 2); (0x40 + channel, c mod 256); (0x40 + channel, c / 256)])) ∧
    0 ≤ c < 2 ^ 16 ∧ (19 ≤ f ≤ PIT_HZ → 1 ≤ c ∧ 2 * Z.abs (PIT_HZ - c * f) ≤ f) ∧ (f < 19 → c = 0) ∧ (PIT_HZ < f → c = 2).
Proof.
  intros Hc Hm. destruct (pit_count_bounds f) as [Hb Hf]. exists (pit_count f). split; [|done].
  unfold pit_configure_channel. set (c := pit_count f) in *. clearbody c. clear Hf.
  assert (u8 (Z.shiftr c 8) = c / 256) as E.
  { rewrite Z.shiftr_div_pow2 by lia. apply wrap_small. unfold fits. split; [apply Z.div_pos; lia|apply Z.div_lt_upper_bound; lia]. }
  destruct s as [i g p], Hc as [-> | ->], Hm as [-> | ->]; 
    unfold intr_off, pit_outb, intr_set, gets, modify, mbind, ST_bind, ASSERT, mret, ST_ret;
    cbn [intr gate pit Z.eqb Pos.eqb orb]; rewrite E, <-!app_assoc; reflexivity.
Qed.

Lemma pit_configure_correct_witness : ∃ c, pit_configure_channel 0 2 100 (Speaker true 0 []) =
    Ret ((), Speaker true 0 [(0x43, 0x34); (0x40, c mod 256); (0x40, c / 256)]) ∧ 2 * Z.abs (PIT_HZ - c * 100) ≤ 100.
Proof.
  destruct (pit_configure_correct 0 2 100 (Speaker true 0 [])) as (c & Hr & _ & Hc & _); [by left..|].
  exists c. split; [exact Hr|]. apply Hc. unfold PIT_HZ. lia.
Defined.

(** ** The display *)

(** A terminal of 25 rows of 80 characters, and its cursor. *)
Record terminal := Terminal { screen : list (list (Z * Z)); row : nat; col : nat }.

Definition blank : Z * Z := (32, GRAY_ON_BLACK).
Definition next_line (t : terminal) : terminal :=
  if (row t <? 24)%nat then Terminal (screen t) (S (row t)) 0
  else Terminal (drop 1 (screen t) ++ [replicate 80 blank]) 24 0.
(** Moving right, to the next line at the end of the line. *)
Definition advance (t : terminal) (x : nat) : terminal :=
  if (x <? 80)%nat then Terminal (screen t) (row t) x else next_line t.

Definition type_char (c : Z) (t : terminal) : terminal :=
  if c =? 10 then next_line t
  else if c =? 12 then Terminal (replicate 25 (replicate 80 blank)) 0 0
  else if c =? 8 then Terminal (screen t) (row t) (col t - 1)
  else if c =? 13 then Terminal (screen t) (row t) 0
  else if c =? 9 then advance t (col t / 8 * 8 + 8)
  else if c =? 7 then t
  else advance (Terminal (alter <[col t := (u8 c, GRAY_ON_BLACK)]> (row t) (screen t)) (row t) (col t)) (S (col t)).

Record terminal_ok (t : terminal) : Prop := TerminalOk {
  to_rows : length (screen t) = 25%nat;
  to_cols : Forall (λ r, length r = 80%nat) (screen t);
  to_row : (row t < 25)%nat;
  to_col : (col t < 80)%nat;
}.
(** The position that the cursor registers hold. *)
Definition hw_cursor (s : display) : Z := crtc_hi s * 256 + crtc_lo s.


(** The display shows the terminal: the frame buffer has its screen, and the cursor registers of
    the hardware its cursor, which the code knows once it is initialised. *)
Record shows (s : display) (t : terminal) : Prop := Shows {
  sh_fb : fb s = screen t;
  sh_cursor : inited s = true → cx s = Z.of_nat (col t) ∧ cy s = Z.of_nat (row t);
  sh_bytes : fits 8 (crtc_hi s) ∧ fits 8 (crtc_lo s);
  sh_hw : hw_cursor s = Z.of_nat (col t) + 80 * Z.of_nat (row t);
}.

Lemma next_line_ok t : terminal_ok t → terminal_ok (next_line t).
Proof.
  intros [Hr Hc Hrow Hcol]. unfold next_line. destruct (Nat.ltb_spec (row t) 24); constructor; cbn [screen row col]; try done; try lia.
  - rewrite length_app, length_drop, Hr. done.
  - apply Forall_app. split; [by apply Forall_drop|]. constructor; [|constructor]. apply length_replicate.
Qed.

Lemma advance_ok t x : terminal_ok t → terminal_ok (advance t x).
Proof.
  intros Ht. unfold advance. destruct (Nat.ltb_spec x 80); [|by apply next_line_ok]. by destruct Ht; constructor.
Qed.

Lemma type_char_ok c t : terminal_ok t → terminal_ok (type_char c t).
Proof.
  intros Ht. unfold type_char. repeat case_match; try done; [by apply next_line_ok| | | |by apply advance_ok|apply advance_ok];
    destruct Ht as [Hr Hc Hrow Hcol]; constructor; cbn [screen row col]; try done; try lia.
  - by apply Forall_replicate.
  - by rewrite length_alter.
  - apply Forall_alter; [done|]. intros r Hl Hlen. by rewrite length_insert.
Qed.

(** *** Writing cells *)

(** The display with other contents of the frame buffer. *)
Definition with_fb (f : list (list (Z * Z))) (s : display) : display :=
  Display (inited s) (cx s) (cy s) f (crtc_index s) (crtc_hi s) (crtc_lo s) (spk s).
Definition with_cursor (x y : Z) (s : display) : display :=
  Display (inited s) x y (fb s) (crtc_index s) (crtc_hi s) (crtc_lo s) (spk s).

Lemma put_cell_run s y x c r : fb s !! Z.to_nat y = Some r → (Z.to_nat x < length r)%nat →
  put_cell y x c s = Ret ((), with_fb (<[Z.to_nat y := <[Z.to_nat x := (u8 c, GRAY_ON_BLACK)]> r]> (fb s)) s).
Proof. intros Hr Hx. unfold put_cell. rewrite Hr, (proj2 (Nat.ltb_lt _ _) Hx). done. Qed.

Lemma clear_row_run s y r : fb s !! Z.to_nat y = Some r → length r = 80%nat →
  clear_row y s = Ret ((), with_fb (<[Z.to_nat y := replicate 80 blank]> (fb s)) s).
Proof.
  intros Hr Hlen. assert (wp (clear_row y) s (λ _ s', s' = with_fb (<[Z.to_nat y := replicate 80 blank]> (fb s)) s))
    as (s' & Hrun & ->)%wp_unit; [|done].
  apply (wp_for_each (λ i s', s' = with_fb (<[Z.to_nat y := replicate (Z.to_nat i) blank ++ drop (Z.to_nat i) r]> (fb s)) s)).
  - intros i s' Hi ->. change (Z.to_nat COL_CNT) with 80%nat in Hi.
    eapply wp_run; [apply put_cell_run|].
    + cbn [with_fb fb]. apply list_lookup_insert_eq. by eapply lookup_lt_Some.
    + rewrite length_app, length_replicate, length_drop. lia.
    + unfold with_fb. cbn [fb inited cx cy crtc_index crtc_hi crtc_lo spk]. f_equal. rewrite list_insert_insert_eq. f_equal.
      destruct (drop (Z.to_nat i) r) as [|x l] eqn:E; [apply (f_equal length) in E; rewrite length_drop in E; cbn in E; lia|].
      replace (Z.to_nat (i + 1)) with (S (Z.to_nat i)) by lia.
      rewrite insert_app_r_alt by (rewrite length_replicate; lia). rewrite length_replicate, Nat.sub_diag. cbn [list_insert insert].
      rewrite replicate_S_end, <-app_assoc. do 2 f_equal. replace (S (Z.to_nat i)) with (Z.to_nat i + 1)%nat by lia.
      by rewrite <-drop_drop, E.
  - intros s' ->. change (Z.to_nat (0 + Z.of_nat (Z.to_nat COL_CNT))) with 80%nat.
    rewrite drop_ge by lia. by rewrite app_nil_r.
  - cbn [Z.to_nat replicate app drop]. rewrite list_insert_id by done. by destruct s.
Qed.

Lemma clear_screen_run s : length (fb s) = 25%nat → Forall (λ r, length r = 80%nat) (fb s) →
  for_each (Z.to_nat ROW_CNT) 0 clear_row s = Ret ((), with_fb (replicate 25 (replicate 80 blank)) s).
Proof.
  intros Hlen Hrows. assert (wp (for_each (Z.to_nat ROW_CNT) 0 clear_row) s
    (λ _ s', s' = with_fb (replicate 25 (replicate 80 blank)) s)) as (s' & Hrun & ->)%wp_unit; [|done].
  apply (wp_for_each (λ i s', s' = with_fb (replicate (Z.to_nat i) (replicate 80 blank) ++ drop (Z.to_nat i) (fb s)) s)).
  - intros i s' Hi ->. change (Z.to_nat ROW_CNT) with 25%nat in Hi.
    destruct (drop (Z.to_nat i) (fb s)) as [|r l] eqn:E; [apply (f_equal length) in E; rewrite length_drop in E; cbn in E; lia|].
    assert (length r = 80%nat) as Hr.
    { apply (Forall_drop _ (Z.to_nat i)) in Hrows. rewrite E in Hrows. by inversion Hrows. }
    eapply wp_run; [apply (clear_row_run _ _ r); [|done]|].
    + cbn [with_fb fb]. rewrite lookup_app_r by (rewrite length_replicate; lia). by rewrite length_replicate, Nat.sub_diag.
    + unfold with_fb. cbn [fb inited cx cy crtc_index crtc_hi crtc_lo spk]. f_equal.
      replace (Z.to_nat (i + 1)) with (S (Z.to_nat i)) by lia.
      rewrite insert_app_r_alt by (rewrite length_replicate; lia). rewrite length_replicate, Nat.sub_diag. cbn [list_insert insert].
      rewrite (replicate_S_end (Z.to_nat i)), <-app_assoc. f_equal. replace (S (Z.to_nat i)) with (Z.to_nat i + 1)%nat by lia.
      by rewrite <-drop_drop, E.
  - intros s' ->. change (Z.to_nat (0 + Z.of_nat (Z.to_nat ROW_CNT))) with 25%nat.
    rewrite drop_ge by lia. by rewrite app_nil_r.
  - cbn [Z.to_nat replicate app drop]. by destruct s.
Qed.

(** *** The cursor *)

Lemma cursor_words cp : 0 ≤ cp < 2000 →
  u8 (Z.lor 0x0e (Z.land (u16 cp) 0xff00)) = 0x0e ∧ u8 (Z.shiftr (Z.lor 0x0e (Z.land (u16 cp) 0xff00)) 8) = cp / 256 ∧
  u8 (u16 (Z.lor 0x0f (Z.shiftl (u16 cp) 8))) = 0x0f ∧ u8 (Z.shiftr (u16 (Z.lor 0x0f (Z.shiftl (u16 cp) 8))) 8) = cp mod 256 ∧
  Z.lor (u16 (Z.shiftl (cp / 256) 8)) (cp mod 256) = cp.
Proof.
  intros Hcp. assert (Forall (λ cp,
    u8 (Z.lor 0x0e (Z.land (u16 cp) 0xff00)) = 0x0e ∧ u8 (Z.shiftr (Z.lor 0x0e (Z.land (u16 cp) 0xff00)) 8) = cp / 256 ∧
    u8 (u16 (Z.lor 0x0f (Z.shiftl (u16 cp) 8))) = 0x0f ∧ u8 (Z.shiftr (u16 (Z.lor 0x0f (Z.shiftl (u16 cp) 8))) 8) = cp mod 256 ∧
    Z.lor (u16 (Z.shiftl (cp / 256) 8)) (cp mod 256) = cp) (seqZ 0 2000)) as Hall by by_evaluation.
  rewrite Forall_forall in Hall. apply Hall. apply elem_of_seqZ. lia.
Qed.

(** The hardware's cursor is at [x], [y]; the rest of the display is as in [s]. *)
Definition moved (s s' : display) : Prop :=
  inited s' = inited s ∧ cx s' = cx s ∧ cy s' = cy s ∧ fb s' = fb s ∧ spk s' = spk s ∧
  fits 8 (crtc_hi s') ∧ fits 8 (crtc_lo s') ∧ hw_cursor s' = cx s + 80 * cy s.

Lemma move_cursor_run s : 0 ≤ cx s < 80 → 0 ≤ cy s < 25 → ∃ s', move_cursor s = Ret ((), s') ∧ moved s s'.
Proof.
  intros Hx Hy. destruct (cursor_words (cx s + 80 * cy s) ltac:(lia)) as (E1 & E2 & E3 & E4 & _).
  unfold move_cursor. erewrite bind_run; [|reflexivity]. erewrite bind_run; [|reflexivity]. unfold COL_CNT. cbv zeta.
  erewrite bind_run; [|reflexivity]. eexists. split; [reflexivity|]. cbv beta zeta.
  unfold moved, hw_cursor. cbn [inited cx cy fb spk crtc_hi crtc_lo]. rewrite E1, E2, E3, E4. cbn [Z.eqb Pos.eqb].
  pose proof (Z.div_mod (cx s + 80 * cy s) 256 ltac:(lia)). pose proof (Z.mod_pos_bound (cx s + 80 * cy s) 256 ltac:(lia)).
  assert (0 ≤ (cx s + 80 * cy s) / 256 < 256) by (split; [apply Z.div_pos; lia|apply Z.div_lt_upper_bound; lia]).
  split_and!; try done; unfold fits; lia.
Qed.

Lemma vga_init_run s t : shows s t → terminal_ok t →
  ∃ s', vga_init s = Ret ((), s') ∧ shows s' t ∧ inited s' = true ∧ spk s' = spk s.
Proof.
  intros Hs Ht. pose proof Hs as [Hfb Hcur [Hh Hl] Hhw]. unfold vga_init. erewrite bind_run; [|reflexivity].
  destruct (inited s) eqn:Ei; cbn [negb]; [by exists s|]. destruct Ht as [_ _ Hrow Hcol].
  unfold hw_cursor in Hhw. set (cp := Z.of_nat (col t) + 80 * Z.of_nat (row t)) in *.
  assert (crtc_hi s = cp / 256 ∧ crtc_lo s = cp mod 256) as [Ehi Elo].
  { unfold fits in *. change (2 ^ 8) with 256 in *. rewrite <-Hhw. split.
    - rewrite Z.add_comm, Z.div_add, Z.div_small by lia. done.
    - rewrite Z.add_comm, Z.mod_add, Z.mod_small by lia. done. }
  destruct (cursor_words cp ltac:(lia)) as (_ & _ & _ & _ & Ecp).
  assert (cp mod 80 = Z.of_nat (col t) ∧ cp / 80 = Z.of_nat (row t)) as [Ex Ey].
  { unfold cp. rewrite (Z.mul_comm 80), Z.mod_add, Z.div_add, Z.mod_small, Z.div_small by lia. lia. }
  eexists. split.
  { erewrite bind_run; [|unfold find_cursor; erewrite bind_run; [|reflexivity]; erewrite bind_run; [|reflexivity];
      erewrite bind_run; [|reflexivity]; erewrite bind_run; [|reflexivity]; reflexivity].
    cbn [crtc_hi crtc_lo]. unfold COL_CNT. rewrite Ehi, Elo, Ecp, Ex, Ey. cbv beta iota.
    erewrite bind_run; [|reflexivity]. reflexivity. }
  split; [|done]. constructor; unfold hw_cursor; cbn [fb cx cy crtc_hi crtc_lo]; rewrite <-?Ehi, <-?Elo; done.
Qed.

Lemma newline_run s t : terminal_ok t → fb s = screen t → cy s = Z.of_nat (row t) →
  newline s = Ret ((), with_cursor 0 (Z.of_nat (row (next_line t))) (with_fb (screen (next_line t)) s)).
Proof.
  intros [Hr Hc Hrow Hcol] Hfb Hy. unfold newline, ROW_CNT. erewrite bind_run; [|reflexivity]. rewrite Hy, wrap_small by (unfold fits; lia).
  erewrite bind_run; [|reflexivity]. erewrite bind_run; [|reflexivity]. cbn [cy]. unfold next_line.
  destruct (Z.leb_spec 25 (Z.of_nat (row t) + 1)), (Nat.ltb_spec (row t) 24); try lia; cbn [screen row].
  - erewrite bind_run; [|reflexivity]. erewrite bind_run; [|reflexivity]. cbn [fb inited cx cy crtc_index crtc_hi crtc_lo spk].
    change (Z.to_nat (25 - 1)) with 24%nat. rewrite Hfb.
    destruct (drop 24 (screen t)) as [|r [|? ?]] eqn:E; try (apply (f_equal length) in E; rewrite length_drop in E; cbn in E; lia).
    assert (length (take 24 (drop 1 (screen t))) = 24%nat) as Hlen by (rewrite length_take, length_drop, Hr; done).
    rewrite (clear_row_run _ _ r).
    + cbn [with_fb with_cursor fb inited cx cy crtc_index crtc_hi crtc_lo spk]. do 2 f_equal. unfold with_cursor, with_fb.
      cbn [fb inited cx cy crtc_index crtc_hi crtc_lo spk]. f_equal. change (Z.to_nat (25 - 1)) with 24%nat.
      rewrite insert_app_r_alt, Hlen by lia. cbn [Nat.sub insert list_insert]. f_equal. apply take_ge. rewrite length_drop. lia.
    + cbn [fb]. change (Z.to_nat (25 - 1)) with 24%nat. rewrite lookup_app_r, Hlen by lia. done.
    + apply (Forall_drop _ 24) in Hc. rewrite E in Hc. by inversion Hc.
  - unfold with_cursor, with_fb, mret, ST_ret. cbn. rewrite Hfb. do 3 f_equal. lia.
Qed.

(** *** Characters *)

Definition with_spk (k : speaker) (s : display) : display :=
  Display (inited s) (cx s) (cy s) (fb s) (crtc_index s) (crtc_hi s) (crtc_lo s) k.

Lemma on_speaker_run {A} (f : SP A) s a k : f (spk s) = Ret (a, k) → on_speaker f s = Ret (a, with_spk k s).
Proof. unfold on_speaker. by intros ->. Qed.

Lemma speaker_beep_run k : ∃ k', speaker_beep k = Ret ((), k') ∧ intr k' = intr k.
Proof. destruct k as [[|] g p]; eexists; split; [reflexivity|done|reflexivity|done]. Qed.

(** The cursor and the frame buffer in an initialised display show the terminal. *)
Definition drawn (s s' : display) (t : terminal) : Prop :=
  inited s' = true ∧ fb s' = screen t ∧ cx s' = Z.of_nat (col t) ∧ cy s' = Z.of_nat (row t) ∧
  crtc_hi s' = crtc_hi s ∧ crtc_lo s' = crtc_lo s ∧ spk s' = spk s.

(** The end of the line, for a character and a tab. *)
Lemma advance_run s t x : terminal_ok t → inited s = true → fb s = screen t → cy s = Z.of_nat (row t) → (x < 160)%nat →
  ∃ s', (set_cursor (Z.of_nat x) (cy s);; if COL_CNT <=? Z.of_nat x then newline else mret ()) s = Ret ((), s') ∧ drawn s s' (advance t x).
Proof.
  intros Ht Hi Hfb Hy Hx. erewrite bind_run; [|reflexivity]. unfold advance, COL_CNT.
  destruct (Z.leb_spec 80 (Z.of_nat x)), (Nat.ltb_spec x 80); try lia.
  - eexists. split; [by apply (newline_run _ t)|]. split_and!; try done. unfold next_line. by case_match.
  - eexists. split; [reflexivity|]. by split_and!.
Qed.

Lemma char_run s t c old : shows s t → terminal_ok t → inited s = true → intr (spk s) = false →
  ∃ s', (if c =? 10 then newline
   else if c =? 12 then cls
   else if c =? 8 then if 0 <? cx s then set_cursor (cx s - 1) (cy s) else mret ()
   else if c =? 13 then set_cursor 0 (cy s)
   else if c =? 9 then
     let x := u32 (cx s + 1 + 8 - 1) / 8 * 8 in set_cursor x (cy s);; if COL_CNT <=? x then newline else mret ()
   else if c =? 7 then on_speaker (intr_set old);; on_speaker speaker_beep;; _ ← on_speaker intr_off; mret ()
   else put_cell (cy s) (cx s) c;; let x := u32 (cx s + 1) in set_cursor x (cy s);; if COL_CNT <=? x then newline else mret ()) s
    = Ret ((), s') ∧ inited s' = true ∧ fb s' = screen (type_char c t) ∧ cx s' = Z.of_nat (col (type_char c t)) ∧
      cy s' = Z.of_nat (row (type_char c t)) ∧ (c ≠ 7 → spk s' = spk s).
Proof.
  intros [Hfb Hcur _ _] Ht Hi Hint. destruct (Hcur Hi) as [Hx Hy]. clear Hcur. pose proof Ht as [Hr Hc Hrow Hcol]. unfold type_char.
  destruct (c =? 10); [|destruct (c =? 12); [|destruct (c =? 8); [|destruct (c =? 13); [|destruct (c =? 9); [|destruct (Z.eqb_spec c 7) as [->|]]]]]].
  - eexists. split; [by apply (newline_run _ t)|]. split_and!; try done. unfold next_line. by case_match.
  - destruct (move_cursor_run (with_cursor 0 0 (with_fb (replicate 25 (replicate 80 blank)) s))) as (s' & Hm & Hi' & Hx' & Hy' & Hf' & Hk' & _); [done..|].
    exists s'. unfold cls. erewrite bind_run; [|apply clear_screen_run; by rewrite Hfb]. erewrite bind_run; [|reflexivity].
    split; [exact Hm|]. rewrite Hi', Hx', Hy', Hf', Hk'. by split_and!.
  - rewrite Hx. cbn [col row screen]. destruct (Z.ltb_spec 0 (Z.of_nat (col t))); (eexists; split; [reflexivity|]); split_and!; try done.
    + cbn. lia.
    + rewrite Hx. lia.
  - eexists. split; [reflexivity|]. by split_and!.
  - cbv zeta. assert (u32 (cx s + 1 + 8 - 1) / 8 * 8 = Z.of_nat (col t / 8 * 8 + 8)) as ->.
    { rewrite Hx, wrap_small by (unfold fits; lia). replace (Z.of_nat (col t) + 1 + 8 - 1) with (Z.of_nat (col t) + 1 * 8) by lia.
      rewrite Z.div_add by lia. rewrite Nat2Z.inj_add, Nat2Z.inj_mul, Nat2Z.inj_div. lia. }
    destruct (advance_run s t (col t / 8 * 8 + 8) Ht Hi Hfb Hy) as (s' & Hrun & ? & ? & ? & ? & _ & _ & ?).
    { pose proof (Nat.div_mod_eq (col t) 8). lia. }
    exists s'. split; [exact Hrun|]. by split_and!.
  - erewrite bind_run; [|apply on_speaker_run; reflexivity]. destruct (speaker_beep_run (Speaker old (gate (spk s)) (pit (spk s)))) as (k & Hk & _).
    erewrite bind_run; [|by apply on_speaker_run]. eexists. split; [erewrite bind_run; [|apply on_speaker_run; reflexivity]; reflexivity|].
    by split_and!.
  - destruct (lookup_lt_is_Some_2 (screen t) (row t)) as [r Hrr]; [lia|]. assert (length r = 80%nat) as Hlen by by eapply Forall_lookup_1 in Hc.
    erewrite bind_run; [|apply (put_cell_run _ _ _ _ r); [by rewrite Hfb, Hy, Nat2Z.id|lia]].
    cbv zeta. replace (u32 (cx s + 1)) with (Z.of_nat (S (col t))) by (rewrite Hx, wrap_small by (unfold fits; lia); lia).
    set (t' := Terminal (alter <[col t := (u8 c, GRAY_ON_BLACK)]> (row t) (screen t)) (row t) (col t)).
    assert (terminal_ok t') as Ht'.
    { constructor; cbn [t' screen row col]; [by rewrite length_alter| |done|done].
      apply Forall_alter; [done|]. intros r' Hl Hlen'. by rewrite length_insert. }
    destruct (advance_run (with_fb (screen t') s) t' (S (col t)) Ht' Hi eq_refl Hy ltac:(lia)) as (s' & Hrun & ? & ? & ? & ? & _ & _ & ?).
    exists s'. split; [|by split_and!]. rewrite <-Hrun. do 2 f_equal. cbn [t' screen]. f_equal. rewrite Hfb, Hy, Hx, !Nat2Z.id.
    apply list_eq. intros i. destruct (decide (i = row t)) as [->|Hne].
    + rewrite list_lookup_insert_eq by lia. by rewrite list_lookup_alter_eq, Hrr.
    + rewrite list_lookup_insert_ne, list_lookup_alter_ne by done. done.
Qed.

(** C31: The display is a terminal.  Whatever is written to it, [vga_putc] returns, never touches
    a cell outside the 25 rows of 80, and leaves the frame buffer and the cursor registers of
    the hardware as typing the character on the abstract terminal does: control characters move
    the cursor, text wraps at the end of a line, and the screen scrolls at the last line; the
    interrupt level is restored. *)
Theorem vga_putc_correct s t c : shows s t → terminal_ok t →
  ∃ s', vga_putc c s = Ret ((), s') ∧ shows s' (type_char c t) ∧ terminal_ok (type_char c t) ∧ intr (spk s') = intr (spk s).
Proof.
  intros Hs Ht. unfold vga_putc. erewrite bind_run; [|apply on_speaker_run; reflexivity].
  destruct (vga_init_run (with_spk (Speaker false (gate (spk s)) (pit (spk s))) s) t) as (s1 & Hr1 & Hs1 & Hi1 & Hk1); [by destruct Hs; constructor|done|].
  rewrite (bind_run _ _ _ _ _ Hr1). erewrite bind_run; [|reflexivity]. erewrite bind_run; [|reflexivity].
  destruct (char_run s1 t c (intr (spk s)) Hs1 Ht Hi1) as (s2 & Hr2 & Hi2 & Hf2 & Hx2 & Hy2 & _); [by rewrite Hk1|].
  rewrite (bind_run _ _ _ _ _ Hr2). pose proof (type_char_ok c t Ht) as Ht'. destruct Ht' as [? ? Hrow Hcol].
  destruct (move_cursor_run s2) as (s3 & Hr3 & Hi3 & Hx3 & Hy3 & Hf3 & Hk3 & Hb & Hb' & Hhw); [rewrite ?Hx2, ?Hy2; lia..|].
  rewrite (bind_run _ _ _ _ _ Hr3). eexists. split; [apply on_speaker_run; reflexivity|].
  split; [|split; [by constructor|done]].
  constructor; cbn [with_spk fb cx cy crtc_hi crtc_lo inited]; [congruence|intros _; split; congruence|done|].
  etransitivity; [exact Hhw|]. by rewrite Hx2, Hy2.
Qed.

(** An empty screen before the first character, with the cursor in the last cell. *)
Definition last_cell : terminal := Terminal (replicate 25 (replicate 80 blank)) 24 79.
Definition cold_display : display := Display false 0 0 (replicate 25 (replicate 80 blank)) 0 7 207 (Speaker true 0 []).

Lemma vga_putc_correct_witness : ∃ s', vga_putc 65 cold_display = Ret ((), s') ∧ shows s' (type_char 65 last_cell) ∧
  intr (spk s') = true.
Proof.
  destruct (vga_putc_correct cold_display last_cell 65) as (s' & Hr & Hs & _ & Hk).
  - constructor; [done|done|done|done].
  - constructor; [done|by repeat constructor|cbn; lia|cbn; lia].
  - exists s'. exact (conj Hr (conj Hs Hk)).
Defined.

(** ** The clock *)

Definition to_bcd (n : Z) : Z := n / 10 * 16 + n mod 10.
(** The registers of a clock that shows this date and time. *)
Definition clock_at (year mon mday hour min sec : Z) (index : Z) : Z :=
  to_bcd (if index =? RTC_REG_SEC then sec else if index =? RTC_REG_MIN then min else if index =? RTC_REG_HOUR then hour
          else if index =? RTC_REG_MDAY then mday else if index =? RTC_REG_MON then mon else year mod 100).

Definition sum_of (l : list Z) : Z := foldr Z.add 0 l.
(** Seconds since the beginning of 1970, for years before 2100. *)
Definition is_leap (year : Z) : bool := year mod 4 =? 0.
Definition epoch (year mon mday hour min sec : Z) : Z :=
  (365 * (year - 1970) + (year - 1969) / 4 + sum_of (take (Z.to_nat (mon - 1)) days_per_month)
   + (if (2 <? mon) && is_leap year then 1 else 0) + (mday - 1)) * 86400 + hour * 3600 + min * 60 + sec.

Lemma bcd_roundtrip n : 0 ≤ n < 100 → bcd_to_bin (u8 (to_bcd n)) = n.
Proof.
  intros Hn. assert (Forall (λ n, bcd_to_bin (u8 (to_bcd n)) = n) (seqZ 0 100)) as Hall by by_evaluation.
  rewrite Forall_forall in Hall. apply Hall, elem_of_seqZ. lia.
Qed.

Lemma u32_add a b : u32 (u32 a + b) = u32 (a + b).
Proof. unfold wrap. by rewrite Zplus_mod_idemp_l. Qed.

Lemma add_months_run mon time l : 1 ≤ mon ≤ 12 → fits 32 time →
  add_months mon time l = Ret (u32 (time + sum_of (take (Z.to_nat mon) days_per_month) * 86400), l).
Proof.
  intros Hm Ht. destruct (wp_inv (add_months mon time) l (λ r l', r = u32 (time + sum_of (take (Z.to_nat mon) days_per_month) * 86400) ∧ l' = l))
    as (r & l' & Hr & -> & ->); [|done].
  apply (wp_loop (λ n '(i, tm) l', l' = l ∧ 1 ≤ i ≤ mon + 1 ∧ n = Z.to_nat (mon + 1 - i) ∧
    tm = u32 (time + sum_of (take (Z.to_nat (i - 1)) days_per_month) * 86400))) with (n := Z.to_nat mon).
  - intros n [i tm] l' (-> & Hi & -> & ->). destruct (Z.leb_spec i mon).
    + destruct (lookup_lt_is_Some_2 days_per_month (Z.to_nat (i - 1))) as [d Hd]; [cbn; lia|]. rewrite Hd. apply wp_ret.
      exists (Z.to_nat (mon + 1 - (i + 1))). split; [lia|]. split_and!; [done|lia|lia|done|]. rewrite u32_add. f_equal.
      replace (Z.to_nat (i + 1 - 1)) with (S (Z.to_nat (i - 1))) by lia. rewrite (take_S_r _ _ _ Hd).
      assert (∀ a b, sum_of (a ++ [b]) = sum_of a + b) as Hsum.
      { intros a b. induction a as [|x a IH]; cbn; [lia|]. unfold sum_of in *. cbn. lia. }
      rewrite Hsum. lia.
    + apply wp_ret. replace (i - 1) with mon by lia. done.
  - split_and!; [done|lia|lia|f_equal; lia|]. cbn [Z.to_nat Z.sub take sum_of foldr]. rewrite Z.add_0_r. by rewrite wrap_small.
  - lia.
Qed.

Lemma read_clock_run r l : read_clock (replicate 7 r ++ l) =
  Ret ((bcd_to_bin (u8 (r RTC_REG_SEC)), bcd_to_bin (u8 (r RTC_REG_MIN)), bcd_to_bin (u8 (r RTC_REG_HOUR)),
        bcd_to_bin (u8 (r RTC_REG_MDAY)), bcd_to_bin (u8 (r RTC_REG_MON)), bcd_to_bin (u8 (r RTC_REG_YEAR))), l).
Proof.
  unfold read_clock. apply loop_stop. unfold read_field, cmos_read, mbind, ST_bind, mret, ST_ret.
  cbn [replicate app]. by rewrite Z.eqb_refl.
Qed.

(** The clock is read wrong.  When the registers show a date from 1970 to 2037 and do not
    change while they are read, [rtc_get_time] returns after one round of reads, but its answer
    is 26 to 32 days after the date: it counts the days of the current month as well, and takes
    the wrong years for leap years. *)
Theorem rtc_get_time_late year mon mday hour min sec l : 1970 ≤ year ≤ 2037 → 1 ≤ mon ≤ 12 → 1 ≤ mday ≤ 31 →
  0 ≤ hour < 24 → 0 ≤ min < 60 → 0 ≤ sec < 60 →
  ∃ t, rtc_get_time (replicate 7 (clock_at year mon mday hour min sec) ++ l) = Ret (t, l) ∧
    26 * 86400 ≤ t - epoch year mon mday hour min sec ≤ 32 * 86400.
Proof.
  intros Hy Hmo Hd Hh Hmi Hs. unfold rtc_get_time. rewrite (bind_run _ _ _ _ _ (read_clock_run _ _)).
  unfold clock_at. cbn [Z.eqb Pos.eqb RTC_REG_SEC RTC_REG_MIN RTC_REG_HOUR RTC_REG_MDAY RTC_REG_MON RTC_REG_YEAR].
  pose proof (Z.mod_pos_bound year 100 ltac:(lia)). rewrite !bcd_roundtrip by lia. cbv beta iota zeta.
  assert ((if year mod 100 <? 70 then year mod 100 + 100 else year mod 100) - 70 = year - 1970) as ->.
  { assert (19 ≤ year / 100 < 21) by (split; [apply Z.div_le_lower_bound|apply Z.div_lt_upper_bound]; lia). pose proof (Z.div_mod year 100 ltac:(lia)).
    destruct (Z.ltb_spec (year mod 100) 70); lia. }
  set (y := year - 1970) in *. assert (0 ≤ y ≤ 67) as Hy' by lia.
  assert (0 ≤ Z.quot (y - 1) 4 ≤ 16 ∧ (y + 1) / 4 - 1 ≤ Z.quot (y - 1) 4 ≤ (y + 1) / 4) as Hq.
  { destruct (decide (y = 0)) as [->|Hne]; [by vm_compute|]. rewrite Z.quot_div_nonneg by lia. clearbody y. clear -Hy' Hne. Z.div_mod_to_equations. lia. }
  rewrite (wrap_small 32 (_ * 24 * 60 * 60)) by (unfold fits; lia).
  assert (fits 32 ((y * 365 + Z.quot (y - 1) 4) * 24 * 60 * 60)) as Hfit by (unfold fits; lia).
  rewrite (bind_run _ _ _ _ _ (add_months_run _ _ _ Hmo Hfit)).
  assert (∃ b dm, sum_of (take (Z.to_nat mon) days_per_month) = b + dm ∧ sum_of (take (Z.to_nat (mon - 1)) days_per_month) = b ∧
    0 ≤ b ≤ 334 ∧ 28 ≤ dm ≤ 31) as (b & dm & E1 & E2 & Hb & Hdm).
  { assert (Forall (λ mon, sum_of (take (Z.to_nat mon) days_per_month) =
          sum_of (take (Z.to_nat (mon - 1)) days_per_month) + default 0 (days_per_month !! Z.to_nat (mon - 1)) ∧
        0 ≤ sum_of (take (Z.to_nat (mon - 1)) days_per_month) ≤ 334 ∧
        28 ≤ default 0 (days_per_month !! Z.to_nat (mon - 1)) ≤ 31) (seqZ 1 12)) as Hall by by_evaluation.
    rewrite Forall_forall in Hall. destruct (Hall mon) as (? & ? & ?); [apply elem_of_seqZ; lia|]. by eexists _, _. }
  unfold epoch. rewrite E1, E2. eexists. split; [reflexivity|]. replace (year - 1969) with (y + 1) by (unfold y; lia). fold y.
  set (leap := if (2 <? mon) && is_leap year then 1 else 0). assert (0 ≤ leap ≤ 1) by (unfold leap; case_match; lia).
  set (base := (y * 365 + Z.quot (y - 1) 4) * 24 * 60 * 60). clearbody leap.
  destruct ((2 <? mon) && (Z.rem y 4 =? 0)); repeat (progress rewrite ?u32_add, <-?Z.add_assoc);
    rewrite wrap_small by (unfold fits, base; lia); unfold base; lia.
Qed.

Lemma rtc_get_time_late_witness : ∃ t, rtc_get_time (replicate 7 (clock_at 1970 1 1 0 0 0) ++ []) = Ret (t, []) ∧
  26 * 86400 ≤ t - epoch 1970 1 1 0 0 0 ≤ 32 * 86400.
Proof. apply (rtc_get_time_late 1970 1 1 0 0 0 []); lia. Defined.
