(* ===== verification/Timer.v ===== *)
(** * Delays: src/src/devices/timer.c

    Time is counted in iterations of the empty loop [busy_wait]: one iteration is one unit, and
    a timer interrupt comes every [period] units.  [ticks] is then a function of the time.  The
    time that the code takes between its loops is not counted. *)
From S2P Require Import Prelude.

Definition TIMER_FREQ : Z := 100.

(** [now] is the time, and [loops_per_tick] the variable of that name. *)
Record tstate := TState { now : Z; loops_per_tick : Z }.
Abbreviation T := (ST tstate).

(** ** Calibration *)

Section calibrate.
Context (period : Z).

Definition ticks (s : tstate) : Z := now s / period.
Definition set_loops (f : Z → Z) : T () := modify (λ s, TState (now s) (f (loops_per_tick s))).

(** [while (loops-- > 0) barrier ();] *)
Definition busy_wait (loops : Z) : T () := modify (λ s, TState (now s + Z.max 0 loops) (loops_per_tick s)).

Definition too_many_loops (loops : Z) : T bool :=
  start ← gets ticks;
  loop (S (Z.to_nat period)) (λ _,
    t ← gets ticks;
    if t =? start then busy_wait 1;; mret (Next ()) else mret (Stop ())) ();;
  start ← gets ticks;
  busy_wait loops;;
  t ← gets ticks;
  mret (negb (start =? t)).

(** The variable doubles at most 22 times before it wraps around. *)
Definition timer_calibrate (intr_on : bool) : T () :=
  assert intr_on;;
  set_loops (λ _, Z.shiftl 1 10);;
  loop 23 (λ _,
    l ← gets loops_per_tick;
    many ← too_many_loops (u32 (Z.shiftl l 1));
    if negb many then
      set_loops (λ l, u32 (Z.shiftl l 1));;
      l ← gets loops_per_tick;
      assert (negb (l =? 0));;
      mret (Next ())
    else mret (Stop ())) ();;
  high_bit ← gets loops_per_tick;
  loop 33 (λ test_bit,
    if negb (test_bit =? Z.shiftr high_bit 10) then
      many ← too_many_loops (Z.lor high_bit test_bit);
      (if negb many then set_loops (λ l, Z.lor l test_bit) else mret ());;
      mret (Next (Z.shiftr test_bit 1))
    else mret (Stop ())) (Z.shiftr high_bit 1).
End calibrate.

(** ** Waiting for a time

    What [real_time_sleep] and [real_time_delay] do for [num]/[denom] seconds: sleep for some
    ticks, or run the empty loop some times. *)
Inductive wait := Sleep (ticks : Z) | Busy (loops : Z).

Definition real_time_delay (loops_per_tick num denom : Z) : res wait :=
  if Z.rem denom 1000 =? 0 then
    Ret (Busy (Z.quot (s64 (Z.quot (s64 (loops_per_tick * num)) 1000 * TIMER_FREQ)) (Z.quot denom 1000)))
  else Panic.

Definition real_time_sleep (intr_on : bool) (loops_per_tick num denom : Z) : res wait :=
  let ticks := Z.quot (s64 (num * TIMER_FREQ)) denom in
  if intr_on then
    if 0 <? ticks then Ret (Sleep ticks) else real_time_delay loops_per_tick num denom
  else Panic.

Definition timer_msleep (on : bool) (lpt ms : Z) : res wait := real_time_sleep on lpt ms 1000.
Definition timer_usleep (on : bool) (lpt us : Z) : res wait := real_time_sleep on lpt us (1000 * 1000).
Definition timer_nsleep (on : bool) (lpt ns : Z) : res wait := real_time_sleep on lpt ns (1000 * 1000 * 1000).
Definition timer_mdelay (lpt ms : Z) : res wait := real_time_delay lpt ms 1000.
Definition timer_udelay (lpt us : Z) : res wait := real_time_delay lpt us (1000 * 1000).
Definition timer_ndelay (lpt ns : Z) : res wait := real_time_delay lpt ns (1000 * 1000 * 1000).

(** ** What calibration finds *)

Section proofs.
Context (period : Z) (Hp : 0 < period).

Lemma too_many_loops_run s loops : 0 ≤ loops →
  ∃ s', too_many_loops period loops s = Ret (period <=? loops, s') ∧ loops_per_tick s' = loops_per_tick s.
Proof.
  intros Hl. unfold too_many_loops. erewrite bind_run; [|reflexivity].
  destruct (wp_inv (loop (S (Z.to_nat period)) (λ _ : (), t ← gets (ticks period);
      if t =? ticks period s then busy_wait 1;; mret (Next ()) else mret (Stop ())) ()) s
    (λ _ s', now s' mod period = 0 ∧ loops_per_tick s' = loops_per_tick s)) as ([] & s1 & Hrun & Hmod & Hlp).
  { apply (wp_loop (λ n _ s', loops_per_tick s' = loops_per_tick s ∧ now s ≤ now s' ≤ (ticks period s + 1) * period ∧
      n = Z.to_nat ((ticks period s + 1) * period - now s'))) with (n := Z.to_nat ((ticks period s + 1) * period - now s)).
    - intros n [] s' (Hlp & Hn & ->). wp_step. apply wp_gets.
      pose proof (Z.div_mod (now s) period ltac:(lia)) as E. pose proof (Z.mod_pos_bound (now s) period Hp) as Hb. fold (ticks period s) in E.
      destruct (decide (now s' = (ticks period s + 1) * period)) as [Eq|Hne].
      + assert (ticks period s' = ticks period s + 1) as -> by (unfold ticks at 1; rewrite Eq; apply Z.div_mul; lia).
        rewrite (proj2 (Z.eqb_neq _ _)) by lia. apply wp_ret. split; [rewrite Eq; apply Z.mod_mul; lia|done].
      + assert (ticks period s' = ticks period s) as ->.
        { unfold ticks at 1. symmetry. apply (Z.div_unique _ _ _ (now s' - period * ticks period s)); lia. }
        rewrite Z.eqb_refl. wp_step. apply wp_modify. apply wp_ret. exists (Z.to_nat ((ticks period s + 1) * period - (now s' + Z.max 0 1))).
        cbn [now loops_per_tick]. split; [lia|]. split; [done|]. split; [lia|done].
    - pose proof (Z.div_mod (now s) period ltac:(lia)) as E. pose proof (Z.mod_pos_bound (now s) period Hp). fold (ticks period s) in E.
      split; [done|]. split; [lia|done].
    - pose proof (Z.div_mod (now s) period ltac:(lia)) as E. pose proof (Z.mod_pos_bound (now s) period Hp). fold (ticks period s) in E. lia. }
  rewrite (bind_run _ _ _ _ _ Hrun). erewrite bind_run; [|reflexivity]. erewrite bind_run; [|reflexivity]. erewrite bind_run; [|reflexivity].
  exists (TState (now s1 + Z.max 0 loops) (loops_per_tick s1)). split; [|exact Hlp]. unfold mret, ST_ret. do 2 f_equal. unfold ticks. cbn [now].
  pose proof (Z.div_mod (now s1) period ltac:(lia)) as E. set (q := now s1 / period) in *. rewrite Hmod in E.
  replace (now s1 + Z.max 0 loops) with (loops + q * period) by lia. rewrite Z.div_add by lia.
  destruct (Z.leb_spec period loops).
  - apply negb_true_iff, Z.eqb_neq. pose proof (Z.div_le_lower_bound loops period 1 Hp ltac:(lia)). lia.
  - rewrite Z.div_small by lia. by rewrite Z.add_0_l, Z.eqb_refl.
Qed.

(** The first loop finds the highest power of two below the period. *)
Lemma double_loop_run s : 1024 < period ≤ 2 ^ 31 → loops_per_tick s = 1024 →
  wp (loop 23 (λ _ : (),
    l ← gets loops_per_tick;
    many ← too_many_loops period (u32 (Z.shiftl l 1));
    if negb many then
      set_loops (λ l, u32 (Z.shiftl l 1));;
      l ← gets loops_per_tick;
      assert (negb (l =? 0));;
      mret (Next ())
    else mret (Stop ())) ()) s (λ _ s', ∃ k, 10 ≤ k ≤ 30 ∧ loops_per_tick s' = 2 ^ k ∧ 2 ^ k < period ≤ 2 ^ (k + 1)).
Proof.
  intros Hr Hs. apply (wp_loop (λ n _ s', ∃ k, 10 ≤ k ≤ 30 ∧ loops_per_tick s' = 2 ^ k ∧ 2 ^ k < period ∧ n = Z.to_nat (30 - k)))
    with (n := 20%nat); [|exists 10; rewrite Hs; split_and!; (done || lia)|lia].
  intros n [] s' (k & Hk & Hl & Hlt & ->). wp_step. apply wp_gets. rewrite Hl, Z.shiftl_mul_pow2 by lia.
  replace (2 ^ k * 2 ^ 1) with (2 ^ (k + 1)) by (rewrite Z.pow_add_r by lia; lia).
  assert (2 ^ (k + 1) ≤ 2 ^ 31) by (apply Z.pow_le_mono_r; lia). assert (0 < 2 ^ (k + 1)) by (apply Z.pow_pos_nonneg; lia).
  rewrite wrap_small by (unfold fits; lia).
  destruct (too_many_loops_run s' (2 ^ (k + 1)) ltac:(lia)) as (s1 & Hrun & Hl1). wp_bind_by ltac:(exact Hrun).
  destruct (Z.leb_spec period (2 ^ (k + 1))) as [Hle|Hgt]; cbn [negb].
  - apply wp_ret. exists k. rewrite Hl1, Hl. split_and!; (done || lia).
  - assert (k < 30) as Hk30 by (destruct (decide (k = 30)) as [->|]; [change (2 ^ (30 + 1)) with (2 ^ 31) in *; lia|lia]).
    wp_step. apply wp_modify. wp_step. apply wp_gets. cbn [loops_per_tick]. rewrite Hl1, Hl, Z.shiftl_mul_pow2 by lia.
    replace (2 ^ k * 2 ^ 1) with (2 ^ (k + 1)) by (rewrite Z.pow_add_r by lia; lia). rewrite wrap_small by (unfold fits; lia).
    wp_step. apply wp_assert; [apply negb_true_iff, Z.eqb_neq; lia|]. apply wp_ret.
    exists (Z.to_nat (30 - (k + 1))). split; [lia|]. exists (k + 1). cbn [loops_per_tick]. split_and!; (done || lia).
Qed.

Lemma lor_pow2 a b : 0 ≤ a → 0 ≤ b → a ≠ b → Z.lor (2 ^ a) (2 ^ b) = 2 ^ a + 2 ^ b.
Proof.
  intros Ha Hb Hne. assert (Z.land (2 ^ a) (2 ^ b) = 0) as E.
  { apply Z.bits_inj'. intros i Hi. rewrite Z.land_spec, !Z.pow2_bits_eqb, Z.bits_0 by lia.
    destruct (Z.eqb_spec a i), (Z.eqb_spec b i); (done || lia). }
  by rewrite Z.add_nocarry_lxor, Z.lxor_lor.
Qed.

(** The second loop tries each of the nine bits below the highest one, alone. *)
Lemma refine_loop_run s k : 10 ≤ k ≤ 30 → loops_per_tick s = 2 ^ k →
  wp (loop 33 (λ test_bit,
    if negb (test_bit =? Z.shiftr (2 ^ k) 10) then
      many ← too_many_loops period (Z.lor (2 ^ k) test_bit);
      (if negb many then set_loops (λ l, Z.lor l test_bit) else mret ());;
      mret (Next (Z.shiftr test_bit 1))
    else mret (Stop ())) (Z.shiftr (2 ^ k) 1)) s
  (λ _ s', ∀ i, 0 ≤ i → Z.testbit (loops_per_tick s') i = (i =? k) || ((k - 9 <=? i) && (i <? k) && (2 ^ k + 2 ^ i <? period))).
Proof.
  intros Hk Hs. assert (∀ j, 0 ≤ j ≤ k → Z.shiftr (2 ^ k) j = 2 ^ (k - j)) as Hsh.
  { intros j Hj. rewrite Z.shiftr_div_pow2 by lia. replace k with (k - j + j) at 1 by lia. rewrite Z.pow_add_r by lia. apply Z.div_mul. lia. }
  rewrite !Hsh by lia.
  apply (wp_loop (λ n b s', ∃ j, k - 10 ≤ j < k ∧ b = 2 ^ j ∧ n = Z.to_nat (j - (k - 10)) ∧
    ∀ i, 0 ≤ i → Z.testbit (loops_per_tick s') i = (i =? k) || ((j <? i) && (i <? k) && (2 ^ k + 2 ^ i <? period)))) with (n := 9%nat).
  - intros n b s' (j & Hj & -> & -> & Hbits). destruct (Z.eqb_spec (2 ^ j) (2 ^ (k - 10))) as [E|Hne]; cbn [negb].
    + apply Z.pow_inj_r in E as ->; [|lia..]. apply wp_ret. intros i Hi. rewrite Hbits by done.
      replace (k - 10 <? i) with (k - 9 <=? i); [done|]. destruct (Z.leb_spec (k - 9) i), (Z.ltb_spec (k - 10) i); (done || lia).
    + assert (j ≠ k - 10) by congruence. rewrite lor_pow2 by lia.
      destruct (too_many_loops_run s' (2 ^ k + 2 ^ j)) as (s1 & Hrun & Hl1); [pose proof (Z.pow_nonneg 2 k); pose proof (Z.pow_nonneg 2 j); lia|].
      wp_bind_by ltac:(exact Hrun). apply wp_bind. eapply (wp_mono _ _ (λ _ s', ∀ i, 0 ≤ i → Z.testbit (loops_per_tick s') i =
        (i =? k) || ((j - 1 <? i) && (i <? k) && (2 ^ k + 2 ^ i <? period)))).
      * assert (∀ i, (j - 1 <? i) = (j <? i) || (j =? i)) as Hsplit by (intros i; destruct (Z.ltb_spec (j - 1) i), (Z.ltb_spec j i), (Z.eqb_spec j i); (done || lia)).
        destruct (Z.leb_spec period (2 ^ k + 2 ^ j)) as [Hle|Hgt]; cbn [negb].
        -- apply wp_ret. intros i Hi. rewrite Hl1, Hbits, Hsplit by done. destruct (Z.eqb_spec j i) as [<-|]; [|by rewrite orb_false_r].
           rewrite Z.ltb_irrefl, (proj2 (Z.ltb_ge (2 ^ k + 2 ^ j) period)) by lia. by rewrite !andb_false_r.
        -- apply wp_modify. intros i Hi. cbn [loops_per_tick]. rewrite Z.lor_spec, Hl1, Hbits, Z.pow2_bits_eqb, Hsplit by lia.
           destruct (Z.eqb_spec j i) as [<-|]; [|by rewrite !orb_false_r].
           rewrite Z.ltb_irrefl, (proj2 (Z.ltb_lt j k)), (proj2 (Z.ltb_lt (2 ^ k + 2 ^ j) period)) by lia. by rewrite !orb_true_r.
      * intros [] s2 Hbits2. apply wp_ret. exists (Z.to_nat (j - 1 - (k - 10))). split; [lia|]. exists (j - 1).
        split; [lia|]. split; [|done]. rewrite Z.shiftr_div_pow2 by lia. replace j with (j - 1 + 1) at 1 by lia.
        rewrite Z.pow_add_r by lia. apply Z.div_mul. lia.
  - exists (k - 1). split; [lia|]. split; [done|]. split; [lia|]. intros i Hi. rewrite Hs, Z.pow2_bits_eqb by lia.
    rewrite Z.eqb_sym. destruct (Z.eqb_spec i k); [done|]. destruct (Z.ltb_spec (k - 1) i), (Z.ltb_spec i k); (done || lia).
  - lia.
Qed.
End proofs.

(** C37: [timer_calibrate] returns for every timer period of 1025 to [2^31] loops.  It finds the
    highest power of two below the period, and then sets each of the nine bits below it for
    which the power of two and this bit alone stay below the period; so the result has the right
    order of magnitude, but it exceeds the period when two of the bits fit one by one and not
    together.  The comment in the source speaks of the next 8 bits.  For a longer period the
    loop shifts the last bit out and its assertion fails. *)
Theorem timer_calibrate_correct period s : 1024 < period ≤ 2 ^ 31 →
  ∃ s' k, timer_calibrate period true s = Ret ((), s') ∧ 10 ≤ k ≤ 30 ∧ 2 ^ k < period ≤ 2 ^ (k + 1) ∧
    2 ^ k ≤ loops_per_tick s' < 2 ^ (k + 1) ∧
    (∀ i, 0 ≤ i < k → Z.testbit (loops_per_tick s') i = (k - 9 <=? i) && (2 ^ k + 2 ^ i <? period)) ∧
    (period = 2 ^ k + 2 ^ (k - 1) + 1 → period < loops_per_tick s').
Proof.
  intros Hper. unfold timer_calibrate. erewrite bind_run; [|reflexivity]. erewrite bind_run; [|reflexivity].
  destruct (wp_inv _ _ _ (double_loop_run period ltac:(lia) (TState (now s) (Z.shiftl 1 10)) Hper eq_refl)) as ([] & s1 & Hr1 & k & Hk & Hl & Hpk).
  rewrite (bind_run _ _ _ _ _ Hr1). erewrite bind_run; [|reflexivity]. rewrite Hl.
  destruct (wp_inv _ _ _ (refine_loop_run period ltac:(lia) s1 k Hk Hl)) as ([] & s2 & Hr2 & Hbits).
  exists s2, k. split; [exact Hr2|]. split; [done|]. split; [done|]. set (r := loops_per_tick s2) in *.
  assert (fits (k + 1) r) as Hfit.
  { apply fits_bits; [lia|]. intros i Hi. rewrite Hbits by lia. destruct (Z.eqb_spec i k), (Z.ltb_spec i k); [lia..|]. by rewrite andb_false_r. }
  assert (2 ^ k ≤ r) as Hge.
  { apply Z.nlt_ge. intros Hlt. assert (fits k r) as Hf by (split; [apply Hfit|done]). rewrite fits_bits in Hf by lia.
    specialize (Hf k ltac:(lia)). rewrite Hbits, Z.eqb_refl in Hf by lia. done. }
  split; [split; [done|apply Hfit]|]. split.
  { intros i Hi. rewrite Hbits by lia. rewrite (proj2 (Z.eqb_neq i k)), (proj2 (Z.ltb_lt i k)) by lia. by rewrite andb_true_r. }
  intros Eper. assert (2 ^ k = 4 * 2 ^ (k - 2) ∧ 2 ^ (k - 1) = 2 * 2 ^ (k - 2)) as [E1 E2].
  { replace k with (k - 2 + 2) at 1 by lia. replace (k - 1) with (k - 2 + 1) by lia. rewrite !Z.pow_add_r by lia. lia. }
  assert (256 ≤ 2 ^ (k - 2)) as H256 by (change 256 with (2 ^ 8); apply Z.pow_le_mono_r; lia).
  assert (Z.testbit r (k - 1) = true ∧ Z.testbit r (k - 2) = true ∧ Z.testbit r k = true) as (B1 & B2 & B3).
  { rewrite !Hbits, Z.eqb_refl by lia. rewrite (proj2 (Z.leb_le (k - 9) (k - 1))), (proj2 (Z.leb_le (k - 9) (k - 2))),
      (proj2 (Z.ltb_lt (k - 1) k)), (proj2 (Z.ltb_lt (k - 2) k)), (proj2 (Z.ltb_lt (2 ^ k + 2 ^ (k - 1)) period)),
      (proj2 (Z.ltb_lt (2 ^ k + 2 ^ (k - 2)) period)) by lia. by rewrite !orb_true_r. }
  set (m := Z.lor (2 ^ k) (Z.lor (2 ^ (k - 1)) (2 ^ (k - 2)))).
  assert (Z.ldiff m r = 0) as Hm.
  { apply Z.bits_inj'. intros i Hi. unfold m. rewrite Z.ldiff_spec, !Z.lor_spec, !Z.pow2_bits_eqb, Z.bits_0 by lia.
    destruct (Z.eqb_spec k i) as [<-|]; [by rewrite B3|]. destruct (Z.eqb_spec (k - 1) i) as [<-|]; [by rewrite B1|].
    destruct (Z.eqb_spec (k - 2) i) as [<-|]; [by rewrite B2|done]. }
  assert (m ≤ r) by (pose proof (Z.sub_nocarry_ldiff r m Hm); pose proof (proj2 (Z.ldiff_nonneg r m) (or_introl (proj1 Hfit))); lia).
  assert (m = 2 ^ k + 2 ^ (k - 1) + 2 ^ (k - 2)) as Em.
  { unfold m. rewrite lor_pow2 by lia. rewrite <-(lor_pow2 (k - 1)) by lia.
    rewrite <-Z.add_assoc, <-(lor_pow2 (k - 1) (k - 2)) by lia. symmetry.
    rewrite Z.add_nocarry_lxor, Z.lxor_lor; [done|..]; apply Z.bits_inj'; intros i Hi;
      rewrite Z.land_spec, Z.lor_spec, !Z.pow2_bits_eqb, Z.bits_0 by lia;
      destruct (Z.eqb_spec k i), (Z.eqb_spec (k - 1) i), (Z.eqb_spec (k - 2) i); (done || lia). }
  lia.
Qed.

(** A timer of 1537 loops is taken for one of 2046. *)
Lemma timer_calibrate_correct_witness : ∃ s' k, timer_calibrate 1537 true (TState 0 0) = Ret ((), s') ∧
  2 ^ k < 1537 ≤ 2 ^ (k + 1) ∧ 2 ^ k ≤ loops_per_tick s' < 2 ^ (k + 1).
Proof.
  destruct (timer_calibrate_correct 1537 (TState 0 0) ltac:(lia)) as (s' & k & Hr & _ & Hk & Hl & _).
  exists s', k. exact (conj Hr (conj Hk Hl)).
Defined.

Example calibrate_example : match timer_calibrate 1537 true (TState 0 0) with Ret (_, s) => loops_per_tick s | _ => 0 end = 2046.
Proof. by vm_compute. Qed.

(** ** Waiting *)

(** A delay is never too long, and too short by less than a unit for each thousandth of
    [denom]: for times up to 2^31 units the loop runs between one round less than the exact
    number, reckoned from the calibration and rounded to thousandths, and the exact number; a
    sleep of at least a tick sleeps for the whole ticks in it. *)
Theorem real_time_sleep_bounds lpt num denom : fits 32 lpt → 0 ≤ num < 2 ^ 31 → denom = 1000 ∨ denom = 1000000 ∨ denom = 1000000000 →
  (denom ≤ num * TIMER_FREQ → ∃ t, real_time_sleep true lpt num denom = Ret (Sleep t) ∧ t * denom ≤ num * TIMER_FREQ < (t + 1) * denom) ∧
  (num * TIMER_FREQ < denom → ∃ l, real_time_sleep true lpt num denom = Ret (Busy l) ∧
     l * denom ≤ lpt * num * TIMER_FREQ < (l + 1) * denom + 1000 * TIMER_FREQ).
Proof.
  intros Hl Hn Hd. unfold fits in Hl. assert (0 < denom ≤ 1000000000 ∧ Z.rem denom 1000 = 0 ∧ denom = 1000 * Z.quot denom 1000 ∧ 0 < Z.quot denom 1000)
    as (Hdp & Hd1 & Hd2 & Hd3) by (destruct Hd as [->|[-> | ->]]; by vm_compute).
  unfold real_time_sleep, real_time_delay, TIMER_FREQ. rewrite swrap_small by lia. rewrite Z.quot_div_nonneg by lia.
  split; intros Hlong.
  - pose proof (Z.div_le_lower_bound (num * 100) denom 1 ltac:(lia) ltac:(lia)). rewrite (proj2 (Z.ltb_lt _ _)) by lia.
    eexists. split; [reflexivity|]. pose proof (Z.div_mod (num * 100) denom ltac:(lia)). pose proof (Z.mod_pos_bound (num * 100) denom ltac:(lia)). lia.
  - rewrite (Z.div_small (num * 100) denom) by lia. cbn [Z.ltb Z.compare]. rewrite Hd1. cbn [Z.eqb].
    assert (0 ≤ lpt * num < 2 ^ 63) as Hln by nia. rewrite (swrap_small 64 (lpt * num)) by lia. rewrite (Z.quot_div_nonneg (lpt * num)) by lia.
    pose proof (Z.div_mod (lpt * num) 1000 ltac:(lia)) as E1. pose proof (Z.mod_pos_bound (lpt * num) 1000 ltac:(lia)) as B1.
    set (a := lpt * num / 1000) in *. assert (0 ≤ a) by (apply Z.div_pos; lia).
    rewrite swrap_small by lia. set (e := Z.quot denom 1000) in *. rewrite Z.quot_div_nonneg by lia.
    eexists. split; [reflexivity|]. pose proof (Z.div_mod (a * 100) e ltac:(lia)) as E2. pose proof (Z.mod_pos_bound (a * 100) e ltac:(lia)) as B2.
    set (l := a * 100 / e) in *. nia.
Qed.

Lemma real_time_sleep_bounds_witness : ∃ l, timer_usleep true 2046 100 = Ret (Busy l) ∧
  l * 1000000 ≤ 2046 * 100 * TIMER_FREQ < (l + 1) * 1000000 + 1000 * TIMER_FREQ.
Proof.
  destruct (real_time_sleep_bounds 2046 100 1000000) as [_ Hb]; [unfold fits; lia|lia|auto|].
  destruct Hb as (l & Hr & Hl); [unfold TIMER_FREQ; lia|]. exists l. exact (conj Hr Hl).
Defined.
