(* ===== verification/BitmapFile.v ===== *)
(** * Bitmaps in files: [bitmap_file_size], [bitmap_read] and [bitmap_write] of
    src/src/lib/kernel/bitmap.c

    The elements are stored little-endian, over the open files of File. *)
From S2P Require Import Prelude KList CString Bitmap Directory DirectoryProofs File FileProofs.

(** The bytes of an array of elements, and the elements of an array of bytes. *)
Definition elem_bytes (ws : list Z) : bytes := concat (le32 <$> ws).
Fixpoint elems_of (n : nat) (bs : bytes) : list Z :=
  match n with O => [] | S n => of_le32 (take 4 bs) :: elems_of n (drop 4 bs) end.

Definition bitmap_file_size : BM Z := gets (λ b, byte_cnt (bit_cnt b)).

Section files.
Context {S : Type} `{InodeLayer S}.

Definition bitmap_write (b : bitmap) (file : addr) : ST (fstate S) bool :=
  let size := s32 (byte_cnt (bit_cnt b)) in
  n ← file_write_at file (take (Z.to_nat size) (elem_bytes (bits b))) 0;
  mret (n =? size).

(** The answer is whether the file was long enough, and the bitmap. *)
Definition bitmap_read (b : bitmap) (file : addr) : ST (fstate S) (bool * bitmap) :=
  if 0 <? bit_cnt b then
    let size := s32 (byte_cnt (bit_cnt b)) in
    bs ← file_read_at file size 0;
    let read := Bitmap (bit_cnt b) (elems_of (length (bits b)) (bs ++ drop (length bs) (elem_bytes (bits b)))) in
    let last := u32 (elem_cnt (bit_cnt b) - 1) in
    '(w, b') ← lift (ld_elem last read);
    '(_, b') ← lift (st_elem last (Z.land w (last_mask b')) b');
    mret (Z.of_nat (length bs) =? size, b')
  else mret (true, b).

(** ** Elements and bytes *)

Lemma length_elem_bytes ws : length (elem_bytes ws) = (4 * length ws)%nat.
Proof. induction ws as [|w ws IH]; [done|]. unfold elem_bytes in *. cbn [fmap list_fmap concat]. rewrite length_app, IH. cbn. lia. Qed.

Lemma elems_roundtrip ws : Forall (fits 32) ws → elems_of (length ws) (elem_bytes ws) = ws.
Proof.
  induction 1 as [|w ws Hw Hws IH]; [done|]. unfold elem_bytes in *. cbn [length elems_of fmap list_fmap concat].
  rewrite take_app_length', drop_app_length', of_le32_le32 by done. f_equal. exact IH.
Qed.

(** *** The last element *)

Section last.
Context (b : bitmap) (Hwf : bitmap_wf b) (Hpos : 0 < bit_cnt b).

Lemma last_index : u32 (elem_cnt (bit_cnt b) - 1) = elem_idx (bit_cnt b - 1).
Proof.
  pose proof (wf_cnt b Hwf). rewrite elem_cnt_exact by lia. unfold elem_idx, ELEM_BITS.
  assert ((bit_cnt b + 31) / 32 - 1 = (bit_cnt b - 1) / 32) as ->.
  { replace (bit_cnt b + 31) with (bit_cnt b - 1 + 1 * 32) by lia. rewrite Z.div_add by lia. lia. }
  apply wrap_small. unfold fits. split; [apply Z.div_pos; lia|apply Z.div_lt_upper_bound; lia].
Qed.

Lemma last_mask_fits : fits 32 (last_mask b).
Proof. unfold last_mask. case_match; by apply wrap_fits. Qed.

Lemma last_mask_bit j : 0 ≤ j < bit_cnt b → j / 32 = (bit_cnt b - 1) / 32 → Z.testbit (last_mask b) (j mod 32) = true.
Proof.
  intros Hj E. pose proof (Z.mod_pos_bound j 32 ltac:(lia)) as Hm. unfold last_mask, ELEM_BITS.
  destruct (Z.eqb_spec (bit_cnt b mod 32) 0) as [E0|Hne].
  - change (u32 (-1)) with (Z.ones 32). apply Z.ones_spec_low. lia.
  - assert (0 ≤ bit_cnt b mod 32 < 32) as Hb by (apply Z.mod_pos_bound; lia).
    assert (Z.shiftl 1 (bit_cnt b mod 32) - 1 = Z.ones (bit_cnt b mod 32)) as ->.
    { rewrite Z.shiftl_1_l, Z.ones_equiv. lia. }
    rewrite wrap_testbit, Z.ones_spec_low, (proj2 (Z.ltb_lt (j mod 32) 32)); [done|..]; try lia.
    split; [lia|]. Z.div_mod_to_equations. lia.
Qed.

(** Masking the last element changes no bit of the bitmap. *)
Lemma mask_last_run : ∃ w b', ld_elem (u32 (elem_cnt (bit_cnt b) - 1)) b = Ret (w, b) ∧
  st_elem (u32 (elem_cnt (bit_cnt b) - 1)) (Z.land w (last_mask b)) b = Ret ((), b') ∧
  bitmap_wf b' ∧ bit_cnt b' = bit_cnt b ∧ ∀ j, 0 ≤ j < bit_cnt b → bit b' j = bit b j.
Proof.
  rewrite last_index. destruct (ld_elem_run b Hwf (bit_cnt b - 1) ltac:(lia)) as (w & Hld & Hw & Hfw & _).
  destruct (st_elem_run b Hwf (bit_cnt b - 1) ltac:(lia) (Z.land w (last_mask b))) as (b' & Hst & Hwf' & Hc & Hb); [by apply fits_land|].
  exists w, b'. split_and!; [done..|]. intros j Hj. rewrite Hb by done.
  destruct (Z.eqb_spec (j / 32) ((bit_cnt b - 1) / 32)) as [E|]; [|done].
  rewrite Z.land_spec, last_mask_bit, andb_true_r by done. unfold bit. by rewrite E, Hw.
Qed.
End last.

Lemma byte_cnt_exact b : bitmap_wf b → s32 (byte_cnt (bit_cnt b)) = 4 * Z.of_nat (length (bits b)).
Proof.
  intros [Hc Hl _]. unfold byte_cnt. rewrite <-Hl. rewrite elem_cnt_exact in Hl by lia.
  assert ((bit_cnt b + 31) / 32 < 2 ^ 28) by (apply Z.div_lt_upper_bound; lia).
  rewrite wrap_small by (unfold fits; lia). apply swrap_small; lia.
Qed.

(** A bitmap that is written to a file is read back: when the file is long enough and open to
    writers, [bitmap_write] succeeds, and [bitmap_read] into a bitmap of the same size, whatever
    it held, succeeds and gives a well-formed bitmap with the same bits. *)
Theorem bitmap_file_roundtrip (t : fstate S) p f fbs b c :
  files t !! p = Some f → contents (inodes t) (f_inode f) = Some fbs → denied (inodes t) (f_inode f) = 0 →
  bitmap_wf b → bitmap_wf c → bit_cnt c = bit_cnt b → byte_cnt (bit_cnt b) ≤ Z.of_nat (length fbs) →
  ∃ t1 t2 b', bitmap_write b p t = Ret (true, t1) ∧ bitmap_read c p t1 = Ret ((true, b'), t2) ∧
    bitmap_wf b' ∧ bit_cnt b' = bit_cnt b ∧ ∀ i, 0 ≤ i < bit_cnt b → bit b' i = bit b i.
Proof.
  intros Hf Hc Hd Hb Hcw Hcnt Hlen. pose proof (byte_cnt_exact b Hb) as Hsize.
  assert (length (bits c) = length (bits b)) as Hlc.
  { pose proof (byte_cnt_exact c Hcw) as Hs'. rewrite Hcnt, Hsize in Hs'. lia. }
  assert (byte_cnt (bit_cnt b) = 4 * Z.of_nat (length (bits b))) as Hbc.
  { pose proof (wf_len _ Hb) as Hl. pose proof (wf_cnt _ Hb). rewrite elem_cnt_exact in Hl by lia. unfold byte_cnt. rewrite elem_cnt_exact, <-Hl by lia.
    apply wrap_small. assert ((bit_cnt b + 31) / 32 < 2 ^ 28) by (apply Z.div_lt_upper_bound; lia). unfold fits. lia. }
  pose proof (length_elem_bytes (bits b)) as Heb.
  destruct (inode_write_law (inodes t) (f_inode f) fbs (elem_bytes (bits b)) 0 Hc ltac:(lia)) as (n & s1 & Hw & Hn & Hc1 & _).
  rewrite decide_True in Hn by done. assert (n = 4 * Z.of_nat (length (bits b))) as -> by lia. clear Hn.
  rewrite (take_ge (elem_bytes _)) in Hc1 by lia. change (Z.to_nat 0) with 0%nat in Hc1. rewrite take_0, app_nil_l in Hc1.
  destruct (inode_read_law s1 (f_inode f) _ (4 * Z.of_nat (length (bits b))) 0 Hc1 ltac:(lia)) as (s2 & Hr & _).
  change (Z.to_nat 0) with 0%nat in Hr. rewrite drop_0 in Hr. rewrite take_app_length' in Hr by lia.
  exists (FState (files t) s1).
  assert (bitmap_write b p t = Ret (true, FState (files t) s1)) as Hwrite.
  { unfold bitmap_write, file_write_at. rewrite Hsize, take_ge by lia. erewrite bind_run; [|erewrite bind_run; [|by apply ld_file_run];
      by apply on_inodes_run]. by rewrite Z.eqb_refl. }
  assert (file_read_at p (s32 (byte_cnt (bit_cnt c))) 0 (FState (files t) s1) = Ret (elem_bytes (bits b), FState (files t) s2)) as Hread.
  { rewrite Hcnt, Hsize. unfold file_read_at. erewrite bind_run; [|by apply ld_file_run]. by apply (on_inodes_run _ (FState (files t) s1)). }
  unfold bitmap_read. destruct (Z.ltb_spec 0 (bit_cnt c)) as [Hpos|Hz].
  2: { exists (FState (files t) s1), c. split_and!; [done..|]. intros i Hi. lia. }
  rewrite (bind_run _ _ _ _ _ Hread). rewrite drop_ge by (rewrite !length_elem_bytes; lia).
  rewrite app_nil_r, Hlc, elems_roundtrip by apply Hb. rewrite Hcnt. assert (Bitmap (bit_cnt b) (bits b) = b) as -> by by destruct b.
  destruct (mask_last_run b Hb ltac:(lia)) as (w & b' & Hld & Hst & Hwf' & Hc' & Hbits).
  exists (FState (files t) s2), b'. split; [done|]. split; [|done]. cbv zeta. erewrite bind_run; [|unfold lift; by rewrite Hld].
  cbv beta iota. erewrite bind_run; [|unfold lift; by rewrite Hst]. cbv beta iota. rewrite Hsize, Heb.
  unfold mret, ST_ret. do 3 f_equal. apply Z.eqb_eq. lia.
Qed.
End files.

Lemma bitmap_file_roundtrip_witness : ∃ t1 t2 b', bitmap_write (Bitmap 20 [0x55555]) 200 two_files = Ret (true, t1) ∧
  bitmap_read (Bitmap 20 [7]) 200 t1 = Ret ((true, b'), t2) ∧ bitmap_wf b' ∧ bit_cnt b' = 20 ∧ ∀ i, 0 ≤ i < 20 → bit b' i = bit (Bitmap 20 [0x55555]) i.
Proof.
  apply (bitmap_file_roundtrip two_files 200 (File 8 4 false) (of_string "0123456789") (Bitmap 20 [0x55555]) (Bitmap 20 [7]));
    [reflexivity|reflexivity|reflexivity|split; [done|done|by repeat constructor]|split; [done|done|by repeat constructor]|done|by vm_compute].
Defined.
